(* ===== verification/_CoqProject ===== *)
-Q . S2P
Prelude.v
Meter.v
Language.v
World.v
WorldFacts.v
Machine.v
Fixture.v
MachineInv.v
Actions.v
Ticks.v
Runs.v
Bytes.v
PrefixFree.v
ProgramCodec.v
WorldCodec.v
StateCodec.v
ResultCodec.v
Manifest.v
Platform.v
PlatformFacts.v
RunClaims.v
CodecClaims.v
PlatformClaims.v
OrderedMap.v
EventLedger.v
History.v
Snapshot.v
LedgerClaims.v
Wire.v
Signed.v
Replay.v
Access.v
Relay.v
Challenge.v
Hashcash.v
Response.v
Admit.v
AdmitFacts.v
SteelThread.v
WitnessSession.v
SteelClaims.v
BotcaptchaClaims.v
Layout.v
Invitation.v
Session.v
Handshake.v
ChatLink.v
SessionClaims.v
SignedClaims.v
ClaimWindow.v
Utf8.v
DirectCodec.v
DirectFacts.v
DirectState.v
DirectChain.v
DirectProof.v
DirectCommit.v
DirectRoom.v
DirectFixture.v
DirectClaims.v
SyncRecords.v
SyncFacts.v
SyncRuns.v
SyncMachine.v
SyncClaims.v
RelayItem.v
RelayFacts.v
RelayPages.v
Mailbox.v
MailboxFacts.v
MailboxFlow.v
RelayClaims.v
RoomRecords.v
RoomFacts.v
RoomAuthority.v
Registry.v
RegistrySteps.v
RegistryInv.v
RegistryRuns.v
RoomClaims.v
