(* ===== verification/Prelude.v ===== *)
(** * The trust core of valhalla

    A library that models the deterministic core of the Rust workspace under
    src/crates and proves what each part promises.  Definitions follow the
    source function by function; a name is the name in the source, or that
    name with its type as a prefix ([World_new], [Frame_new]) where several
    functions share one.

    ** Conventions

    A [w]-bit unsigned integer is an [N]; [fits] and [u] state its range, and
    checked, saturating and wrapping operations are written out in this file.
    Bytes are lists of [N] below 256 ([Bytes.byte]).  [Result<A, E>] is [res E A],
    with a third case [Panic] for an index out of range, an [expect] or an
    [unreachable!], so that the absence of panics is always a theorem.  A
    function with [&mut] arguments is an [eff S E A]: it returns a result and
    the state it leaves, also after an error.  [wp] is its program logic.
    Maps and sets of the source are stdpp's [gmap]s; where the source iterates
    over one in key order, [OrderedMap.entries] lists it in that order, and
    [OrderedMap] also has its binary search in sorted slices.

    Code outside src/ is a parameter: SHA-256 is a function [sha256] of byte
    strings, of which theorems need at most [Sha256] (its output has 32 bytes),
    and Ed25519 is the class [Signed.Ed25519], of which theorems need at most
    [Ed25519Laws].  No theorem assumes that either is secure: those that speak
    of hashes state as an alternative the collision of the two inputs that were
    hashed, and [SessionClaims.handshake_agreement] states as one the forgery
    that was among the delivered bytes.

    ** The parts and their files

    Witness mode, src/crates/vhalla-witness/src:
    - ledger.rs: [Meter] (work counters, fuel, activation windows);
    - bounds.rs and model.rs: [Language] (limits, programs of cells);
    - world.rs: [World], [WorldFacts] (validation, walls, entities);
    - vm.rs: [Machine] (signals, activations, ticks, runs), with its facts in
      [MachineInv] (the state invariant), [Actions], [Ticks] (activations and
      ticks), [Runs] (schedules and runs);
    - codec.rs: [Bytes] (writer, reader and the codec law), [ProgramCodec],
      [WorldCodec], [StateCodec], [ResultCodec], [PrefixFree];
    - hash.rs: [ResultCodec]; manifest.rs: [Manifest] (with assignments);
      platform.rs: [Platform], [PlatformFacts].
    [Fixture] and the end of [PlatformFacts] are the concrete world and task of
    witnesses.

    The event ledger, src/crates/vhalla-ledger/src/lib.rs: [EventLedger]
    (appends, checkpoints, roots), [Snapshot] (encoding and the replaying
    restore), [History] (the abstract machine it refines).

    Authenticated messages: [Wire] (vhalla-core, vhalla-wire), [Signed] and
    [Replay] (vhalla-crypto/src/lib.rs), [SignedClaims] and [ClaimWindow]
    (vhalla-crypto/src/claims.rs), [Access] (vhalla-policy, vhalla-host), [Relay]
    (vhalla-transport and vhalla-session/src/spent_nonce.rs), [SteelThread]
    (vhalla-steel-thread/src/lib.rs, [MemorySession] and [run_once]).

    The bot captcha, src/crates/vhalla-botcaptcha/src: [Challenge]
    (challenge.rs, lib.rs), [Hashcash] (window.rs and hashcash.rs), [Response]
    (response.rs), [Admit] (admit.rs) with [AdmitFacts]; [WitnessSession] is the
    session of vhalla-steel-thread that feeds it.

    Paired sessions, src/crates/vhalla-session/src: [Invitation]
    (invitation.rs), [Session] (lib.rs), with [Handshake] (each step exactly, and
    what signatures bind) and [ChatLink] (sequences of calls, and delivery
    between two sessions).  [Layout] reads fixed-width formats.

    Direct rooms, src/crates/vhalla-direct-room/src: [DirectCodec] (codec.rs and
    records.rs: the three signed records, one [Class] of kinds), [DirectFacts];
    [DirectState] (state.rs: pinned rooms, policy states, author chains and
    their prepared changes); [DirectChain] (history.rs and what a linked chain
    is), [DirectProof] (pages of sealed history), [DirectCommit] (owner updates),
    [DirectRoom] (sequences of calls on one room), [DirectFixture].  [Utf8] holds
    text.

    Direct sync, src/crates/vhalla-direct-sync/src/lib.rs: [SyncRecords]
    (checkpoints, frames, the rolling digest, source and receiver), [SyncFacts],
    [SyncRuns] (what a receiver holds after pages), [SyncMachine] (a receiver
    under any calls).

    The private relay, src/crates/vhalla-private-relay/src: [RelayItem] (lib.rs
    and codec.rs), [RelayFacts], [RelayPages].  Its mailbox, in
    src/crates/vhalla-private-native/src/relay/{mod,codec,net}.rs: [Mailbox] (the
    store in memory, the service of one connection and its client),
    [MailboxFacts] (the store as a log; the interface [MailboxLaws] of any
    mailbox), [MailboxFlow] (a client of any such mailbox).

    The shared room directory, src/crates/vhalla-rooms/src: [RoomRecords]
    (model.rs, wire.rs) and [RoomFacts]; [RoomAuthority] (authority.rs,
    awards.rs); [Registry] (registry.rs); [RegistrySteps] (what each operation
    does, and when), [RegistryInv] (the invariant), [RegistryRuns] (sequences of
    operations, and what extends what).  The view of the social records, which
    src/crates/vhalla-social computes, is a [ControlView]: the answers of its
    accessors, about which nothing is assumed.

    [Bytes.Codec] is the interface between formats and their users: a writer
    and a reader such that the reader accepts exactly what the writer writes.
    [Bytes.parses] is the same for readers that validate in between, and
    [PrefixFree] what signatures and hashes need of an encoding.

    ** What the theorems show

    - [RunClaims]: a run of a validated world never panics, never reports an
      internal error, conserves sparks and energy, stays within its fuel, rolls
      stopped activations back, delivers signals when due and in order; the
      batched meter equals the unit loop it replaces; validation accepts exactly
      what the declarative rules allow.
    - [CodecClaims]: every decoder accepts exactly the canonical bytes of
      well-formed values, and no input makes it panic.
    - [PlatformClaims]: capabilities decide exactly which runs happen, and two
      authorized runs of one task seal to one receipt.
    - [LedgerClaims]: the ledger refines an abstract history; reachable ledgers
      are linear hash chains; restore accepts exactly the snapshots.
    - [SteelClaims]: frames are canonical, admitted once and executed once;
      rotation revokes; the relay is a FIFO queue.
    - [BotcaptchaClaims]: admission is exact, evidence is one-use under any
      sequence of calls and clocks, honest subjects are admitted, hashcash
      solutions are the least and are admitted.
    - [SessionClaims]: in any handshakes of any peers under an adversary that
      delivers the messages ([SessionClaims.handshake_run]), each step that
      succeeds follows the matching step of the other peer; the honest handshake
      completes, conversations are delivered, a chat session is safe under any
      calls; invitations.
    - [ClaimWindow]: signed claims are canonical and their window is exact.
    - [DirectClaims]: records are canonical; the policies of a room form one
      chain of its owner; events are authored only in line with it; the verifier
      of sealed history accepts exactly linked history that ends in the seal;
      owner and author make progress.
    - [SyncClaims]: two receivers that finish against one checkpoint hold the
      same records, or the hash collides on what was hashed; a receiver keeps
      its invariant under any calls; an honest source is received completely.
    - [RelayClaims]: items, frames and pages are canonical; the store is a log
      of distinct items within its limits; any mailbox that keeps its laws is
      served exactly over the wire; a client that follows the cursors ends with
      every item in order.
    - [RoomClaims]: records are canonical and verify exactly by the signatures
      of their roles; a directory keeps its books under any operations
      (slots, prices, credit, rate, histories, indexes, capacities); a creation
      is accepted exactly if all its conditions hold; a refusal changes nothing
      but for an empty chain; a later state always passes as an extension; an
      owner in good standing gets its room.

    ** Bounds and fuel

    Loops over slices and maps are structural.  The others carry fuel:
    [deliver_loop] gets the length of the queue, and each step either removes
    an entry or advances, so [RunClaims.deliver_due_exact] finds it sufficient;
    [EventLedger.chain] gets one more than the number of events, enough for the
    ancestors of any event of a linear history; [find_from] of [Hashcash] gets
    the attempt budget of its caller, which is the loop's own bound; the binary
    search of [OrderedMap] gets the length of the slice, which each step halves;
    the client loop of [MailboxFlow] gets at most one round for each item and
    one more, and each page moves the cursor, so [RelayClaims.mailbox_catch_up]
    finds it sufficient.  Nothing else can run out.  Usize is 64 bits wide.
    Counters of 64 bits are shown not to overflow for runs of fewer than 2^64
    operations.

    ** Not modelled

    Capacity hints, [Debug] output, borrow-only accessors and zeroisation have
    no counterpart.  Terminal, file, socket, browser and database code is I/O
    around this core.  The consensus engine, group cryptography and the
    hash and signature functions are other people's crates.  The social archive
    and its control view (vhalla-social), the parts that read it (attention,
    discovery, retrieval), room activity and the public protocol that carries
    it, the protocol of private groups and the framing of the journal lie
    outside this development; so does the snapshot of the room directory, whose
    restore verifies every record again. *)
From Stdlib Require Export NArith Lia.
From stdpp Require Export base tactics option numbers list.

#[global] Open Scope N_scope.

(** ** Machine integers

    A Rust unsigned integer of [w] bits is an [N]; the range is the predicate
    [fits w].  The [checked_], [saturating_] and [wrapping_] operations of the
    standard library are written out. *)

Definition fits (w n : N) : Prop := n < 2 ^ w.

Definition checked_add (w a b : N) : option N :=
  if a + b <? 2 ^ w then Some (a + b) else None.

Definition checked_sub (a b : N) : option N :=
  if b <=? a then Some (a - b) else None.

Definition saturating_sub (a b : N) : N := a - b.

Definition saturating_add (w a b : N) : N := N.min (a + b) (2 ^ w - 1).

Definition wrap (w n : N) : N := n mod 2 ^ w.

Definition wrapping_add (w a b : N) : N := wrap w (a + b).

Definition wrapping_mul (w a b : N) : N := wrap w (a * b).

Definition abs_diff (a b : N) : N := if a <? b then b - a else a - b.

(** The length of a [Vec] or slice as a [usize]. *)
Definition len {A} (l : list A) : N := N.of_nat (length l).

Definition in_range (lo hi n : N) : bool := (lo <=? n) && (n <=? hi).

(** ** Results

    [Result<A, E>], extended with [Panic] for an out-of-range index or another
    run-time panic of the source, so that panic freedom is a theorem and not a
    convention. *)
Inductive res (E A : Type) : Type :=
| Ok (a : A)
| Err (e : E)
| Panic.
Arguments Ok {E A} a.
Arguments Err {E A} e.
Arguments Panic {E A}.

Definition res_bind {E A B} (m : res E A) (k : A -> res E B) : res E B :=
  match m with
  | Ok a => k a
  | Err e => Err e
  | Panic => Panic
  end.

Definition map_err {E F A} (f : E -> F) (m : res E A) : res F A :=
  match m with
  | Ok a => Ok a
  | Err e => Err (f e)
  | Panic => Panic
  end.

Definition ok_or {E A} (o : option A) (e : E) : res E A :=
  match o with
  | Some a => Ok a
  | None => Err e
  end.

(** [v[i]] on a slice. *)
Definition index {E A} (l : list A) (i : nat) : res E A :=
  match l !! i with
  | Some a => Ok a
  | None => Panic
  end.

Declare Scope res_scope.
Delimit Scope res_scope with res.
Notation "'let?' x ':=' m 'in' k" := (res_bind m (fun x => k))
  (at level 10, x name, m at level 200, k at level 200,
   format "'[v' 'let?'  x  ':='  m  'in' '/' k ']'") : res_scope.
Notation "'let?' ' p ':=' m 'in' k" := (res_bind m (fun p => k))
  (at level 10, p pattern, m at level 200, k at level 200) : res_scope.
Open Scope res_scope.

(** A loop over a slice with early return. *)
Fixpoint res_fold {E A B} (f : B -> A -> res E B) (b : B) (l : list A) : res E B :=
  match l with
  | [] => Ok b
  | x :: l => let? b' := f b x in res_fold f b' l
  end.

Lemma res_fold_app {E A B} (f : B -> A -> res E B) b l k :
  res_fold f b (l ++ k) = let? b' := res_fold f b l in res_fold f b' k.
Proof. revert b. induction l as [|x l IH]; intros b; simpl; [done|]. destruct (f b x); simpl; auto. Qed.

Lemma res_bind_Ok {E A B} (m : res E A) (k : A -> res E B) b :
  res_bind m k = Ok b <-> exists a, m = Ok a /\ k a = Ok b.
Proof. destruct m; simpl; naive_solver. Qed.

(** ** Effects

    Code that takes [&mut] arguments and returns a [Result] is a function from
    the mutable state to a result and the state it leaves behind.  The state
    after an error is kept: the callers observe it. *)
Definition eff (S E A : Type) : Type := S -> res E A * S.

Definition ret {S E A} (a : A) : eff S E A := fun s => (Ok a, s).
Definition throw {S E A} (e : E) : eff S E A := fun s => (Err e, s).
Definition panic {S E A} : eff S E A := fun s => (Panic, s).
Definition get {S E} : eff S E S := fun s => (Ok s, s).
Definition modify {S E} (f : S -> S) : eff S E unit := fun s => (Ok tt, f s).
Definition lift {S E A} (r : res E A) : eff S E A := fun s => (r, s).

Definition bind {S E A B} (m : eff S E A) (k : A -> eff S E B) : eff S E B :=
  fun s =>
    match m s with
    | (Ok a, s') => k a s'
    | (Err e, s') => (Err e, s')
    | (Panic, s') => (Panic, s')
    end.

(** The conversion the [?] operator performs on the error. *)
Definition eff_map_err {S E F A} (f : E -> F) (m : eff S E A) : eff S F A :=
  fun s => let '(r, s') := m s in (map_err f r, s').

(** Run an effect on a part of a larger state. *)
Definition zoom {S T E A} (view : T -> S) (upd : S -> T -> T) (m : eff S E A) : eff T E A :=
  fun t => let '(r, s') := m (view t) in (r, upd s' t).

Fixpoint eff_fold {S E A B} (f : B -> A -> eff S E B) (b : B) (l : list A) : eff S E B :=
  match l with
  | [] => ret b
  | x :: l => bind (f b x) (fun b' => eff_fold f b' l)
  end.

(** [for x in l { f(x)? }] *)
Definition for_each {S E A} (f : A -> eff S E unit) (l : list A) : eff S E unit :=
  eff_fold (fun _ x => f x) tt l.

Declare Scope eff_scope.
Delimit Scope eff_scope with eff.
Notation "'let!' x ':=' m 'in' k" := (bind m (fun x => k))
  (at level 10, x name, m at level 200, k at level 200,
   format "'[v' 'let!'  x  ':='  m  'in' '/' k ']'") : eff_scope.
Notation "'let!' ' p ':=' m 'in' k" := (bind m (fun p => k))
  (at level 10, p pattern, m at level 200, k at level 200) : eff_scope.
Notation "'do!' m 'in' k" := (bind m (fun _ => k))
  (at level 10, m at level 200, k at level 200,
   format "'[v' 'do!'  m  'in' '/' k ']'") : eff_scope.
Open Scope eff_scope.

(** ** Weakest preconditions

    [wp m Q R s]: run from [s], [m] does not panic, a normal return satisfies
    [Q] and an early return satisfies [R]. *)
Definition wp {S E A} (m : eff S E A) (Q : A -> S -> Prop) (R : E -> S -> Prop) (s : S) : Prop :=
  match m s with
  | (Ok a, s') => Q a s'
  | (Err e, s') => R e s'
  | (Panic, _) => False
  end.

Section wp.
Context {S E A B : Type}.
Implicit Types (s : S) (Q : A -> S -> Prop) (R : E -> S -> Prop).

Lemma wp_ret a Q R s : Q a s -> wp (ret a) Q R s.
Proof. done. Qed.

Lemma wp_throw e Q R s : R e s -> wp (throw e) Q R s.
Proof. done. Qed.

Lemma wp_get (Q : S -> S -> Prop) R s : Q s s -> wp get Q R s.
Proof. done. Qed.

Lemma wp_modify f (Q : unit -> S -> Prop) R s : Q tt (f s) -> wp (modify f) Q R s.
Proof. done. Qed.

Lemma wp_bind (m : eff S E A) (k : A -> eff S E B) (Q : B -> S -> Prop) R s :
  wp m (fun a s' => wp (k a) Q R s') R s ->
  wp (bind m k) Q R s.
Proof. unfold wp, bind. destruct (m s) as [[a|e|] s']; done. Qed.

Lemma wp_lift (r : res E A) Q R s :
  match r with Ok a => Q a s | Err e => R e s | Panic => False end ->
  wp (lift r) Q R s.
Proof. done. Qed.

Lemma wp_mono (m : eff S E A) (Q Q' : A -> S -> Prop) (R R' : E -> S -> Prop) s :
  wp m Q R s ->
  (forall a s', Q a s' -> Q' a s') ->
  (forall e s', R e s' -> R' e s') ->
  wp m Q' R' s.
Proof. unfold wp. destruct (m s) as [[a|e|] s']; naive_solver. Qed.

Lemma wp_and (m : eff S E A) (Q Q' : A -> S -> Prop) (R R' : E -> S -> Prop) s :
  wp m Q R s -> wp m Q' R' s ->
  wp m (fun a s' => Q a s' /\ Q' a s') (fun e s' => R e s' /\ R' e s') s.
Proof. unfold wp. destruct (m s) as [[a|e|] s']; done. Qed.
End wp.

Lemma wp_map_err {S E F A} (f : E -> F) (m : eff S E A) Q R s :
  wp m Q (fun e s' => R (f e) s') s -> wp (eff_map_err f m) Q R s.
Proof. unfold wp, eff_map_err. destruct (m s) as [[a|e|] s']; done. Qed.

Lemma wp_zoom {S T E A} (view : T -> S) upd (m : eff S E A) Q R (t : T) :
  wp m (fun a s' => Q a (upd s' t)) (fun e s' => R e (upd s' t)) (view t) ->
  wp (zoom view upd m) Q R t.
Proof. unfold wp, zoom. destruct (m (view t)) as [[a|e|] s']; done. Qed.

(** The loop rule: an invariant kept by every iteration. *)
Lemma wp_fold {S E A B} (f : B -> A -> eff S E B) (I : B -> S -> Prop) R l b s :
  I b s ->
  (forall b x s, x ∈ l -> I b s -> wp (f b x) I R s) ->
  wp (eff_fold f b l) I R s.
Proof.
  revert b s. induction l as [|x l IH]; intros b s HI Hstep; simpl; [done|].
  apply wp_bind. eapply wp_mono; [apply Hstep; [left|done] | | done].
  intros b' s' HI'. apply IH; [done|]. intros. apply Hstep; [by right|done].
Qed.

Lemma wp_for_each {S E A} (f : A -> eff S E unit) (I : S -> Prop) R l s :
  I s ->
  (forall x s, x ∈ l -> I s -> wp (f x) (fun _ => I) R s) ->
  wp (for_each f l) (fun _ => I) R s.
Proof. intros HI Hstep. apply (wp_fold _ (fun _ => I)); auto. Qed.

(** A loop with an invariant on the elements already visited. *)
Lemma wp_for_prefix {S E A} (f : A -> eff S E unit) (I : list A -> S -> Prop) R l s :
  I [] s ->
  (forall before x after s, l = before ++ x :: after -> I before s ->
     wp (f x) (fun _ => I (before ++ [x])) R s) ->
  wp (for_each f l) (fun _ => I l) R s.
Proof.
  intros HI Hstep.
  enough (forall before after s, l = before ++ after -> I before s ->
    wp (for_each f after) (fun _ => I l) R s) as H by by apply (H []).
  intros before after. revert before. induction after as [|x after IH]; intros before s' -> HI'.
  - apply wp_ret. by rewrite app_nil_r.
  - simpl. apply wp_bind. eapply wp_mono; [by eapply Hstep| |done].
    intros [] s2 HI2. apply (IH (before ++ [x])); [by rewrite <- app_assoc|done].
Qed.

(** A loop over a range, with an invariant on the index. *)
Lemma wp_for_range {S E} (f : nat -> eff S E unit) (I : nat -> S -> Prop) R i n s :
  I i s ->
  (forall j s, (i <= j < i + n)%nat -> I j s -> wp (f j) (fun _ => I (Datatypes.S j)) R s) ->
  wp (for_each f (seq i n)) (fun _ => I (i + n)%nat) R s.
Proof.
  revert i s. induction n as [|n IH]; intros i s HI Hstep; simpl.
  - apply wp_ret. by rewrite Nat.add_0_r.
  - apply wp_bind. eapply wp_mono; [apply Hstep; [lia|done]| |done].
    intros [] s' HI'. replace (i + Datatypes.S n)%nat with (Datatypes.S i + n)%nat by lia.
    apply IH; [done|]. intros. apply Hstep; [lia|done].
Qed.

(** ** Inversion of a successful run, and effects that a failure does not have *)

Lemma bind_Ok {S E A B} (m : eff S E A) (k : A -> eff S E B) b s s' :
  bind m k s = (Ok b, s') <-> exists a s1, m s = (Ok a, s1) /\ k a s1 = (Ok b, s').
Proof. unfold bind. destruct (m s) as [[a|e|] s1]; naive_solver. Qed.

Lemma bind_lift_Ok {S E A B} (r : res E A) (k : A -> eff S E B) b s s' :
  bind (lift r) k s = (Ok b, s') <-> exists a, r = Ok a /\ k a s = (Ok b, s').
Proof. unfold bind, lift. destruct r; naive_solver. Qed.

(** A run that does not return normally leaves the state as it was. *)
Definition rolls_back {S E A} (m : eff S E A) : Prop :=
  forall s, match m s with (Ok _, _) => True | (_, s') => s' = s end.

(** It never changes the state. *)
Definition observes {S E A} (m : eff S E A) : Prop := forall s, snd (m s) = s.

Section rolls_back.
Context {S E A B : Type}.

Lemma observes_ret (a : A) : observes (ret a : eff S E A). Proof. done. Qed.
Lemma observes_throw e : observes (throw e : eff S E A). Proof. done. Qed.
Lemma observes_get : observes (get : eff S E S). Proof. done. Qed.
Lemma observes_lift (r : res E A) : observes (lift r : eff S E A). Proof. done. Qed.

Lemma observes_rolls_back (m : eff S E A) : observes m -> rolls_back m.
Proof. intros H s. specialize (H s). by destruct (m s) as [[]]. Qed.

Lemma rolls_back_modify f : rolls_back (modify f : eff S E unit). Proof. done. Qed.

Lemma rolls_back_bind (m : eff S E A) (k : A -> eff S E B) :
  observes m -> (forall a, rolls_back (k a)) -> rolls_back (bind m k).
Proof.
  intros Hm Hk s. unfold bind. specialize (Hm s). destruct (m s) as [[a|e|] s1]; simpl in Hm; subst; [|done..].
  apply Hk.
Qed.

(** A last step that cannot fail after one that changes the state. *)
Lemma rolls_back_then (m : eff S E A) (f : A -> B) :
  rolls_back m -> rolls_back (bind m (fun a => ret (f a))).
Proof. intros Hm s. unfold bind. specialize (Hm s). by destruct (m s) as [[]]. Qed.
End rolls_back.

Lemma rolls_back_map_err {S E F A} (f : E -> F) (m : eff S E A) :
  rolls_back m -> rolls_back (eff_map_err f m).
Proof. intros Hm s. unfold eff_map_err. specialize (Hm s). by destruct (m s) as [[]]. Qed.

Lemma rolls_back_zoom {S T E A} (view : T -> S) upd (m : eff S E A) :
  (forall t, upd (view t) t = t) -> rolls_back m -> rolls_back (zoom view upd m).
Proof.
  intros Hu Hm t. unfold zoom. specialize (Hm (view t)). destruct (m (view t)) as [[] s]; subst; auto.
Qed.

(** One step of symbolic execution. *)
Ltac wp_step :=
  lazymatch goal with
  | |- wp (bind _ _) _ _ _ => apply wp_bind
  | |- wp (ret _) _ _ _ => apply wp_ret
  | |- wp (throw _) _ _ _ => apply wp_throw
  | |- wp get _ _ _ => apply wp_get
  | |- wp (modify _) _ _ _ => apply wp_modify
  | |- wp (lift _) _ _ _ => apply wp_lift
  | |- wp (eff_map_err _ _) _ _ _ => apply wp_map_err
  | |- wp (zoom _ _ _) _ _ _ => apply wp_zoom
  end.
Ltac wp_steps := repeat (wp_step; cbv beta).

(** Turn boolean tests of hypotheses and goal into propositions. *)
Ltac bool_to_prop :=
  repeat match goal with
  | H : (_ && _)%bool = true |- _ => apply andb_true_iff in H as [? ?]
  | H : (_ || _)%bool = false |- _ => apply orb_false_iff in H as [? ?]
  | H : negb _ = true |- _ => apply negb_true_iff in H
  | H : negb _ = false |- _ => apply negb_false_iff in H
  | H : (_ <? _) = true |- _ => apply N.ltb_lt in H
  | H : (_ <? _) = false |- _ => apply N.ltb_ge in H
  | H : (_ <=? _) = true |- _ => apply N.leb_le in H
  | H : (_ <=? _) = false |- _ => apply N.leb_gt in H
  | H : (_ =? _) = true |- _ => apply N.eqb_eq in H
  | H : (_ =? _) = false |- _ => apply N.eqb_neq in H
  | H : bool_decide _ = true |- _ => apply bool_decide_eq_true_1 in H
  | H : bool_decide _ = false |- _ => apply bool_decide_eq_false_1 in H
  end.
