(* ===== verification/Meter.v ===== *)
(** The work ledger of witness-mode execution
    (src/crates/vhalla-witness/src/ledger.rs): the thirteen counters, the fuel
    meter with its activation window, and the batched charge, proved equal to
    the unit-by-unit loop it restates. *)
From S2P Require Import Prelude.

(** ** Data *)

(** A checked-arithmetic failure. *)
Inductive Arithmetic : Type := ArithmeticFailure.

Inductive Stop : Type := StopFuel | StopActivation.

Inductive MeterError : Type :=
| MeterStop (s : Stop)
| MeterArithmetic.

Inductive Category : Type :=
| Loading | Scheduling | Conditions | Sensors | MemoryReads | MemoryWrites
| Actions | Messages | Transfers | Checking | Draining.

Record Ledger : Type := mkLedger {
  loading : N; scheduling : N; conditions : N; sensors : N;
  memory_reads : N; memory_writes : N; actions : N; messages : N;
  transfers : N; checking : N; draining : N; copying : N; construction : N;
}.

#[global] Instance Stop_eq_dec : EqDecision Stop. Proof. solve_decision. Defined.
#[global] Instance Category_eq_dec : EqDecision Category. Proof. solve_decision. Defined.
#[global] Instance Ledger_eq_dec : EqDecision Ledger. Proof. solve_decision. Defined.

Definition counters (l : Ledger) : list N :=
  [loading l; scheduling l; conditions l; sensors l; memory_reads l;
   memory_writes l; actions l; messages l; transfers l; checking l;
   draining l; copying l; construction l].

Definition ledger_total (l : Ledger) : res Arithmetic N :=
  res_fold (fun sum value => ok_or (checked_add 64 sum value) ArithmeticFailure)
           0 (counters l).

(** [counter] returns [&mut u64]: a getter and the matching assignment. *)
Definition counter (c : Category) (l : Ledger) : N :=
  match c with
  | Loading => loading l
  | Scheduling => scheduling l
  | Conditions => conditions l
  | Sensors => sensors l
  | MemoryReads => memory_reads l
  | MemoryWrites => memory_writes l
  | Actions => actions l
  | Messages => messages l
  | Transfers => transfers l
  | Checking => checking l
  | Draining => draining l
  end.

Definition set_counter (c : Category) (v : N) (l : Ledger) : Ledger :=
  let '(mkLedger a1 a2 a3 a4 a5 a6 a7 a8 a9 a10 a11 a12 a13) := l in
  match c with
  | Loading => mkLedger v a2 a3 a4 a5 a6 a7 a8 a9 a10 a11 a12 a13
  | Scheduling => mkLedger a1 v a3 a4 a5 a6 a7 a8 a9 a10 a11 a12 a13
  | Conditions => mkLedger a1 a2 v a4 a5 a6 a7 a8 a9 a10 a11 a12 a13
  | Sensors => mkLedger a1 a2 a3 v a5 a6 a7 a8 a9 a10 a11 a12 a13
  | MemoryReads => mkLedger a1 a2 a3 a4 v a6 a7 a8 a9 a10 a11 a12 a13
  | MemoryWrites => mkLedger a1 a2 a3 a4 a5 v a7 a8 a9 a10 a11 a12 a13
  | Actions => mkLedger a1 a2 a3 a4 a5 a6 v a8 a9 a10 a11 a12 a13
  | Messages => mkLedger a1 a2 a3 a4 a5 a6 a7 v a9 a10 a11 a12 a13
  | Transfers => mkLedger a1 a2 a3 a4 a5 a6 a7 a8 v a10 a11 a12 a13
  | Checking => mkLedger a1 a2 a3 a4 a5 a6 a7 a8 a9 v a11 a12 a13
  | Draining => mkLedger a1 a2 a3 a4 a5 a6 a7 a8 a9 a10 v a12 a13
  end.

Record Meter : Type := mkMeter {
  ledger : Ledger;
  fuel : N;
  activation : option (N * N);
}.

Definition empty_ledger : Ledger := mkLedger 0 0 0 0 0 0 0 0 0 0 0 0 0.

Definition meter_new (f : N) : Meter := mkMeter empty_ledger f None.

Definition meter_total (m : Meter) : res Arithmetic N := ledger_total (ledger m).

Definition set_ledger (l : Ledger) (m : Meter) : Meter :=
  mkMeter l (fuel m) (activation m).

Definition of_arithmetic (_ : Arithmetic) : MeterError := MeterArithmetic.

(** ** Operations *)

Definition activation_room (m : Meter) (total : N) : res Arithmetic N :=
  match activation m with
  | None => Ok (2 ^ 64 - 1)
  | Some (start, limit) =>
      let? spent := ok_or (checked_sub total start) ArithmeticFailure in
      Ok (saturating_sub limit spent)
  end.

Definition charge (c : Category) (amount : N) : eff Meter MeterError unit :=
  let! m := get in
  let! total := eff_map_err of_arithmetic (lift (meter_total m)) in
  let fuel_room := saturating_sub (fuel m) total in
  let! act_room := eff_map_err of_arithmetic (lift (activation_room m total)) in
  let allowed := N.min (N.min amount fuel_room) act_room in
  let! v := lift (ok_or (checked_add 64 (counter c (ledger m)) allowed) MeterArithmetic) in
  do! modify (set_ledger (set_counter c v (ledger m))) in
  if allowed =? amount then ret tt
  else
    let! m := get in
    let! total := eff_map_err of_arithmetic (lift (meter_total m)) in
    if fuel m <=? total then throw (MeterStop StopFuel)
    else throw (MeterStop StopActivation).

Definition begin_activation (limit : N) : eff Meter Arithmetic unit :=
  let! m := get in
  let! total := lift (meter_total m) in
  modify (fun m => mkMeter (ledger m) (fuel m) (Some (total, limit))).

Definition end_activation (m : Meter) : Meter := mkMeter (ledger m) (fuel m) None.

(** ** Specification: the unit-by-unit loop

    The engine the batched charge restates: one unit at a time, checking the
    fuel bound and then the activation window before each unit. *)
Fixpoint reference (m : Meter) (c : Category) (amount : nat) : res Stop unit * Meter :=
  match amount with
  | O => (Ok tt, m)
  | S amount =>
      match meter_total m with
      | Ok total =>
          if fuel m <=? total then (Err StopFuel, m)
          else if (match activation m with
                   | None => false
                   | Some (start, limit) => limit <=? total - start
                   end) then (Err StopActivation, m)
          else reference (set_ledger (set_counter c (counter c (ledger m) + 1) (ledger m)) m)
                         c amount
      | _ => (Panic, m)
      end
  end.

(** ** The meter invariant *)

Definition led_sum (l : Ledger) : N :=
  loading l + scheduling l + conditions l + sensors l + memory_reads l +
  memory_writes l + actions l + messages l + transfers l + checking l +
  draining l + copying l + construction l.

(** The total is within the fuel, the fuel is a [u64] and an open window
    starts at or below the total and is a [u32] wide. *)
Record meter_inv (m : Meter) : Prop := {
  mi_fuel : fuel m < 2 ^ 64;
  mi_total : led_sum (ledger m) <= fuel m;
  mi_window : forall start limit, activation m = Some (start, limit) ->
    start <= led_sum (ledger m) /\ limit < 2 ^ 32 /\ led_sum (ledger m) <= start + limit;
}.

Lemma checked_add_ok w a b : a + b < 2 ^ w -> checked_add w a b = Some (a + b).
Proof. intros H. unfold checked_add. by apply N.ltb_lt in H as ->. Qed.

Lemma checked_sub_ok a b : b <= a -> checked_sub a b = Some (a - b).
Proof. intros H. unfold checked_sub. by apply N.leb_le in H as ->. Qed.

(** A checked running sum succeeds exactly when the sum fits. *)
Lemma res_fold_checked_sum {E} (e : E) w l acc :
  acc + foldr N.add 0 l < 2 ^ w ->
  res_fold (fun sum v => ok_or (checked_add w sum v) e) acc l = Ok (acc + foldr N.add 0 l).
Proof.
  revert acc. induction l as [|x l IH]; intros acc H; simpl in *.
  - f_equal. lia.
  - rewrite checked_add_ok by lia. simpl. rewrite IH by lia. f_equal. lia.
Qed.

Lemma led_sum_counters l : foldr N.add 0 (counters l) = led_sum l.
Proof. unfold led_sum; simpl. lia. Qed.

Lemma ledger_total_ok l : led_sum l < 2 ^ 64 -> ledger_total l = Ok (led_sum l).
Proof.
  intros H. unfold ledger_total.
  rewrite res_fold_checked_sum by (rewrite led_sum_counters; lia).
  by rewrite led_sum_counters.
Qed.

Lemma meter_total_ok m : meter_inv m -> meter_total m = Ok (led_sum (ledger m)).
Proof. intros [? ? _]. apply ledger_total_ok. lia. Qed.

Lemma counter_le_sum c l : counter c l <= led_sum l.
Proof. unfold led_sum. destruct c; simpl; lia. Qed.

Lemma led_sum_set c v l :
  led_sum (set_counter c v l) + counter c l = led_sum l + v.
Proof. destruct l; unfold led_sum; destruct c; simpl; lia. Qed.

Lemma counter_set c v l : counter c (set_counter c v l) = v.
Proof. by destruct l, c. Qed.

Lemma counter_set_ne c c' v l : c <> c' -> counter c' (set_counter c v l) = counter c' l.
Proof. destruct l, c, c'; done. Qed.

Lemma set_counter_set c v w l : set_counter c w (set_counter c v l) = set_counter c w l.
Proof. by destruct l, c. Qed.

Lemma set_counter_id c l : set_counter c (counter c l) l = l.
Proof. by destruct l, c. Qed.

Lemma meter_new_inv f : f < 2 ^ 64 -> meter_inv (meter_new f).
Proof. intros H. split; simpl; [done|unfold led_sum; simpl; lia|done]. Qed.

(** ** The charge in closed form *)

Definition window_room (m : Meter) : N :=
  match activation m with
  | None => 2 ^ 64 - 1
  | Some (start, limit) => limit - (led_sum (ledger m) - start)
  end.

(** The units the batched charge adds. *)
Definition allowed_units (m : Meter) (amount : N) : N :=
  N.min (N.min amount (fuel m - led_sum (ledger m))) (window_room m).

Definition add_units (c : Category) (k : N) (m : Meter) : Meter :=
  set_ledger (set_counter c (counter c (ledger m) + k) (ledger m)) m.

Definition charge_outcome (m : Meter) (amount : N) : res MeterError unit :=
  if allowed_units m amount =? amount then Ok tt
  else if fuel m <=? led_sum (ledger m) + allowed_units m amount
       then Err (MeterStop StopFuel) else Err (MeterStop StopActivation).

Lemma add_units_sum c k m : led_sum (ledger (add_units c k m)) = led_sum (ledger m) + k.
Proof. simpl. pose proof (led_sum_set c (counter c (ledger m) + k) (ledger m)). lia. Qed.

Lemma add_units_inv c k m amount :
  meter_inv m -> k <= allowed_units m amount -> meter_inv (add_units c k m).
Proof.
  intros [Hf Ht Hw] Hk. unfold allowed_units, window_room in Hk.
  split; [done | rewrite add_units_sum; simpl; lia |].
  intros start limit Ha. rewrite add_units_sum. simpl in Ha.
  destruct (Hw start limit Ha) as (? & ? & ?). rewrite Ha in Hk. lia.
Qed.

Lemma activation_room_ok m :
  meter_inv m -> activation_room m (led_sum (ledger m)) = Ok (window_room m).
Proof.
  intros [_ _ Hw]. unfold activation_room, window_room.
  destruct (activation m) as [[start limit]|]; [|done].
  destruct (Hw start limit eq_refl) as (? & _ & _).
  by rewrite checked_sub_ok by lia.
Qed.

Lemma charge_closed_form c amount m :
  meter_inv m ->
  charge c amount m = (charge_outcome m amount, add_units c (allowed_units m amount) m).
Proof.
  intros HI. set (k := allowed_units m amount).
  assert (HI' : meter_inv (add_units c k m)) by (by apply (add_units_inv _ _ _ amount)).
  pose proof (mi_fuel _ HI). pose proof (mi_total _ HI') as Ht.
  rewrite add_units_sum in Ht. simpl in Ht.
  pose proof (counter_le_sum c (ledger m)).
  unfold charge, bind, get, lift, eff_map_err, modify, ret, throw, map_err.
  rewrite meter_total_ok by done. simpl. rewrite activation_room_ok by done.
  unfold saturating_sub. fold (allowed_units m amount). fold k.
  rewrite checked_add_ok by lia. simpl. fold (add_units c k m).
  unfold charge_outcome. fold k. destruct (k =? amount); [done|].
  rewrite meter_total_ok by done. rewrite add_units_sum. simpl.
  by destruct (fuel m <=? led_sum (ledger m) + k).
Qed.

(** The rule every metered step of the machine uses. *)
Lemma wp_charge c amount m (Q : unit -> Meter -> Prop) (R : MeterError -> Meter -> Prop) :
  meter_inv m ->
  (meter_inv (add_units c amount m) -> Q tt (add_units c amount m)) ->
  (forall s k, k <= amount -> meter_inv (add_units c k m) ->
     R (MeterStop s) (add_units c k m)) ->
  wp (charge c amount) Q R m.
Proof.
  intros HI HQ HR. unfold wp. rewrite charge_closed_form by done.
  assert (Hinv : meter_inv (add_units c (allowed_units m amount) m))
    by (by apply (add_units_inv _ _ _ amount)).
  assert (allowed_units m amount <= amount) by (unfold allowed_units; lia).
  unfold charge_outcome. destruct (N.eqb_spec (allowed_units m amount) amount) as [E|E].
  - rewrite E in *. auto.
  - destruct (fuel m <=? _); auto.
Qed.

Lemma begin_activation_ok limit m :
  meter_inv m -> limit < 2 ^ 32 ->
  let m' := mkMeter (ledger m) (fuel m) (Some (led_sum (ledger m), limit)) in
  begin_activation limit m = (Ok tt, m') /\ meter_inv m'.
Proof.
  intros HI Hl. split.
  - unfold begin_activation, bind, get, lift, modify. by rewrite meter_total_ok.
  - destruct HI as [? ? _]. split; simpl; [done..|].
    intros ? ? [= <- <-]. lia.
Qed.

Lemma end_activation_inv m : meter_inv m -> meter_inv (end_activation m).
Proof. intros [? ? _]. by split. Qed.

(** ** The batched charge is the unit loop *)

(** The outcome of a charge in the error type of the unit loop. *)
Definition stop_of (r : res MeterError unit) : res Stop unit :=
  match r with
  | Ok a => Ok a
  | Err (MeterStop s) => Err s
  | _ => Panic
  end.

Definition window_closed (m : Meter) : bool :=
  match activation m with
  | None => false
  | Some (start, limit) => limit <=? led_sum (ledger m) - start
  end.

Lemma add_units_0 c m : add_units c 0 m = m.
Proof. destruct m. unfold add_units, set_ledger. simpl. by rewrite N.add_0_r, set_counter_id. Qed.

Lemma add_units_add c j k m : add_units c j (add_units c k m) = add_units c (j + k) m.
Proof.
  unfold add_units, set_ledger. simpl. rewrite set_counter_set, counter_set. do 2 f_equal. lia.
Qed.

Lemma charge_no_fuel m amount :
  0 < amount -> fuel m <= led_sum (ledger m) ->
  allowed_units m amount = 0 /\ charge_outcome m amount = Err (MeterStop StopFuel).
Proof.
  intros. unfold charge_outcome.
  assert (E : allowed_units m amount = 0) by (unfold allowed_units; lia).
  rewrite E, (proj2 (N.eqb_neq _ _)) by lia. by rewrite (proj2 (N.leb_le _ _)) by lia.
Qed.

Lemma charge_window_closed m amount :
  0 < amount -> led_sum (ledger m) < fuel m -> window_closed m = true ->
  allowed_units m amount = 0 /\ charge_outcome m amount = Err (MeterStop StopActivation).
Proof.
  unfold charge_outcome, window_closed. intros ? ? Hw.
  assert (E : allowed_units m amount = 0).
  { unfold allowed_units, window_room. destruct (activation m) as [[start limit]|]; [|done].
    bool_to_prop. lia. }
  rewrite E, (proj2 (N.eqb_neq _ _)) by lia. by rewrite (proj2 (N.leb_gt _ _)) by lia.
Qed.

(** With room for a unit, charging [n + 1] is charging one and then [n]. *)
Lemma allowed_units_step c m n :
  meter_inv m -> led_sum (ledger m) < fuel m -> window_closed m = false ->
  allowed_units m (n + 1) =
    N.min (N.min n (fuel m - (led_sum (ledger m) + 1))) (window_room (add_units c 1 m)) + 1 \/
  n + 1 <= allowed_units m (n + 1) /\ n <= allowed_units (add_units c 1 m) n.
Proof.
  intros [Hf Ht Hw] Hlt Hc. unfold allowed_units, window_room, window_closed in *.
  rewrite !add_units_sum. simpl fuel. simpl activation.
  destruct (activation m) as [[start limit]|].
  - destruct (Hw _ _ eq_refl) as (? & ? & ?). bool_to_prop. left. lia.
  - destruct (N.leb_spec (n + 1) (fuel m - led_sum (ledger m))); lia.
Qed.

Lemma charge_unit_step c m n :
  meter_inv m -> led_sum (ledger m) < fuel m -> window_closed m = false ->
  meter_inv (add_units c 1 m) /\
  allowed_units m (n + 1) = allowed_units (add_units c 1 m) n + 1 /\
  charge_outcome m (n + 1) = charge_outcome (add_units c 1 m) n.
Proof.
  intros HI Hlt Hc.
  assert (H1 : 1 <= allowed_units m 1).
  { destruct HI as [_ _ Hw]. unfold allowed_units, window_room, window_closed in *.
    destruct (activation m) as [[start limit]|]; bool_to_prop; lia. }
  assert (E : allowed_units m (n + 1) = allowed_units (add_units c 1 m) n + 1).
  { destruct (allowed_units_step c m n HI Hlt Hc) as [->|[? ?]].
    - unfold allowed_units. by rewrite add_units_sum.
    - unfold allowed_units in *. lia. }
  split; [by eapply add_units_inv|]. split; [done|].
  unfold charge_outcome. rewrite E, add_units_sum. simpl fuel.
  set (k := allowed_units _ n).
  replace (led_sum (ledger m) + (k + 1)) with (led_sum (ledger m) + 1 + k) by lia.
  by destruct (N.eqb_spec k n), (N.eqb_spec (k + 1) (n + 1)); try lia.
Qed.

Lemma reference_closed_form m c n :
  meter_inv m ->
  reference m c n =
    (stop_of (charge_outcome m (N.of_nat n)), add_units c (allowed_units m (N.of_nat n)) m).
Proof.
  revert m. induction n as [|n IH]; intros m HI.
  - unfold charge_outcome, allowed_units. simpl.
    replace (N.min (N.min 0 _) _) with 0 by lia. by rewrite add_units_0.
  - simpl reference. rewrite meter_total_ok by done. fold (window_closed m).
    replace (N.of_nat (S n)) with (N.of_nat n + 1) by lia.
    destruct (N.leb_spec (fuel m) (led_sum (ledger m))).
    { destruct (charge_no_fuel m (N.of_nat n + 1)) as [-> ->]; [lia|lia|].
      by rewrite add_units_0. }
    destruct (window_closed m) eqn:Hc.
    { destruct (charge_window_closed m (N.of_nat n + 1)) as [-> ->]; [lia|lia|done|].
      by rewrite add_units_0. }
    destruct (charge_unit_step c m (N.of_nat n)) as (HI1 & -> & ->); [done..|].
    fold (add_units c 1 m). by rewrite IH, add_units_add.
Qed.
