(* ===== verification/Language.v ===== *)
(** Limits of the witness mode and its rule language
    (src/crates/vhalla-witness/src/{bounds,model}.rs). *)
From S2P Require Import Prelude.

(** The static bounds of the habitat-v1 model
    (src/crates/vhalla-witness/src/bounds.rs). *)

Definition MIN_RULES : N := 1.
Definition MAX_RULES : N := 32.
Definition MAX_CONDITIONS : N := 8.
Definition MEMORY_SLOTS : N := 4.
Definition PORTS : N := 4.
Definition MIN_SIDE : N := 3.
Definition MAX_SIDE : N := 32.
Definition MAX_WALLS : N := 512.
Definition MIN_CELLS : N := 1.
Definition MAX_CELLS : N := 16.
Definition MAX_SOURCES : N := 8.
Definition MAX_DEPOTS : N := 8.
Definition MIN_BEACONS : N := 1.
Definition MAX_BEACONS : N := 8.
Definition MAX_VALVES : N := 8.
Definition MAX_LINKS : N := 32.
Definition MAX_EVENTS : N := 64.
Definition MAX_INITIAL_SPARKS : N := 128.
Definition MAX_PENDING : N := 128.
Definition MAX_DELIVERIES : N := MAX_INITIAL_SPARKS.
Definition MIN_TICKS : N := 1.
Definition MAX_TICKS : N := 128.
Definition MAX_FUEL : N := 2000000.
Definition MIN_ACTIVATION_FUEL : N := 1.
Definition MAX_ACTIVATION_FUEL : N := 1024.
Definition MAX_LOADING_WORK : N := 65536.
Definition MIN_DEPOT_CAPACITY : N := 1.
Definition MAX_DEPOT_CAPACITY : N := 128.
Definition MIN_BEACON_CHARGE : N := 1.
Definition MAX_BEACON_CHARGE : N := 10000.
Definition MIN_DRAIN_EVERY : N := 1.
Definition MAX_DRAIN_EVERY : N := MAX_TICKS.
Definition MIN_DRAIN_AMOUNT : N := 1.
Definition MAX_DRAIN_AMOUNT : N := 1024.
Definition MIN_SPARK_CHARGE : N := 1.
Definition MAX_SPARK_CHARGE : N := 64.
Definition MAX_REQUIRED_DELIVERIES : N := 128.
Definition MIN_LINK_DELAY : N := 1.
Definition MAX_LINK_DELAY : N := 16.
Definition CLEAR_MEMORY_WRITES : N := 4.
Definition MAX_SIGNAL_EVENTS_PER_TICK : N :=
  MAX_CELLS * PORTS + MAX_PENDING + MAX_CELLS * MAX_LINKS.

(** The habitat-v1 cell language
    (src/crates/vhalla-witness/src/model.rs): slots, ports, conditions,
    actions, rules, programs and the heading arithmetic.  The newtypes with
    private fields are records built by [..._new]; [..._wf] is the invariant
    the constructors establish. *)

(** ** Validated indices *)

Record Slot : Type := mkSlot { slot_get : N }.

Definition Slot_new (index : N) : option Slot :=
  if index <? MEMORY_SLOTS then Some (mkSlot index) else None.

Definition slot_index (s : Slot) : nat := N.to_nat (slot_get s).

Record Port : Type := mkPort { port_get : N }.

Definition Port_new (index : N) : option Port :=
  if index <? PORTS then Some (mkPort index) else None.

Definition port_index (p : Port) : nat := N.to_nat (port_get p).

Record ValveId : Type := mkValveId { valve_get : N }.

(** ** Syntax *)

Inductive Direction : Type := North | East | South | West.

Inductive Relative : Type := Forward | Left | Right | Back.

Inductive Condition : Type :=
| Carrying (value : bool)
| AtSource (value : bool)
| AtDepot (value : bool)
| AtBeacon (value : bool)
| AtReceiver (value : bool)
| Blocked (direction : Relative) (value : bool)
| HasMessage (port : Port) (value : bool)
| MessageBit (port : Port) (value : bool)
| Memory (slot : Slot) (value : N)
| Heading (direction : Direction).

Inductive BitSource : Type :=
| BitConstant (value : bool)
| BitMemory (slot : Slot)
| BitMessage (port : Port).

Inductive Action : Type :=
| Move (direction : Relative)
| Turn (direction : Relative)
| Pickup
| Drop
| Wait
| WriteMemory (slot : Slot) (value : N)
| TakeMessage (port : Port) (slot : Slot)
| Send (port : Port) (bit : BitSource)
| Route (valve : ValveId) (bit : BitSource).

Record MemoryWrite : Type := mkMemoryWrite { write_slot : Slot; write_value : N }.

Inductive ModelError : Type := NoRules | TooManyRules | TooManyConditions.

Record Rule : Type := mkRule {
  rule_when : list Condition;
  rule_action : Action;
  rule_remember : option MemoryWrite;
}.

Definition Rule_new (when : list Condition) (action : Action)
    (remember : option MemoryWrite) : res ModelError Rule :=
  if MAX_CONDITIONS <? len when then Err TooManyConditions
  else Ok (mkRule when action remember).

Record Program : Type := mkProgram { rules : list Rule }.

Definition Program_new (rs : list Rule) : res ModelError Program :=
  if len rs <? MIN_RULES then Err NoRules
  else if MAX_RULES <? len rs then Err TooManyRules
  else Ok (mkProgram rs).

(** ** Headings *)

Definition HEADINGS : list Direction := [North; East; South; West].

Definition heading_start (d : Direction) : nat :=
  match d with North => 0 | East => 1 | South => 2 | West => 3 end.

Definition relative_offset (r : Relative) : nat :=
  match r with Forward => 0 | Right => 1 | Back => 2 | Left => 3 end.

Definition face (heading : Direction) (relative : Relative) : Direction :=
  nth ((heading_start heading + relative_offset relative) mod 4)%nat HEADINGS North.

#[global] Instance Slot_eq_dec : EqDecision Slot. Proof. solve_decision. Defined.
#[global] Instance Port_eq_dec : EqDecision Port. Proof. solve_decision. Defined.
#[global] Instance ValveId_eq_dec : EqDecision ValveId. Proof. solve_decision. Defined.
#[global] Instance Direction_eq_dec : EqDecision Direction. Proof. solve_decision. Defined.
#[global] Instance Relative_eq_dec : EqDecision Relative. Proof. solve_decision. Defined.
#[global] Instance Condition_eq_dec : EqDecision Condition. Proof. solve_decision. Defined.
#[global] Instance BitSource_eq_dec : EqDecision BitSource. Proof. solve_decision. Defined.
#[global] Instance Action_eq_dec : EqDecision Action. Proof. solve_decision. Defined.
#[global] Instance MemoryWrite_eq_dec : EqDecision MemoryWrite. Proof. solve_decision. Defined.
#[global] Instance Rule_eq_dec : EqDecision Rule. Proof. solve_decision. Defined.
#[global] Instance Program_eq_dec : EqDecision Program. Proof. solve_decision. Defined.

(** ** Well-formedness: what the constructors guarantee *)

Definition slot_wf (s : Slot) : Prop := slot_get s < MEMORY_SLOTS.
Definition port_wf (p : Port) : Prop := port_get p < PORTS.

Definition condition_wf (c : Condition) : Prop :=
  match c with
  | HasMessage p _ | MessageBit p _ => port_wf p
  | Memory s v => slot_wf s /\ v < 2 ^ 8
  | _ => True
  end.

Definition bit_source_wf (b : BitSource) : Prop :=
  match b with
  | BitConstant _ => True
  | BitMemory s => slot_wf s
  | BitMessage p => port_wf p
  end.

Definition action_wf (a : Action) : Prop :=
  match a with
  | WriteMemory s v => slot_wf s /\ v < 2 ^ 8
  | TakeMessage p s => port_wf p /\ slot_wf s
  | Send p b => port_wf p /\ bit_source_wf b
  | Route v b => valve_get v < 2 ^ 16 /\ bit_source_wf b
  | _ => True
  end.

Definition write_wf (w : MemoryWrite) : Prop :=
  slot_wf (write_slot w) /\ write_value w < 2 ^ 8.

Definition remember_wf (r : option MemoryWrite) : Prop :=
  match r with Some w => write_wf w | None => True end.

Record rule_wf (r : Rule) : Prop := {
  rw_count : len (rule_when r) <= MAX_CONDITIONS;
  rw_when : Forall condition_wf (rule_when r);
  rw_action : action_wf (rule_action r);
  rw_remember : remember_wf (rule_remember r);
}.

Record program_wf (p : Program) : Prop := {
  pw_min : MIN_RULES <= len (rules p);
  pw_max : len (rules p) <= MAX_RULES;
  pw_rules : Forall rule_wf (rules p);
}.

Lemma slot_index_lt s : slot_wf s -> (slot_index s < 4)%nat.
Proof. unfold slot_wf, slot_index, MEMORY_SLOTS. lia. Qed.

Lemma port_index_lt p : port_wf p -> (port_index p < 4)%nat.
Proof. unfold port_wf, port_index, PORTS. lia. Qed.

Lemma Slot_new_spec n s : Slot_new n = Some s <-> s = mkSlot n /\ slot_wf s.
Proof.
  unfold Slot_new, slot_wf. destruct (N.ltb_spec n MEMORY_SLOTS); split.
  - by intros [= <-].
  - by intros [-> _].
  - done.
  - intros [-> ?]. simpl in *. lia.
Qed.

Lemma Port_new_spec n p : Port_new n = Some p <-> p = mkPort n /\ port_wf p.
Proof.
  unfold Port_new, port_wf. destruct (N.ltb_spec n PORTS); split.
  - by intros [= <-].
  - by intros [-> _].
  - done.
  - intros [-> ?]. simpl in *. lia.
Qed.

(** Four quarter turns are the identity and turns compose. *)
Lemma face_forward h : face h Forward = h.
Proof. by destruct h. Qed.

Lemma face_left_right h : face (face h Left) Right = h.
Proof. by destruct h. Qed.

Lemma face_back_back h : face (face h Back) Back = h.
Proof. by destruct h. Qed.
