(* ===== verification/World.v ===== *)
(** The platform-owned world, its cases and the assignments of programs to
    cells (src/crates/vhalla-witness/src/world.rs): data, validation and
    accessors, with the validation proved equivalent to a declarative
    specification in [WorldFacts]. *)
From S2P Require Import Prelude Language.

(** ** Data *)

Record Point : Type := mkPoint { px : N; py : N }.

Definition distance (a b : Point) : N := abs_diff (px a) (px b) + abs_diff (py a) (py b).

Record Spark : Type := mkSpark { spark_id : N; spark_bit : bool }.

Record CellBody : Type := mkCellBody {
  cb_id : N; cb_position : Point; cb_heading : Direction; cb_mobile : bool;
  cb_memory : list N;
}.

Record Source : Type := mkSource { src_id : N; src_position : Point; src_sparks : list Spark }.

Record Depot : Type := mkDepot { dep_id : N; dep_position : Point; dep_capacity : N }.

Record Beacon : Type := mkBeacon {
  bea_id : N; bea_position : Point; bea_accepts : bool; bea_initial_charge : N;
  bea_drain_every : N; bea_drain_amount : N; bea_spark_charge : N;
  bea_required_deliveries : N;
}.

Record Valve : Type := mkValve {
  val_id : N; val_position : Point; val_depot : N; val_beacon_zero : N;
  val_beacon_one : N; val_enabled : bool;
}.

Inductive Endpoint : Type :=
| EndCell (id : N) (port : Port)
| EndDepot (id : N).

Record Link : Type := mkLink {
  lnk_id : N; lnk_from : Endpoint; lnk_to_cell : N; lnk_to_port : Port;
  lnk_delay : N; lnk_enabled : bool;
}.

Inductive EventKind : Type :=
| LinkEnabled (id : N) (enabled : bool)
| ValveEnabled (id : N) (enabled : bool)
| ClearMemory (cell : N).

Record Event : Type := mkEvent { ev_tick : N; ev_event : EventKind }.

Record WorldSpec : Type := mkWorldSpec {
  ws_width : N; ws_height : N; ws_walls : list Point; ws_sources : list Source;
  ws_depots : list Depot; ws_beacons : list Beacon; ws_valves : list Valve;
  ws_cells : list CellBody; ws_links : list Link;
}.

Inductive WorldError : Type :=
| GridDimensions | Budget | LoadingWork | EntityLimits | Walls | DuplicateId
| CellPosition | StationPosition | DuplicateSpark | TooManySparks | DepotCapacity
| BeaconParameters | ValveTarget | ValveGeometry | LinkTarget | LinkGeometry
| EventTick | EventTarget | AssignmentCells | UnknownValve.

#[global] Instance Point_eq_dec : EqDecision Point. Proof. solve_decision. Defined.
#[global] Instance Spark_eq_dec : EqDecision Spark. Proof. solve_decision. Defined.
#[global] Instance Endpoint_eq_dec : EqDecision Endpoint. Proof. solve_decision. Defined.
#[global] Instance EventKind_eq_dec : EqDecision EventKind. Proof. solve_decision. Defined.
#[global] Instance CellBody_eq_dec : EqDecision CellBody. Proof. solve_decision. Defined.
#[global] Instance Source_eq_dec : EqDecision Source. Proof. solve_decision. Defined.
#[global] Instance Depot_eq_dec : EqDecision Depot. Proof. solve_decision. Defined.
#[global] Instance Beacon_eq_dec : EqDecision Beacon. Proof. solve_decision. Defined.
#[global] Instance Valve_eq_dec : EqDecision Valve. Proof. solve_decision. Defined.
#[global] Instance Link_eq_dec : EqDecision Link. Proof. solve_decision. Defined.
#[global] Instance Event_eq_dec : EqDecision Event. Proof. solve_decision. Defined.
#[global] Instance WorldSpec_eq_dec : EqDecision WorldSpec. Proof. solve_decision. Defined.

(** ** Validation of a world *)

Fixpoint unique_from (seen ids : list N) : bool :=
  match ids with
  | [] => true
  | id :: ids => if bool_decide (id ∈ seen) then false else unique_from (seen ++ [id]) ids
  end.

Definition unique (ids : list N) : bool := unique_from [] ids.

Record World : Type := mkWorld { spec : WorldSpec; wall_rows : list N }.

Definition dimensions_ok (s : WorldSpec) : bool :=
  in_range MIN_SIDE MAX_SIDE (ws_width s) && in_range MIN_SIDE MAX_SIDE (ws_height s).

Definition limits_ok (s : WorldSpec) : bool :=
  negb ((MAX_WALLS <? len (ws_walls s)) || (len (ws_cells s) <? MIN_CELLS)
        || (MAX_CELLS <? len (ws_cells s)) || (MAX_SOURCES <? len (ws_sources s))
        || (MAX_DEPOTS <? len (ws_depots s)) || (len (ws_beacons s) <? MIN_BEACONS)
        || (MAX_BEACONS <? len (ws_beacons s)) || (MAX_VALVES <? len (ws_valves s))
        || (MAX_LINKS <? len (ws_links s))).

Definition on_grid (s : WorldSpec) (p : Point) : bool :=
  (px p <? ws_width s) && (py p <? ws_height s).

Definition wall_step (s : WorldSpec) (rows : list N) (p : Point) : res WorldError (list N) :=
  if negb (on_grid s p) then Err Walls
  else
    let bit := N.shiftl 1 (px p) in
    let? row := index rows (N.to_nat (py p)) in
    if negb (N.land row bit =? 0) then Err Walls
    else Ok (<[N.to_nat (py p) := N.lor row bit]> rows).

Definition build_walls (s : WorldSpec) : res WorldError (list N) :=
  res_fold (wall_step s) (replicate 32 0) (ws_walls s).

Definition usable (s : WorldSpec) (rows : list N) (p : Point) : res WorldError bool :=
  if on_grid s p then
    let? row := index rows (N.to_nat (py p)) in
    Ok (N.land row (N.shiftl 1 (px p)) =? 0)
  else Ok false.

Definition ids_unique (s : WorldSpec) : bool :=
  unique (cb_id <$> ws_cells s) && unique (src_id <$> ws_sources s)
  && unique (dep_id <$> ws_depots s) && unique (bea_id <$> ws_beacons s)
  && unique (val_id <$> ws_valves s) && unique (lnk_id <$> ws_links s).

(** Distinct usable positions, accumulated in declaration order. *)
Definition place (s : WorldSpec) (rows : list N) (e : WorldError)
    (taken : list Point) (p : Point) : res WorldError (list Point) :=
  let? free := usable s rows p in
  if negb free || bool_decide (p ∈ taken) then Err e else Ok (taken ++ [p]).

Definition stations (s : WorldSpec) : list Point :=
  (src_position <$> ws_sources s) ++ (dep_position <$> ws_depots s)
  ++ (bea_position <$> ws_beacons s) ++ (val_position <$> ws_valves s).

Definition all_sparks (s : WorldSpec) : list Spark := ws_sources s ≫= src_sparks.

Definition spark_step (seen : list N) (sp : Spark) : res WorldError (list N) :=
  if bool_decide (spark_id sp ∈ seen) then Err DuplicateSpark
  else if MAX_INITIAL_SPARKS <=? len seen then Err TooManySparks
  else Ok (seen ++ [spark_id sp]).

Definition depot_ok (d : Depot) : bool :=
  in_range MIN_DEPOT_CAPACITY MAX_DEPOT_CAPACITY (dep_capacity d).

Definition beacon_ok (b : Beacon) : bool :=
  in_range MIN_BEACON_CHARGE MAX_BEACON_CHARGE (bea_initial_charge b)
  && in_range MIN_DRAIN_EVERY MAX_DRAIN_EVERY (bea_drain_every b)
  && in_range MIN_DRAIN_AMOUNT MAX_DRAIN_AMOUNT (bea_drain_amount b)
  && in_range MIN_SPARK_CHARGE MAX_SPARK_CHARGE (bea_spark_charge b)
  && (bea_required_deliveries b <=? MAX_REQUIRED_DELIVERIES).

Definition find_depot (l : list Depot) (id : N) : option Depot :=
  List.find (fun d => dep_id d =? id) l.
Definition find_beacon (l : list Beacon) (id : N) : option Beacon :=
  List.find (fun b => bea_id b =? id) l.
Definition find_cell (l : list CellBody) (id : N) : option CellBody :=
  List.find (fun c => cb_id c =? id) l.

Definition check_valve (s : WorldSpec) (v : Valve) : res WorldError unit :=
  let? depot := ok_or (find_depot (ws_depots s) (val_depot v)) ValveTarget in
  let? zero := ok_or (find_beacon (ws_beacons s) (val_beacon_zero v)) ValveTarget in
  let? one := ok_or (find_beacon (ws_beacons s) (val_beacon_one v)) ValveTarget in
  if negb ((distance (val_position v) (dep_position depot) =? 1)
           && (distance (val_position v) (bea_position zero) =? 1)
           && (distance (val_position v) (bea_position one) =? 1)
           && negb (bea_accepts zero) && bea_accepts one)
  then Err ValveGeometry else Ok tt.

Definition link_origin (s : WorldSpec) (e : Endpoint) : res WorldError Point :=
  match e with
  | EndCell id _ =>
      let? c := ok_or (find_cell (ws_cells s) id) LinkTarget in Ok (cb_position c)
  | EndDepot id =>
      let? d := ok_or (find_depot (ws_depots s) id) LinkTarget in Ok (dep_position d)
  end.

Definition check_link (s : WorldSpec) (l : Link) : res WorldError unit :=
  let? target := ok_or (find_cell (ws_cells s) (lnk_to_cell l)) LinkTarget in
  let? origin := link_origin s (lnk_from l) in
  if negb (in_range MIN_LINK_DELAY MAX_LINK_DELAY (lnk_delay l)
           && (distance origin (cb_position target) =? 1))
  then Err LinkGeometry else Ok tt.

(** [if !test { return Err(e) }] *)
Definition require (b : bool) (e : WorldError) : res WorldError unit :=
  if b then Ok tt else Err e.

Definition res_for_each {A} (f : A -> res WorldError unit) (l : list A) : res WorldError unit :=
  res_fold (fun _ x => f x) tt l.

Definition World_new (s : WorldSpec) : res WorldError World :=
  let? _ := require (dimensions_ok s) GridDimensions in
  let? _ := require (limits_ok s) EntityLimits in
  let? rows := build_walls s in
  let? _ := require (ids_unique s) DuplicateId in
  let? _ := res_fold (place s rows CellPosition) [] (cb_position <$> ws_cells s) in
  let? _ := res_fold (place s rows StationPosition) [] (stations s) in
  let? _ := res_fold spark_step [] (all_sparks s) in
  let? _ := res_for_each (fun d => require (depot_ok d) DepotCapacity) (ws_depots s) in
  let? _ := res_for_each (fun b => require (beacon_ok b) BeaconParameters) (ws_beacons s) in
  let? _ := res_for_each (check_valve s) (ws_valves s) in
  let? _ := res_for_each (check_link s) (ws_links s) in
  Ok (mkWorld s rows).

(** ** Accessors *)

Definition width (w : World) : N := ws_width (spec w).
Definition height (w : World) : N := ws_height (spec w).
Definition walls (w : World) : list Point := ws_walls (spec w).
Definition sources (w : World) : list Source := ws_sources (spec w).
Definition depots (w : World) : list Depot := ws_depots (spec w).
Definition beacons (w : World) : list Beacon := ws_beacons (spec w).
Definition valves (w : World) : list Valve := ws_valves (spec w).
Definition cells (w : World) : list CellBody := ws_cells (spec w).
Definition links (w : World) : list Link := ws_links (spec w).

(** The row array has 32 entries, so the [&&] guards keep the index in range. *)
Definition is_wall (w : World) (p : Point) : bool :=
  (py p <? MAX_SIDE) && (px p <? MAX_SIDE)
  && match wall_rows w !! N.to_nat (py p) with
     | Some row => negb (N.land row (N.shiftl 1 (px p)) =? 0)
     | None => false
     end.

Definition initial_sparks (w : World) : N :=
  foldl (fun count source =>
           foldl (fun count _ => saturating_add 32 count 1) count (src_sparks source))
        0 (sources w).

(** ** Cases *)

Record CaseSpec : Type := mkCaseSpec {
  cs_seed : N; cs_ticks : N; cs_fuel : N; cs_activation_fuel : N;
  cs_events : list Event; cs_loading_work : N;
}.

Record Case : Type := mkCase { case_spec : CaseSpec }.

#[global] Instance CaseSpec_eq_dec : EqDecision CaseSpec. Proof. solve_decision. Defined.

Definition event_target_exists (w : World) (e : EventKind) : bool :=
  match e with
  | LinkEnabled id _ => existsb (fun l => lnk_id l =? id) (links w)
  | ValveEnabled id _ => existsb (fun v => val_id v =? id) (valves w)
  | ClearMemory cell => existsb (fun c => cb_id c =? cell) (cells w)
  end.

Definition check_event (w : World) (ticks : N) (e : Event) : res WorldError unit :=
  if negb (in_range MIN_TICKS ticks (ev_tick e)) then Err EventTick
  else if negb (event_target_exists w (ev_event e)) then Err EventTarget
  else Ok tt.

Definition Case_new (w : World) (s : CaseSpec) : res WorldError Case :=
  let? _ := require (in_range MIN_TICKS MAX_TICKS (cs_ticks s)
                     && (cs_fuel s <=? MAX_FUEL)
                     && in_range MIN_ACTIVATION_FUEL MAX_ACTIVATION_FUEL (cs_activation_fuel s))
                    Budget in
  let? _ := require (cs_loading_work s <=? MAX_LOADING_WORK) LoadingWork in
  let? _ := require (len (cs_events s) <=? MAX_EVENTS) EntityLimits in
  let? _ := res_for_each (check_event w (cs_ticks s)) (cs_events s) in
  Ok (mkCase s).

Definition seed (c : Case) : N := cs_seed (case_spec c).
Definition ticks (c : Case) : N := cs_ticks (case_spec c).
Definition case_fuel (c : Case) : N := cs_fuel (case_spec c).
Definition activation_fuel (c : Case) : N := cs_activation_fuel (case_spec c).
Definition events (c : Case) : list Event := cs_events (case_spec c).
Definition loading_work (c : Case) : N := cs_loading_work (case_spec c).

(** ** Assignments *)

Record Assignment : Type := mkAssignment { programs : list Program; asg_cells : list N }.

(** [slice.windows(2)] *)
Definition windows2 {A} (l : list A) : list (A * A) := zip l (tail l).

Definition valve_known (w : World) (r : Rule) : bool :=
  match rule_action r with
  | Route valve _ => existsb (fun v => val_id v =? valve_get valve) (valves w)
  | _ => true
  end.

Definition assign_cell (w : World) (ps : list (N * Program))
    (acc : list Program * list N) (c : CellBody) : res WorldError (list Program * list N) :=
  let? entry := ok_or (List.find (fun '(id, _) => id =? cb_id c) ps) AssignmentCells in
  let program := entry.2 in
  let? _ := res_for_each (fun r => require (valve_known w r) UnknownValve) (rules program) in
  Ok (acc.1 ++ [program], acc.2 ++ [cb_id c]).

Definition Assignment_validate (w : World) (ps : list (N * Program)) : res WorldError Assignment :=
  if negb (len ps =? len (cells w))
     || existsb (fun '(a, b) => b.1 <=? a.1) (windows2 ps)
  then Err AssignmentCells
  else
    let? acc := res_fold (assign_cell w ps) ([], []) (cells w) in
    Ok (mkAssignment acc.1 acc.2).
