(* ===== verification/WorldFacts.v ===== *)
(** Facts about validated worlds, cases and assignments: the validation
    accepts exactly the specifications that satisfy the declarative predicate
    [valid], the wall bitmap answers wall membership, and what the machine may
    rely on. *)
From S2P Require Import Prelude Language World.

(** ** Loops with early return *)

Lemma res_fold_inv {E A B} (f : B -> A -> res E B) (P : list A -> B -> Prop) l :
  forall b b' pre,
  (forall pre x b b', f b x = Ok b' -> P pre b -> P (pre ++ [x]) b') ->
  P pre b -> res_fold f b l = Ok b' -> P (pre ++ l) b'.
Proof.
  induction l as [|x l IH]; intros b b' pre Hstep HP; simpl.
  - intros [= <-]. by rewrite app_nil_r.
  - destruct (f b x) as [b1|e|] eqn:Ef; simpl; [|done..]. intros H.
    rewrite (app_assoc pre [x] l : pre ++ x :: l = _).
    eapply IH; eauto.
Qed.

Lemma res_for_each_ok {A} (f : A -> res WorldError unit) l :
  res_for_each f l = Ok tt <-> Forall (fun x => f x = Ok tt) l.
Proof.
  unfold res_for_each. induction l as [|x l IH]; simpl; [done|].
  rewrite Forall_cons, <- IH. destruct (f x) as [[]|e|]; simpl; naive_solver.
Qed.

Lemma require_ok b e : require b e = Ok tt <-> b = true.
Proof. by destruct b. Qed.

Lemma bind_ok {E A B} (m : res E A) (k : A -> res E B) b :
  res_bind m k = Ok b <-> exists a, m = Ok a /\ k a = Ok b.
Proof. destruct m; simpl; naive_solver. Qed.

Lemma bind_unit_ok {E B} (m : res E unit) (k : unit -> res E B) b :
  res_bind m k = Ok b <-> m = Ok tt /\ k tt = Ok b.
Proof. rewrite bind_ok. split; [intros ([] & ? & ?)|]; eauto. Qed.

Lemma ok_or_ok {E A} (o : option A) (e : E) a : ok_or o e = Ok a <-> o = Some a.
Proof. destruct o; simpl; naive_solver. Qed.

(** ** Identifiers *)

Lemma unique_from_NoDup seen ids :
  NoDup seen -> unique_from seen ids = true <-> NoDup (seen ++ ids).
Proof.
  revert seen. induction ids as [|id ids IH]; intros seen Hs; simpl.
  - by rewrite app_nil_r.
  - rewrite (app_assoc seen [id] ids : seen ++ id :: ids = _).
    case_bool_decide as Hin.
    + split; [done|]. intros H. apply NoDup_app in H as (H & _).
      apply NoDup_app in H as (_ & H & _). exfalso. by apply (H _ Hin), list_elem_of_singleton.
    + apply IH, NoDup_app. split; [done|]. split; [|apply NoDup_singleton].
      intros x Hx ->%list_elem_of_singleton. done.
Qed.

Lemma unique_NoDup ids : unique ids = true <-> NoDup ids.
Proof. apply (unique_from_NoDup []), NoDup_nil_2. Qed.

(** ** The wall bitmap *)

Lemma land_bit row x : (N.land row (N.shiftl 1 x) =? 0) = negb (N.testbit row x).
Proof.
  rewrite N.shiftl_1_l. destruct (N.testbit row x) eqn:E; simpl.
  - apply N.eqb_neq. intros H. apply (f_equal (fun n => N.testbit n x)) in H.
    by rewrite N.land_spec, N.pow2_bits_true, E in H.
  - apply N.eqb_eq, N.bits_inj. intros i. rewrite N.land_spec, N.bits_0.
    destruct (N.eq_dec x i) as [<-|Hn]; [by rewrite E|].
    by rewrite N.pow2_bits_false, andb_false_r by done.
Qed.

Lemma lor_bit row x i :
  N.testbit (N.lor row (N.shiftl 1 x)) i = (N.testbit row i || (x =? i)).
Proof. by rewrite N.lor_spec, N.shiftl_1_l, N.pow2_bits_eqb. Qed.

Definition row_bit (rows : list N) (p : Point) : bool :=
  match rows !! N.to_nat (py p) with
  | Some row => N.testbit row (px p)
  | None => false
  end.

Definition grid (s : WorldSpec) (p : Point) : Prop := px p < ws_width s /\ py p < ws_height s.

Lemma on_grid_spec s p : on_grid s p = true <-> grid s p.
Proof. unfold on_grid, grid. by rewrite andb_true_iff, !N.ltb_lt. Qed.

(** The bitmap of a prefix of the wall list. *)
Definition walls_inv (s : WorldSpec) (ps : list Point) (rows : list N) : Prop :=
  length rows = 32%nat /\ NoDup ps /\ Forall (grid s) ps /\
  forall p, row_bit rows p = true <-> p ∈ ps.

Lemma wall_step_inv s ps p rows rows' :
  wall_step s rows p = Ok rows' -> walls_inv s ps rows -> walls_inv s (ps ++ [p]) rows'.
Proof.
  unfold wall_step. intros Hstep (Hlen & Hnd & Hg & Hb).
  destruct (on_grid s p) eqn:Eg; [|done]. simpl in Hstep.
  apply bind_ok in Hstep as (row & Hrow & Hstep). unfold index in Hrow.
  destruct (rows !! _) eqn:Er; [|done]. injection Hrow as ->.
  rewrite land_bit, negb_involutive in Hstep.
  destruct (N.testbit row (px p)) eqn:Et; [done|]. injection Hstep as <-.
  assert (p ∉ ps) as Hnew.
  { rewrite <- Hb. unfold row_bit. by rewrite Er, Et. }
  repeat split.
  - by rewrite length_insert.
  - apply NoDup_app. split; [done|]. split; [|apply NoDup_singleton].
    by intros x ? ->%list_elem_of_singleton.
  - apply Forall_app. rewrite Forall_singleton. by rewrite <- on_grid_spec.
  - intros H. rewrite elem_of_app, list_elem_of_singleton, <- Hb. unfold row_bit in *.
    destruct (decide (N.to_nat (py p) = N.to_nat (py p0))) as [E|E].
    + rewrite <- E, list_lookup_insert_eq, lor_bit in H by eauto using lookup_lt_Some.
      rewrite <- E, Er. apply orb_true_iff in H as [?|?%N.eqb_eq]; [by left|right].
      destruct p, p0; simpl in *. f_equal; lia.
    + rewrite list_lookup_insert_ne in H by done. by left.
  - rewrite elem_of_app, list_elem_of_singleton, <- Hb. unfold row_bit.
    destruct (decide (N.to_nat (py p) = N.to_nat (py p0))) as [E|E].
    + rewrite <- E, list_lookup_insert_eq, lor_bit, Er by eauto using lookup_lt_Some.
      intros [->| ->]; [done|]. by rewrite N.eqb_refl, orb_true_r.
    + rewrite list_lookup_insert_ne by done. intros [?| ->]; done.
Qed.

Lemma build_walls_inv s rows : build_walls s = Ok rows -> walls_inv s (ws_walls s) rows.
Proof.
  intros H. eapply (res_fold_inv _ (walls_inv s) _ _ _ []); [|  |exact H].
  - eauto using wall_step_inv.
  - repeat split; [apply NoDup_nil_2|done| | ].
    + unfold row_bit. intros Hb. destruct (replicate 32 0 !! _) eqn:E; [|done].
      apply lookup_replicate in E as [-> _]. by rewrite N.bits_0 in Hb.
    + by intros ?%elem_of_nil.
Qed.

Lemma build_walls_complete s :
  dimensions_ok s = true -> NoDup (ws_walls s) -> Forall (grid s) (ws_walls s) ->
  exists rows, build_walls s = Ok rows.
Proof.
  unfold dimensions_ok, in_range, build_walls. intros Hd.
  assert (ws_height s <= 32) by (bool_to_prop; unfold MAX_SIDE in *; lia). clear Hd.
  enough (forall todo ps rows, walls_inv s ps rows -> NoDup (ps ++ todo) ->
            Forall (grid s) todo -> exists rows', res_fold (wall_step s) rows todo = Ok rows') as Hgo.
  { intros. eapply (Hgo _ []); [|done..].
    eapply (build_walls_inv (mkWorldSpec (ws_width s) (ws_height s) [] [] [] [] [] [] [])). done. }
  induction todo as [|p todo IH]; intros ps rows HI Hnd Hg; simpl; [eauto|].
  apply Forall_cons in Hg as [Hp Hg].
  assert (exists rows1, wall_step s rows p = Ok rows1) as [rows1 E].
  { unfold wall_step. rewrite (proj2 (on_grid_spec s p)) by done. simpl.
    destruct HI as (Hlen & _ & _ & Hb). destruct Hp as [_ Hy].
    destruct (lookup_lt_is_Some_2 rows (N.to_nat (py p))) as [row Er]; [lia|].
    unfold index. rewrite Er. simpl. rewrite land_bit, negb_involutive.
    specialize (Hb p). unfold row_bit in Hb. rewrite Er in Hb.
    destruct (N.testbit row (px p)); [|eauto].
    apply NoDup_app in Hnd as (_ & Hnd & _). destruct (Hnd p); [by apply Hb|left]. }
  rewrite E. simpl. eapply (IH (ps ++ [p])); [by eapply wall_step_inv| |done].
  by rewrite <- app_assoc.
Qed.

(** A usable square is on the grid and not a wall. *)
Definition free (s : WorldSpec) (p : Point) : Prop := grid s p /\ p ∉ ws_walls s.

Lemma usable_spec s rows p :
  build_walls s = Ok rows -> dimensions_ok s = true ->
  usable s rows p = Ok (bool_decide (free s p)).
Proof.
  intros Hb Hd. destruct (build_walls_inv s rows Hb) as (Hlen & _ & _ & Hbit).
  unfold usable, free. destruct (on_grid s p) eqn:Eg.
  - apply on_grid_spec in Eg as Hg. unfold dimensions_ok, in_range, MAX_SIDE in Hd.
    destruct Hg as [Hx Hy]. bool_to_prop.
    destruct (lookup_lt_is_Some_2 rows (N.to_nat (py p))) as [row Er]; [lia|].
    unfold index. rewrite Er. simpl. rewrite land_bit. f_equal.
    specialize (Hbit p). unfold row_bit in Hbit. rewrite Er in Hbit.
    case_bool_decide as Hf; destruct (N.testbit row (px p)); try done; exfalso.
    + apply Hf, Hbit. done.
    + apply Hf. split; [done|]. by rewrite <- Hbit.
  - rewrite bool_decide_eq_false_2; [done|]. intros [Hg _].
    apply on_grid_spec in Hg. congruence.
Qed.

(** Placing positions succeeds exactly on distinct usable ones. *)
Lemma place_all_spec s rows e ps taken :
  build_walls s = Ok rows -> dimensions_ok s = true -> NoDup taken ->
  (exists r, res_fold (place s rows e) taken ps = Ok r) <->
  NoDup (taken ++ ps) /\ Forall (free s) ps.
Proof.
  intros Hb Hd. revert taken. induction ps as [|p ps IH]; intros taken Hn; simpl.
  - rewrite app_nil_r. split; [done|]. eauto.
  - unfold place at 1. rewrite (usable_spec _ _ _ Hb Hd). simpl.
    rewrite (app_assoc taken [p] ps : taken ++ p :: ps = _).
    destruct (negb _ || _) eqn:E; simpl.
    + split; [by intros [? ?]|]. intros [Hnd Hf]. exfalso. apply Forall_cons in Hf as [Hp _].
      apply orb_true_iff in E as [E|E].
      * apply negb_true_iff, bool_decide_eq_false_1 in E. done.
      * apply bool_decide_eq_true_1 in E. apply NoDup_app in Hnd as (Hnd & _).
        apply NoDup_app in Hnd as (_ & Hnd & _). by apply (Hnd p), list_elem_of_singleton.
    + bool_to_prop. rewrite Forall_cons.
      rewrite IH; [naive_solver|]. apply NoDup_app. split; [done|].
      split; [|apply NoDup_singleton]. by intros x ? ->%list_elem_of_singleton.
Qed.

Lemma spark_all_spec sps seen :
  NoDup seen -> len seen <= MAX_INITIAL_SPARKS ->
  (exists r, res_fold spark_step seen sps = Ok r) <->
  NoDup (seen ++ (spark_id <$> sps)) /\ len seen + len sps <= MAX_INITIAL_SPARKS.
Proof.
  revert seen. induction sps as [|sp sps IH]; intros seen Hn Hl; csimpl.
  - rewrite app_nil_r. unfold len in *. simpl. split; [split; [done|lia]|eauto].
  - unfold spark_step at 1.
    rewrite (app_assoc seen [spark_id sp] (spark_id <$> sps) : seen ++ spark_id sp :: _ = _).
    case_bool_decide as Hin; simpl.
    { split; [by intros [? ?]|]. intros [Hnd _]. exfalso. apply NoDup_app in Hnd as (Hnd & _).
      apply NoDup_app in Hnd as (_ & Hnd & _). by apply (Hnd (spark_id sp)), list_elem_of_singleton. }
    destruct (N.leb_spec MAX_INITIAL_SPARKS (len seen)) as [Hge|Hlt]; simpl.
    { split; [by intros [? ?]|]. unfold len in *. simpl in *. intros [_ ?]. lia. }
    rewrite IH; [| |unfold len in *; rewrite length_app; simpl; lia].
    + unfold len. rewrite length_app. simpl. split; intros [? ?]; (split; [done|lia]).
    + apply NoDup_app. split; [done|]. split; [|apply NoDup_singleton].
      by intros x ? ->%list_elem_of_singleton.
Qed.

(** ** The declarative specification of a world *)

Definition adjacent (a b : Point) : Prop := distance a b = 1.

Definition valve_valid (s : WorldSpec) (v : Valve) : Prop :=
  exists d z o, d ∈ ws_depots s /\ z ∈ ws_beacons s /\ o ∈ ws_beacons s /\
    dep_id d = val_depot v /\ bea_id z = val_beacon_zero v /\ bea_id o = val_beacon_one v /\
    adjacent (val_position v) (dep_position d) /\ adjacent (val_position v) (bea_position z) /\
    adjacent (val_position v) (bea_position o) /\
    bea_accepts z = false /\ bea_accepts o = true.

Definition origin_at (s : WorldSpec) (e : Endpoint) (p : Point) : Prop :=
  match e with
  | EndCell id _ => exists c, c ∈ ws_cells s /\ cb_id c = id /\ cb_position c = p
  | EndDepot id => exists d, d ∈ ws_depots s /\ dep_id d = id /\ dep_position d = p
  end.

Definition link_valid (s : WorldSpec) (l : Link) : Prop :=
  MIN_LINK_DELAY <= lnk_delay l <= MAX_LINK_DELAY /\
  exists t p, t ∈ ws_cells s /\ cb_id t = lnk_to_cell l /\ origin_at s (lnk_from l) p /\
    adjacent p (cb_position t).

Lemma in_range_spec lo hi n : in_range lo hi n = true <-> lo <= n <= hi.
Proof. unfold in_range. by rewrite andb_true_iff, !N.leb_le. Qed.

Record limits (s : WorldSpec) : Prop := {
  lim_walls : len (ws_walls s) <= 512;
  lim_cells : 1 <= len (ws_cells s) <= 16;
  lim_sources : len (ws_sources s) <= 8;
  lim_depots : len (ws_depots s) <= 8;
  lim_beacons : 1 <= len (ws_beacons s) <= 8;
  lim_valves : len (ws_valves s) <= 8;
  lim_links : len (ws_links s) <= 32;
}.

Lemma limits_ok_spec s : limits_ok s = true <-> limits s.
Proof.
  unfold limits_ok. rewrite negb_true_iff, !orb_false_iff, !N.ltb_ge.
  unfold MAX_WALLS, MIN_CELLS, MAX_CELLS, MAX_SOURCES, MAX_DEPOTS, MIN_BEACONS,
    MAX_BEACONS, MAX_VALVES, MAX_LINKS.
  split; [intros; split; lia|]. intros []; lia.
Qed.

Definition dimensions_valid (s : WorldSpec) : Prop :=
  3 <= ws_width s <= 32 /\ 3 <= ws_height s <= 32.

Definition depot_valid (d : Depot) : Prop := 1 <= dep_capacity d <= 128.

Record beacon_valid (b : Beacon) : Prop := {
  bv_charge : 1 <= bea_initial_charge b <= 10000;
  bv_every : 1 <= bea_drain_every b <= 128;
  bv_amount : 1 <= bea_drain_amount b <= 1024;
  bv_spark : 1 <= bea_spark_charge b <= 64;
  bv_quota : bea_required_deliveries b <= 128;
}.

Lemma dimensions_ok_spec s : dimensions_ok s = true <-> dimensions_valid s.
Proof. unfold dimensions_ok. rewrite andb_true_iff, !in_range_spec. done. Qed.

Lemma depot_ok_spec d : depot_ok d = true <-> depot_valid d.
Proof. unfold depot_ok. by rewrite in_range_spec. Qed.

Lemma beacon_ok_spec b : beacon_ok b = true <-> beacon_valid b.
Proof.
  unfold beacon_ok. rewrite !andb_true_iff, !in_range_spec, N.leb_le.
  unfold MIN_BEACON_CHARGE, MAX_BEACON_CHARGE, MIN_DRAIN_EVERY, MAX_DRAIN_EVERY, MAX_TICKS,
    MIN_DRAIN_AMOUNT, MAX_DRAIN_AMOUNT, MIN_SPARK_CHARGE, MAX_SPARK_CHARGE, MAX_REQUIRED_DELIVERIES.
  split; [intros; split; lia|]. intros []. lia.
Qed.

Record valid (s : WorldSpec) : Prop := {
  v_dimensions : dimensions_valid s;
  v_limits : limits s;
  v_walls : NoDup (ws_walls s) /\ Forall (grid s) (ws_walls s);
  v_cell_ids : NoDup (cb_id <$> ws_cells s);
  v_source_ids : NoDup (src_id <$> ws_sources s);
  v_depot_ids : NoDup (dep_id <$> ws_depots s);
  v_beacon_ids : NoDup (bea_id <$> ws_beacons s);
  v_valve_ids : NoDup (val_id <$> ws_valves s);
  v_link_ids : NoDup (lnk_id <$> ws_links s);
  v_cells : NoDup (cb_position <$> ws_cells s) /\ Forall (free s) (cb_position <$> ws_cells s);
  v_stations : NoDup (stations s) /\ Forall (free s) (stations s);
  v_sparks : NoDup (spark_id <$> all_sparks s) /\ len (all_sparks s) <= MAX_INITIAL_SPARKS;
  v_depots : Forall depot_valid (ws_depots s);
  v_beacons : Forall beacon_valid (ws_beacons s);
  v_valves : Forall (valve_valid s) (ws_valves s);
  v_links : Forall (link_valid s) (ws_links s);
}.

(** *** Lookup by a unique identifier *)

Lemma find_unique {A} (key : A -> N) (l : list A) id x :
  NoDup (key <$> l) ->
  List.find (fun y => key y =? id) l = Some x <-> x ∈ l /\ key x = id.
Proof.
  intros Hnd. split.
  - intros [Hin E]%find_some. apply N.eqb_eq in E. by rewrite list_elem_of_In.
  - intros [Hin <-]. induction l as [|y l IH]; [by apply elem_of_nil in Hin|].
    simpl. apply NoDup_cons in Hnd as [Hy Hnd].
    destruct (N.eqb_spec (key y) (key x)) as [E|E].
    + apply elem_of_cons in Hin as [->|Hin]; [done|]. exfalso. apply Hy. rewrite E.
      by apply list_elem_of_fmap_2.
    + apply elem_of_cons in Hin as [->|Hin]; [done|auto].
Qed.

Lemma check_valve_spec s v :
  NoDup (dep_id <$> ws_depots s) -> NoDup (bea_id <$> ws_beacons s) ->
  check_valve s v = Ok tt <-> valve_valid s v.
Proof.
  intros Hd Hb. unfold check_valve, valve_valid, find_depot, find_beacon, adjacent. split.
  - intros (d & Ed & H)%bind_ok. apply bind_ok in H as (z & Ez & H).
    apply bind_ok in H as (o & Eo & H).
    apply ok_or_ok, find_unique in Ed as [? ?], Ez as [? ?], Eo as [? ?]; try done.
    destruct (negb _) eqn:E in H; [done|]. bool_to_prop. exists d, z, o. naive_solver.
  - intros (d & z & o & ? & ? & ? & <- & <- & <- & E1 & E2 & E3 & E4 & E5).
    rewrite (proj2 (find_unique dep_id _ _ d Hd)) by done.
    rewrite (proj2 (find_unique bea_id _ _ z Hb)) by done.
    rewrite (proj2 (find_unique bea_id _ _ o Hb)) by done. simpl.
    by rewrite E1, E2, E3, E4, E5.
Qed.

Lemma link_origin_spec s e p :
  NoDup (cb_id <$> ws_cells s) -> NoDup (dep_id <$> ws_depots s) ->
  link_origin s e = Ok p <-> origin_at s e p.
Proof.
  intros Hc Hd. destruct e as [id port|id]; simpl; unfold find_cell, find_depot;
    rewrite bind_ok; split.
  - intros (c & E & [= <-]). apply ok_or_ok, find_unique in E as [? ?]; eauto.
  - intros (c & ? & <- & <-). exists c. by rewrite ok_or_ok, find_unique.
  - intros (c & E & [= <-]). apply ok_or_ok, find_unique in E as [? ?]; eauto.
  - intros (c & ? & <- & <-). exists c. by rewrite ok_or_ok, find_unique.
Qed.

Lemma check_link_spec s l :
  NoDup (cb_id <$> ws_cells s) -> NoDup (dep_id <$> ws_depots s) ->
  check_link s l = Ok tt <-> link_valid s l.
Proof.
  intros Hc Hd. unfold check_link, link_valid, adjacent, in_range, find_cell. split.
  - intros (t & Et & H)%bind_ok. apply bind_ok in H as (p & Ep & H).
    apply ok_or_ok, find_unique in Et as [? ?]; [|done].
    apply link_origin_spec in Ep; [|done..].
    destruct (negb _) eqn:E in H; [done|]. bool_to_prop. split; [done|]. by exists t, p.
  - intros ([? ?] & t & p & ? & <- & Ep & Ea).
    rewrite (proj2 (find_unique cb_id _ _ t Hc)) by done. simpl.
    apply link_origin_spec in Ep; [|done..]. rewrite Ep. simpl. rewrite Ea.
    rewrite !(proj2 (N.leb_le _ _)) by done. done.
Qed.

Lemma ids_unique_spec s :
  ids_unique s = true <->
  NoDup (cb_id <$> ws_cells s) /\ NoDup (src_id <$> ws_sources s) /\
  NoDup (dep_id <$> ws_depots s) /\ NoDup (bea_id <$> ws_beacons s) /\
  NoDup (val_id <$> ws_valves s) /\ NoDup (lnk_id <$> ws_links s).
Proof. unfold ids_unique. rewrite !andb_true_iff, !unique_NoDup. tauto. Qed.

(** [World_new] with every stage named. *)
Lemma World_new_unfold s w :
  World_new s = Ok w <->
  (dimensions_ok s = true /\ limits_ok s = true /\
   build_walls s = Ok (wall_rows w) /\ ids_unique s = true /\
   (exists r, res_fold (place s (wall_rows w) CellPosition) [] (cb_position <$> ws_cells s) = Ok r) /\
   (exists r, res_fold (place s (wall_rows w) StationPosition) [] (stations s) = Ok r) /\
   (exists r, res_fold spark_step [] (all_sparks s) = Ok r) /\
   Forall (fun d => depot_ok d = true) (ws_depots s) /\
   Forall (fun b => beacon_ok b = true) (ws_beacons s) /\
   Forall (fun v => check_valve s v = Ok tt) (ws_valves s) /\
   Forall (fun l => check_link s l = Ok tt) (ws_links s)) /\ spec w = s.
Proof.
  unfold World_new. rewrite !bind_unit_ok, !require_ok.
  assert (Hreq : forall {A} (f : A -> bool) e l,
    res_for_each (fun x => require (f x) e) l = Ok tt <-> Forall (fun x => f x = true) l).
  { intros. rewrite res_for_each_ok. by setoid_rewrite require_ok. }
  rewrite <- (Hreq _ depot_ok DepotCapacity), <- (Hreq _ beacon_ok BeaconParameters).
  rewrite <- !res_for_each_ok. destruct w as [sp rows]; simpl. split.
  - intros (-> & -> & H). apply bind_ok in H as (rows' & -> & H).
    apply bind_unit_ok in H as (Hid & H). apply require_ok in Hid.
    apply bind_ok in H as (r1 & ? & H). apply bind_ok in H as (r2 & ? & H).
    apply bind_ok in H as (r3 & ? & H). rewrite !bind_unit_ok in H.
    destruct H as (? & ? & ? & ? & [= <- <-]). eauto 20.
  - intros [(-> & -> & -> & -> & (r1 & E1) & (r2 & E2) & (r3 & E3) & E4 & E5 & E6 & E7) ->].
    simpl. rewrite E1; simpl. rewrite E2; simpl. rewrite E3; simpl.
    by rewrite E4, E5, E6, E7.
Qed.

Lemma World_new_valid s w : World_new s = Ok w -> valid s /\ spec w = s.
Proof.
  intros [H Hw]%World_new_unfold. split; [|done].
  destruct H as (Hd & Hl & Hb & Hids & Hc & Hs & Hp & Hde & Hbe & Hv & Hk).
  apply ids_unique_spec in Hids as (? & ? & ? & ? & ? & ?).
  apply build_walls_inv in Hb as Hwi. destruct Hwi as (_ & ? & ? & _).
  apply place_all_spec in Hc as [? ?]; [|done|done|apply NoDup_nil_2].
  apply place_all_spec in Hs as [? ?]; [|done|done|apply NoDup_nil_2].
  apply spark_all_spec in Hp as [? ?]; [|apply NoDup_nil_2|done].
  split; try done.
  - by apply dimensions_ok_spec.
  - by apply limits_ok_spec.
  - eapply Forall_impl; [exact Hde|]. intros d. by apply depot_ok_spec.
  - eapply Forall_impl; [exact Hbe|]. intros b. by apply beacon_ok_spec.
  - eapply Forall_impl; [exact Hv|]. intros v. by apply check_valve_spec.
  - eapply Forall_impl; [exact Hk|]. intros l. by apply check_link_spec.
Qed.

Lemma valid_World_new s : valid s -> exists w, World_new s = Ok w.
Proof.
  intros H. destruct (build_walls_complete s) as [rows Hb];
    [by apply dimensions_ok_spec, H|apply H|apply H|].
  exists (mkWorld s rows). apply World_new_unfold. split; [|done]. simpl.
  destruct H as [Hd Hl [? ?] ? ? ? ? ? ? [? ?] [? ?] [? ?] Hde Hbe Hv Hk].
  apply dimensions_ok_spec in Hd.
  split; [done|]. split; [by apply limits_ok_spec|].
  split; [done|]. split; [by rewrite ids_unique_spec|].
  split; [apply place_all_spec; done || apply NoDup_nil_2|].
  split; [apply place_all_spec; done || apply NoDup_nil_2|].
  split; [apply spark_all_spec; done || apply NoDup_nil_2|].
  split; [eapply Forall_impl; [exact Hde|]; intros d; by apply depot_ok_spec|].
  split; [eapply Forall_impl; [exact Hbe|]; intros b; by apply beacon_ok_spec|]. split.
  - eapply Forall_impl; [exact Hv|]. intros v. by apply check_valve_spec.
  - eapply Forall_impl; [exact Hk|]. intros l. by apply check_link_spec.
Qed.

(** ** What the machine may rely on *)

(** A validated world, with the bitmap built from its walls. *)
Record world_ok (w : World) : Prop := {
  wo_valid : valid (spec w);
  wo_rows : build_walls (spec w) = Ok (wall_rows w);
}.

Lemma World_new_ok s w : World_new s = Ok w -> world_ok w.
Proof.
  intros H. destruct (World_new_valid s w H) as [Hv Hs]. split; [by rewrite Hs|].
  apply World_new_unfold in H as [(_ & _ & Hb & _) ->]. done.
Qed.

Lemma is_wall_spec w p : world_ok w -> is_wall w p = true <-> p ∈ walls w.
Proof.
  intros [Hv Hb]. destruct (build_walls_inv _ _ Hb) as (Hlen & _ & Hg & Hbit).
  unfold walls. rewrite <- Hbit. unfold is_wall, row_bit, MAX_SIDE.
  rewrite !andb_true_iff, !N.ltb_lt. split.
  - intros [_ H]. destruct (_ !! _); [|done]. by rewrite land_bit, negb_involutive in H.
  - intros H. pose proof (proj1 (Hbit p) H) as Hin.
    rewrite Forall_forall in Hg. destruct (Hg p Hin).
    destruct (v_dimensions _ Hv). split; [split; lia|].
    destruct (_ !! _); [|done]. by rewrite land_bit, negb_involutive.
Qed.

Lemma foldl_count {A} (l : list A) n :
  n + len l < 2 ^ 32 -> foldl (fun c _ => saturating_add 32 c 1) n l = n + len l.
Proof.
  unfold len. revert n. induction l as [|x l IH]; intros n H; simpl in *; [lia|].
  unfold saturating_add at 2. rewrite IH; lia.
Qed.

Lemma initial_sparks_spec w : world_ok w -> initial_sparks w = len (all_sparks (spec w)).
Proof.
  intros [Hv _]. destruct (v_sparks _ Hv) as [_ Hl].
  unfold initial_sparks, sources, all_sparks, MAX_INITIAL_SPARKS in *.
  enough (forall l n, n + len (l ≫= src_sparks) < 2 ^ 32 ->
    foldl (fun count source => foldl (fun count _ => saturating_add 32 count 1) count
             (src_sparks source)) n l = n + len (l ≫= src_sparks)) as H.
  { rewrite H; lia. }
  induction l as [|s l IH]; intros n Hn; csimpl in *; [unfold len; simpl; lia|].
  unfold len in Hn. rewrite length_app in Hn.
  rewrite foldl_count by (unfold len; lia).
  rewrite IH by (unfold len; lia). unfold len. rewrite length_app. lia.
Qed.

(** *** Cases *)

Definition event_target_known (w : World) (e : EventKind) : Prop :=
  match e with
  | LinkEnabled id _ => id ∈ lnk_id <$> links w
  | ValveEnabled id _ => id ∈ val_id <$> valves w
  | ClearMemory cell => cell ∈ cb_id <$> cells w
  end.

Record case_ok (w : World) (c : Case) : Prop := {
  co_ticks : 1 <= ticks c <= 128;
  co_fuel : case_fuel c <= 2000000;
  co_activation : 1 <= activation_fuel c <= 1024;
  co_loading : loading_work c <= 65536;
  co_events : len (events c) <= 64;
  co_targets : Forall (fun e => 1 <= ev_tick e <= ticks c /\
                                event_target_known w (ev_event e)) (events c);
}.

Lemma existsb_key {A} (key : A -> N) l id :
  existsb (fun x => key x =? id) l = true <-> id ∈ key <$> l.
Proof.
  rewrite existsb_exists, list_elem_of_fmap. setoid_rewrite N.eqb_eq.
  setoid_rewrite list_elem_of_In. split; intros (x & ? & ?); eauto.
Qed.

Lemma Case_new_ok w s c : Case_new w s = Ok c -> case_spec c = s /\ case_ok w c.
Proof.
  unfold Case_new. intros (H1 & H)%bind_unit_ok. apply bind_unit_ok in H as (H2 & H).
  apply bind_unit_ok in H as (H3 & H). apply bind_unit_ok in H as (H4 & [= <-]).
  split; [done|]. rewrite require_ok in *. apply res_for_each_ok in H4.
  rewrite !andb_true_iff, !in_range_spec, N.leb_le in H1. bool_to_prop.
  unfold MIN_TICKS, MAX_TICKS, MAX_FUEL, MIN_ACTIVATION_FUEL, MAX_ACTIVATION_FUEL,
    MAX_LOADING_WORK, MAX_EVENTS in *.
  split; try (cbv [ticks case_fuel activation_fuel loading_work events case_spec]; lia).
  eapply Forall_impl; [exact H4|]. intros e He. unfold check_event in He.
  destruct (negb (in_range _ _ _)) eqn:E1; [done|].
  destruct (negb (event_target_exists _ _)) eqn:E2; [done|].
  apply negb_false_iff in E1, E2. apply in_range_spec in E1. split; [done|].
  destruct (ev_event e); by apply existsb_key in E2.
Qed.

(** *** Assignments *)

Record assignment_ok (w : World) (a : Assignment) : Prop := {
  ao_cells : asg_cells a = cb_id <$> cells w;
  ao_programs : length (programs a) = length (cells w);
  ao_wf : Forall program_wf (programs a);
}.

Lemma Assignment_validate_ok w ps a :
  Assignment_validate w ps = Ok a -> Forall (fun p => program_wf p.2) ps ->
  assignment_ok w a /\ Forall (fun p => p ∈ ps.*2) (programs a) /\
  Forall (fun p => Forall (fun r => valve_known w r = true) (rules p)) (programs a).
Proof.
  unfold Assignment_validate. destruct (_ || _); [done|].
  intros ([ordered ids] & H & [= <-])%bind_ok Hwf. simpl.
  enough (ids = cb_id <$> cells w /\ length ordered = length (cells w) /\
    Forall (fun p => p ∈ ps.*2 /\ Forall (fun r => valve_known w r = true) (rules p)) ordered)
    as (Hids & Hl & Hf).
  { rewrite Forall_forall in Hwf. rewrite Forall_forall in Hf.
    split; [split; [done|done|]|split]; apply Forall_forall; intros p Hp;
      destruct (Hf p Hp) as [Hin ?]; try done.
    apply list_elem_of_fmap in Hin as (q & -> & ?). by apply Hwf. }
  apply (res_fold_inv _ (fun done acc => acc.2 = cb_id <$> done /\
    length acc.1 = length done /\
    Forall (fun p => p ∈ ps.*2 /\ Forall (fun r => valve_known w r = true) (rules p)) acc.1)
    _ _ _ []) in H; [done| |done].
  clear. intros pre c [o i] [o' i'] Hstep (Hi & Hl & Hf). simpl in *.
  unfold assign_cell in Hstep. apply bind_ok in Hstep as ([id p] & Hfind & Hstep).
  apply ok_or_ok, find_some in Hfind as [Hin _].
  apply bind_unit_ok in Hstep as (Hr & [= <- <-]).
  apply res_for_each_ok in Hr. setoid_rewrite require_ok in Hr.
  rewrite fmap_app, !length_app. split; [by subst|]. split; [simpl; lia|].
  apply Forall_app. split; [done|]. apply Forall_singleton. split; [|done].
  apply list_elem_of_fmap. exists (id, p). by rewrite list_elem_of_In.
Qed.
