(* ===== verification/Machine.v ===== *)
(** The tick loop of witness-mode execution
    (src/crates/vhalla-witness/src/vm.rs): state, activations, ticks and runs,
    definition by definition.  The theorems are in [MachineInv], [Actions],
    [Ticks], [Ticks], [Runs] and [RunClaims]. *)
From S2P Require Import Prelude Language Meter World.

(** ** Data *)

Record Signal : Type := mkSignal {
  sig_id : N; sig_link : N; sig_from : Endpoint; sig_to_cell : N; sig_to_port : Port;
  sig_bit : bool; sig_sent_tick : N; sig_deliver_tick : N; sig_receipt_spark : option N;
}.

Inductive SignalOutcome : Type :=
| Queued | Disabled | NotAdjacent | Full | Delivered | Expired | Consumed.

Record SignalEvent : Type := mkSignalEvent { se_signal : Signal; se_outcome : SignalOutcome }.

Record CellState : Type := mkCellState {
  cel_id : N; cel_position : Point; cel_heading : Direction; cel_memory : list N;
  cel_evidence : list (option N); cel_cargo : option Spark; cel_inbox : list (option Signal);
}.

Record SourceState : Type := mkSourceState { ss_id : N; ss_sparks : list Spark }.

Record DepotState : Type := mkDepotState { ds_id : N; ds_sparks : list Spark }.

Record BeaconState : Type := mkBeaconState {
  bs_id : N; bs_charge : N; bs_delivered : N; bs_drained : N; bs_exhausted : bool;
}.

Record EnabledState : Type := mkEnabledState { es_id : N; es_enabled : bool }.

Record Delivery : Type := mkDelivery { del_tick : N; del_spark : Spark; del_beacon : N }.

Record State : Type := mkState {
  st_tick : N; st_cells : list CellState; st_sources : list SourceState;
  st_depots : list DepotState; st_beacons : list BeaconState; st_valves : list EnabledState;
  st_links : list EnabledState; st_pending : list Signal; st_delivered : list Delivery;
  st_next_signal : N;
}.

#[global] Instance Signal_eq_dec : EqDecision Signal. Proof. solve_decision. Defined.

(** Field assignments. *)
Definition set_tick v s := mkState v (st_cells s) (st_sources s) (st_depots s) (st_beacons s)
  (st_valves s) (st_links s) (st_pending s) (st_delivered s) (st_next_signal s).
Definition set_cells v s := mkState (st_tick s) v (st_sources s) (st_depots s) (st_beacons s)
  (st_valves s) (st_links s) (st_pending s) (st_delivered s) (st_next_signal s).
Definition set_sources v s := mkState (st_tick s) (st_cells s) v (st_depots s) (st_beacons s)
  (st_valves s) (st_links s) (st_pending s) (st_delivered s) (st_next_signal s).
Definition set_depots v s := mkState (st_tick s) (st_cells s) (st_sources s) v (st_beacons s)
  (st_valves s) (st_links s) (st_pending s) (st_delivered s) (st_next_signal s).
Definition set_beacons v s := mkState (st_tick s) (st_cells s) (st_sources s) (st_depots s) v
  (st_valves s) (st_links s) (st_pending s) (st_delivered s) (st_next_signal s).
Definition set_valves v s := mkState (st_tick s) (st_cells s) (st_sources s) (st_depots s)
  (st_beacons s) v (st_links s) (st_pending s) (st_delivered s) (st_next_signal s).
Definition set_links v s := mkState (st_tick s) (st_cells s) (st_sources s) (st_depots s)
  (st_beacons s) (st_valves s) v (st_pending s) (st_delivered s) (st_next_signal s).
Definition set_pending v s := mkState (st_tick s) (st_cells s) (st_sources s) (st_depots s)
  (st_beacons s) (st_valves s) (st_links s) v (st_delivered s) (st_next_signal s).
Definition set_delivered v s := mkState (st_tick s) (st_cells s) (st_sources s) (st_depots s)
  (st_beacons s) (st_valves s) (st_links s) (st_pending s) v (st_next_signal s).
Definition set_next_signal v s := mkState (st_tick s) (st_cells s) (st_sources s) (st_depots s)
  (st_beacons s) (st_valves s) (st_links s) (st_pending s) (st_delivered s) v.

Definition set_position v c := mkCellState (cel_id c) v (cel_heading c) (cel_memory c)
  (cel_evidence c) (cel_cargo c) (cel_inbox c).
Definition set_heading v c := mkCellState (cel_id c) (cel_position c) v (cel_memory c)
  (cel_evidence c) (cel_cargo c) (cel_inbox c).
Definition set_memory v c := mkCellState (cel_id c) (cel_position c) (cel_heading c) v
  (cel_evidence c) (cel_cargo c) (cel_inbox c).
Definition set_evidence v c := mkCellState (cel_id c) (cel_position c) (cel_heading c)
  (cel_memory c) v (cel_cargo c) (cel_inbox c).
Definition set_cargo v c := mkCellState (cel_id c) (cel_position c) (cel_heading c)
  (cel_memory c) (cel_evidence c) v (cel_inbox c).
Definition set_inbox v c := mkCellState (cel_id c) (cel_position c) (cel_heading c)
  (cel_memory c) (cel_evidence c) (cel_cargo c) v.

(** ** Building and copying states *)

Definition allocated (w : World) : State :=
  mkState 0 [] ((fun s => mkSourceState (src_id s) []) <$> sources w)
    ((fun d => mkDepotState (dep_id d) []) <$> depots w) [] [] [] [] [] 1.

Definition initial_cell (c : CellBody) : CellState :=
  mkCellState (cb_id c) (cb_position c) (cb_heading c) (cb_memory c)
    (replicate 4 None) None (replicate 4 None).

Definition initial_beacon (b : Beacon) : BeaconState :=
  mkBeaconState (bea_id b) (bea_initial_charge b) 0 0 false.

Definition initial (w : World) : State :=
  let s := allocated w in
  mkState (st_tick s) (st_cells s ++ (initial_cell <$> cells w))
    (zip_with (fun entry source =>
       mkSourceState (ss_id entry) (ss_sparks entry ++ src_sparks source))
       (st_sources s) (sources w))
    (st_depots s)
    (st_beacons s ++ (initial_beacon <$> beacons w))
    (st_valves s ++ ((fun v => mkEnabledState (val_id v) (val_enabled v)) <$> valves w))
    (st_links s ++ ((fun l => mkEnabledState (lnk_id l) (lnk_enabled l)) <$> links w))
    (st_pending s) (st_delivered s) (st_next_signal s).

(** [for (entry, other) in a.iter_mut().zip(b) { *entry = other }]: entries of
    [a] past the end of [b] keep their value. *)
Fixpoint zip_copy {A} (a b : list A) : list A :=
  match a, b with
  | _ :: a, y :: b => y :: zip_copy a b
  | a, _ => a
  end.

Definition copy_from (self other : State) : State :=
  mkState (st_tick other) (st_cells other) (zip_copy (st_sources self) (st_sources other))
    (zip_copy (st_depots self) (st_depots other)) (st_beacons other) (st_valves other)
    (st_links other) (st_pending other) (st_delivered other) (st_next_signal other).

(** ** Errors, records and frames *)

Inductive ActionError : Type :=
| MovementBlocked | CargoFull | NotAtSource | SourceEmpty | CargoEmpty | DepotFull
| BeaconRejectsBit | NotAtReceiver | NoMessage | NoSignalQueued | UnknownValveError
| ValveNotAdjacent | ValveDisabled | DepotEmpty.

Inductive ActivationError : Type :=
| FuelExhaustedError
| ActivationLimitError
| ActionFailed (e : ActionError).

Record Activation : Type := mkActivation {
  act_cell : N; act_rule : option N; act_action : Action; act_success : bool;
  act_error : option ActivationError; act_position_before : Point;
  act_position_after : Point; act_work_before : N; act_work_after : N;
}.

Inductive RunStatus : Type := Complete | FuelExhausted | ActivationLimit.

Record Outcome : Type := mkOutcome {
  all_beacons_positive : bool; quotas_met : bool; conserved : bool; passed : bool;
}.

Record RunResult : Type := mkRunResult {
  rr_status : RunStatus; rr_ticks_completed : N; rr_initial_sparks : N;
  rr_ledger : Ledger; rr_outcome : Outcome; rr_final_state : State;
}.

Inductive RunError : Type := RunArithmetic | RunInvariant | AssignmentMismatch.

Record FrameView : Type := mkFrameView {
  fr_tick : N; fr_complete : bool; fr_events : list EventKind;
  fr_signals : list SignalEvent; fr_activations : list Activation;
  fr_state : State; fr_ledger : Ledger;
}.

Inductive Fault : Type :=
| FStop (s : Stop)
| FAction (e : ActionError)
| FInternal (e : RunError).

#[global] Instance RunStatus_eq_dec : EqDecision RunStatus. Proof. solve_decision. Defined.
#[global] Instance ActionError_eq_dec : EqDecision ActionError. Proof. solve_decision. Defined.
#[global] Instance RunError_eq_dec : EqDecision RunError. Proof. solve_decision. Defined.
#[global] Instance Outcome_eq_dec : EqDecision Outcome. Proof. solve_decision. Defined.
#[global] Instance SignalOutcome_eq_dec : EqDecision SignalOutcome. Proof. solve_decision. Defined.

(** The [From] conversions of [?]. *)
Definition fault_of_meter (e : MeterError) : Fault :=
  match e with
  | MeterStop stop => FStop stop
  | MeterArithmetic => FInternal RunArithmetic
  end.
Definition run_of_arithmetic (_ : Arithmetic) : RunError := RunArithmetic.

Definition count (n : N) : res RunError N :=
  if n <? 2 ^ 64 then Ok n else Err RunArithmetic.

(** ** Geometry and scheduling arithmetic *)

Definition mix (value : N) : N :=
  let value := wrapping_add 64 value 0x9e3779b97f4a7c15 in
  let value := wrapping_mul 64 (N.lxor value (N.shiftr value 30)) 0xbf58476d1ce4e5b9 in
  let value := wrapping_mul 64 (N.lxor value (N.shiftr value 27)) 0x94d049bb133111eb in
  N.lxor value (N.shiftr value 31).

Definition destination (position : Point) (heading : Direction) (direction : Relative)
    : option Point :=
  match face heading direction with
  | North => (fun y => mkPoint (px position) y) <$> checked_sub (py position) 1
  | East => (fun x => mkPoint x (py position)) <$> checked_add 8 (px position) 1
  | South => (fun y => mkPoint (px position) y) <$> checked_add 8 (py position) 1
  | West => (fun x => mkPoint x (py position)) <$> checked_sub (px position) 1
  end.

Definition blocked {E} (w : World) (s : State) (i : nat) (direction : Relative) : res E bool :=
  let? actor := index (st_cells s) i in
  Ok (match destination (cel_position actor) (cel_heading actor) direction with
      | None => true
      | Some point =>
          (width w <=? px point) || (height w <=? py point) || is_wall w point
          || existsb (fun other => negb (cel_id other =? cel_id actor)
                                   && bool_decide (cel_position other = point)) (st_cells s)
      end).

Definition find_cell_state (s : State) (id : N) : option CellState :=
  List.find (fun c => cel_id c =? id) (st_cells s).

(** [iter().position(..)] *)
Fixpoint position {A} (f : A -> bool) (l : list A) : option nat :=
  match l with
  | [] => None
  | x :: l => if f x then Some O else S <$> position f l
  end.

Definition origin_position (w : World) (s : State) (e : Endpoint) : res RunError Point :=
  match e with
  | EndCell id _ => ok_or (cel_position <$> find_cell_state s id) RunInvariant
  | EndDepot id => ok_or (dep_position <$> find_depot (depots w) id) RunInvariant
  end.

(** ** The execution context: meter and signal log, with a state *)

Record Ctx : Type := mkCtx { c_meter : Meter; c_signals : list SignalEvent }.
Record Env : Type := mkEnv { e_ctx : Ctx; e_state : State }.

Definition ctx_charge (c : Category) (amount : N) : eff Ctx Fault unit :=
  eff_map_err fault_of_meter (zoom c_meter (fun m k => mkCtx m (c_signals k)) (charge c amount)).

Definition with_ctx {A} (m : eff Ctx Fault A) : eff Env Fault A :=
  zoom e_ctx (fun c e => mkEnv c (e_state e)) m.

Definition env_charge (c : Category) (amount : N) : eff Env Fault unit :=
  with_ctx (ctx_charge c amount).

Definition push_signal (signal : Signal) (outcome : SignalOutcome) : eff Env Fault unit :=
  modify (fun e => mkEnv (mkCtx (c_meter (e_ctx e))
                                (c_signals (e_ctx e) ++ [mkSignalEvent signal outcome]))
                         (e_state e)).

Definition update (f : State -> State) : eff Env Fault unit :=
  modify (fun e => mkEnv (e_ctx e) (f (e_state e))).

Definition state_ : eff Env Fault State := let! e := get in ret (e_state e).

Definition upd_cell (i : nat) (f : CellState -> CellState) (s : State) : State :=
  set_cells (alter f i (st_cells s)) s.

Definition update_cell (i : nat) (f : CellState -> CellState) : eff Env Fault unit :=
  update (upd_cell i f).

Definition internal {S A} (r : res RunError A) : eff S Fault A := lift (map_err FInternal r).

Definition checked_add_fault {S} (w a b : N) : eff S Fault N :=
  lift (ok_or (checked_add w a b) (FInternal RunArithmetic)).

(** ** Emission *)

Definition emit_link (w : World) (endpoint : Endpoint) (bit : bool) (evidence : option N)
    (accepted : N) (il : nat * Link) : eff Env Fault N :=
  let '(i, link) := il in
  do! env_charge Messages 1 in
  do! env_charge Checking 1 in
  let! s := state_ in
  let! recipient := internal (ok_or (cel_position <$> find_cell_state s (lnk_to_cell link))
                                    RunInvariant) in
  let! deliver := checked_add_fault 32 (st_tick s) (lnk_delay link) in
  let signal := mkSignal (st_next_signal s) (lnk_id link) endpoint (lnk_to_cell link)
                  (lnk_to_port link) bit (st_tick s) deliver evidence in
  let! next := checked_add_fault 64 (st_next_signal s) 1 in
  do! update (set_next_signal next) in
  let! s := state_ in
  let! entry := lift (index (st_links s) i) in
  if negb (es_enabled entry) then
    do! push_signal signal Disabled in ret accepted
  else
    let! origin := internal (origin_position w s endpoint) in
    if negb (distance origin recipient =? 1) then
      do! push_signal signal NotAdjacent in ret accepted
    else if MAX_PENDING <=? len (st_pending s) then
      do! push_signal signal Full in ret accepted
    else
      do! update (fun s => set_pending (st_pending s ++ [signal]) s) in
      let! accepted := checked_add_fault 32 accepted 1 in
      do! push_signal signal Queued in ret accepted.

(** [iter().enumerate()] *)
Definition enumerate {A} (l : list A) : list (nat * A) := imap pair l.

Definition emit (w : World) (endpoint : Endpoint) (bit : bool) (evidence : option N)
    : eff Env Fault N :=
  eff_fold (emit_link w endpoint bit evidence) 0
    (filter (fun il => lnk_from il.2 = endpoint) (enumerate (links w))).

(** ** Conditions *)

Definition at_depot (w : World) (c : CellState) : bool :=
  existsb (fun d => bool_decide (dep_position d = cel_position c)) (depots w).
Definition at_beacon (w : World) (c : CellState) : bool :=
  existsb (fun b => bool_decide (bea_position b = cel_position c)) (beacons w).
Definition at_source (w : World) (c : CellState) : bool :=
  existsb (fun s => bool_decide (src_position s = cel_position c)) (sources w).

Definition sense (w : World) (s : State) (i : nat) (cell : CellState) (condition : Condition)
    : res Fault bool :=
  match condition with
  | Carrying value => Ok (Bool.eqb (bool_decide (is_Some (cel_cargo cell))) value)
  | AtSource value => Ok (Bool.eqb (at_source w cell) value)
  | AtDepot value => Ok (Bool.eqb (at_depot w cell) value)
  | AtBeacon value => Ok (Bool.eqb (at_beacon w cell) value)
  | AtReceiver value => Ok (Bool.eqb (at_depot w cell || at_beacon w cell) value)
  | Blocked direction value => let? b := blocked w s i direction in Ok (Bool.eqb b value)
  | HasMessage port value =>
      let? slot := index (cel_inbox cell) (port_index port) in
      Ok (Bool.eqb (bool_decide (is_Some slot)) value)
  | MessageBit port value =>
      let? slot := index (cel_inbox cell) (port_index port) in
      Ok (match slot with Some signal => Bool.eqb (sig_bit signal) value | None => false end)
  | Heading direction => Ok (bool_decide (cel_heading cell = direction))
  | Memory _ _ => Err (FInternal RunInvariant)
  end.

Definition check_condition (w : World) (s : State) (i : nat) (condition : Condition)
    : eff Ctx Fault bool :=
  do! ctx_charge Conditions 1 in
  let! cell := lift (index (st_cells s) i) in
  match condition with
  | Memory slot value =>
      do! ctx_charge MemoryReads 1 in
      let! byte := lift (index (cel_memory cell) (slot_index slot)) in
      ret (byte =? value)
  | _ =>
      do! ctx_charge Sensors 1 in
      lift (sense w s i cell condition)
  end.

Definition read_bit (cell : CellState) (source : BitSource) : eff Ctx Fault (bool * option N) :=
  match source with
  | BitConstant value =>
      do! ctx_charge Checking 1 in ret (value, None)
  | BitMemory slot =>
      do! ctx_charge MemoryReads 1 in
      let! byte := lift (index (cel_memory cell) (slot_index slot)) in
      let! evidence := lift (index (cel_evidence cell) (slot_index slot)) in
      ret (negb (byte =? 0), evidence)
  | BitMessage port =>
      do! ctx_charge Sensors 1 in
      let! slot := lift (index (cel_inbox cell) (port_index port)) in
      lift (ok_or ((fun signal => (sig_bit signal, sig_receipt_spark signal)) <$> slot)
                  (FAction NoMessage))
  end.

(** ** Actions *)

Definition upd_beacon (i : nat) (b : BeaconState) (s : State) : State :=
  set_beacons (<[i := b]> (st_beacons s)) s.

Definition push_delivery (spark : Spark) (beacon : N) (s : State) : State :=
  set_delivered (st_delivered s ++ [mkDelivery (st_tick s) spark beacon]) s.

Definition credit (w : World) (beacon : nat) (spark : Spark) : eff Env Fault unit :=
  do! env_charge Transfers 1 in
  let! specification := lift (index (beacons w) beacon) in
  let! s := state_ in
  let! entry := lift (index (st_beacons s) beacon) in
  let! charge := checked_add_fault 32 (bs_charge entry) (bea_spark_charge specification) in
  let set b := update (upd_beacon beacon b) in
  do! set (mkBeaconState (bs_id entry) charge (bs_delivered entry) (bs_drained entry)
             (bs_exhausted entry)) in
  let! delivered := checked_add_fault 32 (bs_delivered entry) 1 in
  do! set (mkBeaconState (bs_id entry) charge delivered (bs_drained entry)
             (bs_exhausted entry)) in
  update (push_delivery spark (bea_id specification)).

Definition the_cell (i : nat) : eff Env Fault CellState :=
  let! s := state_ in lift (index (st_cells s) i).

Definition depot_at (w : World) (p : Point) : option nat :=
  position (fun d => bool_decide (dep_position d = p)) (depots w).
Definition beacon_at (w : World) (p : Point) : option nat :=
  position (fun b => bool_decide (bea_position b = p)) (beacons w).
Definition source_at (w : World) (p : Point) : option nat :=
  position (fun s => bool_decide (src_position s = p)) (sources w).

(** [sparks.remove(0)] and [sparks.push(spark)] on one station. *)
Definition source_pop (i : nat) (s : State) : State :=
  set_sources (alter (fun e => mkSourceState (ss_id e) (tail (ss_sparks e))) i (st_sources s)) s.
Definition depot_pop (i : nat) (s : State) : State :=
  set_depots (alter (fun e => mkDepotState (ds_id e) (tail (ds_sparks e))) i (st_depots s)) s.
Definition depot_push (i : nat) (spark : Spark) (s : State) : State :=
  set_depots (alter (fun e => mkDepotState (ds_id e) (ds_sparks e ++ [spark])) i (st_depots s)) s.

Definition act_move (w : World) (i : nat) (direction : Relative) : eff Env Fault unit :=
  do! env_charge Checking 1 in
  let! body := lift (index (cells w) i) in
  let! s := state_ in
  let! obstructed := (if negb (cb_mobile body) then ret true else lift (blocked w s i direction)) in
  if (obstructed : bool) then throw (FAction MovementBlocked)
  else
    do! env_charge Transfers 1 in
    let! cell := the_cell i in
    let! target := internal (ok_or (destination (cel_position cell) (cel_heading cell) direction)
                                   RunInvariant) in
    do! update_cell i (set_position target) in
    update_cell i (set_heading (face (cel_heading cell) direction)).

Definition act_turn (i : nat) (direction : Relative) : eff Env Fault unit :=
  do! env_charge Transfers 1 in
  let! cell := the_cell i in
  update_cell i (set_heading (face (cel_heading cell) direction)).

Definition act_pickup (w : World) (i : nat) : eff Env Fault unit :=
  do! env_charge Checking 1 in
  let! cell := the_cell i in
  if bool_decide (is_Some (cel_cargo cell)) then throw (FAction CargoFull)
  else
    let! source := lift (ok_or (source_at w (cel_position cell)) (FAction NotAtSource)) in
    let! s := state_ in
    let! entry := lift (index (st_sources s) source) in
    match ss_sparks entry with
    | [] => throw (FAction SourceEmpty)
    | spark :: _ =>
        do! env_charge Transfers 1 in
        do! update (source_pop source) in
        update_cell i (set_cargo (Some spark))
    end.

Definition act_drop (w : World) (i : nat) : eff Env Fault unit :=
  do! env_charge Checking 1 in
  let! cell := the_cell i in
  let! spark := lift (ok_or (cel_cargo cell) (FAction CargoEmpty)) in
  match depot_at w (cel_position cell) with
  | Some depot =>
      let! specification := lift (index (depots w) depot) in
      let! s := state_ in
      let! entry := lift (index (st_depots s) depot) in
      if dep_capacity specification <=? len (ds_sparks entry) then throw (FAction DepotFull)
      else
        do! env_charge Transfers 1 in
        do! update_cell i (set_cargo None) in
        do! update (depot_push depot spark) in
        do! emit w (EndDepot (dep_id specification)) (spark_bit spark) (Some (spark_id spark)) in
        ret tt
  | None =>
      match beacon_at w (cel_position cell) with
      | Some beacon =>
          let! specification := lift (index (beacons w) beacon) in
          if negb (Bool.eqb (bea_accepts specification) (spark_bit spark))
          then throw (FAction BeaconRejectsBit)
          else
            do! credit w beacon spark in
            update_cell i (set_cargo None)
      | None => throw (FAction NotAtReceiver)
      end
  end.

Definition write_slot_value (i : nat) (slot : Slot) (value : N) (evidence : option N)
    : eff Env Fault unit :=
  do! update_cell i (fun c => set_memory (<[slot_index slot := value]> (cel_memory c)) c) in
  update_cell i (fun c => set_evidence (<[slot_index slot := evidence]> (cel_evidence c)) c).

(** [memory[slot] = ..] panics out of range; the bound is checked first. *)
Definition check_slot (i : nat) (slot : Slot) : eff Env Fault unit :=
  let! cell := the_cell i in
  let! _m := lift (index (cel_memory cell) (slot_index slot)) in
  let! _e := lift (index (cel_evidence cell) (slot_index slot)) in
  ret tt.

Definition act_write (i : nat) (slot : Slot) (value : N) : eff Env Fault unit :=
  do! env_charge MemoryWrites 1 in
  do! check_slot i slot in
  write_slot_value i slot value None.

Definition act_take (i : nat) (port : Port) (slot : Slot) : eff Env Fault unit :=
  do! env_charge Sensors 1 in
  let! cell := the_cell i in
  let! inbox := lift (index (cel_inbox cell) (port_index port)) in
  let! signal := lift (ok_or inbox (FAction NoMessage)) in
  do! env_charge MemoryWrites 1 in
  do! env_charge Messages 1 in
  do! check_slot i slot in
  do! write_slot_value i slot (N.b2n (sig_bit signal)) (sig_receipt_spark signal) in
  do! update_cell i (fun c => set_inbox (<[port_index port := None]> (cel_inbox c)) c) in
  push_signal signal Consumed.

Definition act_send (w : World) (i : nat) (port : Port) (bit : BitSource) : eff Env Fault unit :=
  let! cell := the_cell i in
  let! '(value, evidence) := with_ctx (read_bit cell bit) in
  let! accepted := emit w (EndCell (cel_id cell) port) value evidence in
  if accepted =? 0 then throw (FAction NoSignalQueued) else ret tt.

Definition act_route (w : World) (i : nat) (valve : ValveId) (bit : BitSource)
    : eff Env Fault unit :=
  let! cell := the_cell i in
  let! '(value, _) := with_ctx (read_bit cell bit) in
  do! env_charge Checking 1 in
  let! valve_index := lift (ok_or (position (fun v => val_id v =? valve_get valve) (valves w))
                                  (FAction UnknownValveError)) in
  let! specification := lift (index (valves w) valve_index) in
  if negb (distance (cel_position cell) (val_position specification) =? 1)
  then throw (FAction ValveNotAdjacent)
  else
    let! s := state_ in
    let! enabled := lift (index (st_valves s) valve_index) in
    if negb (es_enabled enabled) then throw (FAction ValveDisabled)
    else
      let! depot := internal (ok_or (position (fun d => dep_id d =? val_depot specification)
                                              (depots w)) RunInvariant) in
      let! entry := lift (index (st_depots s) depot) in
      let! spark := lift (ok_or (head (ds_sparks entry)) (FAction DepotEmpty)) in
      let beacon_id := if (value : bool) then val_beacon_one specification
                       else val_beacon_zero specification in
      let! beacon := internal (ok_or (position (fun b => bea_id b =? beacon_id) (beacons w))
                                     RunInvariant) in
      let! target := lift (index (beacons w) beacon) in
      if negb (Bool.eqb (bea_accepts target) (spark_bit spark))
      then throw (FAction BeaconRejectsBit)
      else
        do! credit w beacon spark in
        update (depot_pop depot).

Definition execute (w : World) (i : nat) (action : Action) : eff Env Fault unit :=
  do! env_charge Actions 1 in
  match action with
  | Wait => ret tt
  | Move direction => act_move w i direction
  | Turn direction => act_turn i direction
  | Pickup => act_pickup w i
  | Drop => act_drop w i
  | WriteMemory slot value => act_write i slot value
  | TakeMessage port slot => act_take i port slot
  | Send port bit => act_send w i port bit
  | Route valve bit => act_route w i valve bit
  end.

(** ** Activations *)

Fixpoint all_match (w : World) (s : State) (i : nat) (when : list Condition)
    : eff Ctx Fault bool :=
  match when with
  | [] => ret true
  | c :: when =>
      let! holds := check_condition w s i c in
      if (holds : bool) then all_match w s i when else ret false
  end.

Fixpoint select (w : World) (s : State) (i : nat) (rs : list (nat * Rule))
    : eff Ctx Fault (option (nat * Rule)) :=
  match rs with
  | [] => ret None
  | (k, rule) :: rs =>
      do! ctx_charge Checking 1 in
      let! matches := all_match w s i (rule_when rule) in
      if (matches : bool) then ret (Some (k, rule)) else select w s i rs
  end.

(** Hold an early return as a value; a panic still unwinds. *)
Definition catch {S E A} (m : eff S E A) : eff S E (res E A) :=
  fun s => match m s with
           | (Panic, s') => (Panic, s')
           | (r, s') => (Ok r, s')
           end.

(** The mutable arguments of [run_activation]: context, scratch, record. *)
Record RunEnv : Type := mkRunEnv { re_env : Env; re_record : Activation }.

Definition on_env {A} (m : eff Env Fault A) : eff RunEnv Fault A :=
  zoom re_env (fun e r => mkRunEnv e (re_record r)) m.

Definition set_rule_action (rule : option N) (action : Action) (a : Activation) : Activation :=
  mkActivation (act_cell a) rule action (act_success a) (act_error a)
    (act_position_before a) (act_position_after a) (act_work_before a) (act_work_after a).

Definition rule_number (selected : option (nat * Rule)) : res Fault (option N) :=
  match selected with
  | Some (k, _) =>
      if N.of_nat k <? 2 ^ 8 then Ok (Some (N.of_nat k)) else Err (FInternal RunArithmetic)
  | None => Ok None
  end.

Definition selected_action (selected : option (nat * Rule)) : Action :=
  match selected with Some (_, rule) => rule_action rule | None => Wait end.

Definition is_stop_or_internal (r : res Fault unit) : bool :=
  match r with Err (FStop _) | Err (FInternal _) => true | _ => false end.

Definition run_activation (w : World) (program : Program) (s : State) (i : nat)
    : eff RunEnv Fault unit :=
  do! on_env (env_charge Scheduling 1) in
  let! selected := on_env (with_ctx (select w s i (enumerate (rules program)))) in
  let! number := lift (rule_number selected) in
  let action := selected_action selected in
  do! modify (fun r => mkRunEnv (re_env r) (set_rule_action number action (re_record r))) in
  let! action_result := catch (on_env (execute w i action)) in
  if is_stop_or_internal action_result then lift action_result
  else
    do! (match selected ≫= (fun kr => rule_remember kr.2) with
         | Some write =>
             do! on_env (env_charge MemoryWrites 1) in
             do! on_env (check_slot i (write_slot write)) in
             on_env (write_slot_value i (write_slot write) (write_value write) None)
         | None => ret tt
         end) in
    lift action_result.

(** The mutable arguments of [activate]. *)
Record TurnEnv : Type := mkTurn { t_ctx : Ctx; t_state : State; t_scratch : State }.

Definition ctx_begin_activation (limit : N) : eff TurnEnv RunError unit :=
  eff_map_err run_of_arithmetic
    (zoom (fun t => c_meter (t_ctx t))
          (fun m t => mkTurn (mkCtx m (c_signals (t_ctx t))) (t_state t) (t_scratch t))
          (begin_activation limit)).

Definition turn_total : eff TurnEnv RunError N :=
  let! t := get in
  lift (map_err run_of_arithmetic (meter_total (c_meter (t_ctx t)))).

Definition turn_cell (view : TurnEnv -> State) (i : nat) : eff TurnEnv RunError CellState :=
  let! t := get in lift (index (st_cells (view t)) i).

(** Run the body on context, scratch and record, keeping its result. *)
Definition turn_body (w : World) (program : Program) (i : nat) (record : Activation)
    : eff TurnEnv RunError (res Fault unit * Activation) :=
  fun t =>
    match run_activation w program (t_state t) i
            (mkRunEnv (mkEnv (t_ctx t) (t_scratch t)) record) with
    | (Panic, r) => (Panic, mkTurn (e_ctx (re_env r)) (t_state t) (e_state (re_env r)))
    | (result, r) =>
        (Ok (result, re_record r),
         mkTurn (e_ctx (re_env r)) (t_state t) (e_state (re_env r)))
    end.

Definition finish (success : bool) (error : option ActivationError) (after : Point)
    (work : N) (a : Activation) : Activation :=
  mkActivation (act_cell a) (act_rule a) (act_action a) success error
    (act_position_before a) after (act_work_before a) work.

Definition activate (w : World) (case : Case) (program : Program) (i : nat)
    : eff TurnEnv RunError (Activation * option Stop) :=
  let! cell := turn_cell t_state i in
  let before := cel_position cell in
  let! work_before := turn_total in
  let record := mkActivation (cel_id cell) None Wait false None before before
                  work_before work_before in
  do! ctx_begin_activation (activation_fuel case) in
  do! modify (fun t => mkTurn (t_ctx t) (t_state t) (copy_from (t_scratch t) (t_state t))) in
  let! t := get in
  let signal_start := length (c_signals (t_ctx t)) in
  let! '(result, record) := turn_body w program i record in
  do! modify (fun t => mkTurn (mkCtx (end_activation (c_meter (t_ctx t))) (c_signals (t_ctx t)))
                              (t_state t) (t_scratch t)) in
  let! work_after := turn_total in
  match result with
  | Err (FInternal error) => throw error
  | Err (FStop stop) =>
      let error := match stop with
                   | StopFuel => FuelExhaustedError
                   | StopActivation => ActivationLimitError
                   end in
      do! modify (fun t => mkTurn (mkCtx (c_meter (t_ctx t))
                                         (take signal_start (c_signals (t_ctx t))))
                                  (t_state t) (t_scratch t)) in
      ret (finish false (Some error) before work_after record, Some stop)
  | Ok _ =>
      let! cell := turn_cell t_scratch i in
      do! modify (fun t => mkTurn (t_ctx t) (t_scratch t) (t_state t)) in
      ret (finish true None (cel_position cell) work_after record, None)
  | Err (FAction error) =>
      let! cell := turn_cell t_scratch i in
      do! modify (fun t => mkTurn (t_ctx t) (t_scratch t) (t_state t)) in
      ret (finish false (Some (ActionFailed error)) (cel_position cell) work_after record, None)
  | Panic => panic
  end.

(** ** The machine *)

(** The mutable fields of the source's [Machine]; world, assignment and case
    are borrowed and passed as arguments. *)
Record Machine : Type := mkMachine {
  m_meter : Meter; m_state : State; m_scratch : State; m_signals : list SignalEvent;
  m_activations : list Activation; m_events : list EventKind; m_order : list N;
  m_initial_sparks : N; m_cell_count : N; m_beacon_count : N; m_status : RunStatus;
}.

Definition with_turn (t : TurnEnv) (m : Machine) : Machine :=
  mkMachine (c_meter (t_ctx t)) (t_state t) (t_scratch t) (c_signals (t_ctx t))
    (m_activations m) (m_events m) (m_order m) (m_initial_sparks m) (m_cell_count m)
    (m_beacon_count m) (m_status m).
Definition turn_of (m : Machine) : TurnEnv :=
  mkTurn (mkCtx (m_meter m) (m_signals m)) (m_state m) (m_scratch m).

Definition env_of (m : Machine) : Env := mkEnv (mkCtx (m_meter m) (m_signals m)) (m_state m).
Definition with_env (e : Env) (m : Machine) : Machine :=
  with_turn (mkTurn (e_ctx e) (e_state e) (m_scratch m)) m.

Definition set_status v m := mkMachine (m_meter m) (m_state m) (m_scratch m) (m_signals m)
  (m_activations m) (m_events m) (m_order m) (m_initial_sparks m) (m_cell_count m)
  (m_beacon_count m) v.
Definition push_activation v m := mkMachine (m_meter m) (m_state m) (m_scratch m) (m_signals m)
  (m_activations m ++ [v]) (m_events m) (m_order m) (m_initial_sparks m) (m_cell_count m)
  (m_beacon_count m) (m_status m).
Definition push_event v m := mkMachine (m_meter m) (m_state m) (m_scratch m) (m_signals m)
  (m_activations m) (m_events m ++ [v]) (m_order m) (m_initial_sparks m) (m_cell_count m)
  (m_beacon_count m) (m_status m).

Definition ids_agree (a : Assignment) (w : World) : bool :=
  negb (existsb (fun '(id, cell) => negb (id =? cb_id cell)) (zip (asg_cells a) (cells w))).

Definition Machine_new (w : World) (a : Assignment) (c : Case) : res RunError Machine :=
  if negb (len (asg_cells a) =? len (cells w)) || negb (ids_agree a w)
  then Err AssignmentMismatch
  else
    let state := initial w in
    let scratch := copy_from (allocated w) state in
    let? cell_count := count (len (cells w)) in
    let? beacon_count := count (len (beacons w)) in
    Ok (mkMachine (meter_new (case_fuel c)) state scratch [] [] [] []
          (initial_sparks w) cell_count beacon_count Complete).

Definition initial_checking (w : World) (c : Case) (m : Machine) : res RunError N :=
  let? entities :=
    res_fold (fun sum n => let? k := count n in ok_or (checked_add 64 sum k) RunArithmetic) 0
      [len (walls w); len (cells w); len (sources w); len (depots w); len (beacons w);
       len (valves w); len (links w); len (events c)] in
  ok_or (checked_add 64 entities (m_initial_sparks m)) RunArithmetic.

(** [sort_unstable_by_key] with the key [(mix(..), id)]: a sort by the key. *)
Definition order_key (seed tick id : N) : N * N :=
  (mix (N.lxor (N.lxor seed (wrap 64 (N.shiftl tick 32))) id), id).

Definition key_le (a b : N * N) : bool :=
  (a.1 <? b.1) || ((a.1 =? b.1) && (a.2 <=? b.2)).

Fixpoint insert_by (key : N -> N * N) (x : N) (l : list N) : list N :=
  match l with
  | [] => [x]
  | y :: l' => if key_le (key x) (key y) then x :: l else y :: insert_by key x l'
  end.

Definition sort_by_key (key : N -> N * N) (l : list N) : list N :=
  foldr (insert_by key) [] l.

Definition schedule (c : Case) (tick : N) (m : Machine) : Machine :=
  mkMachine (m_meter m) (m_state m) (m_scratch m) (m_signals m) (m_activations m) (m_events m)
    (sort_by_key (order_key (seed c) tick) (cel_id <$> st_cells (m_state m)))
    (m_initial_sparks m) (m_cell_count m) (m_beacon_count m) (m_status m).

Definition on_machine {A} (m : eff Env Fault A) : eff Machine Fault A := zoom env_of with_env m.

(** ** A tick, phase by phase *)

(** Old inboxes expire. *)
Definition expire_port (i p : nat) : eff Env Fault unit :=
  let! cell := the_cell i in
  let! slot := lift (index (cel_inbox cell) p) in
  match slot with
  | Some signal =>
      do! env_charge Messages 1 in
      do! push_signal signal Expired in
      update_cell i (fun c => set_inbox (<[p := None]> (cel_inbox c)) c)
  | None => ret tt
  end.

Definition expire_inboxes : eff Env Fault unit :=
  let! s := state_ in
  for_each (fun i =>
    let! cell := the_cell i in
    for_each (expire_port i) (seq 0 (length (cel_inbox cell)))) (seq 0 (length (st_cells s))).

(** Scheduled events of this tick. *)
Definition apply_event (e : EventKind) : eff Env Fault unit :=
  let! s := state_ in
  match e with
  | LinkEnabled id enabled =>
      do! env_charge Actions 1 in
      let! i := internal (ok_or (position (fun l => es_id l =? id) (st_links s)) RunInvariant) in
      update (fun s => set_links (alter (fun l => mkEnabledState (es_id l) enabled) i
                                        (st_links s)) s)
  | ValveEnabled id enabled =>
      do! env_charge Actions 1 in
      let! i := internal (ok_or (position (fun v => es_id v =? id) (st_valves s)) RunInvariant) in
      update (fun s => set_valves (alter (fun v => mkEnabledState (es_id v) enabled) i
                                         (st_valves s)) s)
  | ClearMemory cell =>
      do! env_charge MemoryWrites CLEAR_MEMORY_WRITES in
      let! i := internal (ok_or (position (fun c => cel_id c =? cell) (st_cells s))
                                RunInvariant) in
      update_cell i (fun c => set_evidence (replicate 4 None) (set_memory (replicate 4 0) c))
  end.

Definition run_event (e : Event) : eff Machine Fault unit :=
  do! on_machine (env_charge Checking 1) in
  do! on_machine (apply_event (ev_event e)) in
  modify (push_event (ev_event e)).

(** Due signals in queue order. *)
Definition deliver_signal (w : World) (i : nat) (signal : Signal) : eff Env Fault unit :=
  do! env_charge Messages 1 in
  do! env_charge Checking 1 in
  do! update (fun s => set_pending (delete i (st_pending s)) s) in
  let! s := state_ in
  let! link := internal (ok_or (List.find (fun l => es_id l =? sig_link signal) (st_links s))
                               RunInvariant) in
  let! recipient := internal (ok_or (position (fun c => cel_id c =? sig_to_cell signal)
                                              (st_cells s)) RunInvariant) in
  let! origin := internal (origin_position w s (sig_from signal)) in
  let! cell := the_cell recipient in
  let adjacent := distance origin (cel_position cell) =? 1 in
  let port := port_index (sig_to_port signal) in
  if negb (es_enabled link) then push_signal signal Disabled
  else if negb adjacent then push_signal signal NotAdjacent
  else
    let! slot := lift (index (cel_inbox cell) port) in
    if bool_decide (is_Some slot) then push_signal signal Full
    else
      do! update_cell recipient (fun c => set_inbox (<[port := Some signal]> (cel_inbox c)) c) in
      push_signal signal Delivered.

(** The [while index < pending.len()] loop, with fuel for its iterations. *)
Fixpoint deliver_loop (w : World) (tick : N) (fuel : nat) (i : nat) : eff Env Fault unit :=
  let! s := state_ in
  match st_pending s !! i with
  | None => ret tt
  | Some signal =>
      match fuel with
      | O => panic
      | S fuel =>
          if tick <? sig_deliver_tick signal then deliver_loop w tick fuel (S i)
          else
            do! deliver_signal w i signal in
            deliver_loop w tick fuel i
      end
  end.

(** Every iteration shortens the part of the queue past the index by one. *)
Definition deliver_due (w : World) (tick : N) : eff Env Fault unit :=
  let! s := state_ in deliver_loop w tick (length (st_pending s)) 0.

Definition activate_cell (w : World) (a : Assignment) (c : Case) (id : N)
    : eff Machine Fault unit :=
  let! m := get in
  let! i := internal (ok_or (position (fun cell => cel_id cell =? id) (st_cells (m_state m)))
                            RunInvariant) in
  let! program := internal (ok_or (programs a !! i) RunInvariant) in
  let! '(record, limit) :=
    eff_map_err FInternal (zoom turn_of with_turn (activate w c program i)) in
  do! modify (push_activation record) in
  match limit with
  | Some StopFuel => throw (FStop StopFuel)
  | Some StopActivation => modify (set_status ActivationLimit)
  | None => ret tt
  end.

(** Beacons drain. *)
Definition drain_beacon (tick : N) (ib : nat * Beacon) : eff Env Fault unit :=
  let '(i, beacon) := ib in
  do! env_charge Checking 1 in
  if bea_drain_every beacon =? 0 then throw (FInternal RunArithmetic)
  else if negb (tick mod bea_drain_every beacon =? 0) then ret tt
  else
    do! env_charge Draining 1 in
    let! s := state_ in
    let! entry := lift (index (st_beacons s) i) in
    let drained := N.min (bs_charge entry) (bea_drain_amount beacon) in
    let set b := update (upd_beacon i b) in
    let! charge := lift (ok_or (checked_sub (bs_charge entry) drained)
                               (FInternal RunArithmetic)) in
    do! set (mkBeaconState (bs_id entry) charge (bs_delivered entry) (bs_drained entry)
               (bs_exhausted entry)) in
    let! total := checked_add_fault 32 (bs_drained entry) drained in
    set (mkBeaconState (bs_id entry) charge (bs_delivered entry) total
           (if charge =? 0 then true else bs_exhausted entry)).

Definition end_checking (m : Machine) : res Fault N :=
  let? sum := ok_or (checked_add 64 (m_cell_count m) (m_beacon_count m))
                    (FInternal RunArithmetic) in
  ok_or (checked_add 64 sum (m_initial_sparks m)) (FInternal RunArithmetic).

Definition tick_ (w : World) (a : Assignment) (c : Case) (tick : N) : eff Machine Fault unit :=
  do! on_machine (env_charge Scheduling 1) in
  do! on_machine expire_inboxes in
  do! for_each run_event (filter (fun e => ev_tick e = tick) (events c)) in
  do! on_machine (deliver_due w tick) in
  let! m := get in
  do! for_each (activate_cell w a c) (m_order m) in
  do! on_machine (for_each (drain_beacon tick) (enumerate (beacons w))) in
  let! m := get in
  let! checking := lift (end_checking m) in
  on_machine (env_charge Checking checking).

(** ** Runs *)

Definition carried (s : State) : N :=
  len (filter (fun c => is_Some (cel_cargo c)) (st_cells s)).

Definition run_outcome (w : World) (m : Machine) : res RunError Outcome :=
  let s := m_state m in
  let? present :=
    res_fold (fun sum n => let? k := count n in ok_or (checked_add 64 sum k) RunArithmetic) 0
      (((fun e => len (ss_sparks e)) <$> st_sources s)
       ++ ((fun e => len (ds_sparks e)) <$> st_depots s)
       ++ [carried s] ++ [len (st_delivered s)]) in
  let positive := forallb (fun b => (0 <? bs_charge b) && negb (bs_exhausted b)) (st_beacons s) in
  let quotas := forallb (fun '(goal, result) =>
                           bea_required_deliveries goal <=? bs_delivered result)
                        (zip (beacons w) (st_beacons s)) in
  let conserved := present =? m_initial_sparks m in
  Ok (mkOutcome positive quotas conserved
        (bool_decide (m_status m = Complete) && positive && quotas && conserved)).

Definition begin_tick (c : Case) (tick : N) (m : Machine) : Machine :=
  let m := schedule c tick m in
  mkMachine (m_meter m) (set_tick tick (m_state m)) (m_scratch m) [] [] [] (m_order m)
    (m_initial_sparks m) (m_cell_count m) (m_beacon_count m) (m_status m).

Definition frame_of (tick : N) (complete : bool) (m : Machine) : FrameView :=
  mkFrameView tick complete (m_events m) (m_signals m) (m_activations m) (m_state m)
    (ledger (m_meter m)).

Section Run.
Context {O : Type} (observe : O -> FrameView -> O).
Context (w : World) (a : Assignment) (c : Case).

(** The remaining ticks, the machine, the observer and the completed count. *)
Fixpoint run_ticks (todo : list N) (m : Machine) (o : O) (completed : N)
    : res RunError (Machine * N) * O :=
  match todo with
  | [] => (Ok (m, completed), o)
  | tick :: todo =>
      match tick_ w a c tick (begin_tick c tick m) with
      | (Ok _, m) =>
          let o := observe o (frame_of tick true m) in
          match checked_add 32 completed 1 with
          | Some completed => run_ticks todo m o completed
          | None => (Err RunArithmetic, o)
          end
      | (Err (FStop _), m) =>
          let o := observe o (frame_of tick false m) in
          (Ok (set_status FuelExhausted m, completed), o)
      | (Err (FInternal error), _) => (Err error, o)
      | (Err (FAction _), _) => (Err RunInvariant, o)
      | (Panic, _) => (Panic, o)
      end
  end.

Definition tick_range : list N := N.of_nat <$> seq 1 (N.to_nat (ticks c)).

Definition set_meter (k : Meter) (m : Machine) : Machine :=
  with_turn (mkTurn (mkCtx k (m_signals m)) (m_state m) (m_scratch m)) m.

Definition load (initial : N) : eff Meter MeterError unit :=
  do! charge Loading (loading_work c) in charge Checking initial.

Definition conclude (ran : res RunError (Machine * N)) : res RunError RunResult :=
  let? '(m, completed) := ran in
  let? outcome := run_outcome w m in
  Ok (mkRunResult (m_status m) completed (m_initial_sparks m) (ledger (m_meter m))
        (mkOutcome (all_beacons_positive outcome) (quotas_met outcome) (conserved outcome)
                   (passed outcome && (completed =? ticks c)))
        (m_state m)).

Definition loading_frame (loaded : bool) (m : Machine) : FrameView :=
  mkFrameView 0 loaded [] [] [] (m_state m) (ledger (m_meter m)).

Definition Machine_run (m : Machine) (o : O) : res RunError RunResult * O :=
  match initial_checking w c m with
  | Err e => (Err e, o)
  | Panic => (Panic, o)
  | Ok initial =>
      match load initial (m_meter m) with
      | (Ok _, k) =>
          let m := set_status Complete (set_meter k m) in
          let o := observe o (loading_frame true m) in
          let '(ran, o) := run_ticks tick_range m o 0 in
          (conclude ran, o)
      | (Err (MeterStop _), k) =>
          let m := set_status FuelExhausted (set_meter k m) in
          (conclude (Ok (m, 0)), observe o (loading_frame false m))
      | (Err MeterArithmetic, _) => (Err RunArithmetic, o)
      | (Panic, _) => (Panic, o)
      end
  end.

Definition run (o : O) : res RunError RunResult * O :=
  match Machine_new w a c with
  | Ok m => Machine_run m o
  | Err e => (Err e, o)
  | Panic => (Panic, o)
  end.
End Run.
