(* ===== verification/Fixture.v ===== *)
(** A small concrete habitat: one courier that carries two sparks from a
    source to a depot and a beacon, with a valve, a link and a scheduled event.
    The theorems of the other files are applied to it. *)
From S2P Require Import Prelude Language Meter World Machine.

Definition courier : CellBody := mkCellBody 7 (mkPoint 1 2) North true [0; 0; 0; 0].
Definition watcher : CellBody := mkCellBody 9 (mkPoint 2 2) North false [5; 0; 0; 0].

Definition fixture_spec : WorldSpec :=
  mkWorldSpec 5 4 [mkPoint 0 0; mkPoint 4 3]
    [mkSource 1 (mkPoint 1 2) [mkSpark 11 true; mkSpark 12 false]]
    [mkDepot 2 (mkPoint 2 1) 3]
    [mkBeacon 3 (mkPoint 3 0) true 100 2 5 10 1; mkBeacon 4 (mkPoint 3 2) false 50 3 1 20 0]
    [mkValve 5 (mkPoint 3 1) 2 4 3 true]
    [courier; watcher]
    [mkLink 6 (EndDepot 2) 9 (mkPort 1) 1 true; mkLink 8 (EndCell 9 (mkPort 0)) 7 (mkPort 2) 2 true].

Definition fixture_world : World :=
  match World_new fixture_spec with Ok w => w | _ => mkWorld fixture_spec [] end.

Definition courier_program : Program :=
  mkProgram [
    mkRule [AtSource true; Carrying false] Pickup None;
    mkRule [Carrying true; AtDepot true] Drop None;
    mkRule [Carrying true; Memory (mkSlot 0) 0; Blocked Forward false] (Move Forward)
           (Some (mkMemoryWrite (mkSlot 0) 1));
    mkRule [Carrying true] (Move Right) None;
    mkRule [AtDepot true] (Route (mkValveId 5) (BitConstant true)) None].

Definition watcher_program : Program :=
  mkProgram [
    mkRule [HasMessage (mkPort 1) true] (TakeMessage (mkPort 1) (mkSlot 3)) None;
    mkRule [Memory (mkSlot 3) 1] (WriteMemory (mkSlot 3) 0) None;
    mkRule [] (Send (mkPort 0) (BitConstant true)) None].

Definition fixture_case_spec : CaseSpec :=
  mkCaseSpec 42 6 2000 200 [mkEvent 2 (ValveEnabled 5 true); mkEvent 3 (ClearMemory 9)] 300.

Definition fixture_case : Case := mkCase fixture_case_spec.

Definition fixture_assignment : Assignment :=
  mkAssignment [courier_program; watcher_program] [7; 9].

Definition unit_observer (_ : unit) (_ : FrameView) : unit := tt.

(** ** The fixture is accepted *)

Lemma fixture_world_new : World_new fixture_spec = Ok fixture_world.
Proof. vm_compute. reflexivity. Qed.

Lemma fixture_case_new : Case_new fixture_world fixture_case_spec = Ok fixture_case.
Proof. vm_compute. reflexivity. Qed.

Lemma fixture_assignment_validate :
  Assignment_validate fixture_world [(7, courier_program); (9, watcher_program)]
  = Ok fixture_assignment.
Proof. vm_compute. reflexivity. Qed.

Lemma courier_program_wf : program_wf courier_program.
Proof. split; [by vm_compute|by vm_compute|]. repeat constructor; try by vm_compute. Qed.

Lemma watcher_program_wf : program_wf watcher_program.
Proof. split; [by vm_compute|by vm_compute|]. repeat constructor; try by vm_compute. Qed.
