(* ===== verification/MachineInv.v ===== *)
(** The state invariant of the machine: entities stay aligned with the world,
    sparks are conserved, beacon energy balances, cells stay on distinct
    usable squares.  Helper lemmas on list updates and on the execution
    context; the preservation proofs are in [Actions] and [Ticks]. *)
From S2P Require Import Prelude Language Meter World WorldFacts Machine.

(** ** Typing of a world specification: the ranges the Rust field types give *)

Definition endpoint_typed (e : Endpoint) : Prop :=
  match e with
  | EndCell id port => id < 2 ^ 16 /\ port_wf port
  | EndDepot id => id < 2 ^ 16
  end.

Record body_typed (c : CellBody) : Prop := {
  bt_id : cb_id c < 2 ^ 16;
  bt_memory : length (cb_memory c) = 4%nat;
  bt_bytes : Forall (fun b => b < 2 ^ 8) (cb_memory c);
}.

Definition link_typed (l : Link) : Prop :=
  lnk_id l < 2 ^ 16 /\ endpoint_typed (lnk_from l) /\ lnk_to_cell l < 2 ^ 16 /\
  port_wf (lnk_to_port l).

Definition source_typed (s : Source) : Prop :=
  src_id s < 2 ^ 16 /\ Forall (fun sp => spark_id sp < 2 ^ 32) (src_sparks s).

Definition valve_typed (v : Valve) : Prop :=
  val_id v < 2 ^ 16 /\ val_depot v < 2 ^ 16 /\ val_beacon_zero v < 2 ^ 16 /\
  val_beacon_one v < 2 ^ 16.

Record ids_typed (s : WorldSpec) : Prop := {
  it_sources : Forall source_typed (ws_sources s);
  it_depots : Forall (fun d => dep_id d < 2 ^ 16) (ws_depots s);
  it_beacons : Forall (fun b => bea_id b < 2 ^ 16) (ws_beacons s);
  it_valves : Forall valve_typed (ws_valves s);
  it_cells : Forall body_typed (ws_cells s);
  it_links : Forall link_typed (ws_links s);
}.

(** ** The invariant *)

Definition cargo_list (c : CellState) : list Spark := option_list (cel_cargo c).

(** Every spark of a state, wherever it is. *)
Definition sparks (s : State) : list Spark :=
  (st_sources s ≫= ss_sparks) ++ (st_depots s ≫= ds_sparks)
  ++ (st_cells s ≫= cargo_list) ++ (del_spark <$> st_delivered s).

Definition endpoint_known (w : World) (e : Endpoint) : Prop :=
  match e with
  | EndCell id _ => id ∈ cb_id <$> cells w
  | EndDepot id => id ∈ dep_id <$> depots w
  end.

Record signal_ok (w : World) (g : Signal) : Prop := {
  sg_link : sig_link g ∈ lnk_id <$> links w;
  sg_from : endpoint_known w (sig_from g);
  sg_to : sig_to_cell g ∈ cb_id <$> cells w;
  sg_port : port_wf (sig_to_port g);
}.

Record cell_ok (b : CellBody) (c : CellState) : Prop := {
  ck_id : cel_id c = cb_id b;
  ck_memory : length (cel_memory c) = 4%nat;
  ck_bytes : Forall (fun b => b < 2 ^ 8) (cel_memory c);
  ck_evidence : length (cel_evidence c) = 4%nat;
  ck_inbox : length (cel_inbox c) = 4%nat;
}.

Definition depot_fits (d : Depot) (e : DepotState) : Prop :=
  ds_id e = dep_id d /\ len (ds_sparks e) <= dep_capacity d.

(** Charge is never created: what a beacon holds plus what it drained is what
    it started with plus its credits. *)
Definition beacon_balanced (b : Beacon) (e : BeaconState) : Prop :=
  bs_id e = bea_id b /\
  bs_charge e + bs_drained e = bea_initial_charge b + bea_spark_charge b * bs_delivered e.

Definition deliveries (s : State) : N := foldr N.add 0 (bs_delivered <$> st_beacons s).

Definition inbox_ok (w : World) (c : CellState) : Prop :=
  Forall (fun o => forall g, o = Some g -> signal_ok w g) (cel_inbox c).

(** Everything but conservation. *)
Record state_shape (w : World) (s : State) : Prop := {
  so_tick : st_tick s <= MAX_TICKS;
  so_cells : Forall2 cell_ok (cells w) (st_cells s);
  so_inbox : Forall (inbox_ok w) (st_cells s);
  so_distinct : NoDup (cel_position <$> st_cells s);
  so_free : Forall (free (spec w)) (cel_position <$> st_cells s);
  so_sources : ss_id <$> st_sources s = src_id <$> sources w;
  so_depots : Forall2 depot_fits (depots w) (st_depots s);
  so_beacons : Forall2 beacon_balanced (beacons w) (st_beacons s);
  so_valves : es_id <$> st_valves s = val_id <$> valves w;
  so_links : es_id <$> st_links s = lnk_id <$> links w;
  so_pending : Forall (signal_ok w) (st_pending s);
  so_pending_bound : len (st_pending s) <= MAX_PENDING;
  so_deliveries : deliveries s = len (st_delivered s);
}.

Record state_ok (w : World) (s : State) : Prop := {
  so_shape :> state_shape w s;
  so_conserved : sparks s ≡ₚ all_sparks (spec w);
}.

(** ** Lists: updating one entry *)

Lemma list_alter_split {A} (f : A -> A) (l : list A) i x :
  l !! i = Some x ->
  exists l1 l2, l = l1 ++ x :: l2 /\ length l1 = i /\ alter f i l = l1 ++ f x :: l2.
Proof.
  intros H. exists (take i l), (drop (S i) l).
  pose proof (lookup_lt_Some _ _ _ H) as Hl.
  split; [by rewrite take_drop_middle|]. split; [rewrite length_take; lia|].
  rewrite <- (take_drop_middle l i x) at 1 by done.
  rewrite alter_app_r_alt by (rewrite length_take; lia).
  by rewrite length_take, Nat.min_l, Nat.sub_diag by lia.
Qed.

Lemma insert_alter {A} (l : list A) i y : <[i := y]> l = alter (fun _ => y) i l.
Proof. revert i. induction l as [|x l IH]; intros [|i]; csimpl; [done..|]. by rewrite IH. Qed.

(** The sparks of one entry against those of the others. *)
Lemma bind_alter_perm {A B} (g : A -> list B) (l : list A) i x :
  l !! i = Some x ->
  exists rest, (l ≫= g) ≡ₚ g x ++ rest /\ forall f, (alter f i l ≫= g) ≡ₚ g (f x) ++ rest.
Proof.
  intros H. destruct (list_alter_split id l i x H) as (l1 & l2 & -> & Hlen & _).
  exists ((l1 ≫= g) ++ (l2 ≫= g)). split.
  - rewrite bind_app. csimpl. rewrite !app_assoc. f_equiv. apply Permutation_app_comm.
  - intros f. rewrite alter_app_r_alt by lia. rewrite Hlen, Nat.sub_diag. csimpl.
    rewrite bind_app. csimpl. rewrite !app_assoc. f_equiv. apply Permutation_app_comm.
Qed.

Lemma bind_alter_same {A B} (g : A -> list B) (l : list A) i f :
  (forall x, l !! i = Some x -> g (f x) = g x) -> (alter f i l ≫= g) = (l ≫= g).
Proof.
  revert i. induction l as [|x l IH]; intros [|i] H; csimpl; [done..| |].
  - by rewrite H.
  - rewrite IH; [done|]. intros y Hy. by apply H.
Qed.

Lemma fmap_alter_same {A B} (g : A -> B) (l : list A) i f :
  (forall x, l !! i = Some x -> g (f x) = g x) -> g <$> alter f i l = g <$> l.
Proof.
  revert i. induction l as [|x l IH]; intros [|i] H; csimpl; [done..| |].
  - by rewrite H.
  - rewrite IH; [done|]. intros y Hy. by apply H.
Qed.

Lemma Forall2_alter_r' {A B} (P : A -> B -> Prop) la lb i f :
  Forall2 P la lb ->
  (forall a b, la !! i = Some a -> lb !! i = Some b -> P a b -> P a (f b)) ->
  Forall2 P la (alter f i lb).
Proof.
  intros H. revert i. induction H as [|a b la lb Hab H IH]; intros [|i] Hf; csimpl;
    constructor; auto.
Qed.

Lemma Forall_alter' {A} (P : A -> Prop) l i f :
  Forall P l -> (forall x, l !! i = Some x -> P x -> P (f x)) -> Forall P (alter f i l).
Proof.
  intros H. revert i. induction H as [|x l Hx H IH]; intros [|i] Hf; csimpl;
    constructor; auto.
Qed.

Lemma sum_alter (g : N -> N) (l : list N) i x :
  l !! i = Some x -> foldr N.add 0 (alter g i l) + x = foldr N.add 0 l + g x.
Proof.
  revert i. induction l as [|y l IH]; intros [|i] H; csimpl; try done.
  - injection H as ->. lia.
  - specialize (IH i H). simpl in IH. lia.
Qed.

Lemma elem_le_sum (l : list N) x : x ∈ l -> x <= foldr N.add 0 l.
Proof. induction 1; simpl; lia. Qed.

(** Replacing one element of a duplicate-free list by a fresh one. *)
Lemma NoDup_alter {A} `{EqDecision A} (l : list A) i y :
  NoDup l -> (forall j x, l !! j = Some x -> j <> i -> x <> y) -> NoDup (alter (fun _ => y) i l).
Proof.
  intros Hn Hy. apply NoDup_alt. intros j k z Hj Hk.
  destruct (decide (i = j)) as [<-|Hij], (decide (i = k)) as [<-|Hik]; [done| | |].
  - rewrite list_lookup_alter_ne in Hk by done. rewrite list_lookup_alter_eq in Hj.
    destruct (l !! i); [|done]. injection Hj as <-. exfalso. by apply (Hy k y Hk).
  - rewrite list_lookup_alter_ne in Hj by done. rewrite list_lookup_alter_eq in Hk.
    destruct (l !! i); [|done]. injection Hk as <-. exfalso. by apply (Hy j y Hj).
  - rewrite list_lookup_alter_ne in Hj, Hk by done. by eapply NoDup_lookup.
Qed.

Lemma fmap_alter {A B} (h : A -> B) (f : A -> A) (g : B -> B) (l : list A) i :
  (forall x, h (f x) = g (h x)) -> h <$> alter f i l = alter g i (h <$> l).
Proof.
  intros Hh. revert i. induction l as [|x l IH]; intros [|i]; csimpl; [done..| |].
  - by rewrite Hh.
  - by rewrite IH.
Qed.

(** ** Searching aligned lists *)

Lemma position_Some {A} (f : A -> bool) l i :
  position f l = Some i -> exists x, l !! i = Some x /\ f x = true.
Proof.
  revert i. induction l as [|x l IH]; intros i; simpl; [done|].
  destruct (f x) eqn:E.
  - intros [= <-]. by exists x.
  - destruct (position f l) as [j|]; simpl; [|done]. intros [= <-]. by apply IH.
Qed.

Lemma position_key {A} (key : A -> N) l id :
  id ∈ key <$> l ->
  exists i x, position (fun y => key y =? id) l = Some i /\ l !! i = Some x /\ key x = id.
Proof.
  induction l as [|y l IH]; csimpl; [by intros ?%elem_of_nil|].
  intros Hin. destruct (N.eqb_spec (key y) id) as [E|E].
  - by exists O, y.
  - apply elem_of_cons in Hin as [->|Hin]; [done|].
    destruct (IH Hin) as (i & x & -> & ? & ?). by exists (S i), x.
Qed.

Lemma find_key {A} (key : A -> N) (l : list A) id :
  id ∈ key <$> l -> exists x, List.find (fun y => key y =? id) l = Some x /\ x ∈ l /\ key x = id.
Proof.
  intros H. destruct (List.find (fun y => key y =? id) l) as [x|] eqn:E.
  - exists x. apply find_some in E as [? E]. apply N.eqb_eq in E.
    by rewrite list_elem_of_In.
  - apply list_elem_of_fmap in H as (x & -> & Hx). apply list_elem_of_In in Hx.
    pose proof (find_none _ _ E x Hx) as Hf. simpl in Hf. by rewrite N.eqb_refl in Hf.
Qed.

Lemma Forall2_ids {A B} (ka : A -> N) (kb : B -> N) (P : A -> B -> Prop) la lb :
  Forall2 P la lb -> (forall a b, P a b -> kb b = ka a) -> kb <$> lb = ka <$> la.
Proof. intros H HP. induction H; csimpl; [done|]. f_equal; auto. Qed.

Lemma lookup_four {A} (l : list A) i :
  length l = 4%nat -> (i < 4)%nat -> exists x, l !! i = Some x.
Proof. intros Hl Hi. apply lookup_lt_is_Some_2. lia. Qed.

(** ** Permutations by counting *)

#[global] Instance Spark_dec : forall a b : Spark, Decision (a = b) := _.

Definition occ (x : Spark) (l : list Spark) : nat := count_occ Spark_dec l x.

Lemma occ_app x l k : occ x (l ++ k) = (occ x l + occ x k)%nat.
Proof. apply count_occ_app. Qed.

Definition occ1 (x y : Spark) : nat := if Spark_dec y x then 1 else 0.

Lemma occ_nil x : occ x [] = O.
Proof. done. Qed.

Lemma occ_cons x y l : occ x (y :: l) = (occ1 x y + occ x l)%nat.
Proof. unfold occ, occ1. simpl. by destruct (Spark_dec y x). Qed.

Lemma occ_perm l k : l ≡ₚ k <-> forall x, occ x l = occ x k.
Proof. unfold occ. apply Permutation_count_occ. Qed.

Create HintDb spark_occ.
#[export] Hint Rewrite occ_app occ_cons occ_nil : spark_occ.

(** Solve a permutation of sparks from permutations among the hypotheses. *)
Ltac spark_perm :=
  rewrite ?occ_perm in *;
  let x := fresh "x" in
  intros x;
  repeat match goal with H : forall y, occ y _ = occ y _ |- _ => specialize (H x) end;
  autorewrite with spark_occ in *; lia.

(** ** State updates *)

Section Updates.
Context (w : World) (s : State) (H : state_shape w s).

(** A cell update that keeps the cell's square. *)
Lemma shape_upd_cell i f :
  (forall b c, cells w !! i = Some b -> st_cells s !! i = Some c -> cell_ok b c ->
     cell_ok b (f c)) ->
  (forall c, st_cells s !! i = Some c -> inbox_ok w c -> inbox_ok w (f c)) ->
  (forall c, st_cells s !! i = Some c -> cel_position (f c) = cel_position c) ->
  state_shape w (upd_cell i f s).
Proof.
  intros H1 H2 H3. destruct H. split; simpl; try done.
  - by apply Forall2_alter_r'.
  - by apply Forall_alter'.
  - by rewrite fmap_alter_same.
  - by rewrite fmap_alter_same.
Qed.

(** A cell moves to a free, unoccupied square. *)
Lemma shape_move i p :
  free (spec w) p ->
  (forall j c, st_cells s !! j = Some c -> j <> i -> cel_position c <> p) ->
  state_shape w (upd_cell i (set_position p) s).
Proof.
  intros Hp Hd. destruct H. split; simpl; try done.
  - apply Forall2_alter_r'; [done|]. intros ? ? _ _ []. by split.
  - by apply Forall_alter'.
  - rewrite (fmap_alter _ _ (fun _ => p)) by done.
    apply NoDup_alter; [done|]. intros j x Hj Hij.
    rewrite list_lookup_fmap in Hj. destruct (st_cells s !! j) eqn:E; [|done].
    injection Hj as <-. by eapply Hd.
  - rewrite (fmap_alter _ _ (fun _ => p)) by done.
    by apply Forall_alter'.
Qed.

Lemma sparks_upd_cell i f c :
  st_cells s !! i = Some c ->
  sparks (upd_cell i f s) ++ cargo_list c ≡ₚ sparks s ++ cargo_list (f c).
Proof.
  intros Hc. destruct (bind_alter_perm cargo_list _ i c Hc) as (rest & E & Ef).
  specialize (Ef f). unfold sparks. simpl. spark_perm.
Qed.

Lemma shape_source_pop i : state_shape w (source_pop i s).
Proof. destruct H. split; simpl; try done. by rewrite fmap_alter_same. Qed.

Lemma sparks_source_pop i e sp rest :
  st_sources s !! i = Some e -> ss_sparks e = sp :: rest ->
  sp :: sparks (source_pop i s) ≡ₚ sparks s.
Proof.
  intros He Hs. destruct (bind_alter_perm ss_sparks _ i e He) as (others & E & Ef).
  specialize (Ef (fun e => mkSourceState (ss_id e) (tail (ss_sparks e)))).
  simpl in Ef. rewrite Hs in *. simpl in Ef. unfold sparks. simpl. spark_perm.
Qed.

Lemma shape_depot_pop i : state_shape w (depot_pop i s).
Proof.
  destruct H. split; simpl; try done. apply Forall2_alter_r'; [done|].
  intros d e _ _ [Hi Hl]. split; [done|]. simpl. unfold len in *.
  destruct (ds_sparks e); simpl in *; lia.
Qed.

Lemma sparks_depot_pop i e sp :
  st_depots s !! i = Some e -> head (ds_sparks e) = Some sp ->
  sp :: sparks (depot_pop i s) ≡ₚ sparks s.
Proof.
  intros He Hs. destruct (bind_alter_perm ds_sparks _ i e He) as (others & E & Ef).
  specialize (Ef (fun e => mkDepotState (ds_id e) (tail (ds_sparks e)))). simpl in Ef.
  destruct (ds_sparks e) as [|sp' t]; [done|]. injection Hs as ->.
  unfold sparks. simpl in *. spark_perm.
Qed.

Lemma shape_depot_push i sp d e :
  depots w !! i = Some d -> st_depots s !! i = Some e ->
  len (ds_sparks e) < dep_capacity d ->
  state_shape w (depot_push i sp s).
Proof.
  intros Hd He Hl. destruct H. split; simpl; try done. apply Forall2_alter_r'; [done|].
  intros d' e' Hd' He' [Hi _]. rewrite Hd in Hd'. rewrite He in He'.
  injection Hd' as <-. injection He' as <-. split; [done|]. simpl. unfold len in *.
  rewrite length_app. simpl. lia.
Qed.

Lemma sparks_depot_push i sp e :
  st_depots s !! i = Some e -> sparks (depot_push i sp s) ≡ₚ sp :: sparks s.
Proof.
  intros He. destruct (bind_alter_perm ds_sparks _ i e He) as (others & E & Ef).
  specialize (Ef (fun e => mkDepotState (ds_id e) (ds_sparks e ++ [sp]))).
  simpl in Ef. unfold sparks. simpl. spark_perm.
Qed.

(** A beacon takes one spark: charge and quota counter rise together with
    the delivery log. *)
Definition credited (i : nat) (b : Beacon) (e : BeaconState) (sp : Spark) : State :=
  push_delivery sp (bea_id b)
    (upd_beacon i (mkBeaconState (bs_id e) (bs_charge e + bea_spark_charge b)
                     (bs_delivered e + 1) (bs_drained e) (bs_exhausted e)) s).

Lemma shape_credited i b e sp :
  beacons w !! i = Some b -> st_beacons s !! i = Some e ->
  state_shape w (credited i b e sp).
Proof.
  intros Hb He. destruct H. split; simpl; try done.
  - rewrite insert_alter. apply Forall2_alter_r'; [done|].
    intros b' e' Hb' He' [Hi Hbal]. rewrite Hb in Hb'. rewrite He in He'.
    injection Hb' as <-. injection He' as <-. split; [done|]. simpl. lia.
  - unfold deliveries in *. simpl. rewrite insert_alter.
    rewrite (fmap_alter _ _ (fun _ => bs_delivered e + 1)) by done.
    assert (Hl : (bs_delivered <$> st_beacons s) !! i = Some (bs_delivered e))
      by by rewrite list_lookup_fmap, He.
    pose proof (sum_alter (fun _ => bs_delivered e + 1) _ i _ Hl).
    unfold len in *. rewrite length_app. simpl. lia.
Qed.

Lemma sparks_credited i b e sp : sparks (credited i b e sp) ≡ₚ sp :: sparks s.
Proof. unfold sparks. simpl. rewrite fmap_app. simpl. spark_perm. Qed.
End Updates.

Lemma free_spec w p :
  world_ok w -> free (spec w) p <-> px p < width w /\ py p < height w /\ is_wall w p = false.
Proof.
  intros Hw. unfold free, grid, width, height. pose proof (is_wall_spec w p Hw) as E.
  unfold walls in E. rewrite <- E. destruct (is_wall w p); naive_solver.
Qed.
