(* ===== verification/Actions.v ===== *)
(** Actions keep the state invariant: no action panics or fails internally,
    every charge stays inside the fuel and the window, an action failure leaves
    a state that satisfies the invariant. *)
From S2P Require Import Prelude Language Meter World WorldFacts Machine MachineInv.

(** ** Consequences of the invariant *)

Lemma cells_ids w s : state_ok w s -> cel_id <$> st_cells s = cb_id <$> cells w.
Proof. intros H. eapply Forall2_ids; [apply H|]. by intros ? ? []. Qed.

Lemma cells_length w s : state_ok w s -> length (st_cells s) = length (cells w).
Proof. intros H. symmetry. eapply Forall2_length, H. Qed.

Lemma depots_ids w s : state_ok w s -> ds_id <$> st_depots s = dep_id <$> depots w.
Proof. intros H. eapply Forall2_ids; [apply H|]. by intros ? ? []. Qed.

Lemma fmap_eq_length {A B C} (f : A -> C) (g : B -> C) la lb :
  f <$> la = g <$> lb -> length la = length lb.
Proof. intros H. by rewrite <- (length_fmap f la), H, length_fmap. Qed.

Lemma cell_lookup w s i :
  state_ok w s -> (i < length (cells w))%nat -> exists c, st_cells s !! i = Some c.
Proof. intros H Hi. apply lookup_lt_is_Some_2. by rewrite (cells_length w). Qed.

Lemma cell_lookup_ok w s i c :
  state_ok w s -> st_cells s !! i = Some c -> exists b, cells w !! i = Some b /\ cell_ok b c.
Proof.
  intros H Hc. destruct (Forall2_lookup_r _ _ _ _ _ (so_cells _ _ H) Hc) as (b & ? & ?). eauto.
Qed.

Lemma sparks_length w s : state_ok w s -> length (sparks s) = length (all_sparks (spec w)).
Proof. intros H. by rewrite (so_conserved _ _ H). Qed.

(** No more deliveries than initial sparks. *)
Lemma delivered_bound w s : world_ok w -> state_ok w s -> len (st_delivered s) <= 128.
Proof.
  intros [Hv _] H. pose proof (sparks_length w s H) as Hl. destruct (v_sparks _ Hv) as [_ Hm].
  unfold sparks, MAX_INITIAL_SPARKS, len in *. rewrite !length_app, length_fmap in Hl. lia.
Qed.

Lemma beacon_lookup w s i b :
  state_ok w s -> beacons w !! i = Some b ->
  exists e, st_beacons s !! i = Some e /\ beacon_balanced b e.
Proof. intros H Hb. by apply (Forall2_lookup_l _ _ _ _ _ (so_beacons _ _ H)). Qed.

Lemma delivered_each w s i e :
  world_ok w -> state_ok w s -> st_beacons s !! i = Some e -> bs_delivered e <= 128.
Proof.
  intros Hw H He. pose proof (delivered_bound w s Hw H). rewrite <- (so_deliveries _ _ H) in *.
  etrans; [|done]. unfold deliveries. apply elem_le_sum. apply list_elem_of_fmap.
  exists e. split; [done|]. by eapply list_elem_of_lookup_2.
Qed.

Lemma beacon_params w i b :
  world_ok w -> beacons w !! i = Some b ->
  1 <= bea_initial_charge b <= 10000 /\ 1 <= bea_drain_every b /\ 1 <= bea_spark_charge b <= 64.
Proof.
  intros [Hv _] Hb. pose proof (v_beacons _ Hv) as Hf. rewrite Forall_lookup in Hf.
  destruct (Hf i b Hb). lia.
Qed.

(** The energy of a beacon never leaves a [u32]. *)
Lemma beacon_energy_bound w s i b e :
  world_ok w -> state_ok w s -> beacons w !! i = Some b -> st_beacons s !! i = Some e ->
  bs_charge e + bs_drained e <= 18192.
Proof.
  intros Hw H Hb He. pose proof (delivered_each w s i e Hw H He).
  destruct (beacon_params w i b Hw Hb) as (? & _ & ?).
  destruct (beacon_lookup w s i b H Hb) as (e' & He' & _ & Hbal).
  rewrite He in He'. injection He' as <-. nia.
Qed.

Lemma link_params w l :
  world_ok w -> l ∈ links w ->
  lnk_delay l <= 16 /\ lnk_to_cell l ∈ cb_id <$> cells w /\ endpoint_known w (lnk_from l).
Proof.
  intros [Hv _] Hl. pose proof (v_links _ Hv) as Hf. rewrite Forall_forall in Hf.
  destruct (Hf l Hl) as ([_ Hd] & t & p & Ht & <- & Ho & _). split; [done|].
  split; [by apply list_elem_of_fmap_2|]. unfold origin_at in Ho. unfold endpoint_known.
  destruct (lnk_from l); destruct Ho as (x & ? & <- & _); by apply list_elem_of_fmap_2.
Qed.

Lemma origin_position_ok w s e :
  state_ok w s -> endpoint_known w e -> exists p, origin_position w s e = Ok p.
Proof.
  intros H He. destruct e as [id port|id]; simpl in *.
  - rewrite <- (cells_ids w s H) in He. destruct (find_key cel_id _ _ He) as (c & E & _).
    unfold find_cell_state. rewrite E. by eexists.
  - destruct (find_key dep_id _ _ He) as (d & E & _). unfold find_depot. rewrite E. by eexists.
Qed.

(** ** The execution context *)

Definition work (k : Ctx) : N := led_sum (ledger (c_meter k)).

(** [F]: the run's fuel; [win]: the open activation window; [base]: the signal
    log this code may only extend; [W0]: a lower bound of the work done. *)
Record ctx_ok (F : N) (win : option (N * N)) (base : list SignalEvent) (W0 : N) (k : Ctx)
    : Prop := {
  kx_meter : meter_inv (c_meter k);
  kx_fuel : fuel (c_meter k) = F;
  kx_window : activation (c_meter k) = win;
  kx_base : base `prefix_of` c_signals k;
  kx_from : W0 <= work k;
}.

Section Actions.
Context (w : World) (Hw : world_ok w) (Hty : ids_typed (spec w)).
Context (F : N) (HF : F <= MAX_FUEL) (win : option (N * N)).
Context (base : list SignalEvent) (W0 : N).

Notation ctx_ok := (ctx_ok F win base W0).

Definition env_ok (e : Env) : Prop :=
  ctx_ok (e_ctx e) /\ state_ok w (e_state e) /\ st_next_signal (e_state e) <= 1 + work (e_ctx e).

(** A stop or a failure leaves a legal state, possibly in the middle of an
    action; internal errors do not happen. *)
Definition fault_post (f : Fault) (e : Env) : Prop :=
  match f with
  | FInternal _ => False
  | _ => env_ok e
  end.

Lemma work_le k : ctx_ok k -> work k <= F.
Proof. intros [Hm <- _ _ _]. apply Hm. Qed.

Lemma work_lt k : ctx_ok k -> work k < 2 ^ 32.
Proof. intros H. pose proof (work_le k H). unfold MAX_FUEL in HF. lia. Qed.

Lemma ctx_ok_units k c n :
  ctx_ok k -> meter_inv (add_units c n (c_meter k)) ->
  ctx_ok (mkCtx (add_units c n (c_meter k)) (c_signals k)) /\
  work (mkCtx (add_units c n (c_meter k)) (c_signals k)) = work k + n.
Proof.
  intros [Hm Hf Hwn Hb H0] HI. unfold work in *. cbn [c_meter]. rewrite add_units_sum.
  split; [|done]. split; cbn [c_meter c_signals]; try done.
  unfold work. cbn [c_meter]. rewrite add_units_sum. lia.
Qed.

Lemma ctx_ok_push k ev :
  ctx_ok k -> ctx_ok (mkCtx (c_meter k) (c_signals k ++ [ev])).
Proof. intros []. split; try done. by apply prefix_app_r. Qed.

Lemma wp_ctx_charge c n (Q : unit -> Ctx -> Prop) (R : Fault -> Ctx -> Prop) k :
  ctx_ok k ->
  (forall k', ctx_ok k' -> work k' = work k + n -> c_signals k' = c_signals k -> Q tt k') ->
  (forall stop k', ctx_ok k' -> work k <= work k' -> c_signals k' = c_signals k ->
                   R (FStop stop) k') ->
  wp (ctx_charge c n) Q R k.
Proof.
  intros Hk HQ HR. unfold ctx_charge. wp_steps. apply wp_charge; [apply Hk| |].
  - intros HI. destruct (ctx_ok_units k c n Hk HI). by apply HQ.
  - intros stop m _ HI. destruct (ctx_ok_units k c m Hk HI). simpl. apply HR; [done|lia|done].
Qed.

Lemma wp_env_charge c n (Q : unit -> Env -> Prop) (R : Fault -> Env -> Prop) k s :
  ctx_ok k ->
  (forall k', ctx_ok k' -> work k' = work k + n -> c_signals k' = c_signals k ->
              Q tt (mkEnv k' s)) ->
  (forall stop k', ctx_ok k' -> work k <= work k' -> R (FStop stop) (mkEnv k' s)) ->
  wp (env_charge c n) Q R (mkEnv k s).
Proof.
  intros Hk HQ HR. unfold env_charge, with_ctx. wp_steps. by apply wp_ctx_charge; auto.
Qed.

(** ** Emission *)

Lemma state_ok_next s n : state_ok w s -> state_ok w (set_next_signal n s).
Proof. intros [[] ?]. by repeat split. Qed.

Lemma state_ok_push_pending s g :
  state_ok w s -> signal_ok w g -> len (st_pending s) < MAX_PENDING ->
  state_ok w (set_pending (st_pending s ++ [g]) s).
Proof.
  intros [[] ?] Hg Hl. split; [split; try done|done]; simpl.
  - by apply Forall_app, conj, Forall_singleton.
  - unfold len in *. rewrite length_app. simpl. lia.
Qed.

Lemma emitted_signal_ok l n bit t t' evidence :
  l ∈ links w ->
  signal_ok w (mkSignal n (lnk_id l) (lnk_from l) (lnk_to_cell l) (lnk_to_port l) bit t t' evidence).
Proof.
  intros Hin. destruct (link_params w l Hw Hin) as (_ & Hto & Hfrom).
  pose proof (it_links _ Hty) as Hf. rewrite Forall_forall in Hf.
  destruct (Hf l Hin) as (_ & _ & _ & ?).
  split; simpl; try done. by apply list_elem_of_fmap_2.
Qed.

Lemma emit_link_ok endpoint bit evidence accepted i l e (R : Fault -> Env -> Prop) :
  links w !! i = Some l -> lnk_from l = endpoint ->
  env_ok e -> accepted <= work (e_ctx e) ->
  (forall stop e', ctx_ok (e_ctx e') -> env_ok e' -> R (FStop stop) e') ->
  wp (emit_link w endpoint bit evidence accepted (i, l))
     (fun n e' => env_ok e' /\ n <= work (e_ctx e') /\
                  st_cells (e_state e') = st_cells (e_state e)) R e.
Proof.
  intros Hl <- (Hk & Hs & Hn) Ha HR. destruct e as [k s]. simpl in *.
  assert (Hin : l ∈ links w) by by eapply list_elem_of_lookup_2.
  destruct (link_params w l Hw Hin) as (Hd & Hto & Hfrom).
  unfold emit_link. wp_steps. apply wp_env_charge; [done| |].
  2: { intros. apply HR; [done|]. split; [done|]. split; [done|simpl; lia]. }
  intros k1 Hk1 E1 _. wp_steps. apply wp_env_charge; [done| |].
  2: { intros. apply HR; [done|]. split; [done|]. split; [done|simpl; lia]. }
  intros k2 Hk2 E2 _. unfold state_, internal, checked_add_fault, update, push_signal.
  wp_steps. cbn [e_state e_ctx].
  rewrite <- (cells_ids w s Hs) in Hto. destruct (find_key cel_id _ _ Hto) as (c & Ec & _).
  unfold find_cell_state. rewrite Ec. simpl. wp_steps.
  pose proof (so_tick _ _ Hs). unfold MAX_TICKS in *. pose proof (work_lt k2 Hk2).
  rewrite checked_add_ok by lia. simpl. wp_steps. rewrite checked_add_ok by lia. simpl. wp_steps.
  cbn [e_state e_ctx]. cbn [st_links set_next_signal].
  assert (is_Some (st_links s !! i)) as [entry Ee].
  { apply lookup_lt_is_Some_2. rewrite (fmap_eq_length _ _ _ _ (so_links _ _ Hs)).
    by eapply lookup_lt_Some. }
  unfold index. rewrite Ee.
  set (g := mkSignal _ _ _ _ _ _ _ _ _). set (s1 := set_next_signal _ s).
  assert (Hs1 : state_ok w s1) by by apply state_ok_next.
  assert (Hdone : forall n o, n <= work k2 ->
    env_ok (mkEnv (mkCtx (c_meter k2) (c_signals k2 ++ [mkSignalEvent g o])) s1) /\
    n <= work k2 /\ st_cells s1 = st_cells s).
  { intros n o Hn'. split; [|done]. split; [by apply ctx_ok_push|]. split; [done|].
    unfold work in *. simpl. lia. }
  destruct (negb (es_enabled entry)); [wp_steps; apply Hdone; lia|].
  destruct (origin_position_ok w s1 (lnk_from l) Hs1 Hfrom) as [o Eo].
  wp_steps. rewrite Eo. simpl. destruct (negb _); [wp_steps; apply Hdone; lia|].
  destruct (N.leb_spec MAX_PENDING (len (st_pending s))) as [|Hlt]; [wp_steps; apply Hdone; lia|].
  wp_steps. rewrite checked_add_ok by lia. simpl. wp_steps. cbn [e_state e_ctx].
  split; [|unfold work in *; cbn [c_meter]; split; [lia|done]].
  split; [by apply ctx_ok_push|]. split; [|unfold work in *; cbn [c_meter]; simpl; lia].
  apply (state_ok_push_pending s1); [done| |done]. by apply emitted_signal_ok.
Qed.

Lemma emit_ok endpoint bit evidence e (R : Fault -> Env -> Prop) :
  env_ok e ->
  (forall stop e', ctx_ok (e_ctx e') -> env_ok e' -> R (FStop stop) e') ->
  wp (emit w endpoint bit evidence)
     (fun _ e' => env_ok e' /\ st_cells (e_state e') = st_cells (e_state e)) R e.
Proof.
  intros He HR. unfold emit.
  eapply wp_mono; [apply (wp_fold _ (fun n e' => env_ok e' /\ n <= work (e_ctx e') /\
    st_cells (e_state e') = st_cells (e_state e)) R)| |].
  - split; [done|]. split; [apply N.le_0_l|done].
  - intros n [i l] e1 Hin (He1 & Hn & Hc).
    apply list_elem_of_filter in Hin as [Hf Hin]. simpl in Hf.
    apply elem_of_lookup_imap in Hin as (j & l' & [= <- <-] & Hl).
    eapply wp_mono; [by apply emit_link_ok|simpl; rewrite <- Hc; done|done].
  - intros n e' (? & _ & ?). done.
  - done.
Qed.

(** ** Shared steps *)

Lemma env_ok_step k k' s s' :
  ctx_ok k' -> work k <= work k' -> st_next_signal s <= 1 + work k ->
  st_next_signal s' = st_next_signal s -> state_ok w s' -> env_ok (mkEnv k' s').
Proof. intros ? ? ? E ?. split; [done|]. split; [done|]. simpl. rewrite E. lia. Qed.

Lemma env_ok_charge k k' n s :
  env_ok (mkEnv k s) -> ctx_ok k' -> work k' = work k + n -> env_ok (mkEnv k' s).
Proof. intros (_ & ? & ?) ? E. eapply env_ok_step; try done. simpl in *. lia. Qed.

(** The charge at the head of a step. *)
Lemma wp_charge_env c n (Q : unit -> Env -> Prop) k s :
  env_ok (mkEnv k s) ->
  (forall k', env_ok (mkEnv k' s) -> Q tt (mkEnv k' s)) ->
  wp (env_charge c n) Q fault_post (mkEnv k s).
Proof.
  intros He HQ. pose proof He as (Hk & Hs & Hn). apply wp_env_charge; [done| |].
  - intros k' Hk' E _. apply HQ. by eapply env_ok_charge.
  - intros stop k' Hk' Hle. by apply (env_ok_step k k' s s).
Qed.

Lemma wp_the_cell i (Q : CellState -> Env -> Prop) R k s c :
  st_cells s !! i = Some c -> Q c (mkEnv k s) -> wp (the_cell i) Q R (mkEnv k s).
Proof.
  intros Hc HQ. unfold the_cell, state_. wp_steps. unfold index. simpl. by rewrite Hc.
Qed.

Lemma wp_update f (Q : unit -> Env -> Prop) R k s :
  Q tt (mkEnv k (f s)) -> wp (update f) Q R (mkEnv k s).
Proof. done. Qed.

Lemma wp_state (Q : State -> Env -> Prop) R k s :
  Q s (mkEnv k s) -> wp state_ Q R (mkEnv k s).
Proof. done. Qed.

(** A cell update that keeps square and cargo. *)
Lemma state_ok_upd_cell s i f :
  state_ok w s ->
  (forall b c, cells w !! i = Some b -> st_cells s !! i = Some c -> cell_ok b c ->
     cell_ok b (f c)) ->
  (forall c, st_cells s !! i = Some c -> inbox_ok w c -> inbox_ok w (f c)) ->
  (forall c, st_cells s !! i = Some c -> cel_position (f c) = cel_position c) ->
  (forall c, st_cells s !! i = Some c -> cel_cargo (f c) = cel_cargo c) ->
  state_ok w (upd_cell i f s).
Proof.
  intros [Hs Hc] H1 H2 H3 H4. split; [by apply shape_upd_cell|].
  rewrite <- Hc. unfold sparks. simpl. rewrite bind_alter_same; [done|].
  intros c E. unfold cargo_list. by rewrite H4.
Qed.

Lemma state_ok_heading s i d : state_ok w s -> state_ok w (upd_cell i (set_heading d) s).
Proof.
  intros H. apply state_ok_upd_cell; try done. intros b c _ _ []. by split.
Qed.

(** ** Moving and turning *)

Lemma blocked_total E s i d :
  state_ok w s -> (i < length (cells w))%nat -> exists b, blocked (E := E) w s i d = Ok b.
Proof.
  intros Hs Hi. destruct (cell_lookup w s i Hs Hi) as [c Hc].
  unfold blocked, index. rewrite Hc. simpl. eauto.
Qed.

Lemma cell_id_inj s i j c c' :
  state_ok w s -> st_cells s !! i = Some c -> st_cells s !! j = Some c' ->
  cel_id c = cel_id c' -> i = j.
Proof.
  intros Hs Hc Hc' E. pose proof (v_cell_ids _ (wo_valid _ Hw)) as Hn.
  change (ws_cells (spec w)) with (cells w) in Hn. rewrite <- (cells_ids w s Hs) in Hn.
  eapply NoDup_lookup; [exact Hn| |]; rewrite list_lookup_fmap.
  - by rewrite Hc.
  - by rewrite Hc', E.
Qed.

(** An unobstructed step leads to a free square nobody stands on. *)
Lemma blocked_false E s i d c :
  state_ok w s -> st_cells s !! i = Some c -> blocked (E := E) w s i d = Ok false ->
  exists p, destination (cel_position c) (cel_heading c) d = Some p /\ free (spec w) p /\
    forall j c', st_cells s !! j = Some c' -> j <> i -> cel_position c' <> p.
Proof.
  intros Hs Hc. unfold blocked, index. rewrite Hc. simpl.
  destruct (destination _ _ _) as [p|]; [|done]. intros [= Hb]. exists p. split; [done|].
  rewrite !orb_false_iff, !N.leb_gt in Hb. destruct Hb as (((? & ?) & Hwall) & Hocc).
  split; [by apply free_spec|]. intros j c' Hc' Hj Hp.
  assert (Hin : In c' (st_cells s)) by (eapply list_elem_of_In, list_elem_of_lookup_2, Hc').
  assert (existsb (fun other => negb (cel_id other =? cel_id c)
            && bool_decide (cel_position other = p)) (st_cells s) = true); [|congruence].
  apply existsb_exists. exists c'. split; [done|]. apply andb_true_iff. split.
  - apply negb_true_iff, N.eqb_neq. intros E'. by apply Hj, (cell_id_inj s j i c' c).
  - by apply bool_decide_eq_true_2.
Qed.

Lemma act_turn_ok i d k s :
  env_ok (mkEnv k s) -> (i < length (cells w))%nat ->
  wp (act_turn i d) (fun _ => env_ok) fault_post (mkEnv k s).
Proof.
  intros He Hi. unfold act_turn. wp_steps. apply wp_charge_env; [done|]. intros k1 (? & Hs & ?).
  wp_steps. destruct (cell_lookup w s i Hs Hi) as [c Hc]. eapply wp_the_cell; [done|].
  apply wp_update. split; [done|]. split; [|done]. by apply state_ok_heading.
Qed.

Lemma act_move_ok i d k s :
  env_ok (mkEnv k s) -> (i < length (cells w))%nat ->
  wp (act_move w i d) (fun _ => env_ok) fault_post (mkEnv k s).
Proof.
  intros He Hi. unfold act_move. wp_steps. apply wp_charge_env; [done|]. intros k1 He1.
  pose proof He1 as (_ & Hs & _). simpl in Hs.
  destruct (lookup_lt_is_Some_2 _ _ Hi) as [body Hb].
  destruct (cell_lookup w s i Hs Hi) as [c Hc].
  unfold index. wp_steps. rewrite Hb. wp_steps. apply wp_state.
  destruct (blocked_total Fault s i d Hs Hi) as [ob Eob].
  assert (Hob : wp (if negb (cb_mobile body) then ret true else lift (blocked w s i d))
            (fun b e => e = mkEnv k1 s /\ (b = false -> blocked (E := Fault) w s i d = Ok false))
            fault_post (mkEnv k1 s)).
  { destruct (negb _); wp_steps; [done|]. rewrite Eob. by split; [|intros ->]. }
  wp_steps. eapply wp_mono; [exact Hob| |done]. cbv beta. clear Hob.
  intros [] e [-> Hob]; [by wp_steps|]. specialize (Hob eq_refl).
  wp_steps. apply wp_charge_env; [done|]. intros k2 (Hk2 & _ & Hn2).
  wp_steps. eapply wp_the_cell; [done|].
  destruct (blocked_false Fault s i d c Hs Hc Hob) as (p & Ep & Hfree & Hocc).
  unfold internal. wp_steps. rewrite Ep. simpl. wp_steps. apply wp_update. apply wp_update.
  split; [done|]. split; [|done]. apply state_ok_heading. destruct Hs as [Hs Hcons].
  split; [by apply shape_move|]. rewrite <- Hcons. unfold sparks. simpl.
  by rewrite bind_alter_same.
Qed.

(** ** Picking up and dropping *)

Lemma cell_ok_cargo b c v : cell_ok b c -> cell_ok b (set_cargo v c).
Proof. intros []. by split. Qed.

Lemma shape_cargo s i v : state_shape w s -> state_shape w (upd_cell i (set_cargo v) s).
Proof. intros H. apply shape_upd_cell; try done. intros. by apply cell_ok_cargo. Qed.

Lemma sparks_take_cargo s i c sp :
  st_cells s !! i = Some c -> cel_cargo c = Some sp ->
  sp :: sparks (upd_cell i (set_cargo None) s) ≡ₚ sparks s.
Proof.
  intros Hc Hsp. pose proof (sparks_upd_cell s i (set_cargo None) c Hc) as E.
  unfold cargo_list in E. rewrite Hsp in E. simpl in E. spark_perm.
Qed.

Lemma sparks_give_cargo s i c sp :
  st_cells s !! i = Some c -> cel_cargo c = None ->
  sparks (upd_cell i (set_cargo (Some sp)) s) ≡ₚ sp :: sparks s.
Proof.
  intros Hc Hsp. pose proof (sparks_upd_cell s i (set_cargo (Some sp)) c Hc) as E.
  unfold cargo_list in E. rewrite Hsp in E. simpl in E. spark_perm.
Qed.

Lemma act_pickup_ok i k s :
  env_ok (mkEnv k s) -> (i < length (cells w))%nat ->
  wp (act_pickup w i) (fun _ => env_ok) fault_post (mkEnv k s).
Proof.
  intros He Hi. unfold act_pickup. wp_steps. apply wp_charge_env; [done|]. intros k1 He1.
  pose proof He1 as (_ & Hs & _). simpl in Hs.
  destruct (cell_lookup w s i Hs Hi) as [c Hc]. wp_steps. eapply wp_the_cell; [done|].
  case_bool_decide as Hcargo; [by wp_steps|]. wp_steps.
  unfold source_at. destruct (position _ _) as [src|] eqn:Esrc; simpl; [|done].
  wp_steps. apply wp_state.
  apply position_Some in Esrc as (b & Hb & _).
  assert (is_Some (st_sources s !! src)) as [e Ee].
  { apply lookup_lt_is_Some_2. rewrite (fmap_eq_length _ _ _ _ (so_sources _ _ Hs)).
    by eapply lookup_lt_Some. }
  unfold index. wp_steps. rewrite Ee. destruct (ss_sparks e) as [|sp rest] eqn:Esp; [done|].
  wp_steps. apply wp_charge_env; [done|]. intros k2 (Hk2 & _ & Hn2). wp_steps.
  apply wp_update. apply wp_update. split; [done|]. split; [|done]. destruct Hs as [Hs Hcons].
  split; [by apply shape_cargo, shape_source_pop|]. rewrite <- Hcons.
  rewrite (sparks_give_cargo (source_pop src s) i c sp Hc).
  - by eapply sparks_source_pop.
  - destruct (cel_cargo c); [|done]. by destruct Hcargo.
Qed.

Lemma wp_credit b e i sp (Q : unit -> Env -> Prop) (R : Fault -> Env -> Prop) k s :
  ctx_ok k -> state_ok w s -> beacons w !! i = Some b -> st_beacons s !! i = Some e ->
  (forall k', ctx_ok k' -> work k <= work k' -> Q tt (mkEnv k' (credited s i b e sp))) ->
  (forall stop k', ctx_ok k' -> work k <= work k' -> R (FStop stop) (mkEnv k' s)) ->
  wp (credit w i sp) Q R (mkEnv k s).
Proof.
  intros Hk Hs Hb He HQ HR. unfold credit. wp_steps.
  apply wp_env_charge; [done| |done]. intros k1 Hk1 E1 _.
  unfold index. wp_steps. rewrite Hb. wp_steps. apply wp_state. wp_steps. rewrite He.
  pose proof (beacon_energy_bound w s i b e Hw Hs Hb He).
  pose proof (delivered_each w s i e Hw Hs He).
  destruct (beacon_params w i b Hw Hb) as (_ & _ & ?).
  unfold checked_add_fault. wp_steps. rewrite checked_add_ok by lia. simpl. wp_steps.
  apply wp_update. wp_steps. rewrite checked_add_ok by lia. simpl. wp_steps.
  apply wp_update. apply wp_update.
  assert (E : push_delivery sp (bea_id b) (upd_beacon i
      (mkBeaconState (bs_id e) (bs_charge e + bea_spark_charge b) (bs_delivered e + 1)
         (bs_drained e) (bs_exhausted e))
      (upd_beacon i (mkBeaconState (bs_id e) (bs_charge e + bea_spark_charge b)
         (bs_delivered e) (bs_drained e) (bs_exhausted e)) s)) = credited s i b e sp).
  { unfold credited, upd_beacon, push_delivery, set_beacons, set_delivered. simpl.
    by rewrite list_insert_insert_eq. }
  rewrite E. apply HQ; [done|lia].
Qed.
Lemma sparks_upd_cargo_none s i c sp :
  st_cells s !! i = Some c -> cel_cargo c = Some sp -> state_ok w s ->
  sparks (upd_cell i (set_cargo None) s) ++ [sp] ≡ₚ all_sparks (spec w).
Proof.
  intros Hc Hsp [_ <-]. rewrite <- (sparks_take_cargo s i c sp Hc Hsp).
  by rewrite Permutation_app_comm.
Qed.

(** Dropping into a depot with room. *)
Lemma state_ok_depot_drop s i c sp j d e :
  state_ok w s -> st_cells s !! i = Some c -> cel_cargo c = Some sp ->
  depots w !! j = Some d -> st_depots s !! j = Some e -> len (ds_sparks e) < dep_capacity d ->
  state_ok w (depot_push j sp (upd_cell i (set_cargo None) s)).
Proof.
  intros Hs Hc Hsp Hd He Hl. destruct Hs as [Hsh Hcons]. split.
  - eapply shape_depot_push; [by apply shape_cargo|done|done|done].
  - rewrite (sparks_depot_push (upd_cell i (set_cargo None) s) j sp e) by done.
    by rewrite (sparks_take_cargo s i c sp).
Qed.

(** Dropping onto a beacon. *)
Lemma state_ok_beacon_drop s i c sp j b e :
  state_ok w s -> st_cells s !! i = Some c -> cel_cargo c = Some sp ->
  beacons w !! j = Some b -> st_beacons s !! j = Some e ->
  state_ok w (upd_cell i (set_cargo None) (credited s j b e sp)).
Proof.
  intros Hs Hc Hsp Hb He. destruct Hs as [Hsh Hcons]. split.
  - by apply shape_cargo, shape_credited.
  - assert (Hc' : st_cells (credited s j b e sp) !! i = Some c) by done.
    pose proof (sparks_take_cargo _ i c sp Hc' Hsp) as E1.
    pose proof (sparks_credited s j b e sp) as E2. rewrite <- Hcons. spark_perm.
Qed.

Lemma act_drop_ok i k s :
  env_ok (mkEnv k s) -> (i < length (cells w))%nat ->
  wp (act_drop w i) (fun _ => env_ok) fault_post (mkEnv k s).
Proof.
  intros He Hi. unfold act_drop. wp_steps. apply wp_charge_env; [done|]. intros k1 He1.
  pose proof He1 as (Hk1 & Hs & Hn1). simpl in Hs, Hk1, Hn1.
  destruct (cell_lookup w s i Hs Hi) as [c Hc]. wp_steps. eapply wp_the_cell; [done|].
  wp_steps. destruct (cel_cargo c) as [sp|] eqn:Esp; [|done]. simpl.
  unfold depot_at, beacon_at.
  destruct (position _ (depots w)) as [j|] eqn:Ej.
  - apply position_Some in Ej as (d & Hd & _). wp_steps. unfold index. rewrite Hd.
    wp_steps. apply wp_state. wp_steps.
    destruct (Forall2_lookup_l _ _ _ _ _ (so_depots _ _ Hs) Hd) as (e & Hde & _).
    rewrite Hde. destruct (N.leb_spec (dep_capacity d) (len (ds_sparks e))); [done|].
    wp_steps. apply wp_charge_env; [done|]. intros k2 (Hk2 & _ & Hn2). wp_steps.
    apply wp_update. wp_steps. apply wp_update. wp_steps.
    eapply wp_mono; [apply emit_ok| |done].
    + split; [done|]. split; [|done]. by eapply state_ok_depot_drop.
    + by intros.
    + intros n e' (? & _). by wp_steps.
  - destruct (position _ (beacons w)) as [j|] eqn:Ejb; [|done].
    apply position_Some in Ejb as (b & Hb & _). wp_steps. unfold index. rewrite Hb.
    destruct (negb _); [done|].
    destruct (beacon_lookup w s j b Hs Hb) as (e & Hbe & _).
    wp_steps. eapply wp_credit; try done;
      [|intros stop k2 ? ?; by apply (env_ok_step k1 k2 s s)].
    intros k2 Hk2 Hwk.
    apply wp_update. split; [done|]. split; [by eapply state_ok_beacon_drop|].
    simpl in *. lia.
Qed.

(** ** Memory and messages *)

Lemma cell_fields s i c :
  state_ok w s -> st_cells s !! i = Some c ->
  length (cel_memory c) = 4%nat /\ length (cel_evidence c) = 4%nat /\
  length (cel_inbox c) = 4%nat /\ inbox_ok w c.
Proof.
  intros Hs Hc. destruct (cell_lookup_ok w s i c Hs Hc) as (b & _ & []).
  pose proof (so_inbox _ _ Hs) as Hf. rewrite Forall_lookup in Hf. by specialize (Hf i c Hc).
Qed.

Lemma wp_check_slot i slot c (Q : unit -> Env -> Prop) R k s :
  state_ok w s -> st_cells s !! i = Some c -> slot_wf slot ->
  Q tt (mkEnv k s) -> wp (check_slot i slot) Q R (mkEnv k s).
Proof.
  intros Hs Hc Hw' HQ. destruct (cell_fields s i c Hs Hc) as (Hm & Hv & _).
  pose proof (slot_index_lt slot Hw') as Hi.
  destruct (lookup_four _ _ Hm Hi) as [x Ex], (lookup_four _ _ Hv Hi) as [y Ey].
  unfold check_slot. wp_steps. eapply wp_the_cell; [done|]. unfold index. wp_steps.
  rewrite Ex. wp_steps. rewrite Ey. by wp_steps.
Qed.

Lemma state_ok_write s i slot v ev :
  state_ok w s -> v < 2 ^ 8 ->
  state_ok w (upd_cell i (fun c => set_evidence (<[slot_index slot := ev]> (cel_evidence c)) c)
    (upd_cell i (fun c => set_memory (<[slot_index slot := v]> (cel_memory c)) c) s)).
Proof.
  intros Hs Hv. apply state_ok_upd_cell; [apply state_ok_upd_cell|..]; try done.
  - intros b c _ _ []. split; simpl; try done; [by rewrite length_insert|].
    by apply Forall_insert.
  - intros b c _ _ []. split; simpl; try done. by rewrite length_insert.
Qed.

Lemma wp_write_slot_value i slot v ev (Q : unit -> Env -> Prop) R k s :
  state_ok w s -> v < 2 ^ 8 ->
  (forall s', state_ok w s' -> st_next_signal s' = st_next_signal s -> 
     (forall c, st_cells s !! i = Some c -> exists c', st_cells s' !! i = Some c' /\
        cel_inbox c' = cel_inbox c) -> Q tt (mkEnv k s')) ->
  wp (write_slot_value i slot v ev) Q R (mkEnv k s).
Proof.
  intros Hs Hv HQ. unfold write_slot_value. wp_steps. apply wp_update. apply wp_update.
  apply HQ; [by apply state_ok_write|done|]. intros c Hc. simpl.
  rewrite !list_lookup_alter_eq, Hc. by eexists.
Qed.

Lemma act_write_ok i slot v k s :
  env_ok (mkEnv k s) -> (i < length (cells w))%nat -> slot_wf slot -> v < 2 ^ 8 ->
  wp (act_write i slot v) (fun _ => env_ok) fault_post (mkEnv k s).
Proof.
  intros He Hi Hsl Hv. unfold act_write. wp_steps. apply wp_charge_env; [done|].
  intros k1 (Hk1 & Hs & Hn1). simpl in Hs. destruct (cell_lookup w s i Hs Hi) as [c Hc].
  wp_steps. eapply wp_check_slot; try done. apply wp_write_slot_value; [done|done|].
  intros s' Hs' E _. split; [done|]. split; [done|]. simpl in *. by rewrite E.
Qed.

Lemma state_ok_clear_port s i p :
  state_ok w s -> state_ok w (upd_cell i (fun c => set_inbox (<[p := None]> (cel_inbox c)) c) s).
Proof.
  intros Hs. apply state_ok_upd_cell; try done.
  - intros b c _ _ []. split; simpl; try done. by rewrite length_insert.
  - intros c _ Hc. by apply Forall_insert.
Qed.

Lemma b2n_byte b : N.b2n b < 2 ^ 8.
Proof. by destruct b. Qed.

Lemma act_take_ok i port slot k s :
  env_ok (mkEnv k s) -> (i < length (cells w))%nat -> port_wf port -> slot_wf slot ->
  wp (act_take i port slot) (fun _ => env_ok) fault_post (mkEnv k s).
Proof.
  intros He Hi Hp Hsl. unfold act_take. wp_steps. apply wp_charge_env; [done|].
  intros k1 He1. pose proof He1 as (_ & Hs & _). simpl in Hs.
  destruct (cell_lookup w s i Hs Hi) as [c Hc]. wp_steps. eapply wp_the_cell; [done|].
  destruct (cell_fields s i c Hs Hc) as (_ & _ & Hin & _).
  destruct (lookup_four _ _ Hin (port_index_lt _ Hp)) as [o Eo].
  unfold index. wp_steps. rewrite Eo. wp_steps. destruct o as [g|]; [|done]. simpl.
  wp_steps. apply wp_charge_env; [done|]. intros k2 He2.
  wp_steps. apply wp_charge_env; [done|]. intros k3 (Hk3 & _ & Hn3).
  wp_steps. eapply wp_check_slot; try done. wp_steps.
  apply wp_write_slot_value; [done|apply b2n_byte|]. intros s' Hs' E _. wp_steps.
  apply wp_update. unfold push_signal. wp_steps.
  split; [by apply (ctx_ok_push k3)|]. split; [by apply state_ok_clear_port|].
  unfold work in *. simpl in *. by rewrite E.
Qed.

Lemma read_bit_ok c b (Q : bool * option N -> Ctx -> Prop) (R : Fault -> Ctx -> Prop) k :
  ctx_ok k -> length (cel_memory c) = 4%nat -> length (cel_evidence c) = 4%nat ->
  length (cel_inbox c) = 4%nat -> bit_source_wf b ->
  (forall r k', ctx_ok k' -> work k <= work k' -> Q r k') ->
  (forall f k', ctx_ok k' -> work k <= work k' ->
     (exists stop, f = FStop stop) \/ (exists e, f = FAction e) -> R f k') ->
  wp (read_bit c b) Q R k.
Proof.
  intros Hk Hm He Hi Hwf HQ HR. destruct b as [v|slot|port]; simpl; wp_steps;
    (apply wp_ctx_charge; [done| |intros; apply HR; eauto]); intros k1 Hk1 E1 _; wp_steps.
  - apply HQ; [done|lia].
  - destruct (lookup_four _ _ Hm (slot_index_lt _ Hwf)) as [x Ex].
    destruct (lookup_four _ _ He (slot_index_lt _ Hwf)) as [y Ey].
    unfold index. rewrite Ex. wp_steps. rewrite Ey. wp_steps. apply HQ; [done|lia].
  - destruct (lookup_four _ _ Hi (port_index_lt _ Hwf)) as [o Eo].
    unfold index. rewrite Eo. wp_steps. destruct o; simpl; [apply HQ|apply HR]; eauto; lia.
Qed.

(** Reading a bit in an environment. *)
Lemma wp_env_read c b i (Q : bool * option N -> Env -> Prop) k s :
  env_ok (mkEnv k s) -> st_cells s !! i = Some c -> bit_source_wf b ->
  (forall r k', env_ok (mkEnv k' s) -> Q r (mkEnv k' s)) ->
  wp (with_ctx (read_bit c b)) Q fault_post (mkEnv k s).
Proof.
  intros (Hk & Hs & Hn) Hc Hb HQ. destruct (cell_fields s i c Hs Hc) as (? & ? & ? & _).
  unfold with_ctx. wp_steps. apply read_bit_ok; try done.
  - intros r k' Hk' Hle. apply HQ. by apply (env_ok_step k k' s s).
  - intros f k' Hk' Hle [[stop ->]|[e ->]]; by apply (env_ok_step k k' s s).
Qed.

Lemma act_send_ok i port b k s :
  env_ok (mkEnv k s) -> (i < length (cells w))%nat -> bit_source_wf b ->
  wp (act_send w i port b) (fun _ => env_ok) fault_post (mkEnv k s).
Proof.
  intros He Hi Hb. pose proof He as (_ & Hs & _). simpl in Hs.
  destruct (cell_lookup w s i Hs Hi) as [c Hc].
  unfold act_send. wp_steps. eapply wp_the_cell; [done|]. wp_steps.
  eapply wp_env_read; [done..|]. intros [v ev] k' He'. wp_steps.
  eapply wp_mono; [apply (emit_ok _ _ _ _ fault_post); [done|by intros]| |done].
  intros n e' (? & _). destruct (n =? 0); by wp_steps.
Qed.

(** ** Routing *)

(** A spark leaves the head of a depot for a beacon. *)
Lemma state_ok_route s d de sp j b e :
  state_ok w s -> st_depots s !! d = Some de -> head (ds_sparks de) = Some sp ->
  beacons w !! j = Some b -> st_beacons s !! j = Some e ->
  state_ok w (depot_pop d (credited s j b e sp)).
Proof.
  intros [Hsh Hcons] Hd Hsp Hb He. split; [by apply shape_depot_pop, shape_credited|].
  pose proof (sparks_depot_pop (credited s j b e sp) d de sp Hd Hsp) as E1.
  pose proof (sparks_credited s j b e sp) as E2. rewrite <- Hcons. spark_perm.
Qed.

(** A valve's targets exist. *)
Lemma valve_targets v :
  v ∈ valves w ->
  val_depot v ∈ dep_id <$> depots w /\ val_beacon_zero v ∈ bea_id <$> beacons w /\
  val_beacon_one v ∈ bea_id <$> beacons w.
Proof.
  intros Hin. pose proof (v_valves _ (wo_valid _ Hw)) as Hf. rewrite Forall_forall in Hf.
  destruct (Hf v Hin) as (d & z & o & Hd & Hz & Ho & <- & <- & <- & _).
  split; [by apply list_elem_of_fmap_2|]. split; by apply list_elem_of_fmap_2.
Qed.


Lemma act_route_ok i v b k s :
  env_ok (mkEnv k s) -> (i < length (cells w))%nat -> bit_source_wf b ->
  wp (act_route w i v b) (fun _ => env_ok) fault_post (mkEnv k s).
Proof.
  intros He Hi Hb. pose proof He as (_ & Hs & _). simpl in Hs.
  destruct (cell_lookup w s i Hs Hi) as [c Hc].
  unfold act_route. wp_steps. eapply wp_the_cell; [done|]. wp_steps.
  eapply wp_env_read; [done..|]. intros [value ev] k' He'. wp_steps.
  apply wp_charge_env; [done|]. intros k1 He1. wp_steps.
  destruct (position _ (valves w)) as [vi|] eqn:Evi; [|done]. simpl.
  apply position_Some in Evi as (spec_v & Hv & _). unfold index. wp_steps. rewrite Hv.
  destruct (negb _); [done|]. wp_steps. apply wp_state. wp_steps.
  assert (is_Some (st_valves s !! vi)) as [ve Eve].
  { apply lookup_lt_is_Some_2. rewrite (fmap_eq_length _ _ _ _ (so_valves _ _ Hs)).
    by eapply lookup_lt_Some. }
  rewrite Eve. destruct (negb _); [done|].
  destruct (valve_targets spec_v) as (Hd & Hz & Ho); [by eapply list_elem_of_lookup_2|].
  destruct (position_key dep_id _ _ Hd) as (d & dep & Ed & Hdep & _).
  unfold internal. wp_steps. rewrite Ed. simpl. wp_steps.
  destruct (Forall2_lookup_l _ _ _ _ _ (so_depots _ _ Hs) Hdep) as (de & Hde & _).
  rewrite Hde. wp_steps. destruct (head (ds_sparks de)) as [sp|] eqn:Esp; [|done]. simpl.
  set (bid := if (value : bool) then _ else _).
  assert (Hbid : bid ∈ bea_id <$> beacons w) by by unfold bid; destruct value.
  destruct (position_key bea_id _ _ Hbid) as (j & t & Ej & Ht & _).
  wp_steps. rewrite Ej. simpl. wp_steps. rewrite Ht. destruct (negb _); [done|].
  destruct (beacon_lookup w s j t Hs Ht) as (e & Hbe & _).
  destruct He1 as (Hk1 & _ & Hn1). wp_steps. eapply wp_credit; try done;
    [|intros stop k2 ? ?; by apply (env_ok_step k1 k2 s s)].
  intros k2 Hk2 Hwk.
  apply wp_update. split; [done|]. split; [by eapply state_ok_route|].
  simpl in *. lia.
Qed.

(** Every action, on a well-formed program. *)
Lemma execute_ok i a k s :
  env_ok (mkEnv k s) -> (i < length (cells w))%nat -> action_wf a ->
  wp (execute w i a) (fun _ => env_ok) fault_post (mkEnv k s).
Proof.
  intros He Hi Ha. unfold execute. wp_steps. apply wp_charge_env; [done|]. intros k1 He1.
  destruct a; simpl in Ha.
  - by apply act_move_ok.
  - by apply act_turn_ok.
  - by apply act_pickup_ok.
  - by apply act_drop_ok.
  - by wp_steps.
  - destruct Ha. by apply act_write_ok.
  - destruct Ha. by apply act_take_ok.
  - destruct Ha. by apply act_send_ok.
  - destruct Ha. by apply act_route_ok.
Qed.

(** ** Conditions and selection *)

(** What a condition means on a state, without the metering. *)
Definition holds (s : State) (i : nat) (c : Condition) : bool :=
  match st_cells s !! i with
  | None => false
  | Some cell =>
      match c with
      | Memory slot value =>
          match cel_memory cell !! slot_index slot with
          | Some byte => byte =? value
          | None => false
          end
      | _ => match sense w s i cell c with Ok b => b | _ => false end
      end
  end.

Definition rule_holds (s : State) (i : nat) (r : Rule) : bool := forallb (holds s i) (rule_when r).

Lemma check_condition_ok s i c (Q : bool -> Ctx -> Prop) (R : Fault -> Ctx -> Prop) k :
  ctx_ok k -> state_ok w s -> (i < length (cells w))%nat -> condition_wf c ->
  (forall k', ctx_ok k' -> work k <= work k' -> c_signals k' = c_signals k -> Q (holds s i c) k') ->
  (forall stop k', ctx_ok k' -> work k <= work k' -> R (FStop stop) k') ->
  wp (check_condition w s i c) Q R k.
Proof.
  intros Hk Hs Hi Hc HQ HR. destruct (cell_lookup w s i Hs Hi) as [cell Ecell].
  destruct (cell_fields s i cell Hs Ecell) as (Hm & _ & Hin & _).
  unfold holds in HQ. rewrite Ecell in HQ. unfold check_condition. wp_steps.
  apply wp_ctx_charge; [done| |intros; by apply HR]. intros k1 Hk1 E1 F1.
  unfold index. wp_steps. rewrite Ecell.
  destruct c as [v|v|v|v|v|d v|p v|p v|d|sl v]; wp_steps;
    (apply wp_ctx_charge; [done| |intros; apply HR; [done|lia]]); intros k2 Hk2 E2 F2; wp_steps;
    simpl in *; try (apply HQ; [done|lia|congruence]).
  - destruct (blocked_total Fault s i d Hs Hi) as [ob Eb]. rewrite Eb in *. simpl in *.
    apply HQ; [done|lia|congruence].
  - destruct (lookup_four _ _ Hin (port_index_lt _ Hc)) as [o Eo].
    unfold index in *. rewrite Eo in *. simpl in *. apply HQ; [done|lia|congruence].
  - destruct (lookup_four _ _ Hin (port_index_lt _ Hc)) as [o Eo].
    unfold index in *. rewrite Eo in *. simpl in *. apply HQ; [done|lia|congruence].
  - destruct Hc as [Hc _]. destruct (lookup_four _ _ Hm (slot_index_lt _ Hc)) as [o Eo].
    rewrite Eo in *. wp_steps. apply HQ; [done|lia|congruence].
Qed.

Lemma all_match_ok s i cs (Q : bool -> Ctx -> Prop) (R : Fault -> Ctx -> Prop) k :
  ctx_ok k -> state_ok w s -> (i < length (cells w))%nat -> Forall condition_wf cs ->
  (forall k', ctx_ok k' -> work k <= work k' -> c_signals k' = c_signals k ->
     Q (forallb (holds s i) cs) k') ->
  (forall stop k', ctx_ok k' -> work k <= work k' -> R (FStop stop) k') ->
  wp (all_match w s i cs) Q R k.
Proof.
  intros Hk Hs Hi Hcs. revert k Hk. induction Hcs as [|c cs Hc Hcs IH]; intros k Hk HQ HR; simpl.
  - wp_steps. by apply HQ.
  - wp_steps. apply check_condition_ok; try done. intros k' Hk' Hle F1. simpl in HQ.
    destruct (holds s i c); [|wp_steps; by apply HQ]. simpl in HQ. apply IH; [done| |].
    + intros. apply HQ; [done|lia|congruence].
    + intros. apply HR; [done|lia].
Qed.

(** The first rule whose conditions all hold. *)
Lemma select_ok s i rs (Q : option (nat * Rule) -> Ctx -> Prop) (R : Fault -> Ctx -> Prop) k :
  ctx_ok k -> state_ok w s -> (i < length (cells w))%nat ->
  Forall (fun kr => rule_wf kr.2) rs ->
  (forall k', ctx_ok k' -> work k <= work k' -> c_signals k' = c_signals k ->
     Q (List.find (fun kr => rule_holds s i kr.2) rs) k') ->
  (forall stop k', ctx_ok k' -> work k <= work k' -> R (FStop stop) k') ->
  wp (select w s i rs) Q R k.
Proof.
  intros Hk Hs Hi Hrs. revert k Hk Q. induction Hrs as [|[n r] rs Hr Hrs IH];
    intros k Hk Q HQ HR; simpl.
  - wp_steps. by apply HQ.
  - wp_steps. apply wp_ctx_charge; [done| |intros; by apply HR]. intros k1 Hk1 E1 F1.
    wp_steps. apply all_match_ok; try done; [apply Hr| |intros; apply HR; [done|lia]].
    simpl in HQ. unfold rule_holds in HQ at 1. intros k2 Hk2 Hle F2.
    destruct (forallb _ (rule_when r)).
    + wp_steps. apply HQ; [done|lia|congruence].
    + apply IH; [done| |intros; apply HR; [done|lia]].
      intros k3 Hk3 Hle3 F3. apply HQ; [done|lia|congruence].
Qed.

End Actions.
