(* ===== verification/Ticks.v ===== *)
(** Activations and ticks of a run: what they preserve, charge and deliver. *)
From S2P Require Import Prelude Meter Language World WorldFacts Machine MachineInv Actions.

(** Activations: rule selection, the action, the remembered write, and the
    rollback of an activation that ran out of fuel. *)

Lemma wp_catch {S E A} (m : eff S E A) (Q : res E A -> S -> Prop) (R : E -> S -> Prop) s :
  wp m (fun a => Q (Ok a)) (fun e => Q (Err e)) s -> wp (catch m) Q R s.
Proof. unfold wp, catch. destruct (m s) as [[a|e|] s']; done. Qed.

(** ** The record of an activation *)

(** The first rule of [p] that holds for cell [i]. *)
Definition choice (w : World) (p : Program) (s : State) (i : nat) : option (nat * Rule) :=
  List.find (fun kr => rule_holds w s i kr.2) (enumerate (rules p)).

Definition chosen (w : World) (p : Program) (s : State) (i : nat) (r : Activation) : Activation :=
  set_rule_action ((fun kr => N.of_nat kr.1) <$> choice w p s i)
    (selected_action (choice w p s i)) r.

Lemma choice_elem w p s i kr :
  choice w p s i = Some kr -> rules p !! kr.1 = Some kr.2.
Proof.
  intros H. apply find_some in H as [Hin _]. apply list_elem_of_In in Hin.
  unfold enumerate in Hin. apply elem_of_lookup_imap in Hin as (j & r & -> & ?). done.
Qed.

(** No earlier rule holds. *)
Lemma find_imap_first {A} (f : A -> bool) (g : nat -> A -> nat * A) (l : list A) n k x :
  (forall j y, g j y = ((n + j)%nat, y)) ->
  List.find (fun kr => f kr.2) (imap g l) = Some ((n + k)%nat, x) ->
  l !! k = Some x /\ f x = true /\ forall j y, (j < k)%nat -> l !! j = Some y -> f y = false.
Proof.
  revert g n k. induction l as [|y l IH]; intros g n k Hg; csimpl; [done|].
  rewrite Hg. simpl. destruct (f y) eqn:E.
  - intros [= H1 <-]. assert (k = 0)%nat as -> by lia. repeat split; [done|]. lia.
  - intros H. pose proof H as Hin. apply find_some in Hin as [Hin _].
    apply list_elem_of_In, elem_of_lookup_imap in Hin as (j & z & Hj & _).
    simpl in Hj. rewrite Hg in Hj. injection Hj as Hj _.
    destruct k as [|k]; [lia|]. replace (n + S k)%nat with (S n + k)%nat in H by lia.
    destruct (IH (g ∘ S) (S n) k) as (? & ? & Hbefore); [|done|].
    { intros j' y'. simpl. rewrite Hg. f_equal. lia. }
    repeat split; [done|done|].
    intros [|j'] z' Hlt Hz; simpl in Hz; [by injection Hz as <-|].
    apply (Hbefore j'); [lia|done].
Qed.

Lemma choice_first w p s i k r :
  choice w p s i = Some (k, r) ->
  rules p !! k = Some r /\ rule_holds w s i r = true /\
  forall j r', (j < k)%nat -> rules p !! j = Some r' -> rule_holds w s i r' = false.
Proof. by apply (find_imap_first (rule_holds w s i) pair (rules p) 0 k r). Qed.

Lemma choice_none w p s i :
  choice w p s i = None <-> forall j r, rules p !! j = Some r -> rule_holds w s i r = false.
Proof.
  unfold choice, enumerate. split.
  - intros H j r Hj. apply (find_none _ _ H (j, r)). apply list_elem_of_In, elem_of_lookup_imap.
    by exists j, r.
  - intros H. destruct (List.find _ _) as [[k r]|] eqn:E; [|done].
    apply find_some in E as [Hin E]. apply list_elem_of_In, elem_of_lookup_imap in Hin
      as (j & z & [= -> ->] & Hz). simpl in E. by rewrite (H j z Hz) in E.
Qed.

Section Activation.
Context (w : World) (Hw : world_ok w) (Hty : ids_typed (spec w)).
Context (F : N) (HF : F <= MAX_FUEL).

Lemma wp_on_env {A} (m : eff Env Fault A) Q R r :
  wp m (fun a e => Q a (mkRunEnv e (re_record r))) (fun f e => R f (mkRunEnv e (re_record r)))
     (re_env r) ->
  wp (on_env m) Q R r.
Proof. intros H. unfold on_env. by apply wp_zoom. Qed.

Lemma program_rules p : program_wf p -> Forall (fun kr => rule_wf kr.2) (enumerate (rules p)).
Proof.
  intros [_ _ Hr]. apply Forall_forall. intros kr Hin.
  unfold enumerate in Hin. apply elem_of_lookup_imap in Hin as (j & r & -> & Hj).
  by eapply Forall_lookup_1 in Hj.
Qed.

Lemma rule_number_ok p s i :
  program_wf p -> rule_number (choice w p s i) = Ok ((fun kr => N.of_nat kr.1) <$> choice w p s i).
Proof.
  intros [_ Hm _]. destruct (choice w p s i) as [[k r]|] eqn:E; [|done]. simpl.
  apply choice_elem, lookup_lt_Some in E. simpl in E. unfold len, MAX_RULES in Hm.
  by rewrite (proj2 (N.ltb_lt _ _)) by lia.
Qed.

Section Window.
Context (win : option (N * N)) (base : list SignalEvent) (W0 : N).
Notation ctx_ok := (ctx_ok F win base W0).
Notation env_ok := (env_ok w F win base W0).
Notation fault_post := (fault_post w F win base W0).

(** A charge that ends the activation leaves the state as it was. *)
Lemma wp_charge_stop c n (Q : unit -> Env -> Prop) (R : Fault -> Env -> Prop) k s :
  env_ok (mkEnv k s) ->
  (forall k', env_ok (mkEnv k' s) -> Q tt (mkEnv k' s)) ->
  (forall stop k', env_ok (mkEnv k' s) -> R (FStop stop) (mkEnv k' s)) ->
  wp (env_charge c n) Q R (mkEnv k s).
Proof.
  intros (Hk & Hs & Hn) HQ HR. eapply (wp_env_charge F HF win base W0); [done| |].
  - intros k' Hk' E _. apply HQ. apply (env_ok_step w F HF win base W0 k k' s s); try done. simpl in *. lia.
  - intros stop k' Hk' Hle. apply HR. by apply (env_ok_step w F HF win base W0 k k' s s).
Qed.

(** The remembered write, after success and after an action failure alike. *)
Lemma remember_ok i write (Q : unit -> RunEnv -> Prop) (R : Fault -> RunEnv -> Prop) k s rec :
  env_ok (mkEnv k s) -> (i < length (cells w))%nat -> write_wf write ->
  (forall e, env_ok e -> Q tt (mkRunEnv e rec)) ->
  (forall stop e, env_ok e -> R (FStop stop) (mkRunEnv e rec)) ->
  wp (do! on_env (env_charge MemoryWrites 1) in
      do! on_env (check_slot i (write_slot write)) in
      on_env (write_slot_value i (write_slot write) (write_value write) None))
     Q R (mkRunEnv (mkEnv k s) rec).
Proof.
  intros He Hi [Hsl Hv] HQ HR. wp_steps. apply wp_on_env. simpl.
  apply wp_charge_stop; [done| |by intros; apply HR].
  intros k1 (Hk1 & Hs & Hn1). simpl in Hs. destruct (cell_lookup w s i Hs Hi) as [c Hc].
  wp_steps. apply wp_on_env. simpl. eapply wp_check_slot; try done. apply wp_on_env. simpl.
  eapply wp_write_slot_value; [done..|].
  intros s' Hs' E _. apply HQ. split; [done|]. split; [done|]. simpl in *. by rewrite E.
Qed.

Definition run_fault (p : Program) (s : State) (i : nat) (r0 : Activation) (f : Fault)
    (r : RunEnv) : Prop :=
  fault_post f (re_env r) /\
  match f with
  | FStop _ => re_record r = r0 \/ re_record r = chosen w p s i r0
  | _ => re_record r = chosen w p s i r0
  end.

Lemma choice_wf p s i : program_wf p ->
  action_wf (selected_action (choice w p s i)) /\
  forall write, choice w p s i ≫= (fun kr => rule_remember kr.2) = Some write -> write_wf write.
Proof.
  intros [_ _ Hr]. destruct (choice w p s i) as [[j r]|] eqn:E; [|done].
  apply choice_elem, list_elem_of_lookup_2 in E. simpl in *. rewrite Forall_forall in Hr.
  destruct (Hr r E) as [_ _ ? Hw']. split; [done|]. intros write Ew. by rewrite Ew in Hw'.
Qed.

Lemma wp_env_select p s i k sc (Q : option (nat * Rule) -> Env -> Prop) R :
  program_wf p -> state_ok w s -> (i < length (cells w))%nat -> env_ok (mkEnv k sc) ->
  (forall k', env_ok (mkEnv k' sc) -> Q (choice w p s i) (mkEnv k' sc)) ->
  (forall stop k', env_ok (mkEnv k' sc) -> R (FStop stop) (mkEnv k' sc)) ->
  wp (with_ctx (select w s i (enumerate (rules p)))) Q R (mkEnv k sc).
Proof.
  intros Hp Hs Hi (Hk & Hsc & Hn) HQ HR. unfold with_ctx. wp_steps.
  eapply (select_ok w F HF win base W0); try done; [by apply program_rules|..].
  - intros k' Hk' Hle _. apply HQ. by apply (env_ok_step w F HF win base W0 k k' sc sc).
  - intros stop k' Hk' Hle. apply HR. by apply (env_ok_step w F HF win base W0 k k' sc sc).
Qed.

Lemma run_activation_ok p s i r :
  program_wf p -> state_ok w s -> (i < length (cells w))%nat -> env_ok (re_env r) ->
  wp (run_activation w p s i)
     (fun _ r' => env_ok (re_env r') /\ re_record r' = chosen w p s i (re_record r))
     (run_fault p s i (re_record r)) r.
Proof.
  intros Hp Hs Hi He. destruct r as [[k sc] rec]. simpl in He. unfold run_activation.
  destruct (choice_wf p s i Hp) as [Ha Hwr]. wp_steps. apply wp_on_env. simpl.
  apply wp_charge_stop; [done| |by intros; split; auto]. intros k1 He1.
  wp_steps. apply wp_on_env. simpl.
  apply wp_env_select; try done; [|by intros; split; auto]. intros k2 He2.
  rewrite rule_number_ok by done. wp_steps. fold (chosen w p s i rec).
  apply wp_catch, wp_on_env. simpl.
  eapply wp_mono; [by apply (execute_ok w Hw Hty F HF win base W0)| |]; simpl.
  - intros [] [k3 s3] He3. simpl.
    destruct (choice w p s i ≫= _) as [write|] eqn:Ew; [|by wp_steps].
    apply wp_bind. eapply remember_ok; [done|done|by apply Hwr| |].
    + intros e He4. by wp_steps.
    + intros stop e He4. split; auto.
  - intros [stop|e|e] [k3 s3] He3; simpl in He3; simpl; [by wp_steps; split; auto| |done].
    destruct (choice w p s i ≫= _) as [write|] eqn:Ew; [|by wp_steps].
    apply wp_bind. eapply remember_ok; [done|done|by apply Hwr| |].
    + intros e' He4. by wp_steps.
    + intros stop e' He4. split; auto.
Qed.
End Window.

(** ** One activation *)

Definition aligned (s : State) : Prop :=
  length (st_sources s) = length (sources w) /\ length (st_depots s) = length (depots w).

Lemma state_aligned s : state_ok w s -> aligned s.
Proof.
  intros H. split; [by apply (fmap_eq_length ss_id src_id), H|].
  symmetry. eapply Forall2_length, H.
Qed.

Lemma zip_copy_length {A} (a b : list A) : length a = length b -> zip_copy a b = b.
Proof.
  clear F HF. revert b. induction a as [|x a IH]; intros [|y b] H; simpl in *; try done.
  f_equal. apply IH. lia.
Qed.

(** Between states of one world, [copy_from] copies everything. *)
Lemma copy_from_aligned s s' : aligned s -> state_ok w s' -> copy_from s s' = s'.
Proof.
  clear F HF. intros [H1 H2] [H3 H4]%state_aligned. destruct s'. unfold copy_from. simpl in *.
  rewrite !zip_copy_length; [done|lia|lia].
Qed.

Record turn_ok (base : list SignalEvent) (W0 : N) (t : TurnEnv) : Prop := {
  to_ctx : ctx_ok F None base W0 (t_ctx t);
  to_state : state_ok w (t_state t);
  to_next : st_next_signal (t_state t) <= 1 + work (t_ctx t);
  to_scratch : aligned (t_scratch t);
}.

Definition cell_at (s : State) (i : nat) (p : Point) : Prop :=
  exists c, st_cells s !! i = Some c /\ cel_position c = p.

(** What one activation does.  A stop rolls the state and the signal log back;
    the work stays charged and fits the activation's budget. *)
Record activated (limit : N) (p : Program) (i : nat) (t : TurnEnv) (r : Activation)
    (stop : option Stop) (t' : TurnEnv) : Prop := {
  av_cell : exists c, st_cells (t_state t) !! i = Some c /\ act_cell r = cel_id c;
  av_before : cell_at (t_state t) i (act_position_before r);
  av_after : cell_at (t_state t') i (act_position_after r);
  av_work_before : act_work_before r = work (t_ctx t);
  av_work_after : act_work_after r = work (t_ctx t');
  av_budget : act_work_before r <= act_work_after r <= act_work_before r + limit;
  av_signals : c_signals (t_ctx t) `prefix_of` c_signals (t_ctx t');
  av_rollback : forall st, stop = Some st ->
    t_state t' = t_state t /\ c_signals (t_ctx t') = c_signals (t_ctx t) /\
    act_success r = false /\
    act_error r = Some (match st with StopFuel => FuelExhaustedError
                                    | StopActivation => ActivationLimitError end);
  av_rule : stop = None ->
    act_rule r = ((fun kr => N.of_nat kr.1) <$> choice w p (t_state t) i) /\
    act_action r = selected_action (choice w p (t_state t) i);
  av_error : stop = None ->
    act_success r = true /\ act_error r = None \/
    act_success r = false /\ exists e, act_error r = Some (ActionFailed e);
}.

Lemma ctx_ok_begin base W0 k limit :
  ctx_ok F None base W0 k -> limit < 2 ^ 32 ->
  begin_activation limit (c_meter k) =
    (Ok tt, mkMeter (ledger (c_meter k)) (fuel (c_meter k)) (Some (work k, limit))) /\
  ctx_ok F (Some (work k, limit)) (c_signals k) (work k)
    (mkCtx (mkMeter (ledger (c_meter k)) (fuel (c_meter k)) (Some (work k, limit))) (c_signals k)).
Proof.
  intros [Hm Hf _ Hb H0] Hl. destruct (begin_activation_ok limit _ Hm Hl) as [E Hm'].
  split; [exact E|]. by split.
Qed.

Lemma ctx_ok_end base W0 k k' W limit :
  ctx_ok F None base W0 k -> ctx_ok F (Some (W, limit)) (c_signals k) (work k) k' ->
  W = work k ->
  ctx_ok F None base W0 (mkCtx (end_activation (c_meter k')) (c_signals k')) /\
  c_signals k `prefix_of` c_signals k' /\ work k <= work k' <= work k + limit.
Proof.
  intros [Hm Hf _ Hb H0] [Hm' Hf' Hwn' Hb' H0'] ->. split.
  - split; simpl; try done; [by apply end_activation_inv|by etrans|].
    unfold work in *. simpl. lia.
  - split; [done|]. destruct (mi_window _ Hm' _ _ Hwn') as (? & ? & ?).
    unfold work in *. lia.
Qed.

Lemma wp_turn_total win base W0 (Q : N -> TurnEnv -> Prop) R t :
  ctx_ok F win base W0 (t_ctx t) -> Q (work (t_ctx t)) t -> wp turn_total Q R t.
Proof.
  intros [Hm _ _ _ _] HQ. unfold turn_total. wp_steps. by rewrite (meter_total_ok _ Hm).
Qed.

Lemma wp_turn_cell view i c (Q : CellState -> TurnEnv -> Prop) R t :
  st_cells (view t) !! i = Some c -> Q c t -> wp (turn_cell view i) Q R t.
Proof. intros Hc HQ. unfold turn_cell. wp_steps. unfold index. by rewrite Hc. Qed.

(** The body of an activation as a rule. *)
Lemma wp_turn_body win base W0 p i rec (Q : res Fault unit * Activation -> TurnEnv -> Prop) R t :
  program_wf p -> state_ok w (t_state t) -> (i < length (cells w))%nat ->
  env_ok w F win base W0 (mkEnv (t_ctx t) (t_scratch t)) ->
  (forall result e rec', env_ok w F win base W0 e ->
     (forall err, result <> Err (FInternal err)) -> result <> Panic ->
     ((exists st, result = Err (FStop st)) /\ rec' = rec \/ rec' = chosen w p (t_state t) i rec) ->
     Q (result, rec') (mkTurn (e_ctx e) (t_state t) (e_state e))) ->
  wp (turn_body w p i rec) Q R t.
Proof.
  intros Hp Hs Hi He HQ.
  pose proof (run_activation_ok win base W0 p (t_state t) i (mkRunEnv (mkEnv (t_ctx t) (t_scratch t)) rec)
    Hp Hs Hi He) as H.
  unfold wp, turn_body, run_fault in *. simpl in H.
  destruct (run_activation _ _ _ _ _) as [[[]|f|] [e rec']]; simpl in *; [| |done].
  - destruct H. apply HQ; auto; done.
  - destruct f as [st|err|err]; destruct H as [? Hrec]; [| |done].
    + apply HQ; [done|done|done|]. destruct Hrec; eauto.
    + apply HQ; auto; done.
Qed.

Definition fresh_record (cell : CellState) (W : N) : Activation :=
  mkActivation (cel_id cell) None Wait false None (cel_position cell) (cel_position cell) W W.

(** Commit: the scratch state becomes the state. *)
Lemma activated_commit limit p i k s sc cell k' s1 cell1 success error :
  st_cells s !! i = Some cell -> st_cells s1 !! i = Some cell1 ->
  c_signals k `prefix_of` c_signals k' -> work k <= work k' <= work k + limit ->
  (success = true /\ error = None \/
   success = false /\ exists e, error = Some (ActionFailed e)) ->
  activated limit p i (mkTurn k s sc)
    (finish success error (cel_position cell1) (work k')
       (chosen w p s i (fresh_record cell (work k)))) None (mkTurn k' s1 s).
Proof. intros. split; simpl; try done; by eexists. Qed.

Lemma take_prefix {A} (l k : list A) : l `prefix_of` k -> take (length l) k = l.
Proof. intros [r ->]. by rewrite take_app_length. Qed.

(** Rollback: state and signal log are those before the activation. *)
Lemma activated_rollback limit p i k s sc cell k' s1 st rec :
  st_cells s !! i = Some cell -> c_signals k `prefix_of` c_signals k' ->
  work k <= work k' <= work k + limit ->
  rec = fresh_record cell (work k) \/ rec = chosen w p s i (fresh_record cell (work k)) ->
  activated limit p i (mkTurn k s sc)
    (finish false (Some (match st with StopFuel => FuelExhaustedError
                                     | StopActivation => ActivationLimitError end))
       (cel_position cell) (work k') rec)
    (Some st)
    (mkTurn (mkCtx (c_meter k') (take (length (c_signals k)) (c_signals k'))) s s1).
Proof.
  intros Hc Hpre Hw' Hrec. rewrite (take_prefix _ _ Hpre).
  destruct Hrec as [-> | ->]; split; simpl; try done; try (by eexists);
    by intros ? [= <-].
Qed.

Lemma turn_ok_rollback base W0 k k' s s1 :
  ctx_ok F None base W0 k -> ctx_ok F None base W0 k' ->
  c_signals k `prefix_of` c_signals k' -> work k <= work k' ->
  state_ok w s -> aligned s1 -> st_next_signal s <= 1 + work k ->
  turn_ok base W0
    (mkTurn (mkCtx (c_meter k') (take (length (c_signals k)) (c_signals k'))) s s1).
Proof.
  intros [] [] Hpre Hle Hs Hal Hn. rewrite (take_prefix _ _ Hpre).
  split; simpl; [by split|done| |done]. unfold work in *. simpl. lia.
Qed.

Lemma activate_ok c p i base W0 t :
  program_wf p -> (i < length (cells w))%nat -> activation_fuel c < 2 ^ 32 -> turn_ok base W0 t ->
  wp (activate w c p i)
     (fun '(r, stop) t' => turn_ok base W0 t' /\ activated (activation_fuel c) p i t r stop t')
     (fun _ _ => False) t.
Proof.
  intros Hp Hi Hfuel [Hk Hs Hn Hal]. destruct t as [k s sc]. simpl in *.
  destruct (cell_lookup w s i Hs Hi) as [cell Hc]. unfold activate. wp_steps.
  eapply wp_turn_cell; [done|]. wp_steps. eapply wp_turn_total; [exact Hk|]. wp_steps.
  fold (fresh_record cell (work k)).
  destruct (ctx_ok_begin base W0 k (activation_fuel c) Hk Hfuel) as [Eb Hkb].
  unfold ctx_begin_activation. wp_steps. unfold wp at 1. simpl. rewrite Eb. simpl. wp_steps. simpl.
  rewrite (copy_from_aligned sc s) by done.
  eapply wp_turn_body; try done; simpl.
  intros result [k1 s1] rec (Hk1 & Hs1 & Hn1) Hni Hnp Hrec. simpl in *.
  destruct (ctx_ok_end _ _ _ _ _ _ Hk Hk1 eq_refl) as (Hke & Hpre & Hle & Hbud).
  set (k' := mkCtx (end_activation (c_meter k1)) (c_signals k1)) in *.
  assert (Hwk : work k' = work k1) by done.
  wp_steps. simpl. fold k'. eapply wp_turn_total; [exact Hke|]. simpl.
  destruct (cell_lookup w s1 i Hs1 Hi) as [cell1 Hc1].
  assert (Hgood : turn_ok base W0 (mkTurn k' s1 s)).
  { split; simpl; [done|done|by rewrite Hwk|by apply state_aligned]. }
  destruct result as [[]|[st|e|e]|]; try done; simpl; wp_steps.
  - eapply wp_turn_cell; [exact Hc1|]. wp_steps. split; [done|].
    destruct Hrec as [[[? ?] _]| ->]; [done|]. apply activated_commit; auto.
  - split; [by apply turn_ok_rollback; try done; apply state_aligned|].
    apply activated_rollback; try done. destruct Hrec as [[_ ->]| ->]; auto.
  - eapply wp_turn_cell; [exact Hc1|]. wp_steps. split; [done|].
    destruct Hrec as [[[? ?] _]| ->]; [done|]. apply activated_commit; eauto.
  - by eapply Hni.
Qed.
End Activation.

(** Ticks: expiry, scheduled events, deliveries, activations, draining.  No
    phase panics or fails internally; every phase keeps the state invariant,
    also when the fuel ends in its middle. *)

Section Ticks.
Context (w : World) (Hw : world_ok w) (Hty : ids_typed (spec w)).
Context (F : N) (HF : F <= MAX_FUEL).

(** Between activations no window is open. *)
Notation ctx_ok := (ctx_ok F None [] 0).
Notation env_ok := (env_ok w F None [] 0).

(** The errors of a tick phase: only a stop, on a legal state. *)
Definition stop_post (f : Fault) (e : Env) : Prop :=
  match f with FStop _ => env_ok e | _ => False end.

Lemma wp_tick_charge c n (Q : unit -> Env -> Prop) k s :
  env_ok (mkEnv k s) ->
  (forall k', env_ok (mkEnv k' s) -> Q tt (mkEnv k' s)) ->
  wp (env_charge c n) Q stop_post (mkEnv k s).
Proof. intros He HQ. by eapply (wp_charge_stop w F HF None [] 0). Qed.

Lemma env_ok_signal e g o :
  env_ok e -> env_ok (mkEnv (mkCtx (c_meter (e_ctx e)) (c_signals (e_ctx e) ++ [mkSignalEvent g o]))
                        (e_state e)).
Proof. intros (? & ? & ?). split; [by apply ctx_ok_push|]. by split. Qed.

(** ** Expiry *)

Definition port_empty (s : State) (i p : nat) : Prop :=
  forall c, st_cells s !! i = Some c -> cel_inbox c !! p = Some None.

Lemma expire_port_ok i p k s :
  env_ok (mkEnv k s) -> (i < length (cells w))%nat -> (p < 4)%nat ->
  wp (expire_port i p)
     (fun _ e => env_ok e /\ port_empty (e_state e) i p /\
        forall j q, port_empty s j q -> port_empty (e_state e) j q)
     stop_post (mkEnv k s).
Proof.
  intros He Hi Hp. pose proof He as (_ & Hs & _). simpl in Hs.
  destruct (cell_lookup w s i Hs Hi) as [c Hc].
  destruct (cell_fields w s i c Hs Hc) as (_ & _ & Hin & _).
  destruct (lookup_four _ _ Hin Hp) as [o Eo].
  unfold expire_port. wp_steps. eapply wp_the_cell; [done|]. unfold index. wp_steps. rewrite Eo.
  destruct o as [g|]; wp_steps.
  2: { split; [done|]. split; [|done]. intros c' Hc'. simpl in Hc'. congruence. }
  apply wp_tick_charge; [done|]. intros k1 He1. wp_steps. unfold push_signal. wp_steps.
  apply wp_update. pose proof (env_ok_signal _ g Expired He1) as (Hk & _ & Hn). simpl in *.
  split; [split; [done|split; [by apply state_ok_clear_port|done]]|]. simpl.
  assert (Hset : forall j q c', port_empty s j q \/ (j = i /\ q = p) ->
    alter (fun c => set_inbox (<[p:=None]> (cel_inbox c)) c) i (st_cells s) !! j = Some c' ->
    cel_inbox c' !! q = Some None).
  { intros j q c' Hjq Hc'. destruct (decide (i = j)) as [<-|Hij].
    - rewrite list_lookup_alter_eq, Hc in Hc'. injection Hc' as <-. simpl.
      destruct (decide (p = q)) as [<-|Hpq]; [rewrite list_lookup_insert_eq; [done|lia]|].
      rewrite list_lookup_insert_ne by done. destruct Hjq as [Hjq|[_ ->]]; [by apply Hjq|done].
    - rewrite list_lookup_alter_ne in Hc' by done.
      destruct Hjq as [Hjq|[-> _]]; [by apply Hjq|done]. }
  split; [intros c' Hc'; by apply (Hset i p); auto|].
  intros j q Hjq c' Hc'. by apply (Hset j q); auto.
Qed.

(** Old inboxes are transient: after the expiry every port is empty. *)
Lemma expire_inboxes_ok k s :
  env_ok (mkEnv k s) ->
  wp expire_inboxes
     (fun _ e => env_ok e /\ forall i p, (i < length (cells w))%nat -> (p < 4)%nat ->
                   port_empty (e_state e) i p)
     stop_post (mkEnv k s).
Proof.
  intros He. pose proof He as (_ & Hs & _). simpl in Hs.
  unfold expire_inboxes. wp_steps. apply wp_state. rewrite (cells_length w s Hs).
  eapply wp_mono; [apply (wp_for_range _ (fun n e => env_ok e /\
    forall i p, (i < n)%nat -> (p < 4)%nat -> port_empty (e_state e) i p) stop_post)| |done].
  - split; [done|]. lia.
  - intros i [k1 s1] [_ Hi] [He1 Hall]. simpl in Hi, Hall.
    pose proof He1 as (_ & Hs1 & _). simpl in Hs1.
    destruct (cell_lookup w s1 i Hs1 Hi) as [c Hc].
    destruct (cell_fields w s1 i c Hs1 Hc) as (_ & _ & Hin & _).
    wp_steps. eapply wp_the_cell; [done|]. rewrite Hin.
    eapply wp_mono; [apply (wp_for_range _ (fun n e => env_ok e /\
      (forall j p, (j < i)%nat -> (p < 4)%nat -> port_empty (e_state e) j p) /\
      (forall p, (p < n)%nat -> port_empty (e_state e) i p)) stop_post)| |done].
    + split; [done|]. split; [done|]. lia.
    + intros p [k2 s2] [_ Hp] (He2 & H1 & H2).
      eapply wp_mono; [by apply expire_port_ok| |done].
      intros _ e (He3 & Hip & Hmono). split; [done|]. split; [auto|].
      intros q Hq. destruct (decide (q = p)) as [->|]; [done|]. apply Hmono, H2. lia.
    + simpl. intros _ e (He3 & H1 & H2). split; [done|].
      intros j p Hj Hp. destruct (decide (j = i)) as [->|]; [by apply H2|].
      apply H1; [lia|done].
  - simpl. intros _ e [? H]. auto.
Qed.

(** ** Scheduled events *)

Lemma state_ok_links s i b :
  state_ok w s ->
  state_ok w (set_links (alter (fun l => mkEnabledState (es_id l) b) i (st_links s)) s).
Proof.
  intros [[] ?]. split; [split; try done|done]. simpl. by rewrite fmap_alter_same.
Qed.

Lemma state_ok_valves s i b :
  state_ok w s ->
  state_ok w (set_valves (alter (fun l => mkEnabledState (es_id l) b) i (st_valves s)) s).
Proof.
  intros [[] ?]. split; [split; try done|done]. simpl. by rewrite fmap_alter_same.
Qed.

Lemma apply_event_ok ev k s :
  env_ok (mkEnv k s) -> event_target_known w ev ->
  wp (apply_event ev) (fun _ => env_ok) stop_post (mkEnv k s).
Proof.
  intros He Hev. pose proof He as (_ & Hs & _). simpl in Hs.
  unfold apply_event. wp_steps. apply wp_state. unfold internal.
  destruct ev as [id b|id b|cell]; simpl in Hev; wp_steps;
    (apply wp_tick_charge; [done|]); intros k1 (Hk1 & _ & Hn1); wp_steps.
  - rewrite <- (so_links _ _ Hs) in Hev. destruct (position_key es_id _ _ Hev) as (i & x & -> & _).
    simpl. apply wp_update. split; [done|]. split; [by apply state_ok_links|done].
  - rewrite <- (so_valves _ _ Hs) in Hev.
    destruct (position_key es_id _ _ Hev) as (i & x & -> & _).
    simpl. apply wp_update. split; [done|]. split; [by apply state_ok_valves|done].
  - rewrite <- (cells_ids w s Hs) in Hev.
    destruct (position_key cel_id _ _ Hev) as (i & x & -> & _).
    simpl. apply wp_update. split; [done|]. split; [|done].
    apply state_ok_upd_cell; try done. intros b c _ _ []. split; try done. simpl.
    by repeat constructor.
Qed.

(** ** Deliveries *)

Lemma state_ok_unqueue s i : state_ok w s -> state_ok w (set_pending (delete i (st_pending s)) s).
Proof.
  intros [[] ?]. split; [split; try done|done]; simpl.
  - by apply Forall_delete.
  - unfold len in *. rewrite delete_take_drop, length_app, length_take, length_drop. lia.
Qed.

Lemma state_ok_inbox s i p g :
  state_ok w s -> signal_ok w g ->
  state_ok w (upd_cell i (fun c => set_inbox (<[p := Some g]> (cel_inbox c)) c) s).
Proof.
  intros Hs Hg. apply state_ok_upd_cell; try done.
  - intros b c _ _ []. split; simpl; try done. by rewrite length_insert.
  - intros c _ Hc. apply Forall_insert; [done|]. by intros ? [= <-].
Qed.

Lemma deliver_signal_ok i g k s :
  env_ok (mkEnv k s) -> st_pending s !! i = Some g ->
  wp (deliver_signal w i g)
     (fun _ e => env_ok e /\ st_pending (e_state e) = delete i (st_pending s))
     stop_post (mkEnv k s).
Proof.
  intros He Hg. unfold deliver_signal. wp_steps. apply wp_tick_charge; [done|]. intros k1 He1.
  wp_steps. apply wp_tick_charge; [done|]. intros k2 (Hk2 & Hs & Hn2). simpl in Hs, Hk2, Hn2.
  wp_steps. apply wp_update. wp_steps. apply wp_state.
  pose proof (so_pending _ _ Hs) as Hp. rewrite Forall_lookup in Hp.
  destruct (Hp i g Hg) as [Hl Hf Ht Hport].
  set (s1 := set_pending _ s). assert (Hs1 : state_ok w s1) by by apply state_ok_unqueue.
  rewrite <- (so_links _ _ Hs) in Hl. destruct (find_key es_id _ _ Hl) as (l & El & _).
  unfold internal. wp_steps. change (st_links s1) with (st_links s). rewrite El. simpl. wp_steps.
  rewrite <- (cells_ids w s1 Hs1) in Ht.
  destruct (position_key cel_id _ _ Ht) as (j & c & Ej & Hc & _). change (st_cells s) with (st_cells s1) in *. rewrite Ej. simpl. wp_steps.
  destruct (origin_position_ok w s1 _ Hs1 Hf) as [p ->]. simpl. wp_steps.
  eapply wp_the_cell; [done|].
  assert (Hdone : forall o, env_ok (mkEnv (mkCtx (c_meter k2)
    (c_signals k2 ++ [mkSignalEvent g o])) s1) /\ st_pending s1 = delete i (st_pending s)).
  { intros o. split; [|done]. apply (env_ok_signal (mkEnv k2 s1)). by split. }
  unfold push_signal. destruct (negb (es_enabled l)); [wp_steps; apply Hdone|].
  destruct (negb _); [wp_steps; apply Hdone|].
  destruct (cell_fields w s1 j c Hs1 Hc) as (_ & _ & Hin & _).
  destruct (lookup_four _ _ Hin (port_index_lt _ Hport)) as [o Eo].
  unfold index. wp_steps. rewrite Eo. destruct (bool_decide _); [wp_steps; apply Hdone|].
  wp_steps. apply wp_update. wp_steps. split; [|done].
  match goal with |- context [upd_cell j ?f s1] => apply (env_ok_signal (mkEnv k2 (upd_cell j f s1))) end.
  split; [done|]. split; [|done]. apply state_ok_inbox; [done|].
  exact (Hp i g Hg).
Qed.

(** The queue after the deliveries of a tick: the signals not yet due, in order. *)
Definition not_due (tick : N) (l : list Signal) : list Signal :=
  filter (fun g => tick < sig_deliver_tick g) l.

(** Every iteration shortens the part of the queue past the index, so its
    length is enough fuel. *)
Lemma deliver_loop_ok tick n i k s :
  env_ok (mkEnv k s) -> (length (st_pending s) - i <= n)%nat -> (i <= length (st_pending s))%nat ->
  wp (deliver_loop w tick n i)
     (fun _ e => env_ok e /\
        st_pending (e_state e) = take i (st_pending s) ++ not_due tick (drop i (st_pending s)))
     stop_post (mkEnv k s).
Proof.
  revert i k s. induction n as [|n IH]; intros i k s He Hn Hi; simpl;
    wp_steps; apply wp_state; destruct (st_pending s !! i) as [g|] eqn:Eg; wp_steps.
  - apply lookup_lt_Some in Eg. lia.
  - split; [done|]. apply lookup_ge_None in Eg. simpl. rewrite drop_ge, take_ge by done.
    unfold not_due. by rewrite filter_nil, app_nil_r.
  - pose proof (lookup_lt_Some _ _ _ Eg) as Hlt. rewrite (drop_S _ g i Eg). unfold not_due.
    destruct (N.ltb_spec tick (sig_deliver_tick g)) as [Hd|Hd].
    + eapply wp_mono; [apply IH; [done|lia|lia]| |done]. intros _ e [He' E].
      split; [done|]. rewrite E, (take_S_r _ _ g Eg), filter_cons_True by done.
      by rewrite <- app_assoc.
    + wp_steps. eapply wp_mono; [by apply deliver_signal_ok| |done].
      intros _ [k1 s1] [He1 E1]. simpl in E1. rewrite filter_cons_False by lia.
      assert (Hl : length (st_pending s1) = (length (st_pending s) - 1)%nat).
      { rewrite E1, length_delete; [lia|done]. }
      eapply wp_mono; [apply IH; [done|lia|lia]| |done]. intros _ e [He' E].
      split; [done|]. rewrite E, E1, delete_take_drop.
      rewrite take_app_le by (rewrite length_take; lia). rewrite take_take, Nat.min_id.
      rewrite drop_app_ge by (rewrite length_take; lia).
      by rewrite length_take, Nat.min_l, Nat.sub_diag by lia.
  - split; [done|]. apply lookup_ge_None in Eg. simpl. rewrite drop_ge, take_ge by done.
    unfold not_due. by rewrite filter_nil, app_nil_r.
Qed.

Lemma deliver_due_ok tick k s :
  env_ok (mkEnv k s) ->
  wp (deliver_due w tick)
     (fun _ e => env_ok e /\ st_pending (e_state e) = not_due tick (st_pending s))
     stop_post (mkEnv k s).
Proof.
  intros He. unfold deliver_due. wp_steps. apply wp_state. apply deliver_loop_ok; [done|lia|lia].
Qed.

(** ** Draining *)

Lemma state_ok_beacon s i e e' :
  state_ok w s -> st_beacons s !! i = Some e -> bs_id e' = bs_id e ->
  bs_delivered e' = bs_delivered e -> bs_charge e' + bs_drained e' = bs_charge e + bs_drained e ->
  state_ok w (upd_beacon i e' s).
Proof.
  intros [Hsh Hc] He Hid Hdel Hbal. split; [|done]. destruct Hsh. split; try done; simpl.
  - rewrite insert_alter. apply Forall2_alter_r'; [done|].
    intros b x Hb Hx [H1 H2]. rewrite He in Hx. injection Hx as <-.
    split; [congruence|]. rewrite Hdel. lia.
  - unfold deliveries in *. simpl. rewrite insert_alter, fmap_alter_same; [done|].
    intros x Hx. rewrite He in Hx. by injection Hx as <-.
Qed.

Lemma drain_beacon_ok tick i b k s :
  env_ok (mkEnv k s) -> beacons w !! i = Some b ->
  wp (drain_beacon tick (i, b)) (fun _ => env_ok) stop_post (mkEnv k s).
Proof.
  intros He Hb. unfold drain_beacon. wp_steps. apply wp_tick_charge; [done|]. intros k1 He1.
  destruct (beacon_params w i b Hw Hb) as (_ & Hev & _).
  rewrite (proj2 (N.eqb_neq _ _)) by lia. destruct (negb _); wp_steps; [done|].
  apply wp_tick_charge; [done|]. intros k2 (Hk2 & Hs & Hn2). simpl in Hs, Hk2, Hn2.
  wp_steps. apply wp_state.
  destruct (beacon_lookup w s i b Hs Hb) as (e & He' & _). unfold index. rewrite He'. wp_steps.
  pose proof (beacon_energy_bound w s i b e Hw Hs Hb He').
  set (d := N.min (bs_charge e) (bea_drain_amount b)).
  assert (Hd : d <= bs_charge e) by (unfold d; lia).
  rewrite checked_sub_ok by done. simpl. wp_steps. apply wp_update.
  unfold checked_add_fault. wp_steps. rewrite checked_add_ok by lia. simpl. wp_steps.
  apply wp_update. split; [done|]. split; [|done]. simpl.
  set (e1 := mkBeaconState (bs_id e) (bs_charge e - d) (bs_delivered e) (bs_drained e) _).
  set (e2 := mkBeaconState _ _ _ _ _).
  replace (upd_beacon i e2 (upd_beacon i e1 s)) with (upd_beacon i e2 s)
    by (unfold upd_beacon, set_beacons; simpl; by rewrite list_insert_insert_eq).
  eapply state_ok_beacon; [done|done|done|done|]. simpl. lia.
Qed.
End Ticks.
