(* ===== verification/Runs.v ===== *)
(** Runs of the machine, and the order in which signals are due. *)
From stdpp Require Import sorting.
From S2P Require Import Prelude Meter Language World WorldFacts Machine MachineInv Actions Ticks.

(** Whole ticks and whole runs: the machine invariant, the fuel bound, the
    frames an observer sees. *)

Section Runs.
Context (w : World) (Hw : world_ok w) (Hty : ids_typed (spec w)).
Context (c : Case) (Hc : case_ok w c) (a : Assignment) (Ha : assignment_ok w a).

Notation F := (case_fuel c).
Notation env_ok := (env_ok w F None [] 0).
Notation stop_post := (stop_post w F).

Lemma fuel_bound : F <= MAX_FUEL.
Proof. apply Hc. Qed.

Lemma limit_bound : activation_fuel c < 2 ^ 32.
Proof. pose proof (co_activation _ _ Hc). lia. Qed.

Definition cell_ids : list N := cb_id <$> cells w.

Record machine_ok (m : Machine) : Prop := {
  mo_env : env_ok (env_of m);
  mo_scratch : aligned w (m_scratch m);
  mo_sparks : m_initial_sparks m = len (all_sparks (spec w));
  mo_cells : m_cell_count m = len (cells w);
  mo_beacons : m_beacon_count m = len (beacons w);
  mo_status : m_status m <> FuelExhausted;
}.

(** A stop in the middle of a tick: still a legal machine. *)
Definition tick_stop (f : Fault) (m : Machine) : Prop :=
  match f with FStop _ => machine_ok m | _ => False end.

Lemma env_of_with_env e m : env_of (with_env e m) = e.
Proof. by destruct e as [[]]. Qed.

Lemma machine_ok_env e m : machine_ok m -> env_ok e -> machine_ok (with_env e m).
Proof. intros [] He. split; try done. by rewrite env_of_with_env. Qed.

(** Everything of the machine but context and state. *)
Definition same_log (m m' : Machine) : Prop :=
  m_activations m' = m_activations m /\ m_events m' = m_events m /\ m_order m' = m_order m.

Lemma wp_on_machine (body : eff Env Fault unit) (Q : unit -> Machine -> Prop) m :
  machine_ok m ->
  wp body (fun _ e => env_ok e -> Q tt (with_env e m)) stop_post (env_of m) ->
  wp body (fun _ => env_ok) stop_post (env_of m) ->
  wp (on_machine body) Q tick_stop m.
Proof.
  intros Hm HQ He. unfold on_machine. apply wp_zoom.
  eapply wp_mono; [exact (wp_and _ _ _ _ _ _ HQ He)| |]; simpl.
  - intros [] e [H1 H2]. auto.
  - intros f e [H _]. destruct f; simpl in H; [|done..]. by apply machine_ok_env.
Qed.

(** A phase that keeps the environment invariant. *)
Lemma wp_phase (body : eff Env Fault unit) (Q : unit -> Machine -> Prop) m :
  machine_ok m -> wp body (fun _ => env_ok) stop_post (env_of m) ->
  (forall m', machine_ok m' -> same_log m m' -> Q tt m') ->
  wp (on_machine body) Q tick_stop m.
Proof.
  intros Hm He HQ. apply wp_on_machine; [done| |done].
  eapply wp_mono; [exact He| |done]. intros [] e _ He'. apply HQ; [by apply machine_ok_env|done].
Qed.

Lemma wp_charge_phase cat n (Q : unit -> Machine -> Prop) m :
  machine_ok m -> (forall m', machine_ok m' -> same_log m m' -> Q tt m') ->
  wp (on_machine (env_charge cat n)) Q tick_stop m.
Proof.
  intros Hm HQ. apply wp_phase; [done| |done]. pose proof (mo_env _ Hm) as He.
  destruct (env_of m) as [k s]. apply (wp_tick_charge w F fuel_bound); auto.
Qed.

Lemma machine_ok_push_event ev m : machine_ok m -> machine_ok (push_event ev m).
Proof. intros []. by split. Qed.

(** The events of a tick, in declaration order. *)
Lemma events_ok tick m :
  machine_ok m ->
  wp (for_each run_event (filter (fun e => ev_tick e = tick) (events c)))
     (fun _ m' => machine_ok m' /\ m_activations m' = m_activations m /\ m_order m' = m_order m /\
        m_events m' = m_events m ++ (ev_event <$> filter (fun e => ev_tick e = tick) (events c)))
     tick_stop m.
Proof.
  intros Hm. apply (wp_for_prefix _ (fun before m' => machine_ok m' /\
    m_activations m' = m_activations m /\ m_order m' = m_order m /\
    m_events m' = m_events m ++ (ev_event <$> before))).
  - split; [done|]. by rewrite app_nil_r.
  - intros before e after m1 Hl (Hm1 & E1 & E2 & E3). unfold run_event. wp_steps.
    apply wp_charge_phase; [done|]. intros m2 Hm2 (F1 & F2 & F3). wp_steps.
    apply wp_phase; [done| |].
    + pose proof (mo_env _ Hm2) as He. destruct (env_of m2) as [k s].
      apply apply_event_ok; [apply fuel_bound|done|].
      assert (Hin : e ∈ events c).
      { assert (H : e ∈ filter (fun e => ev_tick e = tick) (events c)) by (rewrite Hl; apply elem_of_app; right; left).
        by apply list_elem_of_filter in H as [_ ?]. }
      pose proof (co_targets _ _ Hc) as Hf. rewrite Forall_forall in Hf. by apply Hf.
    + intros m3 Hm3 (G1 & G2 & G3). wp_steps.
      split; [by apply machine_ok_push_event|]. simpl. rewrite fmap_app, app_assoc. simpl.
      repeat split; congruence.
Qed.

(** ** Activations of a tick *)

Definition record_ok (r : Activation) : Prop :=
  act_work_before r <= act_work_after r <= act_work_before r + activation_fuel c /\
  act_work_after r <= F.

Definition add_record (id : N) (m m' : Machine) : Prop :=
  m_order m' = m_order m /\ m_events m' = m_events m /\
  exists r, m_activations m' = m_activations m ++ [r] /\ act_cell r = id /\ record_ok r.

Lemma turn_ok_of m : machine_ok m -> turn_ok w F [] 0 (turn_of m).
Proof. intros [(? & ? & ?) ? _ _ _ _]. by split. Qed.

Lemma machine_ok_turn t m : machine_ok m -> turn_ok w F [] 0 t -> machine_ok (with_turn t m).
Proof.
  intros [] [? ? ? ?]. destruct t as [[mt sg] s sc]. by split.
Qed.

Lemma machine_ok_activation r m : machine_ok m -> machine_ok (push_activation r m).
Proof. intros []. by split. Qed.

Lemma machine_ok_limit m : machine_ok m -> machine_ok (set_status ActivationLimit m).
Proof. intros []. by split. Qed.

Lemma activated_record p i t r stop t' :
  activated w (activation_fuel c) p i t r stop t' -> turn_ok w F [] 0 t' -> record_ok r.
Proof.
  intros [] [Hk _ _ _]. apply work_le in Hk; [|apply fuel_bound..].
  unfold record_ok. lia.
Qed.

Lemma activate_cell_ok id m :
  machine_ok m -> id ∈ cell_ids ->
  wp (activate_cell w a c id) (fun _ m' => machine_ok m' /\ add_record id m m') tick_stop m.
Proof.
  intros Hm Hid. pose proof (mo_env _ Hm) as (Hk & Hs & Hn). unfold activate_cell, internal.
  wp_steps. unfold cell_ids in Hid. simpl in Hs.
  rewrite <- (cells_ids w _ Hs) in Hid.
  destruct (position_key cel_id _ _ Hid) as (i & cell & -> & Hcell & Eid). simpl. wp_steps.
  assert (Hi : (i < length (cells w))%nat).
  { rewrite <- (cells_length w _ Hs). by eapply lookup_lt_Some. }
  destruct (lookup_lt_is_Some_2 (programs a) i) as [p Ep].
  { by rewrite (ao_programs _ _ Ha). }
  rewrite Ep. simpl.
  assert (Hp : program_wf p) by (by eapply Forall_lookup_1; [apply Ha|]).
  wp_steps. eapply wp_mono.
  { apply (activate_ok w Hw Hty F fuel_bound c p i [] 0); [done|done|apply limit_bound|].
    by apply turn_ok_of. }
  2: { done. }
  intros [r stop] t' [Ht Hact]. wp_steps.
  assert (Hm' : machine_ok (push_activation r (with_turn t' m)))
    by (by apply machine_ok_activation, machine_ok_turn).
  assert (Hadd : add_record id m (push_activation r (with_turn t' m))).
  { split; [done|]. split; [done|]. exists r. split; [done|].
    destruct (av_cell _ _ _ _ _ _ _ _ Hact) as (c0 & Hc0 & ->). simpl in Hc0.
    rewrite Hcell in Hc0. injection Hc0 as <-. split; [done|].
    by eapply activated_record. }
  destruct stop as [[|]|]; wp_steps; [done| |done].
  split; [by apply machine_ok_limit|done].
Qed.

Lemma activations_ok m :
  machine_ok m -> (forall id, id ∈ m_order m -> id ∈ cell_ids) ->
  wp (for_each (activate_cell w a c) (m_order m))
     (fun _ m' => machine_ok m' /\ m_order m' = m_order m /\ m_events m' = m_events m /\
        exists rs, m_activations m' = m_activations m ++ rs /\ act_cell <$> rs = m_order m /\
                   Forall record_ok rs) tick_stop m.
Proof.
  intros Hm Hids. apply (wp_for_prefix _ (fun before m' => machine_ok m' /\
    m_order m' = m_order m /\ m_events m' = m_events m /\
    exists rs, m_activations m' = m_activations m ++ rs /\ act_cell <$> rs = before /\
               Forall record_ok rs)).
  - split; [done|]. split; [done|]. split; [done|]. exists []. by rewrite app_nil_r.
  - intros before id after m1 Hl (Hm1 & E1 & E2 & rs & E3 & E4 & E5).
    eapply wp_mono; [apply activate_cell_ok; [done|]| |done].
    { apply Hids. rewrite Hl. apply elem_of_app. right. left. }
    intros _ m2 (Hm2 & F1 & F2 & r & F3 & <- & F5).
    split; [done|]. split; [congruence|]. split; [congruence|]. exists (rs ++ [r]).
    rewrite F3, E3, fmap_app, E4, app_assoc. split; [done|]. split; [done|].
    by apply Forall_app, conj, Forall_singleton.
Qed.

Lemma draining_ok tick k s :
  env_ok (mkEnv k s) ->
  wp (for_each (drain_beacon tick) (enumerate (beacons w))) (fun _ => env_ok) stop_post (mkEnv k s).
Proof.
  intros He. apply wp_for_each; [done|]. intros [i b] [k1 s1] Hin He1.
  unfold enumerate in Hin. apply elem_of_lookup_imap in Hin as (j & b' & [= -> ->] & Hb).
  by apply (drain_beacon_ok w Hw F fuel_bound).
Qed.

Lemma end_checking_total m : machine_ok m -> exists n, end_checking m = Ok n.
Proof.
  intros [_ _ H1 H2 H3 _]. unfold end_checking. rewrite H1, H2, H3.
  destruct Hw as [Hv _]. destruct (v_limits _ Hv) as [_ [_ ?] _ _ [_ ?] _ _].
  destruct (v_sparks _ Hv) as [_ Hsp]. unfold MAX_INITIAL_SPARKS in Hsp.
  unfold cells, beacons in *. rewrite checked_add_ok by lia. simpl.
  rewrite checked_add_ok by lia. by eexists.
Qed.

(** A tick that completes: every cell acts exactly once, in schedule order;
    the events applied are the scheduled ones. *)
Record ticked (tick : N) (m m' : Machine) : Prop := {
  ti_ok : machine_ok m';
  ti_order : m_order m' = m_order m;
  ti_cells : act_cell <$> m_activations m' = m_order m;
  ti_records : Forall record_ok (m_activations m');
  ti_events : m_events m' = ev_event <$> filter (fun e => ev_tick e = tick) (events c);
}.

Lemma ticked_log tick m m1 m2 :
  ticked tick m m1 -> machine_ok m2 -> same_log m1 m2 -> ticked tick m m2.
Proof. intros [] Hm (E1 & E2 & E3). split; rewrite ?E1, ?E2; try done. by rewrite E3. Qed.

Lemma tick_ok tick m :
  machine_ok m -> (forall id, id ∈ m_order m -> id ∈ cell_ids) ->
  m_activations m = [] -> m_events m = [] ->
  wp (tick_ w a c tick) (fun _ m' => ticked tick m m') tick_stop m.
Proof.
  intros Hm Hids HA HE. unfold tick_. wp_steps.
  apply wp_charge_phase; [done|]. intros m1 Hm1 (A1 & E1 & O1). wp_steps.
  apply wp_phase; [done| |].
  { pose proof (mo_env _ Hm1) as He. destruct (env_of m1) as [k s].
    eapply wp_mono; [by apply (expire_inboxes_ok w F fuel_bound)| |done]. by intros ? ? []. }
  intros m2 Hm2 (A2 & E2 & O2). wp_steps.
  eapply wp_mono; [by apply events_ok| |done]. intros _ m3 (Hm3 & A3 & O3 & E3). wp_steps.
  apply wp_phase; [done| |].
  { pose proof (mo_env _ Hm3) as He. destruct (env_of m3) as [k s].
    eapply wp_mono; [by apply (deliver_due_ok w F fuel_bound)| |done]. by intros ? ? []. }
  intros m4 Hm4 (A4 & E4 & O4). wp_steps.
  eapply wp_mono; [apply activations_ok; [done|]| |done].
  { intros id. rewrite O4, O3, O2, O1. apply Hids. }
  intros _ m5 (Hm5 & O5 & E5 & rs & A5 & Hcells & Hrs). wp_steps.
  assert (Ht : ticked tick m m5).
  { rewrite A4, A3, A2, A1, HA in A5. rewrite E4, E3, E2, E1, HE in E5. simpl in *.
    split; rewrite ?A5; congruence. }
  apply wp_phase; [done| |].
  { pose proof (mo_env _ Hm5) as He. destruct (env_of m5) as [k s]. by apply draining_ok. }
  intros m6 Hm6 Hlog6. wp_steps. destruct (end_checking_total m6 Hm6) as [n ->]. wp_steps.
  apply wp_charge_phase; [done|]. intros m7 Hm7 Hlog7.
  exact (ticked_log _ _ _ _ (ticked_log _ _ _ _ Ht Hm6 Hlog6) Hm7 Hlog7).
Qed.

(** ** The initial machine *)

Lemma bind_nil {A B} (f : A -> list B) l : (forall x, x ∈ l -> f x = []) -> l ≫= f = [].
Proof.
  induction l as [|x l IH]; intros H; csimpl; [done|]. rewrite (H x) by left.
  apply IH. intros y Hy. apply H. by right.
Qed.

Lemma zip_with_sources l :
  zip_with (fun entry source => mkSourceState (ss_id entry) (ss_sparks entry ++ src_sparks source))
    ((fun s => mkSourceState (src_id s) []) <$> l) l =
  (fun s => mkSourceState (src_id s) (src_sparks s)) <$> l.
Proof. induction l as [|x l IH]; csimpl; [done|]. by rewrite IH. Qed.

Lemma sparks_initial : sparks (initial w) = all_sparks (spec w).
Proof.
  unfold sparks, initial. simpl. rewrite zip_with_sources, app_nil_r.
  rewrite (bind_nil ds_sparks), (bind_nil cargo_list); simpl.
  - rewrite app_nil_r. unfold all_sparks, sources. by induction (ws_sources _); csimpl; [|f_equal].
  - intros x (? & -> & _)%list_elem_of_fmap. done.
  - intros x (? & -> & _)%list_elem_of_fmap. done.
Qed.

Lemma state_ok_initial : state_ok w (initial w).
Proof.
  destruct Hw as [Hv _]. split; [|by rewrite sparks_initial].
  unfold initial, allocated. split; simpl; rewrite ?fmap_app; simpl.
  - done.
  - apply Forall2_fmap_r, Forall_Forall2_diag. pose proof (it_cells _ Hty) as Hf.
    eapply Forall_impl; [exact Hf|]. intros b []. by split.
  - apply Forall_fmap, Forall_forall. intros b _. unfold inbox_ok. simpl. by repeat constructor.
  - rewrite <- list_fmap_compose. apply (v_cells _ Hv).
  - rewrite <- list_fmap_compose. apply (v_cells _ Hv).
  - rewrite zip_with_sources. by rewrite <- list_fmap_compose.
  - apply Forall2_fmap_r, Forall_Forall2_diag. apply Forall_forall. intros d _.
    split; [done|]. unfold len. simpl. lia.
  - apply Forall2_fmap_r, Forall_Forall2_diag. apply Forall_forall. intros b _.
    split; [done|]. simpl. lia.
  - by rewrite <- list_fmap_compose.
  - by rewrite <- list_fmap_compose.
  - constructor.
  - done.
  - unfold deliveries. simpl. rewrite <- list_fmap_compose. unfold len. simpl.
    by induction (beacons w).
Qed.

Lemma count_ok n : n < 2 ^ 64 -> count n = Ok n.
Proof. intros H. unfold count. by rewrite (proj2 (N.ltb_lt _ _)). Qed.

Lemma ids_agree_ok : ids_agree a w = true.
Proof.
  unfold ids_agree. rewrite (ao_cells _ _ Ha). apply negb_true_iff.
  induction (cells w) as [|x l IH]; csimpl; [done|]. by rewrite N.eqb_refl.
Qed.

(** The machine before the first tick. *)
Lemma Machine_new_ok :
  exists m, Machine_new w a c = Ok m /\ m_meter m = meter_new F /\ machine_ok m /\
    m_state m = initial w.
Proof.
  destruct Hw as [Hv _]. destruct (v_limits _ Hv) as [_ [_ Hcl] _ _ [_ Hbl] _ _].
  unfold Machine_new. rewrite ids_agree_ok.
  assert (len (asg_cells a) = len (cells w)) as ->.
  { rewrite (ao_cells _ _ Ha). unfold len. by rewrite length_fmap. }
  rewrite N.eqb_refl. simpl. unfold cells, beacons in *.
  rewrite count_ok by lia. simpl. rewrite count_ok by lia. simpl.
  eexists. split; [done|]. split; [done|]. split; [|done].
  pose proof state_ok_initial as Hs. pose proof (co_fuel _ _ Hc). split; simpl; try done.
  - split; [|split; [done|simpl; lia]]. split; simpl; try done.
    apply meter_new_inv. lia.
  - rewrite (copy_from_aligned w); [by apply (state_aligned w)| |done].
    by split; simpl; rewrite length_fmap.
  - by apply initial_sparks_spec.
Qed.

Lemma initial_checking_total m : machine_ok m -> exists n, initial_checking w c m = Ok n.
Proof.
  intros Hm. destruct Hw as [Hv _].
  destruct (v_limits _ Hv) as [? [? ?] ? ? [? ?] ? ?].
  destruct (v_sparks _ Hv) as [_ Hsp]. unfold MAX_INITIAL_SPARKS in Hsp.
  pose proof (co_events _ _ Hc). pose proof (mo_sparks _ Hm) as E.
  unfold walls, cells, sources, depots, beacons, valves, links in *.
  unfold initial_checking. simpl.
  repeat (rewrite count_ok by (unfold walls, cells, sources, depots, beacons, valves, links; lia);
          simpl; rewrite checked_add_ok by
            (unfold walls, cells, sources, depots, beacons, valves, links; lia); simpl).
  unfold walls, cells, sources, depots, beacons, valves, links.
  rewrite checked_add_ok by lia. by eexists.
Qed.

(** ** The schedule *)

Lemma insert_by_perm key x l : insert_by key x l ≡ₚ x :: l.
Proof.
  induction l as [|y l IH]; simpl; [done|]. destruct (key_le _ _); [done|].
  rewrite IH. apply Permutation_swap.
Qed.

Lemma sort_by_key_perm key l : sort_by_key key l ≡ₚ l.
Proof.
  unfold sort_by_key. induction l as [|x l IH]; simpl; [done|].
  by rewrite insert_by_perm, IH.
Qed.

Lemma begin_tick_order tick m :
  machine_ok m -> m_order (begin_tick c tick m) ≡ₚ cell_ids.
Proof.
  intros Hm. destruct (mo_env _ Hm) as (_ & Hs & _). simpl in *.
  rewrite sort_by_key_perm. unfold cell_ids. by rewrite (cells_ids w _ Hs).
Qed.

Lemma begin_tick_ok tick m :
  machine_ok m -> tick <= MAX_TICKS -> machine_ok (begin_tick c tick m).
Proof.
  intros [(Hk & Hs & Hn) ? ? ? ? ?] Ht. split; try done. split; [|split].
  - destruct Hk as [? ? ? _ ?]. split; try done.
  - destruct Hs as [[] ?]. by split; [split|].
  - exact Hn.
Qed.

(** ** The tick loop *)

(** What every frame an observer sees satisfies; a completed tick ran every
    cell once. *)
Record frame_ok (f : FrameView) : Prop := {
  fk_state : state_ok w (fr_state f);
  fk_work : led_sum (fr_ledger f) <= F;
  fk_cells : fr_complete f = true -> fr_tick f <> 0 ->
    act_cell <$> fr_activations f ≡ₚ cell_ids /\ Forall record_ok (fr_activations f) /\
    fr_events f = ev_event <$> filter (fun e => ev_tick e = fr_tick f) (events c);
}.

Lemma machine_work m : machine_ok m -> led_sum (ledger (m_meter m)) <= F.
Proof. intros [(Hk & _) _ _ _ _ _]. apply (work_le F fuel_bound _ _ _ _ Hk). Qed.

Lemma frame_ok_incomplete tick m : machine_ok m -> frame_ok (frame_of tick false m).
Proof. intros Hm. split; [apply Hm|by apply machine_work|done]. Qed.

Lemma frame_ok_loading b m : machine_ok m -> frame_ok (loading_frame b m).
Proof. intros Hm. split; [apply Hm|by apply machine_work|done]. Qed.

Lemma frame_ok_complete tick m m' :
  machine_ok m -> ticked tick (begin_tick c tick m) m' -> frame_ok (frame_of tick true m').
Proof.
  intros Hm [Hm' _ Hcells Hr He]. split; [apply Hm'|by apply machine_work|].
  intros _ _. simpl. rewrite Hcells. split; [by apply begin_tick_order|done].
Qed.

(** A machine whose run is over, whatever its status. *)
Definition ended (m : Machine) : Prop := machine_ok (set_status Complete m).

Lemma machine_ended m : machine_ok m -> ended m.
Proof. intros []. by split. Qed.

Lemma exhausted_ended m : machine_ok m -> ended (set_status FuelExhausted m).
Proof. intros []. by split. Qed.

Section Observed.
Context {O : Type} (observe : O -> FrameView -> O) (I : O -> Prop).
Context (HI : forall o f, I o -> frame_ok f -> I (observe o f)).

Definition ran_ok (first last : N) (r : res RunError (Machine * N) * O) : Prop :=
  exists m k o, r = (Ok (m, k), o) /\ I o /\ ended m /\ first <= k <= last /\
    (m_status m = FuelExhausted -> k < last) /\ (m_status m <> FuelExhausted -> k = last).

Lemma run_ticks_ok todo m o k :
  machine_ok m -> I o -> Forall (fun t => t <= MAX_TICKS) todo -> k + len todo <= MAX_TICKS ->
  ran_ok k (k + len todo) (run_ticks observe w a c todo m o k).
Proof.
  intros Hm Ho Htodo. revert m o k Hm Ho. induction Htodo as [|tick todo Ht Htodo IH];
    intros m o k Hm Ho Hk; unfold len in *; simpl.
  - exists m, k, o. split; [done|]. split; [done|]. split; [by apply machine_ended|].
    split; [lia|]. split; [by intros E; destruct (mo_status _ Hm)|]. lia.
  - assert (H : wp (tick_ w a c tick) (fun _ m' => ticked tick (begin_tick c tick m) m') tick_stop
      (begin_tick c tick m)).
    { apply tick_ok; [by apply begin_tick_ok| |done|done].
      intros id. by rewrite begin_tick_order. }
    unfold wp in H. destruct (tick_ w a c tick _) as [[[]|[]|] m']; simpl in H; try done.
    + simpl in Hk. unfold MAX_TICKS in *. rewrite checked_add_ok by lia.
      destruct (IH m' (observe o (frame_of tick true m')) (k + 1)) as (m2 & k2 & o2 & E & H2);
        [apply H|apply HI; [done|by eapply frame_ok_complete]|lia|].
      exists m2, k2, o2. split; [done|].
      replace (k + N.of_nat (S (length todo))) with (k + 1 + N.of_nat (length todo)) by lia.
      destruct H2 as (? & ? & ? & ? & ?). repeat (split; [done|]). split; [lia|done].
    + exists (set_status FuelExhausted m'), k, (observe o (frame_of tick false m')).
      split; [done|]. split; [by apply HI, frame_ok_incomplete|].
      split; [by apply exhausted_ended|]. split; [lia|]. split; [intros _; simpl; lia|done].
Qed.
End Observed.

(** ** The verdict *)

Lemma fold_count l acc :
  acc + foldr N.add 0 l < 2 ^ 64 ->
  res_fold (fun sum n => let? k := count n in ok_or (checked_add 64 sum k) RunArithmetic) acc l
  = Ok (acc + foldr N.add 0 l).
Proof.
  revert acc. induction l as [|x l IH]; intros acc H; simpl in *.
  - f_equal. lia.
  - rewrite count_ok by lia. simpl. rewrite checked_add_ok by lia. simpl.
    rewrite IH by lia. f_equal. lia.
Qed.

Lemma sum_app l k : foldr N.add 0 (l ++ k) = foldr N.add 0 l + foldr N.add 0 k.
Proof. induction l as [|x l IH]; simpl; [done|]. rewrite IH. lia. Qed.

Lemma sum_lengths {A B} (f : A -> list B) l : foldr N.add 0 ((fun x => len (f x)) <$> l) = len (l ≫= f).
Proof.
  induction l as [|x l IH]; csimpl; [done|]. rewrite IH. unfold len. rewrite length_app. lia.
Qed.

Lemma carried_spec s : carried s = len (st_cells s ≫= cargo_list).
Proof.
  unfold carried, len, cargo_list. f_equal.
  induction (st_cells s) as [|x l IH]; csimpl; [done|].
  destruct (cel_cargo x) eqn:E; csimpl.
  - rewrite filter_cons_True by (rewrite E; by eexists). simpl. by rewrite IH.
  - rewrite filter_cons_False by (rewrite E; by intros [? ?]). done.
Qed.

Definition present (s : State) : list N :=
  ((fun e => len (ss_sparks e)) <$> st_sources s) ++ ((fun e => len (ds_sparks e)) <$> st_depots s)
  ++ [carried s] ++ [len (st_delivered s)].

Lemma present_sum s : state_ok w s -> foldr N.add 0 (present s) = len (all_sparks (spec w)).
Proof.
  intros Hs. unfold present. rewrite !sum_app. simpl. rewrite !sum_lengths, carried_spec.
  pose proof (sparks_length w s Hs) as E. unfold sparks in E.
  rewrite !length_app, length_fmap in E. unfold len. lia.
Qed.

(** The verdict of a state: beacons lit, quotas met. *)
Definition lit (s : State) : Prop :=
  Forall (fun b => 0 < bs_charge b /\ bs_exhausted b = false) (st_beacons s).
Definition fed (s : State) : Prop :=
  Forall2 (fun goal e => bea_required_deliveries goal <= bs_delivered e) (beacons w) (st_beacons s).

Lemma forallb_zip_Forall2 {A B} (f : A -> B -> bool) la lb :
  length la = length lb ->
  forallb (fun '(x, y) => f x y) (zip la lb) = true <-> Forall2 (fun x y => f x y = true) la lb.
Proof.
  revert lb. induction la as [|x la IH]; intros [|y lb] H; simpl in *; try done.
  rewrite andb_true_iff, IH, Forall2_cons by lia. done.
Qed.

Record verdict (m : Machine) (o : Outcome) : Prop := {
  vd_lit : all_beacons_positive o = true <-> lit (m_state m);
  vd_fed : quotas_met o = true <-> fed (m_state m);
  vd_conserved : conserved o = true;
  vd_passed : passed o = true <-> m_status m = Complete /\ lit (m_state m) /\ fed (m_state m);
}.

Lemma run_outcome_ok m : ended m -> exists o, run_outcome w m = Ok o /\ verdict m o.
Proof.
  intros Hm. destruct (mo_env _ Hm) as (_ & Hs & _). simpl in Hs.
  pose proof (mo_sparks _ Hm) as Hsp. simpl in Hsp. destruct Hw as [Hv _].
  destruct (v_sparks _ Hv) as [_ Hmax]. unfold MAX_INITIAL_SPARKS in Hmax.
  unfold run_outcome. fold (present (m_state m)).
  rewrite fold_count; rewrite (present_sum _ Hs); [|lia]. simpl. rewrite Hsp, N.eqb_refl.
  eexists. split; [done|].
  assert (H1 : forallb (fun b => (0 <? bs_charge b) && negb (bs_exhausted b)) (st_beacons (m_state m))
    = true <-> lit (m_state m)).
  { unfold lit. rewrite List.forallb_forall, Forall_forall. setoid_rewrite list_elem_of_In.
    by setoid_rewrite andb_true_iff; setoid_rewrite negb_true_iff; setoid_rewrite N.ltb_lt. }
  assert (H2 : forallb (fun '(goal, result) => bea_required_deliveries goal <=? bs_delivered result)
    (zip (beacons w) (st_beacons (m_state m))) = true <-> fed (m_state m)).
  { rewrite (forallb_zip_Forall2 (fun g r => bea_required_deliveries g <=? bs_delivered r)).
    - unfold fed. split; intros H; eapply Forall2_impl; try exact H; simpl; intros; by apply N.leb_le.
    - eapply Forall2_length, (so_beacons _ _ Hs). }
  split; simpl; [exact H1|exact H2|done|].
  rewrite !andb_true_iff, H1, H2, bool_decide_eq_true. naive_solver.
Qed.

(** What a run returns. *)
Record run_ok (r : RunResult) : Prop := {
  ru_work : led_sum (rr_ledger r) <= F;
  ru_state : state_ok w (rr_final_state r);
  ru_sparks : rr_initial_sparks r = len (all_sparks (spec w));
  ru_conserved : conserved (rr_outcome r) = true;
  ru_ticks : rr_ticks_completed r <= ticks c;
  ru_status : rr_status r = FuelExhausted <-> rr_ticks_completed r < ticks c;
  ru_lit : all_beacons_positive (rr_outcome r) = true <-> lit (rr_final_state r);
  ru_fed : quotas_met (rr_outcome r) = true <-> fed (rr_final_state r);
  ru_passed : passed (rr_outcome r) = true <->
    rr_status r = Complete /\ lit (rr_final_state r) /\ fed (rr_final_state r);
}.

Lemma conclude_ok m k :
  ended m -> k <= ticks c -> (m_status m = FuelExhausted -> k < ticks c) ->
  (m_status m <> FuelExhausted -> k = ticks c) ->
  exists r, conclude w c (Ok (m, k)) = Ok r /\ run_ok r.
Proof.
  intros Hm Hk H1 H2. destruct (run_outcome_ok m Hm) as (o & Eo & [L Fd C P]).
  unfold conclude. simpl. rewrite Eo. simpl. eexists. split; [done|].
  destruct (mo_env _ Hm) as (_ & Hs & _). simpl in Hs.
  split; simpl; try done.
  - apply (machine_work _ Hm).
  - apply (mo_sparks _ Hm).
  - split; [done|]. intros Hlt. destruct (decide (m_status m = FuelExhausted)); [done|].
    rewrite H2 in Hlt; [lia|done].
  - rewrite andb_true_iff, P, N.eqb_eq. split; [naive_solver|]. intros (E & ? & ?).
    split; [done|]. apply H2. by rewrite E.
Qed.

Section RunObserved.
Context {O : Type} (observe : O -> FrameView -> O) (I : O -> Prop).
Context (HI : forall o f, I o -> frame_ok f -> I (observe o f)).

Lemma machine_ok_meter m k :
  machine_ok m -> meter_inv k -> fuel k = F -> activation k = None ->
  led_sum (ledger (m_meter m)) <= led_sum (ledger k) ->
  machine_ok (set_status Complete (set_meter k m)).
Proof.
  intros [(Hk & Hs & Hn) ? ? ? ? ?] Hi Hf Ha' Hle. split; try done.
  destruct Hk as [? ? ? Hb ?]. simpl in *.
  split; [split; simpl; try done; lia|]. split; [done|]. unfold work in *. simpl in *. lia.
Qed.

(** Loading: either everything is charged or the fuel ends. *)
Lemma load_ok m n :
  machine_ok m ->
  wp (load c n) (fun _ k => machine_ok (set_status Complete (set_meter k m)))
     (fun e k => (exists s, e = MeterStop s) /\ machine_ok (set_status Complete (set_meter k m)))
     (m_meter m).
Proof.
  intros Hm. pose proof (mo_env _ Hm) as ([Hi Hf Hwn _ _] & _). simpl in Hi, Hf, Hwn.
  unfold load. wp_steps. apply wp_charge; [done| |].
  - intros Hi1. apply wp_charge; [done| |].
    + intros Hi2. apply machine_ok_meter; try done. rewrite !add_units_sum. lia.
    + intros s k _ Hi2. split; [by eexists|]. apply machine_ok_meter; try done.
      rewrite !add_units_sum. lia.
  - intros s k _ Hi1. split; [by eexists|]. apply machine_ok_meter; try done.
    rewrite !add_units_sum. lia.
Qed.

Lemma tick_range_ok : Forall (fun t => t <= MAX_TICKS) (tick_range c) /\ len (tick_range c) = ticks c.
Proof.
  pose proof (co_ticks _ _ Hc). unfold tick_range, len. rewrite length_fmap, length_seq. split; [|lia].
  apply Forall_forall. intros t (n & -> & Hn)%list_elem_of_fmap.
  apply elem_of_seq in Hn. unfold MAX_TICKS. lia.
Qed.

Lemma run_total o :
  I o -> exists r o', run observe w a c o = (Ok r, o') /\ run_ok r /\ I o'.
Proof.
  intros Ho. destruct Machine_new_ok as (m & Em & _ & Hm & _). unfold run. rewrite Em.
  unfold Machine_run. destruct (initial_checking_total m Hm) as [n ->].
  pose proof (load_ok m n Hm) as Hl. unfold wp in Hl.
  destruct (load c n (m_meter m)) as [[[]|e|] k]; [| |done].
  - set (m1 := set_status Complete _) in *. destruct tick_range_ok as [Ht Elen].
    pose proof (co_ticks _ _ Hc).
    destruct (run_ticks_ok observe I HI (tick_range c) m1 (observe o (loading_frame true m1)) 0)
      as (m2 & k2 & o2 & -> & Ho2 & Hm2 & Hk2 & H1 & H2);
      [done|by apply HI, frame_ok_loading|done|unfold MAX_TICKS; lia|].
    rewrite Elen, N.add_0_l in *.
    destruct (conclude_ok m2 k2 Hm2) as (r & -> & Hr); [lia|done|done|]. by exists r, o2.
  - destruct Hl as [[st ->] Hm1]. set (m1 := set_status FuelExhausted _).
    pose proof (co_ticks _ _ Hc). assert (He : ended m1) by (destruct Hm1; by split).
    destruct (conclude_ok m1 0 He) as (r & -> & Hr); [lia|intros _; lia|done|].
    exists r, (observe o (loading_frame false m1)). split; [done|]. split; [done|].
    apply HI; [done|]. split; [apply He|by apply (machine_work _ He)|done].
Qed.
End RunObserved.

(** Observers do not influence a run and see the same frames. *)
Section Simulation.
Context {O1 O2 : Type} (f1 : O1 -> FrameView -> O1) (f2 : O2 -> FrameView -> O2).
Context (R : O1 -> O2 -> Prop) (HR : forall o1 o2 f, R o1 o2 -> R (f1 o1 f) (f2 o2 f)).

Definition same_run {A} (r1 : A * O1) (r2 : A * O2) : Prop := r1.1 = r2.1 /\ R r1.2 r2.2.

Lemma run_ticks_sim todo m o1 o2 k :
  R o1 o2 -> same_run (run_ticks f1 w a c todo m o1 k) (run_ticks f2 w a c todo m o2 k).
Proof.
  revert m o1 o2 k. induction todo as [|t todo IH]; intros m o1 o2 k Ho; simpl; [done|].
  destruct (tick_ w a c t _) as [[[]|[]|] m']; try done; [|by split; simpl; auto].
  destruct (checked_add 32 k 1); [|by split; simpl; auto]. by apply IH, HR.
Qed.

Lemma run_sim o1 o2 : R o1 o2 -> same_run (run f1 w a c o1) (run f2 w a c o2).
Proof.
  intros Ho. unfold run. destruct (Machine_new w a c) as [m| |]; [|done..].
  unfold Machine_run. destruct (initial_checking _ _ _); [|done..].
  destruct (load _ _ _) as [[[]|[]|] k]; try done; [|by split; simpl; auto].
  destruct (run_ticks_sim (tick_range c) (set_status Complete (set_meter k m))
    (f1 o1 (loading_frame true (set_status Complete (set_meter k m))))
    (f2 o2 (loading_frame true (set_status Complete (set_meter k m)))) 0) as [E1 E2]; [by apply HR|].
  destruct (run_ticks f1 _ _ _ _ _ _ _), (run_ticks f2 _ _ _ _ _ _ _). simpl in *.
  split; simpl; [by rewrite E1|done].
Qed.
End Simulation.
End Runs.

(** The activation order of a tick: the sort by [(mix(..), id)] has exactly one
    result, so replays agree on the order whatever sorting algorithm runs. *)

Section Order.
Context (key : N -> N * N) (Hkey : forall x, (key x).2 = x).

Definition before (x y : N) : Prop := key_le (key x) (key y) = true.

Lemma key_le_spec p q : key_le p q = true <-> p.1 < q.1 \/ p.1 = q.1 /\ p.2 <= q.2.
Proof. unfold key_le. rewrite orb_true_iff, andb_true_iff, N.ltb_lt, N.eqb_eq, N.leb_le. done. Qed.

Instance before_transitive : Transitive before.
Proof. intros x y z. unfold before. rewrite !key_le_spec. lia. Qed.

Instance before_antisym : AntiSymm (=) before.
Proof.
  intros x y. unfold before. rewrite !key_le_spec, !Hkey. lia.
Qed.

Lemma before_total x y : ~ before x y -> before y x.
Proof. unfold before. rewrite !key_le_spec. lia. Qed.

Lemma insert_by_sorted x l : StronglySorted before l -> StronglySorted before (insert_by key x l).
Proof.
  intros H. induction H as [|y l H IH Hall]; simpl; [by repeat constructor|].
  destruct (key_le (key x) (key y)) eqn:E.
  - constructor; [by constructor|]. constructor; [done|].
    eapply Forall_impl; [exact Hall|]. intros z. by transitivity y.
  - constructor; [done|]. rewrite insert_by_perm. constructor; [|done].
    apply before_total. unfold before. congruence.
Qed.

Lemma sort_by_key_sorted l : StronglySorted before (sort_by_key key l).
Proof. induction l; simpl; [constructor|]. by apply insert_by_sorted. Qed.

Lemma sort_by_key_unique l k : k ≡ₚ l -> StronglySorted before k -> k = sort_by_key key l.
Proof.
  intros Hp Hs. eapply (StronglySorted_unique before); [done|apply sort_by_key_sorted|].
  by rewrite sort_by_key_perm.
Qed.
End Order.
