(* ===== verification/Bytes.v ===== *)
(** Canonical big-endian encoding, for every component that has a wire form:
    the writer, the reader with an error type of the component's own, and the
    law a codec satisfies (class [ProgramCodec]). *)
From Stdlib Require Import Ascii String.
From S2P Require Import Prelude.

(** ** Bytes *)

Definition byte (b : N) : Prop := b < 256.

(** [to_be_bytes] of an integer of [n] bytes, and its inverse. *)
Fixpoint be (n : nat) (v : N) : list N :=
  match n with
  | O => []
  | S n => (v / 256 ^ N.of_nat n) mod 256 :: be n v
  end.

Definition of_be (l : list N) : N := foldl (fun acc b => acc * 256 + b) 0 l.

Lemma be_length n v : length (be n v) = n.
Proof. induction n; simpl; [done|]. by f_equal. Qed.

Lemma be_bytes n v : Forall byte (be n v).
Proof. induction n; simpl; constructor; [|done]. unfold byte. by apply N.mod_lt. Qed.

Lemma foldl_be l acc :
  foldl (fun acc b => acc * 256 + b) acc l = acc * 256 ^ N.of_nat (length l) + of_be l.
Proof.
  unfold of_be. revert acc. induction l as [|b l IH]; intros acc; simpl; [lia|].
  rewrite (IH (acc * 256 + b)), (IH (0 * 256 + b)). rewrite Nat2N.inj_succ, N.pow_succ_r'. lia.
Qed.

Lemma of_be_cons b l : of_be (b :: l) = b * 256 ^ N.of_nat (length l) + of_be l.
Proof. exact (foldl_be l b). Qed.

Lemma of_be_lt l : Forall byte l -> of_be l < 256 ^ N.of_nat (length l).
Proof.
  induction 1 as [|b l Hb H IH]; [done|]. rewrite of_be_cons. unfold byte in Hb.
  simpl. rewrite Nat2N.inj_succ, N.pow_succ_r'. nia.
Qed.

Lemma of_be_be n v : v < 256 ^ N.of_nat n -> of_be (be n v) = v.
Proof.
  assert (H : forall n, of_be (be n v) = v mod 256 ^ N.of_nat n).
  { clear n. intros n. induction n as [|n IH]; [by rewrite N.mod_1_r|].
    cbn [be]. rewrite of_be_cons, be_length, IH, Nat2N.inj_succ, N.pow_succ_r'.
    rewrite (N.mul_comm 256), N.Div0.mod_mul_r. lia. }
  intros Hv. rewrite H. by apply N.mod_small.
Qed.

Lemma be_of_be l : Forall byte l -> be (length l) (of_be l) = l.
Proof.
  induction 1 as [|b l Hb H IH]; [done|]. simpl. pose proof (of_be_lt l H) as Hl.
  rewrite of_be_cons. set (p := 256 ^ N.of_nat (length l)) in *. assert (p <> 0) by (unfold p; lia).
  f_equal.
  - rewrite N.div_add_l by done. rewrite N.div_small by done. rewrite N.add_0_r.
    by apply N.mod_small.
  - assert (E : forall n v, (n <= length l)%nat ->
      be n (b * p + v) = be n v).
    { intros n v. induction n as [|n IHn]; intros Hn; simpl; [done|]. rewrite IHn by lia. f_equal.
      replace p with (256 ^ N.of_nat (length l - n - 1) * 256 * 256 ^ N.of_nat n).
      - rewrite !N.mul_assoc, N.div_add_l by lia.
        rewrite N.add_comm. by rewrite N.Div0.mod_add.
      - unfold p. rewrite <- N.mul_assoc, <- (N.pow_succ_r' 256), <- N.pow_add_r.
        f_equal. lia. }
    by rewrite E by done.
Qed.

(** The bytes of a byte-string literal. *)
Definition bytes_of (s : string) : list N := N_of_ascii <$> list_ascii_of_string s.

(** ** Writer *)

Definition Writer : Type := list N.

Definition w_u8 (v : N) (w : Writer) : Writer := w ++ [v].
Definition w_u16 (v : N) (w : Writer) : Writer := w ++ be 2 v.
Definition w_u32 (v : N) (w : Writer) : Writer := w ++ be 4 v.
Definition w_u64 (v : N) (w : Writer) : Writer := w ++ be 8 v.
Definition w_u128 (v : N) (w : Writer) : Writer := w ++ be 16 v.
Definition w_bool (v : bool) (w : Writer) : Writer := w ++ [N.b2n v].
Definition w_bytes (v : list N) (w : Writer) : Writer := w ++ v.

(** Statement sequencing and loops on a writer. *)
Definition w_seq (f g : Writer -> Writer) (w : Writer) : Writer := g (f w).
Definition w_all {A} (f : A -> Writer -> Writer) (l : list A) (w : Writer) : Writer :=
  foldl (fun w x => f x w) w l.

Infix ">>" := w_seq (at level 60, right associativity).

(** [writer.finish()] of a fresh writer: the bytes written. *)
Definition written (p : Writer -> Writer) : list N := p [].

(** ** Reader *)

Record Reader : Type := mkReader { raw : list N; pos : nat }.

(** A parser with errors [Er]. *)
Definition reads (Er A : Type) : Type := eff Reader Er A.

Definition slice (l : list N) (a b : nat) : option (list N) :=
  if (b <=? length l)%nat then Some (take (b - a) (drop a l)) else None.

(** The next [n] bytes, or the error [e]; a failed read does not advance. *)
Definition r_slice {Er} (n : nat) (e : Er) : reads Er (list N) :=
  let! r := get in
  match slice (raw r) (pos r) (pos r + n) with
  | Some bytes => do! modify (fun r => mkReader (raw r) (pos r + n)) in ret bytes
  | None => throw e
  end.

Definition r_byte {Er} (e : Er) : reads Er N :=
  let! bytes := r_slice 1 e in lift (index bytes 0).

(** A big-endian integer of [n] bytes. *)
Definition r_int {Er} (n : nat) (e : Er) : reads Er N :=
  let! bytes := r_slice n e in ret (of_be bytes).

(** [for _ in 0..n { v.push(g()?) }] *)
Fixpoint r_repeat {Er A} (n : nat) (g : reads Er A) : reads Er (list A) :=
  match n with
  | O => ret []
  | S n => let! x := g in let! l := r_repeat n g in ret (x :: l)
  end.

(** ** Laws *)

(** A statement that only appends. *)
Class Appends (p : Writer -> Writer) : Prop := appends : forall w, p w = w ++ written p.

#[export] Instance appends_u8 v : Appends (w_u8 v). Proof. done. Qed.
#[export] Instance appends_u16 v : Appends (w_u16 v). Proof. done. Qed.
#[export] Instance appends_u32 v : Appends (w_u32 v). Proof. done. Qed.
#[export] Instance appends_u64 v : Appends (w_u64 v). Proof. done. Qed.
#[export] Instance appends_u128 v : Appends (w_u128 v). Proof. done. Qed.
#[export] Instance appends_bool v : Appends (w_bool v). Proof. done. Qed.
#[export] Instance appends_bytes v : Appends (w_bytes v). Proof. done. Qed.

#[export] Instance appends_seq f g : Appends f -> Appends g -> Appends (f >> g).
Proof.
  intros Hf Hg w. unfold w_seq, written. rewrite (Hf w), (Hg (w ++ _)), (Hg (f [])).
  by rewrite app_assoc.
Qed.

#[export] Instance appends_id : Appends id.
Proof. intros w. by rewrite app_nil_r. Qed.

Lemma w_all_written {A} (f : A -> Writer -> Writer) l w :
  (forall x, Appends (f x)) -> w_all f l w = w ++ (l ≫= fun x => written (f x)).
Proof.
  intros Hf. revert w. induction l as [|x l IH]; intros w; csimpl; [by rewrite app_nil_r|].
  unfold w_all in *. simpl. rewrite IH, (Hf x w). by rewrite app_assoc.
Qed.

#[export] Instance appends_all {A} (f : A -> Writer -> Writer) l :
  (forall x, Appends (f x)) -> Appends (w_all f l).
Proof. intros Hf w. unfold written. by rewrite !w_all_written. Qed.

Lemma written_seq f g `{!Appends g} : written (f >> g) = written f ++ written g.
Proof. unfold written, w_seq. by rewrite appends. Qed.

Lemma written_all {A} (f : A -> Writer -> Writer) l `{!forall x, Appends (f x)} :
  written (w_all f l) = l ≫= fun x => written (f x).
Proof. unfold written at 1. by rewrite w_all_written. Qed.

(** The number of bytes of a statement. *)
Create HintDb written_length.
Lemma length_w_u8 v : length (written (w_u8 v)) = 1%nat. Proof. done. Qed.
Lemma length_w_u16 v : length (written (w_u16 v)) = 2%nat. Proof. done. Qed.
Lemma length_w_u32 v : length (written (w_u32 v)) = 4%nat. Proof. done. Qed.
Lemma length_w_u64 v : length (written (w_u64 v)) = 8%nat. Proof. done. Qed.
Lemma length_w_u128 v : length (written (w_u128 v)) = 16%nat. Proof. done. Qed.
Lemma length_w_bytes l : length (written (w_bytes l)) = length l. Proof. done. Qed.
#[export] Hint Rewrite length_w_u8 length_w_u16 length_w_u32 length_w_u64 length_w_u128
  length_w_bytes : written_length.

(** *** The reader's position *)

Definition rest (r : Reader) : list N := drop (pos r) (raw r).
Definition advance (l : list N) (r : Reader) : Reader := mkReader (raw r) (pos r + length l).
Definition reader_ok (r : Reader) : Prop := Forall byte (raw r).

Lemma rest_advance r l k : rest r = l ++ k -> rest (advance l r) = k.
Proof.
  unfold rest, advance. simpl. intros H. rewrite <- drop_drop, H.
  by rewrite drop_app_length.
Qed.

Lemma advance_app l k r : advance k (advance l r) = advance (l ++ k) r.
Proof. unfold advance. simpl. rewrite length_app. f_equal. lia. Qed.

Lemma advance_nil r : advance [] r = r.
Proof. destruct r. unfold advance. simpl. f_equal. lia. Qed.

Lemma reader_ok_advance l r : reader_ok r -> reader_ok (advance l r).
Proof. done. Qed.

Lemma rest_bytes r l k : reader_ok r -> rest r = l ++ k -> Forall byte l.
Proof.
  intros Hr E. assert (H : Forall byte (rest r)) by (by apply Forall_drop).
  rewrite E in H. by apply Forall_app in H as [? _].
Qed.

(** ** The codec law

    [get] accepts exactly the canonical bytes of well-formed values and
    advances past them; it never panics. *)
Class Codec {Er A} (wf : A -> Prop) (put : A -> Writer -> Writer) (g : reads Er A) : Prop := {
  codec_appends a : Appends (put a);
  codec_bytes a : wf a -> Forall byte (written (put a));
  codec_iff r a r' : reader_ok r ->
    g r = (Ok a, r') <->
    wf a /\ exists k, rest r = written (put a) ++ k /\ r' = advance (written (put a)) r;
  codec_total r : reader_ok r -> fst (g r) <> Panic;
}.
#[export] Hint Extern 20 (Appends _) => simple eapply codec_appends : typeclass_instances.

(** One read in a sequence. *)
Lemma read_bind {Er A B} {wf : A -> Prop} {put} {g : reads Er A} `{!Codec wf put g} (k : A -> reads Er B) r b r' :
  reader_ok r ->
  bind g k r = (Ok b, r') <->
  exists a, wf a /\ exists l, rest r = written (put a) ++ l /\
    k a (advance (written (put a)) r) = (Ok b, r').
Proof.
  intros Hr. unfold bind. split.
  - destruct (g r) as [[a|e|] r1] eqn:E; [|done..]. intros Hk.
    apply codec_iff in E as (Hwf & l & El & ->); [|done]. eauto.
  - intros (a & Hwf & l & El & Hk).
    assert (g r = (Ok a, advance (written (put a)) r)) as -> by (apply codec_iff; eauto).
    done.
Qed.

(** The same when the bytes and the value are known. *)
Lemma read_step {Er A B} {wf : A -> Prop} {put} {g : reads Er A} `{!Codec wf put g} (k : A -> reads Er B) r a l :
  reader_ok r -> wf a -> rest r = written (put a) ++ l ->
  bind g k r = k a (advance (written (put a)) r).
Proof.
  intros Hr Hwf El. unfold bind.
  by rewrite (proj2 (codec_iff r a (advance (written (put a)) r) Hr)) by eauto.
Qed.

Class Safe {Er A} (g : reads Er A) : Prop := safe r : reader_ok r -> fst (g r) <> Panic.

#[export] Instance safe_codec {Er A} {wf : A -> Prop} {put} {g : reads Er A} `{!Codec wf put g} : Safe g.
Proof. intros r. apply codec_total. Qed.

#[export] Instance safe_ret {Er A} (a : A) : Safe (Er := Er) (ret a).
Proof. done. Qed.

#[export] Instance safe_throw {Er A} (e : Er) : Safe (throw (A := A) (e : Er)).
Proof. done. Qed.

#[export] Instance safe_bind {Er A B} {wf : A -> Prop} {put} {g : reads Er A} `{!Codec wf put g} (k : A -> reads Er B) :
  (forall a, Safe (k a)) -> Safe (bind g k).
Proof.
  intros Hk r Hr. unfold bind. pose proof (codec_total r Hr) as Ht.
  destruct (g r) as [[a|e|] r1] eqn:E; simpl in *; [|done..].
  apply codec_iff in E as (_ & l & _ & ->); [|done]. by apply Hk.
Qed.

(** Decoding what was written, and what was written is all that decodes. *)
Lemma codec_complete {Er A} {wf : A -> Prop} {put} {g : reads Er A} `{!Codec wf put g} r a k :
  reader_ok r -> wf a -> rest r = written (put a) ++ k ->
  g r = (Ok a, advance (written (put a)) r).
Proof. intros Hr Hwf E. apply codec_iff; eauto. Qed.

(** Two values that are prefixes of the same bytes are equal. *)
Lemma codec_prefix_inj {Er A} {wf : A -> Prop} {put} {g : reads Er A} `{!Codec wf put g} a b k l :
  wf a -> wf b -> Forall byte (written (put a) ++ k) ->
  written (put a) ++ k = written (put b) ++ l -> a = b.
Proof.
  intros Ha Hb Hby E. set (r := mkReader (written (put a) ++ k) 0).
  assert (E1 := codec_complete r a k Hby Ha eq_refl).
  assert (E2 := codec_complete r b l Hby Hb E). rewrite E1 in E2. congruence.
Qed.

(** ** Integers and slices *)

Lemma r_slice_iff {Er} n (f : Er) r l r' :
  (pos r <= length (raw r) \/ 0 < n)%nat ->
  r_slice n f r = (Ok l, r') <-> length l = n /\ exists k, rest r = l ++ k /\ r' = advance l r.
Proof.
  intros Hn. unfold r_slice, bind, get, slice, modify, ret, throw, rest.
  destruct (Nat.leb_spec (pos r + n) (length (raw r))) as [Hl|Hl]; simpl.
  - replace (pos r + n - pos r)%nat with n by lia. split.
    + intros [= <- <-]. split; [rewrite length_take, length_drop; lia|].
      exists (drop n (drop (pos r) (raw r))). rewrite take_drop. split; [done|].
      unfold advance. f_equal. rewrite length_take, length_drop. lia.
    + intros (<- & k & E & ->). rewrite E, take_app_length. done.
  - split; [done|]. intros (<- & k & E & _). apply (f_equal length) in E.
    rewrite length_drop, length_app in E. lia.
Qed.

Lemma r_slice_total {Er} n (f : Er) r : fst (r_slice n f r) <> Panic.
Proof. unfold r_slice, bind, get. by destruct (slice _ _ _). Qed.

Definition u (w : N) (v : N) : Prop := v < 2 ^ w.

Lemma byte_u v : byte v <-> u 8 v.
Proof. done. Qed.

(** Big-endian integers of [n] bytes. *)
Lemma codec_be {Er} n (f : Er) (put : N -> Writer -> Writer) w :
  (0 < n)%nat -> 256 ^ N.of_nat n = 2 ^ w -> (forall v x, put v x = x ++ be n v) ->
  Codec (u w) put (r_int n f).
Proof.
  intros Hn Hw Hput. assert (Hwr : forall v, written (put v) = be n v) by (intros; apply Hput).
  unfold r_int. split.
  - intros v x. by rewrite Hwr, Hput.
  - intros v _. rewrite Hwr. apply be_bytes.
  - intros r v r' Hr. rewrite Hwr. unfold bind, u. split.
    + destruct (r_slice n f r) as [[l|e|] r1] eqn:E; [|done..].
      apply r_slice_iff in E as (Hl & k & Ek & ->); [|by right]. intros [= <- <-].
      pose proof (rest_bytes r l k Hr Ek) as Hb. subst n.
      rewrite be_of_be by done. rewrite <- Hw. split; [by apply of_be_lt|by exists k].
    + intros (Hv & k & Ek & ->).
      rewrite (proj2 (r_slice_iff n f r (be n v) (advance (be n v) r) (or_intror Hn))).
      * unfold ret. rewrite of_be_be; [done|by rewrite Hw].
      * split; [apply be_length|by exists k].
  - intros r _. pose proof (r_slice_total n f r). unfold bind.
    by destruct (r_slice n f r) as [[]].
Qed.

(** The integers of [n] bytes that occur. *)
#[export] Instance codec_int16 {Er} (f : Er) : Codec (u 16) w_u16 (r_int 2 f).
Proof. by apply (codec_be 2); [lia|..]. Qed.
#[export] Instance codec_int32 {Er} (f : Er) : Codec (u 32) w_u32 (r_int 4 f).
Proof. by apply (codec_be 4); [lia|..]. Qed.
#[export] Instance codec_int64 {Er} (f : Er) : Codec (u 64) w_u64 (r_int 8 f).
Proof. by apply (codec_be 8); [lia|..]. Qed.
#[export] Instance codec_int128 {Er} (f : Er) : Codec (u 128) w_u128 (r_int 16 f).
Proof. by apply (codec_be 16); [lia|..]. Qed.

Lemma be_1 v : v < 256 -> be 1 v = [v].
Proof. intros H. simpl. by rewrite N.div_1_r, N.mod_small. Qed.

#[export] Instance codec_byte {Er} (f : Er) : Codec (u 8) w_u8 (r_byte f).
Proof.
  split.
  - apply _.
  - intros v Hv. by repeat constructor.
  - intros r v r' Hr. unfold r_byte, bind, written, w_u8, u. simpl. split.
    + destruct (r_slice 1 f r) as [[l|e|] r1] eqn:E; [|done..].
      apply r_slice_iff in E as (Hl & k & Ek & ->); [|by right; lia].
      pose proof (rest_bytes r l k Hr Ek) as Hb. destruct l as [|b [|? ?]]; [done| |done].
      intros [= <- <-]. apply Forall_inv in Hb. split; [exact Hb|by exists k].
    + intros (Hv & k & Ek & ->).
      rewrite (proj2 (r_slice_iff 1 f r [v] (advance [v] r) ltac:(by right; lia))); [done|].
      split; [done|by exists k].
  - intros r Hr. unfold r_byte, bind. pose proof (r_slice_total 1 f r).
    destruct (r_slice 1 f r) as [[l|e|] r1] eqn:E; [|done..].
    apply r_slice_iff in E as (Hl & _); [|by right; lia]. by destruct l.
Qed.

(** A fixed number of raw bytes. *)
#[export] Instance codec_slice {Er} n (e : Er) :
  (0 < n)%nat -> Codec (fun l => Forall byte l /\ length l = n) w_bytes (r_slice n e).
Proof.
  intros Hn. split.
  - apply _.
  - by intros l [].
  - intros r l r' Hr. rewrite r_slice_iff by (by right). unfold written, w_bytes. simpl.
    split; [|naive_solver]. intros (Hl & k & Ek & ->). split; [|by eauto].
    split; [by eapply rest_bytes|done].
  - intros r _. apply r_slice_total.
Qed.

(** The type [[u8; 32]]. *)
Definition hash_wire (l : list N) : Prop := Forall byte l /\ length l = 32%nat.

#[export] Instance codec_slice32 {Er} (e : Er) : Codec hash_wire w_bytes (r_slice 32 e).
Proof. apply codec_slice. lia. Qed.

(** *** Proving the law of a composite codec

    Both directions walk the reads in order, keeping the bytes consumed so
    far, [W], and the bytes left, [k]. *)
Lemma inv_step {Er A B} {wf : A -> Prop} {put} {g : reads Er A} `{!Codec wf put g} (K : A -> reads Er B)
    W k r b r' :
  reader_ok r -> rest r = W ++ k -> bind g K (advance W r) = (Ok b, r') ->
  exists a k', wf a /\ rest r = (W ++ written (put a)) ++ k' /\
    K a (advance (W ++ written (put a)) r) = (Ok b, r').
Proof.
  intros Hr E H. apply read_bind in H as (a & Ha & k' & E' & H); [|done].
  rewrite (rest_advance _ _ _ E) in E'. subst k. exists a, k'. split; [done|].
  rewrite <- app_assoc. split; [done|]. by rewrite <- advance_app.
Qed.

(** A read in last position. *)
Lemma inv_last {Er A} {wf : A -> Prop} {put} {g : reads Er A} `{!Codec wf put g} W k r b r' :
  reader_ok r -> rest r = W ++ k -> g (advance W r) = (Ok b, r') ->
  wf b /\ exists k', rest r = (W ++ written (put b)) ++ k' /\
    r' = advance (W ++ written (put b)) r.
Proof.
  intros Hr E H. apply codec_iff in H as (Ha & k' & E' & ->); [|done].
  rewrite (rest_advance _ _ _ E) in E'. subst k. split; [done|]. exists k'.
  rewrite <- app_assoc. split; [done|]. by rewrite advance_app.
Qed.

Lemma fwd_step {Er A B} {wf : A -> Prop} {put} {g : reads Er A} `{!Codec wf put g} (K : A -> reads Er B)
    W a k r :
  reader_ok r -> rest r = W ++ written (put a) ++ k -> wf a ->
  bind g K (advance W r) = K a (advance (W ++ written (put a)) r).
Proof.
  intros Hr E Ha. rewrite (read_step K (advance W r) a k); [|done|done|by eapply rest_advance].
  by rewrite advance_app.
Qed.

Lemma fwd_last {Er A} {wf : A -> Prop} {put} {g : reads Er A} `{!Codec wf put g} W a k r :
  reader_ok r -> rest r = W ++ written (put a) ++ k -> wf a ->
  g (advance W r) = (Ok a, advance (W ++ written (put a)) r).
Proof.
  intros Hr E Ha. rewrite (codec_complete (advance W r) a k); [|done|done|by eapply rest_advance].
  by rewrite advance_app.
Qed.

(** The law from its two walks. *)
Lemma codec_intro {Er A} (wf : A -> Prop) put (g : reads Er A) :
  (forall a, Appends (put a)) -> (forall a, wf a -> Forall byte (written (put a))) -> Safe g ->
  (forall r k a r', reader_ok r -> rest r = [] ++ k -> g (advance [] r) = (Ok a, r') ->
     wf a /\ exists W k', rest r = W ++ k' /\ r' = advance W r /\ written (put a) = W) ->
  (forall r k a, reader_ok r -> wf a -> rest r = written (put a) ++ k ->
     g (advance [] r) = (Ok a, advance (written (put a)) r)) ->
  Codec wf put g.
Proof.
  intros Ha Hb Hs Hinv Hfwd. split; [done|done| |done]. intros r a r' Hr. split.
  - intros H. rewrite <- (advance_nil r) in H.
    destruct (Hinv r (rest r) a r' Hr eq_refl H) as (Hwf & W & k & E & -> & <-). eauto.
  - intros (Hwf & k & E & ->). rewrite <- (advance_nil r) at 1. by eapply Hfwd.
Qed.

(** Split what was written into the bytes of its statements. *)
Ltac split_written := repeat match goal with
  | |- context [written (w_seq ?f ?g)] => rewrite (written_seq f g) by apply _
  | H : context [written (w_seq ?f ?g)] |- _ => rewrite (written_seq f g) in H by apply _
  end.
Ltac written_norm := split_written; rewrite <- ?app_assoc; cbn [app].

Ltac inv_reads H Hr E :=
  let a := fresh "a" in let k := fresh "k" in let Ha := fresh "Ha" in let E' := fresh "E" in
  lazymatch type of H with
  | bind _ _ _ = _ =>
      apply (inv_step _ _ _ _ _ _ Hr E) in H as (a & k & Ha & E' & H); clear E; rename E' into E;
      cbv beta in H; inv_reads H Hr E
  | ret _ _ = _ => unfold ret in H; inversion H; subst; clear H
  | throw _ _ = _ => discriminate H
  | (match ?x with _ => _ end) _ = _ => idtac
  | _ => idtac
  end.

(** Close the inverse walk of the codec that writes with [p]. *)
Ltac inv_close_with p E :=
  split; [|eexists _, _; split; [exact E|split; [reflexivity|
    unfold p; cbv beta iota; written_norm; reflexivity]]].
Ltac inv_close E :=
  split; [|eexists _, _; split; [exact E|split; [reflexivity|written_norm; reflexivity]]].

Ltac fwd_read E :=
  lazymatch goal with
  | |- bind _ _ (advance _ _) = _ =>
      erewrite fwd_step; [|done|rewrite E, <- ?app_assoc; cbn [app]; reflexivity|]; cbv beta iota
  | |- ret _ _ = _ => fail "nothing to read"
  | |- throw _ _ = _ => fail "nothing to read"
  | |- lift _ _ = _ => fail "nothing to read"
  | |- _ (advance _ _) = _ =>
      erewrite fwd_last; [|done|rewrite E, <- ?app_assoc; cbn [app]; reflexivity|]
  end.

Lemma codec_put_ext {Er A} (wf : A -> Prop) put put' (g : reads Er A) :
  (forall a w, put a w = put' a w) -> Codec wf put g -> Codec wf put' g.
Proof.
  intros He H. assert (Hw : forall a, written (put' a) = written (put a)) by (intros; symmetry; apply He).
  split; intros; rewrite ?Hw.
  - intros w. rewrite <- He, Hw. apply codec_appends.
  - by apply (codec_bytes (g := g)).
  - by apply codec_iff.
  - by apply codec_total.
Qed.

#[export] Instance codec_repeat {Er A} {wf : A -> Prop} {put} {g : reads Er A} `{!Codec wf put g} n :
  Codec (fun l => length l = n /\ Forall wf l) (w_all put) (r_repeat n g).
Proof.
  assert (Happ : forall a, Appends (put a)) by apply codec_appends. split.
  - apply _.
  - intros l [_ Hl]. rewrite written_all by done. induction Hl; csimpl; [constructor|].
    apply Forall_app. split; [by apply codec_bytes|done].
  - induction n as [|n IH]; intros r l r' Hr; cbn [r_repeat].
    + unfold ret. rewrite written_all by done. split.
      * intros [= <- <-]. split; [done|]. exists (rest r). by rewrite advance_nil.
      * intros ([Hl _] & k & _ & ->). destruct l; [|done]. simpl. by rewrite advance_nil.
    + rewrite read_bind by done. split.
      * intros (x & Hx & k & E & H). unfold bind in H.
        destruct (r_repeat n g _) as [[l'|e|] r1] eqn:E1; [|done..].
        unfold ret in H. injection H as <- <-.
        apply IH in E1 as ([<- Hl'] & k' & E2 & ->); [|done].
        rewrite (rest_advance _ _ _ E) in E2. subst k. split; [by split; [|constructor]|].
        exists k'. rewrite !written_all in * by done. csimpl. rewrite <- app_assoc, advance_app. done.
      * intros ([Hl Hf] & k & E & ->). destruct l as [|x l]; [done|]. apply Forall_cons in Hf as [Hx Hf].
        rewrite !written_all in * by done. csimpl in E. exists x. split; [done|].
        eexists. split; [csimpl; by rewrite E, <- app_assoc|]. unfold bind.
        rewrite (proj2 (IH (advance (written (put x)) r) l
          (advance (written (w_all put l)) (advance (written (put x)) r)) Hr)).
        -- rewrite written_all by done. csimpl. unfold ret. by rewrite advance_app.
        -- split; [split; [simpl in Hl; lia|done]|]. exists k. rewrite written_all by done.
           split; [|done]. apply rest_advance. by rewrite E, <- app_assoc.
  - induction n as [|n IH]; intros r Hr; cbn [r_repeat]; [done|]. unfold bind.
    pose proof (codec_total r Hr) as Ht. destruct (g r) as [[x|e|] r1] eqn:E; [|done..].
    apply codec_iff in E as (_ & k & _ & ->); [|done].
    specialize (IH (advance (written (put x)) r) Hr).
    by destruct (r_repeat n g _) as [[]].
Qed.

(** A byte count and that many items; the count is truncated by [as u8]. *)
Definition w_counted {A} (put : A -> Writer -> Writer) (l : list A) : Writer -> Writer :=
  w_u8 (wrap 8 (len l)) >> w_all put l.
Lemma wrap_small w n : n < 2 ^ w -> wrap w n = n.
Proof. apply N.mod_small. Qed.

#[export] Instance appends_counted {A} (put : A -> Writer -> Writer) l :
  (forall a, Appends (put a)) -> Appends (w_counted put l).
Proof. unfold w_counted. apply _. Qed.

(** An optional value behind a 0 or 1 tag. *)
Definition w_option {A} (put : A -> Writer -> Writer) (o : option A) : Writer -> Writer :=
  match o with None => w_u8 0 | Some a => w_u8 1 >> put a end.
Definition option_wf {A} (wf : A -> Prop) (o : option A) : Prop :=
  forall a, o = Some a -> wf a.

#[export] Instance appends_option {A} (put : A -> Writer -> Writer) o :
  (forall a, Appends (put a)) -> Appends (w_option put o).
Proof. destruct o; simpl; apply _. Qed.

(** The reader of an optional value: [eof] at the end of the input, [bad] for
    any other tag. *)
Definition r_tagged {Er A} (eof : Er) (bad : N -> Er) (g : reads Er A) : reads Er (option A) :=
  let! tag := r_byte eof in
  match tag with
  | 0 => ret None
  | 1 => let! a := g in ret (Some a)
  | found => throw (bad found)
  end.

#[export] Instance codec_tagged {Er A} {wf : A -> Prop} {put} {g : reads Er A} `{!Codec wf put g} eof bad :
  Codec (option_wf wf) (w_option put) (r_tagged eof bad g).
Proof.
  assert (Happ : forall a, Appends (put a)) by apply codec_appends.
  unfold r_tagged. apply codec_intro; [apply _| | | |].
  - intros [a|] Hwf; simpl; [|by repeat constructor]. rewrite written_seq by apply _.
    apply Forall_app. split; [by repeat constructor|]. apply (codec_bytes (g := g)). auto.
  - apply safe_bind. intros [|[]]; apply _.
  - intros r k o r' Hr E H. inv_reads H Hr E.
    destruct a as [|[]]; inv_reads H Hr E; inv_close_with @w_option E; by intros ? [= <-].
  - intros r k [a|] Hr Hwf E; simpl in *.
    + rewrite !written_seq in * by apply _. rewrite <- app_assoc in E. fwd_read E; [|done].
      fwd_read E; [done|auto].
    + fwd_read E; done.
Qed.

(** A length, at most [limit], and that many raw bytes. *)
Definition w_sized (putl : N -> Writer -> Writer) (l : list N) : Writer -> Writer :=
  putl (len l) >> w_bytes l.
Definition r_sized {Er} (rl : reads Er N) (limit : N) (large eof : Er) : reads Er (list N) :=
  let! n := rl in
  if limit <? n then throw large else r_slice (N.to_nat n) eof.

Lemma rest_in_bounds W r k : rest r = W ++ k -> W <> [] -> (pos r + length W <= length (raw r))%nat.
Proof.
  intros E HW. apply (f_equal length) in E. unfold rest in E.
  rewrite length_drop, length_app in E. destruct W; [done|]. simpl in *. lia.
Qed.

Lemma codec_sized {Er} {putl} {rl : reads Er N} {w} `{!Codec (u w) putl rl} limit large eof :
  (forall n, written (putl n) <> []) -> limit < 2 ^ w ->
  Codec (fun l => Forall byte l /\ len l <= limit) (w_sized putl) (r_sized rl limit large eof).
Proof.
  intros Hne Hlim. assert (Happ : forall a, Appends (putl a)) by apply codec_appends.
  assert (Hw : forall l, written (w_sized putl l) = written (putl (len l)) ++ l).
  { intros l. unfold w_sized. by rewrite written_seq by apply _. }
  split.
  - unfold w_sized. apply _.
  - intros l [Hl Hn]. rewrite Hw. apply Forall_app. split; [|done].
    apply (codec_bytes (g := rl)). unfold u. lia.
  - intros r l r' Hr. unfold r_sized. rewrite read_bind by done. split.
    + intros (n & Hn & k & E & H). destruct (N.ltb_spec limit n); [done|].
      pose proof (rest_in_bounds _ _ _ E (Hne n)) as Hb.
      apply r_slice_iff in H as (Hl & k' & E' & ->); [|by left].
      rewrite (rest_advance _ _ _ E) in E'. subst k.
      assert (n = len l) as -> by (unfold len; lia). rewrite Hw, advance_app.
      rewrite app_assoc in E. split; [|eauto]. split; [|lia].
      apply (rest_bytes r _ _ Hr) in E. by apply Forall_app in E as [_ ?].
    + intros ([Hl Hn] & k & E & ->). rewrite Hw, <- app_assoc in *.
      exists (len l). split; [unfold u; lia|]. eexists. split; [exact E|].
      rewrite (proj2 (N.ltb_ge _ _)) by done. apply r_slice_iff.
      * left. by apply rest_in_bounds with (1 := E).
      * unfold len. rewrite Nat2N.id. split; [done|]. exists k. rewrite advance_app.
        split; [by eapply rest_advance|done].
  - intros r Hr. unfold r_sized, bind. pose proof (codec_total r Hr) as Ht.
    destruct (rl r) as [[n|e|] r1]; [|done..]. destruct (limit <? n); [done|apply r_slice_total].
Qed.

(** *** Tactics for the codecs of records and tagged unions *)

(** Bytes written by the [put_] functions. *)
Create HintDb bytes.

Lemma bytes_u8 v : u 8 v -> Forall byte (written (w_u8 v)).
Proof. apply (codec_bytes (g := r_byte tt)). Qed.
Lemma bytes_u16 v : Forall byte (written (w_u16 v)).
Proof. apply be_bytes. Qed.
Lemma bytes_u32 v : Forall byte (written (w_u32 v)).
Proof. apply be_bytes. Qed.
Lemma bytes_u64 v : Forall byte (written (w_u64 v)).
Proof. apply be_bytes. Qed.
Lemma bytes_bool v : Forall byte (written (w_bool v)).
Proof. destruct v; by repeat constructor. Qed.
Lemma bytes_u128 v : Forall byte (written (w_u128 v)).
Proof. apply be_bytes. Qed.
Lemma bytes_raw l : Forall byte l -> Forall byte (written (w_bytes l)).
Proof. done. Qed.
Lemma bytes_hash l : hash_wire l -> Forall byte (written (w_bytes l)).
Proof. by intros []. Qed.
Lemma bytes_opt_hash o : option_wf hash_wire o -> Forall byte (written (w_option w_bytes o)).
Proof. apply (codec_bytes (g := r_tagged tt (fun _ => tt) (r_slice 32 tt))). Qed.
Lemma bytes_sized32 l : Forall byte l -> Forall byte (written (w_sized w_u32 l)).
Proof.
  intros H. unfold w_sized. rewrite written_seq by apply _. apply Forall_app. split; [apply be_bytes|done].
Qed.
#[export] Hint Resolve bytes_u8 bytes_u16 bytes_u32 bytes_u64 bytes_u128 bytes_bool
  bytes_raw bytes_hash bytes_opt_hash bytes_sized32 : bytes.
#[export] Hint Extern 1 (u 8 _) => reflexivity : bytes.

Ltac split_ands := repeat match goal with H : _ /\ _ |- _ => destruct H end.

(** The five obligations for a writer [p] and a reader [g]. *)
Ltac codec_appends p := let a := fresh in intros a; destruct a; unfold p; apply _.

Ltac codec_bytes_tac p :=
  let a := fresh "a" in let H := fresh "H" in
  intros a H; destruct a; simpl in H; split_ands; unfold p; cbv beta iota; written_norm;
  repeat match goal with |- Forall _ (_ ++ _) => apply Forall_app; split end;
  eauto with bytes.

Ltac safe_step :=
  lazymatch goal with
  | |- Safe (bind _ _) => apply safe_bind; intros ?
  | |- Safe (match ?x with _ => _ end) => destruct x
  | |- Safe _ => apply _
  end.
Ltac codec_safe g := unfold g; repeat safe_step.

Ltac inv_tags H Hr E :=
  repeat lazymatch type of H with
  | (match ?x with _ => _ end) _ = _ => destruct x
  end; try discriminate H.

Ltac codec_inv p g :=
  let r := fresh "r" in let k := fresh "k" in let b := fresh "b" in let r' := fresh "r'" in
  let Hr := fresh "Hr" in let E := fresh "E" in let H := fresh "H" in
  intros r k b r' Hr E H; unfold g in H; inv_reads H Hr E; try (inv_tags H Hr E; inv_reads H Hr E);
  inv_close_with p E; simpl; split_and?; eauto.

Ltac fwd_side := first [assumption | done | by simpl; eauto with bytes | by repeat split].
Ltac fwd_reads E := repeat (fwd_read E; [|fwd_side]); try (rewrite <- ?app_assoc; reflexivity).

Ltac codec_fwd p g :=
  let r := fresh "r" in let k := fresh "k" in let a := fresh "a" in
  let Hr := fresh "Hr" in let Hwf := fresh "Hwf" in let E := fresh "E" in
  intros r k a Hr Hwf E; unfold g; destruct a; simpl in Hwf; split_ands;
  unfold p in E |- *; cbv beta iota in E; cbn [written] in *;
  split_written; rewrite <- ?app_assoc in E; fwd_reads E; unfold ret; do 2 f_equal;
  rewrite <- ?app_assoc; reflexivity.

Ltac codec_tac p g := apply codec_intro;
  [codec_appends p|codec_bytes_tac p|codec_safe g|codec_inv p g|codec_fwd p g].

(** ** Parsers as relations

    [parses P g]: [g] returns [a] exactly when it consumes some bytes [W] with
    [P a W].  The relation of a composite parser is computed from its parts, so
    that a parser that validates between its reads is handled like one that
    does not. *)
Definition parses {Er A} (P : A -> list N -> Prop) (g : reads Er A) : Prop :=
  forall r a r', reader_ok r ->
    g r = (Ok a, r') <-> exists W k, P a W /\ rest r = W ++ k /\ r' = advance W r.

Lemma parses_codec {Er A} {wf : A -> Prop} {put} {g : reads Er A} `{!Codec wf put g} :
  parses (fun a W => wf a /\ W = written (put a)) g.
Proof. intros r a r' Hr. rewrite codec_iff by done. naive_solver. Qed.

Lemma parses_ret {Er A} (a : A) : parses (fun b W => b = a /\ W = []) (ret a : reads Er A).
Proof.
  intros r b r' _. unfold ret. split.
  - intros [= <- <-]. exists [], (rest r). by rewrite advance_nil.
  - intros (W & k & [-> ->] & _ & ->). by rewrite advance_nil.
Qed.

Lemma parses_throw {Er A} (e : Er) : parses (fun _ _ => False) (throw e : reads Er A).
Proof. intros r b r' _. split; [done|]. by intros (? & ? & [] & _). Qed.

Lemma parses_lift {Er A} (m : res Er A) : parses (fun b W => m = Ok b /\ W = []) (lift m).
Proof.
  intros r b r' _. unfold lift. split.
  - intros [= -> <-]. exists [], (rest r). by rewrite advance_nil.
  - intros (W & k & [-> ->] & _ & ->). by rewrite advance_nil.
Qed.

Lemma parses_bind {Er A B} P Q (g : reads Er A) (f : A -> reads Er B) :
  parses P g -> (forall a, parses (Q a) (f a)) ->
  parses (fun b W => exists a W1 W2, W = W1 ++ W2 /\ P a W1 /\ Q a b W2) (bind g f).
Proof.
  intros Hg Hf r b r' Hr. unfold bind. split.
  - destruct (g r) as [[a|e|] r1] eqn:E; [|done..]. intros Hb.
    apply Hg in E as (W1 & k & HP & E & ->); [|done].
    apply Hf in Hb as (W2 & k' & HQ & E' & ->); [|done].
    rewrite (rest_advance _ _ _ E) in E'. subst k. exists (W1 ++ W2), k'.
    rewrite <- app_assoc, advance_app. split; [by eexists _, _, _|done].
  - intros (W & k & (a & W1 & W2 & -> & HP & HQ) & E & ->). rewrite <- app_assoc in E.
    rewrite (proj2 (Hg r a (advance W1 r) Hr)) by eauto.
    apply Hf; [done|]. exists W2, k. rewrite advance_app. split; [done|].
    split; [by eapply rest_advance|done].
Qed.

Lemma parses_if {Er A} P Q (b : bool) (g h : reads Er A) :
  parses P g -> parses Q h -> parses (fun a W => if b then P a W else Q a W) (if b then g else h).
Proof. by destruct b. Qed.

Lemma parses_option {Er A B} P Q (o : option B) (g : B -> reads Er A) (h : reads Er A) :
  (forall x, parses (P x) (g x)) -> parses Q h ->
  parses (fun a W => match o with Some x => P x a W | None => Q a W end)
    (match o with Some x => g x | None => h end).
Proof. destruct o; auto. Qed.

Lemma parses_ext {Er A} (P Q : A -> list N -> Prop) (g : reads Er A) :
  parses P g -> (forall a W, P a W <-> Q a W) -> parses Q g.
Proof. intros H HE r a r' Hr. rewrite (H r a r' Hr). by setoid_rewrite HE. Qed.

Lemma safe_parses {Er A B} P (g : reads Er A) (k : A -> reads Er B) :
  parses P g -> Safe g -> (forall a, Safe (k a)) -> Safe (bind g k).
Proof.
  intros Hp Hg Hk r Hr. unfold bind. specialize (Hg r Hr).
  destruct (g r) as [[a|e|] r1] eqn:E; [|done..].
  apply Hp in E as (W & l & _ & _ & ->); [|done]. by apply Hk.
Qed.

Lemma safe_lift {Er A} (m : res Er A) : m <> Panic -> Safe (lift m).
Proof. by intros Hm r _. Qed.

(** [for _ in 0..n { s = f(s, g()?)? }] *)
Fixpoint r_fold {Er A S} (n : nat) (g : reads Er A) (f : S -> A -> res Er S) (s : S) : reads Er S :=
  match n with
  | O => ret s
  | Datatypes.S n => let! x := g in let! s := lift (f s x) in r_fold n g f s
  end.

Lemma parses_fold {Er A S} {wf : A -> Prop} {put} {g : reads Er A} `{!Codec wf put g} n
    (f : S -> A -> res Er S) s :
  parses (fun s' W => exists l, length l = n /\ Forall wf l /\ W = written (w_all put l) /\
    res_fold f s l = Ok s') (r_fold n g f s).
Proof.
  assert (Happ : forall a, Appends (put a)) by apply codec_appends.
  revert s. induction n as [|n IH]; intros s; cbn [r_fold].
  - eapply parses_ext; [apply parses_ret|]. intros s' W. split.
    + intros [-> ->]. by exists [].
    + intros (l & Hl & _ & -> & Hf). destruct l; [|done]. simpl in Hf. by injection Hf as <-.
  - eapply parses_ext.
    + apply parses_bind; [apply parses_codec|]. intros x.
      apply parses_bind; [apply parses_lift|]. intros s1. apply IH.
    + intros s' W. split.
      * intros (x & W1 & W2 & -> & [Hx ->] & s1 & ? & ? & -> & [Hf ->] & l & <- & Hl & -> & Hfold).
        exists (x :: l). rewrite !written_all by done. csimpl. rewrite Hf. simpl. eauto using Forall_cons_2.
      * intros ([|x l] & [= <-] & Hl & -> & Hfold). apply Forall_cons in Hl as [Hx Hl].
        simpl in Hfold. apply res_bind_Ok in Hfold as (s1 & Hf & Hfold).
        exists x, (written (put x)), (written (w_all put l)).
        rewrite !written_all by done. csimpl. split; [done|]. split; [done|].
        exists s1, [], (l ≫= fun x => written (put x)). split; [done|]. split; [done|].
        exists l. by rewrite written_all.
Qed.

Lemma safe_fold {Er A S} {wf : A -> Prop} {put} {g : reads Er A} `{!Codec wf put g} n
    (f : S -> A -> res Er S) s :
  (forall s a, f s a <> Panic) -> Safe (r_fold n g f s).
Proof.
  intros Hf. revert s. induction n as [|n IH]; intros s; cbn [r_fold]; [apply _|].
  apply safe_bind. intros a. eapply safe_parses; [apply parses_lift|by apply safe_lift|done].
Qed.

(** ** Documents: a value that is all of the input *)

(** [count] is what a reader at the end of its input leaves unread. *)
Definition r_end {Er} (trailing : N -> Er) : reads Er unit :=
  let! r := get in
  let count := saturating_sub (len (raw r)) (N.of_nat (pos r)) in
  if 0 <? count then throw (trailing count) else ret tt.

Definition parse_all {Er A} (trailing : N -> Er) (g : reads Er A) (bytes : list N) : res Er A :=
  fst ((let! a := g in do! r_end trailing in ret a) (mkReader bytes 0)).

Lemma r_end_iff {Er} (t : N -> Er) r r' : r_end t r = (Ok tt, r') <-> rest r = [] /\ r' = r.
Proof.
  unfold r_end, bind, get, saturating_sub, len, rest.
  destruct (N.ltb_spec 0 (N.of_nat (length (raw r)) - N.of_nat (pos r))) as [H|H].
  - split; [done|]. intros [Hd _]. apply (f_equal length) in Hd. rewrite length_drop in Hd.
    simpl in Hd. lia.
  - unfold ret. split; [|by intros [_ ->]]. intros [= <-]. split; [|done].
    apply drop_ge. lia.
Qed.

(** It accepts exactly the canonical bytes of well-formed values. *)
Lemma parse_all_iff {Er A} {wf : A -> Prop} {put} {g : reads Er A} `{!Codec wf put g} t bytes a :
  Forall byte bytes -> parse_all t g bytes = Ok a <-> wf a /\ bytes = written (put a).
Proof.
  intros Hb. unfold parse_all. set (r := mkReader bytes 0). assert (Hr : reader_ok r) by done. split.
  - destruct ((let! a := g in do! r_end t in ret a) r) as [res r'] eqn:Eg. simpl. intros ->.
    apply read_bind in Eg as (b & Hwf & k & Ek & H); [|done]. unfold bind in H.
    destruct (r_end _ _) as [[[]|e|] r1] eqn:Ef; [|done..].
    apply r_end_iff in Ef as [Ef ->]. injection H as -> _.
    rewrite (rest_advance _ _ _ Ek) in Ef. subst k. unfold rest in Ek. simpl in Ek.
    rewrite app_nil_r in Ek. done.
  - intros (Hwf & Hbytes).
    assert (Erest : rest r = written (put a) ++ []) by (rewrite app_nil_r; exact Hbytes).
    unfold bind. rewrite (codec_complete r a [] Hr Hwf Erest).
    rewrite (proj2 (r_end_iff t _ (advance (written (put a)) r))); [done|].
    split; [by eapply rest_advance|done].
Qed.

Lemma r_end_total {Er} (t : N -> Er) r : fst (r_end t r) <> Panic.
Proof. unfold r_end, bind, get, throw, ret. by destruct (0 <? _). Qed.

Lemma parse_all_total {Er A} {wf : A -> Prop} {put} {g : reads Er A} `{!Codec wf put g} t bytes :
  Forall byte bytes -> parse_all t g bytes <> Panic.
Proof.
  intros Hb. unfold parse_all.
  assert (H : Safe (let! a := g in do! r_end t in ret a)); [|by apply H].
  apply safe_bind. intros a r _. pose proof (r_end_total t r) as Hf.
  unfold bind. by destruct (r_end t r) as [[]].
Qed.

(** ** SHA-256

    The hash is a function of the caller's choice; what a theorem needs of it
    is that the output has 32 bytes. *)
Class Sha256 (sha256 : list N -> list N) : Prop := sha256_wire l : hash_wire (sha256 l).

(** Two concrete hashes, to evaluate definitions: one depends on the length
    only, the other on every byte. *)
Definition length_hash (l : list N) : list N := be 32 (len l).
Definition poly_hash (l : list N) : list N := 
  be 32 (foldl (fun h b => N.land (h * 257 + b + 1) (2 ^ 256 - 1)) 0 l).

#[export] Instance length_hash_sha256 : Sha256 length_hash.
Proof. intros l. split; [apply be_bytes|apply be_length]. Qed.
#[export] Instance poly_hash_sha256 : Sha256 poly_hash.
Proof. intros l. split; [apply be_bytes|apply be_length]. Qed.
