(* ===== verification/PrefixFree.v ===== *)
(** Prefix freedom: encodings of which none extends another, so that the parts
    of equal concatenations are equal.  A codec is prefix free; so are
    sequences, options and lists of known length. *)
From S2P Require Import Prelude Bytes.

Class PrefixFree {A} (wf : A -> Prop) (put : A -> Writer -> Writer) : Prop := {
  pf_appends a : Appends (put a);
  pf_inj a b k l : wf a -> wf b -> written (put a) ++ k = written (put b) ++ l -> a = b /\ k = l;
}.

(** A codec is prefix free. *)
Lemma codec_prefix_free {Er A} {wf : A -> Prop} {put} {g : reads Er A} `{!Codec wf put g} : PrefixFree wf put.
Proof.
  split; [apply codec_appends|]. intros a b k l Ha Hb E.
  pose proof (codec_bytes a Ha) as Ba. pose proof (codec_bytes b Hb) as Bb.
  assert (H : a = b).
  { destruct (Nat.le_ge_cases (length (written (put a))) (length (written (put b)))) as [Hl|Hl].
    - apply (f_equal (take (length (written (put b))))) in E as E'.
      rewrite take_app_length, take_app_ge in E' by done.
      apply (codec_prefix_inj a b (take (length (written (put b)) - length (written (put a))) k) []
        Ha Hb); rewrite ?app_nil_r; [by rewrite E'|done].
    - symmetry. symmetry in E. apply (f_equal (take (length (written (put a))))) in E as E'.
      rewrite take_app_length, take_app_ge in E' by done.
      apply (codec_prefix_inj b a (take (length (written (put a)) - length (written (put b))) l) []
        Hb Ha); rewrite ?app_nil_r; [by rewrite E'|done]. }
  subst. split; [done|]. by apply app_inv_head in E.
Qed.

#[export] Instance pf_u8 : PrefixFree (u 8) w_u8 := codec_prefix_free (g := r_byte tt).
#[export] Instance pf_u16 : PrefixFree (u 16) w_u16 := codec_prefix_free (g := r_int 2 tt).
#[export] Instance pf_u32 : PrefixFree (u 32) w_u32 := codec_prefix_free (g := r_int 4 tt).
#[export] Instance pf_u64 : PrefixFree (u 64) w_u64 := codec_prefix_free (g := r_int 8 tt).
#[export] Instance pf_u128 : PrefixFree (u 128) w_u128 := codec_prefix_free (g := r_int 16 tt).
#[export] Instance pf_bool : PrefixFree (fun _ => True) w_bool.
Proof. split; [apply _|]. intros [] [] k l _ _ E; injection E as E; by subst. Qed.
#[export] Instance pf_hash : PrefixFree hash_wire w_bytes :=
  codec_prefix_free (g := r_slice 32 tt).
#[export] Instance pf_option {A} {wf : A -> Prop} {put} `{!PrefixFree wf put} :
  PrefixFree (option_wf wf) (w_option put).
Proof.
  split; [intros; apply appends_option, pf_appends|]. pose proof pf_appends as Happ.
  intros [a|] [b|] k l Ha Hb; simpl; rewrite ?written_seq by apply Happ; try done.
  - rewrite <- !app_assoc. intros [=H]. apply pf_inj in H as [-> ->]; auto.
  - by intros [= ->].
Qed.

(** Lists of a known length, and counted lists. *)
Lemma pf_all {A} {wf : A -> Prop} {put} `{!PrefixFree wf put} l1 l2 k1 k2 :
  length l1 = length l2 -> Forall wf l1 -> Forall wf l2 ->
  written (w_all put l1) ++ k1 = written (w_all put l2) ++ k2 -> l1 = l2 /\ k1 = k2.
Proof.
  pose proof pf_appends as Happ. rewrite !written_all by apply Happ. intros Hl Hf. revert l2 k1 k2 Hl.
  induction Hf as [|x l1 Hx Hf IH]; intros [|y l2] k1 k2 Hl Hf2; csimpl; try done.
  apply Forall_cons in Hf2 as [Hy Hf2]. rewrite <- !app_assoc. intros E.
  apply pf_inj in E as [-> E]; [|done..]. apply IH in E as [-> ->]; [done|simpl in Hl; lia|done].
Qed.

#[export] Instance pf_array {A} {wf : A -> Prop} {put} `{!PrefixFree wf put} n :
  PrefixFree (fun l => length l = n /\ Forall wf l) (w_all put).
Proof.
  split; [intros; apply appends_all, pf_appends|]. intros l1 l2 k1 k2 [H1 F1] [H2 F2].
  apply pf_all; [congruence|done..].
Qed.

#[export] Instance pf_counted {A} {wf : A -> Prop} {put} `{!PrefixFree wf put} :
  PrefixFree (fun l => len l <= 255 /\ Forall wf l) (w_counted put).
Proof.
  split; [intros; apply appends_counted, pf_appends|]. pose proof pf_appends as Happ.
  intros l1 l2 k1 k2 [H1 F1] [H2 F2]. unfold w_counted. rewrite !written_seq by apply _.
  rewrite <- !app_assoc. intros [= E1 E]. rewrite !wrap_small in E1 by lia.
  apply pf_all in E; [done|unfold len in E1; lia|done..].
Qed.

(** A length and that many raw bytes. *)
#[export] Instance pf_sized {putl w} `{!PrefixFree (u w) putl} :
  PrefixFree (fun l => u w (len l)) (w_sized putl).
Proof.
  pose proof (pf_appends (put := putl)) as Happ. split; [intros l; unfold w_sized; apply _|].
  intros l1 l2 k1 k2 H1 H2. unfold w_sized. rewrite !written_seq by apply _.
  rewrite <- !app_assoc. intros E. apply pf_inj in E as [El E]; [|done..].
  change (l1 ++ k1 = l2 ++ k2) in E. apply app_inj_1 in E; [done|unfold len in El; lia].
Qed.

(** Peel the statements of two equal encodings, one by one. *)
Ltac peel H :=
  lazymatch type of H with
  | written (w_seq ?f ?g) ++ _ = written (w_seq ?f' ?g') ++ _ =>
      rewrite (written_seq f g), (written_seq f' g') in H by apply _;
      rewrite <- !app_assoc in H; peel H
  | written (?put ?a) ++ _ = written (?put ?b) ++ _ =>
      let Hab := fresh "Hab" in
      apply (pf_inj (put := put) a b) in H as [Hab H]; [|solve [assumption|done]..]; peel H
  | _ => idtac
  end.

(** Open a right-nested conjunction, without opening its members. *)
Ltac decompose_typed H :=
  lazymatch type of H with
  | _ /\ _ => let H1 := fresh in let H2 := fresh in destruct H as [H1 H2]; decompose_typed H2
  | _ => idtac
  end.

(** A record whose fields are written in sequence. *)
Ltac pf_record p :=
  split; [let a := fresh in intros a; unfold p; apply _|];
  let a := fresh "a" in let b := fresh "b" in let E := fresh "E" in
  let H1 := fresh in intros a b ? ? H1; let H2 := fresh in intros H2 E;
  decompose_typed H1; decompose_typed H2; unfold p in E; peel E;
  split; [destruct a, b; simpl in *; congruence|done].
