(* ===== verification/ProgramCodec.v ===== *)
(** The canonical codec of the witness mode: fields, programs and scalars
    (src/crates/vhalla-witness/src/codec.rs). *)
From S2P Require Import Prelude Language World Bytes.

(** The codec of the witness engine (src/crates/vhalla-witness/src/codec.rs):
    its errors, its bounded reader, the reads of every primitive and the
    documents decoded with them, over the generic laws of [Bytes]. *)

(** ** Fields and errors *)

Inductive Field : Type :=
| FVersion | FLanguage | FCount | FBool | FSlot | FPort | FValve | FValue | FDirection
| FRelative | FCondition | FActionTag | FBitSource | FRemember | FCellId | FPoint | FSpark
| FSource | FDepot | FBeacon | FValveSpec | FCell | FLink | FEndpoint | FEvent | FCase
| FContract | FStatus | FHash | FLedger.

Inductive CodecError : Type :=
| TooLarge (actual limit : N)
| Truncated (field : Field)
| TrailingBytes (count : N)
| UnsupportedVersion (found : N)
| UnsupportedLanguage (found : N)
| Discriminant (field : Field) (found : N)
| Bound (field : Field)
| Unsorted (field : Field)
| ModelFault (e : ModelError).

Definition codec_of_model (e : ModelError) : CodecError := ModelFault e.

(** ** Reader *)

Notation read := (reads CodecError).

Definition bounded (bytes : list N) (limit : N) : res CodecError Reader :=
  if limit <? len bytes then Err (TooLarge (len bytes) limit) else Ok (mkReader bytes 0).

Definition r_take (n : nat) (field : Field) : read (list N) := r_slice n (Truncated field).
Definition r_u8 (field : Field) : read N := r_byte (Truncated field).
Definition r_u16 (field : Field) : read N := r_int 2 (Truncated field).
Definition r_u32 (field : Field) : read N := r_int 4 (Truncated field).
Definition r_u64 (field : Field) : read N := r_int 8 (Truncated field).
Definition r_bool (field : Field) : read bool :=
  let! b := r_u8 field in
  match b with
  | 0 => ret false
  | 1 => ret true
  | found => throw (Discriminant field found)
  end.
Definition r_hash : read (list N) := r_take 32 FHash.
Definition r_count (limit : N) (field : Field) : read N :=
  let! count := r_u8 field in
  if limit <? count then throw (Bound field) else ret count.
Definition r_finish : read unit := r_end TrailingBytes.

(** ** Primitive codecs *)

#[export] Instance codec_u8 f : Codec (u 8) w_u8 (r_u8 f).
Proof. apply codec_byte. Qed.
#[export] Instance codec_u16 f : Codec (u 16) w_u16 (r_u16 f).
Proof. apply codec_int16. Qed.
#[export] Instance codec_u32 f : Codec (u 32) w_u32 (r_u32 f).
Proof. apply codec_int32. Qed.
#[export] Instance codec_u64 f : Codec (u 64) w_u64 (r_u64 f).
Proof. apply codec_int64. Qed.
#[export] Instance codec_hash : Codec hash_wire w_bytes r_hash.
Proof. apply codec_slice. lia. Qed.

#[export] Instance codec_bool f : Codec (fun _ => True) w_bool (r_bool f).
Proof.
  apply codec_intro; [apply _| | | |].
  - intros [] _; by repeat constructor.
  - unfold r_bool. apply safe_bind. intros [|[|[]|]]; apply _.
  - intros r k b r' Hr E H. unfold r_bool in H. inv_reads H Hr E.
    destruct a as [|[]]; inv_reads H Hr E; inv_close E; done.
  - intros r k b Hr _ E. unfold r_bool.
    change (written (w_bool b)) with (written (w_u8 (N.b2n b))) in *.
    fwd_read E; [|by destruct b]. by destruct b.
Qed.

(** A newtype over a hash. *)
Lemma codec_newtype {A} (mk : list N -> A) (un : A -> list N) (put : A -> Writer -> Writer) :
  (forall h, un (mk h) = h) -> (forall a, mk (un a) = a) -> (forall a, put a = w_bytes (un a)) ->
  Codec (fun a => hash_wire (un a)) put (let! h := r_hash in ret (mk h)).
Proof.
  intros Hum Hmu Hput. apply codec_intro.
  - intros a. rewrite Hput. apply _.
  - intros a. rewrite Hput. by intros [Hb _].
  - apply safe_bind. apply _.
  - intros r k a r' Hr E H. inv_reads H Hr E. rewrite Hum. split; [done|].
    eexists _, _. split; [exact E|]. by rewrite Hput, Hum.
  - intros r k a Hr Hwf E. rewrite Hput in *. fwd_read E; [|done]. unfold ret. by rewrite Hmu.
Qed.

(** *** Counts and loops *)

#[export] Instance codec_count limit f :
  Codec (fun n => n <= limit /\ u 8 n) w_u8 (r_count limit f).
Proof.
  apply codec_intro; [apply _| | | |].
  - intros a [_ ?]. by apply (codec_bytes (g := r_u8 f)).
  - unfold r_count. apply safe_bind. intros a. destruct (limit <? a); apply _.
  - intros r k b r' Hr E H. unfold r_count in H. inv_reads H Hr E.
    destruct (N.ltb_spec limit a); inv_reads H Hr E. by inv_close E.
  - intros r k b Hr [Hl Hu] E. unfold r_count. fwd_read E; [|done].
    by rewrite (proj2 (N.ltb_ge _ _)).
Qed.

(** A byte count and that many items. *)
Definition r_counted {A} (limit : N) (f : Field) (g : read A) : read (list A) :=
  let! n := r_count limit f in r_repeat (N.to_nat n) g.

Lemma codec_counted {A} {wf : A -> Prop} {put} {g : read A} `{!Codec wf put g} limit f :
  limit < 256 -> Codec (fun l => len l <= limit /\ Forall wf l) (w_counted put) (r_counted limit f g).
Proof.
  intros Hlim. assert (Happ : forall a, Appends (put a)) by apply codec_appends.
  unfold r_counted, w_counted. apply codec_intro; [apply _| | | |].
  - intros l [Hl Hf]. rewrite written_seq by apply _. apply Forall_app. split.
    + apply (codec_bytes (g := r_u8 f)). unfold u, wrap. by apply N.mod_lt.
    + by apply (codec_bytes (g := r_repeat (length l) g)).
  - apply _.
  - intros r k l r' Hr E H. inv_reads H Hr E.
    apply (inv_last _ _ _ _ _ Hr E) in H as ([Hl Hf] & k' & E' & ->).
    destruct Ha as [Hle Hu]. assert (len l = a) by (unfold len; lia).
    split; [split; [lia|done]|]. eexists _, _. split; [exact E'|]. split; [done|].
    rewrite written_seq by apply _. subst a. by rewrite wrap_small.
  - intros r k l Hr [Hl Hf] E. rewrite !written_seq in * by apply _. rewrite wrap_small in * by (unfold u; lia).
    rewrite <- app_assoc in E. fwd_read E; [|split; [done|unfold u; lia]].
    fwd_read E; [done|]. unfold len. by rewrite Nat2N.id.
Qed.

(** An optional value behind a 0 or 1 tag. *)
Definition r_option {A} (f : Field) (g : read A) : read (option A) :=
  r_tagged (Truncated f) (Discriminant f) g.

#[export] Instance codec_option {A} {wf : A -> Prop} {put} {g : read A} `{!Codec wf put g} f :
  Codec (option_wf wf) (w_option put) (r_option f g).
Proof. apply codec_tagged. Qed.

(** ** Documents: a bounded input that is one value *)

Definition decode {A} (limit : N) (g : read A) (bytes : list N) : res CodecError A :=
  let? r := bounded bytes limit in
  fst ((let! a := g in do! r_finish in ret a) r).

Lemma decode_parse {A} (g : read A) limit bytes :
  decode limit g bytes =
  if limit <? len bytes then Err (TooLarge (len bytes) limit) else parse_all TrailingBytes g bytes.
Proof. unfold decode, bounded. by destruct (limit <? len bytes). Qed.

(** A bounded decoder accepts exactly the canonical bytes of well-formed values. *)
Lemma decode_iff {A} {wf : A -> Prop} {put} {g : read A} `{!Codec wf put g} limit bytes a :
  Forall byte bytes ->
  decode limit g bytes = Ok a <-> wf a /\ bytes = written (put a) /\ len bytes <= limit.
Proof.
  intros Hb. rewrite decode_parse. destruct (N.ltb_spec limit (len bytes)) as [Hl|Hl].
  - split; [done|]. intros (_ & _ & ?). lia.
  - rewrite parse_all_iff by done. tauto.
Qed.

Lemma decode_total {A} {wf : A -> Prop} {put} {g : read A} `{!Codec wf put g} limit bytes :
  Forall byte bytes -> decode limit g bytes <> Panic.
Proof.
  intros Hb. rewrite decode_parse. destruct (limit <? len bytes); [done|by apply parse_all_total].
Qed.

(** The codecs of rule programs and candidates
    (src/crates/vhalla-witness/src/codec.rs, from the header to
    [decode_candidate]). *)

Definition VERSION : N := 1.
Definition LANGUAGE_FINITE_RULE_V1 : N := 1.

Definition MAX_CONDITION_BYTES : N := 3.
Definition MAX_ACTION_BYTES : N := 5.
Definition MAX_RULE_BYTES : N := 1 + MAX_CONDITIONS * MAX_CONDITION_BYTES + MAX_ACTION_BYTES + 3.
Definition MAX_PROGRAM_BODY_BYTES : N := 1 + MAX_RULES * MAX_RULE_BYTES.
Definition MAX_PROGRAM_BYTES : N := 2 + MAX_PROGRAM_BODY_BYTES.
Definition MAX_ASSIGNMENT_BYTES : N := 3 + MAX_CELLS * (2 + MAX_PROGRAM_BODY_BYTES).

(** The two header bytes. *)
Definition put_header (_ : unit) : Writer -> Writer :=
  w_u8 VERSION >> w_u8 LANGUAGE_FINITE_RULE_V1.

Definition header : read unit :=
  let! found := r_u8 FVersion in
  if negb (found =? VERSION) then throw (UnsupportedVersion found)
  else
    let! found := r_u8 FLanguage in
    if negb (found =? LANGUAGE_FINITE_RULE_V1) then throw (UnsupportedLanguage found)
    else ret tt.

Definition direction_tag (d : Direction) : N :=
  match d with North => 1 | East => 2 | South => 3 | West => 4 end.
Definition w_direction (d : Direction) : Writer -> Writer := w_u8 (direction_tag d).
Definition direction : read Direction :=
  let! tag := r_u8 FDirection in
  match tag with
  | 1 => ret North
  | 2 => ret East
  | 3 => ret South
  | 4 => ret West
  | found => throw (Discriminant FDirection found)
  end.

Definition relative_tag (r : Relative) : N :=
  match r with Forward => 1 | Left => 2 | Right => 3 | Back => 4 end.
Definition w_relative (r : Relative) : Writer -> Writer := w_u8 (relative_tag r).
Definition relative : read Relative :=
  let! tag := r_u8 FRelative in
  match tag with
  | 1 => ret Forward
  | 2 => ret Left
  | 3 => ret Right
  | 4 => ret Back
  | found => throw (Discriminant FRelative found)
  end.

Definition w_slot (s : Slot) : Writer -> Writer := w_u8 (slot_get s).
Definition slot : read Slot :=
  let! n := r_u8 FSlot in lift (ok_or (Slot_new n) (Bound FSlot)).

Definition w_port (p : Port) : Writer -> Writer := w_u8 (port_get p).
Definition port : read Port :=
  let! n := r_u8 FPort in lift (ok_or (Port_new n) (Bound FPort)).

Definition put_condition (c : Condition) : Writer -> Writer :=
  match c with
  | Carrying value => w_u8 1 >> w_bool value
  | AtSource value => w_u8 2 >> w_bool value
  | AtDepot value => w_u8 3 >> w_bool value
  | AtBeacon value => w_u8 4 >> w_bool value
  | AtReceiver value => w_u8 5 >> w_bool value
  | Blocked direction value => w_u8 6 >> w_relative direction >> w_bool value
  | HasMessage port value => w_u8 7 >> w_port port >> w_bool value
  | MessageBit port value => w_u8 8 >> w_port port >> w_bool value
  | Memory slot value => w_u8 9 >> w_slot slot >> w_u8 value
  | Heading direction => w_u8 10 >> w_direction direction
  end.

Definition get_condition : read Condition :=
  let! tag := r_u8 FCondition in
  match tag with
  | 1 => let! value := r_bool FBool in ret (Carrying value)
  | 2 => let! value := r_bool FBool in ret (AtSource value)
  | 3 => let! value := r_bool FBool in ret (AtDepot value)
  | 4 => let! value := r_bool FBool in ret (AtBeacon value)
  | 5 => let! value := r_bool FBool in ret (AtReceiver value)
  | 6 => let! direction := relative in let! value := r_bool FBool in ret (Blocked direction value)
  | 7 => let! port := port in let! value := r_bool FBool in ret (HasMessage port value)
  | 8 => let! port := port in let! value := r_bool FBool in ret (MessageBit port value)
  | 9 => let! slot := slot in let! value := r_u8 FValue in ret (Memory slot value)
  | 10 => let! direction := direction in ret (Heading direction)
  | found => throw (Discriminant FCondition found)
  end.

Definition put_bit_source (b : BitSource) : Writer -> Writer :=
  match b with
  | BitConstant value => w_u8 1 >> w_bool value
  | BitMemory slot => w_u8 2 >> w_slot slot
  | BitMessage port => w_u8 3 >> w_port port
  end.

Definition get_bit_source : read BitSource :=
  let! tag := r_u8 FBitSource in
  match tag with
  | 1 => let! value := r_bool FBool in ret (BitConstant value)
  | 2 => let! slot := slot in ret (BitMemory slot)
  | 3 => let! port := port in ret (BitMessage port)
  | found => throw (Discriminant FBitSource found)
  end.

Definition w_valve (v : ValveId) : Writer -> Writer := w_u16 (valve_get v).
Definition valve : read ValveId := let! n := r_u16 FValve in ret (mkValveId n).

Definition put_action (a : Action) : Writer -> Writer :=
  match a with
  | Move direction => w_u8 1 >> w_relative direction
  | Turn direction => w_u8 2 >> w_relative direction
  | Pickup => w_u8 3
  | Drop => w_u8 4
  | Wait => w_u8 5
  | WriteMemory slot value => w_u8 6 >> w_slot slot >> w_u8 value
  | TakeMessage port slot => w_u8 7 >> w_port port >> w_slot slot
  | Send port bit => w_u8 8 >> w_port port >> put_bit_source bit
  | Route valve bit => w_u8 9 >> w_valve valve >> put_bit_source bit
  end.

Definition get_action : read Action :=
  let! tag := r_u8 FActionTag in
  match tag with
  | 1 => let! direction := relative in ret (Move direction)
  | 2 => let! direction := relative in ret (Turn direction)
  | 3 => ret Pickup
  | 4 => ret Drop
  | 5 => ret Wait
  | 6 => let! slot := slot in let! value := r_u8 FValue in ret (WriteMemory slot value)
  | 7 => let! port := port in let! slot := slot in ret (TakeMessage port slot)
  | 8 => let! port := port in let! bit := get_bit_source in ret (Send port bit)
  | 9 => let! valve := valve in let! bit := get_bit_source in ret (Route valve bit)
  | found => throw (Discriminant FActionTag found)
  end.

(** A remembered write; the option tag is [w_option]'s. *)
Definition put_write (m : MemoryWrite) : Writer -> Writer :=
  w_slot (write_slot m) >> w_u8 (write_value m).
Definition get_write : read MemoryWrite :=
  let! slot := slot in let! value := r_u8 FValue in ret (mkMemoryWrite slot value).

Definition put_rule (r : Rule) : Writer -> Writer :=
  w_counted put_condition (rule_when r) >> put_action (rule_action r)
  >> w_option put_write (rule_remember r).

Definition get_rule : read Rule :=
  let! when := r_counted MAX_CONDITIONS FCount get_condition in
  let! action := get_action in
  let! remember := r_option FRemember get_write in
  lift (map_err codec_of_model (Rule_new when action remember)).

Definition put_program_body (p : Program) : Writer -> Writer := w_counted put_rule (rules p).

Definition get_program_body : read Program :=
  let! rules := r_counted MAX_RULES FCount get_rule in
  lift (map_err codec_of_model (Program_new rules)).

Definition encode_program (p : Program) : list N :=
  written (put_header tt >> put_program_body p).

Definition decode_program (bytes : list N) : res CodecError Program :=
  decode MAX_PROGRAM_BYTES (do! header in get_program_body) bytes.

(** [(cell id, value)] pairs. *)
Definition put_entry_of {A} (put : A -> Writer -> Writer) (e : N * A) : Writer -> Writer :=
  w_u16 e.1 >> put e.2.

Definition encode_candidate (ps : list (N * Program)) : list N :=
  written (put_header tt >> w_counted (put_entry_of put_program_body) ps).

Definition encode_assignment (a : Assignment) : list N :=
  encode_candidate (zip (asg_cells a) (programs a)).

(** [previous.is_some_and(|last| cell <= last)] *)
Definition out_of_order (previous : option N) (cell : N) : bool :=
  match previous with Some last => cell <=? last | None => false end.

(** One iteration of the loop that rejects ids that are not strictly ascending. *)
Definition get_entry {A} (body : read A) (previous : option N) : read (N * A) :=
  let! cell := r_u16 FCellId in
  if out_of_order previous cell
  then throw (Unsorted FCellId)
  else let! x := body in ret (cell, x).

Fixpoint get_entries {A} (n : nat) (body : read A) (previous : option N) : read (list (N * A)) :=
  match n with
  | O => ret []
  | S n =>
      let! e := get_entry body previous in
      let! l := get_entries n body (Some e.1) in
      ret (e :: l)
  end.

Definition get_candidate : read (list (N * Program)) :=
  let! count := r_count MAX_CELLS FCount in
  get_entries (N.to_nat count) get_program_body None.

Definition decode_candidate (bytes : list N) : res CodecError (list (N * Program)) :=
  decode MAX_ASSIGNMENT_BYTES (do! header in get_candidate) bytes.

(** ** Laws *)

#[export] Instance codec_header : Codec (fun _ => True) put_header header.
Proof.
  apply codec_intro; [codec_appends put_header|codec_bytes_tac put_header|codec_safe header| |].
  2: { intros r k [] Hr _ E. unfold put_header in *. rewrite !written_seq in * by apply _.
    rewrite <- ?app_assoc in E. unfold header. fwd_read E; [|done].
    rewrite N.eqb_refl. cbn [negb]. fwd_read E; [|done]. rewrite N.eqb_refl. done. }
  intros r k [] r' Hr E H. unfold header in H. inv_reads H Hr E.
  destruct (N.eqb_spec a VERSION) as [->|]; [|done]. cbn [negb] in H. inv_reads H Hr E.
  destruct (N.eqb_spec a LANGUAGE_FINITE_RULE_V1) as [->|]; [|done]. cbn [negb] in H.
  inv_reads H Hr E. by inv_close_with put_header E.
Qed.

#[export] Instance codec_direction : Codec (fun _ => True) w_direction direction.
Proof. codec_tac w_direction direction. Qed.

#[export] Instance codec_relative : Codec (fun _ => True) w_relative relative.
Proof. codec_tac w_relative relative. Qed.

(** Indices validated by their constructor. *)
#[export] Instance codec_slot : Codec slot_wf w_slot slot.
Proof.
  apply codec_intro; [intros; apply _| | | |].
  - intros [n] H. apply bytes_u8. unfold slot_wf, MEMORY_SLOTS in H. simpl in *. unfold u. lia.
  - unfold slot. apply safe_bind. intros n r _. by destruct (Slot_new n).
  - intros r k b r' Hr E H. unfold slot in H. inv_reads H Hr E. unfold lift in H.
    destruct (Slot_new a) as [s|] eqn:Es; [|done]. simpl in H. injection H as <- <-.
    apply Slot_new_spec in Es as [-> Hs]. by inv_close E.
  - intros r k [n] Hr Hwf E. unfold slot. change (written (w_slot (mkSlot n))) with (written (w_u8 n)) in *.
    fwd_read E.
    + unfold lift. by rewrite (proj2 (Slot_new_spec n (mkSlot n)) (conj eq_refl Hwf)).
    + unfold slot_wf, MEMORY_SLOTS in Hwf. simpl in *. unfold u. lia.
Qed.

#[export] Instance codec_port : Codec port_wf w_port port.
Proof.
  apply codec_intro; [intros; apply _| | | |].
  - intros [n] H. apply bytes_u8. unfold port_wf, PORTS in H. simpl in *. unfold u. lia.
  - unfold port. apply safe_bind. intros n r _. by destruct (Port_new n).
  - intros r k b r' Hr E H. unfold port in H. inv_reads H Hr E. unfold lift in H.
    destruct (Port_new a) as [s|] eqn:Es; [|done]. simpl in H. injection H as <- <-.
    apply Port_new_spec in Es as [-> Hs]. by inv_close E.
  - intros r k [n] Hr Hwf E. unfold port. change (written (w_port (mkPort n))) with (written (w_u8 n)) in *.
    fwd_read E.
    + unfold lift. by rewrite (proj2 (Port_new_spec n (mkPort n)) (conj eq_refl Hwf)).
    + unfold port_wf, PORTS in Hwf. simpl in *. unfold u. lia.
Qed.

Definition valve_wf (v : ValveId) : Prop := valve_get v < 2 ^ 16.

#[export] Instance codec_valve : Codec valve_wf w_valve valve.
Proof.
  apply codec_intro; [intros; apply _|intros [n] _; apply bytes_u16| | |].
  - codec_safe valve.
  - intros r k b r' Hr E H. unfold valve in H. inv_reads H Hr E. by inv_close E.
  - intros r k [n] Hr Hwf E. unfold valve. change (written (w_valve (mkValveId n))) with (written (w_u16 n)) in *.
    by fwd_read E.
Qed.

Lemma bytes_slot s : slot_wf s -> Forall byte (written (w_slot s)).
Proof. apply (codec_bytes (g := slot)). Qed.
Lemma bytes_port p : port_wf p -> Forall byte (written (w_port p)).
Proof. apply (codec_bytes (g := port)). Qed.
Lemma bytes_relative r : Forall byte (written (w_relative r)).
Proof. by apply (codec_bytes (g := relative)). Qed.
Lemma bytes_direction d : Forall byte (written (w_direction d)).
Proof. by apply (codec_bytes (g := direction)). Qed.
Lemma bytes_valve v : Forall byte (written (w_valve v)).
Proof. apply be_bytes. Qed.
#[export] Hint Resolve bytes_slot bytes_port bytes_relative bytes_direction bytes_valve : bytes.

#[export] Instance codec_condition : Codec condition_wf put_condition get_condition.
Proof. codec_tac put_condition get_condition. Qed.
Lemma bytes_condition c : condition_wf c -> Forall byte (written (put_condition c)).
Proof. apply (codec_bytes (g := get_condition)). Qed.

#[export] Instance codec_bit_source : Codec bit_source_wf put_bit_source get_bit_source.
Proof. codec_tac put_bit_source get_bit_source. Qed.
Lemma bytes_bit_source b : bit_source_wf b -> Forall byte (written (put_bit_source b)).
Proof. apply (codec_bytes (g := get_bit_source)). Qed.
#[export] Hint Resolve bytes_condition bytes_bit_source : bytes.

#[export] Instance codec_action : Codec action_wf put_action get_action.
Proof. codec_tac put_action get_action. Qed.
Lemma bytes_action a : action_wf a -> Forall byte (written (put_action a)).
Proof. apply (codec_bytes (g := get_action)). Qed.

#[export] Instance codec_write : Codec write_wf put_write get_write.
Proof. unfold write_wf. codec_tac put_write get_write. Qed.
Lemma bytes_write m : write_wf m -> Forall byte (written (put_write m)).
Proof. apply (codec_bytes (g := get_write)). Qed.
#[export] Hint Resolve bytes_action bytes_write : bytes.

#[export] Instance codec_conditions :
  Codec (fun l => len l <= MAX_CONDITIONS /\ Forall condition_wf l) (w_counted put_condition)
    (r_counted MAX_CONDITIONS FCount get_condition).
Proof. by apply codec_counted. Qed.

(** Values built by a fallible constructor after the reads. *)
Lemma Rule_new_ok when action remember r :
  Rule_new when action remember = Ok r <->
  r = mkRule when action remember /\ len when <= MAX_CONDITIONS.
Proof.
  unfold Rule_new. destruct (N.ltb_spec MAX_CONDITIONS (len when)); [|naive_solver].
  split; [done|]. intros [_ ?]. lia.
Qed.

#[export] Instance codec_rule : Codec rule_wf put_rule get_rule.
Proof.
  apply codec_intro; [codec_appends put_rule| | | |].
  - intros [when action remember] [Hc Hw Ha Hr]. simpl in *. unfold put_rule. simpl.
    rewrite !written_seq by apply _. repeat (apply Forall_app; split).
    + by apply (codec_bytes (g := r_counted MAX_CONDITIONS FCount get_condition)).
    + by apply bytes_action.
    + apply (codec_bytes (g := r_option FRemember get_write)). by intros m ->.
  - unfold get_rule. repeat (apply safe_bind; intros). intros r _. unfold Rule_new.
    by destruct (MAX_CONDITIONS <? _).
  - intros r k b r' Hr E H. unfold get_rule in H. inv_reads H Hr E. unfold lift in H.
    destruct (Rule_new a a0 a1) as [rule|e|] eqn:En; [|done..]. injection H as <- <-.
    apply Rule_new_ok in En as [-> Hl]. destruct Ha as [_ Hw]. inv_close_with put_rule E.
    split; simpl; try done. destruct a1; [by apply Ha1|done].
  - intros r k [when action remember] Hr [Hc Hw Ha Hrm] E. simpl in *.
    unfold put_rule, get_rule in *. simpl in *. rewrite !written_seq in * by apply _.
    rewrite <- ?app_assoc in E. fwd_read E; [|done]. fwd_read E; [|done].
    fwd_read E; [|by intros m ->]. unfold lift.
    rewrite (proj2 (Rule_new_ok when action remember _)) by (split; [reflexivity|done]).
    simpl. by rewrite <- app_assoc.
Qed.
Lemma bytes_rule r : rule_wf r -> Forall byte (written (put_rule r)).
Proof. apply (codec_bytes (g := get_rule)). Qed.

#[export] Instance codec_rules :
  Codec (fun l => len l <= MAX_RULES /\ Forall rule_wf l) (w_counted put_rule)
    (r_counted MAX_RULES FCount get_rule).
Proof. by apply codec_counted. Qed.

Lemma Program_new_ok rs p :
  Program_new rs = Ok p <-> p = mkProgram rs /\ MIN_RULES <= len rs <= MAX_RULES.
Proof.
  unfold Program_new. destruct (N.ltb_spec (len rs) MIN_RULES).
  { split; [done|]. intros [_ ?]. lia. }
  destruct (N.ltb_spec MAX_RULES (len rs)); [|naive_solver].
  split; [done|]. intros [_ ?]. lia.
Qed.

#[export] Instance codec_program : Codec program_wf put_program_body get_program_body.
Proof.
  apply codec_intro; [codec_appends put_program_body| | | |].
  - intros p [H1 H2 H3]. unfold put_program_body.
    by apply (codec_bytes (g := r_counted MAX_RULES FCount get_rule)
      (wf := fun l => len l <= MAX_RULES /\ Forall rule_wf l)).
  - unfold get_program_body. apply safe_bind. intros rs r _. unfold Program_new.
    by destruct (_ <? _); [|destruct (_ <? _)].
  - intros r k b r' Hr E H. unfold get_program_body in H. inv_reads H Hr E. unfold lift in H.
    destruct (Program_new a) as [p|e|] eqn:En; [|done..]. injection H as <- <-.
    apply Program_new_ok in En as [-> [Hl1 Hl2]]. destruct Ha as [_ Hw].
    inv_close_with put_program_body E. by split.
  - intros r k [rs] Hr [H1 H2 H3] E. simpl in *. unfold put_program_body, get_program_body in *.
    simpl in *. fwd_read E; [|done]. unfold lift.
    by rewrite (proj2 (Program_new_ok rs _)) by (split; [reflexivity|done]).
Qed.
Lemma bytes_program p : program_wf p -> Forall byte (written (put_program_body p)).
Proof. apply (codec_bytes (g := get_program_body)). Qed.
#[export] Hint Resolve bytes_rule bytes_program : bytes.

(** ** Headers and sorted entries *)

Definition with_header {A} (put : A -> Writer -> Writer) (a : A) : Writer -> Writer :=
  put_header tt >> put a.

#[export] Instance codec_headed {A} {wf : A -> Prop} {put} {g : read A} `{!Codec wf put g} :
  Codec wf (with_header put) (do! header in g).
Proof.
  assert (Happ : forall a, Appends (put a)) by apply codec_appends.
  unfold with_header. apply codec_intro; [apply _| | | |].
  - intros a Ha. rewrite written_seq by done. apply Forall_app.
    split; [by apply (codec_bytes (g := header))|by apply codec_bytes].
  - apply _.
  - intros r k b r' Hr E H. inv_reads H Hr E. destruct a.
    apply (inv_last _ _ _ _ _ Hr E) in H as (Hb & k' & E' & ->). split; [done|].
    eexists _, _. split; [exact E'|]. split; [done|]. by rewrite written_seq by done.
  - intros r k a Hr Ha E. rewrite written_seq in * by done. rewrite <- ?app_assoc in E.
    fwd_read E; [|done]. by fwd_read E.
Qed.

(** Identifiers strictly ascending, above [previous]. *)
Fixpoint ascending (previous : option N) (ids : list N) : Prop :=
  match ids with
  | [] => True
  | id :: ids =>
      match previous with Some last => last < id | None => True end /\ ascending (Some id) ids
  end.

Definition entry_wf {A} (wf : A -> Prop) (e : N * A) : Prop := e.1 < 2 ^ 16 /\ wf e.2.

#[export] Instance appends_entry {A} (put : A -> Writer -> Writer) e :
  (forall a, Appends (put a)) -> Appends (put_entry_of put e).
Proof. unfold put_entry_of. apply _. Qed.

Section Entries.
Context {A : Type} {wf : A -> Prop} {put : A -> Writer -> Writer} {body : read A}.
Context `{!Codec wf put body}.

Definition entries_wf (n : nat) (previous : option N) (l : list (N * A)) : Prop :=
  length l = n /\ ascending previous l.*1 /\ Forall (entry_wf wf) l.

Lemma put_appends a : Appends (put a).
Proof. apply codec_appends. Qed.

Definition above (previous : option N) (id : N) : Prop :=
  match previous with Some last => last < id | None => True end.

#[export] Instance codec_entry previous :
  Codec (fun e => above previous e.1 /\ entry_wf wf e) (put_entry_of put)
    (get_entry body previous).
Proof.
  pose proof put_appends as Happ. unfold put_entry_of.
  assert (Habove : forall id, out_of_order previous id = false <-> above previous id).
  { intros id. destruct previous; simpl; [apply N.leb_gt|done]. }
  apply codec_intro; [apply _| | | |].
  - intros e (_ & _ & He). rewrite written_seq by apply _. apply Forall_app.
    split; [apply bytes_u16|by apply codec_bytes].
  - unfold get_entry. apply safe_bind. intros cell.
    destruct (out_of_order previous cell); apply _.
  - intros r k e r' Hr E H. unfold get_entry in H. inv_reads H Hr E.
    destruct (out_of_order previous a) eqn:Eo; [done|]. apply Habove in Eo.
    inv_reads H Hr E. by inv_close E.
  - intros r k [id x] Hr (Hab & Hid & Hx) E. simpl in *. rewrite !written_seq in * by apply _.
    rewrite <- app_assoc in E. unfold get_entry. fwd_read E; [|done].
    rewrite (proj2 (Habove id) Hab). by fwd_read E.
Qed.

Lemma get_entries_iff n previous r l r' :
  reader_ok r ->
  get_entries n body previous r = (Ok l, r') <->
  entries_wf n previous l /\
  exists k, rest r = written (w_all (put_entry_of put) l) ++ k /\
    r' = advance (written (w_all (put_entry_of put) l)) r.
Proof.
  assert (Hent : forall e, Appends (put_entry_of put e))
    by (intros e; by apply appends_entry, put_appends). unfold entries_wf.
  revert previous r l r'. induction n as [|n IH]; intros previous r l r' Hr; cbn [get_entries].
  - rewrite written_all by done. unfold ret. split.
    + intros [= <- <-]. split; [done|]. exists (rest r). by rewrite advance_nil.
    + intros ([Hl _] & k & _ & ->). destruct l; [|done]. simpl. by rewrite advance_nil.
  - rewrite read_bind by done. split.
    + intros ([id x] & [Hab He] & k & E & H). unfold bind in H.
      destruct (get_entries n body (Some (id, x).1) _) as [[l'|e|] r1] eqn:E1; [|done..].
      unfold ret in H. injection H as <- <-.
      apply IH in E1 as ((Hl & Has & Hf) & k' & E2 & ->); [|done].
      rewrite (rest_advance _ _ _ E) in E2. subst k.
      split; [split; [simpl; lia|split; [done|by constructor]]|].
      exists k'. rewrite !written_all in * by done. csimpl. rewrite <- app_assoc, advance_app.
      done.
    + intros ((Hl & Has & Hf) & k & E & ->). destruct l as [|[id x] l]; [done|].
      apply Forall_cons in Hf as [He Hf]. csimpl in *. destruct Has as [Hab Has].
      rewrite written_all in * by done. csimpl in E. exists (id, x). split; [done|].
      eexists. split; [by rewrite E, <- app_assoc|]. unfold bind. cbn [fst].
      rewrite (proj2 (IH (Some id) (advance (written (put_entry_of put (id, x))) r) l
        (advance (written (w_all (put_entry_of put) l)) (advance (written (put_entry_of put (id, x))) r))
        Hr)).
      * unfold ret. rewrite advance_app, written_all by done. done.
      * split; [by split; [lia|]|]. exists k. rewrite written_all by done.
        split; [|done]. apply rest_advance. by rewrite E, <- app_assoc.
Qed.

#[export] Instance codec_entries n previous :
  Codec (entries_wf n previous) (w_all (put_entry_of put)) (get_entries n body previous).
Proof.
  pose proof put_appends as Happ. split.
  - apply _.
  - intros l (_ & _ & Hl). rewrite written_all by apply _. induction Hl as [|e l He Hl IH];
      csimpl; [constructor|]. apply Forall_app. split; [|done].
    by apply (codec_bytes (g := get_entry body None)).
  - intros r l r' Hr. by apply get_entries_iff.
  - revert previous. induction n as [|n IH]; intros previous r Hr; cbn [get_entries]; [done|].
    revert r Hr. apply safe_bind. intros e r Hr. unfold bind. specialize (IH (Some e.1) r Hr).
    by destruct (get_entries n body (Some e.1) r) as [[]].
Qed.

(** A counted list of entries. *)
Definition list_wf (limit : N) (l : list (N * A)) : Prop :=
  len l <= limit /\ ascending None l.*1 /\ Forall (entry_wf wf) l.

Lemma codec_counted_entries limit f :
  limit < 256 ->
  Codec (list_wf limit) (w_counted (put_entry_of put))
    (let! count := r_count limit f in get_entries (N.to_nat count) body None).
Proof.
  intros Hlim. pose proof put_appends as Happ. unfold w_counted. apply codec_intro; [apply _| | | |].
  - intros l (Hl & Has & Hf). rewrite written_seq by apply _. apply Forall_app. split.
    + apply bytes_u8. unfold u, wrap. by apply N.mod_lt.
    + by apply (codec_bytes (g := get_entries (length l) body None)).
  - apply _.
  - intros r k l r' Hr E H. inv_reads H Hr E.
    apply (inv_last _ _ _ _ _ Hr E) in H as ((Hl & Has & Hf) & k' & E' & ->).
    destruct Ha as [Hle Hu]. assert (len l = a) by (unfold len; lia).
    split; [split; [lia|done]|]. eexists _, _. split; [exact E'|]. split; [done|].
    rewrite written_seq by apply _. subst a. by rewrite wrap_small.
  - intros r k l Hr (Hl & Has & Hf) E. rewrite !written_seq in * by apply _.
    rewrite wrap_small in * by (unfold u; lia).
    rewrite <- app_assoc in E. fwd_read E; [|split; [done|unfold u; lia]].
    fwd_read E; [done|]. unfold len. rewrite Nat2N.id. done.
Qed.
End Entries.

(** ** Sizes *)

Definition size (p : Writer -> Writer) : N := len (written p).

Lemma size_seq f g `{!Appends g} : size (f >> g) = size f + size g.
Proof. unfold size, len. rewrite written_seq, length_app by done. lia. Qed.

Lemma size_u8 v : size (w_u8 v) = 1. Proof. done. Qed.
Lemma size_u16 v : size (w_u16 v) = 2. Proof. done. Qed.
Lemma size_u32 v : size (w_u32 v) = 4. Proof. done. Qed.
Lemma size_u64 v : size (w_u64 v) = 8. Proof. done. Qed.
Lemma size_bool v : size (w_bool v) = 1. Proof. done. Qed.
Lemma size_slot v : size (w_slot v) = 1. Proof. done. Qed.
Lemma size_port v : size (w_port v) = 1. Proof. done. Qed.
Lemma size_relative v : size (w_relative v) = 1. Proof. done. Qed.
Lemma size_direction v : size (w_direction v) = 1. Proof. done. Qed.
Lemma size_valve v : size (w_valve v) = 2. Proof. done. Qed.

Lemma size_all {A} (f : A -> Writer -> Writer) l m `{!forall x, Appends (f x)} :
  Forall (fun x => size (f x) <= m) l -> size (w_all f l) <= m * len l.
Proof.
  intros Hm. unfold size, len in *. rewrite written_all by done.
  induction Hm as [|x l Hx Hm IH]; csimpl; [lia|]. rewrite length_app. lia.
Qed.

Lemma size_counted {A} (f : A -> Writer -> Writer) l m `{!forall x, Appends (f x)} :
  Forall (fun x => size (f x) <= m) l -> size (w_counted f l) <= 1 + m * len l.
Proof.
  intros Hm. unfold w_counted. rewrite size_seq by apply _. rewrite size_u8.
  pose proof (size_all f l m Hm). lia.
Qed.

Create HintDb sizes.
#[export] Hint Rewrite size_u8 size_u16 size_u32 size_u64 size_bool size_slot size_port
  size_relative size_direction size_valve : sizes.
#[export] Hint Rewrite @size_seq using (apply _) : sizes.

Lemma size_condition c : size (put_condition c) <= MAX_CONDITION_BYTES.
Proof. destruct c; unfold put_condition; autorewrite with sizes; by vm_compute. Qed.

Lemma size_bit_source b : size (put_bit_source b) = 2.
Proof. by destruct b. Qed.
#[export] Hint Rewrite size_bit_source : sizes.

Lemma size_action a : size (put_action a) <= MAX_ACTION_BYTES.
Proof. destruct a; unfold put_action; autorewrite with sizes; by vm_compute. Qed.

Lemma size_rule r : rule_wf r -> size (put_rule r) <= MAX_RULE_BYTES.
Proof.
  intros [Hc _ _ _]. unfold put_rule. autorewrite with sizes.
  assert (size (w_counted put_condition (rule_when r)) <= 1 + 3 * len (rule_when r)).
  { apply size_counted; [apply _|]. apply Forall_forall. intros c _. apply size_condition. }
  pose proof (size_action (rule_action r)).
  assert (size (w_option put_write (rule_remember r)) <= 3)
    by (destruct (rule_remember r); by vm_compute).
  unfold MAX_RULE_BYTES, MAX_CONDITIONS, MAX_CONDITION_BYTES, MAX_ACTION_BYTES in *. lia.
Qed.

Lemma size_program p : program_wf p -> size (put_program_body p) <= MAX_PROGRAM_BODY_BYTES.
Proof.
  intros [_ Hm Hr]. unfold put_program_body.
  assert (size (w_counted put_rule (rules p)) <= 1 + MAX_RULE_BYTES * len (rules p)).
  { apply size_counted; [apply _|]. eapply Forall_impl; [exact Hr|]. apply size_rule. }
  unfold MAX_PROGRAM_BODY_BYTES, MAX_RULES in *.
  assert (MAX_RULE_BYTES * len (rules p) <= MAX_RULE_BYTES * 32) by (apply N.mul_le_mono_l; lia).
  lia.
Qed.

Lemma size_headed {A} (put : A -> Writer -> Writer) a `{!Appends (put a)} :
  size (with_header put a) = 2 + size (put a).
Proof. unfold with_header. by rewrite size_seq. Qed.

(** ** Programs and candidates *)

Lemma decode_program_iff bytes p :
  Forall byte bytes ->
  decode_program bytes = Ok p <-> program_wf p /\ bytes = encode_program p.
Proof.
  intros Hb. unfold decode_program. rewrite decode_iff by done.
  change (encode_program p) with (written (with_header put_program_body p)).
  split; [naive_solver|]. intros [Hp ->]. split; [done|]. split; [done|].
  change (size (with_header put_program_body p) <= MAX_PROGRAM_BYTES).
  rewrite size_headed by apply _. pose proof (size_program p Hp). unfold MAX_PROGRAM_BYTES. lia.
Qed.

Definition candidate_wf : list (N * Program) -> Prop := list_wf (wf := program_wf) MAX_CELLS.

#[export] Instance codec_candidate :
  Codec candidate_wf (w_counted (put_entry_of put_program_body)) get_candidate.
Proof. by apply codec_counted_entries. Qed.

Lemma size_entries l :
  Forall (entry_wf program_wf) l ->
  size (w_counted (put_entry_of put_program_body) l) <= 1 + (2 + MAX_PROGRAM_BODY_BYTES) * len l.
Proof.
  intros H. apply size_counted; [apply _|]. eapply Forall_impl; [exact H|]. intros e [_ He].
  unfold put_entry_of. rewrite size_seq by apply _. rewrite size_u16.
  pose proof (size_program _ He). lia.
Qed.

Lemma decode_candidate_iff bytes ps :
  Forall byte bytes ->
  decode_candidate bytes = Ok ps <-> candidate_wf ps /\ bytes = encode_candidate ps.
Proof.
  intros Hb. unfold decode_candidate. rewrite decode_iff by done.
  set (put := w_counted (put_entry_of put_program_body)).
  change (encode_candidate ps) with (written (with_header put ps)).
  split; [naive_solver|]. intros [Hp ->]. split; [done|]. split; [done|].
  change (size (with_header put ps) <= MAX_ASSIGNMENT_BYTES). unfold put.
  rewrite size_headed by apply _. destruct Hp as (Hl & _ & Hf). pose proof (size_entries ps Hf).
  unfold MAX_ASSIGNMENT_BYTES, MAX_CELLS in *.
  assert ((2 + MAX_PROGRAM_BODY_BYTES) * len ps <= (2 + MAX_PROGRAM_BODY_BYTES) * 16)
    by (apply N.mul_le_mono_l; lia). lia.
Qed.

Lemma encode_program_bytes p : program_wf p -> Forall byte (encode_program p).
Proof.
  intros Hp. change (encode_program p) with (written (with_header put_program_body p)).
  by apply (codec_bytes (g := do! header in get_program_body)).
Qed.

Lemma encode_candidate_bytes ps : candidate_wf ps -> Forall byte (encode_candidate ps).
Proof.
  intros Hp. set (put := w_counted (put_entry_of put_program_body)).
  change (encode_candidate ps) with (written (with_header put ps)).
  by apply (codec_bytes (g := do! header in get_candidate)).
Qed.
