(* ===== verification/WorldCodec.v ===== *)
(** The codecs of worlds, cases and task manifests
    (src/crates/vhalla-witness/src/codec.rs, from [put_point] to
    [decode_manifest]; the data of src/crates/vhalla-witness/src/manifest.rs). *)
From S2P Require Import Prelude Language World Bytes ProgramCodec.

Definition MAX_CASES : N := 8.
Definition MAX_SPARK_BYTES : N := 5.
Definition MAX_WORLD_BYTES : N :=
  2 + (2 + MAX_WALLS * 2) + (1 + MAX_SOURCES * 5 + MAX_INITIAL_SPARKS * MAX_SPARK_BYTES)
  + (1 + MAX_DEPOTS * 5) + (1 + MAX_BEACONS * 25) + (1 + MAX_VALVES * 11) + (1 + MAX_CELLS * 10)
  + (1 + MAX_LINKS * 14).
Definition MAX_EVENT_BYTES : N := 4 + 1 + 3.
Definition MAX_CASE_BYTES : N := 8 + 4 + 8 + 4 + 1 + MAX_EVENTS * MAX_EVENT_BYTES + 8.
Definition MAX_MANIFEST_BYTES : N :=
  2 + MAX_WORLD_BYTES + (1 + MAX_CELLS * (3 + MAX_PROGRAM_BODY_BYTES))
  + (1 + MAX_CASES * MAX_CASE_BYTES) + 17.

(** ** Worlds *)

Definition put_point (p : Point) : Writer -> Writer := w_u8 (px p) >> w_u8 (py p).
Definition get_point : read Point :=
  let! x := r_u8 FPoint in let! y := r_u8 FPoint in ret (mkPoint x y).

Definition put_spark (s : Spark) : Writer -> Writer := w_u32 (spark_id s) >> w_bool (spark_bit s).
Definition get_spark : read Spark :=
  let! id := r_u32 FSpark in let! bit := r_bool FSpark in ret (mkSpark id bit).

Definition put_endpoint (e : Endpoint) : Writer -> Writer :=
  match e with
  | EndCell id port => w_u8 1 >> w_u16 id >> w_port port
  | EndDepot id => w_u8 2 >> w_u16 id
  end.
Definition get_endpoint : read Endpoint :=
  let! tag := r_u8 FEndpoint in
  match tag with
  | 1 => let! id := r_u16 FCellId in let! port := port in ret (EndCell id port)
  | 2 => let! id := r_u16 FDepot in ret (EndDepot id)
  | found => throw (Discriminant FEndpoint found)
  end.

(** Walls have a two-byte count of their own. *)
Definition put_walls (l : list Point) : Writer -> Writer :=
  w_u16 (wrap 16 (len l)) >> w_all put_point l.
Definition get_walls : read (list Point) :=
  let! wall_count := r_u16 FCount in
  if MAX_WALLS <? wall_count then throw (Bound FCount)
  else r_repeat (N.to_nat wall_count) get_point.

Definition put_source (s : Source) : Writer -> Writer :=
  w_u16 (src_id s) >> put_point (src_position s) >> w_counted put_spark (src_sparks s).

(** The sparks of one source, after [spark_total] earlier ones. *)
Definition get_sparks (spark_total : N) : read (list Spark) :=
  let! spark_count := r_count MAX_INITIAL_SPARKS FCount in
  if MAX_INITIAL_SPARKS <? saturating_add 64 spark_total spark_count then throw (Bound FSpark)
  else r_repeat (N.to_nat spark_count) get_spark.

Definition get_source (spark_total : N) : read Source :=
  let! id := r_u16 FSource in
  let! position := get_point in
  let! sparks := get_sparks spark_total in
  ret (mkSource id position sparks).

Fixpoint get_sources (n : nat) (spark_total : N) : read (list Source) :=
  match n with
  | O => ret []
  | S n =>
      let! source := get_source spark_total in
      let! l := get_sources n (saturating_add 64 spark_total (len (src_sparks source))) in
      ret (source :: l)
  end.

Definition put_depot (d : Depot) : Writer -> Writer :=
  w_u16 (dep_id d) >> put_point (dep_position d) >> w_u8 (dep_capacity d).
Definition get_depot : read Depot :=
  let! id := r_u16 FDepot in
  let! position := get_point in
  let! capacity := r_u8 FDepot in
  ret (mkDepot id position capacity).

Definition put_beacon (b : Beacon) : Writer -> Writer :=
  w_u16 (bea_id b) >> put_point (bea_position b) >> w_bool (bea_accepts b)
  >> w_u32 (bea_initial_charge b) >> w_u32 (bea_drain_every b) >> w_u32 (bea_drain_amount b)
  >> w_u32 (bea_spark_charge b) >> w_u32 (bea_required_deliveries b).
Definition get_beacon : read Beacon :=
  let! id := r_u16 FBeacon in
  let! position := get_point in
  let! accepts := r_bool FBeacon in
  let! initial_charge := r_u32 FBeacon in
  let! drain_every := r_u32 FBeacon in
  let! drain_amount := r_u32 FBeacon in
  let! spark_charge := r_u32 FBeacon in
  let! required_deliveries := r_u32 FBeacon in
  ret (mkBeacon id position accepts initial_charge drain_every drain_amount spark_charge
         required_deliveries).

Definition put_valve (v : Valve) : Writer -> Writer :=
  w_u16 (val_id v) >> put_point (val_position v) >> w_u16 (val_depot v)
  >> w_u16 (val_beacon_zero v) >> w_u16 (val_beacon_one v) >> w_bool (val_enabled v).
Definition get_valve : read Valve :=
  let! id := r_u16 FValveSpec in
  let! position := get_point in
  let! depot := r_u16 FValveSpec in
  let! beacon_zero := r_u16 FValveSpec in
  let! beacon_one := r_u16 FValveSpec in
  let! enabled := r_bool FValveSpec in
  ret (mkValve id position depot beacon_zero beacon_one enabled).

Definition put_cell (c : CellBody) : Writer -> Writer :=
  w_u16 (cb_id c) >> put_point (cb_position c) >> w_direction (cb_heading c)
  >> w_bool (cb_mobile c) >> w_bytes (cb_memory c).
Definition get_cell : read CellBody :=
  let! id := r_u16 FCell in
  let! position := get_point in
  let! heading := direction in
  let! mobile := r_bool FCell in
  let! memory := r_repeat 4 (r_u8 FCell) in
  ret (mkCellBody id position heading mobile memory).

Definition put_link (l : Link) : Writer -> Writer :=
  w_u16 (lnk_id l) >> put_endpoint (lnk_from l) >> w_u16 (lnk_to_cell l) >> w_port (lnk_to_port l)
  >> w_u32 (lnk_delay l) >> w_bool (lnk_enabled l).
Definition get_link : read Link :=
  let! id := r_u16 FLink in
  let! from := get_endpoint in
  let! to_cell := r_u16 FLink in
  let! to_port := port in
  let! delay := r_u32 FLink in
  let! enabled := r_bool FLink in
  ret (mkLink id from to_cell to_port delay enabled).

Definition put_world (w : WorldSpec) : Writer -> Writer :=
  w_u8 (ws_width w) >> w_u8 (ws_height w) >> put_walls (ws_walls w)
  >> w_counted put_source (ws_sources w) >> w_counted put_depot (ws_depots w)
  >> w_counted put_beacon (ws_beacons w) >> w_counted put_valve (ws_valves w)
  >> w_counted put_cell (ws_cells w) >> w_counted put_link (ws_links w).

Definition get_source_list : read (list Source) :=
  let! count := r_count MAX_SOURCES FCount in get_sources (N.to_nat count) 0.

Definition get_world : read WorldSpec :=
  let! width := r_u8 FPoint in
  let! height := r_u8 FPoint in
  let! walls := get_walls in
  let! sources := get_source_list in
  let! depots := r_counted MAX_DEPOTS FCount get_depot in
  let! beacons := r_counted MAX_BEACONS FCount get_beacon in
  let! valves := r_counted MAX_VALVES FCount get_valve in
  let! cells := r_counted MAX_CELLS FCount get_cell in
  let! links := r_counted MAX_LINKS FCount get_link in
  ret (mkWorldSpec width height walls sources depots beacons valves cells links).

(** ** Cases *)

Definition put_event_kind (e : EventKind) : Writer -> Writer :=
  match e with
  | LinkEnabled id enabled => w_u8 1 >> w_u16 id >> w_bool enabled
  | ValveEnabled id enabled => w_u8 2 >> w_u16 id >> w_bool enabled
  | ClearMemory cell => w_u8 3 >> w_u16 cell
  end.
Definition get_event_kind : read EventKind :=
  let! tag := r_u8 FEvent in
  match tag with
  | 1 => let! id := r_u16 FEvent in let! enabled := r_bool FEvent in ret (LinkEnabled id enabled)
  | 2 => let! id := r_u16 FEvent in let! enabled := r_bool FEvent in ret (ValveEnabled id enabled)
  | 3 => let! cell := r_u16 FEvent in ret (ClearMemory cell)
  | found => throw (Discriminant FEvent found)
  end.

Definition put_event (e : Event) : Writer -> Writer :=
  w_u32 (ev_tick e) >> put_event_kind (ev_event e).
Definition get_event : read Event :=
  let! tick := r_u32 FEvent in let! event := get_event_kind in ret (mkEvent tick event).

Definition put_case (c : CaseSpec) : Writer -> Writer :=
  w_u64 (cs_seed c) >> w_u32 (cs_ticks c) >> w_u64 (cs_fuel c) >> w_u32 (cs_activation_fuel c)
  >> w_counted put_event (cs_events c) >> w_u64 (cs_loading_work c).
Definition get_case : read CaseSpec :=
  let! seed := r_u64 FCase in
  let! ticks := r_u32 FCase in
  let! fuel := r_u64 FCase in
  let! activation_fuel := r_u32 FCase in
  let! events := r_counted MAX_EVENTS FCount get_event in
  let! loading_work := r_u64 FCase in
  ret (mkCaseSpec seed ticks fuel activation_fuel events loading_work).

(** ** Manifests *)

Record WorkContract : Type := mkWorkContract {
  useful_floor : N; total_ceiling : N; require_passed : bool;
}.

(** A slot is a cell and its fixed program, if any. *)
Definition ProgramSlot : Type := N * option Program.

Record TaskManifest : Type := mkTaskManifest {
  tm_world : WorldSpec; tm_slots : list ProgramSlot; tm_cases : list CaseSpec;
  tm_contract : WorkContract;
}.

Definition put_contract (c : WorkContract) : Writer -> Writer :=
  w_u64 (useful_floor c) >> w_u64 (total_ceiling c) >> w_bool (require_passed c).
Definition get_contract : read WorkContract :=
  let! useful_floor := r_u64 FContract in
  let! total_ceiling := r_u64 FContract in
  let! require_passed := r_bool FContract in
  ret (mkWorkContract useful_floor total_ceiling require_passed).

Definition put_manifest (m : TaskManifest) : Writer -> Writer :=
  put_world (tm_world m) >> w_counted (put_entry_of (w_option put_program_body)) (tm_slots m)
  >> w_counted put_case (tm_cases m) >> put_contract (tm_contract m).

Definition get_slots : read (list ProgramSlot) :=
  let! count := r_count MAX_CELLS FCount in
  get_entries (N.to_nat count) (r_option FRemember get_program_body) None.

Definition get_manifest : read TaskManifest :=
  let! world := get_world in
  let! slots := get_slots in
  let! cases := r_counted MAX_CASES FCount get_case in
  let! contract := get_contract in
  ret (mkTaskManifest world slots cases contract).

Definition encode_manifest (m : TaskManifest) : list N :=
  written (put_header tt >> put_manifest m).

Definition decode_manifest (bytes : list N) : res CodecError TaskManifest :=
  decode MAX_MANIFEST_BYTES (do! header in get_manifest) bytes.

(** ** Wire well-formedness: field widths and decoder bounds *)

Definition point_wire (p : Point) : Prop := u 8 (px p) /\ u 8 (py p).
Definition spark_wire (s : Spark) : Prop := u 32 (spark_id s).
Definition endpoint_wire (e : Endpoint) : Prop :=
  match e with
  | EndCell id port => u 16 id /\ port_wf port
  | EndDepot id => u 16 id
  end.
Definition source_wire (s : Source) : Prop :=
  u 16 (src_id s) /\ point_wire (src_position s) /\ Forall spark_wire (src_sparks s).
Definition depot_wire (d : Depot) : Prop :=
  u 16 (dep_id d) /\ point_wire (dep_position d) /\ u 8 (dep_capacity d).
Definition beacon_wire (b : Beacon) : Prop :=
  u 16 (bea_id b) /\ point_wire (bea_position b) /\ u 32 (bea_initial_charge b) /\
  u 32 (bea_drain_every b) /\ u 32 (bea_drain_amount b) /\ u 32 (bea_spark_charge b) /\
  u 32 (bea_required_deliveries b).
Definition valve_wire (v : Valve) : Prop :=
  u 16 (val_id v) /\ point_wire (val_position v) /\ u 16 (val_depot v) /\
  u 16 (val_beacon_zero v) /\ u 16 (val_beacon_one v).
Definition memory_wire (l : list N) : Prop := length l = 4%nat /\ Forall (u 8) l.
Definition cell_wire (c : CellBody) : Prop :=
  u 16 (cb_id c) /\ point_wire (cb_position c) /\ memory_wire (cb_memory c).
Definition link_wire (l : Link) : Prop :=
  u 16 (lnk_id l) /\ endpoint_wire (lnk_from l) /\ u 16 (lnk_to_cell l) /\
  port_wf (lnk_to_port l) /\ u 32 (lnk_delay l).

(** At most [limit] items, each well formed. *)
Definition list_wire {A} (wf : A -> Prop) (limit : N) (l : list A) : Prop :=
  len l <= limit /\ Forall wf l.

Fixpoint sparks_fit (spark_total : N) (l : list Source) : Prop :=
  match l with
  | [] => True
  | s :: l =>
      spark_total + len (src_sparks s) <= MAX_INITIAL_SPARKS /\
      sparks_fit (spark_total + len (src_sparks s)) l
  end.

Definition sources_wire (l : list Source) : Prop :=
  len l <= MAX_SOURCES /\ sparks_fit 0 l /\ Forall source_wire l.

Definition world_wire (w : WorldSpec) : Prop :=
  u 8 (ws_width w) /\ u 8 (ws_height w) /\ list_wire point_wire MAX_WALLS (ws_walls w) /\
  sources_wire (ws_sources w) /\ list_wire depot_wire MAX_DEPOTS (ws_depots w) /\
  list_wire beacon_wire MAX_BEACONS (ws_beacons w) /\
  list_wire valve_wire MAX_VALVES (ws_valves w) /\ list_wire cell_wire MAX_CELLS (ws_cells w) /\
  list_wire link_wire MAX_LINKS (ws_links w).

Definition event_kind_wire (e : EventKind) : Prop :=
  match e with
  | LinkEnabled id _ | ValveEnabled id _ | ClearMemory id => u 16 id
  end.
Definition event_wire (e : Event) : Prop := u 32 (ev_tick e) /\ event_kind_wire (ev_event e).

Definition case_wire (c : CaseSpec) : Prop :=
  u 64 (cs_seed c) /\ u 32 (cs_ticks c) /\ u 64 (cs_fuel c) /\ u 32 (cs_activation_fuel c) /\
  list_wire event_wire MAX_EVENTS (cs_events c) /\ u 64 (cs_loading_work c).

Definition contract_wire (c : WorkContract) : Prop :=
  u 64 (useful_floor c) /\ u 64 (total_ceiling c).

Definition slots_wire : list ProgramSlot -> Prop := list_wf (wf := option_wf program_wf) MAX_CELLS.

Definition manifest_wire (m : TaskManifest) : Prop :=
  world_wire (tm_world m) /\ slots_wire (tm_slots m) /\ list_wire case_wire MAX_CASES (tm_cases m) /\
  contract_wire (tm_contract m).

(** ** Laws *)

#[export] Instance codec_point : Codec point_wire put_point get_point.
Proof. unfold point_wire. codec_tac put_point get_point. Qed.
Lemma bytes_point p : point_wire p -> Forall byte (written (put_point p)).
Proof. apply (codec_bytes (g := get_point)). Qed.
#[export] Hint Resolve bytes_point : bytes.

#[export] Instance codec_spark : Codec spark_wire put_spark get_spark.
Proof. unfold spark_wire. codec_tac put_spark get_spark. Qed.

#[export] Instance codec_endpoint : Codec endpoint_wire put_endpoint get_endpoint.
Proof. codec_tac put_endpoint get_endpoint. Qed.
Lemma bytes_endpoint p : endpoint_wire p -> Forall byte (written (put_endpoint p)).
Proof. apply (codec_bytes (g := get_endpoint)). Qed.
#[export] Hint Resolve bytes_endpoint : bytes.

#[export] Instance codec_depot : Codec depot_wire put_depot get_depot.
Proof. unfold depot_wire. codec_tac put_depot get_depot. Qed.

#[export] Instance codec_beacon : Codec beacon_wire put_beacon get_beacon.
Proof. unfold beacon_wire. codec_tac put_beacon get_beacon. all: by repeat split. Qed.

#[export] Instance codec_valve_spec : Codec valve_wire put_valve get_valve.
Proof. unfold valve_wire. codec_tac put_valve get_valve. Qed.

#[export] Instance codec_link : Codec link_wire put_link get_link.
Proof. unfold link_wire. codec_tac put_link get_link. Qed.

#[export] Instance codec_contract : Codec contract_wire put_contract get_contract.
Proof. unfold contract_wire. codec_tac put_contract get_contract. Qed.

(** Four bytes written at once and read one by one. *)
#[export] Instance codec_memory : Codec memory_wire w_bytes (r_repeat 4 (r_u8 FCell)).
Proof.
  apply (codec_put_ext _ (w_all w_u8)); [|apply codec_repeat].
  intros l w. unfold w_bytes, w_all. revert w. induction l as [|b l IH]; intros w; simpl.
  - by rewrite app_nil_r.
  - rewrite IH. unfold w_u8. by rewrite <- app_assoc.
Qed.
Lemma bytes_memory l : memory_wire l -> Forall byte (written (w_bytes l)).
Proof. apply (codec_bytes (g := r_repeat 4 (r_u8 FCell))). Qed.
#[export] Hint Resolve bytes_memory : bytes.

#[export] Instance codec_cell : Codec cell_wire put_cell get_cell.
Proof. unfold cell_wire. codec_tac put_cell get_cell. Qed.

(** A count whose bound is checked after reading it. *)
#[export] Instance codec_walls : Codec (list_wire point_wire MAX_WALLS) put_walls get_walls.
Proof.
  unfold list_wire, put_walls, MAX_WALLS. apply codec_intro; [apply _| | | |].
  - intros l [Hl Hf]. rewrite written_seq by apply _. apply Forall_app.
    split; [apply bytes_u16|by apply (codec_bytes (g := r_repeat (length l) get_point))].
  - unfold get_walls. apply safe_bind. intros n. destruct (_ <? n); apply _.
  - intros r k l r' Hr E H. unfold get_walls, MAX_WALLS in H. inv_reads H Hr E.
    destruct (N.ltb_spec 512 a) as [|Hle]; [done|].
    apply (inv_last _ _ _ _ _ Hr E) in H as ([Hl Hf] & k' & E' & ->).
    assert (len l = a) by (unfold len; lia). subst a.
    split; [split; [lia|done]|]. eexists _, _. split; [exact E'|]. split; [done|].
    rewrite written_seq by apply _. rewrite wrap_small by lia. done.
  - intros r k l Hr [Hl Hf] E. rewrite written_seq in * by apply _. rewrite <- app_assoc in E.
    rewrite wrap_small in * by lia. unfold get_walls, MAX_WALLS.
    fwd_read E; [|unfold u; lia]. rewrite (proj2 (N.ltb_ge _ _)) by lia.
    fwd_read E; [done|]. unfold len. by rewrite Nat2N.id.
Qed.

#[export] Instance codec_sparks spark_total :
  spark_total <= MAX_INITIAL_SPARKS ->
  Codec (fun l => spark_total + len l <= MAX_INITIAL_SPARKS /\ Forall spark_wire l)
    (w_counted put_spark) (get_sparks spark_total).
Proof.
  unfold w_counted, get_sparks, MAX_INITIAL_SPARKS, saturating_add. intros Ht.
  apply codec_intro; [apply _| | | |].
  - intros l [Hl Hf]. rewrite written_seq by apply _. apply Forall_app. split.
    + apply bytes_u8. unfold u, wrap. by apply N.mod_lt.
    + by apply (codec_bytes (g := r_repeat (length l) get_spark)).
  - apply safe_bind. intros n. destruct (_ <? _); apply _.
  - intros r k l r' Hr E H. inv_reads H Hr E. destruct Ha as [Hle Hu]. unfold u in Hu.
    destruct (N.ltb_spec 128 (N.min (spark_total + a) (2 ^ 64 - 1))) as [|Hfit]; [done|].
    apply (inv_last _ _ _ _ _ Hr E) in H as ([Hl Hf] & k' & E' & ->).
    assert (len l = a) by (unfold len; lia). subst a.
    split; [split; [lia|done]|]. eexists _, _. split; [exact E'|]. split; [done|].
    rewrite written_seq by apply _. rewrite wrap_small by lia. done.
  - intros r k l Hr [Hl Hf] E. rewrite written_seq in * by apply _. rewrite <- app_assoc in E.
    rewrite wrap_small in * by lia. fwd_read E; [|split; [lia|unfold u; lia]].
    rewrite (proj2 (N.ltb_ge _ _)) by lia. fwd_read E; [done|]. unfold len. by rewrite Nat2N.id.
Qed.

Lemma bytes_sparks l : Forall spark_wire l -> Forall byte (written (w_counted put_spark l)).
Proof.
  intros Hf. unfold w_counted. rewrite written_seq by apply _. apply Forall_app. split.
  - apply bytes_u8. unfold u, wrap. by apply N.mod_lt.
  - by apply (codec_bytes (g := r_repeat (length l) get_spark)).
Qed.
#[export] Hint Resolve bytes_sparks : bytes.

(** One source after [spark_total] sparks. *)
Definition source_fits (spark_total : N) (s : Source) : Prop :=
  u 16 (src_id s) /\ point_wire (src_position s) /\
  spark_total + len (src_sparks s) <= MAX_INITIAL_SPARKS /\ Forall spark_wire (src_sparks s).

Lemma codec_source spark_total :
  spark_total <= MAX_INITIAL_SPARKS ->
  Codec (source_fits spark_total) put_source (get_source spark_total).
Proof.
  intros Ht. pose proof (codec_sparks spark_total Ht). unfold source_fits.
  codec_tac put_source get_source. all: naive_solver.
Qed.

Lemma get_sources_iff n spark_total r l r' :
  reader_ok r -> spark_total <= MAX_INITIAL_SPARKS ->
  get_sources n spark_total r = (Ok l, r') <->
  (length l = n /\ sparks_fit spark_total l /\ Forall source_wire l) /\
  exists k, rest r = written (w_all put_source l) ++ k /\
    r' = advance (written (w_all put_source l)) r.
Proof.
  assert (Happ : forall s, Appends (put_source s)) by (intros; unfold put_source; apply _).
  revert spark_total r l r'.
  induction n as [|n IH]; intros spark_total r l r' Hr Ht; cbn [get_sources].
  - rewrite written_all by done. unfold ret. split.
    + intros [= <- <-]. split; [done|]. exists (rest r). by rewrite advance_nil.
    + intros ([Hl _] & k & _ & ->). destruct l; [|done]. simpl. by rewrite advance_nil.
  - pose proof (codec_source spark_total Ht) as Hcod. rewrite read_bind by done.
    assert (Hsat : forall s, spark_total + len (src_sparks s) <= MAX_INITIAL_SPARKS ->
      saturating_add 64 spark_total (len (src_sparks s)) = spark_total + len (src_sparks s)).
    { intros s. unfold saturating_add, MAX_INITIAL_SPARKS. intros. lia. }
    split.
    + intros (s & (Hid & Hp & Hfit & Hsp) & k & E & H). rewrite Hsat in H by done. unfold bind in H.
      destruct (get_sources n _ _) as [[l'|e|] r1] eqn:E1; [|done..].
      unfold ret in H. injection H as <- <-.
      apply IH in E1 as ((Hl & Hfl & Hf) & k' & E2 & ->); [|done..].
      rewrite (rest_advance _ _ _ E) in E2. subst k.
      split; [split; [simpl; lia|split; [done|by constructor]]|].
      exists k'. rewrite !written_all in * by done. csimpl. by rewrite <- app_assoc, advance_app.
    + intros ((Hl & Hfl & Hf) & k & E & ->). destruct l as [|s l]; [done|].
      apply Forall_cons in Hf as [(Hid & Hp & Hsp) Hf]. csimpl in *. destruct Hfl as [Hfit Hfl].
      rewrite written_all in * by done. csimpl in E. exists s. split; [done|].
      eexists. split; [by rewrite E, <- app_assoc|]. rewrite Hsat by done. unfold bind.
      rewrite (proj2 (IH _ (advance (written (put_source s)) r) l
        (advance (written (w_all put_source l)) (advance (written (put_source s)) r)) Hr Hfit)).
      * unfold ret. rewrite advance_app, written_all by done. done.
      * split; [by split; [lia|]|]. exists k. rewrite written_all by done.
        split; [|done]. apply rest_advance. by rewrite E, <- app_assoc.
Qed.

Lemma get_sources_safe n spark_total :
  spark_total <= MAX_INITIAL_SPARKS -> Safe (get_sources n spark_total).
Proof.
  revert spark_total. induction n as [|n IH]; intros spark_total Ht r Hr; cbn [get_sources]; [done|].
  pose proof (codec_source spark_total Ht). unfold bind.
  pose proof (codec_total r Hr) as Hs. destruct (get_source spark_total r) as [[s|e|] r1] eqn:E; [|done..].
  apply codec_iff in E as ((_ & _ & Hfit & _) & k & _ & ->); [|done].
  assert (Hsat : saturating_add 64 spark_total (len (src_sparks s)) <= MAX_INITIAL_SPARKS)
    by (unfold saturating_add; lia).
  specialize (IH _ Hsat (advance (written (put_source s)) r) Hr).
  by destruct (get_sources n _ _) as [[]].
Qed.

#[export] Instance codec_source_list :
  Codec sources_wire (w_counted put_source) get_source_list.
Proof.
  assert (Happ : forall s, Appends (put_source s)) by (intros; unfold put_source; apply _).
  unfold w_counted, get_source_list. apply codec_intro; [apply _| | | |].
  - intros l (Hl & _ & Hf). rewrite written_seq, written_all by apply _. apply Forall_app. split.
    { apply bytes_u8. unfold u, wrap. by apply N.mod_lt. }
    induction Hf as [|s l (Hid & Hp & Hs) Hf IH]; csimpl; [done|]. apply Forall_app.
    split; [|apply IH; unfold len in *; simpl in *; lia]. unfold put_source.
    rewrite (written_seq (w_u16 _)), (written_seq (put_point _)) by apply _.
    apply Forall_app. split; [apply bytes_u16|]. apply Forall_app. split; auto with bytes.
  - apply safe_bind. intros n. apply get_sources_safe. by vm_compute.
  - intros r k l r' Hr E H. inv_reads H Hr E. destruct Ha as [Hle Hu].
    apply get_sources_iff in H as ((Hl & Hfit & Hf) & k' & E' & ->); [|done|by vm_compute].
    rewrite (rest_advance _ _ _ E) in E'. subst k0. assert (Hn : len l = a) by (unfold len; lia).
    rewrite advance_app. cbn [app] in *. split; [by split; [lia|]|]. exists (written (w_u8 a) ++ written (w_all put_source l)), k'.
    split; [by rewrite <- app_assoc|]. split; [done|]. rewrite written_seq by apply _. subst a. by rewrite wrap_small.
  - intros r k l Hr (Hl & Hfit & Hf) E. rewrite !written_seq in * by apply _.
    unfold MAX_SOURCES in Hl. rewrite wrap_small in * by (unfold u; lia).
    rewrite <- app_assoc in E. fwd_read E; [|split; [done|unfold u; lia]].
    apply get_sources_iff; [done|by vm_compute|]. split; [by split; [unfold len; lia|]|].
    exists k. rewrite advance_app. split; [|done].
    cbn [app] in *. by rewrite (rest_advance _ _ _ E).
Qed.

#[export] Instance codec_depots :
  Codec (list_wire depot_wire MAX_DEPOTS) (w_counted put_depot) (r_counted MAX_DEPOTS FCount get_depot).
Proof. by apply codec_counted. Qed.
#[export] Instance codec_beacons :
  Codec (list_wire beacon_wire MAX_BEACONS) (w_counted put_beacon)
    (r_counted MAX_BEACONS FCount get_beacon).
Proof. by apply codec_counted. Qed.
#[export] Instance codec_valves :
  Codec (list_wire valve_wire MAX_VALVES) (w_counted put_valve) (r_counted MAX_VALVES FCount get_valve).
Proof. by apply codec_counted. Qed.
#[export] Instance codec_cells :
  Codec (list_wire cell_wire MAX_CELLS) (w_counted put_cell) (r_counted MAX_CELLS FCount get_cell).
Proof. by apply codec_counted. Qed.
#[export] Instance codec_links :
  Codec (list_wire link_wire MAX_LINKS) (w_counted put_link) (r_counted MAX_LINKS FCount get_link).
Proof. by apply codec_counted. Qed.

Lemma bytes_walls l : list_wire point_wire MAX_WALLS l -> Forall byte (written (put_walls l)).
Proof. apply (codec_bytes (g := get_walls)). Qed.
Lemma bytes_sources l : sources_wire l -> Forall byte (written (w_counted put_source l)).
Proof. apply (codec_bytes (g := get_source_list)). Qed.
Lemma bytes_depots l : list_wire depot_wire MAX_DEPOTS l -> Forall byte (written (w_counted put_depot l)).
Proof. apply (codec_bytes (g := r_counted MAX_DEPOTS FCount get_depot)). Qed.
Lemma bytes_beacons l :
  list_wire beacon_wire MAX_BEACONS l -> Forall byte (written (w_counted put_beacon l)).
Proof. apply (codec_bytes (g := r_counted MAX_BEACONS FCount get_beacon)). Qed.
Lemma bytes_valves l : list_wire valve_wire MAX_VALVES l -> Forall byte (written (w_counted put_valve l)).
Proof. apply (codec_bytes (g := r_counted MAX_VALVES FCount get_valve)). Qed.
Lemma bytes_cells l : list_wire cell_wire MAX_CELLS l -> Forall byte (written (w_counted put_cell l)).
Proof. apply (codec_bytes (g := r_counted MAX_CELLS FCount get_cell)). Qed.
Lemma bytes_links l : list_wire link_wire MAX_LINKS l -> Forall byte (written (w_counted put_link l)).
Proof. apply (codec_bytes (g := r_counted MAX_LINKS FCount get_link)). Qed.
#[export] Hint Resolve bytes_walls bytes_sources bytes_depots bytes_beacons bytes_valves bytes_cells
  bytes_links : bytes.

#[export] Instance codec_world : Codec world_wire put_world get_world.
Proof. unfold world_wire. codec_tac put_world get_world. Qed.

#[export] Instance codec_event_kind : Codec event_kind_wire put_event_kind get_event_kind.
Proof. codec_tac put_event_kind get_event_kind. Qed.
Lemma bytes_event_kind e : event_kind_wire e -> Forall byte (written (put_event_kind e)).
Proof. apply (codec_bytes (g := get_event_kind)). Qed.
#[export] Hint Resolve bytes_event_kind : bytes.

#[export] Instance codec_event : Codec event_wire put_event get_event.
Proof. unfold event_wire. codec_tac put_event get_event. Qed.
Lemma bytes_event e : event_wire e -> Forall byte (written (put_event e)).
Proof. apply (codec_bytes (g := get_event)). Qed.

#[export] Instance codec_events :
  Codec (list_wire event_wire MAX_EVENTS) (w_counted put_event) (r_counted MAX_EVENTS FCount get_event).
Proof. by apply codec_counted. Qed.
Lemma bytes_events l : list_wire event_wire MAX_EVENTS l -> Forall byte (written (w_counted put_event l)).
Proof. apply (codec_bytes (g := r_counted MAX_EVENTS FCount get_event)). Qed.
#[export] Hint Resolve bytes_event bytes_events : bytes.

#[export] Instance codec_case : Codec case_wire put_case get_case.
Proof. unfold case_wire. codec_tac put_case get_case. Qed.

#[export] Instance codec_cases :
  Codec (list_wire case_wire MAX_CASES) (w_counted put_case) (r_counted MAX_CASES FCount get_case).
Proof. by apply codec_counted. Qed.

#[export] Instance codec_slots :
  Codec slots_wire (w_counted (put_entry_of (w_option put_program_body))) get_slots.
Proof. by apply codec_counted_entries. Qed.

Lemma bytes_world w : world_wire w -> Forall byte (written (put_world w)).
Proof. apply (codec_bytes (g := get_world)). Qed.
Lemma bytes_cases l : list_wire case_wire MAX_CASES l -> Forall byte (written (w_counted put_case l)).
Proof. apply (codec_bytes (g := r_counted MAX_CASES FCount get_case)). Qed.
Lemma bytes_slots l :
  slots_wire l -> Forall byte (written (w_counted (put_entry_of (w_option put_program_body)) l)).
Proof. apply (codec_bytes (g := get_slots)). Qed.
Lemma bytes_contract c : contract_wire c -> Forall byte (written (put_contract c)).
Proof. apply (codec_bytes (g := get_contract)). Qed.
#[export] Hint Resolve bytes_world bytes_cases bytes_slots bytes_contract : bytes.

#[export] Instance codec_manifest : Codec manifest_wire put_manifest get_manifest.
Proof. unfold manifest_wire. codec_tac put_manifest get_manifest. Qed.

(** ** Sizes *)

Lemma size_bounded {A} (f : A -> Writer -> Writer) l m n `{!forall x, Appends (f x)} :
  Forall (fun x => size (f x) <= m) l -> len l <= n -> size (w_counted f l) <= 1 + n * m.
Proof. intros Hm Hn. pose proof (size_counted f l m Hm). nia. Qed.

Lemma all_bounded {A} (P : A -> Prop) l : (forall x, P x) -> Forall P l.
Proof. intros H. by apply Forall_forall. Qed.

Lemma size_point p : size (put_point p) = 2. Proof. done. Qed.
Lemma size_spark s : size (put_spark s) = 5. Proof. done. Qed.
#[export] Hint Rewrite size_point size_spark : sizes.
#[export] Instance appends_endpoint e : Appends (put_endpoint e).
Proof. apply codec_endpoint. Qed.
Lemma size_endpoint e : size (put_endpoint e) <= 4.
Proof. by destruct e. Qed.

Lemma size_walls l : list_wire point_wire MAX_WALLS l -> size (put_walls l) <= 2 + MAX_WALLS * 2.
Proof.
  intros [Hl _]. unfold put_walls. autorewrite with sizes.
  pose proof (size_all put_point l 2 (all_bounded _ l (fun p => N.le_refl 2))). lia.
Qed.

Lemma size_sources l :
  sources_wire l -> size (w_counted put_source l) <= 1 + MAX_SOURCES * 5 + MAX_INITIAL_SPARKS * 5.
Proof.
  assert (Happ : forall s, Appends (put_source s)) by (intros; unfold put_source; apply _).
  assert (Hs : forall s, size (put_source s) <= 5 + 5 * len (src_sparks s)).
  { intros s. unfold put_source. autorewrite with sizes.
    pose proof (size_counted put_spark (src_sparks s) 5 (all_bounded _ _ (fun p => N.le_refl 5))). lia. }
  assert (H : forall l total, sparks_fit total l -> total <= MAX_INITIAL_SPARKS ->
    size (w_all put_source l) + 5 * total <= 5 * len l + 5 * MAX_INITIAL_SPARKS).
  { clear l. intros l. unfold size, len in *. rewrite written_all by done.
    induction l as [|s l IH]; intros total Hf Ht; csimpl; [lia|]. destruct Hf as [Hle Hf].
    specialize (IH _ Hf Hle). rewrite length_app. specialize (Hs s). unfold len in *. lia. }
  intros (Hl & Hf & _). unfold w_counted. autorewrite with sizes.
  specialize (H l 0 Hf). unfold MAX_INITIAL_SPARKS, MAX_SOURCES in *. lia.
Qed.

Lemma size_depot d : size (put_depot d) = 5. Proof. done. Qed.
Lemma size_beacon b : size (put_beacon b) = 25. Proof. done. Qed.
Lemma size_valve_spec v : size (put_valve v) = 11. Proof. done. Qed.
Lemma size_cell c : memory_wire (cb_memory c) -> size (put_cell c) = 10.
Proof.
  intros [Hm _]. unfold put_cell. autorewrite with sizes. unfold size, written, w_bytes, len.
  rewrite app_nil_l, Hm. done.
Qed.
Lemma size_link l : size (put_link l) <= 14.
Proof.
  unfold put_link. autorewrite with sizes. pose proof (size_endpoint (lnk_from l)). lia.
Qed.

Lemma size_world w : world_wire w -> size (put_world w) <= MAX_WORLD_BYTES.
Proof.
  intros (_ & _ & Hw & Hs & [Hd _] & [Hb _] & [Hv _] & [Hc Hcf] & [Hl _]).
  unfold put_world. autorewrite with sizes.
  pose proof (size_walls _ Hw). pose proof (size_sources _ Hs).
  pose proof (size_bounded put_depot _ 5 _ (all_bounded _ _ (fun p => N.le_refl 5)) Hd).
  pose proof (size_bounded put_beacon _ 25 _ (all_bounded _ _ (fun p => N.le_refl 25)) Hb).
  pose proof (size_bounded put_valve _ 11 _ (all_bounded _ _ (fun p => N.le_refl 11)) Hv).
  pose proof (size_bounded put_link _ 14 _ (all_bounded _ _ size_link) Hl).
  assert (size (w_counted put_cell (ws_cells w)) <= 1 + MAX_CELLS * 10).
  { apply size_bounded; [apply _| |done]. eapply Forall_impl; [exact Hcf|].
    intros c (_ & _ & Hm). by rewrite size_cell. }
  unfold MAX_WORLD_BYTES, MAX_SPARK_BYTES. lia.
Qed.

Lemma size_event e : size (put_event e) <= MAX_EVENT_BYTES.
Proof. by destruct e as [? []]. Qed.

Lemma size_case c : case_wire c -> size (put_case c) <= MAX_CASE_BYTES.
Proof.
  intros (_ & _ & _ & _ & [He _] & _). unfold put_case. autorewrite with sizes.
  pose proof (size_bounded put_event _ _ _ (all_bounded _ _ size_event) He).
  unfold MAX_CASE_BYTES. lia.
Qed.

Lemma size_slots l :
  slots_wire l ->
  size (w_counted (put_entry_of (w_option put_program_body)) l)
    <= 1 + MAX_CELLS * (3 + MAX_PROGRAM_BODY_BYTES).
Proof.
  intros (Hl & _ & Hf). apply size_bounded; [apply _| |done]. eapply Forall_impl; [exact Hf|].
  intros [id [p|]] [_ Hp]; unfold put_entry_of; simpl in *; autorewrite with sizes;
    [pose proof (size_program p (Hp _ eq_refl))|]; lia.
Qed.

Lemma size_manifest m : manifest_wire m -> size (with_header put_manifest m) <= MAX_MANIFEST_BYTES.
Proof.
  intros (Hw & Hs & [Hc Hcf] & _). rewrite size_headed by apply _. unfold put_manifest.
  autorewrite with sizes. pose proof (size_world _ Hw). pose proof (size_slots _ Hs).
  assert (size (w_counted put_case (tm_cases m)) <= 1 + MAX_CASES * MAX_CASE_BYTES).
  { apply size_bounded; [apply _| |done]. eapply Forall_impl; [exact Hcf|]. apply size_case. }
  assert (size (put_contract (tm_contract m)) = 17) by done.
  unfold MAX_MANIFEST_BYTES. lia.
Qed.

Lemma decode_manifest_iff bytes m :
  Forall byte bytes ->
  decode_manifest bytes = Ok m <-> manifest_wire m /\ bytes = encode_manifest m.
Proof.
  intros Hb. unfold decode_manifest. rewrite decode_iff by done.
  change (encode_manifest m) with (written (with_header put_manifest m)).
  split; [naive_solver|]. intros [Hp ->]. split; [done|]. split; [done|]. by apply size_manifest.
Qed.

Lemma encode_manifest_bytes m : manifest_wire m -> Forall byte (encode_manifest m).
Proof.
  intros Hm. change (encode_manifest m) with (written (with_header put_manifest m)).
  by apply (codec_bytes (g := do! header in get_manifest)).
Qed.
