(* ===== verification/StateCodec.v ===== *)
(** The encoding of final states
    (src/crates/vhalla-witness/src/codec.rs, from [put_signal] to
    [encode_state]).  There is no decoder, so the law is that the encoding is
    prefix free: states with equal encodings are equal. *)
From S2P Require Import Prelude Language Meter World WorldFacts Machine MachineInv.
From S2P Require Import Bytes ProgramCodec PrefixFree WorldCodec.

Definition SIGNAL_BYTES : N := 8 + 2 + 4 + 2 + 1 + 1 + 4 + 4 + 5.
Definition MAX_STATE_BYTES : N :=
  4
  + (1 + MAX_CELLS * (2 + 2 + 1 + 4 + 4 * 5 + 6 + 4 * (1 + SIGNAL_BYTES)))
  + (1 + MAX_SOURCES * 3 + MAX_INITIAL_SPARKS * MAX_SPARK_BYTES)
  + (1 + MAX_DEPOTS * 3 + MAX_INITIAL_SPARKS * MAX_SPARK_BYTES)
  + (1 + MAX_BEACONS * 15)
  + (1 + MAX_VALVES * 3)
  + (1 + MAX_LINKS * 3)
  + (1 + MAX_PENDING * SIGNAL_BYTES)
  + (1 + MAX_DELIVERIES * 11)
  + 8.

Definition put_signal (g : Signal) : Writer -> Writer :=
  w_u64 (sig_id g) >> w_u16 (sig_link g) >> put_endpoint (sig_from g) >> w_u16 (sig_to_cell g)
  >> w_port (sig_to_port g) >> w_bool (sig_bit g) >> w_u32 (sig_sent_tick g)
  >> w_u32 (sig_deliver_tick g) >> w_option w_u32 (sig_receipt_spark g).

Definition put_cell_state (c : CellState) : Writer -> Writer :=
  w_u16 (cel_id c) >> put_point (cel_position c) >> w_direction (cel_heading c)
  >> w_bytes (cel_memory c) >> w_all (w_option w_u32) (cel_evidence c)
  >> w_option put_spark (cel_cargo c) >> w_all (w_option put_signal) (cel_inbox c).

Definition put_source_state (e : SourceState) : Writer -> Writer :=
  w_u16 (ss_id e) >> w_counted put_spark (ss_sparks e).
Definition put_depot_state (e : DepotState) : Writer -> Writer :=
  w_u16 (ds_id e) >> w_counted put_spark (ds_sparks e).
Definition put_beacon_state (b : BeaconState) : Writer -> Writer :=
  w_u16 (bs_id b) >> w_u32 (bs_charge b) >> w_u32 (bs_delivered b) >> w_u32 (bs_drained b)
  >> w_bool (bs_exhausted b).
Definition put_enabled (e : EnabledState) : Writer -> Writer :=
  w_u16 (es_id e) >> w_bool (es_enabled e).
Definition put_delivery (d : Delivery) : Writer -> Writer :=
  w_u32 (del_tick d) >> put_spark (del_spark d) >> w_u16 (del_beacon d).

Definition put_state (s : State) : Writer -> Writer :=
  w_u32 (st_tick s) >> w_counted put_cell_state (st_cells s)
  >> w_counted put_source_state (st_sources s) >> w_counted put_depot_state (st_depots s)
  >> w_counted put_beacon_state (st_beacons s) >> w_counted put_enabled (st_valves s)
  >> w_counted put_enabled (st_links s) >> w_counted put_signal (st_pending s)
  >> w_counted put_delivery (st_delivered s) >> w_u64 (st_next_signal s).

Definition encode_state (s : State) : list N := written (put_state s).

(** ** Prefix freedom of the parts *)

#[export] Instance pf_point : PrefixFree point_wire put_point := codec_prefix_free (g := get_point).
#[export] Instance pf_spark : PrefixFree spark_wire put_spark := codec_prefix_free (g := get_spark).
#[export] Instance pf_endpoint : PrefixFree endpoint_wire put_endpoint :=
  codec_prefix_free (g := get_endpoint).
#[export] Instance pf_direction : PrefixFree (fun _ => True) w_direction :=
  codec_prefix_free (g := direction).
#[export] Instance pf_port : PrefixFree port_wf w_port := codec_prefix_free (g := port).
#[export] Instance pf_memory : PrefixFree memory_wire w_bytes :=
  codec_prefix_free (g := r_repeat 4 (r_u8 FCell)).

(** ** Typed states: the ranges of the Rust fields and the array lengths *)

Definition signal_typed (g : Signal) : Prop :=
  u 64 (sig_id g) /\ u 16 (sig_link g) /\ endpoint_wire (sig_from g) /\ u 16 (sig_to_cell g) /\
  port_wf (sig_to_port g) /\ u 32 (sig_sent_tick g) /\ u 32 (sig_deliver_tick g) /\
  option_wf (u 32) (sig_receipt_spark g).
Definition cell_state_typed (c : CellState) : Prop :=
  u 16 (cel_id c) /\ point_wire (cel_position c) /\ memory_wire (cel_memory c) /\
  (length (cel_evidence c) = 4%nat /\ Forall (option_wf (u 32)) (cel_evidence c)) /\
  option_wf spark_wire (cel_cargo c) /\
  (length (cel_inbox c) = 4%nat /\ Forall (option_wf signal_typed) (cel_inbox c)).
Definition source_state_typed (e : SourceState) : Prop :=
  u 16 (ss_id e) /\ list_wire spark_wire 255 (ss_sparks e).
Definition depot_state_typed (e : DepotState) : Prop :=
  u 16 (ds_id e) /\ list_wire spark_wire 255 (ds_sparks e).
Definition beacon_state_typed (b : BeaconState) : Prop :=
  u 16 (bs_id b) /\ u 32 (bs_charge b) /\ u 32 (bs_delivered b) /\ u 32 (bs_drained b).
Definition enabled_typed (e : EnabledState) : Prop := u 16 (es_id e).
Definition delivery_typed (d : Delivery) : Prop :=
  u 32 (del_tick d) /\ spark_wire (del_spark d) /\ u 16 (del_beacon d).

(** The counts fit the byte they are written in. *)
Definition state_typed (s : State) : Prop :=
  u 32 (st_tick s) /\ list_wire cell_state_typed 255 (st_cells s) /\
  list_wire source_state_typed 255 (st_sources s) /\
  list_wire depot_state_typed 255 (st_depots s) /\
  list_wire beacon_state_typed 255 (st_beacons s) /\
  list_wire enabled_typed 255 (st_valves s) /\ list_wire enabled_typed 255 (st_links s) /\
  list_wire signal_typed 255 (st_pending s) /\ list_wire delivery_typed 255 (st_delivered s) /\
  u 64 (st_next_signal s).

#[export] Instance pf_signal : PrefixFree signal_typed put_signal.
Proof. unfold signal_typed. pf_record put_signal. Qed.
#[export] Instance pf_cell_state : PrefixFree cell_state_typed put_cell_state.
Proof. unfold cell_state_typed. pf_record put_cell_state. Qed.
#[export] Instance pf_source_state : PrefixFree source_state_typed put_source_state.
Proof. unfold source_state_typed. pf_record put_source_state. Qed.
#[export] Instance pf_depot_state : PrefixFree depot_state_typed put_depot_state.
Proof. unfold depot_state_typed. pf_record put_depot_state. Qed.
#[export] Instance pf_beacon_state : PrefixFree beacon_state_typed put_beacon_state.
Proof. unfold beacon_state_typed. pf_record put_beacon_state. Qed.
#[export] Instance pf_enabled : PrefixFree enabled_typed put_enabled.
Proof. unfold enabled_typed. pf_record put_enabled. Qed.
#[export] Instance pf_delivery : PrefixFree delivery_typed put_delivery.
Proof. unfold delivery_typed. pf_record put_delivery. Qed.

#[export] Instance appends_signal a : Appends (put_signal a).
Proof. apply pf_appends. Qed.
#[export] Instance appends_cell_state a : Appends (put_cell_state a).
Proof. apply pf_appends. Qed.
#[export] Instance appends_source_state a : Appends (put_source_state a).
Proof. apply pf_appends. Qed.
#[export] Instance appends_depot_state a : Appends (put_depot_state a).
Proof. apply pf_appends. Qed.
#[export] Instance appends_beacon_state a : Appends (put_beacon_state a).
Proof. apply pf_appends. Qed.
#[export] Instance appends_enabled a : Appends (put_enabled a).
Proof. apply pf_appends. Qed.
#[export] Instance appends_delivery a : Appends (put_delivery a).
Proof. apply pf_appends. Qed.

Lemma pf_state : PrefixFree state_typed put_state.
Proof. unfold state_typed. pf_record put_state. Qed.

Lemma encode_state_inj s1 s2 :
  state_typed s1 -> state_typed s2 -> encode_state s1 = encode_state s2 -> s1 = s2.
Proof.
  intros H1 H2 E. apply (pf_inj (PrefixFree := pf_state) s1 s2 [] []); [done..|].
  rewrite !app_nil_r. exact E.
Qed.

(** ** Sizes: a legal state fits the reserved buffer *)

Lemma size_option {A} (f : A -> Writer -> Writer) o m `{!forall x, Appends (f x)} :
  (forall x, size (f x) <= m) -> size (w_option f o) <= 1 + m.
Proof.
  intros Hm. destruct o as [x|]; simpl; [|change (size (w_u8 0)) with 1; lia].
  rewrite size_seq by done. specialize (Hm x). change (size (w_u8 1)) with 1. lia.
Qed.

Lemma size_signal g : size (put_signal g) <= SIGNAL_BYTES.
Proof.
  unfold put_signal. autorewrite with sizes. pose proof (size_endpoint (sig_from g)).
  assert (size (w_option w_u32 (sig_receipt_spark g)) <= 1 + 4)
    by (apply size_option; [apply _|done]). unfold SIGNAL_BYTES. lia.
Qed.

Definition CELL_STATE_BYTES : N := 2 + 2 + 1 + 4 + 4 * 5 + 6 + 4 * (1 + SIGNAL_BYTES).

Lemma size_cell_state b c : cell_ok b c -> size (put_cell_state c) <= CELL_STATE_BYTES.
Proof.
  intros [_ Hm _ He Hi]. unfold put_cell_state. autorewrite with sizes.
  assert (size (w_bytes (cel_memory c)) = 4) as ->.
  { unfold size, len, written, w_bytes. by rewrite app_nil_l, Hm. }
  assert (size (w_all (w_option w_u32) (cel_evidence c)) <= 5 * 4).
  { replace 4 with (len (cel_evidence c)) by (unfold len; lia). apply size_all; [apply _|].
    apply all_bounded. intros o. by apply (size_option w_u32 o 4). }
  assert (size (w_option put_spark (cel_cargo c)) <= 1 + 5) by (apply size_option; [apply _|done]).
  assert (size (w_all (w_option put_signal) (cel_inbox c)) <= (1 + SIGNAL_BYTES) * 4).
  { replace 4 with (len (cel_inbox c)) by (unfold len; lia). apply size_all; [apply _|].
    apply all_bounded. intros o. apply size_option; [apply _|]. apply size_signal. }
  unfold CELL_STATE_BYTES. lia.
Qed.

(** Stations: three bytes each and five per spark. *)
Lemma size_stations {A} (f : A -> list Spark) (put : A -> Writer -> Writer) l n
    `{!forall x, Appends (put x)} :
  (forall x, size (put x) <= 3 + 5 * len (f x)) -> len l <= n ->
  len (l ≫= f) <= MAX_INITIAL_SPARKS ->
  size (w_counted put l) <= 1 + n * 3 + MAX_INITIAL_SPARKS * 5.
Proof.
  intros Hf Hl Hs. unfold w_counted. autorewrite with sizes.
  enough (size (w_all put l) <= 3 * len l + 5 * len (l ≫= f)) by lia. clear Hl Hs.
  unfold size. rewrite written_all by done. induction l as [|x l IH]; csimpl; [by vm_compute|].
  specialize (Hf x). unfold size, len in *. rewrite !length_app. cbn [length]. lia.
Qed.

Lemma size_spark_list l : size (w_counted put_spark l) <= 1 + 5 * len l.
Proof. apply size_counted; [apply _|]. by apply all_bounded. Qed.

Lemma world_counts w :
  world_ok w -> len (cells w) <= MAX_CELLS /\ len (sources w) <= MAX_SOURCES /\
  len (depots w) <= MAX_DEPOTS /\ len (beacons w) <= MAX_BEACONS /\ len (valves w) <= MAX_VALVES /\
  len (links w) <= MAX_LINKS /\ len (all_sparks (spec w)) <= MAX_INITIAL_SPARKS.
Proof.
  intros Hw. destruct (wo_valid w Hw) as [_ [] _ _ _ _ _ _ _ _ _ [_ Hs] _ _ _ _].
  repeat split; try done; unfold MAX_CELLS, MAX_SOURCES, MAX_DEPOTS, MAX_BEACONS, MAX_VALVES, MAX_LINKS;
    unfold cells, sources, depots, beacons, valves, links; lia.
Qed.

Lemma len_fmap_eq {A B C} (f : A -> C) (g : B -> C) l k : f <$> l = g <$> k -> len l = len k.
Proof. intros H. apply (f_equal length) in H. rewrite !length_fmap in H. unfold len. by f_equal. Qed.

Lemma size_state w s : world_ok w -> state_ok w s -> len (encode_state s) <= MAX_STATE_BYTES.
Proof.
  intros Hw Hs. destruct (world_counts w Hw) as (Nc & Ns & Nd & Nb & Nv & Nl & Nsp).
  pose proof (Permutation_length (so_conserved _ _ Hs)) as Hall.
  assert (Hsum : len (st_sources s ≫= ss_sparks) <= MAX_INITIAL_SPARKS /\
    len (st_depots s ≫= ds_sparks) <= MAX_INITIAL_SPARKS /\
    len (st_delivered s) <= MAX_INITIAL_SPARKS).
  { unfold sparks, len in *. rewrite !length_app, length_fmap in Hall. lia. }
  destruct Hsum as (S1 & S2 & S3). change (size (put_state s) <= MAX_STATE_BYTES).
  unfold put_state. autorewrite with sizes.
  assert (size (w_counted put_cell_state (st_cells s)) <= 1 + MAX_CELLS * CELL_STATE_BYTES).
  { apply size_bounded; [apply _| |].
    - pose proof (so_cells _ _ Hs) as Hc. clear -Hc.
      induction Hc; constructor; [by eapply size_cell_state|done].
    - unfold len. by rewrite <- (Forall2_length _ _ _ (so_cells _ _ Hs)). }
  assert (size (w_counted put_source_state (st_sources s)) <= 1 + MAX_SOURCES * 3 + MAX_INITIAL_SPARKS * 5).
  { apply (size_stations ss_sparks);
      [apply _| |by rewrite (len_fmap_eq _ _ _ _ (so_sources _ _ Hs))|done].
    intros e. unfold put_source_state. autorewrite with sizes. pose proof (size_spark_list (ss_sparks e)). lia. }
  assert (size (w_counted put_depot_state (st_depots s)) <= 1 + MAX_DEPOTS * 3 + MAX_INITIAL_SPARKS * 5).
  { apply (size_stations ds_sparks);
      [apply _| |unfold len; by rewrite <- (Forall2_length _ _ _ (so_depots _ _ Hs))|done].
    intros e. unfold put_depot_state. autorewrite with sizes. pose proof (size_spark_list (ds_sparks e)). lia. }
  assert (size (w_counted put_beacon_state (st_beacons s)) <= 1 + MAX_BEACONS * 15).
  { apply size_bounded; [apply _|by apply all_bounded|].
    unfold len. by rewrite <- (Forall2_length _ _ _ (so_beacons _ _ Hs)). }
  assert (size (w_counted put_enabled (st_valves s)) <= 1 + MAX_VALVES * 3).
  { apply size_bounded; [apply _|by apply all_bounded|].
    by rewrite (len_fmap_eq _ _ _ _ (so_valves _ _ Hs)). }
  assert (size (w_counted put_enabled (st_links s)) <= 1 + MAX_LINKS * 3).
  { apply size_bounded; [apply _|by apply all_bounded|].
    by rewrite (len_fmap_eq _ _ _ _ (so_links _ _ Hs)). }
  assert (size (w_counted put_signal (st_pending s)) <= 1 + MAX_PENDING * SIGNAL_BYTES)
    by (apply size_bounded; [apply _|by apply all_bounded, size_signal|apply (so_pending_bound _ _ Hs)]).
  assert (size (w_counted put_delivery (st_delivered s)) <= 1 + MAX_DELIVERIES * 11)
    by (apply size_bounded; [apply _|by apply all_bounded|done]).
  unfold MAX_STATE_BYTES, MAX_SPARK_BYTES, CELL_STATE_BYTES in *. lia.
Qed.

(** ** Typing of states is decidable *)

#[export] Instance u_dec w v : Decision (u w v). Proof. unfold u. apply _. Defined.
#[export] Instance port_wf_dec p : Decision (port_wf p). Proof. unfold port_wf. apply _. Defined.
#[export] Instance point_wire_dec p : Decision (point_wire p).
Proof. unfold point_wire. apply _. Defined.
#[export] Instance spark_wire_dec s : Decision (spark_wire s).
Proof. unfold spark_wire. apply _. Defined.
#[export] Instance endpoint_wire_dec e : Decision (endpoint_wire e).
Proof. destruct e; simpl; apply _. Defined.
#[export] Instance option_wf_dec {A} (wf : A -> Prop) `{!forall a, Decision (wf a)} o :
  Decision (option_wf wf o).
Proof.
  destruct o as [a|].
  - destruct (decide (wf a)) as [Hd|Hd]; [left; by intros ? [= <-]|right; intros Ho; by apply Hd, Ho].
  - left. by intros ? [=].
Defined.
#[export] Instance list_wire_dec {A} (wf : A -> Prop) `{!forall a, Decision (wf a)} n l :
  Decision (list_wire wf n l).
Proof. unfold list_wire. apply _. Defined.
#[export] Instance signal_typed_dec g : Decision (signal_typed g).
Proof. unfold signal_typed. apply _. Defined.
#[export] Instance cell_state_typed_dec c : Decision (cell_state_typed c).
Proof. unfold cell_state_typed, memory_wire. apply _. Defined.
#[export] Instance source_state_typed_dec e : Decision (source_state_typed e).
Proof. unfold source_state_typed. apply _. Defined.
#[export] Instance depot_state_typed_dec e : Decision (depot_state_typed e).
Proof. unfold depot_state_typed. apply _. Defined.
#[export] Instance beacon_state_typed_dec e : Decision (beacon_state_typed e).
Proof. unfold beacon_state_typed. apply _. Defined.
#[export] Instance enabled_typed_dec e : Decision (enabled_typed e).
Proof. unfold enabled_typed. apply _. Defined.
#[export] Instance delivery_typed_dec e : Decision (delivery_typed e).
Proof. unfold delivery_typed. apply _. Defined.
#[export] Instance state_typed_dec s : Decision (state_typed s).
Proof. unfold state_typed. apply _. Defined.
