(* ===== verification/ResultCodec.v ===== *)
(** Digests, and the codec of results
    (src/crates/vhalla-witness/src/{hash,codec}.rs). *)
From Stdlib Require Import Ascii String.
From S2P Require Import Prelude Meter Language World Machine Bytes ProgramCodec WorldCodec.

(** Domain-separated digests (src/crates/vhalla-witness/src/hash.rs).
    SHA-256 is a function of the caller's choice: [sha256] is an argument of
    every digest, and what a theorem needs of it is the class [Sha256] of
    [Bytes]. *)

Definition ASSIGNMENT_DOMAIN : list N := bytes_of "vhalla/witness/assignment/v1".
Definition MANIFEST_DOMAIN : list N := bytes_of "vhalla/witness/manifest/v1".
Definition STATE_DOMAIN : list N := bytes_of "vhalla/witness/state/v1".
Definition OUTPUT_DOMAIN : list N := bytes_of "vhalla/witness/output/v1".
Definition RECEIPT_DOMAIN : list N := bytes_of "vhalla/witness/receipt/v1".

(** What is hashed. *)
Definition preimage (domain bytes : list N) : list N :=
  domain ++ be 4 (if len bytes <? 2 ^ 32 then len bytes else 2 ^ 32 - 1) ++ bytes.

Definition digest (sha256 : list N -> list N) (domain bytes : list N) : list N :=
  sha256 (preimage domain bytes).

(** The five newtypes, each digesting under its own domain. *)
Record ProgramHash : Type := mkProgramHash { program_hash : list N }.
Record ManifestHash : Type := mkManifestHash { manifest_hash : list N }.
Record StateHash : Type := mkStateHash { state_hash : list N }.
Record OutputHash : Type := mkOutputHash { output_hash : list N }.
Record ReceiptHash : Type := mkReceiptHash { receipt_hash : list N }.

#[global] Instance ProgramHash_eq_dec : EqDecision ProgramHash. Proof. solve_decision. Defined.
#[global] Instance ManifestHash_eq_dec : EqDecision ManifestHash. Proof. solve_decision. Defined.
#[global] Instance StateHash_eq_dec : EqDecision StateHash. Proof. solve_decision. Defined.
#[global] Instance OutputHash_eq_dec : EqDecision OutputHash. Proof. solve_decision. Defined.
#[global] Instance ReceiptHash_eq_dec : EqDecision ReceiptHash. Proof. solve_decision. Defined.

Section Of.
Context (sha256 : list N -> list N).
Definition ProgramHash_of (bytes : list N) : ProgramHash :=
  mkProgramHash (digest sha256 ASSIGNMENT_DOMAIN bytes).
Definition ManifestHash_of (bytes : list N) : ManifestHash :=
  mkManifestHash (digest sha256 MANIFEST_DOMAIN bytes).
Definition StateHash_of (bytes : list N) : StateHash :=
  mkStateHash (digest sha256 STATE_DOMAIN bytes).
Definition OutputHash_of (bytes : list N) : OutputHash :=
  mkOutputHash (digest sha256 OUTPUT_DOMAIN bytes).
Definition ReceiptHash_of (bytes : list N) : ReceiptHash :=
  mkReceiptHash (digest sha256 RECEIPT_DOMAIN bytes).
End Of.

(** ** Separation *)

Definition domains : list (list N) :=
  [ASSIGNMENT_DOMAIN; MANIFEST_DOMAIN; STATE_DOMAIN; OUTPUT_DOMAIN; RECEIPT_DOMAIN].

(** One list is a prefix of the other. *)
Fixpoint comparable (a b : list N) : bool :=
  match a, b with
  | x :: a, y :: b => (x =? y) && comparable a b
  | _, _ => true
  end.

Lemma comparable_app a b k l : a ++ k = b ++ l -> comparable a b = true.
Proof.
  revert b. induction a as [|x a IH]; intros [|y b] E; try done.
  injection E as -> E. simpl. rewrite N.eqb_refl. by eapply IH.
Qed.

(** No member is a prefix of another. *)
Definition separate (l : list (list N)) : bool :=
  forallb (fun a => forallb (fun b => implb (comparable a b) (bool_decide (a = b))) l) l.

Lemma separate_spec l a b : separate l = true -> a ∈ l -> b ∈ l -> comparable a b = true -> a = b.
Proof.
  intros H Ha Hb Hc. unfold separate in H. rewrite forallb_forall in H.
  specialize (H a ltac:(by apply list_elem_of_In)).
  rewrite forallb_forall in H. specialize (H b ltac:(by apply list_elem_of_In)).
  rewrite Hc in H. by apply bool_decide_eq_true in H.
Qed.

Lemma preimage_separate l d1 d2 b1 b2 : separate l = true ->
  d1 ∈ l -> d2 ∈ l -> preimage d1 b1 = preimage d2 b2 -> d1 = d2 /\ b1 = b2.
Proof.
  unfold preimage. intros Hl H1 H2 E. assert (d1 = d2) as <-.
  { eapply separate_spec; [done..|]. by eapply comparable_app. }
  split; [done|]. apply app_inv_head in E.
  apply app_inj_1 in E as [_ E]; [done|]. by rewrite !be_length.
Qed.

Lemma domains_separate : separate domains = true.
Proof. vm_compute. reflexivity. Qed.

Lemma preimage_inj d1 d2 b1 b2 :
  d1 ∈ domains -> d2 ∈ domains -> preimage d1 b1 = preimage d2 b2 -> d1 = d2 /\ b1 = b2.
Proof. apply preimage_separate, domains_separate. Qed.

Lemma digest_wire sha256 `{!Sha256 sha256} d b : hash_wire (digest sha256 d b).
Proof. unfold digest. apply sha256_wire. Qed.

(** Case results and their codec
    (src/crates/vhalla-witness/src/codec.rs, from [put_ledger] to
    [decode_output]; the record of src/crates/vhalla-witness/src/platform.rs). *)

Definition LEDGER_BYTES : N := 13 * 8.
Definition CASE_RESULT_BYTES : N := 1 + 4 + 4 + 32 + LEDGER_BYTES + 8.

Record CaseResult : Type := mkCaseResult {
  cr_status : RunStatus; cr_ticks_completed : N; cr_outcome : Outcome;
  cr_final_state : StateHash; cr_ledger : Ledger; cr_useful : N;
}.

Definition put_ledger (l : Ledger) : Writer -> Writer := w_all w_u64 (counters l).

Definition get_ledger : read Ledger :=
  let! loading := r_u64 FLedger in
  let! scheduling := r_u64 FLedger in
  let! conditions := r_u64 FLedger in
  let! sensors := r_u64 FLedger in
  let! memory_reads := r_u64 FLedger in
  let! memory_writes := r_u64 FLedger in
  let! actions := r_u64 FLedger in
  let! messages := r_u64 FLedger in
  let! transfers := r_u64 FLedger in
  let! checking := r_u64 FLedger in
  let! draining := r_u64 FLedger in
  let! copying := r_u64 FLedger in
  let! construction := r_u64 FLedger in
  ret (mkLedger loading scheduling conditions sensors memory_reads memory_writes actions messages
         transfers checking draining copying construction).

Definition status_tag (s : RunStatus) : N :=
  match s with Complete => 1 | FuelExhausted => 2 | ActivationLimit => 3 end.

Definition put_status (s : RunStatus) : Writer -> Writer := w_u8 (status_tag s).

Definition get_status : read RunStatus :=
  let! tag := r_u8 FStatus in
  match tag with
  | 1 => ret Complete
  | 2 => ret FuelExhausted
  | 3 => ret ActivationLimit
  | found => throw (Discriminant FStatus found)
  end.

Definition put_outcome (o : Outcome) : Writer -> Writer :=
  w_bool (all_beacons_positive o) >> w_bool (quotas_met o) >> w_bool (conserved o)
  >> w_bool (passed o).

Definition get_outcome : read Outcome :=
  let! all_beacons_positive := r_bool FBool in
  let! quotas_met := r_bool FBool in
  let! conserved := r_bool FBool in
  let! passed := r_bool FBool in
  ret (mkOutcome all_beacons_positive quotas_met conserved passed).

Definition put_state_hash (h : StateHash) : Writer -> Writer := w_bytes (state_hash h).
Definition get_state_hash : read StateHash := let! h := r_hash in ret (mkStateHash h).

Definition put_case_result (r : CaseResult) : Writer -> Writer :=
  put_status (cr_status r) >> w_u32 (cr_ticks_completed r) >> put_outcome (cr_outcome r)
  >> put_state_hash (cr_final_state r) >> put_ledger (cr_ledger r) >> w_u64 (cr_useful r).

Definition get_case_result : read CaseResult :=
  let! status := get_status in
  let! ticks_completed := r_u32 FStatus in
  let! outcome := get_outcome in
  let! final_state := get_state_hash in
  let! ledger := get_ledger in
  let! useful := r_u64 FLedger in
  ret (mkCaseResult status ticks_completed outcome final_state ledger useful).

Definition encode_output (results : list CaseResult) : list N :=
  written (w_counted put_case_result results).

Definition decode_output (bytes : list N) : res CodecError (list CaseResult) :=
  decode (1 + MAX_CASES * CASE_RESULT_BYTES) (r_counted MAX_CASES FCount get_case_result) bytes.

(** ** Laws *)

Definition ledger_wire (l : Ledger) : Prop := Forall (u 64) (counters l).
Definition state_hash_wire (h : StateHash) : Prop := hash_wire (state_hash h).
Definition case_result_wire (r : CaseResult) : Prop :=
  u 32 (cr_ticks_completed r) /\ state_hash_wire (cr_final_state r) /\
  ledger_wire (cr_ledger r) /\ u 64 (cr_useful r).

#[export] Instance codec_status : Codec (fun _ => True) put_status get_status.
Proof. codec_tac put_status get_status. Qed.
#[export] Instance codec_outcome : Codec (fun _ => True) put_outcome get_outcome.
Proof. codec_tac put_outcome get_outcome. Qed.

#[export] Instance codec_state_hash : Codec state_hash_wire put_state_hash get_state_hash.
Proof. apply codec_newtype; [done|by intros []|done]. Qed.

(** Thirteen integers, written by a loop and read field by field. *)
Definition put_ledger_fields (l : Ledger) : Writer -> Writer :=
  w_u64 (loading l) >> w_u64 (scheduling l) >> w_u64 (conditions l) >> w_u64 (sensors l)
  >> w_u64 (memory_reads l) >> w_u64 (memory_writes l) >> w_u64 (actions l) >> w_u64 (messages l)
  >> w_u64 (transfers l) >> w_u64 (checking l) >> w_u64 (draining l) >> w_u64 (copying l)
  >> w_u64 (construction l).

Definition ledger_fields_wire (l : Ledger) : Prop :=
  u 64 (loading l) /\ u 64 (scheduling l) /\ u 64 (conditions l) /\ u 64 (sensors l) /\
  u 64 (memory_reads l) /\ u 64 (memory_writes l) /\ u 64 (actions l) /\ u 64 (messages l) /\
  u 64 (transfers l) /\ u 64 (checking l) /\ u 64 (draining l) /\ u 64 (copying l) /\
  u 64 (construction l).

Lemma ledger_wire_fields l : ledger_wire l <-> ledger_fields_wire l.
Proof.
  unfold ledger_wire, ledger_fields_wire, counters. rewrite !Forall_cons, Forall_nil. tauto.
Qed.

Lemma codec_ledger_fields : Codec ledger_fields_wire put_ledger_fields get_ledger.
Proof. unfold ledger_fields_wire. codec_tac put_ledger_fields get_ledger. Qed.

#[export] Instance codec_ledger : Codec ledger_wire put_ledger get_ledger.
Proof.
  apply (codec_put_ext _ put_ledger_fields); [done|]. pose proof codec_ledger_fields as [H1 H2 H3 H4].
  split; [done| |intros; rewrite ledger_wire_fields; auto|done].
  intros l Hl. by apply H2, ledger_wire_fields.
Qed.

Lemma bytes_status s : Forall byte (written (put_status s)).
Proof. by apply (codec_bytes (g := get_status)). Qed.
Lemma bytes_outcome o : Forall byte (written (put_outcome o)).
Proof. by apply (codec_bytes (g := get_outcome)). Qed.
Lemma bytes_state_hash h : state_hash_wire h -> Forall byte (written (put_state_hash h)).
Proof. apply (codec_bytes (g := get_state_hash)). Qed.
Lemma bytes_ledger l : ledger_wire l -> Forall byte (written (put_ledger l)).
Proof. apply (codec_bytes (g := get_ledger)). Qed.
#[export] Hint Resolve bytes_status bytes_outcome bytes_state_hash bytes_ledger : bytes.

#[export] Instance codec_case_result : Codec case_result_wire put_case_result get_case_result.
Proof. unfold case_result_wire. codec_tac put_case_result get_case_result. Qed.

Definition output_wire : list CaseResult -> Prop := list_wire case_result_wire MAX_CASES.

#[export] Instance codec_results :
  Codec output_wire (w_counted put_case_result) (r_counted MAX_CASES FCount get_case_result).
Proof. by apply codec_counted. Qed.

(** Every case result has the same width. *)
Lemma size_case_result r : case_result_wire r -> size (put_case_result r) = CASE_RESULT_BYTES.
Proof.
  intros (_ & [_ Hh] & _). unfold put_case_result. autorewrite with sizes.
  assert (size (put_state_hash (cr_final_state r)) = 32) as ->.
  { unfold size, put_state_hash, written, w_bytes, len. rewrite app_nil_l, Hh. done. }
  done.
Qed.

Lemma size_output rs : output_wire rs -> len (encode_output rs) = 1 + CASE_RESULT_BYTES * len rs.
Proof.
  intros [_ Hf]. change (size (w_counted put_case_result rs) = 1 + CASE_RESULT_BYTES * len rs).
  unfold w_counted. autorewrite with sizes. f_equal. unfold size. rewrite written_all by apply _.
  induction Hf as [|r rs Hr Hf IH]; [by rewrite N.mul_0_r|].
  apply size_case_result in Hr. rewrite bind_cons. unfold size, len in *. rewrite length_app.
  cbn [length]. lia.
Qed.

Lemma decode_output_iff bytes rs :
  Forall byte bytes ->
  decode_output bytes = Ok rs <-> output_wire rs /\ bytes = encode_output rs.
Proof.
  intros Hb. unfold decode_output. rewrite decode_iff by done. split; [naive_solver|].
  intros [Hrs ->]. split; [done|]. split; [done|]. rewrite size_output by done.
  destruct Hrs as [Hl _]. unfold MAX_CASES in *.
  assert (CASE_RESULT_BYTES * len rs <= CASE_RESULT_BYTES * 8) by (by apply N.mul_le_mono_l). lia.
Qed.
