(* ===== verification/Manifest.v ===== *)
(** Cases, assignments and manifests of the witness platform
    (src/crates/vhalla-witness/src/{world,manifest}.rs). *)
From stdpp Require Import sorting.
From S2P Require Import Prelude Language World WorldFacts Fixture MachineInv Bytes ProgramCodec.
From S2P Require Import WorldCodec ResultCodec.

(** Cases and assignments are accepted exactly when they satisfy their
    declarative rules: the converses of [Case_new_ok] and
    [Assignment_validate_ok] (src/crates/vhalla-witness/src/world.rs). *)

Lemma Case_new_iff w s : Case_new w s = Ok (mkCase s) <-> case_ok w (mkCase s).
Proof.
  split; [by intros [_ H]%Case_new_ok|]. intros [Ht Hf Ha Hl He Hev].
  cbv [ticks case_fuel activation_fuel loading_work events case_spec] in *.
  unfold Case_new, MIN_TICKS, MAX_TICKS, MAX_FUEL, MIN_ACTIVATION_FUEL, MAX_ACTIVATION_FUEL,
    MAX_LOADING_WORK, MAX_EVENTS.
  assert (E : res_for_each (check_event w (cs_ticks s)) (cs_events s) = Ok tt).
  { apply res_for_each_ok. eapply Forall_impl; [exact Hev|]. intros e [Hr Hk].
    unfold check_event, MIN_TICKS. rewrite (proj2 (in_range_spec _ _ _)) by done. simpl.
    replace (event_target_exists w (ev_event e)) with true; [done|]. symmetry.
    destruct (ev_event e); by apply existsb_key. }
  rewrite (proj2 (in_range_spec _ _ _)) by done. rewrite (proj2 (in_range_spec 1 1024 _)) by done.
  rewrite (proj2 (N.leb_le _ _)) by done. rewrite (proj2 (N.leb_le _ 65536)) by done.
  rewrite (proj2 (N.leb_le _ 64)) by done. simpl. by rewrite E.
Qed.

(** Identifiers of consecutive entries strictly ascend. *)
Lemma windows2_ascending {A} (ps : list (N * A)) :
  existsb (fun '(a, b) => b.1 <=? a.1) (windows2 ps) = false <-> ascending None ps.*1.
Proof.
  unfold windows2. destruct ps as [|p ps]; [done|]. simpl. revert p.
  induction ps as [|q ps IH]; intros p; simpl; [naive_solver|].
  rewrite orb_false_iff, IH, N.leb_gt. naive_solver.
Qed.

Lemma ascending_bound previous ids id :
  ascending previous ids -> id ∈ ids -> match previous with Some last => last < id | None => True end.
Proof.
  revert previous. induction ids as [|x ids IH]; intros previous H Hin; [by apply not_elem_of_nil in Hin|].
  simpl in H. destruct H as [H1 H2]. apply elem_of_cons in Hin as [->|Hin]; [done|].
  pose proof (IH _ H2 Hin) as Hlt. simpl in Hlt. destruct previous; [lia|done].
Qed.

Lemma ascending_NoDup previous ids : ascending previous ids -> NoDup ids.
Proof.
  revert previous. induction ids as [|x ids IH]; intros previous H; [constructor|].
  simpl in H. destruct H as [_ H]. constructor; [|by eapply IH].
  intros Hin. pose proof (ascending_bound _ _ _ H Hin) as Hlt. simpl in Hlt. lia.
Qed.

(** The programs an accepted assignment gives the cells, in world order. *)
Definition known (w : World) (p : Program) : Prop :=
  Forall (fun r => valve_known w r = true) (rules p).

Lemma known_ok w p :
  res_for_each (fun r => require (valve_known w r) UnknownValve) (rules p) = Ok tt <-> known w p.
Proof. rewrite res_for_each_ok. by setoid_rewrite require_ok. Qed.

Lemma find_entry (ps : list (N * Program)) id e :
  NoDup ps.*1 -> List.find (fun '(i, _) => i =? id) ps = Some e <-> e ∈ ps /\ e.1 = id.
Proof.
  intros Hn. induction ps as [|[i p] ps IH]; simpl in *.
  - split; [done|]. intros [H%not_elem_of_nil _]. done.
  - apply NoDup_cons in Hn as [Hni Hn]. destruct (N.eqb_spec i id) as [->|Hne].
    + split; [intros [= <-]; split; [left|done]|]. intros [[->|Hin]%elem_of_cons <-]; [done|].
      exfalso. apply Hni, list_elem_of_fmap. by exists e.
    + rewrite IH by done. split; [intros [? ?]; split; [by right|done]|].
      intros [[->|Hin]%elem_of_cons ?]; simpl in *; [done|done].
Qed.

Lemma assign_all_iff w ps bodies acc a :
  NoDup ps.*1 ->
  res_fold (assign_cell w ps) acc bodies = Ok a <->
  exists progs, a = (acc.1 ++ progs, acc.2 ++ (cb_id <$> bodies)) /\
    Forall2 (fun c p => (cb_id c, p) ∈ ps /\ known w p) bodies progs.
Proof.
  intros Hn. revert acc. induction bodies as [|c bodies IH]; intros [ordered ids]; simpl.
  - split; [intros [= <-]; exists []; by rewrite !app_nil_r|].
    intros (progs & -> & H). apply Forall2_nil_inv_l in H as ->. by rewrite !app_nil_r.
  - unfold assign_cell at 1. split.
    + intros ([o' i'] & Hstep & H)%bind_ok. apply bind_ok in Hstep as ([id p] & Hfind & Hstep).
      apply ok_or_ok, find_entry in Hfind as [Hin Hid]; [|done]. simpl in Hid. subst id.
      apply bind_unit_ok in Hstep as (Hr & [= <- <-]). apply known_ok in Hr.
      apply IH in H as (progs & -> & Hf). exists (p :: progs). simpl.
      rewrite <- !app_assoc. split; [done|]. by constructor.
    + intros (progs & -> & Hf). apply Forall2_cons_inv_l in Hf as (p & progs' & [Hin Hk] & Hf & ->).
      rewrite (proj2 (find_entry ps (cb_id c) (cb_id c, p) Hn)) by done. simpl.
      rewrite (proj2 (known_ok w p)) by done. simpl. apply IH. exists progs'. simpl.
      rewrite <- !app_assoc. done.
Qed.

Lemma Assignment_validate_iff w ps a :
  Assignment_validate w ps = Ok a <->
  len ps = len (cells w) /\ ascending None ps.*1 /\ asg_cells a = cb_id <$> cells w /\
  Forall2 (fun c p => (cb_id c, p) ∈ ps /\ known w p) (cells w) (programs a).
Proof.
  unfold Assignment_validate. destruct (N.eqb_spec (len ps) (len (cells w))) as [El|]; simpl.
  2: { split; [done|]. by intros [? _]. }
  pose proof (windows2_ascending ps) as Hw. destruct (existsb _ _) eqn:Eb.
  { split; [done|]. intros (_ & H & _). by apply Hw in H. }
  assert (Has : ascending None ps.*1) by by apply Hw.
  assert (Hn : NoDup ps.*1) by by eapply ascending_NoDup. split.
  - intros ([o i] & H & [= <-])%bind_ok. apply assign_all_iff in H as (progs & [= -> ->] & Hf); done.
  - intros (_ & _ & Hc & Hf). rewrite (proj2 (assign_all_iff w ps (cells w) ([], [])
      (programs a, asg_cells a) Hn)); [by destruct a|]. exists (programs a). simpl. by rewrite Hc.
Qed.

(** The only way to refuse programs for exactly the world's cells. *)
Lemma assign_all_error w ps bodies acc :
  NoDup ps.*1 -> Forall (fun c => cb_id c ∈ ps.*1) bodies ->
  (exists a, res_fold (assign_cell w ps) acc bodies = Ok a) \/
  res_fold (assign_cell w ps) acc bodies = Err UnknownValve.
Proof.
  intros Hn Hf. revert acc. induction Hf as [|c bodies Hc Hf IH]; intros acc; simpl; [eauto|].
  unfold assign_cell at 1 3. apply list_elem_of_fmap in Hc as ([id p] & Hid & Hin). simpl in Hid.
  rewrite (proj2 (find_entry ps (cb_id c) (id, p) Hn)) by done. simpl.
  assert (H : res_for_each (fun r => require (valve_known w r) UnknownValve) (rules p) = Ok tt \/
    res_for_each (fun r => require (valve_known w r) UnknownValve) (rules p) = Err UnknownValve).
  { unfold res_for_each. induction (rules p) as [|r l IHl]; simpl; [by left|].
    destruct (valve_known w r); simpl; [done|by right]. }
  destruct H as [->| ->]; simpl; [apply IH|by right].
Qed.

Lemma Assignment_validate_error w ps :
  len ps = len (cells w) -> ascending None ps.*1 -> (forall c, c ∈ cells w -> cb_id c ∈ ps.*1) ->
  (exists a, Assignment_validate w ps = Ok a) \/ Assignment_validate w ps = Err UnknownValve.
Proof.
  intros El Has Hin. unfold Assignment_validate. rewrite El, N.eqb_refl. simpl.
  rewrite (proj2 (windows2_ascending ps)) by done. assert (Hn := ascending_NoDup _ _ Has).
  destruct (assign_all_error w ps (cells w) ([], []) Hn) as [[a ->]| ->]; simpl; [|eauto|by right].
  by apply Forall_forall.
Qed.

(** Verifier-authored tasks (src/crates/vhalla-witness/src/manifest.rs):
    validation of a manifest and the binding of candidate programs to its
    open slots.  SHA-256 is an argument. *)

Inductive ManifestError : Type :=
| MWorld (e : WorldError) | MSlots | MCases | MContract | MTooLarge | MLoadingWork | MCandidate.

Record ValidManifest : Type := mkValidManifest {
  vm_manifest : TaskManifest; vm_world : World; vm_cases : list Case;
  vm_hash : ManifestHash; vm_encoded_len : N;
}.

(** [sort_unstable] of identifiers. *)
Definition sort_unstable (l : list N) : list N := merge_sort N.le l.

Definition new_cases (w : World) (specs : list CaseSpec) : res ManifestError (list Case) :=
  res_fold (fun cases s => let? c := map_err MWorld (Case_new w s) in Ok (cases ++ [c])) [] specs.

Definition sum_fuel (cases : list Case) : res ManifestError N :=
  res_fold (fun fuel c => ok_or (checked_add 64 fuel (case_fuel c)) MContract) 0 cases.

Definition MAX_USEFUL : N := MAX_INITIAL_SPARKS * MAX_CASES.

Definition validate (sha256 : list N -> list N) (m : TaskManifest)
    : res ManifestError ValidManifest :=
  let? world := map_err MWorld (World_new (tm_world m)) in
  if (len (tm_cases m) =? 0) || (MAX_CASES <? len (tm_cases m)) then Err MCases
  else
    let? cases := new_cases world (tm_cases m) in
    let expected := sort_unstable (cb_id <$> cells world) in
    let named := (tm_slots m).*1 in
    if negb (bool_decide (named = expected)) || (MAX_CELLS <? len named) then Err MSlots
    else
      let? fuel := sum_fuel cases in
      if (fuel <? total_ceiling (tm_contract m)) || (MAX_USEFUL <? useful_floor (tm_contract m))
      then Err MContract
      else
        let encoded := encode_manifest m in
        if MAX_MANIFEST_BYTES <? len encoded then Err MTooLarge
        else if existsb (fun c => loading_work c <? len encoded) cases then Err MLoadingWork
        else Ok (mkValidManifest m world cases (ManifestHash_of sha256 encoded) (len encoded)).

Definition open_slots (v : ValidManifest) : list N :=
  (filter (fun slot => slot.2 = None) (tm_slots (vm_manifest v))).*1.

Definition contract (v : ValidManifest) : WorkContract := tm_contract (vm_manifest v).

(** A plain [sum] over [u64]: the code relies on validation for the range. *)
Definition fuel_total (v : ValidManifest) : N :=
  foldl (fun fuel c => wrapping_add 64 fuel (case_fuel c)) 0 (vm_cases v).

(** The loop over the slots with the candidate's iterator. *)
Fixpoint merge (slots : list ProgramSlot) (candidate : list (N * Program))
    : res ManifestError (list (N * Program)) :=
  match slots with
  | [] => Ok []
  | (cell, Some program) :: slots =>
      let? merged := merge slots candidate in Ok ((cell, program) :: merged)
  | (cell, None) :: slots =>
      match candidate with
      | [] => Err MCandidate
      | (_, program) :: candidate =>
          let? merged := merge slots candidate in Ok ((cell, program) :: merged)
      end
  end.

Definition assign (v : ValidManifest) (candidate : list (N * Program))
    : res ManifestError Assignment :=
  if negb (bool_decide (candidate.*1 = open_slots v)) then Err MCandidate
  else
    let? merged := merge (tm_slots (vm_manifest v)) candidate in
    map_err MWorld (Assignment_validate (vm_world v) merged).

(** ** Typed manifests: the ranges of the Rust field types *)

Record world_typed (w : WorldSpec) : Prop := {
  wt_width : u 8 (ws_width w);
  wt_height : u 8 (ws_height w);
  wt_walls : Forall point_wire (ws_walls w);
  wt_sources : Forall source_wire (ws_sources w);
  wt_depots : Forall depot_wire (ws_depots w);
  wt_beacons : Forall beacon_wire (ws_beacons w);
  wt_valves : Forall valve_wire (ws_valves w);
  wt_cells : Forall cell_wire (ws_cells w);
  wt_links : Forall link_wire (ws_links w);
}.

Definition case_typed (c : CaseSpec) : Prop :=
  u 64 (cs_seed c) /\ u 32 (cs_ticks c) /\ u 64 (cs_fuel c) /\ u 32 (cs_activation_fuel c) /\
  Forall event_wire (cs_events c) /\ u 64 (cs_loading_work c).

Record manifest_typed (m : TaskManifest) : Prop := {
  mt_world : world_typed (tm_world m);
  mt_slots : Forall (entry_wf (option_wf program_wf)) (tm_slots m);
  mt_cases : Forall case_typed (tm_cases m);
  mt_contract : contract_wire (tm_contract m);
}.

(** ** The declarative rules *)

Definition total_fuel (l : list CaseSpec) : N := foldr N.add 0 (cs_fuel <$> l).

Record manifest_valid (m : TaskManifest) (w : World) : Prop := {
  mv_world : World_new (tm_world m) = Ok w;
  mv_count : 1 <= len (tm_cases m) <= MAX_CASES;
  mv_cases : Forall (fun s => case_ok w (mkCase s)) (tm_cases m);
  mv_ascending : ascending None (tm_slots m).*1;
  mv_slots : (tm_slots m).*1 ≡ₚ cb_id <$> cells w;
  mv_ceiling : total_ceiling (tm_contract m) <= total_fuel (tm_cases m);
  mv_floor : useful_floor (tm_contract m) <= 1024;
  mv_loading : Forall (fun s => len (encode_manifest m) <= cs_loading_work s) (tm_cases m);
}.

(** *** Steps of the validation *)

Lemma new_cases_ok w specs cases :
  new_cases w specs = Ok cases <->
  cases = mkCase <$> specs /\ Forall (fun s => case_ok w (mkCase s)) specs.
Proof.
  unfold new_cases. enough (H : forall acc, res_fold (fun cases s =>
    let? c := map_err MWorld (Case_new w s) in Ok (cases ++ [c])) acc specs = Ok cases <->
    cases = acc ++ (mkCase <$> specs) /\ Forall (fun s => case_ok w (mkCase s)) specs)
    by exact (H []).
  induction specs as [|s specs IH]; intros acc; simpl.
  - rewrite app_nil_r. split; [by intros [= ->]|by intros [-> _]].
  - split.
    + intros (acc' & Hs & H)%bind_ok. apply bind_ok in Hs as (c & Hc & [= <-]).
      destruct (Case_new w s) as [c'| |] eqn:E; [|done..]. injection Hc as ->.
      apply Case_new_ok in E as [Hs Hok]. destruct c as [s']. simpl in Hs. subst s'.
      apply IH in H as [-> Hf]. rewrite <- app_assoc. split; [done|]. by constructor.
    + intros [-> [Hs Hf]%Forall_cons]. rewrite (proj2 (Case_new_iff w s)) by done. simpl.
      apply IH. by rewrite <- app_assoc.
Qed.

Lemma sum_fuel_ok cases :
  foldr N.add 0 (case_fuel <$> cases) < 2 ^ 64 ->
  sum_fuel cases = Ok (foldr N.add 0 (case_fuel <$> cases)).
Proof.
  unfold sum_fuel. rewrite <- (N.add_0_l (foldr N.add 0 _)). generalize 0 at 1 3 4.
  induction cases as [|c cases IH]; intros acc; simpl; intros H; [by rewrite N.add_0_r|].
  unfold checked_add. rewrite (proj2 (N.ltb_lt _ _)) by lia. simpl.
  rewrite N.add_assoc in *. by apply IH.
Qed.

Lemma total_fuel_bound w specs :
  Forall (fun s => case_ok w (mkCase s)) specs -> total_fuel specs <= MAX_FUEL * len specs.
Proof.
  unfold total_fuel, MAX_FUEL, len. induction 1 as [|s specs Hs H IH]; csimpl; [lia|].
  pose proof (co_fuel _ _ Hs) as Hf. cbv [case_fuel case_spec] in Hf. lia.
Qed.

Lemma ascending_sorted previous l : ascending previous l -> StronglySorted N.le l.
Proof.
  revert previous. induction l as [|x l IH]; intros previous H; [constructor|].
  destruct H as [_ H]. constructor; [by eapply IH|]. apply Forall_forall. intros y Hy.
  pose proof (ascending_bound _ _ _ H Hy) as Hlt. simpl in Hlt. lia.
Qed.

Lemma sorted_ascending l : NoDup l -> StronglySorted N.le l -> ascending None l.
Proof.
  enough (H : forall previous, NoDup l -> StronglySorted N.le l ->
    Forall (fun x => match previous with Some last => last < x | None => True end) l ->
    ascending previous l).
  { intros. apply H; [done..|]. by apply Forall_true. }
  induction l as [|x l IH]; intros previous Hn Hs Hf; [done|].
  apply NoDup_cons in Hn as [Hx Hn]. apply StronglySorted_inv in Hs as [Hs Hle].
  apply Forall_cons in Hf as [H1 _]. split; [done|]. apply IH; [done..|].
  rewrite Forall_forall in *. intros y Hy. specialize (Hle y Hy).
  assert (x <> y) by (intros ->; done). lia.
Qed.

Lemma sort_unstable_spec l ids :
  NoDup l -> ids = sort_unstable l <-> ascending None ids /\ ids ≡ₚ l.
Proof.
  intros Hn. unfold sort_unstable. pose proof (merge_sort_Permutation N.le l) as Hp.
  pose proof (StronglySorted_merge_sort N.le l) as Hs. split.
  - intros ->. split; [|done]. apply sorted_ascending; [by rewrite Hp|done].
  - intros [Ha Hi]. eapply (StronglySorted_unique N.le); [by eapply ascending_sorted|done|].
    by rewrite Hp.
Qed.

(** *** Typed and valid manifests are encodable *)

Lemma sparks_fit_total total l :
  total + len (l ≫= src_sparks) <= MAX_INITIAL_SPARKS -> sparks_fit total l.
Proof.
  revert total. induction l as [|s l IH]; intros total H; csimpl in *; [done|].
  unfold len in H. rewrite length_app in H. split; [unfold len; lia|].
  apply IH. unfold len. lia.
Qed.

Lemma world_typed_wire s : world_typed s -> valid s -> world_wire s.
Proof.
  intros [] Hv. destruct (v_limits _ Hv), (v_sparks _ Hv) as [_ Hsp].
  unfold world_wire, list_wire, sources_wire, MAX_WALLS, MAX_SOURCES, MAX_DEPOTS, MAX_BEACONS,
    MAX_VALVES, MAX_CELLS, MAX_LINKS.
  pose proof (sparks_fit_total 0 (ws_sources s) Hsp).
  repeat split; first [done|lia].
Qed.

Lemma world_wire_ids s : world_wire s -> ids_typed s.
Proof.
  intros (_ & _ & _ & (_ & _ & Hs) & (_ & Hd) & (_ & Hb) & (_ & Hv) & (_ & Hc) & (_ & Hl)).
  unfold u in *. split.
  - eapply Forall_impl; [exact Hs|]. intros x (? & _ & ?). by split.
  - eapply Forall_impl; [exact Hd|]. by intros x (? & _).
  - eapply Forall_impl; [exact Hb|]. by intros x (? & _).
  - eapply Forall_impl; [exact Hv|]. intros x (? & _ & ? & ? & ?). by repeat split.
  - eapply Forall_impl; [exact Hc|]. intros x (? & _ & ? & ?). by split.
  - eapply Forall_impl; [exact Hl|]. intros x (? & He & ? & ? & _).
    by repeat split.
Qed.

Lemma valid_manifest_wire m w : manifest_typed m -> manifest_valid m w -> manifest_wire m.
Proof.
  intros [Tw Ts Tc Tk] [Vw [_ Vn] Vc Va Vs _ _ _].
  destruct (World_new_valid _ _ Vw) as [Hv Hspec].
  split; [by apply world_typed_wire|]. split; [|split; [|done]].
  - split; [|by split]. apply Permutation_length in Vs. rewrite !length_fmap in Vs.
    destruct (v_limits _ Hv) as [_ [_ Hc] _ _ _ _ _]. unfold cells in Vs. rewrite Hspec in Vs.
    unfold MAX_CELLS, len in *. lia.
  - split; [done|]. rewrite Forall_forall in *. intros c Hin.
    destruct (Tc c Hin) as (? & ? & ? & ? & ? & ?). pose proof (co_events _ _ (Vc c Hin)).
    repeat split; done.
Qed.

Lemma encode_manifest_len m : manifest_wire m -> len (encode_manifest m) <= MAX_MANIFEST_BYTES.
Proof. apply size_manifest. Qed.

(** *** Validation accepts exactly the valid manifests *)

Definition validated (sha256 : list N -> list N) (m : TaskManifest) (w : World) : ValidManifest :=
  mkValidManifest m w (mkCase <$> tm_cases m) (ManifestHash_of sha256 (encode_manifest m))
    (len (encode_manifest m)).

Lemma fuel_of_cases (specs : list CaseSpec) : case_fuel <$> (mkCase <$> specs) = cs_fuel <$> specs.
Proof. by rewrite <- list_fmap_compose. Qed.

Lemma existsb_loading n specs :
  existsb (fun c => loading_work c <? n) (mkCase <$> specs) = false <->
  Forall (fun s => n <= cs_loading_work s) specs.
Proof.
  induction specs as [|s specs IH]; csimpl; [done|].
  rewrite orb_false_iff, IH, N.ltb_ge, Forall_cons. done.
Qed.

Lemma world_slots m w :
  World_new (tm_world m) = Ok w ->
  ((tm_slots m).*1 = sort_unstable (cb_id <$> cells w) /\ len (tm_slots m).*1 <= MAX_CELLS) <->
  ascending None (tm_slots m).*1 /\ (tm_slots m).*1 ≡ₚ cb_id <$> cells w.
Proof.
  intros Hw. destruct (World_new_valid _ _ Hw) as [Hv Hspec].
  assert (Hn : NoDup (cb_id <$> cells w)) by (unfold cells; rewrite Hspec; apply (v_cell_ids _ Hv)).
  rewrite sort_unstable_spec by done. split; [by intros [? _]|]. intros [Ha Hp]. split; [done|].
  apply Permutation_length in Hp. rewrite length_fmap in Hp.
  destruct (v_limits _ Hv) as [_ [_ Hc] _ _ _ _ _]. unfold cells in Hp. rewrite length_fmap, Hspec in Hp.
  unfold MAX_CELLS, len in *. rewrite length_fmap. lia.
Qed.

Lemma validate_valid sha256 m v :
  validate sha256 m = Ok v -> exists w, manifest_valid m w /\ v = validated sha256 m w.
Proof.
  unfold validate. intros (w & Hw & H)%bind_ok.
  destruct (World_new (tm_world m)) as [w'| |] eqn:E; [|done..]. injection Hw as ->.
  destruct (_ || _) eqn:E1; [done|]. bool_to_prop. apply bind_ok in H as (cs & Hcs & H).
  apply new_cases_ok in Hcs as [-> Hcs]. destruct (negb _ || _) eqn:E2; [done|]. bool_to_prop.
  destruct (proj1 (world_slots m w E)) as [Ha Hp]; [done|].
  pose proof (total_fuel_bound _ _ Hcs) as Hfuel. unfold total_fuel in Hfuel.
  rewrite sum_fuel_ok in H by (rewrite fuel_of_cases; unfold MAX_FUEL, MAX_CASES in *; lia).
  simpl in H. rewrite fuel_of_cases in H.
  destruct (_ || _) eqn:E3 in H; [done|]. bool_to_prop.
  destruct (MAX_MANIFEST_BYTES <? _) eqn:E4; [done|].
  destruct (existsb _ _) eqn:E5; [done|]. injection H as <-. exists w. split; [|done].
  apply existsb_loading in E5. split; try done; unfold MAX_CASES in *; lia.
Qed.

Lemma valid_validate sha256 m w :
  manifest_typed m -> manifest_valid m w -> validate sha256 m = Ok (validated sha256 m w).
Proof.
  intros Ht Hm. pose proof (valid_manifest_wire m w Ht Hm) as Hwire.
  destruct Hm as [Hw [Hn1 Hn2] Hcs Ha Hp Hce Hfl Hld]. unfold validate. rewrite Hw. simpl.
  rewrite (proj2 (N.eqb_neq _ _)) by lia. rewrite (proj2 (N.ltb_ge _ _)) by lia. simpl.
  rewrite (proj2 (new_cases_ok w _ (mkCase <$> tm_cases m))) by done. simpl.
  destruct (proj2 (world_slots m w Hw)) as [Hs Hl]; [done|].
  rewrite bool_decide_true by done. rewrite (proj2 (N.ltb_ge _ _)) by done. simpl.
  pose proof (total_fuel_bound _ _ Hcs) as Hfuel. unfold total_fuel in *.
  rewrite sum_fuel_ok by (rewrite fuel_of_cases; unfold MAX_FUEL, MAX_CASES in *; lia).
  simpl. rewrite fuel_of_cases. rewrite (proj2 (N.ltb_ge _ _)) by done.
  rewrite (proj2 (N.ltb_ge MAX_USEFUL _)) by done. simpl.
  rewrite (proj2 (N.ltb_ge _ _)) by by apply encode_manifest_len.
  by rewrite (proj2 (existsb_loading _ _)).
Qed.

(** *** Binding a candidate *)

(** The program of cell [id]: the fixed one of its slot or the candidate's. *)
Definition bound (slots : list ProgramSlot) (candidate : list (N * Program)) (id : N)
    (p : Program) : Prop :=
  (id, Some p) ∈ slots \/ (id, None) ∈ slots /\ (id, p) ∈ candidate.

Definition open_of (slots : list ProgramSlot) : list N :=
  (filter (fun slot => slot.2 = None) slots).*1.

Lemma merge_ok slots candidate :
  candidate.*1 = open_of slots ->
  exists merged, merge slots candidate = Ok merged /\ merged.*1 = slots.*1 /\
    Forall (fun e => bound slots candidate e.1 e.2) merged.
Proof.
  unfold open_of. revert candidate. induction slots as [|[cell fixed] slots IH]; intros candidate E.
  - destruct candidate; [|done]. by exists [].
  - rewrite filter_cons in E. destruct fixed as [p|].
    + rewrite decide_False in E by done. destruct (IH _ E) as (l & El & Ei & Hf).
      exists ((cell, p) :: l). simpl. rewrite El. csimpl. rewrite Ei. split; [done|]. split; [done|].
      constructor; [by left; left|]. eapply Forall_impl; [exact Hf|]. intros e [H|[H1 H2]].
      * left. by right.
      * right. split; [by right|done].
    + rewrite decide_True in E by done. destruct candidate as [|[id p] candidate]; [done|].
      injection E as -> E. destruct (IH _ E) as (l & El & Ei & Hf).
      exists ((cell, p) :: l). simpl. rewrite El. csimpl. rewrite Ei. split; [done|]. split; [done|].
      constructor; [right; split; left|]. eapply Forall_impl; [exact Hf|]. intros e [H|[H1 H2]].
      * left. by right.
      * right. split; by right.
Qed.

Lemma bound_wf slots candidate id p :
  Forall (entry_wf (option_wf program_wf)) slots -> Forall (fun e => program_wf e.2) candidate ->
  bound slots candidate id p -> program_wf p.
Proof.
  rewrite !Forall_forall. intros Hs Hc [H|[_ H]]; [|by apply (Hc _ H)].
  by apply (Hs _ H).
Qed.

(** What [assign] returns on a validated manifest. *)
Lemma assign_cases sha256 m w candidate :
  manifest_valid m w ->
  let v := validated sha256 m w in
  if bool_decide (candidate.*1 = open_slots v) then
    (exists ps a, assign v candidate = Ok a /\ Assignment_validate w ps = Ok a /\
       Forall (fun e => bound (tm_slots m) candidate e.1 e.2) ps /\
       asg_cells a = cb_id <$> cells w /\
       Forall2 (fun c p => bound (tm_slots m) candidate (cb_id c) p /\ known w p) (cells w) (programs a)) \/
    assign v candidate = Err (MWorld UnknownValve)
  else assign v candidate = Err MCandidate.
Proof.
  intros Hm v. unfold assign. destruct (bool_decide_reflect (candidate.*1 = open_slots v)) as [E|E];
    simpl; [|done].
  destruct (merge_ok (tm_slots m) candidate E) as (ps & -> & Ei & Hf). simpl.
  assert (Hids : forall c, c ∈ cells w -> cb_id c ∈ ps.*1).
  { intros c Hc. rewrite Ei, (mv_slots _ _ Hm). by apply list_elem_of_fmap_2. }
  assert (Hlen : len ps = len (cells w)).
  { pose proof (Permutation_length (mv_slots _ _ Hm)) as H. rewrite <- Ei, !length_fmap in H.
    unfold len. by f_equal. }
  destruct (Assignment_validate_error w ps Hlen) as [[a Ha]| ->]; [|done| |by right].
  { rewrite Ei. apply (mv_ascending _ _ Hm). }
  left. exists ps, a. rewrite Ha. split; [done|]. split; [done|]. split; [done|].
  apply Assignment_validate_iff in Ha as (_ & _ & Hcells & Hprogs). split; [done|].
  eapply Forall2_impl; [exact Hprogs|]. intros c p [Hin Hk]. split; [|done].
  rewrite Forall_forall in Hf. by apply (Hf _ Hin).
Qed.

Lemma fuel_total_sum sha256 m w :
  manifest_valid m w -> fuel_total (validated sha256 m w) = total_fuel (tm_cases m).
Proof.
  intros Hm. pose proof (total_fuel_bound _ _ (mv_cases _ _ Hm)) as Hb.
  destruct (mv_count _ _ Hm) as [_ Hn]. unfold fuel_total, validated. cbn [vm_cases].
  assert (H : forall acc, acc + total_fuel (tm_cases m) < 2 ^ 64 ->
    foldl (fun fuel c => wrapping_add 64 fuel (case_fuel c)) acc (mkCase <$> tm_cases m)
      = acc + total_fuel (tm_cases m)).
  { clear. unfold total_fuel. induction (tm_cases m) as [|s l IH]; intros acc H; csimpl in *; [lia|].
    unfold wrapping_add at 2. rewrite wrap_small by (cbv [case_fuel case_spec]; lia).
    cbv [case_fuel case_spec] in *. rewrite IH; lia. }
  rewrite H; unfold MAX_FUEL, MAX_CASES in *; lia.
Qed.

(** ** The fixture task: the courier is open, the watcher is fixed *)

Definition fixture_manifest : TaskManifest :=
  mkTaskManifest fixture_spec [(7, None); (9, Some watcher_program)]
    [fixture_case_spec; fixture_case_spec] (mkWorkContract 1 3000 true).

Lemma fixture_manifest_valid : manifest_valid fixture_manifest fixture_world.
Proof.
  split; try (apply (bool_decide_unpack _); vm_compute; done).
  - exact fixture_world_new.
  - destruct (Case_new_ok _ _ _ fixture_case_new) as [_ Hok]. by repeat (apply Forall_cons; split).
Qed.

Lemma fixture_world_typed : world_typed fixture_spec.
Proof. split; repeat constructor; try (vm_compute; done). Qed.

Lemma fixture_manifest_typed : manifest_typed fixture_manifest.
Proof.
  split.
  - exact fixture_world_typed.
  - apply Forall_cons; split; [split; [done|by intros ? [=]]|].
    apply Forall_singleton. split; [done|]. intros p [= <-]. exact watcher_program_wf.
  - repeat constructor; vm_compute; done.
  - split; vm_compute; done.
Qed.
