(* ===== verification/Platform.v ===== *)
(** The platform side (src/crates/vhalla-witness/src/platform.rs): the
    capability, the run of every case of a validated manifest, and receipts.
    SHA-256 is an argument. *)
From S2P Require Import Prelude Language Meter World Machine.
From S2P Require Import Bytes ProgramCodec WorldCodec StateCodec ResultCodec Manifest.

Record WorkAllowance : Type := mkWorkAllowance { max_total : N }.

Inductive RunRole : Type := Prove | Replay.

Record RunCapability : Type := mint {
  cap_manifest : ManifestHash; cap_program : ProgramHash; cap_allowance : WorkAllowance;
  cap_role : RunRole;
}.

Inductive RunRefused : Type :=
| RefusedManifest | RefusedProgram | RefusedAllowance | RefusedEngine (e : RunError).

(** The [From] conversions of [?]. *)
Definition refused_of_run (e : RunError) : RunRefused := RefusedEngine e.
Definition refused_of_arithmetic (_ : Arithmetic) : RunRefused := RefusedEngine RunArithmetic.

Record WitnessRun : Type := mkWitnessRun {
  wr_manifest : ManifestHash; wr_program : ProgramHash; wr_role : RunRole;
  wr_cases : list CaseResult; wr_useful : N; wr_total : N;
}.

Definition run_passed (r : WitnessRun) : bool := forallb (fun c => passed (cr_outcome c)) (wr_cases r).
Definition run_output (r : WitnessRun) : list N := encode_output (wr_cases r).

Record ReceiptBinding : Type := mkReceiptBinding { rb_challenge_id : list N; rb_subject_key : list N }.

Definition RECEIPT_BYTES : N := 2 + 32 + 32 + 32 + 32 + 32 + 8 + 8 + 1 + 1.

Record WitnessReceipt : Type := mkWitnessReceipt {
  wx_challenge_id : list N; wx_subject_key : list N; wx_manifest : ManifestHash;
  wx_program : ProgramHash; wx_output : OutputHash; wx_useful : N; wx_total : N;
  wx_passed : bool; wx_case_count : N;
}.

(** ** Runs *)

Record Totals : Type := mkTotals { tt_cases : list CaseResult; tt_useful : N; tt_total : N }.

Definition checked_add_refused {S} (a b : N) : eff S RunRefused N :=
  lift (ok_or (checked_add 64 a b) (refused_of_arithmetic ArithmeticFailure)).

Definition sum_delivered (beacons : list BeaconState) : res RunRefused N :=
  res_fold (fun delivered b => ok_or (checked_add 64 delivered (bs_delivered b))
                                     (refused_of_arithmetic ArithmeticFailure)) 0 beacons.

Section Run.
Context (sha256 : list N -> list N).
Context {O : Type} (observe : O -> FrameView -> O).

(** One iteration of the loop over the cases; the observer is the state. *)
Definition run_case (v : ValidManifest) (a : Assignment) (t : Totals) (case : Case)
    : eff O RunRefused Totals :=
  let! result := eff_map_err refused_of_run (run observe (vm_world v) a case) in
  let! delivered := lift (sum_delivered (st_beacons (rr_final_state result))) in
  let! useful := checked_add_refused (tt_useful t) delivered in
  let! work := lift (map_err refused_of_arithmetic (ledger_total (rr_ledger result))) in
  let! total := checked_add_refused (tt_total t) work in
  ret (mkTotals
    (tt_cases t ++ [mkCaseResult (rr_status result) (rr_ticks_completed result) (rr_outcome result)
                      (StateHash_of sha256 (encode_state (rr_final_state result)))
                      (rr_ledger result) delivered])
    useful total).

Definition run_observed (v : ValidManifest) (a : Assignment) (cap : RunCapability)
    : eff O RunRefused WitnessRun :=
  if negb (bool_decide (cap_manifest cap = vm_hash v)) then throw RefusedManifest
  else
    let program := ProgramHash_of sha256 (encode_assignment a) in
    if negb (bool_decide (cap_program cap = program)) then throw RefusedProgram
    else if max_total (cap_allowance cap) <? fuel_total v then throw RefusedAllowance
    else
      let! t := eff_fold (run_case v a) (mkTotals [] 0 0) (vm_cases v) in
      ret (mkWitnessRun (cap_manifest cap) program (cap_role cap) (tt_cases t) (tt_useful t)
             (tt_total t)).
End Run.

(** [run]: the observer [()]. *)
Definition platform_run (sha256 : list N -> list N) (v : ValidManifest) (a : Assignment)
    (cap : RunCapability) : res RunRefused WitnessRun :=
  fst (run_observed sha256 (fun _ _ => tt) v a cap tt).

(** ** Receipts *)

Definition run_output_hash (sha256 : list N -> list N) (r : WitnessRun) : OutputHash :=
  OutputHash_of sha256 (run_output r).

Definition into_receipt (sha256 : list N -> list N) (r : WitnessRun) (b : ReceiptBinding)
    : WitnessReceipt :=
  mkWitnessReceipt (rb_challenge_id b) (rb_subject_key b) (wr_manifest r) (wr_program r)
    (run_output_hash sha256 r) (wr_useful r) (wr_total r) (run_passed r)
    (wrap 8 (len (wr_cases r))).

Definition put_receipt (r : WitnessReceipt) : Writer -> Writer :=
  w_bytes (wx_challenge_id r) >> w_bytes (wx_subject_key r)
  >> w_bytes (manifest_hash (wx_manifest r)) >> w_bytes (program_hash (wx_program r))
  >> w_bytes (output_hash (wx_output r)) >> w_u64 (wx_useful r) >> w_u64 (wx_total r)
  >> w_bool (wx_passed r) >> w_u8 (wx_case_count r).

Definition encode_receipt (r : WitnessReceipt) : list N := written (put_header tt >> put_receipt r).

Definition receipt_digest (sha256 : list N -> list N) (r : WitnessReceipt) : ReceiptHash :=
  ReceiptHash_of sha256 (encode_receipt r).

Record ClaimedReceipt : Type := mkClaimedReceipt {
  cx_challenge_id : list N; cx_subject_key : list N; cx_manifest : ManifestHash;
  cx_program : ProgramHash; cx_output : OutputHash; cx_useful : N; cx_total : N;
  cx_passed : bool; cx_case_count : N;
}.

#[global] Instance ClaimedReceipt_eq_dec : EqDecision ClaimedReceipt. Proof. solve_decision. Defined.

Definition as_witness (c : ClaimedReceipt) : WitnessReceipt :=
  mkWitnessReceipt (cx_challenge_id c) (cx_subject_key c) (cx_manifest c) (cx_program c)
    (cx_output c) (cx_useful c) (cx_total c) (cx_passed c) (cx_case_count c).

Definition encode_claimed (c : ClaimedReceipt) : list N := encode_receipt (as_witness c).

Definition get_claimed : read ClaimedReceipt :=
  let! challenge_id := r_hash in
  let! subject_key := r_hash in
  let! manifest := r_hash in
  let! program := r_hash in
  let! output := r_hash in
  let! useful := r_u64 FLedger in
  let! total := r_u64 FLedger in
  let! passed := r_bool FBool in
  let! case_count := r_u8 FCount in
  ret (mkClaimedReceipt challenge_id subject_key (mkManifestHash manifest) (mkProgramHash program)
         (mkOutputHash output) useful total passed case_count).

Definition decode_claimed (bytes : list N) : res CodecError ClaimedReceipt :=
  decode RECEIPT_BYTES (do! header in get_claimed) bytes.

Definition matches (c : ClaimedReceipt) (r : WitnessReceipt) : bool :=
  bool_decide (encode_claimed c = encode_receipt r).

(** *** The receipt codec *)

Record receipt_typed (r : WitnessReceipt) : Prop := {
  xt_challenge : hash_wire (wx_challenge_id r);
  xt_subject : hash_wire (wx_subject_key r);
  xt_manifest : hash_wire (manifest_hash (wx_manifest r));
  xt_program : hash_wire (program_hash (wx_program r));
  xt_output : hash_wire (output_hash (wx_output r));
  xt_useful : u 64 (wx_useful r);
  xt_total : u 64 (wx_total r);
  xt_count : u 8 (wx_case_count r);
}.

Definition claimed_typed (c : ClaimedReceipt) : Prop := receipt_typed (as_witness c).

Definition put_claimed (c : ClaimedReceipt) : Writer -> Writer := put_receipt (as_witness c).


#[export] Instance codec_claimed : Codec claimed_typed put_claimed get_claimed.
Proof.
  unfold claimed_typed. apply codec_intro.
  - intros []. unfold put_claimed, put_receipt. apply _.
  - intros [? ? [] [] [] ? ? ? ?] []. unfold put_claimed, put_receipt. simpl in *. written_norm.
    repeat (apply Forall_app; split); eauto with bytes.
  - codec_safe get_claimed.
  - intros r k c r' Hr E H. unfold get_claimed in H. inv_reads H Hr E.
    split; [by split|]. eexists _, _. split; [exact E|]. split; [reflexivity|].
    unfold put_claimed, put_receipt, as_witness. simpl. written_norm. reflexivity.
  - intros r k [? ? [] [] [] ? ? ? ?] Hr [] E. unfold get_claimed, put_claimed, put_receipt in *.
    simpl in *. split_written. rewrite <- ?app_assoc in E. fwd_reads E.
Qed.

Lemma receipt_length r : receipt_typed r -> len (encode_receipt r) = RECEIPT_BYTES.
Proof.
  intros [H1 H2 H3 H4 H5 _ _ _]. change (size (put_header tt >> put_receipt r) = RECEIPT_BYTES).
  unfold put_receipt. autorewrite with sizes. change (size (put_header tt)) with 2.
  assert (Hh : forall h, hash_wire h -> size (w_bytes h) = 32).
  { intros h [_ Hh]. unfold size, written, w_bytes, len. by rewrite app_nil_l, Hh. }
  by rewrite !Hh.
Qed.

Lemma decode_claimed_iff bytes c :
  Forall byte bytes -> decode_claimed bytes = Ok c <-> claimed_typed c /\ bytes = encode_claimed c.
Proof.
  intros Hb. unfold decode_claimed. rewrite decode_iff by done.
  change (encode_claimed c) with (written (with_header put_claimed c)).
  split; [naive_solver|]. intros [Hc ->]. split; [done|]. split; [done|].
  rewrite <- (receipt_length (as_witness c) Hc). done.
Qed.

(** The claim whose fields are those of a receipt. *)
Definition claim_of (r : WitnessReceipt) : ClaimedReceipt :=
  mkClaimedReceipt (wx_challenge_id r) (wx_subject_key r) (wx_manifest r) (wx_program r)
    (wx_output r) (wx_useful r) (wx_total r) (wx_passed r) (wx_case_count r).

Lemma as_witness_claim_of r : as_witness (claim_of r) = r.
Proof. by destruct r. Qed.

Lemma encode_claimed_bytes c : claimed_typed c -> Forall byte (encode_claimed c).
Proof.
  apply (codec_bytes (put := with_header put_claimed) (g := do! header in get_claimed)).
Qed.

Lemma matches_iff c r :
  claimed_typed c -> receipt_typed r -> matches c r = true <-> as_witness c = r.
Proof.
  intros Hc Hr. unfold matches. rewrite bool_decide_eq_true. split; [|by intros <-]. intros E.
  pose proof (encode_claimed_bytes c Hc) as Hb.
  assert (D : decode_claimed (encode_claimed c) = Ok (claim_of r)).
  { apply decode_claimed_iff; [done|]. unfold claimed_typed, encode_claimed.
    by rewrite as_witness_claim_of. }
  rewrite (proj2 (decode_claimed_iff _ c Hb)) in D by done. injection D as ->.
  apply as_witness_claim_of.
Qed.
