(* ===== verification/PlatformFacts.v ===== *)
(** What the platform promises, and the concrete task of the witnesses. *)
From S2P Require Import Prelude Meter Language World WorldFacts Machine Fixture MachineInv Runs Bytes.
From S2P Require Import ProgramCodec WorldCodec StateCodec ResultCodec Manifest Platform.

(** What a platform run returns: one result per case, equal to the engine's,
    with the summed quantities and the bounds they keep; replays agree. *)

(** The result recorded for a case. *)
Definition case_result (sha256 : list N -> list N) (r : RunResult) : CaseResult :=
  mkCaseResult (rr_status r) (rr_ticks_completed r) (rr_outcome r)
    (StateHash_of sha256 (encode_state (rr_final_state r))) (rr_ledger r)
    (len (st_delivered (rr_final_state r))).

Definition sum_of {A} (f : A -> N) (l : list A) : N := foldr N.add 0 (f <$> l).

Lemma sum_of_snoc {A} (f : A -> N) l x : sum_of f (l ++ [x]) = sum_of f l + f x.
Proof. unfold sum_of. rewrite fmap_app. rewrite sum_app. csimpl. lia. Qed.

Lemma sum_of_bound {A} (f : A -> N) m l : Forall (fun x => f x <= m) l -> sum_of f l <= m * len l.
Proof. unfold sum_of, len. induction 1; csimpl; lia. Qed.

Section Run.
Context (sha256 : list N -> list N).
Context (w : World) (Hw : world_ok w) (Htyped : ids_typed (spec w)).
Context (a : Assignment) (Ha : assignment_ok w a).

(** The engine's result of a case, whoever observes. *)
Definition engine_result (c : Case) (r : RunResult) : Prop :=
  fst (run (fun _ _ => tt) w a c tt) = Ok r /\ run_ok w c r.

Lemma engine_run {O} (observe : O -> FrameView -> O) c o :
  case_ok w c -> exists r o', run observe w a c o = (Ok r, o') /\ engine_result c r.
Proof.
  intros Hc. destruct (run_total w Hw Htyped c Hc a Ha observe (fun _ => True)) with (o := o)
    as (r & o' & E & Hr & _); [done|done|].
  exists r, o'. split; [done|]. split; [|done].
  destruct (run_sim w c a (fun _ _ => tt) observe (fun _ _ => True)) with (o1 := tt) (o2 := o)
    as [E1 _]; [done|done|]. rewrite E1, E. done.
Qed.

Lemma state_delivered_bound s : state_ok w s -> len (st_delivered s) <= MAX_INITIAL_SPARKS.
Proof.
  intros Hs. pose proof (Permutation_length (so_conserved _ _ Hs)) as H.
  destruct (world_counts w Hw) as (_ & _ & _ & _ & _ & _ & Hm).
  unfold sparks, len in *. rewrite !length_app, length_fmap in H. lia.
Qed.

Lemma sum_delivered_ok s :
  state_ok w s -> sum_delivered (st_beacons s) = Ok (len (st_delivered s)).
Proof.
  intros Hs. pose proof (state_delivered_bound s Hs) as Hb. pose proof (so_deliveries _ _ Hs) as Hd.
  unfold deliveries in Hd. unfold sum_delivered. rewrite <- Hd in *. clear Hd.
  rewrite <- (N.add_0_l (foldr N.add 0 _)). unfold MAX_INITIAL_SPARKS in Hb.
  assert (H : 0 + foldr N.add 0 (bs_delivered <$> st_beacons s) < 2 ^ 64) by lia. clear Hb.
  revert H. generalize 0 at 1 3 4. induction (st_beacons s) as [|b l IH]; intros acc H; csimpl in *.
  - by rewrite N.add_0_r.
  - rewrite checked_add_ok by lia. simpl. rewrite N.add_assoc in *. by apply IH.
Qed.

(** The engine's results of the cases done so far. *)
Record totals_ok (cases : list Case) (t : Totals) : Prop := {
  to_cases : Forall2 (fun c x => exists r, engine_result c r /\ x = case_result sha256 r)
               cases (tt_cases t);
  to_useful : tt_useful t = sum_of cr_useful (tt_cases t);
  to_total : tt_total t = sum_of (fun x => led_sum (cr_ledger x)) (tt_cases t);
}.

Lemma totals_bounds cases t :
  Forall (case_ok w) cases -> totals_ok cases t ->
  tt_useful t <= MAX_INITIAL_SPARKS * len cases /\ tt_total t <= sum_of case_fuel cases.
Proof.
  intros Hc [Hf -> ->]. revert Hc. unfold sum_of, len.
  induction Hf as [|c x cases l (r & [_ Hr] & ->) Hf IH]; csimpl; [done|].
  intros [Hc Hcs]%Forall_cons. specialize (IH Hcs).
  pose proof (state_delivered_bound _ (ru_state _ _ _ Hr)). pose proof (ru_work _ _ _ Hr).
  simpl in *. lia.
Qed.

Lemma sum_fuel_bound cases : Forall (case_ok w) cases -> sum_of case_fuel cases <= MAX_FUEL * len cases.
Proof. intros H. apply sum_of_bound. eapply Forall_impl; [exact H|]. by intros c []. Qed.

Lemma run_case_ok {O} (observe : O -> FrameView -> O) v done c t o :
  vm_world v = w -> len done < MAX_CASES -> Forall (case_ok w) done -> case_ok w c ->
  totals_ok done t ->
  exists t' o', run_case sha256 observe v a t c o = (Ok t', o') /\ totals_ok (done ++ [c]) t'.
Proof.
  intros Hv Hn Hd Hc Ht. destruct (totals_bounds _ _ Hd Ht) as [Hu Hl].
  pose proof (sum_fuel_bound _ Hd) as Hf. pose proof (co_fuel _ _ Hc) as Hfc.
  destruct (engine_run observe c o Hc) as (r & o' & E & Hr). destruct (Hr) as [_ Hok].
  pose proof (state_delivered_bound _ (ru_state _ _ _ Hok)) as Hb. pose proof (ru_work _ _ _ Hok) as Hwork.
  unfold MAX_INITIAL_SPARKS, MAX_CASES, MAX_FUEL in *.
  unfold run_case, bind, eff_map_err, lift, checked_add_refused. rewrite Hv, E. simpl.
  rewrite sum_delivered_ok by apply (ru_state _ _ _ Hok).
  rewrite checked_add_ok by lia. simpl. rewrite ledger_total_ok by lia. simpl.
  rewrite checked_add_ok by lia. simpl. eexists _, _. split; [reflexivity|].
  destruct Ht as [H1 H2 H3]. split; simpl.
  - apply Forall2_app; [done|]. constructor; [|done]. by exists r.
  - by rewrite sum_of_snoc, H2.
  - by rewrite sum_of_snoc, H3.
Qed.

Lemma run_cases_ok {O} (observe : O -> FrameView -> O) v cases done t o :
  vm_world v = w -> len (done ++ cases) <= MAX_CASES -> Forall (case_ok w) (done ++ cases) ->
  totals_ok done t ->
  exists t' o', eff_fold (run_case sha256 observe v a) t cases o = (Ok t', o') /\
    totals_ok (done ++ cases) t'.
Proof.
  intros Hv. revert done t o. induction cases as [|c cases IH]; intros done t o Hn Hf Ht.
  - rewrite app_nil_r. by exists t, o.
  - pose proof Hf as Hf'. apply Forall_app in Hf' as [Hd [Hc _]%Forall_cons].
    assert (len done < MAX_CASES) by (unfold len in *; rewrite length_app in Hn; simpl in Hn; lia).
    destruct (run_case_ok observe v done c t o) as (t1 & o1 & E & Ht1); [done..|].
    simpl. unfold bind. rewrite E.
    specialize (IH (done ++ [c]) t1 o1). rewrite <- app_assoc in IH. by apply IH.
Qed.

(** The canonical outcome: what any accepted capability gets. *)
Lemma run_observed_ok {O} (observe : O -> FrameView -> O) v cap o :
  vm_world v = w -> len (vm_cases v) <= MAX_CASES -> Forall (case_ok w) (vm_cases v) ->
  cap_manifest cap = vm_hash v -> cap_program cap = ProgramHash_of sha256 (encode_assignment a) ->
  fuel_total v <= max_total (cap_allowance cap) ->
  exists t o', totals_ok (vm_cases v) t /\
    run_observed sha256 observe v a cap o =
      (Ok (mkWitnessRun (vm_hash v) (cap_program cap) (cap_role cap) (tt_cases t) (tt_useful t)
             (tt_total t)), o').
Proof.
  intros Hv Hn Hf E1 E2 E3. unfold run_observed.
  rewrite bool_decide_true by done. rewrite bool_decide_true by done. simpl.
  rewrite (proj2 (N.ltb_ge _ _)) by done.
  destruct (run_cases_ok observe v (vm_cases v) [] (mkTotals [] 0 0) o) as (t & o' & E & Ht);
    [done..|by repeat constructor|].
  exists t, o'. split; [done|]. unfold bind. rewrite E. unfold ret. by rewrite E1, E2.
Qed.

Lemma totals_unique cases t1 t2 : totals_ok cases t1 -> totals_ok cases t2 -> t1 = t2.
Proof.
  intros [F1 U1 T1] [F2 U2 T2]. assert (E : tt_cases t1 = tt_cases t2).
  { clear -F1 F2. revert F2. generalize (tt_cases t2).
    induction F1 as [|c x cases l (r & [E1 _] & ->) F1 IH]; intros k F2.
    - by apply Forall2_nil_inv_l in F2.
    - apply Forall2_cons_inv_l in F2 as (y & k' & (r' & [E2 _] & ->) & F2 & ->).
      rewrite E1 in E2. injection E2 as ->. f_equal. by apply IH. }
  destruct t1, t2. simpl in *. congruence.
Qed.

Lemma case_result_typed `{!Sha256 sha256} c r :
  case_ok w c -> engine_result c r -> case_result_wire (case_result sha256 r).
Proof.
  intros Hc [_ Hr]. pose proof (co_ticks _ _ Hc). pose proof (co_fuel _ _ Hc).
  pose proof (ru_ticks _ _ _ Hr). pose proof (ru_work _ _ _ Hr) as Hwork.
  pose proof (state_delivered_bound _ (ru_state _ _ _ Hr)) as Hb. unfold MAX_INITIAL_SPARKS in Hb.
  split; [simpl; unfold u; lia|]. split; [by apply digest_wire|]. split; [|simpl; unfold u; lia].
  unfold ledger_wire, u. simpl. pose proof (led_sum_counters (rr_ledger r)) as Hs.
  apply Forall_forall. intros n Hin. pose proof (elem_le_sum _ _ Hin). lia.
Qed.

Lemma totals_output `{!Sha256 sha256} cases t :
  Forall (case_ok w) cases -> len cases <= MAX_CASES -> totals_ok cases t -> output_wire (tt_cases t).
Proof.
  intros Hc Hn [Hf _ _]. split.
  - pose proof (Forall2_length _ _ _ Hf) as E. unfold len in *. by rewrite <- E.
  - clear Hn. induction Hf as [|c x cases l (r & Hr & ->) Hf IH]; [constructor|].
    apply Forall_cons in Hc as [Hc Hcs]. constructor; [by eapply case_result_typed|auto].
Qed.
End Run.

(** ** Bound tasks *)

(** What the platform is given: a validated manifest and a bound candidate. *)
Record bound_task (sha256 : list N -> list N) (m : TaskManifest) (v : ValidManifest)
    (candidate : list (N * Program)) (a : Assignment) : Prop := {
  bk_typed : manifest_typed m;
  bk_valid : validate sha256 m = Ok v;
  bk_candidate : Forall (fun e => program_wf e.2) candidate;
  bk_assign : assign v candidate = Ok a;
}.

(** The hypotheses of the engine hold of a bound task. *)
Lemma bound_task_ok sha256 m v candidate a :
  bound_task sha256 m v candidate a ->
  exists w, v = validated sha256 m w /\ manifest_valid m w /\ world_ok w /\ ids_typed (spec w) /\
    assignment_ok w a /\ Forall (case_ok w) (vm_cases v) /\ len (vm_cases v) <= MAX_CASES /\
    fuel_total v = sum_of case_fuel (vm_cases v).
Proof.
  intros [Ht (w & Hm & ->)%validate_valid Hc Ha]. exists w.
  pose proof (mv_world _ _ Hm) as Hw. destruct (World_new_valid _ _ Hw) as [Hv Hspec].
  split; [done|]. split; [done|]. split; [by eapply World_new_ok|]. split.
  { rewrite Hspec. by apply world_wire_ids, world_typed_wire; [apply (mt_world _ Ht)|]. }
  split; [|split; [|split]].
  - pose proof (assign_cases sha256 m w candidate Hm) as H. simpl in H.
    destruct (bool_decide _); [|congruence].
    destruct H as [(ps & a' & Ha' & Hval & Hf & _)|]; [|congruence].
    assert (a' = a) as -> by congruence. eapply Assignment_validate_ok; [exact Hval|].
    eapply Forall_impl; [exact Hf|]. intros e He.
    eapply bound_wf; [apply (mt_slots _ Ht)|exact Hc|exact He].
  - apply Forall_fmap. exact (mv_cases _ _ Hm).
  - unfold len. simpl. rewrite length_fmap. apply (mv_count _ _ Hm).
  - rewrite fuel_total_sum by done. unfold total_fuel, sum_of. simpl. by rewrite fuel_of_cases.
Qed.

(** The capability names this manifest and this assignment, within allowance. *)
Definition authorizes (sha256 : list N -> list N) (cap : RunCapability) (v : ValidManifest)
    (a : Assignment) : Prop :=
  cap_manifest cap = vm_hash v /\ cap_program cap = ProgramHash_of sha256 (encode_assignment a) /\
  fuel_total v <= max_total (cap_allowance cap).

(** Every authorized run of a bound task seals to one receipt. *)
Lemma bound_receipt sha256 `{!Sha256 sha256} m v candidate a b :
  bound_task sha256 m v candidate a ->
  hash_wire (rb_challenge_id b) -> hash_wire (rb_subject_key b) ->
  exists receipt, receipt_typed receipt /\ wx_case_count receipt = len (vm_cases v) /\
    wx_challenge_id receipt = rb_challenge_id b /\ wx_subject_key receipt = rb_subject_key b /\
    wx_manifest receipt = vm_hash v /\
    wx_program receipt = ProgramHash_of sha256 (encode_assignment a) /\
    forall O (f : O -> FrameView -> O) cap o, authorizes sha256 cap v a ->
      exists r, fst (run_observed sha256 f v a cap o) = Ok r /\ into_receipt sha256 r b = receipt.
Proof.
  intros Hb B1 B2.
  destruct (bound_task_ok _ _ _ _ _ Hb) as (w & Ev & Hm & Hw & Ht & Ha & Hc & Hn & Hfuel).
  assert (Ew : vm_world v = w) by by rewrite Ev.
  set (program := ProgramHash_of sha256 (encode_assignment a)).
  set (cap0 := mint (vm_hash v) program (mkWorkAllowance (fuel_total v)) Prove).
  destruct (run_observed_ok sha256 w Hw Ht a Ha (fun _ _ => tt) v cap0 tt) as (t & o' & T & _); [done..|].
  set (run0 := mkWitnessRun (vm_hash v) program Prove (tt_cases t) (tt_useful t) (tt_total t)).
  exists (into_receipt sha256 run0 b).
  destruct (totals_bounds sha256 w Hw a _ _ Hc T) as [Hu Hl]. pose proof (sum_fuel_bound w _ Hc) as Hf.
  assert (Hlen : len (tt_cases t) = len (vm_cases v)).
  { destruct T as [T _ _]. unfold len. by rewrite (Forall2_length _ _ _ T). }
  unfold MAX_INITIAL_SPARKS, MAX_CASES, MAX_FUEL in *.
  assert (Hcount : wx_case_count (into_receipt sha256 run0 b) = len (vm_cases v)).
  { simpl. rewrite Hlen, wrap_small; [done|]. lia. }
  split.
  { split; simpl; try done; try (by apply digest_wire); try (rewrite Ev; by apply digest_wire);
      unfold u; [lia..|]. simpl in Hcount. rewrite Hcount. lia. }
  split_and!; [done..|]. intros O f cap o (X1 & X2 & X3).
  destruct (run_observed_ok sha256 w Hw Ht a Ha f v cap o) as (t' & o2 & T' & E); [done..|].
  pose proof (totals_unique sha256 w a _ _ _ T T') as <-. rewrite E. eexists. split; [done|].
  unfold into_receipt. simpl. by rewrite X2.
Qed.

(** *** The candidate of a bound task is encodable *)

Lemma ascending_weaken p q l : ascending (Some p) l -> q <= p -> ascending (Some q) l.
Proof. destruct l; simpl; [done|]. intros [H ?] ?. split; [lia|done]. Qed.

Lemma ascending_none p l : ascending (Some p) l -> ascending None l.
Proof. destruct l; simpl; [done|]. by intros []. Qed.

Lemma ascending_filter {A} (P : N * A -> Prop) `{!forall x, Decision (P x)} previous l :
  ascending previous l.*1 -> ascending previous (filter P l).*1.
Proof.
  revert previous. induction l as [|[id x] l IH]; intros previous; csimpl; [done|]. intros [Hp Hasc].
  rewrite filter_cons. destruct (decide (P (id, x))); csimpl; [split; [done|by apply IH]|].
  apply IH. destruct previous as [p|]; [|by eapply ascending_none].
  apply (ascending_weaken id); [done|lia].
Qed.

Lemma bound_candidate_wf sha256 m v candidate a :
  bound_task sha256 m v candidate a -> candidate_wf candidate.
Proof.
  intros [Ht (w & Hm & ->)%validate_valid Hc Ha].
  assert (E : candidate.*1 = open_slots (validated sha256 m w)).
  { pose proof (assign_cases sha256 m w candidate Hm) as H. simpl in H.
    destruct (bool_decide_reflect (candidate.*1 = open_slots (validated sha256 m w))); [done|congruence]. }
  pose proof (valid_manifest_wire m w Ht Hm) as (_ & (Hl & Hasc & Hf) & _).
  unfold open_slots in E. cbn [vm_manifest validated] in E. split; [|split].
  - apply (f_equal length) in E. rewrite !length_fmap in E.
    assert (length candidate <= length (tm_slots m))%nat by (rewrite E; apply length_filter).
    unfold len, ProgramSlot in *. lia.
  - rewrite E. by apply ascending_filter.
  - apply Forall_forall. intros e He. split; [|by apply (proj1 (Forall_forall _ _) Hc)].
    assert (Hid : e.1 ∈ candidate.*1) by (by apply list_elem_of_fmap_2). rewrite E in Hid.
    apply list_elem_of_fmap in Hid as (slot & -> & [_ Hs]%list_elem_of_filter).
    by apply (proj1 (Forall_forall _ _) Hf).
Qed.

(** The fixture task: a validated manifest, the candidate for its open slot and
    the assignment they bind to, for the witnesses of the platform and its
    clients. *)

Definition fixture_valid : ValidManifest := validated length_hash fixture_manifest fixture_world.

Definition fixture_candidate : list (N * Program) := [(7, courier_program)].

Lemma fixture_task : bound_task length_hash fixture_manifest fixture_valid fixture_candidate fixture_assignment.
Proof.
  split.
  - exact fixture_manifest_typed.
  - exact (valid_validate _ _ _ fixture_manifest_typed fixture_manifest_valid).
  - by constructor; [exact courier_program_wf|].
  - vm_compute. reflexivity.
Qed.
