(* ===== verification/RunClaims.v ===== *)
(** Properties of runs and of worlds. *)
From stdpp Require Import sorting.
From S2P Require Import Prelude Meter Language World WorldFacts Machine Fixture MachineInv Actions.
From S2P Require Import Ticks Runs.

(** The properties of witness-mode execution, each applied to the fixture
    habitat. *)

(** What a host passes to [run]: a validated world, case and assignment, with
    the integer ranges of the field types. *)
Record loaded (w : World) (c : Case) (a : Assignment) : Prop := {
  ld_world : exists s, World_new s = Ok w;
  ld_typed : ids_typed (spec w);
  ld_case : exists cs, Case_new w cs = Ok c;
  ld_assignment : exists ps, Assignment_validate w ps = Ok a /\ Forall (fun p => program_wf p.2) ps;
}.

Lemma loaded_ok w c a : loaded w c a -> world_ok w /\ case_ok w c /\ assignment_ok w a.
Proof.
  intros [[s Hs] _ [cs Hcs] (ps & Hps & Hwf)]. split; [by eapply World_new_ok|].
  split; [by eapply Case_new_ok|by eapply Assignment_validate_ok].
Qed.

Lemma fixture_typed : ids_typed (spec fixture_world).
Proof. split; repeat constructor; by vm_compute. Qed.

Lemma fixture_loaded : loaded fixture_world fixture_case fixture_assignment.
Proof.
  split.
  - exists fixture_spec. apply fixture_world_new.
  - apply fixture_typed.
  - exists fixture_case_spec. apply fixture_case_new.
  - eexists. split; [apply fixture_assignment_validate|].
    constructor; [exact courier_program_wf|]. by constructor; [exact watcher_program_wf|].
Qed.

(** C1. A run on validated inputs never panics and never fails: it returns a
    result whose work fits the case's fuel, that conserves every spark, that
    stops early exactly when the fuel is exhausted, and whose verdict is the
    one of its final state. *)
Theorem run_total_sound {O} (observe : O -> FrameView -> O) w c a o :
  loaded w c a ->
  exists r o', run observe w a c o = (Ok r, o') /\
    led_sum (rr_ledger r) <= case_fuel c /\
    sparks (rr_final_state r) ≡ₚ all_sparks (spec w) /\ conserved (rr_outcome r) = true /\
    rr_ticks_completed r <= ticks c /\
    (rr_status r = FuelExhausted <-> rr_ticks_completed r < ticks c) /\
    (passed (rr_outcome r) = true <->
       rr_status r = Complete /\ lit (rr_final_state r) /\ fed w (rr_final_state r)).
Proof.
  intros Hl. destruct (loaded_ok w c a Hl) as (Hw & Hc & Ha).
  destruct (run_total w Hw (ld_typed _ _ _ Hl) c Hc a Ha observe (fun _ => True)) with (o := o)
    as (r & o' & E & [] & _); [done|done|].
  exists r, o'. repeat (split; [done|]). split; [apply ru_state|done].
Qed.

Lemma run_total_sound_witness :
  loaded fixture_world fixture_case fixture_assignment /\
  exists r o', run unit_observer fixture_world fixture_assignment fixture_case tt = (Ok r, o') /\
    passed (rr_outcome r) = true.
Proof.
  split; [exact fixture_loaded|].
  destruct (run_total_sound unit_observer _ _ _ tt fixture_loaded) as (r & o' & E & _).
  exists r, o'. split; [exact E|].
  assert (H : match run unit_observer fixture_world fixture_assignment fixture_case tt with
              | (Ok r, _) => passed (rr_outcome r) | _ => false end = true) by (vm_compute; reflexivity).
  rewrite E in H. exact H.
Defined.

(** C37. Every frame an observer sees, complete or cut short by the fuel, shows a
    legal state: sparks conserved, beacon energy balanced, cells on distinct
    free squares; its ledger fits the fuel; in a completed tick every cell acted
    exactly once, within its activation budget, and the scheduled events were
    applied. *)
Theorem run_frames_sound w c a :
  loaded w c a ->
  Forall (frame_ok w c) (snd (run (fun fs f => fs ++ [f]) w a c [])).
Proof.
  intros Hl. destruct (loaded_ok w c a Hl) as (Hw & Hc & Ha).
  destruct (run_total w Hw (ld_typed _ _ _ Hl) c Hc a Ha (fun fs f => fs ++ [f])
    (Forall (frame_ok w c))) with (o := @nil FrameView) as (r & o' & -> & _ & H); [|constructor|done].
  intros fs f Hfs Hf. by apply Forall_app, conj, Forall_singleton.
Qed.

Lemma run_frames_sound_witness :
  loaded fixture_world fixture_case fixture_assignment /\
  Forall (frame_ok fixture_world fixture_case)
    (snd (run (fun fs f => fs ++ [f]) fixture_world fixture_assignment fixture_case [])).
Proof. split; [exact fixture_loaded|exact (run_frames_sound _ _ _ fixture_loaded)]. Defined.

(** One activation, from a legal state: no internal error; its work fits the
    activation budget; if it stopped on a limit, state and signal log are those
    before it; otherwise the record names the first rule that holds. *)
Theorem activate_sound w c a p i base W0 t :
  loaded w c a -> program_wf p -> (i < length (cells w))%nat ->
  turn_ok w (case_fuel c) base W0 t ->
  exists r stop t', activate w c p i t = (Ok (r, stop), t') /\
    turn_ok w (case_fuel c) base W0 t' /\
    activated w (activation_fuel c) p i t r stop t'.
Proof.
  intros Hl Hp Hi Ht. destruct (loaded_ok w c a Hl) as (Hw & Hc & Ha).
  pose proof (activate_ok w Hw (ld_typed _ _ _ Hl) _ (fuel_bound w c Hc) c p i base W0 t Hp Hi
    (limit_bound w c Hc) Ht) as H.
  unfold wp in H. destruct (activate w c p i t) as [[[r stop]|e|] t']; [|done..].
  by exists r, stop, t'.
Qed.

Definition fixture_turn : TurnEnv :=
  mkTurn (mkCtx (meter_new 2000) []) (initial fixture_world) (initial fixture_world).

Lemma fixture_turn_ok : turn_ok fixture_world (case_fuel fixture_case) [] 0 fixture_turn.
Proof.
  destruct (loaded_ok _ _ _ fixture_loaded) as (Hw & Hc & Ha).
  pose proof (state_ok_initial fixture_world Hw fixture_typed) as Hs. split.
  - split; simpl; [by apply meter_new_inv|done|done|done|by vm_compute].
  - exact Hs.
  - by vm_compute.
  - by apply state_aligned.
Qed.

Lemma activate_sound_witness :
  exists r stop t', activate fixture_world fixture_case courier_program 0 fixture_turn
                      = (Ok (r, stop), t') /\
    turn_ok fixture_world (case_fuel fixture_case) [] 0 t' /\
    activated fixture_world (activation_fuel fixture_case) courier_program 0 fixture_turn r stop t'.
Proof.
  apply (activate_sound _ _ _ _ _ _ _ _ fixture_loaded courier_program_wf);
    [by vm_compute; lia|exact fixture_turn_ok].
Defined.

(** Every action of a well-formed program, from a legal environment: no
    panic and no internal error; success, failure and stop alike leave a legal
    state, and the ledger stays within fuel and window. *)
Theorem execute_sound w c a win base W0 i act k s :
  loaded w c a -> (i < length (cells w))%nat -> action_wf act ->
  env_ok w (case_fuel c) win base W0 (mkEnv k s) ->
  exists r e', execute w i act (mkEnv k s) = (r, e') /\ env_ok w (case_fuel c) win base W0 e' /\
    (r = Ok tt \/ (exists stop, r = Err (FStop stop)) \/ (exists err, r = Err (FAction err))).
Proof.
  intros Hl Hi Ha He. destruct (loaded_ok w c a Hl) as (Hw & Hc & _).
  pose proof (execute_ok w Hw (ld_typed _ _ _ Hl) _ (fuel_bound w c Hc) win base W0 i act k s He Hi Ha) as H.
  unfold wp in H. destruct (execute w i act (mkEnv k s)) as [[[]|f|] e']; [| |done].
  - eexists _, _. eauto.
  - destruct f as [st|err|err]; [| |done]; eexists _, _; eauto 6.
Qed.

Lemma execute_sound_witness :
  exists r e', execute fixture_world 0 Pickup (mkEnv (mkCtx (meter_new 2000) []) (initial fixture_world))
                 = (r, e') /\ env_ok fixture_world (case_fuel fixture_case) None [] 0 e' /\
    (r = Ok tt \/ (exists stop, r = Err (FStop stop)) \/ (exists err, r = Err (FAction err))).
Proof.
  apply (execute_sound _ _ _ None [] 0 0 Pickup _ _ fixture_loaded); [by vm_compute; lia|done|].
  destruct fixture_turn_ok as [? ? ? _]. by split.
Defined.

(** Rule selection on a legal state: it picks the first rule of the program
    all of whose conditions hold, or none when no rule holds, unless a metered
    check runs out of budget. *)
Theorem select_first w c a base W0 i p k s :
  loaded w c a -> (i < length (cells w))%nat -> program_wf p -> state_ok w s ->
  ctx_ok (case_fuel c) None base W0 k ->
  match fst (select w s i (enumerate (rules p)) k) with
  | Ok (Some (n, r)) => rules p !! n = Some r /\ rule_holds w s i r = true /\
      forall j r', (j < n)%nat -> rules p !! j = Some r' -> rule_holds w s i r' = false
  | Ok None => forall j r, rules p !! j = Some r -> rule_holds w s i r = false
  | Err (FStop _) => True
  | _ => False
  end.
Proof.
  intros Hl Hi Hp Hs Hk. destruct (loaded_ok w c a Hl) as (Hw & Hc & _).
  pose proof (select_ok w _ (fuel_bound w c Hc) None base W0 s i (enumerate (rules p))
    (fun o _ => o = choice w p s i) (fun f _ => exists st, f = FStop st) k Hk Hs Hi
    (program_rules p Hp)) as H.
  unfold wp in H. destruct (select _ _ _ _ _) as [[o|f|] k']; simpl; [| |by apply H; eauto].
  - rewrite H; [|done|by eauto]. destruct (choice w p s i) as [[n r]|] eqn:E.
    + by apply choice_first.
    + by apply choice_none.
  - destruct H as [st ->]; [done|by eauto|done].
Qed.

Lemma select_first_witness :
  match fst (select fixture_world (initial fixture_world) 0 (enumerate (rules courier_program))
               (mkCtx (meter_new 2000) [])) with
  | Ok (Some (n, r)) => rules courier_program !! n = Some r /\
      rule_holds fixture_world (initial fixture_world) 0 r = true /\
      forall j r', (j < n)%nat -> rules courier_program !! j = Some r' ->
        rule_holds fixture_world (initial fixture_world) 0 r' = false
  | Ok None => forall j r, rules courier_program !! j = Some r ->
      rule_holds fixture_world (initial fixture_world) 0 r = false
  | Err (FStop _) => True
  | _ => False
  end.
Proof.
  destruct fixture_turn_ok as [Hk Hs _ _].
  apply (select_first _ _ _ [] 0 0 courier_program _ _ fixture_loaded);
    [by vm_compute; lia|exact courier_program_wf|exact Hs|exact Hk].
Defined.

(** C39. Delivering the due signals of a tick terminates without panic; when the
    fuel suffices, exactly the signals not yet due stay queued, in order. *)
Theorem deliver_due_exact w c a tick k s :
  loaded w c a -> env_ok w (case_fuel c) None [] 0 (mkEnv k s) ->
  match deliver_due w tick (mkEnv k s) with
  | (Ok _, e) => env_ok w (case_fuel c) None [] 0 e /\
      st_pending (e_state e) = filter (fun g => tick < sig_deliver_tick g) (st_pending s)
  | (Err (FStop _), e) => env_ok w (case_fuel c) None [] 0 e
  | _ => False
  end.
Proof.
  intros Hl He. destruct (loaded_ok w c a Hl) as (Hw & Hc & _).
  pose proof (deliver_due_ok w (case_fuel c) (fuel_bound w c Hc) tick k s He) as H.
  unfold wp in H. destruct (deliver_due w tick (mkEnv k s)) as [[[]|[]|] e]; try done.
Qed.

(** Two signals, the second one due. *)
Definition queued_signal (n deliver : N) : Signal :=
  mkSignal n 6 (EndDepot 2) 9 (mkPort 1) true 1 deliver None.

Definition fixture_queue : State :=
  set_next_signal 1 (set_pending [queued_signal 1 5; queued_signal 2 3] (initial fixture_world)).

Lemma fixture_queue_ok : state_ok fixture_world fixture_queue.
Proof.
  destruct (loaded_ok _ _ _ fixture_loaded) as (Hw & _ & _).
  destruct (state_ok_initial fixture_world Hw fixture_typed) as [[] ?].
  split; [split; try done|done].
  by repeat constructor; apply (bool_decide_unpack _).
Qed.

Lemma deliver_due_exact_witness :
  st_pending (e_state (snd (deliver_due fixture_world 3 (mkEnv (mkCtx (meter_new 2000) []) fixture_queue))))
    = [queued_signal 1 5].
Proof.
  destruct fixture_turn_ok as [Hk _ _ _].
  assert (He : env_ok fixture_world (case_fuel fixture_case) None [] 0
                 (mkEnv (mkCtx (meter_new 2000) []) fixture_queue)).
  { split; [exact Hk|]. split; [exact fixture_queue_ok|by vm_compute]. }
  pose proof (deliver_due_exact _ _ _ 3 _ _ fixture_loaded He) as H.
  destruct (deliver_due _ _ _) as [[u|[s|s|s]|] e] eqn:E;
    [exact (proj2 H)|exfalso; clear H He Hk; vm_compute in E; discriminate E|destruct H..].
Defined.

(** The activation order of a tick lists every cell once and is the only
    list of the cells sorted by [(mix(seed ^ tick << 32 ^ id), id)]. *)
Theorem schedule_unique c tick m order :
  order ≡ₚ cel_id <$> st_cells (m_state m) ->
  StronglySorted (before (order_key (seed c) tick)) order <->
  order = m_order (schedule c tick m).
Proof.
  intros Hp. split.
  - by apply sort_by_key_unique.
  - intros ->. by apply sort_by_key_sorted.
Qed.

Lemma schedule_unique_witness :
  [9; 7] ≡ₚ [7; 9] /\
  forall m, cel_id <$> st_cells (m_state m) = [7; 9] ->
    StronglySorted (before (order_key 42 1)) [9; 7] <-> [9; 7] = m_order (schedule fixture_case 1 m).
Proof.
  split; [by apply Permutation_swap|]. intros m E. apply (schedule_unique fixture_case 1 m [9; 7]).
  rewrite E. by apply Permutation_swap.
Defined.

(** Observers do not influence a run: any observer gets the same result,
    and what it ends with is the fold of its step over one list of frames. *)
Theorem run_observer_independent {O} (observe : O -> FrameView -> O) w a c o :
  run observe w a c o =
    let '(r, frames) := run (fun fs f => fs ++ [f]) w a c [] in (r, foldl observe o frames).
Proof.
  destruct (run_sim w c a observe (fun fs f => fs ++ [f]) (fun o1 fs => o1 = foldl observe o fs))
    with (o1 := o) (o2 := @nil FrameView) as [E1 E2]; [|done|].
  - intros o1 fs f ->. by rewrite foldl_app.
  - destruct (run observe w a c o), (run _ w a c []). simpl in *. congruence.
Qed.

(** The properties of the meter and of validation. *)

(** C38. The batched charge is the unit-by-unit loop: same counters, same
    outcome, the same stop reason. *)
Theorem charge_is_unit_loop m cat n :
  meter_inv m ->
  (let '(r, m') := charge cat (N.of_nat n) m in (stop_of r, m')) = reference m cat n.
Proof.
  intros Hm. rewrite charge_closed_form, reference_closed_form by done. done.
Qed.

Lemma charge_is_unit_loop_witness :
  meter_inv (mkMeter empty_ledger 10 (Some (0, 4))) /\
  reference (mkMeter empty_ledger 10 (Some (0, 4))) Sensors 7 =
    (Err StopActivation, mkMeter (set_counter Sensors 4 empty_ledger) 10 (Some (0, 4))).
Proof.
  assert (Hm : meter_inv (mkMeter empty_ledger 10 (Some (0, 4)))).
  { split; [by vm_compute|by vm_compute|]. intros s l [= <- <-]. by vm_compute. }
  split; [exact Hm|]. rewrite <- (charge_is_unit_loop _ Sensors 7 Hm). vm_compute. reflexivity.
Defined.

(** Charging never exceeds the fuel nor an open activation window, charges
    the whole amount exactly when it succeeds, and touches one counter only. *)
Theorem charge_bounded m cat n r m' :
  meter_inv m -> charge cat n m = (r, m') ->
  meter_inv m' /\ fuel m' = fuel m /\ activation m' = activation m /\
  led_sum (ledger m) <= led_sum (ledger m') <= led_sum (ledger m) + n /\
  (r = Ok tt <-> led_sum (ledger m') = led_sum (ledger m) + n) /\
  (forall cat', cat' <> cat -> counter cat' (ledger m') = counter cat' (ledger m)).
Proof.
  intros Hm. rewrite charge_closed_form by done. intros [= <- <-].
  split; [by eapply add_units_inv|]. split; [done|]. split; [done|]. rewrite add_units_sum.
  assert (Hle : allowed_units m n <= n) by (unfold allowed_units; lia).
  split; [lia|]. split.
  - unfold charge_outcome. destruct (N.eqb_spec (allowed_units m n) n) as [->|Hne]; [done|].
    split; [by destruct (_ <=? _)|]. intros. lia.
  - intros cat' Hne. simpl. by rewrite counter_set_ne.
Qed.

Lemma charge_bounded_witness :
  meter_inv (snd (charge Actions 7 (meter_new 5))) /\
  led_sum (ledger (snd (charge Actions 7 (meter_new 5)))) <= 0 + 7.
Proof.
  destruct (charge_bounded (meter_new 5) Actions 7 _ _ (meter_new_inv 5 eq_refl) (surjective_pairing _))
    as (Hi & _ & _ & [_ Hle] & _).
  split; [exact Hi|exact Hle].
Defined.

(** [World::new] accepts exactly the valid specifications and keeps them;
    [valid] restates the rules without the bitmap, the accumulators and the
    order of the checks. *)
Theorem World_new_accepts_iff s :
  (exists w, World_new s = Ok w) <-> valid s.
Proof.
  split.
  - by intros [w [Hv _]%World_new_valid].
  - apply valid_World_new.
Qed.

(** The wall bitmap of a validated world answers membership in the wall
    list, for every point, inside the grid or not. *)
Theorem is_wall_exact s w p : World_new s = Ok w -> is_wall w p = true <-> p ∈ ws_walls s.
Proof.
  intros H. pose proof (World_new_ok s w H) as Hw. destruct (World_new_valid s w H) as [_ <-].
  by apply is_wall_spec.
Qed.

Lemma is_wall_exact_witness :
  World_new fixture_spec = Ok fixture_world /\
  (is_wall fixture_world (mkPoint 4 3) = true <-> mkPoint 4 3 ∈ [mkPoint 0 0; mkPoint 4 3]).
Proof.
  split; [exact fixture_world_new|].
  exact (is_wall_exact fixture_spec fixture_world (mkPoint 4 3) fixture_world_new).
Defined.
