(* ===== verification/CodecClaims.v ===== *)
(** The properties of the canonical encodings. *)
From S2P Require Import Prelude Language Meter World WorldFacts Machine MachineInv Runs.
From S2P Require Import Bytes ProgramCodec WorldCodec StateCodec ResultCodec.
From S2P Require Import Manifest Fixture Platform RunClaims.

(** A program decodes from exactly its canonical bytes: [decode_program]
    accepts a byte string iff it is the encoding of a well-formed program, and
    returns that program; it never panics. *)
Theorem program_canonical bytes p :
  Forall byte bytes ->
  (decode_program bytes = Ok p <-> program_wf p /\ bytes = encode_program p) /\
  decode_program bytes <> Panic.
Proof. intros Hb. split; [by apply decode_program_iff|by apply decode_total]. Qed.

Lemma program_canonical_witness :
  Forall byte (encode_program courier_program) /\
  decode_program (encode_program courier_program) = Ok courier_program.
Proof.
  assert (Hb : Forall byte (encode_program courier_program))
    by (apply encode_program_bytes, courier_program_wf).
  split; [exact Hb|]. apply (program_canonical _ courier_program Hb).
  split; [exact courier_program_wf|reflexivity].
Defined.

(** A task manifest decodes from exactly its canonical bytes, and those fit
    [MAX_MANIFEST_BYTES]: no well-formed manifest is refused for its size. *)
Theorem manifest_canonical bytes m :
  Forall byte bytes ->
  (decode_manifest bytes = Ok m <-> manifest_wire m /\ bytes = encode_manifest m) /\
  (manifest_wire m -> len (encode_manifest m) <= MAX_MANIFEST_BYTES) /\
  decode_manifest bytes <> Panic.
Proof.
  intros Hb. split; [by apply decode_manifest_iff|].
  split; [apply size_manifest|by apply decode_total].
Qed.

Lemma manifest_canonical_witness :
  manifest_wire fixture_manifest /\
  decode_manifest (encode_manifest fixture_manifest) = Ok fixture_manifest.
Proof.
  assert (Hm : manifest_wire fixture_manifest)
    by exact (valid_manifest_wire _ _ fixture_manifest_typed fixture_manifest_valid).
  split; [exact Hm|].
  apply (manifest_canonical _ fixture_manifest (encode_manifest_bytes _ Hm)). by split.
Defined.

Lemma entries_bytes l : Forall (entry_wf program_wf) l -> Forall byte (encode_candidate l).
Proof.
  intros Hf. unfold encode_candidate. rewrite written_seq by apply _. apply Forall_app.
  split; [by apply (codec_bytes (g := header))|]. unfold w_counted.
  rewrite written_seq by apply _. apply Forall_app. split.
  { apply bytes_u8. unfold u, wrap. by apply N.mod_lt. }
  rewrite written_all by apply _. induction Hf as [|e l [_ He] Hf IH]; csimpl; [constructor|].
  apply Forall_app. split; [|done]. unfold put_entry_of. rewrite written_seq by apply _.
  apply Forall_app. split; [apply bytes_u16|by apply bytes_program].
Qed.

Lemma zip_entries ids l :
  length ids = length l -> Forall (fun id => id < 2 ^ 16) ids -> Forall program_wf l ->
  Forall (entry_wf program_wf) (zip ids l).
Proof.
  intros Hl Hids Hwf. revert ids Hl Hids.
  induction Hwf as [|p l Hp Hwf IH]; intros [|id ids] Hl Hcells; try done.
  apply Forall_cons in Hcells as [Hid Hids]. constructor; [by split|]. apply IH; [|done].
  by injection Hl.
Qed.

(** Candidate programs decode from exactly their canonical bytes, with
    strictly ascending cells; the assignment of a validated world decodes back
    exactly when the world declares its cells in ascending order. *)
Theorem candidate_canonical bytes ps :
  Forall byte bytes ->
  (decode_candidate bytes = Ok ps <-> candidate_wf ps /\ bytes = encode_candidate ps) /\
  (forall w a, world_ok w -> ids_typed (spec w) -> assignment_ok w a ->
     decode_candidate (encode_assignment a) = Ok (zip (asg_cells a) (programs a)) <->
     ascending None (asg_cells a)).
Proof.
  intros Hb. split; [by apply decode_candidate_iff|]. intros w a Hw Ht [Hc Hp Hwf].
  destruct (world_counts w Hw) as [Hn _].
  assert (Hl : length (asg_cells a) = length (programs a)) by by rewrite Hc, length_fmap.
  assert (Hcells : Forall (fun id => id < 2 ^ 16) (asg_cells a)).
  { rewrite Hc. apply Forall_fmap. eapply Forall_impl; [exact (it_cells _ Ht)|]. by intros c []. }
  pose proof (zip_entries _ _ Hl Hcells Hwf) as Hf.
  assert (Hids : (zip (asg_cells a) (programs a)).*1 = asg_cells a) by (apply fst_zip; lia).
  pose proof (entries_bytes _ Hf) as Hbytes. fold (encode_assignment a) in Hbytes.
  rewrite decode_candidate_iff by done. unfold candidate_wf, list_wf. rewrite Hids.
  split; [naive_solver|]. intros Has. split; [|done]. split; [|done].
  apply (f_equal length) in Hc. rewrite length_fmap in Hc.
  unfold len in *. rewrite length_zip_with. lia.
Qed.

(** A world that lists cell 9 before cell 7. *)
Definition unsorted_spec : WorldSpec :=
  mkWorldSpec 5 4 [] [] [] [mkBeacon 3 (mkPoint 3 0) true 100 2 5 10 0] []
    [mkCellBody 9 (mkPoint 1 2) North true [0; 0; 0; 0];
     mkCellBody 7 (mkPoint 2 2) North false [0; 0; 0; 0]] [].

Definition unsorted_world : World :=
  match World_new unsorted_spec with Ok w => w | _ => mkWorld unsorted_spec [] end.

Definition unsorted_assignment : Assignment := mkAssignment [watcher_program; watcher_program] [9; 7].

Lemma candidate_canonical_witness :
  World_new unsorted_spec = Ok unsorted_world /\
  Assignment_validate unsorted_world [(7, watcher_program); (9, watcher_program)]
    = Ok unsorted_assignment /\
  ~ ascending None (asg_cells unsorted_assignment) /\
  decode_candidate (encode_assignment unsorted_assignment)
    <> Ok (zip (asg_cells unsorted_assignment) (programs unsorted_assignment)).
Proof.
  assert (Hw : World_new unsorted_spec = Ok unsorted_world) by (vm_compute; reflexivity).
  assert (Ha : Assignment_validate unsorted_world [(7, watcher_program); (9, watcher_program)]
    = Ok unsorted_assignment) by (vm_compute; reflexivity).
  assert (Hn : ~ ascending None (asg_cells unsorted_assignment)) by (simpl; lia).
  split; [exact Hw|]. split; [exact Ha|]. split; [exact Hn|]. intros Hd. apply Hn.
  apply (candidate_canonical [] [] (Forall_nil_2 _)) with (w := unsorted_world); [|..|exact Hd].
  - by eapply World_new_ok.
  - split; repeat constructor; by vm_compute.
  - eapply (Assignment_validate_ok unsorted_world _ _ Ha).
    constructor; [exact watcher_program_wf|]. constructor; [exact watcher_program_wf|constructor].
Defined.

(** Case results decode from exactly their canonical bytes. *)
Theorem output_canonical bytes rs :
  Forall byte bytes ->
  (decode_output bytes = Ok rs <-> output_wire rs /\ bytes = encode_output rs) /\
  (output_wire rs -> len (encode_output rs) = 1 + CASE_RESULT_BYTES * len rs) /\
  decode_output bytes <> Panic.
Proof.
  intros Hb. split; [by apply decode_output_iff|].
  split; [apply size_output|by apply decode_total].
Qed.

Definition fixture_result : CaseResult :=
  mkCaseResult Complete 6 (mkOutcome true true true true) (mkStateHash (replicate 32 7))
    (set_counter Sensors 12 empty_ledger) 2.

Lemma fixture_result_wire : output_wire [fixture_result].
Proof. split; [by vm_compute|]. repeat constructor; by vm_compute. Qed.

Lemma output_canonical_witness :
  output_wire [fixture_result] /\ len (encode_output [fixture_result]) = 154 /\
  decode_output (encode_output [fixture_result]) = Ok [fixture_result].
Proof.
  assert (Hb : Forall byte (encode_output [fixture_result])).
  { apply (codec_bytes (g := r_counted MAX_CASES FCount get_case_result)), fixture_result_wire. }
  destruct (output_canonical _ [fixture_result] Hb) as (H1 & H2 & _).
  split; [exact fixture_result_wire|]. split; [rewrite (H2 fixture_result_wire); reflexivity|].
  apply H1. split; [exact fixture_result_wire|reflexivity].
Defined.

(** State encodings are injective on typed states, so two states with the
    same bytes are the same state. *)
Theorem state_encoding_injective s1 s2 :
  state_typed s1 -> state_typed s2 -> encode_state s1 = encode_state s2 <-> s1 = s2.
Proof. intros H1 H2. split; [by apply encode_state_inj|by intros ->]. Qed.

Lemma initial_typed : state_typed (initial fixture_world).
Proof. apply (bool_decide_unpack _). vm_compute. exact I. Qed.

Lemma state_encoding_injective_witness :
  state_typed (initial fixture_world) /\
  encode_state (set_tick 1 (initial fixture_world)) <> encode_state (initial fixture_world).
Proof.
  split; [exact initial_typed|]. intros E.
  assert (Ht : state_typed (set_tick 1 (initial fixture_world))).
  { destruct initial_typed as [_ H]. split; [by vm_compute|exact H]. }
  apply (state_encoding_injective _ _ Ht initial_typed) in E. discriminate E.
Defined.

(** C40. Every state a run shows its observer, final state included, encodes
    within the buffer [MAX_STATE_BYTES] reserves. *)
Theorem run_states_fit w c a :
  loaded w c a ->
  Forall (fun f => len (encode_state (fr_state f)) <= MAX_STATE_BYTES)
    (snd (run (fun fs f => fs ++ [f]) w a c [])) /\
  exists r, fst (run (fun fs f => fs ++ [f]) w a c []) = Ok r /\
    len (encode_state (rr_final_state r)) <= MAX_STATE_BYTES.
Proof.
  intros Hl. destruct (loaded_ok w c a Hl) as (Hw & Hc & Ha).
  destruct (run_total w Hw (ld_typed _ _ _ Hl) c Hc a Ha (fun fs f => fs ++ [f])
    (Forall (frame_ok w c))) with (o := @nil FrameView) as (r & o' & -> & Hr & Hf); [|constructor|].
  { intros fs f Hfs Hf. by apply Forall_app, conj, Forall_singleton. }
  simpl. split.
  - eapply Forall_impl; [exact Hf|]. intros f Hok. apply (size_state w); [done|by destruct Hok].
  - exists r. split; [done|]. by apply (size_state w), (ru_state _ _ _ Hr).
Qed.

Lemma run_states_fit_witness :
  loaded fixture_world fixture_case fixture_assignment /\
  exists r, fst (run (fun fs f => fs ++ [f]) fixture_world fixture_assignment fixture_case []) = Ok r /\
    len (encode_state (rr_final_state r)) <= MAX_STATE_BYTES.
Proof. split; [exact fixture_loaded|]. apply (run_states_fit _ _ _ fixture_loaded). Defined.

(** Digests of different kinds, or of different documents of one kind, hash
    different byte strings: a coincidence of digests is a SHA-256 collision. *)
Theorem digest_separates d1 d2 b1 b2 :
  d1 ∈ domains -> d2 ∈ domains ->
  preimage d1 b1 = preimage d2 b2 <-> d1 = d2 /\ b1 = b2.
Proof. intros H1 H2. split; [by apply preimage_inj|by intros [-> ->]]. Qed.

Lemma digest_separates_witness : preimage STATE_DOMAIN [1; 2] <> preimage OUTPUT_DOMAIN [1; 2].
Proof.
  intros E. apply (digest_separates STATE_DOMAIN OUTPUT_DOMAIN [1; 2] [1; 2]) in E as [E _].
  - vm_compute in E. discriminate E.
  - right; right; left.
  - right; right; right; left.
Defined.

(** A receipt is 180 bytes and a claimed receipt decodes from exactly its
    canonical bytes; it matches a verifier's receipt iff every field agrees. *)
Theorem receipt_canonical bytes c r :
  Forall byte bytes -> receipt_typed r ->
  (decode_claimed bytes = Ok c <-> claimed_typed c /\ bytes = encode_claimed c) /\
  len (encode_receipt r) = RECEIPT_BYTES /\
  (claimed_typed c -> matches c r = true <-> as_witness c = r) /\
  decode_claimed bytes <> Panic.
Proof.
  intros Hb Hr.
  split; [by apply decode_claimed_iff|]. split; [by apply receipt_length|]. split; [|by apply decode_total].
  intros Hc. by apply matches_iff.
Qed.

Definition fixture_receipt : WitnessReceipt :=
  mkWitnessReceipt (replicate 32 1) (replicate 32 2) (mkManifestHash (replicate 32 3))
    (mkProgramHash (replicate 32 4)) (mkOutputHash (replicate 32 5)) 2 900 true 2.

Definition fixture_claim : ClaimedReceipt :=
  mkClaimedReceipt (replicate 32 1) (replicate 32 2) (mkManifestHash (replicate 32 3))
    (mkProgramHash (replicate 32 4)) (mkOutputHash (replicate 32 5)) 3 900 true 2.

Lemma fixture_receipt_typed : receipt_typed fixture_receipt.
Proof. split; repeat constructor; by vm_compute. Qed.

Lemma fixture_claim_typed : claimed_typed fixture_claim.
Proof. split; repeat constructor; by vm_compute. Qed.

Lemma receipt_canonical_witness :
  receipt_typed fixture_receipt /\ claimed_typed fixture_claim /\
  len (encode_receipt fixture_receipt) = 180 /\ matches fixture_claim fixture_receipt <> true.
Proof.
  destruct (receipt_canonical [] fixture_claim fixture_receipt (Forall_nil_2 _) fixture_receipt_typed)
    as (_ & H1 & H2 & _).
  split; [exact fixture_receipt_typed|]. split; [exact fixture_claim_typed|]. split; [exact H1|].
  intros E. apply (H2 fixture_claim_typed) in E. discriminate E.
Defined.
