(* ===== verification/PlatformClaims.v ===== *)
(** The properties of manifests, assignments, platform runs and receipts. *)
From S2P Require Import Prelude Language Meter World WorldFacts Machine MachineInv Runs.
From S2P Require Import Bytes ProgramCodec WorldCodec StateCodec ResultCodec.
From S2P Require Import Manifest Fixture Platform PlatformFacts.

(** C30. Validation accepts exactly the manifests that satisfy the declarative
    rules; an accepted one is canonically encodable, so its hash and length are
    those of bytes that decode back to it, and [TooLarge] never happens. *)
Theorem validate_iff sha256 m :
  manifest_typed m ->
  (forall v, validate sha256 m = Ok v <->
     exists w, manifest_valid m w /\ v = validated sha256 m w) /\
  (forall v, validate sha256 m = Ok v -> decode_manifest (encode_manifest m) = Ok m) /\
  (forall w, manifest_valid m w -> len (encode_manifest m) <= MAX_MANIFEST_BYTES).
Proof.
  intros Ht. split; [|split].
  - intros v. split; [apply validate_valid|]. intros (w & Hm & ->). by apply valid_validate.
  - intros v (w & Hm & _)%validate_valid. pose proof (valid_manifest_wire m w Ht Hm) as Hw.
    apply decode_manifest_iff; [by apply encode_manifest_bytes|done].
  - intros w Hm. by apply size_manifest, (valid_manifest_wire m w).
Qed.

Lemma validate_iff_witness :
  manifest_typed fixture_manifest /\ manifest_valid fixture_manifest fixture_world /\
  validate length_hash fixture_manifest = Ok fixture_valid.
Proof.
  split; [exact fixture_manifest_typed|]. split; [exact fixture_manifest_valid|].
  apply (validate_iff length_hash fixture_manifest fixture_manifest_typed).
  exists fixture_world. split; [exact fixture_manifest_valid|reflexivity].
Defined.

(** Binding a candidate: it is refused unless it names exactly the open
    slots in order; otherwise the assignment gives every world cell its fixed
    or its candidate program, and the only other refusal is a rule that routes
    to a valve the world does not have. *)
Theorem assign_exact sha256 m v candidate :
  validate sha256 m = Ok v ->
  (candidate.*1 <> open_slots v -> assign v candidate = Err MCandidate) /\
  (candidate.*1 = open_slots v ->
     assign v candidate = Err (MWorld UnknownValve) \/
     exists a, assign v candidate = Ok a /\ asg_cells a = cb_id <$> cells (vm_world v) /\
       Forall2 (fun c p => bound (tm_slots m) candidate (cb_id c) p /\ known (vm_world v) p)
         (cells (vm_world v)) (programs a)).
Proof.
  intros (w & Hm & ->)%validate_valid. pose proof (assign_cases sha256 m w candidate Hm) as H.
  simpl in H. split; intros E.
  - by rewrite bool_decide_false in H.
  - rewrite bool_decide_true in H by done. destruct H as [(ps & a & H)|H]; [right|by left].
    exists a. destruct H as (H1 & _ & _ & H2 & H3). done.
Qed.

Lemma assign_exact_witness :
  validate length_hash fixture_manifest = Ok fixture_valid /\
  assign fixture_valid fixture_candidate = Ok fixture_assignment /\
  assign fixture_valid [(9, courier_program)] = Err MCandidate.
Proof.
  assert (Hv : validate length_hash fixture_manifest = Ok fixture_valid)
    by exact (valid_validate _ _ _ fixture_manifest_typed fixture_manifest_valid).
  split; [exact Hv|]. split; [vm_compute; reflexivity|].
  apply (assign_exact length_hash fixture_manifest fixture_valid [(9, courier_program)] Hv).
  intros E. vm_compute in E. discriminate E.
Defined.

(** C2. The platform refuses before anything runs, observers included, exactly
    when the capability does not authorize the run; an authorized run never
    fails: it reports each case exactly as the engine runs it, with summed work
    within the manifest's fuel and within the allowance. *)
Theorem platform_run_sound sha256 {O} (observe : O -> FrameView -> O) m v candidate a cap o :
  bound_task sha256 m v candidate a ->
  (~ authorizes sha256 cap v a ->
     exists e, run_observed sha256 observe v a cap o = (Err e, o) /\
       (e = RefusedManifest \/ e = RefusedProgram \/ e = RefusedAllowance)) /\
  (authorizes sha256 cap v a ->
     exists r o', run_observed sha256 observe v a cap o = (Ok r, o') /\
       Forall2 (fun c x => exists y, engine_result (vm_world v) a c y /\ x = case_result sha256 y)
         (vm_cases v) (wr_cases r) /\
       wr_total r = sum_of (fun x => led_sum (cr_ledger x)) (wr_cases r) /\
       wr_total r <= fuel_total v <= max_total (cap_allowance cap) /\
       wr_useful r = sum_of cr_useful (wr_cases r) /\ wr_useful r <= 1024 /\
       wr_manifest r = vm_hash v /\ wr_program r = cap_program cap).
Proof.
  intros Hb. destruct (bound_task_ok _ _ _ _ _ Hb) as (w & Ev & Hm & Hw & Ht & Ha & Hc & Hn & Hfuel).
  split.
  - intros Hno. unfold run_observed, authorizes in *.
    destruct (bool_decide_reflect (cap_manifest cap = vm_hash v)); simpl; [|eexists; eauto].
    destruct (bool_decide_reflect (cap_program cap = ProgramHash_of sha256 (encode_assignment a)));
      simpl; [|eexists; eauto].
    destruct (N.ltb_spec (max_total (cap_allowance cap)) (fuel_total v)); [eexists; eauto|].
    by destruct Hno.
  - intros (E1 & E2 & E3).
    destruct (run_observed_ok sha256 w Hw Ht a Ha observe v cap o) as (t & o' & Htot & E);
      [by rewrite Ev|done..|].
    exists (mkWitnessRun (vm_hash v) (cap_program cap) (cap_role cap) (tt_cases t) (tt_useful t)
      (tt_total t)), o'. split; [exact E|]. simpl.
    destruct (totals_bounds sha256 w Hw a _ _ Hc Htot) as [Hu Hl]. destruct Htot as [H1 H2 H3].
    replace (vm_world v) with w by by rewrite Ev. unfold MAX_INITIAL_SPARKS, MAX_CASES in *.
    repeat split; try done; lia.
Qed.

Definition fixture_capability (role : RunRole) (allowance : N) : RunCapability :=
  mint (vm_hash fixture_valid) (ProgramHash_of length_hash (encode_assignment fixture_assignment))
    (mkWorkAllowance allowance) role.

Lemma fixture_authorized role : authorizes length_hash (fixture_capability role 4000) fixture_valid fixture_assignment.
Proof. split; [reflexivity|]. split; [reflexivity|]. vm_compute. discriminate. Qed.

Lemma platform_run_sound_witness :
  bound_task length_hash fixture_manifest fixture_valid fixture_candidate fixture_assignment /\
  (exists r o', run_observed length_hash (fun _ _ => tt) fixture_valid fixture_assignment
     (fixture_capability Prove 4000) tt = (Ok r, o')) /\
  exists e, run_observed length_hash (fun _ _ => tt) fixture_valid fixture_assignment
     (fixture_capability Prove 3999) tt = (Err e, tt).
Proof.
  split; [exact fixture_task|]. split.
  - destruct (platform_run_sound length_hash (fun _ _ => tt) _ _ _ _ (fixture_capability Prove 4000)
      tt fixture_task) as [_ H]. destruct (H (fixture_authorized Prove)) as (r & o' & E & _). eauto.
  - destruct (platform_run_sound length_hash (fun _ _ => tt) _ _ _ _ (fixture_capability Prove 3999)
      tt fixture_task) as [H _]. destruct H as (e & E & _); [|eauto].
    intros (_ & _ & Hle). vm_compute in Hle. by apply Hle.
Defined.

(** C4. Proving and replaying agree: whatever the roles, the allowances and the
    observers, two authorized runs of one bound task seal to one receipt, which
    is well typed; the claim sent for it decodes and matches the replay, and a
    decoded claim matches the replay only if it is that claim. *)
Theorem replay_reproduces sha256 `{!Sha256 sha256} {O1 O2} (f1 : O1 -> FrameView -> O1)
    (f2 : O2 -> FrameView -> O2) m v candidate a cap1 cap2 o1 o2 b :
  bound_task sha256 m v candidate a -> authorizes sha256 cap1 v a -> authorizes sha256 cap2 v a ->
  hash_wire (rb_challenge_id b) -> hash_wire (rb_subject_key b) ->
  exists r1 r2, fst (run_observed sha256 f1 v a cap1 o1) = Ok r1 /\
    fst (run_observed sha256 f2 v a cap2 o2) = Ok r2 /\
    into_receipt sha256 r1 b = into_receipt sha256 r2 b /\
    wx_case_count (into_receipt sha256 r1 b) = len (vm_cases v) /\
    forall bytes c, Forall byte bytes -> decode_claimed bytes = Ok c ->
      matches c (into_receipt sha256 r2 b) = true <-> bytes = encode_receipt (into_receipt sha256 r1 b).
Proof.
  intros Hb A1 A2 B1 B2.
  destruct (bound_receipt sha256 m v candidate a b Hb B1 B2) as (receipt & Hx & Hn & _ & _ & _ & _ & Hrun).
  destruct (Hrun O1 f1 cap1 o1 A1) as (r1 & E1 & X1). destruct (Hrun O2 f2 cap2 o2 A2) as (r2 & E2 & X2).
  exists r1, r2. rewrite X1, X2. split_and!; try done. intros bytes c Hbytes Hdec.
  apply decode_claimed_iff in Hdec as [Hct ->]; [|done]. rewrite matches_iff by done.
  unfold encode_claimed. split; [by intros ->|]. intros E. apply matches_iff; [done..|].
  by apply bool_decide_eq_true.
Qed.

Definition fixture_binding : ReceiptBinding := mkReceiptBinding (replicate 32 1) (replicate 32 2).

Lemma replay_reproduces_witness :
  exists r1 r2,
    fst (run_observed length_hash (fun _ _ => tt) fixture_valid fixture_assignment
           (fixture_capability Prove 4000) tt) = Ok r1 /\
    fst (run_observed length_hash (fun fs f => fs ++ [f]) fixture_valid fixture_assignment
           (fixture_capability Replay 9000) []) = Ok r2 /\
    into_receipt length_hash r1 fixture_binding = into_receipt length_hash r2 fixture_binding.
Proof.
  destruct (replay_reproduces length_hash (fun _ _ => tt) (fun fs f => fs ++ [f]) _ _ _ _
    (fixture_capability Prove 4000) (fixture_capability Replay 9000) tt [] fixture_binding fixture_task)
    as (r1 & r2 & E1 & E2 & E3 & _).
  - apply fixture_authorized.
  - split; [reflexivity|]. split; [reflexivity|]. vm_compute. discriminate.
  - split; [repeat constructor; by vm_compute|reflexivity].
  - split; [repeat constructor; by vm_compute|reflexivity].
  - exists r1, r2. auto.
Defined.
