(* ===== verification/OrderedMap.v ===== *)
(** Maps and slices in key order. *)
From stdpp Require Import gmap sorting.
From S2P Require Import Prelude.

(** [BTreeMap] of the Rust standard library: a finite map that is iterated in
    the order of its keys.  The map is a [gmap]; this file has its iteration
    and the lists that are exactly such an iteration. *)

(** The [Ord] of a key type. *)
Class KeyOrder (K : Type) `{EqDecision K} : Type := {
  key_le : relation K;
  key_le_dec :: RelDecision key_le;
  key_le_po :: PartialOrder key_le;
  key_le_total :: Total key_le;
}.

#[export] Instance N_key_order : KeyOrder N := {| key_le := N.le |}.

(** Lexicographic order of byte strings, the derived [Ord] of [[u8; n]]. *)
Fixpoint lex_le (a b : list N) : Prop :=
  match a, b with
  | [], _ => True
  | _ :: _, [] => False
  | x :: a, y :: b => x < y \/ x = y /\ lex_le a b
  end.

#[export] Instance lex_le_dec : RelDecision lex_le.
Proof.
  intros a. induction a as [|x a IH]; intros [|y b]; simpl; try apply _.
Defined.

#[export] Instance lex_le_order : PartialOrder lex_le.
Proof.
  split; [split|].
  - intros a. induction a; simpl; auto.
  - intros a. induction a as [|x a IH]; intros [|y b] [|z c]; simpl; try done.
    intros [H1|[-> H1]] [H2|[-> H2]]; try (left; lia). right. split; [done|by eapply IH].
  - intros a. induction a as [|x a IH]; intros [|y b]; simpl; try done.
    intros [H1|[-> H1]] [H2|[? H2]]; try lia. f_equal. by apply IH.
Qed.

#[export] Instance lex_le_total : Total lex_le.
Proof.
  intros a. induction a as [|x a IH]; intros [|y b]; simpl; auto.
  destruct (N.lt_trichotomy x y) as [H|[->|H]]; auto. destruct (IH b); auto.
Qed.

#[export] Instance bytes_key_order : KeyOrder (list N) := {| key_le := lex_le |}.

(** Strictly increasing. *)
Definition key_lt {K} `{KeyOrder K} (a b : K) : Prop := key_le a b /\ a <> b.

#[export] Instance key_lt_dec {K} `{KeyOrder K} : RelDecision key_lt.
Proof. intros a b. unfold key_lt. apply _. Defined.

#[export] Instance key_lt_trans {K} `{KeyOrder K} : Transitive key_lt.
Proof.
  intros a b c [H1 N1] [H2 N2]. split; [by etrans|]. intros ->. apply N1. by apply (anti_symm key_le).
Qed.

(** The test [actor <= previous] of a loop that wants increasing keys. *)
Lemma key_lt_N (a b : N) : key_lt a b <-> a < b.
Proof. unfold key_lt. simpl. lia. Qed.

(** Appending a key: it only has to exceed the last one. *)
Lemma sorted_snoc {K} `{KeyOrder K} (ks : list K) a :
  StronglySorted key_lt (ks ++ [a]) <->
  StronglySorted key_lt ks /\ forall x, last ks = Some x -> key_lt x a.
Proof.
  induction ks as [|k ks IH]; [split; [by repeat constructor|by repeat constructor]|].
  change ((k :: ks) ++ [a]) with (k :: (ks ++ [a])). split.
  - intros [Hs Hf]%StronglySorted_inv. apply IH in Hs as [Hs Hl]. apply Forall_app in Hf as [Hf Ha].
    split; [by constructor|]. destruct ks as [|k' ks]; [|exact Hl].
    intros x [= <-]. by apply Forall_inv in Ha.
  - intros [[Hs Hf]%StronglySorted_inv Hl].
    assert (Hl' : forall x, last ks = Some x -> key_lt x a) by (destruct ks; [done|exact Hl]).
    constructor; [by apply IH|]. apply Forall_app. split; [done|]. constructor; [|done].
    destruct (last ks) as [x|] eqn:E.
    + etrans; [|by apply Hl']. apply last_Some_elem_of in E.
      by apply (proj1 (Forall_forall _ _) Hf).
    + apply last_None in E as ->. by apply Hl.
Qed.

Section Entries.
Context {K : Type} `{KeyOrder K, !Countable K} {A : Type}.
Implicit Types (m : gmap K A) (l : list (K * A)).

Definition entry_le (p q : K * A) : Prop := key_le p.1 q.1.

#[export] Instance entry_le_dec : RelDecision entry_le.
Proof. intros p q. unfold entry_le. apply _. Defined.
#[export] Instance entry_le_trans : Transitive entry_le.
Proof. intros p q s. apply (transitivity (R := key_le)). Qed.
#[export] Instance entry_le_total : Total entry_le.
Proof. intros p q. apply key_le_total. Qed.

(** [map.iter()]: the entries by increasing key. *)
Definition entries m : list (K * A) := merge_sort entry_le (map_to_list m).

Lemma entries_perm m : entries m ≡ₚ map_to_list m.
Proof. apply merge_sort_Permutation. Qed.

Lemma elem_of_entries m k x : (k, x) ∈ entries m <-> m !! k = Some x.
Proof. by rewrite entries_perm, elem_of_map_to_list. Qed.

Lemma length_entries m : length (entries m) = size m.
Proof. by rewrite entries_perm, length_map_to_list. Qed.

Lemma entries_nodup m : NoDup (entries m).*1.
Proof. rewrite entries_perm. apply NoDup_fst_map_to_list. Qed.

Lemma entries_map m : list_to_map (entries m) = m.
Proof.
  rewrite (list_to_map_proper _ (map_to_list m)); [apply list_to_map_to_list| |apply entries_perm].
  apply entries_nodup.
Qed.

Lemma sorted_weaken l : StronglySorted key_lt l.*1 -> StronglySorted entry_le l.
Proof.
  induction l as [|p l IH]; csimpl; [constructor|]. intros Hs.
  apply StronglySorted_inv in Hs as [Hs Hp]. constructor; [by apply IH|].
  apply Forall_forall. intros q Hq. apply (proj1 (Forall_forall _ _) Hp q.1). by apply list_elem_of_fmap_2.
Qed.

Lemma sorted_strict l : NoDup l.*1 -> StronglySorted entry_le l -> StronglySorted key_lt l.*1.
Proof.
  induction l as [|p l IH]; csimpl; [constructor|]. intros Hn Hs.
  apply NoDup_cons in Hn as [Hp Hn]. apply StronglySorted_inv in Hs as [Hs Hf].
  constructor; [by apply IH|]. apply Forall_forall. intros k Hk. split.
  - apply list_elem_of_fmap in Hk as (q & -> & Hq). by apply (proj1 (Forall_forall _ _) Hf).
  - by intros <-.
Qed.

Lemma sorted_nodup (l : list K) : StronglySorted key_lt l -> NoDup l.
Proof.
  induction 1 as [|k l Hs IH Hf]; constructor; [|done]. intros Hk.
  by destruct (proj1 (Forall_forall _ _) Hf _ Hk).
Qed.

Lemma entries_sorted m : StronglySorted key_lt (entries m).*1.
Proof. apply sorted_strict; [apply entries_nodup|apply (StronglySorted_merge_sort _)]. Qed.

(** A list with increasing keys is the iteration of the map it builds. *)
Lemma entries_unique l m :
  StronglySorted key_lt l.*1 -> list_to_map l = m -> l = entries m.
Proof.
  intros Hs <-. assert (Hn : NoDup l.*1) by (by apply sorted_nodup).
  assert (Hp : l ≡ₚ entries (list_to_map l)) by (by rewrite entries_perm, map_to_list_to_map).
  apply (StronglySorted_unique_strong entry_le).
  - intros [k x] [k' y] Hx Hy H1 H2. rewrite <- Hp in Hy.
    assert (k = k') as <- by (by apply (anti_symm key_le)).
    apply elem_of_list_to_map in Hx, Hy; [|done..]. congruence.
  - by apply sorted_weaken.
  - apply (StronglySorted_merge_sort _).
  - done.
Qed.
End Entries.

(** Strictly sorted slices: the test [windows(2).any(..)] for increasing keys,
    and [binary_search_by] of the Rust standard library on them. *)

(** [l.windows(2).any(|pair| f(pair[0], pair[1]))] *)
Fixpoint windows_any {A} (f : A -> A -> bool) (l : list A) : bool :=
  match l with
  | [] => false
  | a :: l' => match l' with [] => false | b :: _ => f a b || windows_any f l' end
  end.

Section Search.
Context {K : Type} `{KeyOrder K} {A : Type}.
Implicit Types (f : A -> K) (l : list A).

(** [Ord::cmp] *)
Definition key_cmp (a b : K) : comparison :=
  if decide (a = b) then Eq else if decide (key_le a b) then Lt else Gt.

(** The loop halves [size]; [fuel] is at least [size]. *)
Fixpoint search_base (fuel : nat) f (key : K) l (base size : nat) : nat :=
  match fuel with
  | O => base
  | S fuel =>
      if (1 <? size)%nat then
        let half := (size / 2)%nat in
        let mid := (base + half)%nat in
        let base := match l !! mid with
                    | Some x => match key_cmp (f x) key with Gt => base | _ => mid end
                    | None => base
                    end in
        search_base fuel f key l base (size - half)
      else base
  end.

(** The index, when the key is found. *)
Definition binary_search_by f (key : K) l : option nat :=
  let base := search_base (length l) f key l 0 (length l) in
  match l !! base with
  | Some x => if decide (f x = key) then Some base else None
  | None => None
  end.

Definition sorted_by f l : Prop := StronglySorted key_lt (f <$> l).

Lemma windows_sorted f l :
  windows_any (fun a b => bool_decide (key_le (f b) (f a))) l = false <-> sorted_by f l.
Proof.
  unfold sorted_by. split.
  - intros Hw. apply Sorted_StronglySorted; [apply _|]. induction l as [|a [|b l] IH]; [constructor|by repeat constructor|].
    cbn [windows_any] in Hw. apply orb_false_iff in Hw as [Hab Hw]. apply bool_decide_eq_false in Hab.
    csimpl. constructor; [by apply IH|]. constructor. split; [destruct (total key_le (f a) (f b)); tauto|].
    intros E. apply Hab. by rewrite E.
  - induction l as [|a [|b l] IH]; [done..|]. csimpl. intros [Hs Ha]%StronglySorted_inv.
    apply orb_false_iff. split; [|by apply IH]. apply bool_decide_eq_false. apply Forall_inv in Ha as [Hle Hne].
    intros Hba. apply Hne. by apply (anti_symm key_le).
Qed.

Lemma ascending_lookup f l i j x y : sorted_by f l -> l !! i = Some x -> l !! j = Some y -> (i < j)%nat ->
  key_lt (f x) (f y).
Proof.
  unfold sorted_by. revert i j. induction l as [|a l IH]; intros i j Hs Hi Hj Hij; [done|].
  csimpl in Hs. apply StronglySorted_inv in Hs as [Hs Ha]. destruct j as [|j]; [lia|]. destruct i as [|i].
  - injection Hi as ->. apply (proj1 (Forall_forall _ _) Ha). apply list_elem_of_fmap_2. by eapply list_elem_of_lookup_2.
  - apply (IH i j); [done..|lia].
Qed.

Lemma ascending_inj f l i j x y : sorted_by f l -> l !! i = Some x -> l !! j = Some y -> f x = f y -> i = j.
Proof.
  intros Hs Hi Hj E. destruct (Nat.lt_trichotomy i j) as [Hl|[->|Hl]]; [|done|].
  - by destruct (ascending_lookup f l i j x y Hs Hi Hj Hl).
  - by destruct (ascending_lookup f l j i y x Hs Hj Hi Hl) as [_ []].
Qed.

Lemma key_cmp_Gt a b : key_cmp a b = Gt <-> key_lt b a.
Proof.
  unfold key_cmp, key_lt. destruct (decide (a = b)) as [->|Hne]; [naive_solver|].
  destruct (decide (key_le a b)) as [Hle|Hle]; split; try done.
  - intros [Hle' _]. exfalso. apply Hne. by apply (anti_symm key_le).
  - intros _. split; [destruct (total key_le a b); tauto|congruence].
Qed.

(** The position of a key that is present stays between [base] and
    [base + size]. *)
Lemma search_base_found fuel f key l base size i x : sorted_by f l -> l !! i = Some x -> f x = key ->
  (size <= fuel)%nat -> (base <= i < base + size)%nat -> (base + size <= length l)%nat ->
  search_base fuel f key l base size = i.
Proof.
  intros Hs Hi <-. revert base size. induction fuel as [|fuel IH]; intros base size Hf Hb Hl; [lia|].
  cbn [search_base]. destruct (Nat.ltb_spec 1 size) as [Hsz|Hsz]; [|lia].
  assert (0 < size / 2 < size)%nat as Hh by (split; [apply Nat.div_str_pos; lia|apply Nat.div_lt; lia]).
  set (half := (size / 2)%nat) in *. destruct (l !! (base + half)%nat) as [y|] eqn:Em.
  2: { apply lookup_ge_None in Em. lia. }
  destruct (decide (key_cmp (f y) (f x) = Gt)) as [Hg|Hg].
  - rewrite Hg. apply IH; [lia| |lia]. split; [lia|]. apply key_cmp_Gt in Hg.
    destruct (decide (base + half <= i)%nat) as [Hle|Hle].
    + destruct (decide (i = base + half)%nat) as [->|Hne]; [rewrite Hi in Em; injection Em as ->; by destruct Hg|].
      destruct (ascending_lookup f l (base + half) i y x Hs Em Hi) as [H1 H2]; [lia|].
      destruct Hg as [H3 _]. exfalso. apply H2. by apply (anti_symm key_le).
    + enough (size - half >= half)%nat by lia. unfold half. pose proof (Nat.Div0.div_mod size 2).
      pose proof (Nat.mod_upper_bound size 2). lia.
  - assert (Hm : (base + half <= i)%nat).
    { destruct (decide (base + half <= i)%nat); [done|]. exfalso. apply Hg, key_cmp_Gt.
      apply (ascending_lookup f l i (base + half) x y Hs Hi Em). lia. }
    replace (match key_cmp (f y) (f x) with Gt => base | _ => base + half end)%nat with (base + half)%nat
      by (by destruct (key_cmp (f y) (f x))).
    apply IH; lia.
Qed.

(** On a strictly sorted slice it finds exactly the keys that occur. *)
Lemma binary_search_Some f key l i : sorted_by f l ->
  binary_search_by f key l = Some i <-> exists x, l !! i = Some x /\ f x = key.
Proof.
  intros Hs. unfold binary_search_by. split.
  - destruct (l !! search_base _ _ _ _ _ _) as [x|] eqn:E; [|done]. case_decide; [|done].
    intros [= <-]. eauto.
  - intros (x & Hi & Ex). pose proof (lookup_lt_Some _ _ _ Hi).
    rewrite (search_base_found (length l) f key l 0 (length l) i x) by (done || lia).
    rewrite Hi. by rewrite decide_True.
Qed.

Lemma binary_search_None f key l : sorted_by f l ->
  binary_search_by f key l = None <-> key ∉ f <$> l.
Proof.
  intros Hs. rewrite eq_None_not_Some. split.
  - intros Hn Hk. apply Hn. apply list_elem_of_fmap in Hk as (x & -> & Hx).
    apply list_elem_of_lookup_1 in Hx as [i Hi]. exists i. apply binary_search_Some; eauto.
  - intros Hk [i (x & Hi & <-)%binary_search_Some]; [|done]. apply Hk, list_elem_of_fmap_2.
    by eapply list_elem_of_lookup_2.
Qed.
End Search.

(** [l.binary_search(key).is_ok()] *)
Definition contains_sorted (l : list (list N)) (key : list N) : bool :=
  bool_decide (is_Some (binary_search_by id key l)).

Lemma contains_sorted_true l key : sorted_by id l -> contains_sorted l key = true <-> key ∈ l.
Proof.
  intros Hs. unfold contains_sorted. rewrite bool_decide_eq_true. split.
  - intros [i (x & Hi & <-)%binary_search_Some]; [|done]. by eapply list_elem_of_lookup_2.
  - intros [i Hi]%list_elem_of_lookup_1. exists i. apply binary_search_Some; [done|]. by exists key.
Qed.
