(* ===== verification/EventLedger.v ===== *)
(** The bounded event history and its checkpoints
    (src/crates/vhalla-ledger/src/lib.rs): events, checkpoints, the ledger and
    its live operations.  The snapshot is in [Snapshot]. *)
From Stdlib Require Import Ascii String.
From stdpp Require Import gmap.
From S2P Require Import Prelude Bytes OrderedMap.

Definition EVENT_DOMAIN : list N := bytes_of "vhalla/ledger/event/v1".
Definition ROOT_DOMAIN : list N := bytes_of "vhalla/ledger/root/v1".
Definition MAX_PAYLOAD : N := 1024.
Definition MAX_EVENTS : N := 4096.

(** [EventDigest] and [StateRoot] are their 32 bytes; [RealmId] and [PeerId]
    are 128-bit, [Epoch] and [Sequence] 64-bit integers. *)
Record Event : Type := mkEvent {
  ev_id : list N;
  ev_parent : option (list N);
  ev_realm : N;
  ev_epoch : N;
  ev_actor : N;
  ev_sequence : N;
  ev_payload : list N;
}.

Record Checkpoint : Type := mkCheckpoint {
  cp_realm : N;
  cp_epoch : N;
  cp_head : list N;
  cp_state_root : list N;
  cp_height : N;
}.

#[global] Instance Event_eq_dec : EqDecision Event. Proof. solve_decision. Defined.
#[global] Instance Checkpoint_eq_dec : EqDecision Checkpoint. Proof. solve_decision. Defined.

Inductive Error : Type :=
| PayloadTooLarge | InvalidEventId | WrongContext | UnknownOrForkedParent | DuplicateEvent
| NonMonotonicSequence | Capacity | UnknownHead | RootMismatch | HeightMismatch
| StaleCheckpoint | ConflictingCheckpoint | SnapshotTooLarge | TruncatedSnapshot
| InvalidSnapshotHeader | TrailingSnapshot | InvalidSnapshotBounds
| SnapshotSequenceMismatch | NonCanonicalSnapshot.

Record Ledger : Type := mkLedger {
  l_realm : N;
  l_epoch : N;
  l_max_events : N;
  l_events : gmap (list N) Event;
  l_head : option (list N);
  l_checkpoint : option Checkpoint;
  l_last_sequences : gmap N N;
}.

Definition ledger_new (realm epoch max_events : N) : Ledger :=
  mkLedger realm epoch (N.min max_events MAX_EVENTS) ∅ None None ∅.

Definition event_count (l : Ledger) : N := N.of_nat (size (l_events l)).

(** What the two digests hash. *)
Definition event_preimage (parent : option (list N)) (realm epoch actor sequence : N)
    (payload : list N) : list N :=
  written (w_bytes EVENT_DOMAIN >> w_option w_bytes parent >> w_u128 realm >> w_u64 epoch >>
    w_u128 actor >> w_u64 sequence >> w_sized w_u64 payload).

Definition root_preimage (realm epoch : N) (chain : list Event) : list N :=
  written (w_bytes ROOT_DOMAIN >> w_u128 realm >> w_u64 epoch >> w_u64 (len chain) >>
    w_all (fun e => w_bytes (ev_id e)) chain).

(** [while let Some(id) = current { .. }]: [fuel] bounds the iterations, and
    [Panic] stands for running out of it. *)
Fixpoint chain_loop (fuel : nat) (events : gmap (list N) Event) (current : option (list N))
    (reverse : list Event) : res Error (list Event) :=
  match current with
  | None => Ok reverse
  | Some id =>
      match fuel with
      | O => Panic
      | S fuel =>
          let? event := ok_or (events !! id) UnknownHead in
          let reverse := reverse ++ [event] in
          if (size events <? length reverse)%nat then Err UnknownHead
          else chain_loop fuel events (ev_parent event) reverse
      end
  end.

Definition chain (l : Ledger) (head : list N) : res Error (list Event) :=
  let? reverse := chain_loop (S (size (l_events l))) (l_events l) (Some head) [] in
  Ok (rev reverse).

Section Hash.
Context (sha256 : list N -> list N).

Definition hash_event (parent : option (list N)) (realm epoch actor sequence : N)
    (payload : list N) : list N :=
  sha256 (event_preimage parent realm epoch actor sequence payload).

Definition event_new (parent : option (list N)) (realm epoch actor sequence : N)
    (payload : list N) : Event :=
  mkEvent (hash_event parent realm epoch actor sequence payload)
    parent realm epoch actor sequence payload.

Definition append (event : Event) : eff Ledger Error unit :=
  let! l := get in
  if MAX_PAYLOAD <? len (ev_payload event) then throw PayloadTooLarge
  else if negb (ev_realm event =? l_realm l) || negb (ev_epoch event =? l_epoch l)
  then throw WrongContext
  else if negb (bool_decide (ev_id event =
      hash_event (ev_parent event) (ev_realm event) (ev_epoch event) (ev_actor event)
        (ev_sequence event) (ev_payload event)))
  then throw InvalidEventId
  else if bool_decide (is_Some (l_events l !! ev_id event)) then throw DuplicateEvent
  else if match l_last_sequences l !! ev_actor event with
          | Some last => ev_sequence event <=? last
          | None => false
          end
  then throw NonMonotonicSequence
  else if negb (bool_decide (ev_parent event = l_head l)) then throw UnknownOrForkedParent
  else if l_max_events l <=? event_count l then throw Capacity
  else modify (fun l => mkLedger (l_realm l) (l_epoch l) (l_max_events l)
         (<[ev_id event := event]> (l_events l)) (Some (ev_id event)) (l_checkpoint l)
         (<[ev_actor event := ev_sequence event]> (l_last_sequences l))).

Definition state_root (l : Ledger) (head : list N) : res Error (list N) :=
  let? chain := chain l head in
  Ok (sha256 (root_preimage (l_realm l) (l_epoch l) chain)).

Definition validate_retained_checkpoint (l : Ledger) (checkpoint : Checkpoint) : res Error unit :=
  if negb (cp_realm checkpoint =? l_realm l) || negb (cp_epoch checkpoint =? l_epoch l)
  then Err WrongContext
  else
    let? root := state_root l (cp_head checkpoint) in
    if negb (bool_decide (root = cp_state_root checkpoint)) then Err RootMismatch
    else
      let? chain := chain l (cp_head checkpoint) in
      let height := saturating_sub (len chain) 1 in
      if negb (cp_height checkpoint =? height) then Err HeightMismatch else Ok tt.

Definition set_checkpoint (checkpoint : option Checkpoint) (l : Ledger) : Ledger :=
  mkLedger (l_realm l) (l_epoch l) (l_max_events l) (l_events l) (l_head l) checkpoint
    (l_last_sequences l).

Definition accept_checkpoint (checkpoint : Checkpoint) : eff Ledger Error unit :=
  let! l := get in
  if negb (cp_realm checkpoint =? l_realm l) || negb (cp_epoch checkpoint =? l_epoch l)
  then throw WrongContext
  else if negb (bool_decide (l_head l = Some (cp_head checkpoint))) then throw StaleCheckpoint
  else
    do! lift (validate_retained_checkpoint l checkpoint) in
    match l_checkpoint l with
    | Some previous =>
        if bool_decide (previous = checkpoint) then ret tt
        else if cp_height checkpoint <=? cp_height previous then throw ConflictingCheckpoint
        else modify (set_checkpoint (Some checkpoint))
    | None => modify (set_checkpoint (Some checkpoint))
    end.
End Hash.

(** ** Termination of the ancestor walk, on any map *)

Lemma chain_loop_total fuel events current reverse :
  (size events < length reverse + fuel)%nat -> (length reverse <= size events)%nat ->
  chain_loop fuel events current reverse <> Panic.
Proof.
  revert current reverse. induction fuel as [|fuel IH]; intros [id|] reverse Hf Hl; simpl; try done; [lia|].
  destruct (events !! id) as [event|]; simpl; [|done].
  destruct (Nat.ltb_spec (size events) (length (reverse ++ [event]))) as [H|H]; [done|].
  apply IH; [rewrite length_app; simpl; lia|done].
Qed.

Lemma chain_no_panic l head : chain l head <> Panic.
Proof.
  unfold chain. pose proof (chain_loop_total (S (size (l_events l))) (l_events l) (Some head) []) as H.
  destruct (chain_loop _ _ _ _); simpl; [done..|]. by destruct H; simpl; [lia..|].
Qed.

Lemma append_no_panic sha256 e l : fst (append sha256 e l) <> Panic.
Proof. unfold append, bind, get. by repeat case_match. Qed.

Lemma validate_no_panic sha256 l c : validate_retained_checkpoint sha256 l c <> Panic.
Proof.
  unfold validate_retained_checkpoint, state_root. pose proof (chain_no_panic l (cp_head c)).
  destruct (_ || _); [done|]. destruct (chain l (cp_head c)); simpl; [|done..].
  by repeat case_match.
Qed.
