(* ===== verification/History.v ===== *)
(** The specification of the event ledger: a history is a list of events,
    oldest first, and the number of events behind the accepted checkpoint.
    [concrete] is the ledger that stores a history; every operation of
    [EventLedger] on it is the operation of the specification. *)
From stdpp Require Import gmap.
From S2P Require Import Prelude Bytes OrderedMap EventLedger.

Record History : Type := mkHistory {
  h_realm : N;
  h_epoch : N;
  h_limit : N;
  h_log : list Event;
  h_anchor : option nat;
}.

Definition tip (log : list Event) : option (list N) := ev_id <$> last log.

Definition index_of (log : list Event) : gmap (list N) Event :=
  foldl (fun m e => <[ev_id e := e]> m) ∅ log.

Definition sequences_of (log : list Event) : gmap N N :=
  foldl (fun m e => <[ev_actor e := ev_sequence e]> m) ∅ log.

(** The events up to the one with the id [head]. *)
Definition upto (head : list N) (log : list Event) : option (list Event) :=
  (fun p => take (S p.1) log) <$> list_find (fun e => ev_id e = head) log.

(** A sequence number its author has reached already. *)
Definition replayed (log : list Event) (e : Event) : bool :=
  existsb (fun x => (ev_actor x =? ev_actor e) && (ev_sequence e <=? ev_sequence x)) log.

Section Spec.
Context (sha256 : list N -> list N).

Definition content_id (e : Event) : list N :=
  hash_event sha256 (ev_parent e) (ev_realm e) (ev_epoch e) (ev_actor e) (ev_sequence e)
    (ev_payload e).

Definition root_of (realm epoch : N) (log : list Event) : list N :=
  sha256 (root_preimage realm epoch log).

(** The one checkpoint of the first [n] events. *)
Definition checkpoint_of (realm epoch : N) (log : list Event) : Checkpoint :=
  mkCheckpoint realm epoch (default [] (tip log)) (root_of realm epoch log) (len log - 1).

Definition anchor_of (h : History) : option Checkpoint :=
  (fun n => checkpoint_of (h_realm h) (h_epoch h) (take n (h_log h))) <$> h_anchor h.

Definition concrete (h : History) : Ledger :=
  mkLedger (h_realm h) (h_epoch h) (h_limit h) (index_of (h_log h)) (tip (h_log h))
    (anchor_of h) (sequences_of (h_log h)).

Definition spec_append (e : Event) (h : History) : res Error History :=
  if MAX_PAYLOAD <? len (ev_payload e) then Err PayloadTooLarge
  else if negb (ev_realm e =? h_realm h) || negb (ev_epoch e =? h_epoch h) then Err WrongContext
  else if negb (bool_decide (ev_id e = content_id e)) then Err InvalidEventId
  else if bool_decide (ev_id e ∈ ev_id <$> h_log h) then Err DuplicateEvent
  else if replayed (h_log h) e then Err NonMonotonicSequence
  else if negb (bool_decide (ev_parent e = tip (h_log h))) then Err UnknownOrForkedParent
  else if h_limit h <=? len (h_log h) then Err Capacity
  else Ok (mkHistory (h_realm h) (h_epoch h) (h_limit h) (h_log h ++ [e]) (h_anchor h)).

Definition spec_accept (c : Checkpoint) (h : History) : res Error History :=
  if negb (cp_realm c =? h_realm h) || negb (cp_epoch c =? h_epoch h) then Err WrongContext
  else if negb (bool_decide (tip (h_log h) = Some (cp_head c))) then Err StaleCheckpoint
  else if negb (bool_decide (root_of (h_realm h) (h_epoch h) (h_log h) = cp_state_root c))
  then Err RootMismatch
  else if negb (cp_height c =? len (h_log h) - 1) then Err HeightMismatch
  else Ok (mkHistory (h_realm h) (h_epoch h) (h_limit h) (h_log h) (Some (length (h_log h)))).

(** An event that may follow [log]. *)
Record admissible (realm epoch : N) (log : list Event) (e : Event) : Prop := {
  adm_payload : len (ev_payload e) <= MAX_PAYLOAD;
  adm_realm : ev_realm e = realm;
  adm_epoch : ev_epoch e = epoch;
  adm_id : ev_id e = content_id e;
  adm_fresh : ev_id e ∉ ev_id <$> log;
  adm_sequence x : x ∈ log -> ev_actor x = ev_actor e -> ev_sequence x < ev_sequence e;
  adm_parent : ev_parent e = tip log;
}.

Inductive linear (realm epoch : N) : list Event -> Prop :=
| linear_nil : linear realm epoch []
| linear_snoc log e :
    linear realm epoch log -> admissible realm epoch log e -> linear realm epoch (log ++ [e]).

Record history_ok (h : History) : Prop := {
  ok_linear : linear (h_realm h) (h_epoch h) (h_log h);
  ok_limit : len (h_log h) <= h_limit h <= MAX_EVENTS;
  ok_anchor n : h_anchor h = Some n -> (0 < n <= length (h_log h))%nat;
}.
End Spec.

(** ** The maps of a history *)

Lemma index_of_snoc log e : index_of (log ++ [e]) = <[ev_id e := e]> (index_of log).
Proof. unfold index_of. by rewrite foldl_snoc. Qed.

Lemma sequences_of_snoc log e :
  sequences_of (log ++ [e]) = <[ev_actor e := ev_sequence e]> (sequences_of log).
Proof. unfold sequences_of. by rewrite foldl_snoc. Qed.

Lemma tip_snoc log e : tip (log ++ [e]) = Some (ev_id e).
Proof. unfold tip. by rewrite last_snoc. Qed.

Lemma index_of_None log i : index_of log !! i = None <-> i ∉ ev_id <$> log.
Proof.
  induction log as [|e log IH] using rev_ind; [set_solver|].
  rewrite index_of_snoc, lookup_insert_None, IH, fmap_app. set_solver.
Qed.

Section Linear.
Context {sha256 : list N -> list N} {realm epoch : N}.
Notation linear := (linear sha256 realm epoch).

Lemma linear_inv log e : linear (log ++ [e]) -> linear log /\ admissible sha256 realm epoch log e.
Proof.
  inversion 1 as [E|log' e' ? ? E]; [by destruct log|].
  by apply app_inj_tail in E as [-> ->].
Qed.

Lemma linear_app p q : linear (p ++ q) -> linear p.
Proof.
  induction q as [|e q IH] using rev_ind; [by rewrite app_nil_r|].
  rewrite app_assoc. intros [H _]%linear_inv. auto.
Qed.

Lemma linear_take n log : linear log -> linear (take n log).
Proof. rewrite <- (take_drop n log) at 1. apply linear_app. Qed.

Lemma linear_nodup log : linear log -> NoDup (ev_id <$> log).
Proof.
  induction 1 as [|log e _ IH [_ _ _ _ Hf _ _]]; [constructor|].
  rewrite fmap_app. apply NoDup_app. split; [done|]. split; [|apply NoDup_singleton].
  intros x Hx ->%list_elem_of_singleton. done.
Qed.

Lemma linear_event log e : linear log -> e ∈ log ->
  ev_id e = content_id sha256 e /\ ev_realm e = realm /\ ev_epoch e = epoch /\
  len (ev_payload e) <= MAX_PAYLOAD.
Proof.
  induction 1 as [|log x _ IH []]; [by intros ?%elem_of_nil|].
  rewrite elem_of_app, list_elem_of_singleton. intros [?| ->]; auto.
Qed.

(** The map holds exactly the events of the history. *)
Lemma index_of_Some log i e : linear log ->
  index_of log !! i = Some e <-> e ∈ log /\ ev_id e = i.
Proof.
  induction 1 as [|log x Hl IH [_ _ _ _ Hf _ _]]; [set_solver|].
  rewrite index_of_snoc, lookup_insert_Some, IH, elem_of_app, list_elem_of_singleton.
  split; [naive_solver|]. intros [[He| ->] <-]; [|by left]. right. split; [|done].
  intros E. apply Hf. rewrite E. by apply list_elem_of_fmap_2.
Qed.

Lemma size_index_of log : linear log -> size (index_of log) = length log.
Proof.
  induction 1 as [|log x Hl IH [_ _ _ _ Hf _ _]]; [done|].
  rewrite index_of_snoc, map_size_insert_None by (by apply index_of_None).
  rewrite length_app, IH. simpl. lia.
Qed.

(** The last sequence of an actor bounds all of its sequences. *)
Lemma sequences_of_spec log a : linear log ->
  match sequences_of log !! a with
  | Some s => (forall x, x ∈ log -> ev_actor x = a -> ev_sequence x <= s) /\
      exists x, x ∈ log /\ ev_actor x = a /\ ev_sequence x = s
  | None => forall x, x ∈ log -> ev_actor x <> a
  end.
Proof.
  induction 1 as [|log e Hl IH [_ _ _ _ _ Hs _]]; [set_solver|].
  rewrite sequences_of_snoc. destruct (decide (ev_actor e = a)) as [<-|Hne].
  - rewrite lookup_insert_eq. split.
    + intros x [Hx| ->%list_elem_of_singleton]%elem_of_app Ha; [|done]. apply N.lt_le_incl. auto.
    + exists e. set_solver.
  - rewrite lookup_insert_ne by done. destruct (sequences_of log !! a) as [s|].
    + destruct IH as [IH (x & ? & ? & ?)]. split; [|set_solver].
      intros y [Hy| ->%list_elem_of_singleton]%elem_of_app Ha; [auto|done].
    + intros x [Hx| ->%list_elem_of_singleton]%elem_of_app; auto.
Qed.

Lemma sequences_of_replayed log e : linear log ->
  match sequences_of log !! ev_actor e with Some last => ev_sequence e <=? last | None => false end
  = replayed log e.
Proof.
  intros Hl. pose proof (sequences_of_spec log (ev_actor e) Hl) as H.
  apply eq_bool_prop_intro. unfold replayed. rewrite !Is_true_true, existsb_exists.
  destruct (sequences_of log !! ev_actor e) as [s|].
  - destruct H as [Hmax (x & Hx & Ha & <-)]. rewrite N.leb_le. split.
    + intros Hle. exists x. rewrite <- list_elem_of_In, andb_true_iff, N.eqb_eq, N.leb_le. done.
    + intros (y & Hy & [Hya Hle]%andb_true_iff). rewrite <- list_elem_of_In in Hy.
      apply N.eqb_eq in Hya. apply N.leb_le in Hle. specialize (Hmax y Hy Hya). lia.
  - split; [done|]. intros (y & Hy & [Hya _]%andb_true_iff). rewrite <- list_elem_of_In in Hy.
    apply N.eqb_eq in Hya. by destruct (H y Hy).
Qed.

(** ** The ancestor chain *)

Lemma chain_loop_linear p q fuel reverse :
  linear (p ++ q) -> (length p <= fuel)%nat -> (length reverse + length p <= length (p ++ q))%nat ->
  chain_loop fuel (index_of (p ++ q)) (tip p) reverse = Ok (reverse ++ rev p).
Proof.
  intros Hl. revert q fuel reverse Hl.
  induction p as [|x p IH] using rev_ind; intros q fuel reverse Hl Hf Hr.
  { destruct fuel; simpl; by rewrite app_nil_r. }
  pose proof (linear_app _ _ Hl) as [_ [_ _ _ _ _ _ Hp]]%linear_inv.
  rewrite tip_snoc. rewrite !length_app in *. simpl in *.
  destruct fuel as [|fuel]; [lia|]. simpl.
  rewrite (proj2 (index_of_Some _ _ x Hl)) by (split; [set_solver|done]). simpl.
  rewrite size_index_of by done. rewrite !length_app. simpl.
  rewrite (proj2 (Nat.ltb_ge _ _)) by lia.
  rewrite <- app_assoc in *. simpl in *.
  rewrite Hp. rewrite IH; [|done|lia|rewrite !length_app; simpl; lia].
  by rewrite rev_app_distr, <- app_assoc.
Qed.
End Linear.

Lemma upto_Some head log p : NoDup (ev_id <$> log) ->
  upto head log = Some p <-> tip p = Some head /\ exists q, log = p ++ q.
Proof.
  intros Hn. unfold upto. split.
  - intros ([i x] & Hf & ->)%fmap_Some. apply list_find_Some in Hf as (Hx & Hid & _). cbn [fst]. split.
    + by rewrite (take_S_r _ _ _ Hx), tip_snoc, Hid.
    + exists (drop (S i) log). by rewrite take_drop.
  - intros [Ht (q & ->)]. destruct p as [|x p _] using rev_ind; [done|].
    rewrite tip_snoc in Ht. injection Ht as <-.
    assert (list_find (fun e => ev_id e = ev_id x) ((p ++ [x]) ++ q) = Some (length p, x)) as ->.
    { apply list_find_Some. rewrite <- app_assoc. split; [by apply list_lookup_middle|].
      split; [done|]. intros j y Hj Hlt Hid. rewrite lookup_app_l in Hj by done.
      rewrite !fmap_app, <- app_assoc in Hn. apply NoDup_app in Hn as (_ & Hn & _).
      apply (Hn (ev_id y)); [|rewrite Hid; set_solver].
      apply list_elem_of_fmap_2. by eapply list_elem_of_lookup_2. }
    cbn. f_equal. replace (S (length p)) with (length (p ++ [x])) by (rewrite length_app; simpl; lia).
    apply take_app_length.
Qed.

Lemma upto_None head log : upto head log = None <-> head ∉ ev_id <$> log.
Proof.
  unfold upto. rewrite fmap_None, list_find_None, Forall_forall, list_elem_of_fmap. naive_solver.
Qed.

Section Operations.
Context (sha256 : list N -> list N).
Notation ok := (history_ok sha256).

Definition with_anchor (h : History) (a : option nat) : History :=
  mkHistory (h_realm h) (h_epoch h) (h_limit h) (h_log h) a.

Lemma event_count_concrete h : ok h -> event_count (concrete sha256 h) = len (h_log h).
Proof. intros []. unfold event_count. cbn [concrete l_events]. by erewrite size_index_of. Qed.

(** The chain of a retained event is the history up to it. *)
Lemma chain_concrete h head : ok h ->
  chain (concrete sha256 h) head = ok_or (upto head (h_log h)) UnknownHead.
Proof.
  intros [Hl _ _]. unfold chain. cbn [concrete l_events].
  destruct (upto head (h_log h)) as [p|] eqn:E.
  - apply upto_Some in E as [Ht (q & E)]; [|by eapply linear_nodup]. rewrite <- Ht, E in *.
    rewrite (chain_loop_linear (sha256 := sha256) (realm := h_realm h) (epoch := h_epoch h));
      [|done|erewrite size_index_of by done; rewrite length_app; lia|rewrite length_app; simpl; lia].
    simpl. by rewrite rev_involutive.
  - apply upto_None, index_of_None in E. simpl. by rewrite E.
Qed.

Lemma state_root_concrete h head : ok h ->
  state_root sha256 (concrete sha256 h) head =
  let? p := ok_or (upto head (h_log h)) UnknownHead in
  Ok (root_of sha256 (h_realm h) (h_epoch h) p).
Proof. intros H. unfold state_root. by rewrite chain_concrete. Qed.

Lemma checkpoint_of_upto realm epoch head log p :
  tip p = Some head -> upto head log = Some p ->
  cp_head (checkpoint_of sha256 realm epoch p) = head.
Proof. intros Ht _. simpl. by rewrite Ht. Qed.

(** A retained checkpoint is the checkpoint of a prefix. *)
Lemma validate_retained_iff h c : ok h ->
  validate_retained_checkpoint sha256 (concrete sha256 h) c = Ok tt <->
  exists p, upto (cp_head c) (h_log h) = Some p /\ c = checkpoint_of sha256 (h_realm h) (h_epoch h) p.
Proof.
  intros Hok. pose proof Hok as [Hl _ _]. unfold validate_retained_checkpoint.
  rewrite state_root_concrete, chain_concrete by done. cbn [concrete l_realm l_epoch].
  destruct c as [cr ce ch cs chh]. cbn [cp_realm cp_epoch cp_head cp_state_root cp_height].
  destruct (upto ch (h_log h)) as [p|] eqn:E; simpl.
  2: { split; [by destruct (_ || _)|naive_solver]. }
  pose proof E as E'. apply upto_Some in E' as [Ht _]; [|by eapply linear_nodup].
  split.
  - intros H. repeat (case_match; [done|]). bool_to_prop. unfold saturating_sub in *.
    exists p. split; [done|]. unfold checkpoint_of. rewrite Ht. simpl. by subst.
  - intros (p' & [= <-] & E2). unfold checkpoint_of in E2. rewrite Ht in E2. injection E2 as -> -> -> ->.
    unfold saturating_sub. rewrite !N.eqb_refl. simpl. by rewrite bool_decide_true.
Qed.

(** ** Refinement *)

Definition outcome (h : History) (r : res Error History) : res Error unit * Ledger :=
  match r with
  | Ok h' => (Ok tt, concrete sha256 h')
  | Err e => (Err e, concrete sha256 h)
  | Panic => (Panic, concrete sha256 h)
  end.

Lemma anchor_of_snoc h e : ok h ->
  anchor_of sha256 (mkHistory (h_realm h) (h_epoch h) (h_limit h) (h_log h ++ [e]) (h_anchor h)) =
  anchor_of sha256 h.
Proof.
  intros [_ _ Ha]. unfold anchor_of. simpl. destruct (h_anchor h) as [n|]; [|done]. simpl.
  rewrite take_app_le; [done|]. by apply Ha.
Qed.

Lemma append_refines h e : ok h ->
  append sha256 e (concrete sha256 h) = outcome h (spec_append sha256 e h).
Proof.
  intros Hok. pose proof Hok as [Hl _ _]. unfold append, spec_append, bind, get.
  rewrite event_count_concrete by done. cbn [concrete l_realm l_epoch l_events l_last_sequences l_head l_max_events].
  rewrite (sequences_of_replayed (sha256 := sha256) (realm := h_realm h) (epoch := h_epoch h)) by done.
  rewrite (bool_decide_ext (is_Some _) (ev_id e ∈ ev_id <$> h_log h)).
  2: { rewrite <- not_eq_None_Some, index_of_None. split; [|tauto]. apply dec_stable. }
  change (hash_event sha256 (ev_parent e) _ _ _ _ _) with (content_id sha256 e).
  repeat (case_match; [done|]). unfold modify, outcome, concrete. simpl.
  rewrite anchor_of_snoc by done. by rewrite index_of_snoc, sequences_of_snoc, tip_snoc.
Qed.

Lemma spec_append_Ok h h' e : spec_append sha256 e h = Ok h' <->
  admissible sha256 (h_realm h) (h_epoch h) (h_log h) e /\ len (h_log h) < h_limit h /\
  h' = mkHistory (h_realm h) (h_epoch h) (h_limit h) (h_log h ++ [e]) (h_anchor h).
Proof.
  assert (Hr : replayed (h_log h) e = false <->
    forall x, x ∈ h_log h -> ev_actor x = ev_actor e -> ev_sequence x < ev_sequence e).
  { rewrite <- not_true_iff_false. unfold replayed. rewrite existsb_exists. split.
    - intros H x Hx Ha. apply N.lt_nge. intros Hle. apply H. exists x.
      rewrite <- list_elem_of_In, andb_true_iff, N.eqb_eq, N.leb_le. done.
    - intros H (x & Hx & [Ha Hle]%andb_true_iff). rewrite <- list_elem_of_In in Hx.
      apply N.eqb_eq in Ha. apply N.leb_le in Hle. specialize (H x Hx Ha). lia. }
  unfold spec_append. split.
  - intros H. repeat (case_match; [done|]). injection H as <-. bool_to_prop.
    split; [|done]. split; try done. by apply Hr.
  - intros ([? ? ? ? ? ? ?] & ? & ->).
    rewrite (proj2 (N.ltb_ge _ _)), (proj2 (N.leb_gt _ _)) by done. subst.
    rewrite (proj2 (N.eqb_eq (ev_realm e) _)), (proj2 (N.eqb_eq (ev_epoch e) _)) by done.
    rewrite (bool_decide_true (ev_id e = _)), (bool_decide_false (_ ∈ _)), (bool_decide_true (ev_parent e = _)) by done.
    by rewrite (proj2 Hr).
Qed.

Lemma spec_append_ok h h' e : ok h -> spec_append sha256 e h = Ok h' -> ok h'.
Proof.
  intros [Hl Hlim Ha] (Hadm & Hcap & ->)%spec_append_Ok.
  split; simpl.
  - by constructor.
  - unfold len in *. rewrite length_app. simpl. lia.
  - intros n Hn. rewrite length_app. specialize (Ha n Hn). lia.
Qed.

Lemma upto_tip log head : NoDup (ev_id <$> log) -> tip log = Some head -> upto head log = Some log.
Proof. intros Hn Ht. apply upto_Some; [done|]. split; [done|]. exists []. by rewrite app_nil_r. Qed.

(** The tip's own checkpoint cannot conflict with an earlier one. *)
Lemma accept_refines h c : ok h ->
  accept_checkpoint sha256 c (concrete sha256 h) = outcome h (spec_accept sha256 c h).
Proof.
  intros Hok. pose proof Hok as [Hl _ Ha]. unfold accept_checkpoint, spec_accept, bind, get, lift.
  unfold validate_retained_checkpoint. rewrite state_root_concrete, chain_concrete by done.
  cbn [concrete l_realm l_epoch l_head l_checkpoint].
  destruct (negb (cp_realm c =? h_realm h) || negb (cp_epoch c =? h_epoch h)) eqn:Hctx; [done|].
  destruct (bool_decide (tip (h_log h) = Some (cp_head c))) eqn:Ht; [|done]. bool_to_prop.
  rewrite upto_tip by (by try eapply linear_nodup). simpl.
  destruct (bool_decide (_ = cp_state_root c)) eqn:Hroot; [|done].
  unfold saturating_sub. destruct (cp_height c =? len (h_log h) - 1) eqn:Hh; [|done]. bool_to_prop.
  assert (Hc : c = checkpoint_of sha256 (h_realm h) (h_epoch h) (h_log h)).
  { destruct c; unfold checkpoint_of; simpl in *. rewrite Ht. simpl. congruence. }
  assert (Hset : set_checkpoint (Some c) (concrete sha256 h) =
    concrete sha256 (mkHistory (h_realm h) (h_epoch h) (h_limit h) (h_log h) (Some (length (h_log h))))).
  { unfold set_checkpoint, concrete, anchor_of. simpl. by rewrite firstn_all, <- Hc. }
  simpl. unfold anchor_of. destruct (h_anchor h) as [n|] eqn:En; simpl; [|by unfold modify; rewrite Hset].
  destruct (Nat.eq_dec n (length (h_log h))) as [->|Hn].
  - rewrite firstn_all, <- Hc, bool_decide_true by done. unfold ret. rewrite <- Hset. f_equal.
    unfold set_checkpoint, concrete, anchor_of. rewrite En. simpl. by rewrite firstn_all, <- Hc.
  - specialize (Ha n eq_refl). destruct (bool_decide (_ = c)) eqn:E; bool_to_prop.
    + exfalso. apply (f_equal cp_height) in E. simpl in E. rewrite Hh in E. unfold len in E.
      rewrite length_take in E. lia.
    + rewrite (proj2 (N.leb_gt _ _)); [by unfold modify; rewrite Hset|].
      simpl. rewrite Hh. unfold len. rewrite length_take. lia.
Qed.

Lemma spec_accept_ok h h' c : ok h -> spec_accept sha256 c h = Ok h' -> ok h'.
Proof.
  intros [Hl Hlim Ha] H. unfold spec_accept in H. repeat (case_match; [done|]). injection H as <-.
  split; simpl; [done..|]. intros n [= <-]. split; [|lia].
  bool_to_prop. by destruct (h_log h); [|simpl; lia].
Qed.

Lemma spec_accept_Ok h h' c : spec_accept sha256 c h = Ok h' <->
  h_log h <> [] /\ c = checkpoint_of sha256 (h_realm h) (h_epoch h) (h_log h) /\ 
  h' = with_anchor h (Some (length (h_log h))).
Proof.
  unfold spec_accept, with_anchor. split.
  - intros H. repeat (case_match; [done|]). injection H as <-. bool_to_prop.
    enough (h_log h <> [] /\ c = checkpoint_of sha256 (h_realm h) (h_epoch h) (h_log h)) by tauto.
    destruct c as [cr ce ch cs chh]. simpl in *. split; [by intros E; rewrite E in *|].
    unfold checkpoint_of. match goal with H : tip _ = _ |- _ => rewrite H end. simpl. by subst.
  - intros (Hne & -> & ->). destruct (h_log h) as [|x log _] eqn:E using rev_ind; [done|].
    simpl. rewrite tip_snoc. simpl. by rewrite !N.eqb_refl, !bool_decide_true.
Qed.

(** An empty ledger stores the empty history. *)
Lemma concrete_new realm epoch max :
  ledger_new realm epoch max =
  concrete sha256 (mkHistory realm epoch (N.min max MAX_EVENTS) [] None).
Proof. done. Qed.

Lemma new_ok realm epoch max : ok (mkHistory realm epoch (N.min max MAX_EVENTS) [] None).
Proof. split; simpl; [constructor|unfold len; simpl; lia|done]. Qed.

(** A history is determined by the ledger that stores it. *)
Lemma concrete_log h h' : ok h -> ok h' -> concrete sha256 h = concrete sha256 h' -> h_log h = h_log h'.
Proof.
  intros H H' E. assert (Ht : tip (h_log h) = tip (h_log h')).
  { by apply (f_equal l_head) in E. }
  assert (Hc : forall i, chain (concrete sha256 h) i = chain (concrete sha256 h') i) by (by rewrite E).
  destruct (tip (h_log h)) as [i|] eqn:Ei.
  - specialize (Hc i). rewrite !chain_concrete in Hc by done.
    rewrite !upto_tip in Hc by (try done; eapply linear_nodup; by apply ok_linear).
    by injection Hc.
  - unfold tip in *. apply fmap_None, last_None in Ei. symmetry in Ht.
    apply fmap_None, last_None in Ht. by rewrite Ei, Ht.
Qed.
End Operations.
