(* ===== verification/Snapshot.v ===== *)
(** The snapshot of the event ledger (src/crates/vhalla-ledger/src/lib.rs):
    its encoding, the replaying [restore], and the relation between the bytes
    [restore] accepts and the histories of [History]. *)
From Stdlib Require Import Ascii String.
From stdpp Require Import gmap sorting.
From S2P Require Import Prelude Bytes OrderedMap EventLedger History.

Definition SNAPSHOT_DOMAIN : list N := bytes_of "vhalla/ledger/snapshot/v1".
Definition SNAPSHOT_VERSION : N := 1.
Definition MAX_SNAPSHOT_BYTES : N := 16 * 1024 * 1024.

(** ** Writing *)

Definition put_event (e : Event) : Writer -> Writer :=
  w_bytes (ev_id e) >> w_option w_bytes (ev_parent e) >> w_u128 (ev_realm e) >>
  w_u64 (ev_epoch e) >> w_u128 (ev_actor e) >> w_u64 (ev_sequence e) >>
  w_sized w_u32 (ev_payload e).

Definition put_checkpoint (c : Checkpoint) : Writer -> Writer :=
  w_u128 (cp_realm c) >> w_u64 (cp_epoch c) >> w_bytes (cp_head c) >>
  w_bytes (cp_state_root c) >> w_u64 (cp_height c).

Definition put_last (p : N * N) : Writer -> Writer := w_u128 p.1 >> w_u64 p.2.

Definition put_snapshot (realm epoch : N) (chain : list Event) (head : option (list N))
    (checkpoint : option Checkpoint) (last : list (N * N)) : Writer -> Writer :=
  w_bytes SNAPSHOT_DOMAIN >> w_u8 SNAPSHOT_VERSION >> w_u128 realm >> w_u64 epoch >>
  w_u32 (len chain) >> w_all put_event chain >> w_option w_bytes head >>
  w_option put_checkpoint checkpoint >> w_u32 (len last) >> w_all put_last last.

(** [self.head.and_then(|head| self.chain(head).ok()).unwrap_or_default()] *)
Definition retained (l : Ledger) : list Event :=
  match l_head l with
  | Some head => match chain l head with Ok events => events | _ => [] end
  | None => []
  end.

Definition snapshot (l : Ledger) : list N :=
  written (put_snapshot (l_realm l) (l_epoch l) (retained l) (l_head l) (l_checkpoint l)
    (entries (l_last_sequences l))).

(** ** Reading *)

Notation snap := (reads Error).

Definition sr_take (n : nat) : snap (list N) := r_slice n TruncatedSnapshot.
Definition sr_u8 : snap N := r_byte TruncatedSnapshot.
Definition sr_u32 : snap N := r_int 4 TruncatedSnapshot.
Definition sr_u64 : snap N := r_int 8 TruncatedSnapshot.
Definition sr_u128 : snap N := r_int 16 TruncatedSnapshot.
Definition sr_array32 : snap (list N) := sr_take 32.
Definition sr_option {A} (g : snap A) : snap (option A) :=
  r_tagged TruncatedSnapshot (fun _ => InvalidSnapshotBounds) g.

Definition get_event : snap Event :=
  let! id := sr_array32 in
  let! parent := sr_option sr_array32 in
  let! realm := sr_u128 in
  let! epoch := sr_u64 in
  let! actor := sr_u128 in
  let! sequence := sr_u64 in
  let! payload := r_sized sr_u32 MAX_PAYLOAD InvalidSnapshotBounds TruncatedSnapshot in
  ret (mkEvent id parent realm epoch actor sequence payload).

Definition get_checkpoint : snap Checkpoint :=
  let! realm := sr_u128 in
  let! epoch := sr_u64 in
  let! head := sr_array32 in
  let! state_root := sr_array32 in
  let! height := sr_u64 in
  ret (mkCheckpoint realm epoch head state_root height).

Definition get_last : snap (N * N) :=
  let! actor := sr_u128 in
  let! sequence := sr_u64 in
  ret (actor, sequence).

(** One turn of the loop over the encoded sequences: the previous actor and the
    map so far. *)
Definition insert_last (s : option N * gmap N N) (p : N * N) : res Error (option N * gmap N N) :=
  let '(previous, encoded) := s in
  let '(actor, sequence) := p in
  if match previous with Some previous => actor <=? previous | None => false end
  then Err NonCanonicalSnapshot
  else if bool_decide (is_Some (encoded !! actor)) then Err SnapshotSequenceMismatch
  else Ok (Some actor, <[actor := sequence]> encoded).

Section Restore.
Context (sha256 : list N -> list N).

(** [ledger.append(event)?] on the ledger being replayed. *)
Definition replay (l : Ledger) (e : Event) : res Error Ledger :=
  match append sha256 e l with
  | (Ok _, l') => Ok l'
  | (Err er, _) => Err er
  | (Panic, _) => Panic
  end.

Definition restore_checkpoint (l : Ledger) (checkpoint : option Checkpoint) : res Error Ledger :=
  match checkpoint with
  | None => Ok l
  | Some c => let? _ := validate_retained_checkpoint sha256 l c in Ok (set_checkpoint (Some c) l)
  end.

Definition restore_header : snap unit :=
  let! domain := sr_take (length SNAPSHOT_DOMAIN) in
  if negb (bool_decide (domain = SNAPSHOT_DOMAIN)) then throw InvalidSnapshotHeader
  else
    let! version := sr_u8 in
    if negb (version =? SNAPSHOT_VERSION) then throw InvalidSnapshotHeader else ret tt.

(** The replay, up to the encoded head. *)
Definition restore_log (max_events : N) : snap (N * Ledger) :=
  let! realm := sr_u128 in
  let! epoch := sr_u64 in
  let effective_max := N.min max_events MAX_EVENTS in
  let! event_count := sr_u32 in
  if (effective_max <? event_count) || (MAX_EVENTS <? event_count) then throw InvalidSnapshotBounds
  else
    let! ledger := r_fold (N.to_nat event_count) get_event replay
                     (ledger_new realm epoch effective_max) in
    let! encoded_head := sr_option sr_array32 in
    if negb (bool_decide (encoded_head = l_head ledger)) then throw UnknownHead
    else ret (event_count, ledger).

Definition restore_sequences (event_count : N) (ledger : Ledger) : snap unit :=
  let! sequence_count := sr_u32 in
  if (event_count <? sequence_count) || (MAX_EVENTS <? sequence_count)
  then throw InvalidSnapshotBounds
  else
    let! encoded := r_fold (N.to_nat sequence_count) get_last insert_last (None, ∅) in
    if negb (bool_decide (encoded.2 = l_last_sequences ledger)) then throw SnapshotSequenceMismatch
    else ret tt.

Definition restore_body (max_events : N) : snap Ledger :=
  do! restore_header in
  let! ' (event_count, ledger) := restore_log max_events in
  let! encoded_checkpoint := sr_option get_checkpoint in
  let! ledger := lift (restore_checkpoint ledger encoded_checkpoint) in
  do! restore_sequences event_count ledger in
  ret ledger.

Definition restore (raw : list N) (max_events : N) : res Error Ledger :=
  if MAX_SNAPSHOT_BYTES <? len raw then Err SnapshotTooLarge
  else
    fst ((let! ledger := restore_body max_events in
          let! r := get in
          if negb (pos r =? length (Bytes.raw r))%nat then throw TrailingSnapshot else ret ledger)
         (mkReader raw 0)).
End Restore.

(** ** Codecs *)

Definition event_wire (e : Event) : Prop :=
  hash_wire (ev_id e) /\ option_wf hash_wire (ev_parent e) /\ u 128 (ev_realm e) /\
  u 64 (ev_epoch e) /\ u 128 (ev_actor e) /\ u 64 (ev_sequence e) /\
  Forall byte (ev_payload e) /\ len (ev_payload e) <= MAX_PAYLOAD.

Definition checkpoint_wire (c : Checkpoint) : Prop :=
  u 128 (cp_realm c) /\ u 64 (cp_epoch c) /\ hash_wire (cp_head c) /\
  hash_wire (cp_state_root c) /\ u 64 (cp_height c).

Definition last_wire (p : N * N) : Prop := u 128 p.1 /\ u 64 p.2.

#[export] Instance codec_domain : Codec
  (fun l => Forall byte l /\ length l = length SNAPSHOT_DOMAIN) w_bytes
  (sr_take (length SNAPSHOT_DOMAIN)).
Proof. apply codec_slice. simpl. lia. Qed.
#[export] Instance codec_array32 : Codec hash_wire w_bytes sr_array32.
Proof. apply codec_slice. lia. Qed.
#[export] Instance codec_sr_option {A} {wf : A -> Prop} {put} {g : snap A} `{!Codec wf put g} :
  Codec (option_wf wf) (w_option put) (sr_option g).
Proof. apply codec_tagged. Qed.
#[export] Instance codec_payload : Codec (fun l => Forall byte l /\ len l <= MAX_PAYLOAD) (w_sized w_u32)
  (r_sized sr_u32 MAX_PAYLOAD InvalidSnapshotBounds TruncatedSnapshot).
Proof. by apply (codec_sized (w := 32)). Qed.

#[export] Instance codec_event : Codec event_wire put_event get_event.
Proof. unfold event_wire. codec_tac put_event get_event. all: naive_solver. Qed.
#[export] Instance codec_checkpoint : Codec checkpoint_wire put_checkpoint get_checkpoint.
Proof. unfold checkpoint_wire. codec_tac put_checkpoint get_checkpoint. Qed.
#[export] Instance codec_last : Codec last_wire put_last get_last.
Proof. unfold last_wire. codec_tac put_last get_last. Qed.

(** ** The parts of [restore] as relations *)

Lemma insert_last_fold ps o m :
  res_fold insert_last (None, ∅) ps = Ok (o, m) <->
  StronglySorted key_lt ps.*1 /\ m = list_to_map ps /\ o = last ps.*1.
Proof.
  revert o m. induction ps as [|[a s] ps IH] using rev_ind; intros o m.
  { simpl. split; [intros [= <- <-]; repeat constructor|by intros (_ & -> & ->)]. }
  rewrite res_fold_app, fmap_app. change ([(a, s)].*1) with [a]. rewrite last_snoc. simpl. rewrite res_bind_Ok.
  assert (Hnone : forall ks, StronglySorted key_lt (ks ++ [a]) -> a ∉ ks).
  { intros ks H%sorted_nodup Ha. apply NoDup_app in H as (_ & H & _). by apply (H a Ha), list_elem_of_here. }
  assert (Hmap : list_to_map (ps ++ [(a, s)]) = <[a := s]> (list_to_map ps : gmap N N) \/ ~ NoDup (ps ++ [(a,s)]).*1).
  { destruct (decide (NoDup (ps ++ [(a, s)]).*1)); [|by right]. left.
    rewrite (list_to_map_proper _ ((a, s) :: ps)); [done|done|]. by rewrite Permutation_app_comm. }
  split.
  - intros ([o1 m1] & (Hs & -> & ->)%IH & H). simpl in H.
    destruct (match last ps.*1 with Some _ => _ | None => _ end) eqn:El; [done|].
    case_match; [done|]. injection H as <- <-.
    assert (Hs' : StronglySorted key_lt (ps.*1 ++ [a])).
    { apply sorted_snoc. split; [done|]. intros x Hx. rewrite Hx in El. apply key_lt_N.
      by apply N.leb_gt in El. }
    split; [done|]. split; [|done]. destruct Hmap as [->|[]]; [done|].
    rewrite fmap_app. by apply sorted_nodup.
  - intros (Hs & -> & ->).
    pose proof (proj1 (sorted_snoc _ _) Hs) as [Hs0 Hl].
    exists (last ps.*1, list_to_map ps). split; [by apply IH|]. simpl.
    assert (match last ps.*1 with Some previous => a <=? previous | None => false end = false) as ->.
    { destruct (last ps.*1) as [x|] eqn:E; [|done]. apply N.leb_gt, key_lt_N. by apply Hl. }
    rewrite bool_decide_false.
    + destruct Hmap as [->|[]]; [done|]. rewrite fmap_app. by apply sorted_nodup.
    + apply eq_None_not_Some. apply not_elem_of_list_to_map_1. by apply Hnone.
Qed.

Section RestoreFacts.
Context (sha256 : list N -> list N).
Notation concrete := (concrete sha256).

Definition replayed_history (realm epoch max : N) (es : list Event) (a : option nat) : History :=
  mkHistory realm epoch (N.min max MAX_EVENTS) es a.

Lemma replayed_min realm epoch max es a :
  replayed_history realm epoch (N.min max MAX_EVENTS) es a = replayed_history realm epoch max es a.
Proof. unfold replayed_history. f_equal. lia. Qed.

(** Replaying events rebuilds the history they form, and nothing else. *)
Lemma replay_fold realm epoch max es l :
  res_fold (replay sha256) (ledger_new realm epoch max) es = Ok l <->
  history_ok sha256 (replayed_history realm epoch max es None) /\
  l = concrete (replayed_history realm epoch max es None).
Proof.
  revert l. induction es as [|e es IH] using rev_ind; intros l.
  { simpl. split; [intros [= <-]|by intros [_ ->]]. split; [apply new_ok|done]. }
  rewrite res_fold_app, res_bind_Ok. simpl. split.
  - intros (l1 & [Hok ->]%IH & H). unfold replay in H. rewrite append_refines in H by done.
    destruct (spec_append sha256 e _) as [h'|er|] eqn:E; simpl in H; [|done..]. injection H as <-.
    pose proof (spec_append_ok _ _ _ _ Hok E) as Hok'. apply spec_append_Ok in E as (_ & _ & ->). done.
  - intros [Hok ->].
    assert (Hok0 : history_ok sha256 (replayed_history realm epoch max es None) /\
      admissible sha256 realm epoch es e /\ len es < N.min max MAX_EVENTS).
    { destruct Hok as [[Hl Ha]%linear_inv Hlim _]. simpl in *. unfold len in *.
      rewrite length_app in Hlim. simpl in Hlim. split; [|split; [done|lia]].
      split; simpl; [done|unfold len; lia|done]. }
    destruct Hok0 as (Hok0 & Hadm & Hcap). eexists. split; [by apply IH|].
    unfold replay. rewrite append_refines by done.
    rewrite (proj2 (spec_append_Ok _ _ (replayed_history realm epoch max (es ++ [e]) None) _)); done.
Qed.

Definition header_rel (_ : unit) (W : list N) : Prop :=
  W = written (w_bytes SNAPSHOT_DOMAIN >> w_u8 SNAPSHOT_VERSION).

Definition log_rel (max : N) (p : N * Ledger) (W : list N) : Prop :=
  exists realm epoch es, u 128 realm /\ u 64 epoch /\ Forall event_wire es /\
    history_ok sha256 (replayed_history realm epoch max es None) /\
    option_wf hash_wire (tip es) /\
    p = (len es, concrete (replayed_history realm epoch max es None)) /\
    W = written (w_u128 realm >> w_u64 epoch >> w_u32 (len es) >> w_all put_event es >>
      w_option w_bytes (tip es)).

Definition sequences_rel (count : N) (l : Ledger) (_ : unit) (W : list N) : Prop :=
  let ps := entries (l_last_sequences l) in
  len ps <= count /\ len ps <= MAX_EVENTS /\ Forall last_wire ps /\
  W = written (w_u32 (len ps) >> w_all put_last ps).

Lemma parses_header : parses header_rel restore_header.
Proof.
  eapply parses_ext.
  - apply parses_bind; [apply (parses_codec (put := w_bytes))|]. intros d.
    apply parses_if; [apply parses_throw|].
    apply parses_bind; [apply (parses_codec (put := w_u8))|]. intros v.
    apply parses_if; [apply parses_throw|apply parses_ret].
  - intros [] W. unfold header_rel. written_norm. split.
    + intros (d & W1 & W2 & -> & [_ ->] & H). case_match; [done|].
      destruct H as (v & W3 & W4 & -> & [_ ->] & H). case_match; [done|].
      destruct H as [_ ->]. bool_to_prop. subst. by rewrite app_nil_r.
    + intros ->. exists SNAPSHOT_DOMAIN, SNAPSHOT_DOMAIN, [SNAPSHOT_VERSION].
      split; [done|]. split; [split; [|done]; split; [|done]; by apply (bool_decide_unpack _); vm_compute|].
      rewrite bool_decide_true by done. simpl. exists SNAPSHOT_VERSION, [SNAPSHOT_VERSION], []. done.
Qed.

Lemma tip_wire es : Forall event_wire es -> option_wf hash_wire (tip es).
Proof.
  intros H i (e & He & ->)%fmap_Some. apply last_Some_elem_of in He.
  by destruct (proj1 (Forall_forall _ _) H e He).
Qed.

Lemma parses_log max : parses (log_rel max) (restore_log sha256 max).
Proof.
  eapply parses_ext.
  - apply parses_bind; [apply (parses_codec (put := w_u128))|]. intros realm.
    apply parses_bind; [apply (parses_codec (put := w_u64))|]. intros epoch.
    apply parses_bind; [apply (parses_codec (put := w_u32))|]. intros n.
    apply parses_if; [apply parses_throw|].
    apply parses_bind; [apply parses_fold|]. intros l.
    apply parses_bind; [apply (parses_codec (put := w_option w_bytes))|]. intros head.
    apply parses_if; [apply parses_throw|apply parses_ret].
  - intros [n l] W. unfold log_rel. split.
    + intros (realm & W1 & W2 & -> & [Hrealm ->] & epoch & W3 & W4 & -> & [Hepoch ->] &
        n' & W5 & W6 & -> & [Hn ->] & H).
      case_match; [done|]. bool_to_prop.
      destruct H as (l' & W7 & W8 & -> & (es & Hlen & Hes & -> & Hfold) & head & W9 & W10 & -> & [Hhead ->] & H).
      case_match; [done|]. destruct H as [[= -> ->] ->]. bool_to_prop.
      apply replay_fold in Hfold as [Hok ->]. rewrite replayed_min in *.
      exists realm, epoch, es. cbn [concrete l_head] in *. subst head.
      assert (n' = len es) as -> by (unfold len; lia).
      split_and!; try done. written_norm. by rewrite app_nil_r.
    + intros (realm & epoch & es & Hrealm & Hepoch & Hes & Hok & Htip & [= -> ->] & ->). written_norm.
      pose proof Hok as [_ Hlim _]. simpl in Hlim.
      eexists realm, _, _. split; [done|]. split; [done|].
      eexists epoch, _, _. split; [done|]. split; [done|].
      eexists (len es), _, _. split; [done|]. split; [split; [unfold u; unfold MAX_EVENTS in *; lia|done]|].
      rewrite !(proj2 (N.ltb_ge _ _)) by lia. cbn [orb].
      eexists (concrete (replayed_history realm epoch max es None)), _, _. split; [done|]. split.
      * exists es. split; [unfold len; lia|]. split; [done|]. split; [done|]. apply replay_fold. by rewrite replayed_min.
      * exists (tip es), (written (w_option w_bytes (tip es))), []. rewrite app_nil_r. split; [done|].
        split; [done|]. by rewrite bool_decide_true.
Qed.

Lemma parses_sequences count l : parses (sequences_rel count l) (restore_sequences count l).
Proof.
  eapply parses_ext.
  - apply parses_bind; [apply (parses_codec (put := w_u32))|]. intros n.
    apply parses_if; [apply parses_throw|].
    apply parses_bind; [apply parses_fold|]. intros m.
    apply parses_if; [apply parses_throw|apply parses_ret].
  - intros [] W. unfold sequences_rel. cbv zeta. split.
    + intros (n & W1 & W2 & -> & [Hn ->] & H). case_match; [done|]. bool_to_prop.
      destruct H as ([o m] & W3 & W4 & -> & (ps & Hlen & Hps & -> & Hfold) & H).
      case_match; [done|]. destruct H as [_ ->]. bool_to_prop. simpl in *. subst m.
      apply insert_last_fold in Hfold as (Hs & Hm & _).
      assert (n = len ps) as -> by (unfold len; lia).
      rewrite <- (entries_unique ps (l_last_sequences l)) by done.
      split_and!; try done. written_norm. by rewrite app_nil_r.
    + intros (Hc & Hmax & Hps & ->). written_norm. set (ps := entries (l_last_sequences l)) in *.
      eexists (len ps), _, _. split; [done|]. split; [split; [unfold u; unfold MAX_EVENTS in *; lia|done]|].
      rewrite !(proj2 (N.ltb_ge _ _)) by lia. cbn [orb].
      exists (last ps.*1, l_last_sequences l), (written (w_all put_last ps)), []. rewrite app_nil_r.
      split; [done|]. split.
      * exists ps. split; [unfold len; lia|]. split; [done|]. split; [done|].
        apply insert_last_fold. split; [apply entries_sorted|]. split; [symmetry; apply entries_map|done].
      * by rewrite bool_decide_true.
Qed.

Lemma restore_checkpoint_iff h c l :
  history_ok sha256 (with_anchor h None) ->
  restore_checkpoint sha256 (concrete (with_anchor h None)) c = Ok l <->
  exists a, history_ok sha256 (with_anchor h a) /\ l = concrete (with_anchor h a) /\
    c = anchor_of sha256 (with_anchor h a).
Proof.
  intros Hok. pose proof Hok as [Hl Hlim _]. simpl in *.
  assert (Ha : forall n, (0 < n <= length (h_log h))%nat -> history_ok sha256 (with_anchor h (Some n))).
  { intros n Hn. split; simpl; [done..|]. by intros m [= <-]. }
  destruct c as [c|]; simpl.
  - rewrite res_bind_Ok. split.
    + intros ([] & (p & Hp & ->)%validate_retained_iff & [= <-]); [|done]. simpl in Hp.
      apply upto_Some in Hp as [Ht (q & Hq)]; [|by eapply linear_nodup].
      exists (Some (length p)). split.
      * apply Ha. rewrite Hq, length_app. destruct p; [done|simpl; lia].
      * unfold anchor_of. simpl. rewrite Hq, take_app_length. split; [|done].
        unfold set_checkpoint, History.concrete, anchor_of. simpl. by rewrite Hq, take_app_length.
    + intros (a & Hoka & -> & E). destruct a as [n|]; [|done]. exists tt. split.
      * apply validate_retained_iff; [done|]. unfold anchor_of in E. simpl in E. injection E as ->.
        pose proof (ok_anchor _ _ Hoka n eq_refl) as Hn. simpl in Hn.
        exists (take n (h_log h)). split; [|done]. apply upto_Some; [by eapply linear_nodup|].
        split; [|by exists (drop n (h_log h)); rewrite take_drop].
        simpl. destruct (tip (take n (h_log h))) eqn:Et; [done|]. exfalso.
        apply fmap_None, last_None, (f_equal length) in Et. rewrite length_take in Et. simpl in Et. lia.
      * rewrite E. done.
  - split.
    + intros [= <-]. by exists None.
    + intros ([n|] & _ & -> & E); [done|done].
Qed.

Lemma retained_concrete h : history_ok sha256 h -> retained (concrete h) = h_log h.
Proof.
  intros Hok. unfold retained. cbn [concrete l_head]. destruct (tip (h_log h)) as [i|] eqn:E.
  - rewrite chain_concrete by done. rewrite upto_tip; [done| |done].
    eapply linear_nodup. apply Hok.
  - unfold tip in E. apply fmap_None, last_None in E. done.
Qed.

Lemma snapshot_concrete h : history_ok sha256 h ->
  snapshot (concrete h) = written (put_snapshot (h_realm h) (h_epoch h) (h_log h) (tip (h_log h))
    (anchor_of sha256 h) (entries (sequences_of (h_log h)))).
Proof. intros Hok. unfold snapshot. by rewrite retained_concrete. Qed.

(** ** The values of a history fit their wire types *)

Record history_wire (h : History) : Prop := {
  hw_realm : u 128 (h_realm h);
  hw_epoch : u 64 (h_epoch h);
  hw_log : Forall event_wire (h_log h);
}.

Lemma size_sequences_of log : len (entries (sequences_of log)) <= len log.
Proof.
  unfold len. rewrite length_entries. induction log as [|e log IH] using rev_ind; [done|].
  rewrite sequences_of_snoc, length_app. simpl.
  destruct (sequences_of log !! ev_actor e) as [s|] eqn:E.
  - rewrite map_size_insert_Some by (by rewrite E). lia.
  - rewrite map_size_insert_None by done. lia.
Qed.

Lemma sequences_wire realm epoch log : linear sha256 realm epoch log -> Forall event_wire log ->
  Forall last_wire (entries (sequences_of log)).
Proof.
  intros Hl Hw. apply Forall_forall. intros [a s] E%elem_of_entries.
  pose proof (sequences_of_spec log a Hl) as H. rewrite E in H.
  destruct H as [_ (x & Hx & <- & <-)].
  destruct (proj1 (Forall_forall _ _) Hw x Hx) as (_ & _ & _ & _ & ? & ? & _). by split.
Qed.

Context `{!Sha256 sha256}.

Lemma anchor_wire h : history_ok sha256 h -> history_wire h ->
  option_wf checkpoint_wire (anchor_of sha256 h).
Proof.
  intros [Hl Hlim Ha] [Hr He Hw] c. unfold anchor_of. intros (n & Hn & ->)%fmap_Some.
  specialize (Ha n Hn). unfold checkpoint_wire, checkpoint_of. simpl.
  assert (Ht : option_wf hash_wire (tip (take n (h_log h)))) by (by apply tip_wire, Forall_take).
  destruct (tip (take n (h_log h))) as [i|] eqn:E.
  - split_and!; [done|done|by apply Ht|unfold root_of; apply sha256_wire|].
    unfold u, len, MAX_EVENTS in *. rewrite length_take. lia.
  - exfalso. apply fmap_None, last_None, (f_equal length) in E. rewrite length_take in E. simpl in E. lia.
Qed.

(** ** Restoring *)

Definition body_rel (max : N) (l : Ledger) (W : list N) : Prop :=
  exists h, history_ok sha256 h /\ history_wire h /\ h_limit h = N.min max MAX_EVENTS /\
    l = concrete h /\ W = snapshot l.

Lemma parses_body max : parses (body_rel max) (restore_body sha256 max).
Proof.
  eapply parses_ext.
  - apply parses_bind; [apply parses_header|]. intros ?.
    apply parses_bind with (Q := fun p l W => exists c W1 W2, W = W1 ++ W2 /\
      (option_wf checkpoint_wire c /\ W1 = written (w_option put_checkpoint c)) /\
      exists l' W3 W4, W2 = W3 ++ W4 /\ (restore_checkpoint sha256 p.2 c = Ok l' /\ W3 = []) /\
      exists v W5 W6, W4 = W5 ++ W6 /\ sequences_rel p.1 l' v W5 /\ (l = l' /\ W6 = []));
      [apply parses_log|]. intros [n l].
    apply parses_bind; [apply (parses_codec (put := w_option put_checkpoint))|]. intros c.
    apply parses_bind; [apply parses_lift|]. intros l'.
    apply parses_bind; [apply parses_sequences|]. intros ?. apply parses_ret.
  - intros l W. unfold body_rel. split.
    + intros ([] & W1 & W2 & -> & -> & [n l0] & W3 & W4 & -> & Hlog & c & W5 & W6 & -> & [Hc ->] &
        l' & W7 & W8 & -> & [Hcp ->] & [] & W9 & W10 & -> & Hseq & -> & ->).
      destruct Hlog as (realm & epoch & es & Hr & He & Hes & Hok & _ & [= -> ->] & ->). simpl in *.
      apply (restore_checkpoint_iff (replayed_history realm epoch max es None)) in Hcp
        as (a & Hoka & -> & ->); [|done].
      eexists. split; [exact Hoka|]. split; [by split|]. split; [done|]. split; [done|].
      destruct Hseq as (_ & _ & _ & ->). rewrite snapshot_concrete by done.
      unfold put_snapshot. written_norm. rewrite app_nil_r. done.
    + intros (h & Hok & Hw & Hlim & -> & ->). rewrite snapshot_concrete by done.
      unfold put_snapshot. written_norm. pose proof Hok as [Hl Hb Ha]. pose proof Hw as [Hr He Hes].
      assert (Hok0 : history_ok sha256 (with_anchor h None)) by (split; simpl; done).
      assert (E0 : with_anchor h None = replayed_history (h_realm h) (h_epoch h) max (h_log h) None).
      { unfold with_anchor, replayed_history. by rewrite Hlim. }
      exists tt. eexists _, _. split; [|split; [done|]]; [written_norm; reflexivity|].
      eexists (len (h_log h), concrete (with_anchor h None)), _, _. split; [|split].
      2: { exists (h_realm h), (h_epoch h), (h_log h). split_and!; try done.
        - by rewrite <- E0. - by apply tip_wire. - by rewrite E0. }
      { written_norm. reflexivity. }
      eexists (anchor_of sha256 h), _, _. split; [done|]. split; [split; [by apply anchor_wire|done]|].
      exists (concrete h), []. eexists. split; [done|]. split; [split; [|done]|].
      { apply (restore_checkpoint_iff h); [done|]. exists (h_anchor h). by destruct h. }
      exists tt. eexists _, []. rewrite app_nil_r. split; [done|]. split; [|done].
      unfold sequences_rel. cbn [concrete l_last_sequences fst]. cbv zeta.
      pose proof (size_sequences_of (h_log h)). split_and!; [done|lia|by eapply sequences_wire|].
      by written_norm.
Qed.

Lemma body_safe max : Safe (restore_body sha256 max).
Proof.
  unfold restore_body. eapply safe_parses; [apply parses_header| |intros _].
  { apply safe_bind. intros d. case_match; [apply _|]. apply safe_bind. intros v. case_match; apply _. }
  eapply safe_parses; [apply parses_log| |intros [n l]].
  { unfold restore_log. repeat (apply safe_bind; intros ?). case_match; [apply _|].
    eapply safe_parses; [apply parses_fold| |intros l].
    - apply safe_fold. intros l e. unfold replay. pose proof (append_no_panic sha256 e l).
      by destruct (append sha256 e l) as [[]].
    - apply safe_bind. intros o. case_match; apply _. }
  apply safe_bind. intros c. eapply safe_parses; [apply parses_lift| |intros l'].
  { apply safe_lift. destruct c as [c|]; [|done]. simpl. pose proof (validate_no_panic sha256 l c).
    by destruct (validate_retained_checkpoint sha256 l c). }
  eapply safe_parses; [apply parses_sequences| |intros _; apply _].
  unfold restore_sequences. apply safe_bind. intros m. case_match; [apply _|].
  eapply safe_parses; [apply parses_fold| |intros s; case_match; apply _].
  apply safe_fold. intros [o k] [a b]. simpl. by repeat case_match.
Qed.

(** ** The size of a snapshot *)

Lemma length_bind_le {A} (f : A -> list N) c l :
  (forall x, x ∈ l -> (length (f x) <= c)%nat) -> (length (l ≫= f) <= c * length l)%nat.
Proof.
  induction l as [|x l IH]; intros H; csimpl; [lia|]. rewrite length_app.
  specialize (IH (fun y Hy => H y (list_elem_of_further _ _ _ Hy))).
  specialize (H x (list_elem_of_here _ _)). lia.
Qed.

Lemma length_w_hash o : option_wf hash_wire o -> (length (written (w_option w_bytes o)) <= 33)%nat.
Proof. destruct o as [i|]; intros H; cbn; [|lia]. destruct (H i eq_refl) as [_ ->]. lia. Qed.

Lemma length_put_event e : event_wire e -> (length (written (put_event e)) <= 1141)%nat.
Proof.
  intros ([_ Hi] & Hp%length_w_hash & _ & _ & _ & _ & _ & Hlen). unfold put_event, w_sized. split_written.
  rewrite !length_app. autorewrite with written_length. rewrite Hi.
  unfold len, MAX_PAYLOAD in Hlen. lia.
Qed.

Lemma snapshot_length h : history_ok sha256 h -> history_wire h ->
  len (snapshot (concrete h)) <= 4801400.
Proof.
  intros Hok Hw. rewrite snapshot_concrete by done. pose proof Hok as [Hl Hlim _].
  pose proof Hw as [_ _ Hes]. unfold put_snapshot. split_written. unfold len. rewrite !length_app.
  rewrite !written_all by apply _.
  pose proof (length_bind_le (fun e => written (put_event e)) 1141 (h_log h)
    (fun e He => length_put_event e (proj1 (Forall_forall _ _) Hes e He))) as H1.
  pose proof (length_bind_le (fun p => written (put_last p)) 24 (entries (sequences_of (h_log h)))
    (fun p _ => Nat.le_refl 24)) as H2.
  pose proof (size_sequences_of (h_log h)) as H3. pose proof (length_w_hash _ (tip_wire _ Hes)) as H4.
  assert (H5 : (length (written (w_option put_checkpoint (anchor_of sha256 h))) <= 97)%nat).
  { pose proof (anchor_wire h Hok Hw) as Hc. destruct (anchor_of sha256 h) as [c|]; cbn [w_option].
    - destruct (Hc c eq_refl) as (_ & _ & [_ Hh] & [_ Hr] & _). unfold put_checkpoint. split_written.
      rewrite !length_app. autorewrite with written_length. rewrite Hh, Hr. lia.
    - cbn. lia. }
  unfold len, MAX_EVENTS in *.
  change (length (written (w_bytes SNAPSHOT_DOMAIN))) with 25%nat.
  autorewrite with written_length. lia.
Qed.

(** [restore] accepts exactly the snapshots of histories. *)
Lemma restore_spec raw max l : Forall byte raw ->
  restore sha256 raw max = Ok l <-> body_rel max l raw.
Proof.
  intros Hb. unfold restore. destruct (N.ltb_spec MAX_SNAPSHOT_BYTES (len raw)) as [Hl|Hl].
  { split; [done|]. intros (h & Hok & Hw & _ & -> & ->). pose proof (snapshot_length h Hok Hw).
    unfold MAX_SNAPSHOT_BYTES in Hl. lia. }
  set (r := mkReader raw 0). assert (Hr : reader_ok r) by done. unfold bind at 1.
  split.
  - destruct (restore_body sha256 max r) as [[l'|e|] r'] eqn:E; simpl; [|done..].
    apply (parses_body max r) in E as (W & k & HW & Ek & ->); [|done]. unfold bind, get. simpl.
    case_match eqn:Epos; [done|]. intros [= ->]. apply negb_false_iff, Nat.eqb_eq in Epos.
    unfold rest in Ek. simpl in *. rewrite drop_0 in Ek. subst raw.
    rewrite length_app in Epos. destruct k; [|simpl in Epos; lia]. by rewrite app_nil_r.
  - intros HW. rewrite (proj2 (parses_body max r l (advance raw r) Hr)).
    + unfold bind, get. simpl. by rewrite Nat.eqb_refl.
    + exists raw, []. split; [done|]. split; [|done]. by rewrite app_nil_r.
Qed.

Lemma restore_no_panic raw max : Forall byte raw -> restore sha256 raw max <> Panic.
Proof.
  intros Hb. unfold restore. case_match; [done|].
  assert (H1 : Safe (let! ledger := restore_body sha256 max in let! r := get in
    if negb (pos r =? length (Bytes.raw r))%nat then throw TrailingSnapshot else ret ledger)).
  { eapply safe_parses; [apply parses_body|apply body_safe|]. intros l r _.
    unfold bind, get. by case_match. }
  by apply H1.
Qed.
End RestoreFacts.
