(* ===== verification/LedgerClaims.v ===== *)
(** Properties of the event ledger of [EventLedger] and [Snapshot]. *)
From stdpp Require Import gmap.
From S2P Require Import Prelude Bytes PrefixFree OrderedMap EventLedger History Snapshot.

(** ** Runs of the live operations *)

Inductive Operation : Type :=
| OpAppend (e : Event)
| OpAccept (c : Checkpoint).

Section Runs.
Context (sha256 : list N -> list N).

Definition operate (o : Operation) : eff Ledger Error unit :=
  match o with
  | OpAppend e => append sha256 e
  | OpAccept c => accept_checkpoint sha256 c
  end.

Definition spec_operate (o : Operation) (h : History) : res Error History :=
  match o with
  | OpAppend e => spec_append sha256 e h
  | OpAccept c => spec_accept sha256 c h
  end.

(** The answers to a sequence of calls, and the ledger they leave. *)
Fixpoint run_operations (ops : list Operation) (l : Ledger) : list (res Error unit) * Ledger :=
  match ops with
  | [] => ([], l)
  | o :: ops =>
      let '(r, l) := operate o l in
      let '(rs, l) := run_operations ops l in (r :: rs, l)
  end.

Fixpoint spec_run (ops : list Operation) (h : History) : list (res Error unit) * History :=
  match ops with
  | [] => ([], h)
  | o :: ops =>
      let '(r, h) := match spec_operate o h with
                     | Ok h' => (Ok tt, h')
                     | Err e => (Err e, h)
                     | Panic => (Panic, h)
                     end in
      let '(rs, h) := spec_run ops h in (r :: rs, h)
  end.

(** Everything the code can do to a ledger it made. *)
Inductive reachable : Ledger -> Prop :=
| reach_new realm epoch max : reachable (ledger_new realm epoch max)
| reach_operate l o : reachable l -> reachable (snd (operate o l))
| reach_restore raw max l : Forall byte raw -> restore sha256 raw max = Ok l -> reachable l.

Lemma operate_refines o h : history_ok sha256 h ->
  operate o (concrete sha256 h) = outcome sha256 h (spec_operate o h).
Proof. destruct o; [apply append_refines|apply accept_refines]. Qed.

Lemma spec_operate_ok o h h' : history_ok sha256 h -> spec_operate o h = Ok h' -> history_ok sha256 h'.
Proof. destruct o; [apply spec_append_ok|apply spec_accept_ok]. Qed.

Lemma run_refines ops h : history_ok sha256 h ->
  fst (run_operations ops (concrete sha256 h)) = fst (spec_run ops h) /\
  snd (run_operations ops (concrete sha256 h)) = concrete sha256 (snd (spec_run ops h)) /\
  history_ok sha256 (snd (spec_run ops h)).
Proof.
  revert h. induction ops as [|o ops IH]; intros h Hok; [done|]. cbn [run_operations spec_run].
  rewrite operate_refines by done. pose proof (spec_operate_ok o h) as Hs.
  destruct (spec_operate o h) as [h'|e|]; cbn [outcome].
  all: match goal with |- context [run_operations _ (concrete _ ?x)] =>
    assert (Hx : history_ok sha256 x) by (first [by apply Hs|done]);
    destruct (IH x Hx) as (E1 & E2 & E3) end.
  all: destruct (run_operations ops _), (spec_run ops _); simpl in *; by subst.
Qed.

Lemma reachable_run ops l : reachable l -> reachable (snd (run_operations ops l)).
Proof.
  revert l. induction ops as [|o ops IH]; intros l Hl; [done|]. cbn [run_operations].
  pose proof (reach_operate l o Hl) as Ho. destruct (operate o l) as [r l'].
  specialize (IH l' Ho). by destruct (run_operations ops l').
Qed.

Lemma reachable_history l : Sha256 sha256 -> reachable l ->
  exists h, history_ok sha256 h /\ l = concrete sha256 h.
Proof.
  intros Hsha. induction 1 as [realm epoch max|l o _ (h & Hok & ->)|raw max l Hb Hr].
  - eexists. split; [apply new_ok|done].
  - rewrite operate_refines by done. pose proof (spec_operate_ok o h) as Hs.
    destruct (spec_operate o h); simpl; eauto.
  - apply restore_spec in Hr as (h & Hok & _ & _ & -> & _); eauto.
Qed.
End Runs.

(** ** Roots *)

Section Binding.
Context (sha256 : list N -> list N) `{!Sha256 sha256}.

Definition history_bytes (e : Event) : list N :=
  event_preimage (ev_parent e) (ev_realm e) (ev_epoch e) (ev_actor e) (ev_sequence e) (ev_payload e).

(** Everything hashed to derive the root of [log]. *)
Definition hashed (realm epoch : N) (log : list Event) : list (list N) :=
  root_preimage realm epoch log :: (history_bytes <$> log).

Lemma transcript_inj e1 e2 : event_wire e1 -> event_wire e2 -> ev_id e1 = ev_id e2 ->
  history_bytes e1 = history_bytes e2 -> e1 = e2.
Proof.
  intros (_ & Hp1 & ? & ? & ? & ? & Hb1 & Hl1) (_ & Hp2 & ? & ? & ? & ? & Hb2 & Hl2) Hid E.
  assert (Hs1 : u 64 (len (ev_payload e1))) by (unfold u, MAX_PAYLOAD in *; lia).
  assert (Hs2 : u 64 (len (ev_payload e2))) by (unfold u, MAX_PAYLOAD in *; lia).
  unfold history_bytes, event_preimage in E. apply (f_equal (fun W => W ++ [])) in E.
  rewrite !(written_seq (w_bytes EVENT_DOMAIN)), <- !app_assoc in E by apply _.
  apply app_inv_head in E. peel E. destruct e1, e2. simpl in *. congruence.
Qed.

Lemma written_ids log :
  written (w_all (fun e => w_bytes (ev_id e)) log) = written (w_all w_bytes (ev_id <$> log)).
Proof. rewrite !written_all by apply _. induction log as [|e log IH]; csimpl; [done|]. by rewrite IH. Qed.

Lemma ids_wire log : Forall event_wire log -> Forall hash_wire (ev_id <$> log).
Proof. intros H. apply Forall_fmap. eapply Forall_impl; [exact H|]. by intros e []. Qed.

Lemma root_preimage_inj realm1 epoch1 log1 realm2 epoch2 log2 :
  u 128 realm1 -> u 64 epoch1 -> u 64 (len log1) -> Forall event_wire log1 ->
  u 128 realm2 -> u 64 epoch2 -> u 64 (len log2) -> Forall event_wire log2 ->
  root_preimage realm1 epoch1 log1 = root_preimage realm2 epoch2 log2 ->
  realm1 = realm2 /\ epoch1 = epoch2 /\ ev_id <$> log1 = ev_id <$> log2.
Proof.
  intros ? ? ? H1 ? ? ? H2 E. unfold root_preimage in E. apply (f_equal (fun W => W ++ [])) in E.
  rewrite !(written_seq (w_bytes ROOT_DOMAIN)), <- !app_assoc in E by apply _.
  apply app_inv_head in E. rewrite !(written_seq (w_u128 _)), !(written_seq (w_u64 _)) in E by apply _.
  rewrite !written_ids, <- !app_assoc in E.
  do 3 (apply pf_inj in E as [? E]; [|done..]).
  apply pf_all in E as [? _]; [done| |by apply ids_wire..].
  rewrite !length_fmap. unfold len in *. lia.
Qed.

(** Equal roots are roots of one history, unless the hash collides on it. *)
Lemma root_binds realm1 epoch1 log1 realm2 epoch2 log2 :
  u 128 realm1 -> u 64 epoch1 -> len log1 <= MAX_EVENTS -> Forall event_wire log1 ->
  u 128 realm2 -> u 64 epoch2 -> len log2 <= MAX_EVENTS -> Forall event_wire log2 ->
  linear sha256 realm1 epoch1 log1 -> linear sha256 realm2 epoch2 log2 ->
  (forall x y, x ∈ hashed realm1 epoch1 log1 -> y ∈ hashed realm2 epoch2 log2 ->
    sha256 x = sha256 y -> x = y) ->
  root_of sha256 realm1 epoch1 log1 = root_of sha256 realm2 epoch2 log2 ->
  realm1 = realm2 /\ epoch1 = epoch2 /\ log1 = log2.
Proof.
  intros ? ? ? H1 ? ? ? H2 L1 L2 Hcoll E. apply Hcoll in E; [|left..].
  assert (Hu : forall log : list Event, len log <= MAX_EVENTS -> u 64 (len log)).
  { intros log Hl. unfold u, MAX_EVENTS in *. lia. }
  apply root_preimage_inj in E as (-> & -> & Hids); auto.
  split; [done|]. split; [done|].
  assert (Hc : forall x y, x ∈ log1 -> y ∈ log2 -> ev_id x = ev_id y -> x = y).
  { intros x y Hx Hy Hid. apply transcript_inj; [exact (proj1 (Forall_forall _ _) H1 x Hx)|
      exact (proj1 (Forall_forall _ _) H2 y Hy)|done|].
    apply Hcoll; [right; by apply list_elem_of_fmap_2|right; by apply list_elem_of_fmap_2|].
    pose proof (proj1 (linear_event _ _ L1 Hx)) as Ex. pose proof (proj1 (linear_event _ _ L2 Hy)) as Ey.
    rewrite Ex, Ey in Hid. exact Hid. }
  clear -Hids Hc. revert log2 Hids Hc. induction log1 as [|x log1 IH]; intros [|y log2] Hids Hc; try done.
  csimpl in Hids. injection Hids as Hid Hids. f_equal.
  - apply Hc; [left|left|done].
  - apply IH; [done|]. intros a b Ha Hb. apply Hc; by right.
Qed.
End Binding.

(** ** A ledger of two events, the first of them checkpointed *)

Definition ex_first : Event := event_new poly_hash None 7 1 3 1 [10; 20].
Definition ex_second : Event := event_new poly_hash (Some (ev_id ex_first)) 7 1 4 1 [].
Definition ex_anchor : Checkpoint :=
  mkCheckpoint 7 1 (ev_id ex_first) (root_of poly_hash 7 1 [ex_first]) 0.
Definition ex_operations : list Operation :=
  [OpAppend ex_first; OpAccept ex_anchor; OpAppend ex_first; OpAppend ex_second].
Definition ex_history : History := mkHistory 7 1 8 [ex_first; ex_second] (Some 1%nat).

Example ex_run :
  spec_run poly_hash ex_operations (mkHistory 7 1 8 [] None) =
  ([Ok tt; Ok tt; Err DuplicateEvent; Ok tt], ex_history).
Proof. vm_compute. reflexivity. Qed.

Lemma ex_history_ok : history_ok poly_hash ex_history.
Proof.
  change ex_history with (snd ([Ok tt; Ok tt; Err DuplicateEvent; Ok tt] : list (res Error unit), ex_history)).
  rewrite <- ex_run. apply (run_refines poly_hash ex_operations). apply (new_ok poly_hash 7 1 8).
Qed.

Lemma event_new_wire sha256 `{!Sha256 sha256} parent realm epoch actor sequence payload :
  option_wf hash_wire parent -> u 128 realm -> u 64 epoch -> u 128 actor -> u 64 sequence ->
  Forall byte payload -> len payload <= MAX_PAYLOAD ->
  event_wire (event_new sha256 parent realm epoch actor sequence payload).
Proof. intros. split; [apply (sha256_wire (sha256 := sha256))|]. by split_and!. Qed.

Lemma ex_history_wire : history_wire ex_history.
Proof.
  split; [reflexivity..|]. constructor; [|constructor; [|constructor]].
  - apply (event_new_wire poly_hash); [by intros ?|reflexivity..| |done].
    apply (bool_decide_unpack _). vm_compute. exact I.
  - apply (event_new_wire poly_hash); [|reflexivity..|constructor|done].
    intros i E. injection E as <-. apply (sha256_wire (sha256 := poly_hash)).
Qed.

Lemma ex_reachable : reachable poly_hash (concrete poly_hash ex_history).
Proof.
  pose proof (run_refines poly_hash ex_operations _ (new_ok poly_hash 7 1 8)) as (_ & E & _).
  change (mkHistory 7 1 (N.min 8 MAX_EVENTS) [] None) with (mkHistory 7 1 8 [] None) in E.
  rewrite ex_run in E. cbn [snd] in E. rewrite <- E. apply reachable_run. apply (reach_new _ 7 1 8).
Qed.

(** ** The properties *)

(** C31. The event ledger refines its specification: on any sequence of appends
    and checkpoints, from an empty ledger, it gives the answers of the history
    machine, error for error, and holds exactly the maps, the head and the
    checkpoint of that history, which stays linear and within its bound. *)
Theorem ledger_refinement sha256 realm epoch max ops :
  let h := mkHistory realm epoch (N.min max MAX_EVENTS) [] None in
  run_operations sha256 ops (ledger_new realm epoch max) =
    (fst (spec_run sha256 ops h), concrete sha256 (snd (spec_run sha256 ops h))) /\
  history_ok sha256 (snd (spec_run sha256 ops h)).
Proof.
  cbv zeta. pose proof (new_ok sha256 realm epoch max) as Hok.
  destruct (run_refines sha256 ops _ Hok) as (E1 & E2 & E3). split; [|done].
  rewrite <- E1, <- E2. rewrite (concrete_new sha256). by destruct (run_operations _ _ _).
Qed.

(** Every reachable ledger, restored ones included, is one linear history:
    its map holds the events of a chain in which each event is addressed by the
    hash of its content, names the previous one as its parent and exceeds the
    earlier sequences of its author; the head, the last sequences and the
    ancestor walk are those of the chain, it is within the bound, and the
    accepted checkpoint is the derived one of a non-empty prefix. *)
Theorem reachable_ledger_linear sha256 (Hsha : Sha256 sha256) l (H : reachable sha256 l) :
  exists log, linear sha256 (l_realm l) (l_epoch l) log /\
    l_events l = index_of log /\ l_head l = tip log /\ l_last_sequences l = sequences_of log /\
    (forall head, chain l head = ok_or (upto head log) UnknownHead) /\
    event_count l = len log /\ len log <= l_max_events l <= MAX_EVENTS /\
    (forall c, l_checkpoint l = Some c -> exists n, (0 < n <= length log)%nat /\
       c = checkpoint_of sha256 (l_realm l) (l_epoch l) (take n log)).
Proof.
  apply reachable_history in H as (h & Hok & ->); [|done]. exists (h_log h).
  pose proof Hok as [Hl Hlim Ha]. split_and!; try done.
  - intros head. by apply chain_concrete.
  - by apply event_count_concrete.
  - apply Hlim. - apply Hlim.
  - cbn [concrete l_checkpoint]. unfold anchor_of. intros c (n & Hn & ->)%fmap_Some. eauto.
Qed.

Lemma reachable_ledger_linear_witness :
  exists log, linear poly_hash 7 1 log /\
    l_events (concrete poly_hash ex_history) = index_of log.
Proof.
  destruct (reachable_ledger_linear poly_hash _ _ ex_reachable) as (log & Hl & He & _).
  exists log. split; [exact Hl|exact He].
Defined.

(** A reachable ledger accepts a checkpoint exactly when it is the one
    derived from its own tip: the tip's identifier, the root of the whole
    history and its height.  An honest checkpoint is never reported as
    conflicting, and the ledger then holds it. *)
Theorem accept_checkpoint_tip sha256 (Hsha : Sha256 sha256) l (H : reachable sha256 l) c :
  fst (accept_checkpoint sha256 c l) <> Err ConflictingCheckpoint /\
  (fst (accept_checkpoint sha256 c l) = Ok tt <->
   exists head root, l_head l = Some head /\ state_root sha256 l head = Ok root /\
     c = mkCheckpoint (l_realm l) (l_epoch l) head root (event_count l - 1)) /\
  (fst (accept_checkpoint sha256 c l) = Ok tt ->
   snd (accept_checkpoint sha256 c l) = set_checkpoint (Some c) l).
Proof.
  apply reachable_history in H as (h & Hok & ->); [|done]. pose proof Hok as [Hl _ _].
  rewrite accept_refines, event_count_concrete by done. split; [|split].
  - unfold spec_accept. by repeat case_match.
  - cbn [concrete l_head l_realm l_epoch].
    assert (Hroot : forall head, tip (h_log h) = Some head ->
      state_root sha256 (concrete sha256 h) head = Ok (root_of sha256 (h_realm h) (h_epoch h) (h_log h))).
    { intros head Ht. rewrite state_root_concrete by done.
      rewrite upto_tip; [done|by eapply linear_nodup|done]. }
    split.
    + destruct (spec_accept sha256 c h) as [h'|e|] eqn:E; [|done..]. intros _.
      apply spec_accept_Ok in E as (Hne & -> & _). unfold checkpoint_of.
      destruct (tip (h_log h)) as [head|] eqn:Et.
      * exists head, (root_of sha256 (h_realm h) (h_epoch h) (h_log h)). split; [done|]. split; [auto|done].
      * unfold tip in Et. by apply fmap_None, last_None in Et.
    + intros (head & root & Ht & Hr & ->). rewrite Hroot in Hr by done. injection Hr as <-.
      rewrite (proj2 (spec_accept_Ok sha256 h (with_anchor h (Some (length (h_log h)))) _)); [done|].
      split; [by intros E; rewrite E in Ht|]. split; [|done]. unfold checkpoint_of. by rewrite Ht.
  - destruct (spec_accept sha256 c h) as [h'|e|] eqn:E; [|done..]. intros _.
    apply spec_accept_Ok in E as (_ & -> & ->). simpl.
    unfold set_checkpoint, concrete, anchor_of. simpl. by rewrite firstn_all.
Qed.

Lemma accept_checkpoint_tip_witness :
  fst (accept_checkpoint poly_hash
    (checkpoint_of poly_hash 7 1 [ex_first; ex_second]) (concrete poly_hash ex_history)) = Ok tt /\
  fst (accept_checkpoint poly_hash ex_anchor (concrete poly_hash ex_history)) <>
    Err ConflictingCheckpoint.
Proof.
  split; [vm_compute; reflexivity|].
  exact (proj1 (accept_checkpoint_tip poly_hash _ _ ex_reachable ex_anchor)).
Defined.

(** C36. [restore] accepts exactly the snapshots: it returns a ledger from some
    bytes if and only if the ledger holds a well-formed history, under the
    caller's bound, and the bytes are its snapshot.  So a snapshot restores to
    the ledger it was taken from, no second encoding of a ledger is accepted,
    and no snapshot is over the limit of the format. *)
Theorem restore_accepts_snapshots sha256 (Hsha : Sha256 sha256) raw max l (H : Forall byte raw) :
  (restore sha256 raw max = Ok l <->
   exists h, history_ok sha256 h /\ history_wire h /\ h_limit h = N.min max MAX_EVENTS /\
     l = concrete sha256 h /\ raw = snapshot l) /\
  (forall h, history_ok sha256 h -> history_wire h ->
     len (snapshot (concrete sha256 h)) <= MAX_SNAPSHOT_BYTES) /\
  restore sha256 raw max <> Panic.
Proof.
  split; [by apply restore_spec|]. split; [|by apply restore_no_panic].
  intros h Hok Hw. etrans; [by apply snapshot_length|]. done.
Qed.

Lemma restore_accepts_snapshots_witness :
  restore poly_hash (snapshot (concrete poly_hash ex_history)) 8 = Ok (concrete poly_hash ex_history).
Proof.
  apply (restore_accepts_snapshots poly_hash _ (snapshot (concrete poly_hash ex_history)) 8
    (concrete poly_hash ex_history)).
  - apply (bool_decide_unpack _). vm_compute. exact I.
  - exists ex_history. split; [exact ex_history_ok|]. split; [exact ex_history_wire|].
    split; [reflexivity|]. split; reflexivity.
Defined.

(** A state root commits to the whole history: two retained events with the
    same root end the same sequence of events in the same realm and epoch,
    unless the hash collides on what was hashed for the two histories. *)
Theorem state_root_binds sha256 (Hsha : Sha256 sha256) h1 h2 i j p1 p2 root :
  history_ok sha256 h1 -> history_wire h1 -> history_ok sha256 h2 -> history_wire h2 ->
  upto i (h_log h1) = Some p1 -> upto j (h_log h2) = Some p2 ->
  (forall x y, x ∈ hashed (h_realm h1) (h_epoch h1) p1 -> y ∈ hashed (h_realm h2) (h_epoch h2) p2 ->
    sha256 x = sha256 y -> x = y) ->
  state_root sha256 (concrete sha256 h1) i = Ok root ->
  state_root sha256 (concrete sha256 h2) j = Ok root ->
  h_realm h1 = h_realm h2 /\ h_epoch h1 = h_epoch h2 /\ p1 = p2.
Proof.
  intros Hok1 [Hr1 He1 Hw1] Hok2 [Hr2 He2 Hw2] E1 E2 Hcoll R1 R2.
  rewrite state_root_concrete, E1 in R1 by done. rewrite state_root_concrete, E2 in R2 by done.
  injection R1 as <-. injection R2 as R2. symmetry in R2.
  pose proof Hok1 as [L1 [M1 M1'] _]. pose proof Hok2 as [L2 [M2 M2'] _].
  apply upto_Some in E1 as [_ (q1 & Q1)]; [|by eapply linear_nodup].
  apply upto_Some in E2 as [_ (q2 & Q2)]; [|by eapply linear_nodup].
  rewrite Q1 in *. rewrite Q2 in *. apply Forall_app in Hw1 as [Hw1 _]. apply Forall_app in Hw2 as [Hw2 _].
  apply linear_app in L1, L2. unfold len in M1, M2. rewrite length_app in M1, M2.
  apply (root_binds sha256); try done; unfold len; lia.
Qed.

Lemma state_root_binds_witness :
  h_realm ex_history = h_realm ex_history /\ [ex_first] = [ex_first].
Proof.
  destruct (state_root_binds poly_hash _ ex_history ex_history (ev_id ex_first) (ev_id ex_first)
    [ex_first] [ex_first] (root_of poly_hash 7 1 [ex_first]) ex_history_ok ex_history_wire
    ex_history_ok ex_history_wire) as (Hr & _ & Hp);
    [vm_compute; reflexivity|vm_compute; reflexivity| |vm_compute; reflexivity|vm_compute; reflexivity|].
  - assert (H : Forall (fun x => Forall (fun y => poly_hash x = poly_hash y -> x = y)
      (hashed 7 1 [ex_first])) (hashed 7 1 [ex_first])).
    { apply (bool_decide_unpack _). vm_compute. exact I. }
    intros x y Hx Hy. exact (proj1 (Forall_forall _ _) (proj1 (Forall_forall _ _) H x Hx) y Hy).
  - split; [exact Hr|exact Hp].
Defined.
