(* ===== verification/Wire.v ===== *)
(** The byte boundary (src/crates/vhalla-core/src/lib.rs) and the wire envelope
    (src/crates/vhalla-wire/src/lib.rs). *)
From S2P Require Import Prelude Bytes PrefixFree.

(** ** vhalla-core *)

Definition MAX_ENVELOPE_BYTES : N := 64 * 1024.

Inductive ParseError : Type :=
| ParseTooLarge (actual limit : N).

(** Foreign bytes within the bound. *)
Record UntrustedEnvelope : Type := mkUntrusted { as_bytes : list N }.

Definition parse_untrusted (raw : list N) : res ParseError UntrustedEnvelope :=
  if MAX_ENVELOPE_BYTES <? len raw then Err (ParseTooLarge (len raw) MAX_ENVELOPE_BYTES)
  else Ok (mkUntrusted raw).

(** ** vhalla-wire *)

Definition WIRE_VERSION : N := 1.
Definition KIND_CHAT : N := 1.
Definition HEADER_BYTES : N := 78.
Definition MAX_BODY_BYTES : N := MAX_ENVELOPE_BYTES - HEADER_BYTES.

Record Envelope : Type := mkEnvelope {
  env_kind : N;
  env_author : N;
  env_realm : N;
  env_room : N;
  env_event : N;
  env_sequence : N;
  env_body : list N;
}.

#[global] Instance Envelope_eq_dec : EqDecision Envelope. Proof. solve_decision. Defined.

Inductive DecodeField : Type :=
| FieldVersion | FieldKind | FieldAuthor | FieldRealm | FieldRoom | FieldEvent | FieldSequence
| FieldBodyLength | FieldBody.

Inductive DecodeError : Type :=
| EnvelopeTooLarge (actual limit : N)
| EnvelopeTruncated (field : DecodeField)
| UnsupportedWireVersion (found : N)
| InvalidKind
| BodyTooLarge (actual limit : N)
| EnvelopeTrailing (count : N).

Definition decode_error_of_parse (e : ParseError) : DecodeError :=
  match e with ParseTooLarge actual limit => EnvelopeTooLarge actual limit end.

Definition encoded_len (e : Envelope) : N := HEADER_BYTES + len (env_body e).

Definition envelope_new (kind author realm room event sequence : N) (body : list N) :
    option Envelope :=
  if (kind =? 0) || (MAX_BODY_BYTES <? len body) then None
  else Some (mkEnvelope kind author realm room event sequence body).

Definition envelope_chat (author realm room event sequence : N) (body : list N) :
    option Envelope :=
  envelope_new KIND_CHAT author realm room event sequence body.

Definition put_envelope (e : Envelope) : Writer -> Writer :=
  w_u8 WIRE_VERSION >> w_u8 (env_kind e) >> w_u128 (env_author e) >> w_u128 (env_realm e) >>
  w_u128 (env_room e) >> w_u128 (env_event e) >> w_u64 (env_sequence e) >>
  w_sized w_u32 (env_body e).

Definition encode_envelope (e : Envelope) : list N := written (put_envelope e).

(** [raw.get(start..start + n)] as a big-endian integer. *)
Definition read_int (raw : list N) (start n : nat) (field : DecodeField) : res DecodeError N :=
  match slice raw start (start + n) with
  | Some bytes => Ok (of_be bytes)
  | None => Err (EnvelopeTruncated field)
  end.

Definition decode_bounded (raw : list N) : res DecodeError Envelope :=
  if (len raw =? 0) then Err (EnvelopeTruncated FieldVersion)
  else
    let? version := index raw 0 in
    if negb (version =? WIRE_VERSION) then Err (UnsupportedWireVersion version)
    else if len raw <? 2 then Err (EnvelopeTruncated FieldKind)
    else
      let? kind := index raw 1 in
      if kind =? 0 then Err InvalidKind
      else
        let? author := read_int raw 2 16 FieldAuthor in
        let? realm := read_int raw 18 16 FieldRealm in
        let? room := read_int raw 34 16 FieldRoom in
        let? event := read_int raw 50 16 FieldEvent in
        let? sequence := read_int raw 66 8 FieldSequence in
        let? body_len := read_int raw 74 4 FieldBodyLength in
        if MAX_BODY_BYTES <? body_len then Err (BodyTooLarge body_len MAX_BODY_BYTES)
        else
          let? end_ := ok_or (checked_add 64 HEADER_BYTES body_len)
                         (BodyTooLarge body_len MAX_BODY_BYTES) in
          if len raw <? end_ then Err (EnvelopeTruncated FieldBody)
          else if end_ <? len raw then Err (EnvelopeTrailing (len raw - end_))
          else
            match slice raw (N.to_nat HEADER_BYTES) (N.to_nat end_) with
            | Some body => Ok (mkEnvelope kind author realm room event sequence body)
            | None => Panic
            end.

Definition decode_envelope (raw : list N) : res DecodeError Envelope :=
  if MAX_ENVELOPE_BYTES <? len raw then Err (EnvelopeTooLarge (len raw) MAX_ENVELOPE_BYTES)
  else decode_bounded raw.

(** ** Envelopes that can be made *)

Record envelope_ok (e : Envelope) : Prop := {
  eo_kind : u 8 (env_kind e) /\ env_kind e <> 0;
  eo_author : u 128 (env_author e);
  eo_realm : u 128 (env_realm e);
  eo_room : u 128 (env_room e);
  eo_event : u 128 (env_event e);
  eo_sequence : u 64 (env_sequence e);
  eo_body : Forall byte (env_body e) /\ len (env_body e) <= MAX_BODY_BYTES;
}.

Lemma length_encode_envelope e : len (encode_envelope e) = encoded_len e.
Proof.
  unfold encode_envelope, put_envelope, w_sized, encoded_len, len. split_written.
  rewrite !length_app. autorewrite with written_length. unfold HEADER_BYTES. lia.
Qed.

(** ** Reading at fixed offsets *)

Lemma slice_eq raw a n : (a + n <= length raw)%nat ->
  slice raw a (a + n) = Some (take n (drop a raw)).
Proof.
  intros H. unfold slice. rewrite (proj2 (Nat.leb_le _ _)) by done.
  by replace (a + n - a)%nat with n by lia.
Qed.

Lemma slice_None raw a n : (length raw < a + n)%nat -> slice raw a (a + n) = None.
Proof. intros H. unfold slice. by rewrite (proj2 (Nat.leb_gt _ _)). Qed.

(** The part of [raw] at an offset. *)
Lemma slice_cut (raw : list N) a n : (a + n <= length raw)%nat ->
  exists s, slice raw a (a + n) = Some s /\ length s = n /\ drop a raw = s ++ drop (a + n) raw.
Proof.
  intros H. exists (take n (drop a raw)). split; [by apply slice_eq|].
  split; [rewrite length_take, length_drop; lia|]. by rewrite <- drop_drop, take_drop.
Qed.

(** The same, of bytes that are known. *)
Lemma slice_known (raw : list N) a n s k : drop a raw = s ++ k -> length s = n -> (a <= length raw)%nat ->
  slice raw a (a + n) = Some s /\ drop (a + n) raw = k /\ (a + n <= length raw)%nat.
Proof.
  intros Hd <- Ha. assert (Hl : (a + length s <= length raw)%nat).
  { apply (f_equal length) in Hd. rewrite length_drop, length_app in Hd. lia. }
  rewrite slice_eq by done. rewrite Hd, take_app_length, <- drop_drop, Hd, drop_app_length. done.
Qed.

(** An integer field: the bytes at the offset and the value read there. *)
Lemma field_cut (raw : list N) a n : Forall byte raw -> (a + n <= length raw)%nat ->
  exists v, v < 256 ^ N.of_nat n /\ drop a raw = be n v ++ drop (a + n) raw /\
    forall f, read_int raw a n f = Ok v.
Proof.
  intros Hb (s & Hs & Hn & Hd)%slice_cut. assert (Hsb : Forall byte s).
  { apply (Forall_drop _ a) in Hb. rewrite Hd in Hb. by apply Forall_app in Hb as [? _]. }
  exists (of_be s). split; [rewrite <- Hn; by apply of_be_lt|]. split.
  - rewrite <- Hn at 1. by rewrite be_of_be.
  - intros f. unfold read_int. by rewrite Hs.
Qed.

Lemma field_read (raw : list N) a n v k f : v < 256 ^ N.of_nat n ->
  drop a raw = be n v ++ k -> (a <= length raw)%nat ->
  read_int raw a n f = Ok v /\ drop (a + n) raw = k /\ (a + n <= length raw)%nat.
Proof.
  intros Hv Hd Ha. apply slice_known with (n := n) in Hd as (Hs & Hd & Hl); [|apply be_length|done].
  unfold read_int. by rewrite Hs, of_be_be.
Qed.

Lemma read_int_short raw a n f : (length raw < a + n)%nat ->
  read_int raw a n f = Err (EnvelopeTruncated f).
Proof. intros H. unfold read_int. by rewrite slice_None. Qed.

Lemma encode_envelope_eq e :
  encode_envelope e = [WIRE_VERSION; env_kind e] ++ be 16 (env_author e) ++ be 16 (env_realm e) ++
    be 16 (env_room e) ++ be 16 (env_event e) ++ be 8 (env_sequence e) ++
    be 4 (len (env_body e)) ++ env_body e.
Proof. unfold encode_envelope, put_envelope, w_sized. by written_norm. Qed.

(** Decoding what was encoded. *)
Lemma decode_encode e : envelope_ok e -> decode_envelope (encode_envelope e) = Ok e.
Proof.
  intros [[Hk Hk0] Ha Hr Ho He Hs [Hb Hl]]. pose proof (length_encode_envelope e) as Hlen.
  set (raw := encode_envelope e) in *. unfold decode_envelope.
  unfold encoded_len, MAX_BODY_BYTES, MAX_ENVELOPE_BYTES, HEADER_BYTES in *.
  rewrite (proj2 (N.ltb_ge _ _)) by lia. unfold decode_bounded, MAX_BODY_BYTES, MAX_ENVELOPE_BYTES, HEADER_BYTES.
  rewrite (proj2 (N.eqb_neq _ _)) by lia.
  assert (E : raw = [WIRE_VERSION; env_kind e] ++ be 16 (env_author e) ++ be 16 (env_realm e) ++
    be 16 (env_room e) ++ be 16 (env_event e) ++ be 8 (env_sequence e) ++
    be 4 (len (env_body e)) ++ env_body e) by apply encode_envelope_eq.
  assert (E0 : index (E := DecodeError) raw 0 = Ok WIRE_VERSION) by (unfold index; by rewrite E).
  assert (E1 : index (E := DecodeError) raw 1 = Ok (env_kind e)) by (unfold index; by rewrite E).
  assert (D : drop 2 raw = be 16 (env_author e) ++ be 16 (env_realm e) ++
    be 16 (env_room e) ++ be 16 (env_event e) ++ be 8 (env_sequence e) ++
    be 4 (len (env_body e)) ++ env_body e) by (by rewrite E).
  rewrite E0. cbn [res_bind]. rewrite N.eqb_refl. cbn [negb]. rewrite (proj2 (N.ltb_ge _ _)) by lia.
  rewrite E1. cbn [res_bind]. rewrite (proj2 (N.eqb_neq _ _)) by done. clear E E0 E1.
  apply (field_read raw 2 16) with (f := FieldAuthor) in D as (-> & D & B0); [|done|unfold len in Hlen; lia].
  apply (field_read raw 18 16) with (f := FieldRealm) in D as (-> & D & B1); [|done|exact B0].
  apply (field_read raw 34 16) with (f := FieldRoom) in D as (-> & D & B2); [|done|exact B1].
  apply (field_read raw 50 16) with (f := FieldEvent) in D as (-> & D & B3); [|done|exact B2].
  apply (field_read raw 66 8) with (f := FieldSequence) in D as (-> & D & B4); [|done|exact B3].
  apply (field_read raw 74 4) with (f := FieldBodyLength) in D as (-> & D & _); [|simpl; lia|exact B4].
  cbn [res_bind]. rewrite (proj2 (N.ltb_ge _ _)) by lia.
  unfold checked_add. rewrite (proj2 (N.ltb_lt _ _)) by lia. cbn [ok_or res_bind].
  rewrite !(proj2 (N.ltb_ge _ _)) by lia.
  replace (N.to_nat (78 + len (env_body e))) with (N.to_nat 78 + length (env_body e))%nat by (unfold len; lia).
  rewrite slice_eq by (unfold len in *; lia). change (N.to_nat 78) with (74 + 4)%nat. rewrite D.
  rewrite firstn_all. by destruct e.
Qed.

(** What decodes was encoded. *)
Lemma decode_encoded raw e : Forall byte raw -> decode_envelope raw = Ok e ->
  envelope_ok e /\ raw = encode_envelope e.
Proof.
  intros Hb. unfold decode_envelope, decode_bounded. intros H.
  destruct (N.ltb_spec MAX_ENVELOPE_BYTES (len raw)) as [|Hmax]; [done|].
  destruct raw as [|v [|k raw']]; [done|by simpl in H; destruct (negb _)|].
  set (raw := v :: k :: raw') in *. case_match; [done|]. cbn [index] in H.
  change (index raw 0) with (Ok v : res DecodeError N) in H.
  change (index raw 1) with (Ok k : res DecodeError N) in H. cbn [res_bind] in H.
  repeat (case_match; [done|]). bool_to_prop. subst v.
  assert (E0 : raw = [WIRE_VERSION; k] ++ drop 2 raw) by done.
  assert (Hk : byte k) by (by apply Forall_cons_1 in Hb as [_ [? _]%Forall_cons_1]).
  clearbody raw. clear raw'.
  assert (Hfield : forall a n f g, (let? x := read_int raw a n f in g x) = Ok e -> 
    (a + n <= length raw)%nat).
  { intros a n f g Hg. destruct (Nat.le_gt_cases (a + n) (length raw)); [done|].
    by rewrite read_int_short in Hg. }
  pose proof (Hfield _ _ _ _ H) as B. destruct (field_cut raw 2 16 Hb B) as (x1 & ? & D1 & R1).
  rewrite R1 in H. cbn [res_bind] in H. clear B.
  pose proof (Hfield _ _ _ _ H) as B. destruct (field_cut raw 18 16 Hb B) as (x2 & ? & D2 & R2).
  rewrite R2 in H. cbn [res_bind] in H. clear B.
  pose proof (Hfield _ _ _ _ H) as B. destruct (field_cut raw 34 16 Hb B) as (x3 & ? & D3 & R3).
  rewrite R3 in H. cbn [res_bind] in H. clear B.
  pose proof (Hfield _ _ _ _ H) as B. destruct (field_cut raw 50 16 Hb B) as (x4 & ? & D4 & R4).
  rewrite R4 in H. cbn [res_bind] in H. clear B.
  pose proof (Hfield _ _ _ _ H) as B. destruct (field_cut raw 66 8 Hb B) as (x5 & ? & D5 & R5).
  rewrite R5 in H. cbn [res_bind] in H. clear B.
  pose proof (Hfield _ _ _ _ H) as B. destruct (field_cut raw 74 4 Hb B) as (x6 & ? & D6 & R6).
  rewrite R6 in H. cbn [res_bind] in H. clear Hfield R1 R2 R3 R4 R5 R6.
  unfold checked_add, HEADER_BYTES in H.
  destruct (N.ltb_spec MAX_BODY_BYTES x6) as [|Hx]; [done|].
  assert (Hx6 : x6 <= 65458) by (unfold MAX_BODY_BYTES, MAX_ENVELOPE_BYTES, HEADER_BYTES in Hx; lia).
  rewrite (proj2 (N.ltb_lt (78 + x6) _)) in H by lia. cbn [ok_or res_bind] in H.
  destruct (N.ltb_spec (len raw) (78 + x6)) as [|Hl1]; [done|].
  destruct (N.ltb_spec (78 + x6) (len raw)) as [|Hl2]; [done|].
  replace (N.to_nat (78 + x6)) with (N.to_nat 78 + N.to_nat x6)%nat in H by lia.
  rewrite slice_eq in H by (unfold len in *; lia). injection H as <-.
  change (N.to_nat 78) with (74 + 4)%nat in *.
  assert (Hlen : length (drop (74 + 4) raw) = N.to_nat x6) by (rewrite length_drop; unfold len in *; lia).
  rewrite <- Hlen, firstn_all. assert (Hbody : len (drop (74 + 4) raw) = x6) by (unfold len; lia).
  assert (Hbb : Forall byte (drop (74 + 4) raw)) by (by apply Forall_drop).
  assert (E : raw = [WIRE_VERSION; k] ++ be 16 x1 ++ be 16 x2 ++ be 16 x3 ++ be 16 x4 ++ be 8 x5 ++
    be 4 x6 ++ drop (74 + 4) raw).
  { rewrite E0 at 1. cbn [Nat.add] in *. rewrite <- D6, <- D5, <- D4, <- D3, <- D2, <- D1. done. }
  clear D1 D2 D3 D4 D5 D6 E0. set (body := drop (74 + 4) raw) in *. clearbody body. subst x6.
  split; [|rewrite encode_envelope_eq; exact E].
  split; simpl; [by split|done|done|done|done|done|by split].
Qed.

Lemma decode_envelope_iff raw e : Forall byte raw ->
  decode_envelope raw = Ok e <-> envelope_ok e /\ raw = encode_envelope e.
Proof.
  intros Hb. split; [by apply decode_encoded|]. intros [Hok ->]. by apply decode_encode.
Qed.

Lemma encode_envelope_bytes e : envelope_ok e -> Forall byte (encode_envelope e).
Proof.
  intros [[Hk _] _ _ _ _ _ [Hb _]]. rewrite encode_envelope_eq, !Forall_app.
  split; [constructor; [done|constructor; [done|constructor]]|].
  split_and!; [apply be_bytes..|done].
Qed.

Lemma decode_envelope_no_panic raw : decode_envelope raw <> Panic.
Proof.
  unfold decode_envelope, decode_bounded. case_match; [done|].
  destruct (N.eqb_spec (len raw) 0) as [|Hne]; [done|].
  destruct raw as [|v raw']; [done|]. set (raw := v :: raw') in *.
  change (index raw 0) with (Ok v : res DecodeError N). cbn [res_bind].
  case_match; [done|]. destruct (N.ltb_spec (len raw) 2) as [|H2]; [done|].
  destruct raw' as [|k raw'']; [by unfold len in H2; simpl in H2|].
  change (index raw 1) with (Ok k : res DecodeError N). cbn [res_bind]. case_match; [done|].
  assert (Hread : forall a n f (g : N -> res DecodeError Envelope), (forall x, g x <> Panic) ->
    (let? x := read_int raw a n f in g x) <> Panic).
  { intros a n f g Hg. unfold read_int. by destruct (slice raw a (a + n)); simpl. }
  do 6 (apply Hread; intros ?). case_match; [done|]. unfold checked_add. case_match; [|done].
  cbn [ok_or res_bind]. destruct (N.ltb_spec (len raw) (HEADER_BYTES + x4)) as [|Hl]; [done|].
  case_match; [done|].
  replace (N.to_nat (HEADER_BYTES + x4)) with (N.to_nat HEADER_BYTES + N.to_nat x4)%nat by lia.
  rewrite slice_eq; [done|]. unfold len in Hl. lia.
Qed.
