(* ===== verification/Signed.v ===== *)
(** Signed envelopes (src/crates/vhalla-crypto/src/lib.rs), and a toy signature
    scheme for witnesses. *)
From Stdlib Require Import Ascii String.
From stdpp Require Import gmap.
From S2P Require Import Prelude Bytes PrefixFree Wire.

(** Signed envelopes and replay admission (src/crates/vhalla-crypto/src/lib.rs).
    Ed25519 is code of the ed25519-dalek crate: its operations are the class
    [Ed25519], a verifying key being its 32 bytes and a signing key its seed;
    [valid_key] says which bytes [VerifyingKey::from_bytes] accepts.  What a
    theorem relies on is [Ed25519Laws]. *)

Class Ed25519 : Type := {
  verifying_key : list N -> list N;
  valid_key : list N -> bool;
  is_weak : list N -> bool;
  sign_bytes : list N -> list N -> list N;
  verify_strict : list N -> list N -> list N -> bool;
}.

(** A 64-byte signature. *)
Definition sig_wire (l : list N) : Prop := Forall byte l /\ length l = 64%nat.

(** Keys and signatures have their sizes, a derived key is a valid one, and a
    signature made with a key that is not weak verifies. *)
Class Ed25519Laws `(Ed25519) : Prop := {
  verifying_key_wire seed : hash_wire (verifying_key seed);
  verifying_key_valid seed : valid_key (verifying_key seed) = true;
  sign_bytes_wire seed message : sig_wire (sign_bytes seed message);
  verify_sign seed message : is_weak (verifying_key seed) = false ->
    verify_strict (verifying_key seed) message (sign_bytes seed message) = true;
}.

Definition DOMAIN : list N := bytes_of "vhalla/signed-envelope/v2".
Definition SIGNED_VERSION : N := 2.
Definition MAX_SIGNED_BYTES : N := MAX_ENVELOPE_BYTES.
Definition SIGNED_OVERHEAD_BYTES : N := 1 + 4 + 16 + 8 + 16 + 8 + 64.
Definition MAX_SIGNED_BODY_BYTES : N := MAX_SIGNED_BYTES - SIGNED_OVERHEAD_BYTES - HEADER_BYTES.
Definition MAX_REPLAY_AUTHORS : N := 256.

Record VerificationContext : Type := mkContext {
  vc_audience : N;
  vc_realm : N;
  vc_room : N;
  vc_epoch : N;
  vc_session : N;
}.

#[global] Instance VerificationContext_eq_dec : EqDecision VerificationContext.
Proof. solve_decision. Defined.

Record SignedEnvelope : Type := mkSigned {
  se_envelope : Envelope;
  se_audience : N;
  se_epoch : N;
  se_session : N;
  se_expires_at : N;
  se_signature : list N;
}.

Record VerifiedEnvelope : Type := mkVerified {
  ve_envelope : Envelope;
  ve_signer_key : list N;
  ve_context : VerificationContext;
  ve_expires_at : N;
}.

Inductive SignError : Type := SignTooLarge | SignAuthorMismatch.

Inductive DecodeSignedError : Type :=
| SignedTooLarge | SignedVersion | SignedWire (e : DecodeError) | SignedTruncated | SignedTrailing.

Inductive VerifyError : Type :=
| InvalidBound | VerifyTooLarge | WeakKey | AuthorMismatch | AudienceMismatch | RealmMismatch
| RoomMismatch | EpochMismatch | SessionMismatch | Expired | InvalidSignature | Replay
| ReplayCapacity.

Record ReplayWindow : Type := mkWindow {
  rw_context : VerificationContext;
  rw_max_authors : N;
  rw_last : gmap (list N) N;
}.

Definition validate_size (s : SignedEnvelope) : res SignError unit :=
  if MAX_SIGNED_BYTES - SIGNED_OVERHEAD_BYTES <? encoded_len (se_envelope s)
  then Err SignTooLarge else Ok tt.

Definition put_unsigned (s : SignedEnvelope) : Writer -> Writer :=
  w_u8 SIGNED_VERSION >> w_u32 (encoded_len (se_envelope s)) >>
  w_bytes (encode_envelope (se_envelope s)) >> w_u128 (se_audience s) >> w_u64 (se_epoch s) >>
  w_u128 (se_session s) >> w_u64 (se_expires_at s).

Definition encode_signed (s : SignedEnvelope) : res SignError (list N) :=
  let? _ := validate_size s in
  Ok (written (put_unsigned s >> w_bytes (se_signature s))).

(** What is signed. *)
Definition transcript_of (s : SignedEnvelope) : res SignError (list N) :=
  let? _ := validate_size s in
  Ok (written (w_bytes DOMAIN >> put_unsigned s)).

(** [raw[a..b]] *)
Definition sub_slice {Er} (raw : list N) (a b : nat) : res Er (list N) :=
  match slice raw a b with Some s => Ok s | None => Panic end.

(** [from_be_bytes(raw[a..a + n].try_into().expect(..))] *)
Definition sub_int {Er} (raw : list N) (a n : nat) : res Er N :=
  let? s := sub_slice raw a (a + n) in Ok (of_be s).

Definition decode_signed (raw : list N) : res DecodeSignedError SignedEnvelope :=
  if MAX_SIGNED_BYTES <? len raw then Err SignedTooLarge
  else
    let? version := ok_or (raw !! 0%nat) SignedTruncated in
    if negb (version =? SIGNED_VERSION) then Err SignedVersion
    else if len raw <? 5 then Err SignedTruncated
    else
      let? envelope_len := sub_int raw 1 4 in
      if MAX_SIGNED_BYTES - SIGNED_OVERHEAD_BYTES <? envelope_len then Err SignedTooLarge
      else
        let envelope_end := 5 + envelope_len in
        let end_ := envelope_len + SIGNED_OVERHEAD_BYTES in
        if len raw <? end_ then Err SignedTruncated
        else if end_ <? len raw then Err SignedTrailing
        else
          let? bytes := sub_slice raw 5 (N.to_nat envelope_end) in
          let? envelope := map_err SignedWire (decode_envelope bytes) in
          let? context := sub_slice raw (N.to_nat envelope_end) (length raw) in
          let? audience := sub_int context 0 16 in
          let? epoch := sub_int context 16 8 in
          let? session := sub_int context 24 16 in
          let? expires_at := sub_int context 40 8 in
          let? signature := sub_slice context 48 112 in
          Ok (mkSigned envelope audience epoch session expires_at signature).

Definition ReplayWindow_new (context : VerificationContext) (max_authors : N) :
    res VerifyError ReplayWindow :=
  if negb (in_range 1 MAX_REPLAY_AUTHORS max_authors) then Err InvalidBound
  else Ok (mkWindow context max_authors ∅).

Section Crypto.
Context (sha256 : list N -> list N) `{Ed25519}.

Definition peer_id_from_key (key : list N) : N := of_be (take 16 (sha256 key)).
Definition peer_id_from_seed (seed : list N) : N := peer_id_from_key (verifying_key seed).
Definition verifying_key_from_seed (seed : list N) : list N := verifying_key seed.

(** The last of the checks, and the only change of state. *)
Definition admit_sequence (key : list N) (sequence : N) : eff ReplayWindow VerifyError unit :=
  let! w := get in
  let insert := modify (fun w => mkWindow (rw_context w) (rw_max_authors w)
                                   (<[key := sequence]> (rw_last w))) in
  match rw_last w !! key with
  | Some last => if sequence <=? last then throw Replay else insert
  | None => if rw_max_authors w <=? N.of_nat (size (rw_last w)) then throw ReplayCapacity else insert
  end.

Definition verify_and_accept (signed : SignedEnvelope) (key : list N) (now : N) :
    eff ReplayWindow VerifyError VerifiedEnvelope :=
  let! w := get in
  let context := rw_context w in
  do! lift (map_err (fun _ => VerifyTooLarge) (validate_size signed)) in
  if is_weak key then throw WeakKey
  else if negb (peer_id_from_key key =? env_author (se_envelope signed)) then throw AuthorMismatch
  else if negb (se_audience signed =? vc_audience context) then throw AudienceMismatch
  else if negb (env_realm (se_envelope signed) =? vc_realm context) then throw RealmMismatch
  else if negb (env_room (se_envelope signed) =? vc_room context) then throw RoomMismatch
  else if negb (se_epoch signed =? vc_epoch context) then throw EpochMismatch
  else if negb (se_session signed =? vc_session context) then throw SessionMismatch
  else if se_expires_at signed <? now then throw Expired
  else
    let! transcript := lift (map_err (fun _ => VerifyTooLarge) (transcript_of signed)) in
    if negb (verify_strict key transcript (se_signature signed)) then throw InvalidSignature
    else
      do! admit_sequence key (env_sequence (se_envelope signed)) in
      ret (mkVerified (se_envelope signed) key context (se_expires_at signed)).

Definition sign_with_key (envelope : Envelope) (audience epoch session expires_at : N)
    (key : list N) : res SignError SignedEnvelope :=
  let signed := mkSigned envelope audience epoch session expires_at (replicate 64 0) in
  let? _ := validate_size signed in
  if negb (env_author (se_envelope signed) =? peer_id_from_key (verifying_key key))
  then Err SignAuthorMismatch
  else
    let? transcript := transcript_of signed in
    Ok (mkSigned envelope audience epoch session expires_at (sign_bytes key transcript)).

Definition sign (envelope : Envelope) (audience epoch session expires_at : N) (seed : list N) :
    res SignError SignedEnvelope :=
  sign_with_key envelope audience epoch session expires_at seed.
End Crypto.

(** ** The signed codec *)

Record signed_ok (s : SignedEnvelope) : Prop := {
  so_envelope : envelope_ok (se_envelope s);
  so_audience : u 128 (se_audience s);
  so_epoch : u 64 (se_epoch s);
  so_session : u 128 (se_session s);
  so_expires_at : u 64 (se_expires_at s);
  so_signature : sig_wire (se_signature s);
}.

Lemma sub_slice_cut {Er} raw a n : Forall byte raw -> (a + n <= length raw)%nat ->
  exists s, sub_slice (Er := Er) raw a (a + n) = Ok s /\ length s = n /\ Forall byte s /\
    drop a raw = s ++ drop (a + n) raw.
Proof.
  intros Hb Hl. destruct (slice_cut raw a n Hl) as (s & Hs & Hn & Hd). exists s.
  unfold sub_slice. rewrite Hs. split_and!; try done.
  apply (Forall_drop _ a) in Hb. rewrite Hd in Hb. by apply Forall_app in Hb as [? _].
Qed.

Lemma sub_int_cut {Er} raw a n : Forall byte raw -> (a + n <= length raw)%nat ->
  exists v, sub_int (Er := Er) raw a n = Ok v /\ v < 256 ^ N.of_nat n /\
    drop a raw = be n v ++ drop (a + n) raw.
Proof.
  intros Hb Hl. destruct (sub_slice_cut (Er := Er) raw a n Hb Hl) as (s & Hs & Hn & Hsb & Hd).
  exists (of_be s). unfold sub_int. rewrite Hs. split; [done|].
  split; [rewrite <- Hn; by apply of_be_lt|]. rewrite <- Hn at 1. by rewrite be_of_be.
Qed.

Lemma sub_slice_known {Er} raw a n s k : drop a raw = s ++ k -> length s = n -> (a <= length raw)%nat ->
  sub_slice (Er := Er) raw a (a + n) = Ok s /\ drop (a + n) raw = k /\ (a + n <= length raw)%nat.
Proof.
  intros Hd Hn Ha. apply slice_known with (n := n) in Hd as (Hs & Hd & Hl); [|done..].
  unfold sub_slice. by rewrite Hs.
Qed.

Lemma sub_int_known {Er} raw a n v k : v < 256 ^ N.of_nat n -> drop a raw = be n v ++ k ->
  (a <= length raw)%nat ->
  sub_int (Er := Er) raw a n = Ok v /\ drop (a + n) raw = k /\ (a + n <= length raw)%nat.
Proof.
  intros Hv Hd Ha. eapply sub_slice_known in Hd as (Hs & Hd & Hl); [|apply be_length|done].
  unfold sub_int. rewrite Hs. cbn [res_bind]. by rewrite of_be_be.
Qed.

Lemma length_put_unsigned s : length (written (put_unsigned s)) =
  (53 + N.to_nat (encoded_len (se_envelope s)))%nat.
Proof.
  unfold put_unsigned. split_written. rewrite !length_app. autorewrite with written_length.
  pose proof (length_encode_envelope (se_envelope s)). unfold len in *. lia.
Qed.

Definition signed_frame (s : SignedEnvelope) : list N :=
  [SIGNED_VERSION] ++ be 4 (encoded_len (se_envelope s)) ++ encode_envelope (se_envelope s) ++
  be 16 (se_audience s) ++ be 8 (se_epoch s) ++ be 16 (se_session s) ++ be 8 (se_expires_at s) ++
  se_signature s.

Lemma encode_signed_Ok s raw : encode_signed s = Ok raw <->
  encoded_len (se_envelope s) <= MAX_SIGNED_BYTES - SIGNED_OVERHEAD_BYTES /\ raw = signed_frame s.
Proof.
  unfold encode_signed, validate_size.
  destruct (N.ltb_spec (MAX_SIGNED_BYTES - SIGNED_OVERHEAD_BYTES) (encoded_len (se_envelope s)));
    cbn [res_bind]; [split; [done|lia]|].
  assert (E : written (put_unsigned s >> w_bytes (se_signature s)) = signed_frame s).
  { unfold put_unsigned. by written_norm. }
  rewrite E. split; [intros [= <-]; done|by intros [_ ->]].
Qed.

Lemma length_signed_frame s : signed_ok s ->
  length (signed_frame s) = (N.to_nat (encoded_len (se_envelope s)) + 117)%nat.
Proof.
  intros [_ _ _ _ _ [_ Hs]]. unfold signed_frame. rewrite !length_app, !be_length, Hs.
  pose proof (length_encode_envelope (se_envelope s)). unfold len in *. change (length [SIGNED_VERSION]) with 1%nat. lia.
Qed.

Lemma decode_frame s : signed_ok s ->
  encoded_len (se_envelope s) <= MAX_SIGNED_BYTES - SIGNED_OVERHEAD_BYTES ->
  decode_signed (signed_frame s) = Ok s.
Proof.
  intros Hok Hsize. pose proof (length_signed_frame s Hok) as Hlen. pose proof Hok as [He Ha Hp Hx Ht [Hsb Hsl]].
  assert (D0 : drop 0 (signed_frame s) = [SIGNED_VERSION] ++ drop 1 (signed_frame s)) by done.
  assert (D1 : drop 1 (signed_frame s) = be 4 (encoded_len (se_envelope s)) ++
    encode_envelope (se_envelope s) ++ be 16 (se_audience s) ++ be 8 (se_epoch s) ++
    be 16 (se_session s) ++ be 8 (se_expires_at s) ++ se_signature s) by done.
  assert (V : signed_frame s !! 0%nat = Some SIGNED_VERSION) by done.
  set (raw := signed_frame s) in *. clearbody raw. set (n := encoded_len (se_envelope s)) in *.
  assert (Hn : len (encode_envelope (se_envelope s)) = n) by apply length_encode_envelope.
  assert (Hn' : length (encode_envelope (se_envelope s)) = N.to_nat n) by (unfold len in Hn; lia).
  change (MAX_SIGNED_BYTES - SIGNED_OVERHEAD_BYTES) with 65419 in *.
  unfold decode_signed, len. change (MAX_SIGNED_BYTES - SIGNED_OVERHEAD_BYTES) with 65419.
  rewrite (proj2 (N.ltb_ge _ _)) by (unfold MAX_SIGNED_BYTES, MAX_ENVELOPE_BYTES; lia).
  rewrite V. cbn [ok_or res_bind]. rewrite N.eqb_refl. cbn [negb].
  rewrite (proj2 (N.ltb_ge _ 5)) by lia.
  eapply sub_int_known in D1 as (-> & D2 & B1); [|simpl; lia|lia]. cbn [res_bind].
  rewrite (proj2 (N.ltb_ge _ n)) by lia. change SIGNED_OVERHEAD_BYTES with 117.
  rewrite !(proj2 (N.ltb_ge _ _)) by lia.
  replace (N.to_nat (5 + n)) with (5 + N.to_nat n)%nat by lia.
  eapply sub_slice_known in D2 as (-> & D3 & B2); [|exact Hn'|exact B1]. cbn [res_bind].
  rewrite decode_encode by done. cbn [map_err res_bind].
  assert (C : sub_slice (Er := DecodeSignedError) raw (5 + N.to_nat n) (length raw) =
    Ok (drop (5 + N.to_nat n) raw)).
  { unfold sub_slice. replace (length raw) with (5 + N.to_nat n + (length raw - (5 + N.to_nat n)))%nat by lia.
    rewrite slice_eq by lia. rewrite firstn_all2; [done|rewrite length_drop; lia]. }
  rewrite C. cbn [res_bind]. clear C. set (context := drop (5 + N.to_nat n) raw) in *.
  assert (E0 : drop 0 context = be 16 (se_audience s) ++ be 8 (se_epoch s) ++
    be 16 (se_session s) ++ be 8 (se_expires_at s) ++ se_signature s) by exact D3.
  eapply sub_int_known in E0 as (-> & E1 & B3); [|exact Ha|lia]. cbn [res_bind].
  eapply sub_int_known in E1 as (-> & E2 & B4); [|exact Hp|exact B3]. cbn [res_bind].
  eapply sub_int_known in E2 as (-> & E3 & B5); [|exact Hx|exact B4]. cbn [res_bind].
  eapply sub_int_known in E3 as (-> & E4 & B6); [|exact Ht|exact B5]. cbn [res_bind].
  rewrite <- (app_nil_r (se_signature s)) in E4.
  eapply (sub_slice_known _ _ 64) in E4 as (E5 & _ & _); [|exact Hsl|exact B6].
  change (16 + 8 + 16 + 8 + 64)%nat with 112%nat in E5. change (16 + 8 + 16 + 8)%nat with 48%nat in E5.
  rewrite E5. cbn [res_bind]. by destruct s.
Qed.

Lemma decode_signed_encoded raw s : Forall byte raw -> decode_signed raw = Ok s ->
  signed_ok s /\ encode_signed s = Ok raw.
Proof.
  intros Hb H. unfold decode_signed in H.
  change (MAX_SIGNED_BYTES - SIGNED_OVERHEAD_BYTES) with 65419 in H.
  destruct (N.ltb_spec MAX_SIGNED_BYTES (len raw)) as [|Hmax]; [done|].
  destruct (raw !! 0%nat) as [v|] eqn:V; [|done]. cbn [ok_or res_bind] in H.
  destruct (N.eqb_spec v SIGNED_VERSION) as [->|]; [|done]. cbn [negb] in H.
  destruct (N.ltb_spec (len raw) 5) as [|H5]; [done|]. unfold len in H5.
  destruct (sub_int_cut (Er := DecodeSignedError) raw 1 4 Hb ltac:(lia)) as (n & R & Hn & D1).
  rewrite R in H. cbn [res_bind] in H. clear R.
  destruct (N.ltb_spec 65419 n) as [|Hn']; [done|]. change SIGNED_OVERHEAD_BYTES with 117 in H.
  destruct (N.ltb_spec (len raw) (n + 117)) as [|L1]; [done|].
  destruct (N.ltb_spec (n + 117) (len raw)) as [|L2]; [done|]. unfold len in L1, L2.
  replace (N.to_nat (5 + n)) with (5 + N.to_nat n)%nat in H by lia.
  destruct (sub_slice_cut (Er := DecodeSignedError) raw 5 (N.to_nat n) Hb ltac:(lia))
    as (bytes & R & Hbl & Hbb & D2).
  rewrite R in H. cbn [res_bind] in H. clear R.
  destruct (decode_envelope bytes) as [e|er|] eqn:De; [|done..]. cbn [map_err res_bind] in H.
  apply decode_encoded in De as [He ->]; [|done].
  unfold sub_slice at 1 in H.
  replace (length raw) with (5 + N.to_nat n + (length raw - (5 + N.to_nat n)))%nat in H by lia.
  rewrite slice_eq in H by lia. rewrite firstn_all2 in H by (rewrite length_drop; lia).
  cbn [res_bind] in H. set (context := drop (5 + N.to_nat n) raw) in *.
  assert (Hc : Forall byte context) by (by apply Forall_drop).
  assert (Hcl : length context = 112%nat) by (unfold context; rewrite length_drop; lia).
  destruct (sub_int_cut (Er := DecodeSignedError) context 0 16 Hc ltac:(lia)) as (x1 & R1 & ? & C1).
  destruct (sub_int_cut (Er := DecodeSignedError) context 16 8 Hc ltac:(lia)) as (x2 & R2 & ? & C2).
  destruct (sub_int_cut (Er := DecodeSignedError) context 24 16 Hc ltac:(lia)) as (x3 & R3 & ? & C3).
  destruct (sub_int_cut (Er := DecodeSignedError) context 40 8 Hc ltac:(lia)) as (x4 & R4 & ? & C4).
  destruct (sub_slice_cut (Er := DecodeSignedError) context 48 64 Hc ltac:(lia)) as (sg & R5 & Hsl & Hsb & C5).
  change (48 + 64)%nat with 112%nat in R5. rewrite R1, R2, R3, R4, R5 in H. cbn [res_bind] in H.
  injection H as <-. cbn [Nat.add] in *. rewrite drop_0 in C1.
  rewrite (drop_ge context 112) in C5 by lia. rewrite app_nil_r in C5.
  assert (Hlen : encoded_len e = n).
  { pose proof (length_encode_envelope e). unfold len in *. lia. }
  split; [by split|]. apply encode_signed_Ok. cbn [se_envelope].
  split; [change (MAX_SIGNED_BYTES - SIGNED_OVERHEAD_BYTES) with 65419; lia|].
  unfold signed_frame. cbn [se_envelope se_audience se_epoch se_session se_expires_at se_signature].
  rewrite Hlen, <- C5, <- C4, <- C3, <- C2, <- C1.
  change (drop (S (S (S (S (S (N.to_nat n)))))) raw) with context in D2. rewrite <- D2, <- D1.
  destruct raw; [done|]. by injection V as ->.
Qed.

Lemma decode_signed_iff raw s : Forall byte raw ->
  decode_signed raw = Ok s <-> signed_ok s /\ encode_signed s = Ok raw.
Proof.
  intros Hb. split; [by apply decode_signed_encoded|].
  intros [Hok [Hsize ->]%encode_signed_Ok]. by apply decode_frame.
Qed.

Lemma sub_slice_total {Er} raw a n : (a + n <= length raw)%nat ->
  exists s, sub_slice (Er := Er) raw a (a + n) = Ok s /\ length s = n.
Proof.
  intros Hl. destruct (slice_cut raw a n Hl) as (s & Hs & Hn & _). exists s.
  unfold sub_slice. by rewrite Hs.
Qed.

Lemma sub_int_total {Er} raw a n : (a + n <= length raw)%nat ->
  exists v, sub_int (Er := Er) raw a n = Ok v.
Proof.
  intros Hl. destruct (sub_slice_total (Er := Er) raw a n Hl) as (s & Hs & _).
  unfold sub_int. rewrite Hs. by eexists.
Qed.

(** Every slice [decode] takes is in bounds. *)
Lemma decode_signed_no_panic raw : decode_signed raw <> Panic.
Proof.
  unfold decode_signed. case_match; [done|]. destruct (raw !! 0%nat) as [v|]; [|done]. cbn [ok_or res_bind].
  case_match; [done|]. destruct (N.ltb_spec (len raw) 5) as [|H5]; [done|]. unfold len in H5.
  destruct (sub_int_total (Er := DecodeSignedError) raw 1 4 ltac:(lia)) as (n & ->). cbn [res_bind].
  case_match; [done|]. change SIGNED_OVERHEAD_BYTES with 117.
  destruct (N.ltb_spec (len raw) (n + 117)) as [|L1]; [done|].
  destruct (N.ltb_spec (n + 117) (len raw)) as [|L2]; [done|]. unfold len in L1, L2.
  replace (N.to_nat (5 + n)) with (5 + N.to_nat n)%nat by lia.
  destruct (sub_slice_total (Er := DecodeSignedError) raw 5 (N.to_nat n) ltac:(lia)) as (b & -> & _).
  cbn [res_bind]. pose proof (decode_envelope_no_panic b).
  destruct (decode_envelope b); cbn [map_err res_bind]; [|done..].
  replace (length raw) with (5 + N.to_nat n + 112)%nat by lia.
  destruct (sub_slice_total (Er := DecodeSignedError) raw (5 + N.to_nat n) 112 ltac:(lia)) as (c & -> & Hc).
  cbn [res_bind].
  destruct (sub_int_total (Er := DecodeSignedError) c 0 16 ltac:(lia)) as (x1 & ->).
  destruct (sub_int_total (Er := DecodeSignedError) c 16 8 ltac:(lia)) as (x2 & ->).
  destruct (sub_int_total (Er := DecodeSignedError) c 24 16 ltac:(lia)) as (x3 & ->).
  destruct (sub_int_total (Er := DecodeSignedError) c 40 8 ltac:(lia)) as (x4 & ->).
  destruct (sub_slice_total (Er := DecodeSignedError) c 48 64 ltac:(lia)) as (x5 & E & _).
  change (48 + 64)%nat with 112%nat in E. by rewrite E.
Qed.

(** A concrete signature scheme that satisfies the laws of [Signed], to evaluate
    the definitions: a signature is a hash of key and message. *)

Definition toy_signature (key message : list N) : list N := poly_hash (key ++ message) ++ replicate 32 0.

Definition toy_ed25519 : Ed25519 := {|
  verifying_key := poly_hash;
  valid_key key := bool_decide (Forall byte key /\ length key = 32%nat);
  is_weak key := bool_decide (key = replicate 32 0);
  sign_bytes seed message := toy_signature (poly_hash seed) message;
  verify_strict key message signature := bool_decide (signature = toy_signature key message);
|}.

Lemma toy_signature_wire key message : sig_wire (toy_signature key message).
Proof.
  unfold toy_signature. destruct (poly_hash_sha256 (key ++ message)) as [Hb Hl]. split.
  - apply Forall_app. split; [exact Hb|]. by apply Forall_replicate.
  - by rewrite length_app, Hl, length_replicate.
Qed.

Lemma toy_laws : Ed25519Laws toy_ed25519.
Proof.
  split.
  - exact poly_hash_sha256.
  - intros seed. apply bool_decide_true, poly_hash_sha256.
  - intros seed message. exact (toy_signature_wire (poly_hash seed) message).
  - intros seed message _. apply bool_decide_true. reflexivity.
Qed.
