(* ===== verification/Replay.v ===== *)
(** What replay admission of [Signed] decides, and what a signature binds. *)
From stdpp Require Import gmap.
From S2P Require Import Prelude Bytes PrefixFree Wire Signed.

Section Replay.
Context (sha256 : list N -> list N) `{Hed : Ed25519}.

Definition signed_context (s : SignedEnvelope) : VerificationContext :=
  mkContext (se_audience s) (env_realm (se_envelope s)) (env_room (se_envelope s)) (se_epoch s)
    (se_session s).

(** The bytes under the signature, of an envelope that fits. *)
Definition signed_bytes (s : SignedEnvelope) : list N := written (w_bytes DOMAIN >> put_unsigned s).

(** Evidence that [key] signed [s] for the context [c] and a time up to [now]. *)
Record authentic (c : VerificationContext) (s : SignedEnvelope) (key : list N) (now : N) : Prop := {
  au_size : encoded_len (se_envelope s) <= MAX_SIGNED_BYTES - SIGNED_OVERHEAD_BYTES;
  au_strong : is_weak key = false;
  au_author : env_author (se_envelope s) = peer_id_from_key sha256 key;
  au_context : signed_context s = c;
  au_expiry : now <= se_expires_at s;
  au_signature : verify_strict key (signed_bytes s) (se_signature s) = true;
}.

(** The sequence is newer than the last one of the key, or there is room for
    the key. *)
Definition fresh (w : ReplayWindow) (key : list N) (sequence : N) : Prop :=
  match rw_last w !! key with
  | Some last => last < sequence
  | None => N.of_nat (size (rw_last w)) < rw_max_authors w
  end.

Definition record_sequence (w : ReplayWindow) (key : list N) (sequence : N) : ReplayWindow :=
  mkWindow (rw_context w) (rw_max_authors w) (<[key := sequence]> (rw_last w)).

Definition evidence (w : ReplayWindow) (s : SignedEnvelope) (key : list N) : VerifiedEnvelope :=
  mkVerified (se_envelope s) key (rw_context w) (se_expires_at s).

Lemma validate_size_Ok s : validate_size s = Ok tt <->
  encoded_len (se_envelope s) <= MAX_SIGNED_BYTES - SIGNED_OVERHEAD_BYTES.
Proof. unfold validate_size. case_match eqn:E; bool_to_prop; split; (done || lia). Qed.

Lemma transcript_of_Ok s t : transcript_of s = Ok t <->
  encoded_len (se_envelope s) <= MAX_SIGNED_BYTES - SIGNED_OVERHEAD_BYTES /\ t = signed_bytes s.
Proof.
  unfold transcript_of. rewrite res_bind_Ok, <- validate_size_Ok. split.
  - intros ([] & -> & [= <-]). done.
  - intros [-> ->]. by exists tt.
Qed.

Lemma admit_sequence_Ok key sequence w w' : admit_sequence key sequence w = (Ok tt, w') <->
  fresh w key sequence /\ w' = record_sequence w key sequence.
Proof.
  unfold admit_sequence, fresh, record_sequence, bind, get, throw, modify.
  destruct (rw_last w !! key) as [last|].
  - destruct (N.leb_spec sequence last); (split; [intros [=]|intros [? ->]]); subst; first [done|lia].
  - destruct (N.leb_spec (rw_max_authors w) (N.of_nat (size (rw_last w))));
      (split; [intros [=]|intros [? ->]]); subst; first [done|lia].
Qed.

Lemma verify_and_accept_Ok s key now w v w' :
  verify_and_accept sha256 s key now w = (Ok v, w') <->
  authentic (rw_context w) s key now /\ fresh w key (env_sequence (se_envelope s)) /\
  v = evidence w s key /\ w' = record_sequence w key (env_sequence (se_envelope s)).
Proof.
  unfold verify_and_accept, bind at 1, get. split.
  - intros H. unfold bind at 1, lift at 1 in H.
    destruct (validate_size s) as [[]|e|] eqn:Hs; cbn [map_err] in H; [|done..].
    apply validate_size_Ok in Hs. repeat (case_match; [done|]). bool_to_prop.
    assert (Ht : transcript_of s = Ok (signed_bytes s)) by (by apply transcript_of_Ok).
    rewrite Ht in H. cbn [map_err] in H. unfold bind at 1, lift in H.
    case_match; [done|]. bool_to_prop. unfold bind in H.
    destruct (admit_sequence _ _ w) as [[[]|e|] w1] eqn:Ha; [|done..].
    apply admit_sequence_Ok in Ha as [Hf ->]. injection H as <- <-.
    split; [|done]. split; try done. destruct (rw_context w). unfold signed_context. simpl in *. congruence.
  - intros ([Hsize Hweak Hauth Hctx Hexp Hsig] & Hf & -> & ->).
    unfold bind at 1, lift at 1. rewrite (proj2 (validate_size_Ok s)) by done. cbn [map_err].
    rewrite Hweak, Hauth, N.eqb_refl. cbn [negb].
    assert (Hc : se_audience s = vc_audience (rw_context w) /\
      env_realm (se_envelope s) = vc_realm (rw_context w) /\
      env_room (se_envelope s) = vc_room (rw_context w) /\ se_epoch s = vc_epoch (rw_context w) /\
      se_session s = vc_session (rw_context w)) by (by rewrite <- Hctx).
    destruct Hc as (-> & -> & -> & -> & ->). rewrite !N.eqb_refl. cbn [negb]. rewrite (proj2 (N.ltb_ge _ _)) by done.
    rewrite (proj2 (transcript_of_Ok s _)) by done. cbn [map_err]. unfold bind at 1, lift.
    rewrite Hsig. cbn [negb]. unfold bind. by rewrite (proj2 (admit_sequence_Ok _ _ _ _) (conj Hf eq_refl)).
Qed.

Lemma verify_fails s key now w e w' :
  verify_and_accept sha256 s key now w = (Err e, w') -> w' = w.
Proof.
  unfold verify_and_accept, admit_sequence, bind, get, lift, ret, throw, modify. intros H.
  repeat case_match; by simplify_eq.
Qed.

Lemma verify_no_panic s key now w : fst (verify_and_accept sha256 s key now w) <> Panic.
Proof.
  unfold verify_and_accept, admit_sequence, transcript_of, validate_size, bind, get, lift, ret, throw, modify.
  by repeat case_match; simplify_eq.
Qed.

(** ** What is signed determines the envelope and its context *)

Lemma signed_bytes_inj s1 s2 : signed_ok s1 -> signed_ok s2 ->
  encoded_len (se_envelope s1) <= MAX_SIGNED_BYTES - SIGNED_OVERHEAD_BYTES ->
  encoded_len (se_envelope s2) <= MAX_SIGNED_BYTES - SIGNED_OVERHEAD_BYTES ->
  signed_bytes s1 = signed_bytes s2 ->
  se_envelope s1 = se_envelope s2 /\ signed_context s1 = signed_context s2 /\
  se_expires_at s1 = se_expires_at s2.
Proof.
  intros [He1 ? ? ? ? _] [He2 ? ? ? ? _] Hs1 Hs2 E. unfold signed_bytes in E.
  rewrite !(written_seq (w_bytes DOMAIN)) in E by apply _. apply app_inv_head in E.
  apply (f_equal (fun W => W ++ [])) in E. unfold put_unsigned in E.
  change (MAX_SIGNED_BYTES - SIGNED_OVERHEAD_BYTES) with 65419 in *.
  rewrite !(written_seq (w_u8 _)), !(written_seq (w_u32 _)), !(written_seq (w_bytes _)) in E by apply _.
  rewrite <- !app_assoc in E. apply pf_inj in E as [_ E]; [|done..].
  apply pf_inj in E as [Hl E]; [|unfold u; lia..].
  apply app_inj_1 in E as [Henc E].
  - change (encode_envelope (se_envelope s1) = encode_envelope (se_envelope s2)) in Henc.
    assert (Henv : Ok (se_envelope s1) = (Ok (se_envelope s2) : res DecodeError Envelope)).
    { rewrite <- (decode_encode _ He1), <- (decode_encode _ He2). by rewrite Henc. }
    injection Henv as Henv. peel E. unfold signed_context. rewrite Henv. split; [done|].
    split; [congruence|done].
  - rewrite !length_w_bytes.
    pose proof (length_encode_envelope (se_envelope s1)). pose proof (length_encode_envelope (se_envelope s2)).
    unfold len in *. lia.
Qed.

(** ** Signing *)

Lemma sign_Ok envelope audience epoch session expires_at seed s :
  sign sha256 envelope audience epoch session expires_at seed = Ok s <->
  encoded_len envelope <= MAX_SIGNED_BYTES - SIGNED_OVERHEAD_BYTES /\
  env_author envelope = peer_id_from_seed sha256 seed /\
  s = mkSigned envelope audience epoch session expires_at
        (sign_bytes seed (signed_bytes (mkSigned envelope audience epoch session expires_at []))).
Proof.
  unfold sign, sign_with_key. cbv zeta.
  set (s0 := mkSigned envelope audience epoch session expires_at (replicate 64 0)).
  change (signed_bytes (mkSigned envelope audience epoch session expires_at [])) with (signed_bytes s0).
  destruct (validate_size s0) as [[]|e|] eqn:Hs; cbn [res_bind].
  - apply validate_size_Ok in Hs. rewrite (proj2 (transcript_of_Ok s0 _)) by done. cbn [res_bind].
    unfold peer_id_from_seed. simpl. case_match eqn:E; bool_to_prop.
    + split; [done|]. by intros (_ & ? & _).
    + split; [intros [= <-]; by split_and!|by intros (_ & _ & ->)].
  - split; [done|]. intros (Hs' & _). by rewrite (proj2 (validate_size_Ok s0)) in Hs.
  - unfold validate_size in Hs. by case_match.
Qed.

(** A frame signed with a strong key is authentic for the context it names. *)
Lemma sign_authentic `{!Ed25519Laws Hed} envelope audience epoch session expires_at seed s now :
  sign sha256 envelope audience epoch session expires_at seed = Ok s ->
  is_weak (verifying_key seed) = false -> now <= expires_at ->
  authentic (signed_context s) s (verifying_key seed) now.
Proof.
  intros (Hsize & Hauth & ->)%sign_Ok Hw Hnow. split; try done. apply (verify_sign _ _ Hw).
Qed.

Lemma sign_ok `{!Ed25519Laws Hed} envelope audience epoch session expires_at seed s :
  sign sha256 envelope audience epoch session expires_at seed = Ok s ->
  envelope_ok envelope -> u 128 audience -> u 64 epoch -> u 128 session -> u 64 expires_at ->
  signed_ok s.
Proof. intros (_ & _ & ->)%sign_Ok ? ? ? ? ?. split; try done. apply sign_bytes_wire. Qed.

(** ** Runs of the window *)

(** The accepted evidence of a sequence of calls, in order. *)
Fixpoint admit_all (calls : list (SignedEnvelope * list N * N)) (w : ReplayWindow) :
    list VerifiedEnvelope * ReplayWindow :=
  match calls with
  | [] => ([], w)
  | (s, key, now) :: calls =>
      let '(r, w) := verify_and_accept sha256 s key now w in
      let '(vs, w) := admit_all calls w in
      (match r with Ok v => v :: vs | _ => vs end, w)
  end.

Definition admission (v : VerifiedEnvelope) : list N * N :=
  (ve_signer_key v, env_sequence (ve_envelope v)).

(** The window only moves forward. *)
Definition advanced (w w' : ReplayWindow) : Prop :=
  rw_context w' = rw_context w /\ rw_max_authors w' = rw_max_authors w /\
  forall key last, rw_last w !! key = Some last ->
    exists last', rw_last w' !! key = Some last' /\ last <= last'.

Lemma advanced_refl w : advanced w w.
Proof. split; [done|]. split; [done|]. intros key last H. exists last. split; [done|lia]. Qed.

Lemma advanced_trans w1 w2 w3 : advanced w1 w2 -> advanced w2 w3 -> advanced w1 w3.
Proof.
  intros (C1 & M1 & H1) (C2 & M2 & H2). split; [congruence|]. split; [congruence|].
  intros key last (l2 & E2 & L2)%H1. apply H2 in E2 as (l3 & E3 & L3). exists l3. split; [done|lia].
Qed.

Lemma record_advanced w key sequence : fresh w key sequence -> advanced w (record_sequence w key sequence).
Proof.
  intros Hf. split; [done|]. split; [done|]. intros k last Hk. cbn.
  destruct (decide (k = key)) as [->|Hne].
  - rewrite lookup_insert_eq. exists sequence. split; [done|]. unfold fresh in Hf. rewrite Hk in Hf. lia.
  - rewrite lookup_insert_ne by done. exists last. split; [done|lia].
Qed.

Lemma verify_advanced s key now w :
  advanced w (snd (verify_and_accept sha256 s key now w)) /\
  (N.of_nat (size (rw_last w)) <= rw_max_authors w ->
   N.of_nat (size (rw_last (snd (verify_and_accept sha256 s key now w)))) <= rw_max_authors w).
Proof.
  destruct (verify_and_accept sha256 s key now w) as [[v|e|] w'] eqn:E; simpl.
  - apply verify_and_accept_Ok in E as (_ & Hf & _ & ->). split; [by apply record_advanced|].
    intros Hm. cbn. unfold fresh in Hf. destruct (rw_last w !! key) as [l|] eqn:El.
    + rewrite map_size_insert_Some by (by rewrite El). done.
    + rewrite map_size_insert_None by done. lia.
  - apply verify_fails in E as ->. split; [apply advanced_refl|done].
  - by destruct (verify_no_panic s key now w); rewrite E.
Qed.

(** Each key's accepted sequences are newer than what the window held. *)
Lemma admit_all_spec calls w :
  let '(vs, w') := admit_all calls w in
  advanced w w' /\
  (N.of_nat (size (rw_last w)) <= rw_max_authors w -> N.of_nat (size (rw_last w')) <= rw_max_authors w) /\
  (forall v, v ∈ vs -> ve_context v = rw_context w /\
     (forall last, rw_last w !! ve_signer_key v = Some last -> last < env_sequence (ve_envelope v)) /\
     exists s now, (s, ve_signer_key v, now) ∈ calls /\ ve_envelope v = se_envelope s /\
       ve_expires_at v = se_expires_at s /\ authentic (rw_context w) s (ve_signer_key v) now) /\
  NoDup (admission <$> vs).
Proof.
  revert w. induction calls as [|[[s key] now] calls IH]; intros w; cbn [admit_all].
  { split; [apply advanced_refl|]. split; [done|]. split; [by intros v ?%elem_of_nil|constructor]. }
  destruct (verify_advanced s key now w) as [Ha Hb].
  destruct (verify_and_accept sha256 s key now w) as [r w1] eqn:E. cbn [snd] in *.
  specialize (IH w1). destruct (admit_all calls w1) as [vs w2].
  destruct IH as (Ha2 & Hb2 & Hv & Hn). pose proof Ha as (Hc & Hm & Hl).
  split; [by eapply advanced_trans|]. split; [rewrite <- Hm in *; tauto|].
  assert (Hvs : forall v, v ∈ vs -> ve_context v = rw_context w /\
     (forall last, rw_last w !! ve_signer_key v = Some last -> last < env_sequence (ve_envelope v)) /\
     exists s0 now0, (s0, ve_signer_key v, now0) ∈ (s, key, now) :: calls /\ ve_envelope v = se_envelope s0 /\
       ve_expires_at v = se_expires_at s0 /\ authentic (rw_context w) s0 (ve_signer_key v) now0).
  { intros v (Hcv & Hlast & s0 & now0 & Hin & Henv & Hexp & Hau)%Hv. rewrite Hc in *.
    split; [done|]. split.
    - intros last (l' & E' & Hle)%Hl. specialize (Hlast _ E'). lia.
    - exists s0, now0. split; [by right|done]. }
  destruct r as [v|e|]; [|done..].
  apply verify_and_accept_Ok in E as (Hau & Hf & -> & ->). split.
  - intros v [->|Hin]%elem_of_cons; [|by apply Hvs]. split; [done|]. split.
    + intros last El. unfold fresh in Hf. cbn in *. by rewrite El in Hf.
    + exists s, now. split; [left|done].
  - csimpl. constructor; [|done]. intros (v & Ev & Hin)%list_elem_of_fmap.
    apply Hv in Hin as (_ & Hlast & _). unfold admission, evidence in Ev. cbn in Ev.
    injection Ev as Ek Es. specialize (Hlast (env_sequence (se_envelope s))).
    rewrite <- Ek, <- Es in Hlast. cbn in Hlast. rewrite lookup_insert_eq in Hlast.
    specialize (Hlast eq_refl). lia.
Qed.
End Replay.
