(* ===== verification/Access.v ===== *)
(** Local grants and the in-memory host (src/crates/vhalla-policy/src/lib.rs and
    src/crates/vhalla-host/src/lib.rs).  A capability is a value that the code
    can neither copy nor change; the functions that consume one take it as an
    argument. *)
From S2P Require Import Prelude Bytes Wire Signed.

(** ** vhalla-policy *)

Definition KIND_READ_MEMORY_REQUEST : N := 2.

Inductive Operation : Type := ReadMemory.

Record Scope : Type := mkScope { sc_operation : Operation; sc_resource : N }.

#[global] Instance Operation_eq_dec : EqDecision Operation. Proof. solve_decision. Defined.
#[global] Instance Scope_eq_dec : EqDecision Scope. Proof. solve_decision. Defined.

Inductive Denied : Type :=
| DeniedKind | DeniedScope | DeniedOwner | DeniedEpoch | DeniedContext | DeniedRequester | DeniedExpired.

Record RemoteRequest : Type := mkRequest { rr_verified : VerifiedEnvelope; rr_scope : Scope }.

Definition from_verified (verified : VerifiedEnvelope) (scope : Scope) : res Denied RemoteRequest :=
  if negb (env_kind (ve_envelope verified) =? KIND_READ_MEMORY_REQUEST) then Err DeniedKind
  else Ok (mkRequest verified scope).

Definition content (r : RemoteRequest) : list N := env_body (ve_envelope (rr_verified r)).

Record LocalPolicy : Type := mkPolicy {
  lp_context : VerificationContext;
  lp_requester : list N;
  lp_scope : Scope;
}.

Definition read_memory (context : VerificationContext) (requester : list N) (resource : N) :
    LocalPolicy :=
  mkPolicy context requester (mkScope ReadMemory resource).

Record AuthorizedEffect : Type := mkEffect {
  ae_event_id : N;
  ae_context : VerificationContext;
  ae_requester : list N;
  ae_scope : Scope;
  ae_expires_at : N;
}.

Definition check_grant (p : LocalPolicy) (context : VerificationContext) (requester : list N)
    (scope : Scope) : res Denied unit :=
  if negb (vc_audience context =? vc_audience (lp_context p)) then Err DeniedOwner
  else if negb (vc_epoch context =? vc_epoch (lp_context p)) then Err DeniedEpoch
  else if negb (bool_decide (context = lp_context p)) then Err DeniedContext
  else if negb (bool_decide (requester = lp_requester p)) then Err DeniedRequester
  else if negb (bool_decide (scope = lp_scope p)) then Err DeniedScope
  else Ok tt.

Definition authorize (p : LocalPolicy) (request : RemoteRequest) : res Denied AuthorizedEffect :=
  let v := rr_verified request in
  let? _ := check_grant p (ve_context v) (ve_signer_key v) (rr_scope request) in
  Ok (mkEffect (env_event (ve_envelope v)) (ve_context v) (ve_signer_key v) (rr_scope request)
        (ve_expires_at v)).

Definition validate_effect (p : LocalPolicy) (effect : AuthorizedEffect) (now : N) : res Denied unit :=
  let? _ := check_grant p (ae_context effect) (ae_requester effect) (ae_scope effect) in
  if ae_expires_at effect <? now then Err DeniedExpired else Ok tt.

(** ** vhalla-host *)

Record Receipt : Type := mkReceipt { rc_event_id : N; rc_operation : Operation }.

Inductive HostError : Type := HostDenied (e : Denied) | CounterOverflow.

Record MemoryHost : Type := mkHost { mh_policy : LocalPolicy; mh_reads : N }.

Definition MemoryHost_new (policy : LocalPolicy) : MemoryHost := mkHost policy 0.

Definition host_authorize (h : MemoryHost) (request : RemoteRequest) : res Denied AuthorizedEffect :=
  authorize (mh_policy h) request.

Definition execute (effect : AuthorizedEffect) (now : N) : eff MemoryHost HostError Receipt :=
  let! h := get in
  do! lift (map_err HostDenied (validate_effect (mh_policy h) effect now)) in
  let! next_reads := lift (ok_or (checked_add 64 (mh_reads h) 1) CounterOverflow) in
  do! modify (fun h => mkHost (mh_policy h) next_reads) in
  ret (mkReceipt (ae_event_id effect) (sc_operation (ae_scope effect))).

Definition replace_policy (next : LocalPolicy) : eff MemoryHost Denied unit :=
  let! h := get in
  let current := lp_context (mh_policy h) in
  let future := lp_context next in
  if negb (vc_audience future =? vc_audience current) then throw DeniedOwner
  else if negb (vc_realm future =? vc_realm current) || negb (vc_room future =? vc_room current) ||
          negb (vc_session future =? vc_session current)
  then throw DeniedContext
  else if vc_epoch future <=? vc_epoch current then throw DeniedEpoch
  else modify (fun h => mkHost next (mh_reads h)).

(** ** What the checks decide *)

Lemma check_grant_Ok p context requester scope :
  check_grant p context requester scope = Ok tt <->
  p = mkPolicy context requester scope.
Proof.
  unfold check_grant. destruct p as [c r s]. cbn [lp_context lp_requester lp_scope]. split.
  - intros H. repeat (case_match; [done|]). bool_to_prop. by subst.
  - intros [= -> -> ->]. by rewrite !N.eqb_refl, !bool_decide_true.
Qed.

(** A capability names its grant. *)
Definition grant_of (e : AuthorizedEffect) : LocalPolicy :=
  mkPolicy (ae_context e) (ae_requester e) (ae_scope e).

Lemma authorize_Ok p v scope e : authorize p (mkRequest v scope) = Ok e <->
  p = mkPolicy (ve_context v) (ve_signer_key v) scope /\
  e = mkEffect (env_event (ve_envelope v)) (ve_context v) (ve_signer_key v) scope (ve_expires_at v).
Proof.
  unfold authorize. cbv zeta. rewrite res_bind_Ok. split.
  - intros ([] & H%check_grant_Ok & [= <-]). done.
  - intros [H%check_grant_Ok ->]. by exists tt.
Qed.

Lemma execute_Ok e now h r h' : execute e now h = (Ok r, h') <->
  mh_policy h = grant_of e /\ now <= ae_expires_at e /\ mh_reads h + 1 < 2 ^ 64 /\
  r = mkReceipt (ae_event_id e) (sc_operation (ae_scope e)) /\
  h' = mkHost (mh_policy h) (mh_reads h + 1).
Proof.
  unfold execute, validate_effect, bind, get, lift, modify, ret, checked_add, grant_of.
  destruct (check_grant _ _ _ _) as [[]|d|] eqn:E; cbn [res_bind map_err].
  - apply check_grant_Ok in E. rewrite <- E.
    destruct (N.ltb_spec (ae_expires_at e) now); cbn [map_err]; [split; [done|lia]|].
    destruct (N.ltb_spec (mh_reads h + 1) (2 ^ 64)); cbn [ok_or]; [|split; [done|lia]].
    split; [by intros [= <- <-]|by intros (_ & _ & _ & -> & ->)].
  - split; [done|]. intros (Hp & _). apply (proj2 (check_grant_Ok _ _ _ _)) in Hp. congruence.
  - split; [done|]. intros (Hp & _). apply (proj2 (check_grant_Ok _ _ _ _)) in Hp. congruence.
Qed.

Lemma execute_fails e now h er h' : execute e now h = (Err er, h') -> h' = h.
Proof.
  unfold execute, bind, get, lift, modify, ret. intros H. repeat case_match; by simplify_eq.
Qed.

Lemma execute_no_panic e now h : fst (execute e now h) <> Panic.
Proof.
  unfold execute, validate_effect, check_grant, bind, get, lift, modify, ret, checked_add.
  by repeat case_match; simplify_eq.
Qed.

Lemma replace_policy_Ok next h h' : replace_policy next h = (Ok tt, h') <->
  let current := lp_context (mh_policy h) in
  let future := lp_context next in
  vc_audience future = vc_audience current /\ vc_realm future = vc_realm current /\
  vc_room future = vc_room current /\ vc_session future = vc_session current /\
  vc_epoch current < vc_epoch future /\ h' = mkHost next (mh_reads h).
Proof.
  unfold replace_policy, bind, get, throw, modify. cbv zeta. split.
  - intros H. repeat (case_match; [done|]). bool_to_prop. by injection H as <-.
  - intros (-> & -> & -> & -> & He & ->). rewrite !N.eqb_refl. cbn [negb orb].
    by rewrite (proj2 (N.leb_gt _ _)).
Qed.

Lemma replace_policy_fails next h e h' : replace_policy next h = (Err e, h') -> h' = h.
Proof. unfold replace_policy, bind, get, throw, modify. intros H. repeat case_match; by simplify_eq. Qed.
