(* ===== verification/Relay.v ===== *)
(** The bounded in-memory relay (src/crates/vhalla-transport/src/lib.rs) and the
    guard of single-use invitation nonces
    (src/crates/vhalla-session/src/spent_nonce.rs). *)
From stdpp Require Import gmap.
From S2P Require Import Prelude Bytes.

(** ** vhalla-transport *)

Definition MAX_FRAME_BYTES : N := 64 * 1024.

Record Frame : Type := mkFrame { frame_bytes : list N }.

#[global] Instance Frame_eq_dec : EqDecision Frame. Proof. solve_decision. Defined.

Inductive Path : Type := Direct | RelayPath.

Inductive TransportError : Type :=
| FrameTooLarge (actual limit : N)
| QueueFull.

Definition Frame_new (bytes : list N) : res TransportError Frame :=
  if MAX_FRAME_BYTES <? len bytes then Err (FrameTooLarge (len bytes) MAX_FRAME_BYTES)
  else Ok (mkFrame bytes).

Record InMemoryRelay : Type := mkRelay {
  ir_max_queue : N;
  ir_queue : list Frame;
  ir_path : Path;
}.

Definition InMemoryRelay_new (max_queue : N) (path : Path) : InMemoryRelay :=
  mkRelay max_queue [] path.

Definition set_queue (q : list Frame) (r : InMemoryRelay) : InMemoryRelay :=
  mkRelay (ir_max_queue r) q (ir_path r).

Definition send (frame : Frame) : eff InMemoryRelay TransportError unit :=
  let! r := get in
  if ir_max_queue r <=? len (ir_queue r) then throw QueueFull
  else modify (set_queue (ir_queue r ++ [frame])).

(** [pop_front]: the frame, if there is one, and the relay without it. *)
Definition recv (r : InMemoryRelay) : option Frame * InMemoryRelay :=
  match ir_queue r with
  | [] => (None, r)
  | frame :: q => (Some frame, set_queue q r)
  end.

(** ** vhalla-session: spent nonces *)

Record SpentInvitationNonces : Type := mkSpent { sn_capacity : N; sn_spent : gset (list N) }.

Inductive SpendError : Type := Malformed | AlreadySpent | SpendCapacity.

Definition Spent_new (capacity : N) : SpentInvitationNonces := mkSpent capacity ∅.

Definition spent_len (g : SpentInvitationNonces) : N := N.of_nat (size (sn_spent g)).

Definition spent_contains (g : SpentInvitationNonces) (nonce : list N) : bool :=
  bool_decide (nonce ∈ sn_spent g).

Definition consume (nonce : list N) : eff SpentInvitationNonces SpendError unit :=
  let! g := get in
  if bool_decide (nonce = replicate 32 0) then throw Malformed
  else if bool_decide (nonce ∈ sn_spent g) then throw AlreadySpent
  else if sn_capacity g <=? spent_len g then throw SpendCapacity
  else modify (fun g => mkSpent (sn_capacity g) ({[nonce]} ∪ sn_spent g)).

(** ** The relay as a queue *)

(** A call, and what it gives back. *)
Inductive RelayCall : Type := CallSend (frame : Frame) | CallRecv.

(** The frames accepted and the frames delivered by a sequence of calls. *)
Fixpoint relay_run (calls : list RelayCall) (r : InMemoryRelay) :
    list Frame * list Frame * InMemoryRelay :=
  match calls with
  | [] => ([], [], r)
  | CallSend frame :: calls =>
      let '(a, r) := send frame r in
      let '(sent, got, r) := relay_run calls r in
      (match a with Ok _ => frame :: sent | _ => sent end, got, r)
  | CallRecv :: calls =>
      let '(o, r) := recv r in
      let '(sent, got, r) := relay_run calls r in
      (sent, match o with Some frame => frame :: got | None => got end, r)
  end.

Lemma send_Ok frame r r' : send frame r = (Ok tt, r') <->
  len (ir_queue r) < ir_max_queue r /\ r' = set_queue (ir_queue r ++ [frame]) r.
Proof.
  unfold send, bind, get, throw, modify. destruct (N.leb_spec (ir_max_queue r) (len (ir_queue r))).
  - split; [done|lia].
  - split; [by intros [= <-]|by intros [_ ->]].
Qed.

Lemma send_fails frame r e r' : send frame r = (Err e, r') ->
  e = QueueFull /\ r' = r /\ ir_max_queue r <= len (ir_queue r).
Proof.
  unfold send, bind, get, throw, modify. destruct (N.leb_spec (ir_max_queue r) (len (ir_queue r))); [|done].
  by intros [= <- <-].
Qed.

(** Order is kept, nothing is lost or made up, and the bound holds. *)
Lemma relay_run_fifo calls r :
  let '(sent, got, r') := relay_run calls r in
  ir_queue r ++ sent = got ++ ir_queue r' /\ ir_max_queue r' = ir_max_queue r /\
  (len (ir_queue r) <= ir_max_queue r -> len (ir_queue r') <= ir_max_queue r).
Proof.
  revert r. induction calls as [|[frame|] calls IH]; intros r; cbn [relay_run].
  - by rewrite app_nil_r.
  - destruct (send frame r) as [[[]|e|] r1] eqn:E.
    + apply send_Ok in E as [Hl ->]. specialize (IH (set_queue (ir_queue r ++ [frame]) r)).
      destruct (relay_run calls _) as [[sent got] r2]. destruct IH as (E & Hm & Hb). cbn in *.
      rewrite <- app_assoc in E. split; [done|]. split; [done|]. intros _. apply Hb.
      unfold len in *. rewrite length_app. simpl. lia.
    + apply send_fails in E as (_ & -> & _). specialize (IH r).
      by destruct (relay_run calls r) as [[sent got] r2].
    + unfold send, bind, get in E. by destruct (_ <=? _).
  - unfold recv. destruct (ir_queue r) as [|frame q] eqn:Eq.
    + specialize (IH r). destruct (relay_run calls r) as [[sent got] r2]. by rewrite Eq in IH.
    + specialize (IH (set_queue q r)). destruct (relay_run calls _) as [[sent got] r2].
      destruct IH as (E & Hm & Hb). cbn in *. rewrite E. split; [done|]. split; [done|].
      intros H. apply Hb. unfold len in *. simpl in H. lia.
Qed.

(** ** The guard *)

Lemma consume_Ok nonce g g' : consume nonce g = (Ok tt, g') <->
  nonce <> replicate 32 0 /\ nonce ∉ sn_spent g /\ spent_len g < sn_capacity g /\
  g' = mkSpent (sn_capacity g) ({[nonce]} ∪ sn_spent g).
Proof.
  unfold consume, bind, get, throw, modify. split.
  - intros H. repeat (case_match; [done|]). bool_to_prop. by injection H as <-.
  - intros (H1 & H2 & H3 & ->). rewrite !bool_decide_false by done. by rewrite (proj2 (N.leb_gt _ _)).
Qed.

Lemma consume_fails nonce g e g' : consume nonce g = (Err e, g') -> g' = g.
Proof. unfold consume, bind, get, throw, modify. intros H. repeat case_match; by simplify_eq. Qed.

(** The nonces consumed by a sequence of attempts, in order. *)
Fixpoint consume_all (nonces : list (list N)) (g : SpentInvitationNonces) :
    list (list N) * SpentInvitationNonces :=
  match nonces with
  | [] => ([], g)
  | nonce :: nonces =>
      let '(a, g) := consume nonce g in
      let '(used, g) := consume_all nonces g in
      (match a with Ok _ => nonce :: used | _ => used end, g)
  end.

Lemma consume_all_spec nonces g :
  let '(used, g') := consume_all nonces g in
  NoDup used /\ (forall n, n ∈ used -> n ∉ sn_spent g) /\
  sn_spent g' = list_to_set used ∪ sn_spent g /\ sn_capacity g' = sn_capacity g /\
  (spent_len g <= sn_capacity g -> spent_len g' <= sn_capacity g).
Proof.
  revert g. induction nonces as [|nonce nonces IH]; intros g; cbn [consume_all].
  { split; [constructor|]. split; [by intros n ?%elem_of_nil|]. split; [set_solver|done]. }
  destruct (consume nonce g) as [[[]|e|] g1] eqn:E.
  - apply consume_Ok in E as (_ & Hn & Hl & ->).
    specialize (IH (mkSpent (sn_capacity g) ({[nonce]} ∪ sn_spent g))).
    destruct (consume_all nonces _) as [used g2]. cbn in *. destruct IH as (Hd & Hu & Hs & Hc & Hb).
    split; [constructor; [|done]; intros Hin; apply (Hu _ Hin); set_solver|].
    split; [set_solver|]. split; [rewrite Hs; set_solver|]. split; [done|]. intros _. apply Hb.
    unfold spent_len in *. cbn. rewrite size_union by set_solver. rewrite size_singleton. lia.
  - apply consume_fails in E as ->. specialize (IH g). by destruct (consume_all nonces g).
  - unfold consume, bind, get, throw, modify in E. repeat case_match; by simplify_eq.
Qed.
