(* ===== verification/Challenge.v ===== *)
(** Challenges of the bot captcha (src/crates/vhalla-botcaptcha/src/lib.rs and
    challenge.rs): their codec, their issuer and their verification.  SHA-256
    is an argument and Ed25519 the class of [Signed]. *)
From Stdlib Require Import Ascii String.
From S2P Require Import Prelude Bytes ProgramCodec WorldCodec ResultCodec Platform Signed.

(** ** Constants and transcripts *)

Definition VERSION : N := 1.
Definition KIND_WITNESS_RESPONSE : N := 3.
Definition MAX_CHALLENGE_LIFETIME : N := 15 * 60.
Definition CHALLENGE_DOMAIN : list N := bytes_of "vhalla/botcaptcha/challenge/v1".
Definition RESPONSE_DOMAIN : list N := bytes_of "vhalla/botcaptcha/response/v1".
Definition DEDUP_DOMAIN : list N := bytes_of "vhalla/botcaptcha/dedup/v1".
Definition REWARD_DOMAIN : list N := bytes_of "vhalla/botcaptcha/reward/v1".
Definition WORK_DOMAIN : list N := bytes_of "vhalla/botcaptcha/pow/v1".
Definition HASHCASH_RESPONSE_DOMAIN : list N := bytes_of "vhalla/botcaptcha/hashcash-response/v1".

(** The message a key signs. *)
Definition transcript (domain body : list N) : list N :=
  domain ++ be 4 (if len body <? 2 ^ 32 then len body else 2 ^ 32 - 1) ++ body.

(** ** Data *)

Inductive Algorithm : Type := Hashcash | Witness.
Inductive Purpose : Type := RateLimitRelief | GameQualification.

#[global] Instance Algorithm_eq_dec : EqDecision Algorithm. Proof. solve_decision. Defined.
#[global] Instance Purpose_eq_dec : EqDecision Purpose. Proof. solve_decision. Defined.

Record ChallengeContext : Type := mkChallengeContext {
  cc_issuer_key : list N; cc_subject_key : list N; cc_realm : N; cc_room : N; cc_purpose : Purpose;
}.

#[global] Instance ChallengeContext_eq_dec : EqDecision ChallengeContext.
Proof. solve_decision. Defined.

Definition MAX_DIFFICULTY : N := 48.

Record Difficulty : Type := mkDifficulty { bits : N }.

Definition Difficulty_new (bits : N) : option Difficulty :=
  if (1 <=? bits) && (bits <=? MAX_DIFFICULTY) then Some (mkDifficulty bits) else None.

Inductive Requirement : Type :=
| RequireWitness (contract : WorkContract)
| RequireHashcash (difficulty : Difficulty).

Definition CHALLENGE_BYTES : N := 1 + 1 + 32 + 32 + 32 + 16 + 16 + 1 + 32 + 8 + 8 + 8 + 8 + 1 + 64.

Record Challenge : Type := mkChallenge {
  ch_version : N; ch_algorithm : Algorithm; ch_challenge_id : list N; ch_issuer_key : list N;
  ch_subject_key : list N; ch_realm : N; ch_room : N; ch_purpose : Purpose;
  ch_task_manifest_hash : ManifestHash; ch_issued_at : N; ch_expires_at : N;
  ch_requirement : Requirement; ch_signature : list N;
}.

(** The [repr(u8)] discriminants. *)
Definition algorithm_tag (a : Algorithm) : N := match a with Hashcash => 1 | Witness => 2 end.
Definition purpose_tag (p : Purpose) : N :=
  match p with RateLimitRelief => 1 | GameQualification => 2 end.

(** ** Codec *)

Definition put_algorithm (a : Algorithm) : Writer -> Writer := w_u8 (algorithm_tag a).
Definition put_purpose (p : Purpose) : Writer -> Writer := w_u8 (purpose_tag p).
Definition put_manifest_hash (h : ManifestHash) : Writer -> Writer := w_bytes (manifest_hash h).

(** Both variants occupy the same seventeen bytes. *)
Definition put_requirement (r : Requirement) : Writer -> Writer :=
  match r with
  | RequireWitness contract =>
      w_u64 (useful_floor contract) >> w_u64 (total_ceiling contract)
      >> w_bool (require_passed contract)
  | RequireHashcash difficulty => w_u64 (bits difficulty) >> w_u64 0 >> w_bool false
  end.

Definition put_challenge_body (c : Challenge) : Writer -> Writer :=
  w_u8 (ch_version c) >> put_algorithm (ch_algorithm c) >> w_bytes (ch_challenge_id c)
  >> w_bytes (ch_issuer_key c) >> w_bytes (ch_subject_key c) >> w_u128 (ch_realm c)
  >> w_u128 (ch_room c) >> put_purpose (ch_purpose c)
  >> put_manifest_hash (ch_task_manifest_hash c) >> w_u64 (ch_issued_at c)
  >> w_u64 (ch_expires_at c) >> put_requirement (ch_requirement c).

Definition challenge_body (c : Challenge) : list N := written (put_challenge_body c).
Definition challenge_transcript (c : Challenge) : list N :=
  transcript CHALLENGE_DOMAIN (challenge_body c).

Definition put_challenge (c : Challenge) : Writer -> Writer :=
  put_challenge_body c >> w_bytes (ch_signature c).
Definition encode_challenge (c : Challenge) : list N := written (put_challenge c).

Definition read_u128 : read N :=
  let! hi := r_u64 FContract in
  let! lo := r_u64 FContract in
  ret (N.lor (N.shiftl hi 64) lo).

(** [version != VERSION] *)
Definition get_version : read N :=
  let! version := r_u8 FVersion in
  if negb (version =? VERSION) then throw (UnsupportedVersion version) else ret version.

Definition get_algorithm : read Algorithm :=
  let! tag := r_u8 FLanguage in
  match tag with
  | 1 => ret Hashcash
  | 2 => ret Witness
  | found => throw (Discriminant FLanguage found)
  end.

Definition get_purpose : read Purpose :=
  let! tag := r_u8 FContract in
  match tag with
  | 1 => ret RateLimitRelief
  | 2 => ret GameQualification
  | found => throw (Discriminant FContract found)
  end.

Definition get_manifest_hash : read ManifestHash := let! h := r_hash in ret (mkManifestHash h).

Definition get_requirement (algorithm : Algorithm) : read Requirement :=
  let! first := r_u64 FContract in
  let! second := r_u64 FContract in
  let! third := r_bool FContract in
  match algorithm with
  | Witness => ret (RequireWitness (mkWorkContract first second third))
  | Hashcash =>
      let bits := if first <? 2 ^ 8 then Difficulty_new first else None in
      match bits with
      | Some difficulty =>
          if (second =? 0) && negb third then ret (RequireHashcash difficulty)
          else throw (Bound FContract)
      | None => throw (Bound FContract)
      end
  end.

(** The two halves of a signature. *)
Definition r_signature : read (list N) :=
  let! first := r_hash in
  let! second := r_hash in
  ret (first ++ second).

Definition get_challenge : read Challenge :=
  let! version := get_version in
  let! algorithm := get_algorithm in
  let! challenge_id := r_hash in
  let! issuer_key := r_hash in
  let! subject_key := r_hash in
  let! realm := read_u128 in
  let! room := read_u128 in
  let! purpose := get_purpose in
  let! task_manifest_hash := get_manifest_hash in
  let! issued_at := r_u64 FContract in
  let! expires_at := r_u64 FContract in
  let! requirement := get_requirement algorithm in
  let! signature := r_signature in
  ret (mkChallenge version algorithm challenge_id issuer_key subject_key realm room purpose
         task_manifest_hash issued_at expires_at requirement signature).

Definition decode_challenge (raw : list N) : res CodecError Challenge :=
  decode CHALLENGE_BYTES get_challenge raw.

(** ** Accessors *)

Definition challenge_contract (c : Challenge) : option WorkContract :=
  match ch_requirement c with RequireWitness contract => Some contract | RequireHashcash _ => None end.

Definition challenge_difficulty (c : Challenge) : option Difficulty :=
  match ch_requirement c with RequireWitness _ => None | RequireHashcash d => Some d end.

Definition challenge_context (c : Challenge) : ChallengeContext :=
  mkChallengeContext (ch_issuer_key c) (ch_subject_key c) (ch_realm c) (ch_room c) (ch_purpose c).

(** ** Issuing and verifying *)

Inductive IssueError : Type := IssueLifetime | IssueClock.

Inductive WitnessError : Type :=
| WCodec (e : CodecError) | WAlgorithm | WWeakIssuerKey | WIssuerSignature | WContext
| WNotYetValid | WExpired | WBeforeVerifierStart | WLifetime | WManifest | WWeakSubjectKey
| WSubjectSignature | WBinding | WClaim | WCandidate | WProgram | WAllowance | WRun | WReceipt
| WFloor | WCeiling | WNotPassed | WReplay | WEquivocation | WCapacity | WSubjectCapacity
| WInsufficientWork.

Record VerifiedChallenge : Type := mkVerifiedChallenge {
  vch_challenge : Challenge; vch_scope_key : list N;
}.

Section Challenge.
Context (sha256 : list N -> list N) `{Hed : Ed25519}.

Definition challenge_hash (c : Challenge) : list N := digest sha256 CHALLENGE_DOMAIN (challenge_body c).

Definition scope_key (c : Challenge) : list N :=
  digest sha256 DEDUP_DOMAIN (ch_issuer_key c ++ ch_challenge_id c ++ ch_subject_key c).

(** [seed] is the key an issuer holds. *)
Definition issue_with (seed : list N) (algorithm : Algorithm) (entropy : list N) (now lifetime : N)
    (subject_key : list N) (realm room : N) (purpose : Purpose) (task_manifest_hash : ManifestHash)
    (requirement : Requirement) : res IssueError Challenge :=
  if (lifetime =? 0) || (MAX_CHALLENGE_LIFETIME <? lifetime) then Err IssueLifetime
  else
    let? expires_at := ok_or (checked_add 64 now lifetime) IssueClock in
    let challenge := mkChallenge VERSION algorithm entropy (verifying_key seed) subject_key realm room
      purpose task_manifest_hash now expires_at requirement in
    Ok (challenge (sign_bytes seed (challenge_transcript (challenge (replicate 64 0))))).

Definition issue (seed entropy : list N) (now lifetime : N) (subject_key : list N) (realm room : N)
    (purpose : Purpose) (task_manifest_hash : ManifestHash) (contract : WorkContract)
    : res IssueError Challenge :=
  issue_with seed Witness entropy now lifetime subject_key realm room purpose task_manifest_hash
    (RequireWitness contract).

Definition issue_hashcash (seed entropy : list N) (now lifetime : N) (subject_key : list N)
    (realm room : N) (purpose : Purpose) (difficulty : Difficulty) : res IssueError Challenge :=
  issue_with seed Hashcash entropy now lifetime subject_key realm room purpose
    (mkManifestHash (replicate 32 0)) (RequireHashcash difficulty).

(** [VerifiedChallenge::verify] *)
Definition verify_challenge (challenge : Challenge) (expected : ChallengeContext)
    (started_at now : N) : res WitnessError VerifiedChallenge :=
  if negb (valid_key (ch_issuer_key challenge)) then Err WIssuerSignature
  else if is_weak (ch_issuer_key challenge) then Err WWeakIssuerKey
  else if negb (verify_strict (ch_issuer_key challenge) (challenge_transcript challenge)
                  (ch_signature challenge)) then Err WIssuerSignature
  else if negb (bool_decide (challenge_context challenge = expected)) then Err WContext
  else
    let? lifetime := ok_or (checked_sub (ch_expires_at challenge) (ch_issued_at challenge)) WLifetime in
    if (lifetime =? 0) || (MAX_CHALLENGE_LIFETIME <? lifetime) then Err WLifetime
    else if now <? ch_issued_at challenge then Err WNotYetValid
    else if ch_expires_at challenge <? now then Err WExpired
    else if ch_issued_at challenge <? started_at then Err WBeforeVerifierStart
    else Ok (mkVerifiedChallenge challenge (scope_key challenge)).
End Challenge.

Definition run_capability (v : VerifiedChallenge) (program : ProgramHash) (allowance : WorkAllowance)
    (role : RunRole) : RunCapability :=
  mint (ch_task_manifest_hash (vch_challenge v)) program allowance role.

Definition receipt_binding (v : VerifiedChallenge) : ReceiptBinding :=
  mkReceiptBinding (ch_challenge_id (vch_challenge v)) (ch_subject_key (vch_challenge v)).

(** ** Laws of the codec *)

Definition manifest_hash_wire (h : ManifestHash) : Prop := hash_wire (manifest_hash h).

Definition difficulty_ok (d : Difficulty) : Prop := 1 <= bits d <= MAX_DIFFICULTY.

(** The requirement is of the kind the algorithm names. *)
Definition requirement_wire (a : Algorithm) (r : Requirement) : Prop :=
  match a, r with
  | Witness, RequireWitness contract => contract_wire contract
  | Hashcash, RequireHashcash d => difficulty_ok d
  | _, _ => False
  end.

Lemma Difficulty_new_Some n d : Difficulty_new n = Some d <-> d = mkDifficulty n /\ difficulty_ok d.
Proof.
  unfold Difficulty_new, difficulty_ok. split.
  - case_match eqn:E; [|done]. bool_to_prop. by intros [= <-].
  - intros [-> [H1 H2]]. cbn [bits] in *. by rewrite !(proj2 (N.leb_le _ _)).
Qed.

#[export] Instance codec_version : Codec (fun v => v = VERSION) w_u8 get_version.
Proof.
  apply codec_intro; [apply _|by intros ? ->; repeat constructor| | |].
  - unfold get_version. apply safe_bind. intros a. case_match; apply _.
  - intros r k v r' Hr E H. unfold get_version in H. inv_reads H Hr E.
    destruct (N.eqb_spec a VERSION); [|done]. cbn [negb] in H. inv_reads H Hr E. by inv_close E.
  - intros r k v Hr -> E. unfold get_version. by fwd_read E.
Qed.

#[export] Instance codec_algorithm : Codec (fun _ => True) put_algorithm get_algorithm.
Proof. codec_tac put_algorithm get_algorithm. Qed.
#[export] Instance codec_purpose : Codec (fun _ => True) put_purpose get_purpose.
Proof. codec_tac put_purpose get_purpose. Qed.

#[export] Instance codec_manifest_hash : Codec manifest_hash_wire put_manifest_hash get_manifest_hash.
Proof. apply codec_newtype; [done|by intros []|done]. Qed.

(** Two words of 64 bits are one of 128. *)
Lemma words_lor hi lo : lo < 2 ^ 64 -> N.lor (N.shiftl hi 64) lo = hi * 2 ^ 64 + lo.
Proof.
  intros Hlo. assert (H : N.land (N.shiftl hi 64) lo = 0).
  { apply N.bits_inj. intros i. rewrite N.land_spec, N.bits_0.
    destruct (N.ltb_spec i 64); [by rewrite N.shiftl_spec_low|].
    rewrite <- (N.mod_small lo (2 ^ 64)) by done. by rewrite N.mod_pow2_bits_high, andb_false_r. }
  rewrite <- N.lxor_lor by done. rewrite <- N.add_nocarry_lxor by done. by rewrite N.shiftl_mul_pow2.
Qed.

Lemma be_words v : v < 2 ^ 128 -> be 16 v = be 8 (v / 2 ^ 64) ++ be 8 (v mod 2 ^ 64).
Proof.
  intros Hv. assert (Hl : length (be 8 (v / 2 ^ 64) ++ be 8 (v mod 2 ^ 64)) = 16%nat)
    by (by rewrite length_app, !be_length).
  rewrite <- (be_of_be (be 8 (v / 2 ^ 64) ++ be 8 (v mod 2 ^ 64))).
  2: { apply Forall_app. split; apply be_bytes. }
  rewrite Hl. f_equal. unfold of_be. rewrite foldl_app, foldl_be, be_length.
  fold (of_be (be 8 (v / 2 ^ 64))).
  rewrite !of_be_be.
  - pose proof (N.div_mod v (2 ^ 64)). change (256 ^ N.of_nat 8) with (2 ^ 64). lia.
  - apply N.mod_lt. done.
  - change (256 ^ N.of_nat 8) with (2 ^ 64). apply N.Div0.div_lt_upper_bound. by rewrite <- N.pow_add_r.
Qed.

#[export] Instance codec_words128 : Codec (u 128) w_u128 read_u128.
Proof.
  unfold u. apply codec_intro; [apply _|intros; apply be_bytes| | |].
  - codec_safe read_u128.
  - intros r k v r' Hr E H. unfold read_u128 in H. inv_reads H Hr E. unfold u in *.
    rewrite words_lor by done. split; [lia|]. eexists _, _. split; [exact E|]. split; [done|].
    change (written (w_u128 ?v)) with (be 16 v). rewrite be_words by lia.
    rewrite N.div_add_l, N.div_small, N.add_0_r by done.
    by rewrite N.add_comm, N.Div0.mod_add, N.mod_small.
  - intros r k v Hr Hv E. change (written (w_u128 v)) with (be 16 v) in *.
    rewrite be_words, <- app_assoc in * by done.
    change (be 8 (v / 2 ^ 64)) with (written (w_u64 (v / 2 ^ 64))) in *.
    change (be 8 (v mod 2 ^ 64)) with (written (w_u64 (v mod 2 ^ 64))) in *.
    unfold read_u128. fwd_read E; [|unfold u; apply N.Div0.div_lt_upper_bound; by rewrite <- N.pow_add_r].
    fwd_read E; [|by apply N.mod_lt]. unfold ret. do 2 f_equal.
    rewrite words_lor by (by apply N.mod_lt). pose proof (N.div_mod v (2 ^ 64)). lia.
Qed.

#[export] Instance codec_requirement a : Codec (requirement_wire a) put_requirement (get_requirement a).
Proof.
  apply codec_intro.
  - intros []; unfold put_requirement; apply _.
  - destruct a; intros [contract|d]; try done; intros H; unfold put_requirement; written_norm;
      repeat (apply Forall_app; split); eauto with bytes.
  - codec_safe get_requirement.
  - intros r k q r' Hr E H. unfold get_requirement in H. inv_reads H Hr E. destruct a.
    + destruct (N.ltb_spec a0 (2 ^ 8)); [|done]. destruct (Difficulty_new a0) as [d|] eqn:Ed; [|done].
      apply Difficulty_new_Some in Ed as [-> Hd].
      destruct (N.eqb_spec a1 0) as [->|]; [|done]. destruct a2; [done|]. cbn [andb negb] in H.
      inv_reads H Hr E. by inv_close_with put_requirement E.
    + inv_reads H Hr E. by inv_close_with put_requirement E.
  - intros r k q Hr Hq E. unfold get_requirement. destruct a, q as [contract|d]; try done;
      unfold put_requirement in *; split_written; rewrite <- ?app_assoc in E.
    + destruct Hq as [H1 H2]. unfold MAX_DIFFICULTY in *.
      fwd_read E; [|unfold u; lia]. fwd_read E; [|done]. fwd_read E; [|done].
      rewrite (proj2 (N.ltb_lt _ _)) by lia.
      rewrite (proj2 (Difficulty_new_Some _ d)); [|destruct d; by split; [|split]].
      cbn [N.eqb andb negb]. unfold ret. by rewrite <- ?app_assoc.
    + destruct Hq as [H1 H2]. fwd_reads E. unfold ret. rewrite <- ?app_assoc. by destruct contract.
Qed.

#[export] Instance codec_signature : Codec sig_wire w_bytes r_signature.
Proof.
  unfold sig_wire. apply codec_intro; [apply _|by intros ? []| | |].
  - codec_safe r_signature.
  - intros r k l r' Hr E H. unfold r_signature in H. inv_reads H Hr E.
    destruct Ha as [B1 L1], Ha0 as [B2 L2]. split.
    + split; [by apply Forall_app|]. by rewrite length_app, L1, L2.
    + eexists _, _. split; [exact E|]. done.
  - intros r k l Hr [Hb Hl] E. change (written (w_bytes l)) with l in *.
    assert (El : l = written (w_bytes (take 32 l)) ++ written (w_bytes (drop 32 l)))
      by (symmetry; apply take_drop).
    rewrite El, <- app_assoc in E. unfold r_signature.
    fwd_read E; [|split; [by apply Forall_take|rewrite length_take; lia]].
    fwd_read E; [|split; [by apply Forall_drop|rewrite length_drop; lia]].
    unfold ret. by rewrite take_drop, app_nil_l, <- El.
Qed.

Lemma bytes_algorithm a : Forall byte (written (put_algorithm a)).
Proof. by apply (codec_bytes (g := get_algorithm)). Qed.
Lemma bytes_purpose p : Forall byte (written (put_purpose p)).
Proof. by apply (codec_bytes (g := get_purpose)). Qed.
Lemma bytes_manifest_hash h : manifest_hash_wire h -> Forall byte (written (put_manifest_hash h)).
Proof. apply (codec_bytes (g := get_manifest_hash)). Qed.
Lemma bytes_requirement a q : requirement_wire a q -> Forall byte (written (put_requirement q)).
Proof. apply (codec_bytes (g := get_requirement a)). Qed.
Lemma bytes_signature l : sig_wire l -> Forall byte (written (w_bytes l)).
Proof. by intros []. Qed.
#[export] Hint Resolve bytes_algorithm bytes_purpose bytes_manifest_hash bytes_requirement
  bytes_signature : bytes.

(** The fields under the signature are those of a challenge of this version. *)
Definition challenge_wire (c : Challenge) : Prop :=
  ch_version c = VERSION /\ hash_wire (ch_challenge_id c) /\ hash_wire (ch_issuer_key c) /\
  hash_wire (ch_subject_key c) /\ u 128 (ch_realm c) /\ u 128 (ch_room c) /\
  manifest_hash_wire (ch_task_manifest_hash c) /\ u 64 (ch_issued_at c) /\ u 64 (ch_expires_at c) /\
  requirement_wire (ch_algorithm c) (ch_requirement c) /\ sig_wire (ch_signature c).

#[export] Instance appends_requirement q : Appends (put_requirement q).
Proof. destruct q; unfold put_requirement; apply _. Qed.
#[export] Instance appends_manifest_hash h : Appends (put_manifest_hash h).
Proof. unfold put_manifest_hash. apply _. Qed.
#[export] Instance appends_challenge_body c : Appends (put_challenge_body c).
Proof. unfold put_challenge_body. apply _. Qed.

Lemma written_challenge c : written (put_challenge c) = challenge_body c ++ ch_signature c.
Proof. unfold put_challenge. by rewrite written_seq by apply _. Qed.

Lemma challenge_body_written c : challenge_body c =
  [ch_version c; algorithm_tag (ch_algorithm c)] ++ ch_challenge_id c ++ ch_issuer_key c ++
  ch_subject_key c ++ be 16 (ch_realm c) ++ be 16 (ch_room c) ++ [purpose_tag (ch_purpose c)] ++
  manifest_hash (ch_task_manifest_hash c) ++ be 8 (ch_issued_at c) ++ be 8 (ch_expires_at c) ++
  written (put_requirement (ch_requirement c)).
Proof. unfold challenge_body, put_challenge_body. by written_norm. Qed.

Lemma length_requirement q : length (written (put_requirement q)) = 17%nat.
Proof. by destruct q. Qed.

Lemma length_challenge c : challenge_wire c -> len (encode_challenge c) = CHALLENGE_BYTES.
Proof.
  intros (_ & [_ H1] & [_ H2] & [_ H3] & _ & _ & [_ H4] & _ & _ & _ & [_ H5]).
  unfold encode_challenge, len. rewrite written_challenge, challenge_body_written.
  rewrite !length_app, !be_length, length_requirement, H1, H2, H3, H4, H5. done.
Qed.

#[export] Instance codec_challenge : Codec challenge_wire put_challenge get_challenge.
Proof.
  unfold challenge_wire. apply codec_intro.
  - intros c. unfold put_challenge. apply _.
  - intros [] H. simpl in H. split_ands. unfold put_challenge, put_challenge_body. cbn.
    subst. written_norm. repeat (apply Forall_app; split); eauto with bytes.
  - codec_safe get_challenge.
  - intros r k c r' Hr E H. unfold get_challenge in H. inv_reads H Hr E.
    split; [by cbn; split_and!|]. eexists _, _. split; [exact E|]. split; [done|].
    unfold put_challenge, put_challenge_body. cbn. written_norm. reflexivity.
  - intros r k [] Hr H E. simpl in H. split_ands. unfold get_challenge, put_challenge, put_challenge_body in *.
    cbn in E |- *. split_written. rewrite <- ?app_assoc in E. fwd_reads E.
Qed.

Lemma decode_challenge_iff raw c : Forall byte raw ->
  decode_challenge raw = Ok c <-> challenge_wire c /\ raw = encode_challenge c.
Proof.
  intros Hb. unfold decode_challenge. rewrite decode_iff by done. split; [naive_solver|].
  intros [Hc ->]. split; [done|]. split; [done|].
  change (written (put_challenge c)) with (encode_challenge c). by rewrite length_challenge.
Qed.

Lemma encode_challenge_bytes c : challenge_wire c -> Forall byte (encode_challenge c).
Proof. apply (codec_bytes (g := get_challenge)). Qed.

Lemma decode_encode_challenge c : challenge_wire c -> decode_challenge (encode_challenge c) = Ok c.
Proof. intros H. by apply decode_challenge_iff; [apply encode_challenge_bytes|]. Qed.

(** ** Verification *)

Lemma transcript_preimage domain body : transcript domain body = preimage domain body.
Proof. done. Qed.

Section Verify.
Context (sha256 : list N -> list N) `{Hed : Ed25519}.

(** A key that decodes, is not weak, and under which the signature of the
    message verifies. *)
Record key_signed (key message signature : list N) : Prop := {
  ks_valid : valid_key key = true;
  ks_strong : is_weak key = false;
  ks_signature : verify_strict key message signature = true;
}.

(** Steps one to five of the verifier. *)
Record challenge_current (c : Challenge) (expected : ChallengeContext) (started_at now : N) : Prop := {
  cu_signed : key_signed (ch_issuer_key c) (challenge_transcript c) (ch_signature c);
  cu_context : challenge_context c = expected;
  cu_lifetime : ch_issued_at c < ch_expires_at c <= ch_issued_at c + MAX_CHALLENGE_LIFETIME;
  cu_now : ch_issued_at c <= now <= ch_expires_at c;
  cu_started : started_at <= ch_issued_at c;
}.

Lemma verify_challenge_Ok c expected started_at now v :
  verify_challenge sha256 c expected started_at now = Ok v <->
  challenge_current c expected started_at now /\ v = mkVerifiedChallenge c (scope_key sha256 c).
Proof.
  unfold verify_challenge, checked_sub. split.
  - intros H. repeat (case_match; [done|]). bool_to_prop.
    destruct (N.leb_spec (ch_issued_at c) (ch_expires_at c)); [|done]. cbn [ok_or res_bind] in H.
    repeat (case_match; [done|]). bool_to_prop. injection H as <-. split; [|done].
    split; try done; lia.
  - intros [[[-> -> ->] -> Hl Hn Hs] ->]. cbn [negb]. rewrite bool_decide_true by done. cbn [negb].
    rewrite (proj2 (N.leb_le _ _)) by lia. cbn [ok_or res_bind].
    rewrite (proj2 (N.eqb_neq _ 0)), !(proj2 (N.ltb_ge _ _)) by lia. done.
Qed.

Lemma verify_challenge_no_panic c expected started_at now :
  verify_challenge sha256 c expected started_at now <> Panic.
Proof. unfold verify_challenge. repeat (case_match; [done|]). destruct (checked_sub _ _); [|done]. simpl. by repeat case_match. Qed.

(** What an issuer signs verifies for the context it names. *)
Lemma issue_current `{!Ed25519Laws Hed} seed algorithm entropy now0 lifetime subject realm room purpose
    manifest requirement c started_at now :
  issue_with seed algorithm entropy now0 lifetime subject realm room purpose manifest requirement = Ok c ->
  is_weak (verifying_key seed) = false -> started_at <= now0 -> now0 <= now <= now0 + lifetime ->
  challenge_current c (challenge_context c) started_at now.
Proof.
  unfold issue_with, checked_add. intros H Hw Hs Hn. case_match; [done|]. bool_to_prop.
  case_match; [|done]. cbn [ok_or res_bind] in H. injection H as <-.
  split; cbn; try done; try lia. split; [apply verifying_key_valid|done|by apply verify_sign].
Qed.

Lemma issue_wire `{!Ed25519Laws Hed} seed algorithm entropy now lifetime subject realm room purpose
    manifest requirement c :
  issue_with seed algorithm entropy now lifetime subject realm room purpose manifest requirement = Ok c ->
  hash_wire entropy -> hash_wire subject -> u 128 realm -> u 128 room -> manifest_hash_wire manifest ->
  u 64 now -> requirement_wire algorithm requirement -> challenge_wire c.
Proof.
  unfold issue_with, checked_add. intros H. intros. case_match; [done|]. bool_to_prop.
  destruct (N.ltb_spec (now + lifetime) (2 ^ 64)); [|done]. cbn [ok_or res_bind] in H. injection H as <-.
  unfold challenge_wire. cbn. split_and!; try done; [apply verifying_key_wire|apply sign_bytes_wire].
Qed.

(** The scope of a challenge hashes issuer, identifier and subject. *)
Lemma scope_key_eq c1 c2 : ch_issuer_key c1 = ch_issuer_key c2 ->
  ch_challenge_id c1 = ch_challenge_id c2 -> ch_subject_key c1 = ch_subject_key c2 ->
  scope_key sha256 c1 = scope_key sha256 c2.
Proof. unfold scope_key. by intros -> -> ->. Qed.
End Verify.
