(* ===== verification/Hashcash.v ===== *)
(** The one-use window and the hashcash puzzles of the bot captcha
    (src/crates/vhalla-botcaptcha/src/{window,hashcash}.rs). *)
From stdpp Require Import gmap.
From S2P Require Import Prelude Bytes ProgramCodec ResultCodec Challenge Signed OrderedMap.

(** The one-use window of the bot captcha
    (src/crates/vhalla-botcaptcha/src/window.rs): at most one admitted response
    per scope and a bounded number of open scopes per subject, with the
    abstract window it implements, a map from scopes to entries. *)

Definition MAX_OPEN_CHALLENGES : N := 4096.
Definition MAX_OPEN_PER_SUBJECT : N := 64.

Inductive WindowError : Type :=
| WindowReplay | WindowEquivocation | WindowCapacity | WindowSubjectCapacity.

Record Entry : Type := mkEntry {
  en_response_hash : list N; en_expires_at : N; en_subject_key : list N;
}.

Record OneUseWindow : Type := mkOneUse {
  ow_entries : gmap (list N) Entry; ow_per_subject : gmap (list N) N;
}.

Definition OneUseWindow_new : OneUseWindow := mkOneUse ∅ ∅.

Definition window_peek (w : OneUseWindow) (scope_key response_hash : list N) : option WindowError :=
  match ow_entries w !! scope_key with
  | Some entry =>
      if bool_decide (en_response_hash entry = response_hash) then Some WindowReplay
      else Some WindowEquivocation
  | None => None
  end.

Definition window_len (w : OneUseWindow) : N := N.of_nat (base.size (ow_entries w)).
Definition window_consumed (w : OneUseWindow) (scope_key : list N) : option (list N) :=
  en_response_hash <$> ow_entries w !! scope_key.
Definition held_by (w : OneUseWindow) (subject_key : list N) : N :=
  default 0 (ow_per_subject w !! subject_key).

Definition window_consume (scope_key subject_key response_hash : list N) (expires_at : N)
    : eff OneUseWindow WindowError unit :=
  let! w := get in
  match window_peek w scope_key response_hash with
  | Some error => throw error
  | None =>
      if MAX_OPEN_CHALLENGES <=? window_len w then throw WindowCapacity
      else
        let held := held_by w subject_key in
        if MAX_OPEN_PER_SUBJECT <=? held then throw WindowSubjectCapacity
        else
          modify (fun w => mkOneUse
            (<[scope_key := mkEntry response_hash expires_at subject_key]> (ow_entries w))
            (<[subject_key := held + 1]> (ow_per_subject w)))
  end.

(** The count of a subject of which one entry is dropped. *)
Definition drop_one (per_subject : gmap (list N) N) (subject_key : list N) : gmap (list N) N :=
  match per_subject !! subject_key with
  | Some count =>
      let count := saturating_sub count 1 in
      if count =? 0 then delete subject_key per_subject else <[subject_key := count]> per_subject
  | None => per_subject
  end.

(** The closure [prune] gives to [retain], which visits the entries in order. *)
Definition retain_entry (now : N) (w : OneUseWindow) (x : list N * Entry) : OneUseWindow :=
  if now <=? en_expires_at x.2 then w
  else mkOneUse (delete x.1 (ow_entries w)) (drop_one (ow_per_subject w) (en_subject_key x.2)).

Definition window_prune (now : N) (w : OneUseWindow) : OneUseWindow :=
  foldl (retain_entry now) w (entries (ow_entries w)).

(** ** The abstract window: a map from scopes to entries *)

Notation OpenScopes := (gmap (list N) Entry).

(** Entries held by a subject. *)
Definition held (subject : list N) (m : OpenScopes) : N :=
  N.of_nat (base.size (filter (fun x => en_subject_key x.2 = subject) m)).

(** Why a scope cannot be consumed. *)
Definition refusal (m : OpenScopes) (scope subject response : list N) : option WindowError :=
  match m !! scope with
  | Some e => Some (if bool_decide (en_response_hash e = response) then WindowReplay
                    else WindowEquivocation)
  | None =>
      if MAX_OPEN_CHALLENGES <=? N.of_nat (base.size m) then Some WindowCapacity
      else if MAX_OPEN_PER_SUBJECT <=? held subject m then Some WindowSubjectCapacity
      else None
  end.

Definition unexpired (now : N) (m : OpenScopes) : OpenScopes :=
  filter (fun x => now <= en_expires_at x.2) m.

Definition bounded_scopes (m : OpenScopes) : Prop :=
  N.of_nat (base.size m) <= MAX_OPEN_CHALLENGES /\ forall s, held s m <= MAX_OPEN_PER_SUBJECT.

(** The window is this map, with the counts of its subjects and no others. *)
Record represents (m : OpenScopes) (w : OneUseWindow) : Prop := {
  rp_entries : ow_entries w = m;
  rp_subjects s : ow_per_subject w !! s = if held s m =? 0 then None else Some (held s m);
}.

Lemma held_empty s : held s ∅ = 0.
Proof. unfold held. by rewrite map_filter_empty, map_size_empty. Qed.

Lemma held_insert (s k : list N) (e : Entry) (m : OpenScopes) : m !! k = None ->
  held s (<[k := e]> m) = held s m + (if bool_decide (en_subject_key e = s) then 1 else 0).
Proof.
  intros Hk. unfold held. rewrite map_filter_insert. simpl.
  destruct (decide (en_subject_key e = s)) as [E|E].
  - rewrite bool_decide_true by done. rewrite map_size_insert_None; [lia|].
    rewrite map_lookup_filter, Hk. done.
  - rewrite bool_decide_false by done. rewrite delete_id by done. lia.
Qed.

Lemma held_delete (s k : list N) (e : Entry) (m : OpenScopes) : m !! k = Some e ->
  held s m = held s (delete k m) + (if bool_decide (en_subject_key e = s) then 1 else 0).
Proof.
  intros Hk. rewrite <- (insert_delete_id m k e Hk) at 1. apply held_insert. apply lookup_delete_eq.
Qed.

Lemma represents_held m w s : represents m w -> held_by w s = held s m.
Proof.
  intros [_ Hs]. unfold held_by. rewrite Hs. destruct (N.eqb_spec (held s m) 0) as [->|]; done.
Qed.

Lemma represents_new : represents ∅ OneUseWindow_new.
Proof. split; [done|]. intros s. by rewrite held_empty. Qed.

Lemma held_mono (P : list N * Entry -> Prop) `{!forall x, Decision (P x)} (s : list N) (m : OpenScopes) :
  held s (filter P m) <= held s m.
Proof.
  unfold held. rewrite map_filter_comm.
  assert (base.size (filter P (filter (λ x, en_subject_key x.2 = s) m)) <=
    base.size (filter (λ x, en_subject_key x.2 = s) m))%nat; [|lia].
  apply map_subseteq_size, map_filter_subseteq.
Qed.

(** ** Refinement *)

Lemma consume_refines m w scope subject response expires : represents m w ->
  match refusal m scope subject response with
  | Some e => window_consume scope subject response expires w = (Err e, w)
  | None => exists w', window_consume scope subject response expires w = (Ok tt, w') /\
      represents (<[scope := mkEntry response expires subject]> m) w'
  end.
Proof.
  intros Hr. pose proof (represents_held m w subject Hr) as Hh. destruct Hr as [He Hs].
  unfold refusal, window_consume, window_peek, window_len, bind, get, throw, modify. rewrite He, Hh.
  destruct (m !! scope) as [e|] eqn:Em; [by destruct (bool_decide _)|].
  destruct (MAX_OPEN_CHALLENGES <=? _); [done|]. destruct (MAX_OPEN_PER_SUBJECT <=? _); [done|].
  eexists. split; [reflexivity|]. split; [cbn; by rewrite He|]. intros s. cbn [ow_per_subject].
  rewrite held_insert by done. cbn [en_subject_key]. destruct (decide (subject = s)) as [<-|Hne].
  - rewrite lookup_insert_eq, bool_decide_true by done. by rewrite (proj2 (N.eqb_neq _ 0)) by lia.
  - rewrite lookup_insert_ne, bool_decide_false by done. by rewrite Hs, N.add_0_r.
Qed.

Lemma retain_represents now m w k e : represents m w -> m !! k = Some e ->
  represents (if now <=? en_expires_at e then m else delete k m) (retain_entry now w (k, e)).
Proof.
  intros [He Hs] Hk. unfold retain_entry. cbn [fst snd]. destruct (now <=? en_expires_at e); [by split|].
  split; [cbn; by rewrite He|]. intros s. cbn [ow_per_subject]. unfold drop_one, saturating_sub.
  pose proof (held_delete s k e m Hk) as H. pose proof (held_delete (en_subject_key e) k e m Hk) as H1.
  rewrite bool_decide_true in H1 by done. rewrite (Hs (en_subject_key e)).
  rewrite (proj2 (N.eqb_neq _ 0)) by lia.
  destruct (decide (en_subject_key e = s)) as [Es|Hne]; [rewrite Es in *|].
  - replace (held s m - 1) with (held s (delete k m)) by lia.
    destruct (held s (delete k m) =? 0); [apply lookup_delete_eq|apply lookup_insert_eq].
  - rewrite bool_decide_false, N.add_0_r in H by done. rewrite <- H.
    destruct (_ - 1 =? 0); [rewrite lookup_delete_ne by done|rewrite lookup_insert_ne by done]; apply Hs.
Qed.

Lemma retain_all now l m w : represents m w -> NoDup l.*1 -> (forall (k : list N) (e : Entry), (k, e) ∈ l -> m !! k = Some e) ->
  exists m', represents m' (foldl (retain_entry now) w l) /\
    forall k : list N, m' !! k = if decide (k ∈ l.*1) then unexpired now m !! k else m !! k.
Proof.
  revert m w. induction l as [|[k e] l IH]; intros m w Hr Hn Hl; csimpl.
  { exists m. by split. }
  csimpl in Hn. apply NoDup_cons in Hn as [Hk Hn]. assert (Em : m !! k = Some e) by (apply Hl; left).
  pose proof (retain_represents now m w k e Hr Em) as Hr1.
  set (m1 := if now <=? en_expires_at e then m else delete k m) in *.
  assert (Hother : forall k', k' <> k -> m1 !! k' = m !! k').
  { intros k' Hne. unfold m1. destruct (now <=? _); [done|by rewrite lookup_delete_ne]. }
  assert (Hold : forall k', k' <> k -> unexpired now m1 !! k' = unexpired now m !! k').
  { intros k' Hne. unfold unexpired. rewrite !map_lookup_filter. by rewrite Hother. }
  destruct (IH m1 _ Hr1 Hn) as (m' & Hr' & Hm').
  { intros k' e' Hin. rewrite Hother; [apply Hl; by right|]. intros ->. apply Hk.
    by apply (list_elem_of_fmap_2 fst) in Hin. }
  exists m'. split; [done|]. intros k'. rewrite Hm'. destruct (decide (k' = k)) as [->|Hne].
  - rewrite decide_False by done. rewrite decide_True by left. unfold unexpired, m1.
    rewrite map_lookup_filter, Em. simpl. destruct (N.leb_spec now (en_expires_at e)).
    + by rewrite option_guard_True.
    + rewrite option_guard_False by lia. apply lookup_delete_eq.
  - rewrite Hold, Hother by done. apply decide_ext. rewrite elem_of_cons. tauto.
Qed.

(** Pruning keeps exactly the entries that have not expired. *)
Lemma prune_refines now m w : represents m w -> represents (unexpired now m) (window_prune now w).
Proof.
  intros Hr. unfold window_prune. rewrite (rp_entries _ _ Hr).
  destruct (retain_all now (entries m) m w Hr (entries_nodup m)) as (m' & Hr' & Hm').
  { intros k e. apply elem_of_entries. }
  enough (m' = unexpired now m) as <- by done. apply map_eq. intros k. rewrite Hm'.
  destruct (decide (k ∈ (entries m).*1)) as [|Hk]; [done|]. unfold unexpired. rewrite map_lookup_filter.
  destruct (m !! k) as [e|] eqn:E; [|done]. destruct Hk. apply elem_of_entries in E.
  by apply (list_elem_of_fmap_2 fst) in E.
Qed.

Lemma bounded_insert m scope subject response expires :
  bounded_scopes m -> refusal m scope subject response = None ->
  bounded_scopes (<[scope := mkEntry response expires subject]> m).
Proof.
  intros [Hb Hs] H. unfold refusal in H. destruct (m !! scope) eqn:E; [done|].
  destruct (N.leb_spec MAX_OPEN_CHALLENGES (N.of_nat (base.size m))); [done|].
  destruct (N.leb_spec MAX_OPEN_PER_SUBJECT (held subject m)); [done|]. split.
  - rewrite map_size_insert_None by done. lia.
  - intros s. rewrite held_insert by done. cbn. case_bool_decide as E'; [subst; lia|].
    specialize (Hs s). lia.
Qed.

Lemma bounded_unexpired now m : bounded_scopes m -> bounded_scopes (unexpired now m).
Proof.
  intros [Hb Hs]. unfold unexpired. split.
  - enough (base.size (unexpired now m) <= base.size m)%nat by (fold (unexpired now m); lia).
    apply map_subseteq_size, map_filter_subseteq.
  - intros s. etrans; [apply held_mono|apply Hs].
Qed.

(** A window has one abstraction, with which its queries agree. *)
Lemma represents_queries m w : represents m w ->
  (forall scope response, window_peek w scope response =
     e ← m !! scope; Some (if bool_decide (en_response_hash e = response) then WindowReplay
                           else WindowEquivocation)) /\
  window_len w = N.of_nat (base.size m) /\ (forall s, held_by w s = held s m) /\
  (forall scope, window_consumed w scope = en_response_hash <$> m !! scope).
Proof.
  intros Hr. pose proof Hr as [He _]. unfold window_peek, window_len, window_consumed. rewrite He.
  split; [intros; destruct (m !! scope); simpl; [by case_bool_decide|done]|].
  split; [done|]. split; [intros s; by apply represents_held|done].
Qed.

(** Hashcash mode of the bot captcha
    (src/crates/vhalla-botcaptcha/src/hashcash.rs): the work digest, the bounded
    search for a nonce, and the signed response with its codec. *)

(** [u8::leading_zeros] *)
Definition leading_zeros (b : N) : N := if b =? 0 then 8 else 7 - N.log2 b.

(** The loop over the bytes, with the count so far. *)
Fixpoint zero_bits_loop (count : N) (bytes : list N) : N :=
  match bytes with
  | [] => count
  | b :: bytes => if b =? 0 then zero_bits_loop (count + 8) bytes else count + leading_zeros b
  end.

Definition leading_zero_bits (bytes : list N) : N := zero_bits_loop 0 bytes.

(** [(start..start + fuel).find(p)] *)
Fixpoint find_from (p : N -> bool) (fuel : nat) (start : N) : option N :=
  match fuel with
  | O => None
  | S fuel => if p start then Some start else find_from p fuel (start + 1)
  end.

Inductive SolveError : Type := SolveAlgorithm | SolveExhausted.

Definition HASHCASH_RESPONSE_BYTES : N := 1 + 32 + 32 + 32 + 8 + 64.

Record HashcashResponse : Type := mkHashcashResponse {
  hr_version : N; hr_challenge_id : list N; hr_challenge_hash : list N; hr_subject_key : list N;
  hr_nonce : N; hr_signature : list N;
}.

Definition put_hashcash_body (r : HashcashResponse) : Writer -> Writer :=
  w_u8 (hr_version r) >> w_bytes (hr_challenge_id r) >> w_bytes (hr_challenge_hash r)
  >> w_bytes (hr_subject_key r) >> w_u64 (hr_nonce r).

Definition hashcash_body (r : HashcashResponse) : list N := written (put_hashcash_body r).
Definition hashcash_transcript (r : HashcashResponse) : list N :=
  transcript HASHCASH_RESPONSE_DOMAIN (hashcash_body r).

Definition put_hashcash (r : HashcashResponse) : Writer -> Writer :=
  put_hashcash_body r >> w_bytes (hr_signature r).
Definition encode_hashcash (r : HashcashResponse) : list N := written (put_hashcash r).

Definition get_hashcash : read HashcashResponse :=
  let! version := get_version in
  let! challenge_id := r_hash in
  let! challenge_hash := r_hash in
  let! subject_key := r_hash in
  let! nonce := r_u64 FValue in
  let! signature := r_signature in
  ret (mkHashcashResponse version challenge_id challenge_hash subject_key nonce signature).

Definition decode_hashcash (raw : list N) : res CodecError HashcashResponse :=
  decode HASHCASH_RESPONSE_BYTES get_hashcash raw.

Inductive RespondError : Type := RespondSubject | RespondAlgorithm.

Section Hashcash.
Context (sha256 : list N -> list N) `{Hed : Ed25519}.

Definition work_digest (challenge_hash subject_key : list N) (nonce : N) : list N :=
  digest sha256 WORK_DOMAIN (challenge_hash ++ subject_key ++ be 8 nonce).

Definition hashcash_hash (r : HashcashResponse) : list N :=
  digest sha256 HASHCASH_RESPONSE_DOMAIN (hashcash_body r).

Definition solve (challenge : VerifiedChallenge) (max_attempts : N) : res SolveError N :=
  let challenge := vch_challenge challenge in
  let? difficulty := ok_or (challenge_difficulty challenge) SolveAlgorithm in
  let hash := challenge_hash sha256 challenge in
  let target := bits difficulty in
  ok_or (find_from (fun nonce =>
           target <=? leading_zero_bits (work_digest hash (ch_subject_key challenge) nonce))
           (N.to_nat max_attempts) 0) SolveExhausted.

(** [seed] is the signing key of the subject. *)
Definition respond_hashcash (challenge : VerifiedChallenge) (nonce : N) (seed : list N)
    : res RespondError HashcashResponse :=
  let subject_key := verifying_key seed in
  let inner := vch_challenge challenge in
  if negb (bool_decide (subject_key = ch_subject_key inner)) then Err RespondSubject
  else if negb (bool_decide (ch_algorithm inner = Hashcash)) then Err RespondAlgorithm
  else
    let response := mkHashcashResponse VERSION (ch_challenge_id inner) (challenge_hash sha256 inner)
                      subject_key nonce in
    Ok (response (sign_bytes seed (hashcash_transcript (response (replicate 64 0))))).
End Hashcash.

(** ** The codec *)

Definition hashcash_wire (r : HashcashResponse) : Prop :=
  hr_version r = VERSION /\ hash_wire (hr_challenge_id r) /\ hash_wire (hr_challenge_hash r) /\
  hash_wire (hr_subject_key r) /\ u 64 (hr_nonce r) /\ sig_wire (hr_signature r).

#[export] Instance codec_hashcash : Codec hashcash_wire put_hashcash get_hashcash.
Proof.
  unfold hashcash_wire. apply codec_intro.
  - intros r. unfold put_hashcash, put_hashcash_body. apply _.
  - intros r (Hv & H). split_ands. unfold put_hashcash, put_hashcash_body. rewrite Hv.
    written_norm. repeat (apply Forall_app; split); eauto with bytes.
  - codec_safe get_hashcash.
  - intros r k c r' Hr E H. unfold get_hashcash in H. inv_reads H Hr E.
    split; [by cbn; split_and!|]. eexists _, _. split; [exact E|]. split; [done|].
    unfold put_hashcash, put_hashcash_body. cbn [hr_version hr_challenge_id hr_challenge_hash hr_subject_key hr_nonce hr_signature].
    written_norm. reflexivity.
  - intros r k [] Hr H E. simpl in H. split_ands. unfold get_hashcash, put_hashcash, put_hashcash_body in *.
    cbn [hr_version hr_challenge_id hr_challenge_hash hr_subject_key hr_nonce hr_signature] in E |- *.
    split_written. rewrite <- ?app_assoc in E. fwd_reads E.
Qed.

Lemma length_hashcash r : hashcash_wire r -> len (encode_hashcash r) = HASHCASH_RESPONSE_BYTES.
Proof.
  intros (_ & [_ H1] & [_ H2] & [_ H3] & _ & [_ H4]). unfold encode_hashcash, put_hashcash, put_hashcash_body, len.
  written_norm. rewrite !length_app. autorewrite with written_length. by rewrite H1, H2, H3, H4.
Qed.

Lemma decode_hashcash_iff raw r : Forall byte raw ->
  decode_hashcash raw = Ok r <-> hashcash_wire r /\ raw = encode_hashcash r.
Proof.
  intros Hb. unfold decode_hashcash. rewrite decode_iff by done. split; [naive_solver|].
  intros [Hr ->]. split; [done|]. split; [done|].
  change (written (put_hashcash r)) with (encode_hashcash r). by rewrite length_hashcash.
Qed.

(** ** Leading zeros measure the number a digest encodes *)

Lemma leading_zeros_spec b t : b < 256 -> b <> 0 -> t <= 8 -> t <= leading_zeros b <-> b < 2 ^ (8 - t).
Proof.
  intros Hb H0 Ht. unfold leading_zeros. rewrite (proj2 (N.eqb_neq _ _)) by done.
  assert (Hl : N.log2 b <= 7).
  { assert (N.log2 b < 8); [|lia]. apply N.log2_lt_pow2; [lia|]. exact Hb. }
  destruct (N.eq_dec t 8) as [->|Ht8].
  - split; [|intros H; change (2 ^ (8 - 8)) with 1 in H; lia]. lia.
  - rewrite N.log2_lt_pow2 by lia. lia.
Qed.

Lemma zero_bits_shift count l : zero_bits_loop count l = count + zero_bits_loop 0 l.
Proof.
  revert count. induction l as [|b l IH]; intros count; simpl; [lia|].
  destruct (b =? 0); [rewrite (IH (count + 8)), (IH (0 + 8)); lia|lia].
Qed.

Lemma leading_zero_bits_cons b l :
  leading_zero_bits (b :: l) = if b =? 0 then 8 + leading_zero_bits l else leading_zeros b.
Proof. unfold leading_zero_bits. simpl. by rewrite zero_bits_shift. Qed.

(** A digest has [t] leading zero bits when it is below 2^(its width - t). *)
Lemma leading_zero_bits_spec l t : Forall byte l -> t <= 8 * len l ->
  t <= leading_zero_bits l <-> of_be l < 2 ^ (8 * len l - t).
Proof.
  intros Hl. revert t. induction Hl as [|b l Hb Hl IH]; intros t Ht.
  { unfold len in *. simpl in *. assert (t = 0) as -> by lia. by vm_compute. }
  assert (El : 8 * len (b :: l) = 8 + 8 * len l) by (unfold len; simpl; lia). rewrite El in *.
  rewrite leading_zero_bits_cons, of_be_cons. pose proof (of_be_lt l Hl) as Hlt.
  assert (Ep : 256 ^ N.of_nat (length l) = 2 ^ (8 * len l)) by (by rewrite N.pow_mul_r).
  rewrite Ep in *. destruct (N.eqb_spec b 0) as [->|H0].
  - rewrite N.mul_0_l, N.add_0_l. destruct (N.le_gt_cases t 8) as [H8|H8].
    + split; [intros _|lia]. eapply N.lt_le_trans; [exact Hlt|]. apply N.pow_le_mono_r; lia.
    + replace (8 + 8 * len l - t) with (8 * len l - (t - 8)) by lia. rewrite <- IH by lia. lia.
  - assert (Hz : leading_zeros b < 8).
    { unfold leading_zeros. rewrite (proj2 (N.eqb_neq _ _)) by done. lia. }
    destruct (N.le_gt_cases t 8) as [H8|H8].
    + rewrite leading_zeros_spec by done.
      replace (8 + 8 * len l - t) with (8 - t + 8 * len l) by lia. rewrite N.pow_add_r.
      split; intros H; nia.
    + split; [lia|]. intros H. exfalso.
      assert (2 ^ (8 + 8 * len l - t) <= 2 ^ (8 * len l)) by (apply N.pow_le_mono_r; lia). nia.
Qed.

(** ** The search finds the least nonce *)

Lemma find_from_Some p fuel start n :
  find_from p fuel start = Some n <->
  start <= n < start + N.of_nat fuel /\ p n = true /\ forall m, start <= m < n -> p m = false.
Proof.
  revert start. induction fuel as [|fuel IH]; intros start; cbn [find_from].
  { split; [done|]. intros (H & _). lia. }
  destruct (p start) eqn:E.
  - split.
    + intros [= <-]. split; [lia|]. split; [done|]. intros m Hm. lia.
    + intros (Hn & Hp & Hm). destruct (N.eq_dec start n) as [->|Hne]; [done|].
      rewrite Hm in E by lia. done.
  - rewrite IH. split.
    + intros (Hn & Hp & Hm). split; [lia|]. split; [done|]. intros m H.
      destruct (N.eq_dec m start) as [->|]; [done|]. apply Hm. lia.
    + intros (Hn & Hp & Hm). assert (n <> start) by congruence. split; [lia|].
      split; [done|]. intros m Hlt. apply Hm. lia.
Qed.

Lemma find_from_None p fuel start :
  find_from p fuel start = None <-> forall m, start <= m < start + N.of_nat fuel -> p m = false.
Proof.
  revert start. induction fuel as [|fuel IH]; intros start; cbn [find_from].
  { split; [intros _ m Hm; lia|done]. }
  destruct (p start) eqn:E.
  - split; [done|]. intros H. rewrite H in E by lia. done.
  - rewrite IH. split; intros H m Hm; [|apply H; lia].
    destruct (N.eq_dec m start) as [->|]; [done|]. apply H. lia.
Qed.
