(* ===== verification/Response.v ===== *)
(** Witness responses of the bot captcha
    (src/crates/vhalla-botcaptcha/src/response.rs): the signed response with
    its codec, and the prover that runs a candidate and signs the receipt. *)
From S2P Require Import Prelude Language Bytes ProgramCodec WorldCodec ResultCodec.
From S2P Require Import World Manifest Platform Signed Challenge.

Inductive ProofProfile : Type := TransparentReceipt.

Record MeasuredWork : Type := mkMeasuredWork { mw_useful : N; mw_total : N }.

Definition RESPONSE_FIXED_BYTES : N := 1 + 1 + 32 * 7 + 8 + 8 + 9 + 2.
Definition MAX_RESPONSE_BYTES : N :=
  RESPONSE_FIXED_BYTES + MAX_ASSIGNMENT_BYTES + RECEIPT_BYTES + 64.

Record Response : Type := mkResponse {
  re_version : N; re_proof_profile : ProofProfile; re_challenge_id : list N;
  re_challenge_hash : list N; re_subject_key : list N; re_task_manifest_hash : ManifestHash;
  re_program_hash : ProgramHash; re_output_hash : OutputHash; re_receipt_hash : ReceiptHash;
  re_measured_work : MeasuredWork; re_hashcash_nonce : option N; re_candidate : list N;
  re_claimed : ClaimedReceipt; re_signature : list N;
}.

(** ** Codec *)

Definition put_profile (p : ProofProfile) : Writer -> Writer :=
  w_u8 (match p with TransparentReceipt => 1 end).

Definition put_work (m : MeasuredWork) : Writer -> Writer := w_u64 (mw_useful m) >> w_u64 (mw_total m).
Definition put_program_hash (h : ProgramHash) : Writer -> Writer := w_bytes (program_hash h).
Definition put_output_hash (h : OutputHash) : Writer -> Writer := w_bytes (output_hash h).
Definition put_receipt_hash (h : ReceiptHash) : Writer -> Writer := w_bytes (receipt_hash h).

(** The length is truncated by [as u16]. *)
Definition put_candidate_bytes (l : list N) : Writer -> Writer := w_u16 (wrap 16 (len l)) >> w_bytes l.
Definition put_claimed_bytes (c : ClaimedReceipt) : Writer -> Writer := w_bytes (encode_claimed c).

Definition put_response_body (r : Response) : Writer -> Writer :=
  w_u8 (re_version r) >> put_profile (re_proof_profile r) >> w_bytes (re_challenge_id r)
  >> w_bytes (re_challenge_hash r) >> w_bytes (re_subject_key r)
  >> put_manifest_hash (re_task_manifest_hash r) >> put_program_hash (re_program_hash r)
  >> put_output_hash (re_output_hash r) >> put_receipt_hash (re_receipt_hash r)
  >> put_work (re_measured_work r) >> w_option w_u64 (re_hashcash_nonce r)
  >> put_candidate_bytes (re_candidate r) >> put_claimed_bytes (re_claimed r).

Definition response_body (r : Response) : list N := written (put_response_body r).
Definition response_transcript (r : Response) : list N := transcript RESPONSE_DOMAIN (response_body r).

Definition put_response (r : Response) : Writer -> Writer :=
  put_response_body r >> w_bytes (re_signature r).
Definition encode_response (r : Response) : list N := written (put_response r).

Definition get_profile : read ProofProfile :=
  let! tag := r_u8 FLanguage in
  match tag with
  | 1 => ret TransparentReceipt
  | found => throw (Discriminant FLanguage found)
  end.

Definition get_work : read MeasuredWork :=
  let! useful := r_u64 FLedger in
  let! total := r_u64 FLedger in
  ret (mkMeasuredWork useful total).

Definition get_program_hash : read ProgramHash := let! h := r_hash in ret (mkProgramHash h).
Definition get_output_hash : read OutputHash := let! h := r_hash in ret (mkOutputHash h).
Definition get_receipt_hash : read ReceiptHash := let! h := r_hash in ret (mkReceiptHash h).

Definition get_nonce : read (option N) :=
  r_tagged (Truncated FRemember) (Discriminant FRemember) (r_u64 FValue).

Definition get_candidate_bytes : read (list N) :=
  let! candidate_len := r_u16 FCount in
  if MAX_ASSIGNMENT_BYTES <? candidate_len then throw (Bound FCount)
  else r_repeat (N.to_nat candidate_len) (r_u8 FCell).

Definition get_claimed_bytes : read ClaimedReceipt :=
  let! receipt := r_repeat (N.to_nat RECEIPT_BYTES) (r_u8 FHash) in
  lift (decode_claimed receipt).

Definition get_response : read Response :=
  let! version := get_version in
  let! proof_profile := get_profile in
  let! challenge_id := r_hash in
  let! challenge_hash := r_hash in
  let! subject_key := r_hash in
  let! task_manifest_hash := get_manifest_hash in
  let! program_hash := get_program_hash in
  let! output_hash := get_output_hash in
  let! receipt_hash := get_receipt_hash in
  let! measured_work := get_work in
  let! hashcash_nonce := get_nonce in
  let! candidate := get_candidate_bytes in
  let! claimed := get_claimed_bytes in
  let! signature := r_signature in
  ret (mkResponse version proof_profile challenge_id challenge_hash subject_key task_manifest_hash
         program_hash output_hash receipt_hash measured_work hashcash_nonce candidate claimed signature).

Definition decode_response (raw : list N) : res CodecError Response :=
  decode MAX_RESPONSE_BYTES get_response raw.

(** ** The prover *)

Inductive ProveError : Type :=
| ProveSubject | ProveAlgorithm | ProveManifest
| ProveCandidate (e : ManifestError) | ProveRun (e : RunRefused).

(** [claim]: the receipt in its wire form. *)
Definition claim (r : WitnessReceipt) : ClaimedReceipt :=
  mkClaimedReceipt (wx_challenge_id r) (wx_subject_key r) (wx_manifest r) (wx_program r)
    (wx_output r) (wx_useful r) (wx_total r) (wx_passed r) (wx_case_count r).

Section Respond.
Context (sha256 : list N -> list N) `{Hed : Ed25519}.

Definition response_digest (r : Response) : list N := digest sha256 RESPONSE_DOMAIN (response_body r).

(** The response before it is signed. *)
Definition unsigned_response (challenge : VerifiedChallenge) (subject_key candidate_bytes : list N)
    (receipt : WitnessReceipt) : list N -> Response :=
  mkResponse VERSION TransparentReceipt (ch_challenge_id (vch_challenge challenge))
    (challenge_hash sha256 (vch_challenge challenge)) subject_key (wx_manifest receipt)
    (wx_program receipt) (wx_output receipt) (receipt_digest sha256 receipt)
    (mkMeasuredWork (wx_useful receipt) (wx_total receipt)) None candidate_bytes (claim receipt).

(** [seed] is the signing key of the subject. *)
Definition respond (challenge : VerifiedChallenge) (manifest : ValidManifest)
    (candidate : list (N * Program)) (allowance : WorkAllowance) (seed : list N)
    : res ProveError Response :=
  let subject_key := verifying_key seed in
  if negb (bool_decide (subject_key = ch_subject_key (vch_challenge challenge))) then Err ProveSubject
  else if negb (bool_decide (ch_algorithm (vch_challenge challenge) = Witness)) then Err ProveAlgorithm
  else if negb (bool_decide (vm_hash manifest = ch_task_manifest_hash (vch_challenge challenge)))
  then Err ProveManifest
  else
    let candidate_bytes := encode_candidate candidate in
    let? assignment := map_err ProveCandidate (assign manifest candidate) in
    let program := ProgramHash_of sha256 (encode_assignment assignment) in
    let capability := run_capability challenge program allowance Prove in
    let? run := map_err ProveRun (platform_run sha256 manifest assignment capability) in
    let receipt := into_receipt sha256 run (receipt_binding challenge) in
    let response := unsigned_response challenge subject_key candidate_bytes receipt in
    Ok (response (sign_bytes seed (response_transcript (response (replicate 64 0))))).
End Respond.

(** ** Laws of the codec *)

#[export] Instance codec_profile : Codec (fun _ => True) put_profile get_profile.
Proof. codec_tac put_profile get_profile. Qed.

Definition work_wire (m : MeasuredWork) : Prop := u 64 (mw_useful m) /\ u 64 (mw_total m).
#[export] Instance codec_work : Codec work_wire put_work get_work.
Proof. unfold work_wire. codec_tac put_work get_work. Qed.

Definition program_hash_wire (h : ProgramHash) : Prop := hash_wire (program_hash h).
Definition output_hash_wire (h : OutputHash) : Prop := hash_wire (output_hash h).
Definition receipt_hash_wire (h : ReceiptHash) : Prop := hash_wire (receipt_hash h).

#[export] Instance codec_program_hash : Codec program_hash_wire put_program_hash get_program_hash.
Proof. apply codec_newtype; [done|by intros []|done]. Qed.
#[export] Instance codec_output_hash : Codec output_hash_wire put_output_hash get_output_hash.
Proof. apply codec_newtype; [done|by intros []|done]. Qed.
#[export] Instance codec_receipt_hash : Codec receipt_hash_wire put_receipt_hash get_receipt_hash.
Proof. apply codec_newtype; [done|by intros []|done]. Qed.
#[export] Instance codec_nonce : Codec (option_wf (u 64)) (w_option w_u64) get_nonce.
Proof. apply codec_tagged. Qed.

#[export] Instance codec_candidate_bytes :
  Codec (fun l => Forall byte l /\ len l <= MAX_ASSIGNMENT_BYTES) put_candidate_bytes get_candidate_bytes.
Proof.
  assert (Hmax : MAX_ASSIGNMENT_BYTES < 2 ^ 16) by (by vm_compute).
  assert (Hall : forall l, written (w_all w_u8 l) = l).
  { intros l. rewrite written_all by apply _. induction l; csimpl; [done|]. by f_equal. }
  apply codec_intro.
  - intros l. unfold put_candidate_bytes. apply _.
  - intros l [Hl _]. unfold put_candidate_bytes. written_norm. apply Forall_app.
    split; [apply bytes_u16|done].
  - unfold get_candidate_bytes. apply safe_bind. intros n. case_match; apply _.
  - intros r k l r' Hr E H. unfold get_candidate_bytes in H. inv_reads H Hr E.
    destruct (N.ltb_spec MAX_ASSIGNMENT_BYTES a) as [|Hle]; [done|].
    apply (inv_last _ _ _ _ _ Hr E) in H as ([Hl Hf] & k' & E' & ->).
    assert (len l = a) as <- by (unfold len; lia). split; [split; [done|lia]|].
    eexists _, _. split; [exact E'|]. split; [done|]. unfold put_candidate_bytes.
    written_norm. rewrite wrap_small by lia. by rewrite Hall.
  - intros r k l Hr [Hb Hl] E. unfold put_candidate_bytes, get_candidate_bytes in *. split_written.
    rewrite wrap_small, <- app_assoc in * by lia. fwd_read E; [|unfold u; lia].
    rewrite (proj2 (N.ltb_ge _ _)) by done. change (written (w_bytes l)) with l in *.
    rewrite <- (Hall l) in E at 2. fwd_read E.
    + by rewrite Hall.
    + split; [unfold len; lia|done].
Qed.

Lemma length_claimed c : claimed_typed c -> length (encode_claimed c) = N.to_nat RECEIPT_BYTES.
Proof. intros Hc. pose proof (receipt_length _ Hc) as H. unfold len, encode_claimed in *. lia. Qed.

#[export] Instance codec_claimed_bytes : Codec claimed_typed put_claimed_bytes get_claimed_bytes.
Proof.
  assert (Hall : forall l, written (w_all w_u8 l) = l).
  { intros l. rewrite written_all by apply _. induction l; csimpl; [done|]. by f_equal. }
  apply codec_intro.
  - intros c. unfold put_claimed_bytes. apply _.
  - intros c Hc. by apply encode_claimed_bytes.
  - intros r Hr. unfold get_claimed_bytes, bind.
    pose proof (codec_total (g := r_repeat (N.to_nat RECEIPT_BYTES) (r_u8 FHash)) r Hr) as Ht.
    destruct (r_repeat _ _ r) as [[l|e|] r'] eqn:E; [|done..].
    apply codec_iff in E as ([_ Hl] & _); [|done]. by apply decode_total.
  - intros r k c r' Hr E H. unfold get_claimed_bytes in H. inv_reads H Hr E. destruct Ha as [Hl Hb].
    unfold lift in H. injection H as Hd <-. apply decode_claimed_iff in Hd as [Hc ->]; [|done].
    split; [done|]. eexists _, _. split; [exact E|]. by rewrite Hall.
  - intros r k c Hr Hc E. pose proof (encode_claimed_bytes c Hc) as Hb. unfold get_claimed_bytes.
    change (written (put_claimed_bytes c)) with (encode_claimed c) in *.
    rewrite <- (Hall (encode_claimed c)) in E at 1. fwd_read E.
    + unfold lift. rewrite Hall. by rewrite (proj2 (decode_claimed_iff _ c Hb)).
    + split; [by apply length_claimed|done].
Qed.

Lemma bytes_profile p : Forall byte (written (put_profile p)).
Proof. by apply (codec_bytes (g := get_profile)). Qed.
Lemma bytes_work m : work_wire m -> Forall byte (written (put_work m)).
Proof. apply (codec_bytes (g := get_work)). Qed.
Lemma bytes_program_hash h : program_hash_wire h -> Forall byte (written (put_program_hash h)).
Proof. by intros []. Qed.
Lemma bytes_output_hash h : output_hash_wire h -> Forall byte (written (put_output_hash h)).
Proof. by intros []. Qed.
Lemma bytes_receipt_hash h : receipt_hash_wire h -> Forall byte (written (put_receipt_hash h)).
Proof. by intros []. Qed.
Lemma bytes_nonce o : option_wf (u 64) o -> Forall byte (written (w_option w_u64 o)).
Proof. apply (codec_bytes (g := get_nonce)). Qed.
Lemma bytes_candidate_bytes l : Forall byte l /\ len l <= MAX_ASSIGNMENT_BYTES ->
  Forall byte (written (put_candidate_bytes l)).
Proof. exact (codec_bytes (g := get_candidate_bytes) l). Qed.
Lemma bytes_claimed_bytes c : claimed_typed c -> Forall byte (written (put_claimed_bytes c)).
Proof. apply encode_claimed_bytes. Qed.
#[export] Hint Resolve bytes_profile bytes_work bytes_program_hash bytes_output_hash
  bytes_receipt_hash bytes_nonce bytes_candidate_bytes bytes_claimed_bytes : bytes.

Definition response_wire (r : Response) : Prop :=
  re_version r = VERSION /\ hash_wire (re_challenge_id r) /\ hash_wire (re_challenge_hash r) /\
  hash_wire (re_subject_key r) /\ manifest_hash_wire (re_task_manifest_hash r) /\
  program_hash_wire (re_program_hash r) /\ output_hash_wire (re_output_hash r) /\
  receipt_hash_wire (re_receipt_hash r) /\ work_wire (re_measured_work r) /\
  option_wf (u 64) (re_hashcash_nonce r) /\
  (Forall byte (re_candidate r) /\ len (re_candidate r) <= MAX_ASSIGNMENT_BYTES) /\
  claimed_typed (re_claimed r) /\ sig_wire (re_signature r).

#[export] Instance appends_candidate_bytes l : Appends (put_candidate_bytes l).
Proof. unfold put_candidate_bytes. apply _. Qed.
#[export] Instance appends_claimed_bytes c : Appends (put_claimed_bytes c).
Proof. unfold put_claimed_bytes. apply _. Qed.
#[export] Instance appends_work m : Appends (put_work m).
Proof. unfold put_work. apply _. Qed.
#[export] Instance appends_response_body r : Appends (put_response_body r).
Proof.
  unfold put_response_body, put_program_hash, put_output_hash, put_receipt_hash. apply _.
Qed.

#[export] Instance codec_response : Codec response_wire put_response get_response.
Proof.
  unfold response_wire. apply codec_intro.
  - intros r. unfold put_response. apply _.
  - intros r (Hv & H). decompose [and] H. unfold put_response, put_response_body. rewrite Hv.
    written_norm. repeat match goal with |- Forall _ (_ ++ _) => apply Forall_app; split end;
      eauto with bytes.
  - codec_safe get_response.
  - intros r k c r' Hr E H. unfold get_response in H. inv_reads H Hr E.
    split; [split_ands; by split_and!|]. eexists _, _. split; [exact E|]. split; [done|].
    unfold put_response, put_response_body.
    cbn [re_version re_proof_profile re_challenge_id re_challenge_hash re_subject_key
      re_task_manifest_hash re_program_hash re_output_hash re_receipt_hash re_measured_work
      re_hashcash_nonce re_candidate re_claimed re_signature].
    written_norm. reflexivity.
  - intros r k c Hr (H1 & H2 & H3 & H4 & H5 & H6 & H7 & H8 & H9 & H10 & H11 & H12 & H13) E.
    unfold get_response, put_response, put_response_body in *.
    split_written. rewrite <- ?app_assoc in E. fwd_reads E. unfold ret. rewrite <- ?app_assoc, app_nil_l. by destruct c.
Qed.

Lemma length_response_le r : response_wire r -> len (encode_response r) <= MAX_RESPONSE_BYTES.
Proof.
  intros (_ & [_ H1] & [_ H2] & [_ H3] & [_ H4] & [_ H5] & [_ H6] & [_ H7] & _ & _ & [_ Hc] & H8 & [_ H9]).
  pose proof (length_claimed _ H8) as Hl. unfold encode_response, put_response, put_response_body, len in *.
  written_norm. rewrite !length_app. autorewrite with written_length.
  change (length (written (put_profile (re_proof_profile r)))) with 1%nat.
  change (length (written (put_work (re_measured_work r)))) with 16%nat.
  change (written (put_manifest_hash ?h)) with (manifest_hash h).
  change (written (put_program_hash ?h)) with (program_hash h).
  change (written (put_output_hash ?h)) with (output_hash h).
  change (written (put_receipt_hash ?h)) with (receipt_hash h).
  change (written (put_claimed_bytes ?c)) with (encode_claimed c).
  rewrite H1, H2, H3, H4, H5, H6, H7, Hl, H9. unfold put_candidate_bytes.
  rewrite written_seq by apply _. rewrite length_app. autorewrite with written_length.
  assert (length (written (w_option w_u64 (re_hashcash_nonce r))) <= 9)%nat
    by (by destruct (re_hashcash_nonce r); simpl; lia).
  unfold MAX_RESPONSE_BYTES, RESPONSE_FIXED_BYTES. lia.
Qed.

Lemma decode_response_iff raw r : Forall byte raw ->
  decode_response raw = Ok r <-> response_wire r /\ raw = encode_response r.
Proof.
  intros Hb. unfold decode_response. rewrite decode_iff by done. split; [naive_solver|].
  intros [Hr ->]. split; [done|]. split; [done|]. by apply length_response_le.
Qed.

Lemma encode_response_bytes r : response_wire r -> Forall byte (encode_response r).
Proof. apply (codec_bytes (g := get_response)). Qed.

Lemma decode_encode_response r : response_wire r -> decode_response (encode_response r) = Ok r.
Proof. intros H. by apply decode_response_iff; [apply encode_response_bytes|]. Qed.
