(* ===== verification/Admit.v ===== *)
(** The verifier of the bot captcha
    (src/crates/vhalla-botcaptcha/src/admit.rs): every step from a challenge and
    a response to a [VerifiedWitness] or a [VerifiedHashcash], with the one-use
    consumption last. *)
From stdpp Require Import gmap.
From S2P Require Import Prelude Language Bytes ProgramCodec WorldCodec ResultCodec.
From S2P Require Import World Manifest Platform Signed Challenge Hashcash Response.

Record VerifiedWitness : Type := mkVerifiedWitness {
  vw_scope_key : list N; vw_response_hash : list N; vw_reward : list N;
  vw_receipt : WitnessReceipt; vw_purpose : Purpose; vw_expires_at : N;
}.

Record VerifiedHashcash : Type := mkVerifiedHashcash {
  vh_scope_key : list N; vh_response_hash : list N; vh_reward : list N; vh_work : list N;
  vh_difficulty : Difficulty; vh_purpose : Purpose; vh_expires_at : N;
}.

Record WitnessVerifier : Type := mkVerifier {
  wv_started_at : N; wv_clock : N; wv_allowance : WorkAllowance; wv_window : OneUseWindow;
}.

Definition WitnessVerifier_new (started_at : N) (allowance : WorkAllowance) (window : OneUseWindow)
    : WitnessVerifier :=
  mkVerifier started_at started_at allowance window.

Definition set_window (w : OneUseWindow) (v : WitnessVerifier) : WitnessVerifier :=
  mkVerifier (wv_started_at v) (wv_clock v) (wv_allowance v) w.
Definition set_clock (now : N) (v : WitnessVerifier) : WitnessVerifier :=
  mkVerifier (wv_started_at v) now (wv_allowance v) (wv_window v).

Definition window_error (e : WindowError) : WitnessError :=
  match e with
  | WindowReplay => WReplay
  | WindowEquivocation => WEquivocation
  | WindowCapacity => WCapacity
  | WindowSubjectCapacity => WSubjectCapacity
  end.

(** [advance]: the clock never runs backwards. *)
Definition advance_clock {E} (now : N) : eff WitnessVerifier E N :=
  do! modify (fun v => set_clock (N.max (wv_clock v) now) v) in
  let! v := get in
  ret (wv_clock v).

Definition set_allowance (allowance : WorkAllowance) (v : WitnessVerifier) : WitnessVerifier :=
  mkVerifier (wv_started_at v) (wv_clock v) allowance (wv_window v).

Definition prune {E} (now : N) : eff WitnessVerifier E unit :=
  let! now := advance_clock now in
  modify (fun v => set_window (window_prune now (wv_window v)) v).

Definition differs {A} `{EqDecision A} (a b : A) : bool := negb (bool_decide (a = b)).

Section Admit.
Context (sha256 : list N -> list N) `{Hed : Ed25519}.

Definition reward (scope_key response_hash : list N) : list N :=
  digest sha256 REWARD_DOMAIN (scope_key ++ response_hash).

(** The subject's key and its signature of a response. *)
Definition check_subject (key message signature : list N) : res WitnessError unit :=
  if negb (valid_key key) then Err WSubjectSignature
  else if is_weak key then Err WWeakSubjectKey
  else if negb (verify_strict key message signature) then Err WSubjectSignature
  else Ok tt.

(** The response and its receipt name this challenge. *)
Definition check_binding (challenge : Challenge) (response : Response) : res WitnessError unit :=
  let claimed := re_claimed response in
  if differs (re_challenge_id response) (ch_challenge_id challenge)
    || differs (re_challenge_hash response) (challenge_hash sha256 challenge)
    || differs (re_subject_key response) (ch_subject_key challenge)
    || differs (re_task_manifest_hash response) (ch_task_manifest_hash challenge)
    || differs (cx_challenge_id claimed) (ch_challenge_id challenge)
    || differs (cx_subject_key claimed) (ch_subject_key challenge)
    || differs (cx_manifest claimed) (ch_task_manifest_hash challenge)
  then Err WBinding else Ok tt.

(** The fields of the response are those of its receipt. *)
Definition check_claim (response : Response) : res WitnessError unit :=
  let claimed := re_claimed response in
  if differs (re_program_hash response) (cx_program claimed)
    || differs (re_output_hash response) (cx_output claimed)
    || differs (mw_useful (re_measured_work response)) (cx_useful claimed)
    || differs (mw_total (re_measured_work response)) (cx_total claimed)
    || differs (re_receipt_hash response) (ReceiptHash_of sha256 (encode_claimed claimed))
  then Err WClaim else Ok tt.

(** The replay of the claimed run. *)
Definition replay_claimed (verified : VerifiedChallenge) (manifest : ValidManifest) (response : Response)
    (allowance : WorkAllowance) : res WitnessError WitnessReceipt :=
  let claimed := re_claimed response in
  let? candidate := map_err WCodec (decode_candidate (re_candidate response)) in
  let? assignment := map_err (fun _ => WCandidate) (assign manifest candidate) in
  let program := ProgramHash_of sha256 (encode_assignment assignment) in
  if differs program (cx_program claimed) then Err WProgram
  else if max_total allowance <? fuel_total manifest then Err WAllowance
  else
    let capability := run_capability verified program allowance Platform.Replay in
    let? run := map_err (fun _ => WRun) (platform_run sha256 manifest assignment capability) in
    let receipt := into_receipt sha256 run (receipt_binding verified) in
    if negb (matches claimed receipt) || differs (claim receipt) claimed then Err WReceipt
    else Ok receipt.

Definition check_contract (contract : WorkContract) (receipt : WitnessReceipt) : res WitnessError unit :=
  if wx_useful receipt <? useful_floor contract then Err WFloor
  else if total_ceiling contract <? wx_total receipt then Err WCeiling
  else if require_passed contract && negb (wx_passed receipt) then Err WNotPassed
  else Ok tt.

(** The window on the verifier's state. *)
Definition on_window (m : eff OneUseWindow WindowError unit) : eff WitnessVerifier WitnessError unit :=
  eff_map_err window_error (zoom wv_window set_window m).

Definition peek_window (scope_key response_hash : list N) : eff WitnessVerifier WitnessError unit :=
  let! v := get in
  match window_peek (wv_window v) scope_key response_hash with
  | Some error => throw (window_error error)
  | None => ret tt
  end.

Definition verify_response (challenge : Challenge) (manifest : ValidManifest) (response : Response)
    (expected : ChallengeContext) (now : N) : eff WitnessVerifier WitnessError VerifiedWitness :=
  let! now := advance_clock now in
  let! v := get in
  let! verified := lift (verify_challenge sha256 challenge expected (wv_started_at v) now) in
  let challenge := vch_challenge verified in
  let! contract := lift (ok_or (challenge_contract challenge) WAlgorithm) in
  if differs (vm_hash manifest) (ch_task_manifest_hash challenge) then throw WManifest
  else
    do! lift (check_subject (ch_subject_key challenge) (response_transcript response)
                (re_signature response)) in
    let scope_key := vch_scope_key verified in
    let response_hash := response_digest sha256 response in
    do! peek_window scope_key response_hash in
    do! lift (check_binding challenge response) in
    do! lift (check_claim response) in
    let! receipt := lift (replay_claimed verified manifest response (wv_allowance v)) in
    do! lift (check_contract contract receipt) in
    do! on_window (window_consume scope_key (ch_subject_key challenge) response_hash
                     (ch_expires_at challenge)) in
    ret (mkVerifiedWitness scope_key response_hash (reward scope_key response_hash) receipt
           (ch_purpose challenge) (ch_expires_at challenge)).

Definition verify_bytes (challenge : list N) (manifest : ValidManifest) (response : list N)
    (expected : ChallengeContext) (now : N) : eff WitnessVerifier WitnessError VerifiedWitness :=
  let! challenge := lift (map_err WCodec (decode_challenge challenge)) in
  let! response := lift (map_err WCodec (decode_response response)) in
  verify_response challenge manifest response expected now.

Definition check_hashcash_binding (challenge : Challenge) (response : HashcashResponse)
    : res WitnessError unit :=
  if differs (hr_challenge_id response) (ch_challenge_id challenge)
    || differs (hr_challenge_hash response) (challenge_hash sha256 challenge)
    || differs (hr_subject_key response) (ch_subject_key challenge)
  then Err WBinding else Ok tt.

Definition verify_hashcash (challenge : Challenge) (response : HashcashResponse)
    (expected : ChallengeContext) (now : N) : eff WitnessVerifier WitnessError VerifiedHashcash :=
  let! now := advance_clock now in
  let! v := get in
  let! verified := lift (verify_challenge sha256 challenge expected (wv_started_at v) now) in
  let challenge := vch_challenge verified in
  let! difficulty := lift (ok_or (challenge_difficulty challenge) WAlgorithm) in
  do! lift (check_subject (ch_subject_key challenge) (hashcash_transcript response)
              (hr_signature response)) in
  do! lift (check_hashcash_binding challenge response) in
  let scope_key := vch_scope_key verified in
  let response_hash := hashcash_hash sha256 response in
  do! peek_window scope_key response_hash in
  let work := work_digest sha256 (challenge_hash sha256 challenge) (ch_subject_key challenge)
                (hr_nonce response) in
  if leading_zero_bits work <? bits difficulty then throw WInsufficientWork
  else
    do! on_window (window_consume scope_key (ch_subject_key challenge) response_hash
                     (ch_expires_at challenge)) in
    ret (mkVerifiedHashcash scope_key response_hash (reward scope_key response_hash) work difficulty
           (ch_purpose challenge) (ch_expires_at challenge)).
End Admit.
