(* ===== verification/AdmitFacts.v ===== *)
(** Admission by the bot captcha: each call, any sequence of calls, and honest
    subjects. *)
From stdpp Require Import gmap sorting.
From S2P Require Import Prelude Language World Machine Bytes ProgramCodec WorldCodec ResultCodec.
From S2P Require Import Manifest Platform PlatformFacts Signed Challenge Hashcash Response.
From S2P Require Import Admit.

(** What the verifier of [Admit] accepts: the exact condition and effect of one
    admission in either mode, and what any sequence of calls keeps. *)

Lemma differs_false {A} `{EqDecision A} (a b : A) : differs a b = false <-> a = b.
Proof. unfold differs. by rewrite negb_false_iff, bool_decide_eq_true. Qed.

Section Facts.
Context (sha256 : list N -> list N) `{Hed : Ed25519}.

(** ** The conditions *)

(** The response is the one whose receipt is [receipt], field by field. *)
Record answers (c : Challenge) (receipt : WitnessReceipt) (r : Response) : Prop := {
  an_id : re_challenge_id r = ch_challenge_id c;
  an_hash : re_challenge_hash r = challenge_hash sha256 c;
  an_subject : re_subject_key r = ch_subject_key c;
  an_manifest : re_task_manifest_hash r = ch_task_manifest_hash c;
  an_program : re_program_hash r = wx_program receipt;
  an_output : re_output_hash r = wx_output receipt;
  an_receipt : re_receipt_hash r = receipt_digest sha256 receipt;
  an_work : re_measured_work r = mkMeasuredWork (wx_useful receipt) (wx_total receipt);
  an_claimed : re_claimed r = claim receipt;
}.

(** [receipt] is what running the candidate bytes under the challenge gives. *)
Definition replays (c : Challenge) (manifest : ValidManifest) (candidate : list N)
    (allowance : WorkAllowance) (receipt : WitnessReceipt) : Prop :=
  exists ps a run, decode_candidate candidate = Ok ps /\ assign manifest ps = Ok a /\
    fuel_total manifest <= max_total allowance /\
    platform_run sha256 manifest a
      (mint (ch_task_manifest_hash c) (ProgramHash_of sha256 (encode_assignment a)) allowance
         Platform.Replay) = Ok run /\
    receipt = into_receipt sha256 run (mkReceiptBinding (ch_challenge_id c) (ch_subject_key c)).

Record contract_met (k : WorkContract) (receipt : WitnessReceipt) : Prop := {
  cm_floor : useful_floor k <= wx_useful receipt;
  cm_ceiling : wx_total receipt <= total_ceiling k;
  cm_passed : require_passed k = true -> wx_passed receipt = true;
}.

Lemma check_subject_Ok key message signature :
  check_subject key message signature = Ok tt <-> key_signed key message signature.
Proof.
  unfold check_subject. split.
  - intros H. repeat (case_match; [done|]). bool_to_prop. by split.
  - by intros [-> -> ->].
Qed.

Lemma check_contract_Ok k receipt : check_contract k receipt = Ok tt <-> contract_met k receipt.
Proof.
  unfold check_contract. split.
  - intros H. repeat (case_match; [done|]). bool_to_prop. split; try lia.
    intros Hp. destruct (wx_passed receipt); [done|]. by rewrite Hp in *.
  - intros [H1 H2 H3]. rewrite !(proj2 (N.ltb_ge _ _)) by done.
    destruct (require_passed k); [by rewrite H3|done].
Qed.

(** A failed check changes nothing and does not panic. *)
Lemma check_contract_no_panic k receipt : check_contract k receipt <> Panic.
Proof. unfold check_contract. by repeat case_match. Qed.
Lemma check_subject_no_panic key message signature : check_subject key message signature <> Panic.
Proof. unfold check_subject. by repeat case_match. Qed.

Lemma as_witness_claim receipt : as_witness (claim receipt) = receipt.
Proof. by destruct receipt. Qed.

Lemma matches_claim receipt : matches (claim receipt) receipt = true.
Proof. unfold matches, encode_claimed. rewrite as_witness_claim. by apply bool_decide_true. Qed.

Definition verified_of (c : Challenge) : VerifiedChallenge :=
  mkVerifiedChallenge c (scope_key sha256 c).

(** A run keeps the manifest and the program of its capability. *)
Lemma platform_run_fields manifest a cap run : platform_run sha256 manifest a cap = Ok run ->
  wr_manifest run = cap_manifest cap /\ wr_program run = ProgramHash_of sha256 (encode_assignment a).
Proof.
  unfold platform_run, run_observed. repeat (case_match; [done|]). unfold bind.
  destruct (eff_fold _ _ _ _) as [[t|e|] o]; simpl; [|done..]. by intros [= <-].
Qed.

Lemma if_Err_Ok {E A} (b : bool) (e : E) (k : res E A) x :
  (if b then Err e else k) = Ok x <-> b = false /\ k = Ok x.
Proof. destruct b; naive_solver. Qed.

Lemma map_err_Ok {E F A} (f : E -> F) (m : res E A) x : map_err f m = Ok x <-> m = Ok x.
Proof. destruct m; simpl; naive_solver. Qed.

Lemma check_binding_Ok c r : check_binding sha256 c r = Ok tt <->
  re_challenge_id r = ch_challenge_id c /\ re_challenge_hash r = challenge_hash sha256 c /\
  re_subject_key r = ch_subject_key c /\ re_task_manifest_hash r = ch_task_manifest_hash c /\
  cx_challenge_id (re_claimed r) = ch_challenge_id c /\
  cx_subject_key (re_claimed r) = ch_subject_key c /\
  cx_manifest (re_claimed r) = ch_task_manifest_hash c.
Proof. unfold check_binding. rewrite if_Err_Ok, !orb_false_iff, !differs_false. tauto. Qed.

Lemma check_claim_Ok r : check_claim sha256 r = Ok tt <->
  re_program_hash r = cx_program (re_claimed r) /\ re_output_hash r = cx_output (re_claimed r) /\
  re_measured_work r = mkMeasuredWork (cx_useful (re_claimed r)) (cx_total (re_claimed r)) /\
  re_receipt_hash r = ReceiptHash_of sha256 (encode_claimed (re_claimed r)).
Proof.
  unfold check_claim. rewrite if_Err_Ok, !orb_false_iff, !differs_false.
  destruct (re_measured_work r) as [us tot]. cbn [mw_useful mw_total]. split.
  - by intros (((((H1 & H2) & ->) & ->) & H3) & _).
  - by intros (H1 & H2 & [= -> ->] & H3).
Qed.

Lemma replay_exact v manifest r allowance receipt :
  replay_claimed sha256 v manifest r allowance = Ok receipt <->
  replays (vch_challenge v) manifest (re_candidate r) allowance receipt /\
  re_claimed r = claim receipt.
Proof.
  unfold replay_claimed, replays, run_capability, receipt_binding. rewrite res_bind_Ok. split.
  - intros (ps & Hps%map_err_Ok & H). apply res_bind_Ok in H as (a & Ha%map_err_Ok & H).
    rewrite !if_Err_Ok, differs_false, N.ltb_ge in H. destruct H as (Hp & Hf & H).
    apply res_bind_Ok in H as (run & Hr%map_err_Ok & H).
    rewrite if_Err_Ok, orb_false_iff, differs_false in H. destruct H as [[_ Hc] [= <-]].
    split; [by eexists _, _, _; split_and!|done].
  - intros ((ps & a & run & Hps & Ha & Hf & Hr & Er) & Hc).
    exists ps. split; [by apply map_err_Ok|]. apply res_bind_Ok. exists a. split; [by apply map_err_Ok|].
    pose proof (platform_run_fields _ _ _ _ Hr) as [_ Hp].
    rewrite !if_Err_Ok, differs_false, N.ltb_ge. split; [by rewrite Hc, <- Hp, Er|]. split; [done|].
    apply res_bind_Ok. exists run. split; [by apply map_err_Ok|].
    rewrite if_Err_Ok, orb_false_iff, differs_false, <- Er, Hc, matches_claim. done.
Qed.

(** The three checks between the peek and the contract, together: the response
    is the one of its replayed receipt. *)
Lemma replay_Ok c manifest r allowance receipt :
  (check_binding sha256 c r = Ok tt /\ check_claim sha256 r = Ok tt /\
   replay_claimed sha256 (verified_of c) manifest r allowance = Ok receipt) <->
  replays c manifest (re_candidate r) allowance receipt /\ answers c receipt r.
Proof.
  rewrite check_binding_Ok, check_claim_Ok, replay_exact. split.
  - intros ((B1 & B2 & B3 & B4 & _) & (C1 & C2 & C3 & C4) & Hr & Hc). split; [done|].
    rewrite Hc in *. unfold encode_claimed in C4. rewrite as_witness_claim in C4. by split.
  - intros (Hr & [A1 A2 A3 A4 A5 A6 A7 A8 A9]). destruct Hr as (ps & a & run & H).
    assert (Hm : wr_manifest run = ch_task_manifest_hash c).
    { destruct H as (_ & _ & _ & H & _). by apply platform_run_fields in H as [-> _]. }
    assert (Er : receipt = into_receipt sha256 run
      (mkReceiptBinding (ch_challenge_id c) (ch_subject_key c))) by apply H.
    rewrite A9. unfold encode_claimed. rewrite as_witness_claim.
    assert (Hx : wx_challenge_id receipt = ch_challenge_id c /\ wx_subject_key receipt = ch_subject_key c /\
      wx_manifest receipt = ch_task_manifest_hash c) by (by rewrite Er).
    split_and!; try done; try apply Hx. by exists ps, a, run.
Qed.
(** ** One admission *)

(** The clock a call runs at. *)
Definition clock_at (v : WitnessVerifier) (now : N) : N := N.max (wv_clock v) now.

(** The window takes the scope of a challenge. *)
Definition consumed (c : Challenge) (response_hash : list N) (v : WitnessVerifier) (win : OneUseWindow) : Prop :=
  window_consume (scope_key sha256 c) (ch_subject_key c) response_hash (ch_expires_at c) (wv_window v)
    = (Ok tt, win).

Lemma consumed_free c h v win : consumed c h v win -> window_peek (wv_window v) (scope_key sha256 c) h = None.
Proof. unfold consumed, window_consume, bind, get. by destruct (window_peek _ _ _). Qed.

(** What is checked of a witness response at the time [now]. *)
Record witness_admissible (c : Challenge) (manifest : ValidManifest) (r : Response)
    (expected : ChallengeContext) (v : WitnessVerifier) (now : N) (receipt : WitnessReceipt) : Prop := {
  wa_current : challenge_current c expected (wv_started_at v) now;
  wa_contract : exists k, challenge_contract c = Some k /\ contract_met k receipt;
  wa_manifest : vm_hash manifest = ch_task_manifest_hash c;
  wa_subject : key_signed (ch_subject_key c) (response_transcript r) (re_signature r);
  wa_replays : replays c manifest (re_candidate r) (wv_allowance v) receipt;
  wa_answers : answers c receipt r;
}.

Definition witness_evidence (c : Challenge) (r : Response) (receipt : WitnessReceipt) : VerifiedWitness :=
  let scope := scope_key sha256 c in
  let hash := response_digest sha256 r in
  mkVerifiedWitness scope hash (reward sha256 scope hash) receipt (ch_purpose c) (ch_expires_at c).

Lemma advance_clock_eq {E} now v :
  advance_clock (E := E) now v = (Ok (clock_at v now), set_clock (clock_at v now) v).
Proof. done. Qed.

Lemma ok_or_Ok {E A} (o : option A) (e : E) a : ok_or o e = Ok a <-> o = Some a.
Proof. destruct o; simpl; naive_solver. Qed.

Lemma peek_window_Ok scope hash v v' : peek_window scope hash v = (Ok tt, v') <->
  window_peek (wv_window v) scope hash = None /\ v' = v.
Proof. unfold peek_window, bind, get. destruct (window_peek _ _ _); unfold throw, ret; naive_solver. Qed.

Lemma on_window_Ok m v v' : on_window m v = (Ok tt, v') <->
  exists win, m (wv_window v) = (Ok tt, win) /\ v' = set_window win v.
Proof.
  unfold on_window, eff_map_err, zoom. destruct (m (wv_window v)) as [[[]|e|] win]; simpl; naive_solver.
Qed.

Lemma verify_response_Ok c manifest r expected now v w v' :
  verify_response sha256 c manifest r expected now v = (Ok w, v') <->
  exists receipt win, witness_admissible c manifest r expected v (clock_at v now) receipt /\
    consumed c (response_digest sha256 r) v win /\ w = witness_evidence c r receipt /\
    v' = set_window win (set_clock (clock_at v now) v).
Proof.
  unfold verify_response. unfold bind at 1. rewrite advance_clock_eq. unfold bind at 1, get at 1.
  rewrite bind_lift_Ok. split.
  - intros (vc & [Hcur ->]%verify_challenge_Ok & H). cbn [vch_challenge vch_scope_key] in H.
    apply bind_lift_Ok in H as (k & Hk%ok_or_Ok & H).
    destruct (differs (vm_hash manifest) _) eqn:Em; [done|]. apply (proj1 (differs_false _ _)) in Em.
    apply bind_lift_Ok in H as ([] & Hs%check_subject_Ok & H).
    apply bind_Ok in H as ([] & v1 & [Hp ->]%peek_window_Ok & H).
    apply bind_lift_Ok in H as ([] & Hb & H). apply bind_lift_Ok in H as ([] & Hc & H).
    apply bind_lift_Ok in H as (receipt & Hr & H).
    apply bind_lift_Ok in H as ([] & Hm%check_contract_Ok & H).
    apply bind_Ok in H as ([] & v1 & (win & Hw & ->)%on_window_Ok & H). injection H as <- <-.
    pose proof (proj1 (replay_Ok _ _ _ _ _) (conj Hb (conj Hc Hr))) as [Hrep Hans].
    exists receipt, win. split; [|by split_and!]. split; try done. by exists k.
  - intros (receipt & win & [Hcur (k & Hk & Hm) Hman Hs Hrep Hans] & Hw & -> & ->).
    pose proof (proj2 (replay_Ok _ _ _ _ _) (conj Hrep Hans)) as (Hb & Hc & Hr).
    exists (verified_of c). split; [by apply verify_challenge_Ok|]. cbn [vch_challenge vch_scope_key verified_of].
    apply bind_lift_Ok. exists k. split; [by apply ok_or_Ok|].
    rewrite (proj2 (differs_false _ _)) by done.
    apply bind_lift_Ok. exists tt. split; [by apply check_subject_Ok|].
    apply bind_Ok. exists tt, (set_clock (clock_at v now) v). split.
    { apply peek_window_Ok. split; [|done]. by eapply consumed_free. }
    apply bind_lift_Ok. exists tt. split; [done|]. apply bind_lift_Ok. exists tt. split; [done|].
    apply bind_lift_Ok. exists receipt. split; [done|].
    apply bind_lift_Ok. exists tt. split; [by apply check_contract_Ok|].
    apply bind_Ok. exists tt, (set_window win (set_clock (clock_at v now) v)). split; [|done].
    apply on_window_Ok. by exists win.
Qed.

(** *** Refusals *)

Lemma consume_rolls_back scope subject hash expires : rolls_back (window_consume scope subject hash expires).
Proof.
  unfold window_consume. apply rolls_back_bind; [apply observes_get|]. intros w.
  destruct (window_peek _ _ _); [by apply observes_rolls_back|].
  repeat (case_match; [by apply observes_rolls_back|]). apply rolls_back_modify.
Qed.

Lemma on_window_rolls_back m : rolls_back m -> rolls_back (on_window m).
Proof. intros H. apply rolls_back_map_err, rolls_back_zoom; [by intros []|done]. Qed.

Lemma peek_observes scope hash : observes (peek_window scope hash).
Proof. intros v. unfold peek_window, bind, get. by destruct (window_peek _ _ _). Qed.

(** A call that fails has moved the clock and nothing else. *)
Lemma verify_response_fails c manifest r expected now v :
  match verify_response sha256 c manifest r expected now v with
  | (Ok _, _) => True
  | (_, v') => v' = set_clock (clock_at v now) v
  end.
Proof.
  unfold verify_response. unfold bind at 1. rewrite advance_clock_eq. set (v1 := set_clock _ v).
  revert v1. apply rolls_back_bind; [apply observes_get|]. intros v1.
  apply rolls_back_bind; [apply observes_lift|]. intros vc.
  apply rolls_back_bind; [apply observes_lift|]. intros k.
  case_match; [by apply observes_rolls_back|].
  apply rolls_back_bind; [apply observes_lift|]. intros _.
  apply rolls_back_bind; [apply peek_observes|]. intros _.
  do 2 (apply rolls_back_bind; [apply observes_lift|]; intros _).
  apply rolls_back_bind; [apply observes_lift|]. intros receipt.
  apply rolls_back_bind; [apply observes_lift|]. intros _.
  apply (rolls_back_then _ (fun _ => _)), on_window_rolls_back, consume_rolls_back.
Qed.

(** ** Hashcash *)

Definition meets (c : Challenge) (d : Difficulty) (nonce : N) : Prop :=
  bits d <= leading_zero_bits (work_digest sha256 (challenge_hash sha256 c) (ch_subject_key c) nonce).

Record hashcash_admissible (c : Challenge) (r : HashcashResponse) (expected : ChallengeContext)
    (v : WitnessVerifier) (now : N) (d : Difficulty) : Prop := {
  ha_current : challenge_current c expected (wv_started_at v) now;
  ha_difficulty : challenge_difficulty c = Some d;
  ha_subject : key_signed (ch_subject_key c) (hashcash_transcript r) (hr_signature r);
  ha_id : hr_challenge_id r = ch_challenge_id c;
  ha_hash : hr_challenge_hash r = challenge_hash sha256 c;
  ha_key : hr_subject_key r = ch_subject_key c;
  ha_work : meets c d (hr_nonce r);
}.

Definition hashcash_evidence (c : Challenge) (r : HashcashResponse) (d : Difficulty) : VerifiedHashcash :=
  let scope := scope_key sha256 c in
  let hash := hashcash_hash sha256 r in
  mkVerifiedHashcash scope hash (reward sha256 scope hash)
    (work_digest sha256 (challenge_hash sha256 c) (ch_subject_key c) (hr_nonce r)) d (ch_purpose c)
    (ch_expires_at c).

Lemma check_hashcash_binding_Ok c r : check_hashcash_binding sha256 c r = Ok tt <->
  hr_challenge_id r = ch_challenge_id c /\ hr_challenge_hash r = challenge_hash sha256 c /\
  hr_subject_key r = ch_subject_key c.
Proof. unfold check_hashcash_binding. rewrite if_Err_Ok, !orb_false_iff, !differs_false. tauto. Qed.

Lemma verify_hashcash_Ok c r expected now v h v' :
  verify_hashcash sha256 c r expected now v = (Ok h, v') <->
  exists d win, hashcash_admissible c r expected v (clock_at v now) d /\
    consumed c (hashcash_hash sha256 r) v win /\ h = hashcash_evidence c r d /\
    v' = set_window win (set_clock (clock_at v now) v).
Proof.
  unfold verify_hashcash. unfold bind at 1. rewrite advance_clock_eq. unfold bind at 1, get at 1.
  rewrite bind_lift_Ok. split.
  - intros (vc & [Hcur ->]%verify_challenge_Ok & H). cbn [vch_challenge vch_scope_key] in H.
    apply bind_lift_Ok in H as (d & Hd%ok_or_Ok & H).
    apply bind_lift_Ok in H as ([] & Hs%check_subject_Ok & H).
    apply bind_lift_Ok in H as ([] & (H1 & H2 & H3)%check_hashcash_binding_Ok & H).
    apply bind_Ok in H as ([] & v1 & [Hp ->]%peek_window_Ok & H).
    destruct (N.ltb_spec (leading_zero_bits (work_digest sha256 (challenge_hash sha256 c)
      (ch_subject_key c) (hr_nonce r))) (bits d)); [done|].
    apply bind_Ok in H as ([] & v1 & (win & Hw & ->)%on_window_Ok & H). injection H as <- <-.
    exists d, win. by split; [split|].
  - intros (d & win & [Hcur Hd Hs H1 H2 H3 Hm] & Hw & -> & ->).
    exists (verified_of c). split; [by apply verify_challenge_Ok|]. cbn [vch_challenge vch_scope_key verified_of].
    apply bind_lift_Ok. exists d. split; [by apply ok_or_Ok|].
    apply bind_lift_Ok. exists tt. split; [by apply check_subject_Ok|].
    apply bind_lift_Ok. exists tt. split; [by apply check_hashcash_binding_Ok|].
    apply bind_Ok. exists tt, (set_clock (clock_at v now) v). split.
    { apply peek_window_Ok. split; [|done]. by eapply consumed_free. }
    rewrite (proj2 (N.ltb_ge _ _)) by done.
    apply bind_Ok. exists tt, (set_window win (set_clock (clock_at v now) v)). split; [|done].
    apply on_window_Ok. by exists win.
Qed.

Lemma verify_hashcash_fails c r expected now v :
  match verify_hashcash sha256 c r expected now v with
  | (Ok _, _) => True
  | (_, v') => v' = set_clock (clock_at v now) v
  end.
Proof.
  unfold verify_hashcash. unfold bind at 1. rewrite advance_clock_eq. set (v1 := set_clock _ v).
  revert v1. apply rolls_back_bind; [apply observes_get|]. intros v1.
  apply rolls_back_bind; [apply observes_lift|]. intros vc.
  apply rolls_back_bind; [apply observes_lift|]. intros d.
  do 2 (apply rolls_back_bind; [apply observes_lift|]; intros _).
  apply rolls_back_bind; [apply peek_observes|]. intros _.
  case_match; [by apply observes_rolls_back|].
  apply (rolls_back_then _ (fun _ => _)), on_window_rolls_back, consume_rolls_back.
Qed.
End Facts.

(** Sequences of calls of the verifier of [Admit]: what one verifier admits over
    its lifetime, in both modes and whatever the clocks it is called with. *)

Inductive VerifierCall : Type :=
| CallWitness (challenge : Challenge) (manifest : ValidManifest) (response : Response)
    (expected : ChallengeContext) (now : N)
| CallBytes (challenge : list N) (manifest : ValidManifest) (response : list N)
    (expected : ChallengeContext) (now : N)
| CallHashcash (challenge : Challenge) (response : HashcashResponse) (expected : ChallengeContext)
    (now : N)
| CallAllowance (allowance : WorkAllowance)
| CallPrune (now : N).

(** Evidence that was handed out, and the verifier's clock at that moment. *)
Record Admission : Type := mkAdmission {
  ad_scope : list N; ad_response : list N; ad_reward : list N; ad_expires : N; ad_now : N;
}.

Section Runs.
Context (sha256 : list N -> list N) `{Hed : Ed25519}.

Definition witness_admission (r : res WitnessError VerifiedWitness) (v : WitnessVerifier) : list Admission :=
  match r with
  | Ok w => [mkAdmission (vw_scope_key w) (vw_response_hash w) (vw_reward w) (vw_expires_at w) (wv_clock v)]
  | _ => []
  end.

Definition hashcash_admission (r : res WitnessError VerifiedHashcash) (v : WitnessVerifier) : list Admission :=
  match r with
  | Ok h => [mkAdmission (vh_scope_key h) (vh_response_hash h) (vh_reward h) (vh_expires_at h) (wv_clock v)]
  | _ => []
  end.

Definition verifier_step (call : VerifierCall) (v : WitnessVerifier) : list Admission * WitnessVerifier :=
  match call with
  | CallWitness c m r expected now =>
      let '(x, v') := verify_response sha256 c m r expected now v in (witness_admission x v', v')
  | CallBytes c m r expected now =>
      let '(x, v') := verify_bytes sha256 c m r expected now v in (witness_admission x v', v')
  | CallHashcash c r expected now =>
      let '(x, v') := verify_hashcash sha256 c r expected now v in (hashcash_admission x v', v')
  | CallAllowance a => ([], set_allowance a v)
  | CallPrune now => ([], snd (prune (E := WitnessError) now v))
  end.

Fixpoint verifier_run (calls : list VerifierCall) (v : WitnessVerifier) : list Admission * WitnessVerifier :=
  match calls with
  | [] => ([], v)
  | call :: calls =>
      let '(xs, v1) := verifier_step call v in
      let '(ys, v2) := verifier_run calls v1 in (xs ++ ys, v2)
  end.

(** ** The invariant *)

Definition open (v : WitnessVerifier) : OpenScopes := ow_entries (wv_window v).

Record verifier_ok (v : WitnessVerifier) : Prop := {
  vo_represents : represents (open v) (wv_window v);
  vo_bounded : bounded_scopes (open v);
}.

Lemma new_verifier_ok started allowance : verifier_ok (WitnessVerifier_new started allowance OneUseWindow_new).
Proof.
  split; [exact represents_new|]. split.
  - unfold open. simpl. rewrite map_size_empty. done.
  - intros s. unfold open. simpl. by rewrite held_empty.
Qed.

(** No challenge of this scope that expires at [e] can be admitted any more. *)
Definition scope_closed (v : WitnessVerifier) (scope : list N) (e : N) : Prop :=
  (exists entry, open v !! scope = Some entry /\ en_expires_at entry = e) \/ e < wv_clock v.

Definition earlier_scope (a b : Admission) : Prop :=
  ad_scope a = ad_scope b -> ad_expires a < ad_now b.

(** A step keeps the invariant, only moves forward, and what it admits was not
    closed before and is closed after. *)
Record step_ok (v : WitnessVerifier) (xs : list Admission) (v' : WitnessVerifier) : Prop := {
  sk_ok : verifier_ok v';
  sk_closed s e : scope_closed v s e -> scope_closed v' s e;
  sk_admits x : x ∈ xs -> ad_now x <= ad_expires x /\ scope_closed v' (ad_scope x) (ad_expires x) /\
    (forall e, scope_closed v (ad_scope x) e -> e < ad_now x);
  sk_sorted : StronglySorted earlier_scope xs;
}.

Lemma step_refl v : verifier_ok v -> step_ok v [] v.
Proof. intros H. split; [done|auto|by intros x ?%elem_of_nil|constructor]. Qed.

(** Moving the clock forward. *)
Lemma step_clock v now : verifier_ok v -> step_ok v [] (set_clock (clock_at v now) v).
Proof.
  intros [H1 H2]. split; [by split| |by intros x ?%elem_of_nil|constructor].
  intros s e [H|H]; [by left|right]. cbn. unfold clock_at. lia.
Qed.

(** Handing out evidence for a challenge that is current. *)
Lemma step_admit v now c h reward expected started win :
  verifier_ok v -> challenge_current c expected started (clock_at v now) ->
  consumed sha256 c h v win ->
  step_ok v [mkAdmission (scope_key sha256 c) h reward (ch_expires_at c) (clock_at v now)]
    (set_window win (set_clock (clock_at v now) v)).
Proof.
  intros [Hr Hb] Hc Hw. unfold consumed in Hw.
  pose proof (consume_refines (open v) (wv_window v) (scope_key sha256 c) (ch_subject_key c) h
    (ch_expires_at c) Hr) as H.
  destruct (refusal (open v) (scope_key sha256 c) (ch_subject_key c) h) as [e|] eqn:Ef.
  { rewrite H in Hw. done. }
  destruct H as (w' & E & Hr'). rewrite E in Hw. injection Hw as ->.
  pose proof (rp_entries _ _ Hr') as Hopen.
  assert (Hnone : open v !! scope_key sha256 c = None).
  { unfold refusal in Ef. by destruct (open v !! _). }
  split.
  - split; unfold open; cbn; rewrite Hopen; [done|]. by apply bounded_insert.
  - intros s e [(entry & Hs & He)|H]; [|right; cbn; unfold clock_at; lia]. left. exists entry.
    split; [|done]. unfold open. cbn. rewrite Hopen. rewrite lookup_insert_ne; [done|]. by intros <-; rewrite Hnone in Hs.
  - intros x ->%list_elem_of_singleton. cbn. split; [apply (cu_now _ _ _ _ Hc)|]. split.
    + left. eexists. unfold open. cbn. rewrite Hopen, lookup_insert_eq. by split.
    + intros e [(entry & Hs & _)|H]; [by rewrite Hnone in Hs|]. unfold clock_at. lia.
  - repeat constructor.
Qed.

Lemma witness_step v c m r expected now : verifier_ok v ->
  let '(x, v') := verify_response sha256 c m r expected now v in
  step_ok v (witness_admission x v') v'.
Proof.
  intros Hv. pose proof (verify_response_fails sha256 c m r expected now v) as Hf.
  destruct (verify_response sha256 c m r expected now v) as [[w|e|] v'] eqn:E;
    [|subst; by apply step_clock..].
  apply verify_response_Ok in E as (receipt & win & Ha & Hw & -> & ->).
  eapply step_admit; [done|apply (wa_current _ _ _ _ _ _ _ _ Ha)|done].
Qed.

Lemma verifier_step_ok call v : verifier_ok v ->
  let '(xs, v') := verifier_step call v in step_ok v xs v'.
Proof.
  intros Hv. destruct call as [c m r expected now|c m r expected now|c r expected now|a|now]; cbn [verifier_step].
  - pose proof (witness_step v c m r expected now Hv) as H. by destruct (verify_response _ _ _ _ _ _ _).
  - unfold verify_bytes, bind, lift. destruct (decode_challenge c) as [c'|e|]; cbn [map_err];
      [|by apply step_refl..].
    destruct (decode_response r) as [r'|e|]; cbn [map_err]; [|by apply step_refl..].
    pose proof (witness_step v c' m r' expected now Hv) as H. by destruct (verify_response _ _ _ _ _ _ _).
  - pose proof (verify_hashcash_fails sha256 c r expected now v) as Hf.
    destruct (verify_hashcash sha256 c r expected now v) as [[w|e|] v'] eqn:E;
      [|subst; by apply step_clock..].
    apply verify_hashcash_Ok in E as (d & win & Ha & Hw & -> & ->).
    eapply step_admit; [done|apply (ha_current _ _ _ _ _ _ _ Ha)|done].
  - destruct Hv as [H1 H2]. split; [by split|done|by intros x ?%elem_of_nil|constructor].
  - destruct Hv as [H1 H2]. unfold prune, bind. rewrite advance_clock_eq. cbn [snd modify].
    pose proof (prune_refines (clock_at v now) _ _ H1) as Hr. pose proof (rp_entries _ _ Hr) as He.
    split; [| |by intros x ?%elem_of_nil|constructor].
    + split; unfold open; cbn; rewrite He; [done|by apply bounded_unexpired].
    + intros s e [(entry & Hs & Hx)|H]; [|right; cbn; unfold clock_at; lia].
      destruct (N.lt_ge_cases e (clock_at v now)) as [Hlt|Hge]; [by right|left]. exists entry.
      split; [|done]. unfold open. cbn. rewrite He. unfold unexpired. rewrite map_lookup_filter, Hs. simpl.
      rewrite option_guard_True; [done|]. by rewrite Hx.
Qed.

Lemma earlier_app xs ys : StronglySorted earlier_scope xs -> StronglySorted earlier_scope ys ->
  (forall x y, x ∈ xs -> y ∈ ys -> earlier_scope x y) -> StronglySorted earlier_scope (xs ++ ys).
Proof.
  intros Hx Hy H. induction Hx as [|x xs Hx IH Hf]; [done|]. simpl. constructor.
  - apply IH. intros. apply H; [by right|done].
  - apply Forall_app. split; [done|]. apply Forall_forall. intros y Hin. apply H; [left|done].
Qed.

Lemma verifier_run_ok calls v : verifier_ok v ->
  let '(xs, v') := verifier_run calls v in step_ok v xs v'.
Proof.
  revert v. induction calls as [|call calls IH]; intros v Hv; cbn [verifier_run]; [by apply step_refl|].
  pose proof (verifier_step_ok call v Hv) as H1. destruct (verifier_step call v) as [xs v1].
  pose proof (IH v1 (sk_ok _ _ _ H1)) as H2. destruct (verifier_run calls v1) as [ys v2].
  split; [apply H2| | |].
  - intros s e Hb. by apply H2, H1.
  - intros x [Hx|Hx]%elem_of_app.
    + destruct (sk_admits _ _ _ H1 x Hx) as (He & Hb & Hn). split; [done|]. split; [by apply H2|done].
    + destruct (sk_admits _ _ _ H2 x Hx) as (He & Hb & Hn). split; [done|]. split; [done|].
      intros e Hbe. by apply Hn, H1.
  - apply earlier_app; [apply H1|apply H2|]. intros x y Hx Hy Hs.
    destruct (sk_admits _ _ _ H1 x Hx) as (_ & Hb & _). destruct (sk_admits _ _ _ H2 y Hy) as (_ & _ & Hn).
    rewrite Hs in Hb. by apply Hn.
Qed.

Lemma earlier_nodup_scopes xs :
  StronglySorted earlier_scope xs -> (forall x, x ∈ xs -> ad_now x <= ad_expires x) ->
  NoDup ((fun x => (ad_scope x, ad_expires x)) <$> xs).
Proof.
  induction 1 as [|x xs Hs IH Hf]; intros Hx; csimpl; constructor.
  - intros (y & [= Es Ee] & Hy)%list_elem_of_fmap.
    pose proof (proj1 (Forall_forall _ _) Hf y Hy Es) as Hlt.
    specialize (Hx y ltac:(by right)). lia.
  - apply IH. intros y Hy. apply Hx. by right.
Qed.
End Runs.

(** The honest parties of the bot captcha: an issuer that signs, a prover that
    runs its candidate, a solver that searches for a nonce, and the verifier
    that admits what they send. *)

Section Honest.
Context (sha256 : list N -> list N) `{Hed : Ed25519}.

(** The window has room for one more scope of the subject. *)
Definition room_for (v : WitnessVerifier) (c : Challenge) : Prop :=
  window_consumed (wv_window v) (scope_key sha256 c) = None /\
  window_len (wv_window v) < MAX_OPEN_CHALLENGES /\
  held_by (wv_window v) (ch_subject_key c) < MAX_OPEN_PER_SUBJECT.

Lemma room_consumed v c hash : room_for v c -> exists win, consumed sha256 c hash v win.
Proof.
  intros (H1 & H2 & H3). unfold consumed, window_consume, bind, get, window_peek.
  unfold window_consumed in H1. apply fmap_None in H1. rewrite H1.
  rewrite !(proj2 (N.leb_gt _ _)) by done. by eexists.
Qed.

(** Nothing panics: a validated manifest and bytes of a response. *)
Lemma replay_no_panic m manifest vc r allowance :
  manifest_typed m -> validate sha256 m = Ok manifest -> Forall byte (re_candidate r) ->
  vm_hash manifest = ch_task_manifest_hash (vch_challenge vc) ->
  replay_claimed sha256 vc manifest r allowance <> Panic.
Proof.
  intros Ht Hv Hb Hm. unfold replay_claimed. destruct (decode_candidate (re_candidate r)) as [ps|e|] eqn:Ed;
    cbn [map_err res_bind]; [|done|by pose proof (decode_total (g := do! header in get_candidate)
      MAX_ASSIGNMENT_BYTES (re_candidate r) Hb)].
  apply decode_candidate_iff in Ed as [Hps _]; [|done].
  destruct (assign manifest ps) as [a|e|] eqn:Ea; cbn [map_err res_bind]; [|done|].
  2: { apply validate_valid in Hv as (w & Hmv & ->). pose proof (assign_cases sha256 m w ps Hmv) as H.
       simpl in H. rewrite Ea in H. destruct (bool_decide _); [|done]. by destruct H as [(? & ? & ? & _)|]. }
  destruct (differs _ _); [done|]. destruct (N.ltb_spec (max_total allowance) (fuel_total manifest)); [done|].
  assert (Hbound : bound_task sha256 m manifest ps a).
  { split; try done. destruct Hps as (_ & _ & Hf). eapply Forall_impl; [exact Hf|]. by intros e []. }
  destruct (bound_task_ok _ _ _ _ _ Hbound) as (w & Ev & _ & Hw & Hty & Ha & Hc & Hn & _).
  destruct (run_observed_ok sha256 w Hw Hty a Ha (fun _ _ => tt) manifest
    (run_capability vc (ProgramHash_of sha256 (encode_assignment a)) allowance Platform.Replay) tt)
    as (t & o & _ & E); [by rewrite Ev|done..|].
  unfold platform_run. rewrite E. simpl. by destruct (_ || _).
Qed.

Lemma consume_no_panic scope subject hash expires w : fst (window_consume scope subject hash expires w) <> Panic.
Proof. unfold window_consume, bind, get. by repeat case_match. Qed.

Lemma verify_response_no_panic m manifest c r expected now v :
  manifest_typed m -> validate sha256 m = Ok manifest -> Forall byte (re_candidate r) ->
  fst (verify_response sha256 c manifest r expected now v) <> Panic.
Proof.
  intros Ht Hv Hb.
  enough (wp (verify_response sha256 c manifest r expected now) (fun _ _ => True) (fun _ _ => True) v) as H.
  { unfold wp in H. by destruct (verify_response sha256 c manifest r expected now v) as [[]]. }
  unfold verify_response, advance_clock. wp_steps.
  pose proof (verify_challenge_no_panic sha256 c expected (wv_started_at (set_clock (N.max (wv_clock v) now) v))
    (wv_clock (set_clock (N.max (wv_clock v) now) v))) as Hc.
  destruct (verify_challenge _ _ _ _ _) as [vc|e|]; [|done..]. wp_steps.
  destruct (challenge_contract _) as [k|]; cbn [ok_or]; [|done].
  destruct (differs (vm_hash manifest) _) eqn:Em; [done|]. apply (proj1 (differs_false _ _)) in Em. wp_steps.
  pose proof (check_subject_no_panic (ch_subject_key (vch_challenge vc)) (response_transcript r) (re_signature r)) as Hs.
  destruct (check_subject _ _ _) as [[]|e|]; [|done..]. unfold peek_window. wp_steps.
  destruct (window_peek _ _ _); [done|]. wp_steps.
  destruct (check_binding sha256 _ r) as [[]|e|] eqn:E1; [|done|unfold check_binding in E1; by case_match].
  wp_steps. destruct (check_claim sha256 r) as [[]|e|] eqn:E2; [|done|unfold check_claim in E2; by case_match].
  wp_steps. pose proof (replay_no_panic m manifest vc r
    (wv_allowance (set_clock (N.max (wv_clock v) now) v)) Ht Hv Hb Em) as Hr.
  destruct (replay_claimed _ _ _ _ _) as [receipt|e|]; [|done..]. wp_steps.
  pose proof (check_contract_no_panic k receipt) as Hk. destruct (check_contract k receipt) as [[]|e|]; [|done..].
  unfold on_window. wp_steps. pose proof (consume_no_panic (vch_scope_key vc) (ch_subject_key (vch_challenge vc))
    (response_digest sha256 r) (ch_expires_at (vch_challenge vc)) (wv_window (set_clock (N.max (wv_clock v) now) v))) as Hw.
  unfold wp. by destruct (window_consume _ _ _ _ _) as [[]].
Qed.

Context `{!Sha256 sha256, !Ed25519Laws Hed}.

(** ** The prover *)

(** What is known of an honest response and its receipt. *)
Record honest_response (c : Challenge) (manifest : ValidManifest) (candidate : list (N * Program))
    (receipt : WitnessReceipt) (r : Response) : Prop := {
  hn_wire : response_wire r;
  hn_candidate : re_candidate r = encode_candidate candidate;
  hn_answers : answers sha256 c receipt r;
  hn_signed : verify_strict (ch_subject_key c) (response_transcript r) (re_signature r) = true;
  hn_replays allowance : fuel_total manifest <= max_total allowance ->
    replays sha256 c manifest (encode_candidate candidate) allowance receipt;
}.

Lemma respond_honest m manifest candidate a c allowance seed :
  bound_task sha256 m manifest candidate a -> challenge_wire c -> ch_algorithm c = Witness ->
  vm_hash manifest = ch_task_manifest_hash c -> ch_subject_key c = verifying_key seed ->
  is_weak (verifying_key seed) = false -> fuel_total manifest <= max_total allowance ->
  exists receipt r, respond sha256 (verified_of sha256 c) manifest candidate allowance seed = Ok r /\
    honest_response c manifest candidate receipt r.
Proof.
  intros Hb Hc Halg Hman Hsub Hweak Hfuel.
  pose proof Hc as (_ & Hid & _ & Hsk & _ & _ & Hmh & _).
  destruct (bound_receipt sha256 m manifest candidate a (mkReceiptBinding (ch_challenge_id c) (ch_subject_key c))
    Hb Hid Hsk) as (receipt & Hx & _ & Xi & Xs & Xm & Xp & Hrun).
  pose proof (bound_candidate_wf _ _ _ _ _ Hb) as Hcw.
  assert (Hrun' : forall role al, fuel_total manifest <= max_total al -> exists run,
    platform_run sha256 manifest a (mint (ch_task_manifest_hash c)
      (ProgramHash_of sha256 (encode_assignment a)) al role) = Ok run /\
    into_receipt sha256 run (mkReceiptBinding (ch_challenge_id c) (ch_subject_key c)) = receipt).
  { intros role al Hal. apply (Hrun unit (fun _ _ => tt)). by split_and!. }
  destruct (Hrun' Prove allowance Hfuel) as (run & Er & Exr).
  set (r0 := unsigned_response sha256 (verified_of sha256 c) (verifying_key seed) (encode_candidate candidate) receipt).
  exists receipt, (r0 (sign_bytes seed (response_transcript (r0 (replicate 64 0))))). split.
  { unfold respond. cbn [vch_challenge verified_of]. rewrite !bool_decide_true by done. cbn [negb].
    rewrite (bk_assign _ _ _ _ _ Hb). cbn [map_err res_bind]. unfold run_capability. cbn [vch_challenge verified_of].
    rewrite Er. cbn [map_err res_bind]. unfold receipt_binding. cbn [vch_challenge verified_of].
    by rewrite Exr. }
  assert (Hdec : decode_candidate (encode_candidate candidate) = Ok candidate).
  { apply decode_candidate_iff; [by apply encode_candidate_bytes|done]. }
  split; [|done| | |].
  - pose proof (encode_candidate_bytes _ Hcw) as Hbytes. destruct Hx as [X1 X2 X3 X4 X5 X6 X7 X8].
    assert (Hlen : len (encode_candidate candidate) <= MAX_ASSIGNMENT_BYTES).
    { unfold decode_candidate in Hdec. by apply decode_iff in Hdec as (_ & _ & ?). }
    unfold response_wire, r0, unsigned_response. cbn [re_version re_challenge_id re_challenge_hash re_subject_key
      re_task_manifest_hash re_program_hash re_output_hash re_receipt_hash re_measured_work re_hashcash_nonce
      re_candidate re_claimed re_signature vch_challenge verified_of].
    split_and!; try done; try apply verifying_key_wire; try (by apply digest_wire); try apply sign_bytes_wire.
  - split; try done; cbn [re_subject_key re_task_manifest_hash r0 unsigned_response]; congruence.
  - rewrite Hsub. by apply verify_sign.
  - intros al Hal. destruct (Hrun' Platform.Replay al Hal) as (run2 & E2 & X2).
    exists candidate, a, run2. split_and!; try done. apply (bk_assign _ _ _ _ _ Hb).
Qed.

(** ** The solver *)

Lemma respond_hashcash_honest c nonce seed :
  challenge_wire c -> ch_algorithm c = Hashcash -> ch_subject_key c = verifying_key seed ->
  is_weak (verifying_key seed) = false -> u 64 nonce ->
  exists r, respond_hashcash sha256 (verified_of sha256 c) nonce seed = Ok r /\ hashcash_wire r /\
    hr_challenge_id r = ch_challenge_id c /\ hr_challenge_hash r = challenge_hash sha256 c /\
    hr_subject_key r = ch_subject_key c /\ hr_nonce r = nonce /\
    verify_strict (ch_subject_key c) (hashcash_transcript r) (hr_signature r) = true.
Proof.
  intros (_ & Hid & _ & Hsk & _) Halg Hsub Hweak Hn. unfold respond_hashcash. cbn [vch_challenge verified_of].
  rewrite !bool_decide_true by done. cbn [negb]. eexists. split; [reflexivity|].
  split_and!; try done; [|rewrite Hsub; by apply verify_sign].
  unfold hashcash_wire. cbn [hr_version hr_challenge_id hr_challenge_hash hr_subject_key hr_nonce hr_signature].
  split_and!; try done; [by apply digest_wire|apply verifying_key_wire|apply sign_bytes_wire].
Qed.

(** [solve] returns the least nonce below the bound that meets the target, and
    fails only when there is none. *)
Lemma solve_exact c max d : challenge_difficulty c = Some d ->
  (forall nonce, solve sha256 (verified_of sha256 c) max = Ok nonce <->
     nonce < max /\ meets sha256 c d nonce /\ forall n, n < nonce -> ~ meets sha256 c d n) /\
  (solve sha256 (verified_of sha256 c) max = Err SolveExhausted <-> forall n, n < max -> ~ meets sha256 c d n) /\
  solve sha256 (verified_of sha256 c) max <> Panic.
Proof.
  intros Hd. unfold solve. cbn [vch_challenge verified_of]. rewrite Hd. cbn [ok_or res_bind].
  set (p := fun nonce => bits d <=? leading_zero_bits (work_digest sha256 (challenge_hash sha256 c)
    (ch_subject_key c) nonce)).
  assert (Hp : forall n, p n = true <-> meets sha256 c d n) by (intros n; apply N.leb_le).
  assert (Hnp : forall n, p n = false <-> ~ meets sha256 c d n).
  { intros n. rewrite <- Hp. by destruct (p n); split. }
  split; [|split].
  - intros nonce. rewrite ok_or_Ok, find_from_Some, N2Nat.id, Hp. setoid_rewrite Hnp. split.
    + intros ((_ & H1) & H2 & H3). split; [lia|]. split; [done|]. intros n Hn. apply H3. lia.
    + intros (H1 & H2 & H3). split; [lia|]. split; [done|]. intros n Hn. apply H3. lia.
  - destruct (find_from p (N.to_nat max) 0) as [n|] eqn:E; cbn [ok_or].
    + split; [done|]. apply find_from_Some in E as (Hn & Ht & _). intros H. exfalso.
      apply (H n); [lia|]. by apply Hp.
    + split; [|done]. intros _ n Hn. apply Hnp. apply (find_from_None p (N.to_nat max) 0); [done|lia].
  - by destruct (find_from _ _ _).
Qed.
End Honest.
