(* ===== verification/WitnessSession.v ===== *)
(** The witness session that joins authenticated frames to the bot captcha's
    verifier (src/crates/vhalla-steel-thread/src/lib.rs, [WitnessSession]): one
    pinned subject, one challenge, evidence or an error. *)
From stdpp Require Import gmap sorting.
From S2P Require Import Prelude Bytes ProgramCodec Manifest Platform Wire Signed Replay Access Relay.
From S2P Require Import Challenge Hashcash Response Admit AdmitFacts SteelThread.

Record WitnessSession : Type := mkWitnessSession {
  ws_replay : ReplayWindow; ws_subject_key : list N; ws_challenge : Challenge;
  ws_manifest : ValidManifest; ws_expected : ChallengeContext; ws_verifier : WitnessVerifier;
}.

Definition set_ws_replay (w : ReplayWindow) (s : WitnessSession) : WitnessSession :=
  mkWitnessSession w (ws_subject_key s) (ws_challenge s) (ws_manifest s) (ws_expected s) (ws_verifier s).
Definition set_ws_verifier (v : WitnessVerifier) (s : WitnessSession) : WitnessSession :=
  mkWitnessSession (ws_replay s) (ws_subject_key s) (ws_challenge s) (ws_manifest s) (ws_expected s) v.

Section Session.
Context (sha256 : list N -> list N) `{Hed : Ed25519}.

Definition WitnessSession_new (context : VerificationContext) (subject_key : list N)
    (challenge : Challenge) (manifest : ValidManifest) (allowance : WorkAllowance) (started_at : N)
    : res SteelError WitnessSession :=
  if is_weak subject_key then Err (SteelVerify WeakKey)
  else if differs (ch_subject_key challenge) subject_key then Err (SteelWitness WContext)
  else
    let expected := challenge_context challenge in
    let? replay := map_err SteelVerify (ReplayWindow_new context 1) in
    Ok (mkWitnessSession replay subject_key challenge manifest expected
          (WitnessVerifier_new started_at allowance OneUseWindow_new)).

Definition on_ws_replay {A} (m : eff ReplayWindow VerifyError A) : eff WitnessSession SteelError A :=
  eff_map_err SteelVerify (zoom ws_replay set_ws_replay m).
Definition on_verifier {A} (m : eff WitnessVerifier WitnessError A) : eff WitnessSession SteelError A :=
  eff_map_err SteelWitness (zoom ws_verifier set_ws_verifier m).

Definition receive_witness (frame : Frame) (now : N) : eff WitnessSession SteelError VerifiedWitness :=
  let! signed := lift (map_err SteelDecode (decode_signed (frame_bytes frame))) in
  let! s := get in
  let! verified := on_ws_replay (verify_and_accept sha256 signed (ws_subject_key s) now) in
  if negb (env_kind (ve_envelope verified) =? KIND_WITNESS_RESPONSE) then throw (SteelDenied DeniedKind)
  else
    on_verifier (verify_bytes sha256 (encode_challenge (ws_challenge s)) (ws_manifest s)
      (env_body (ve_envelope verified)) (ws_expected s) now).

Definition open_challenges (s : WitnessSession) : N := window_len (wv_window (ws_verifier s)).

(** ** One frame *)

(** What does not change in a session. *)
Definition pinned (s : WitnessSession) :=
  (ws_subject_key s, ws_challenge s, ws_manifest s, ws_expected s, rw_context (ws_replay s)).

(** Evidence comes from an authentic witness response of the pinned subject,
    admissible for the challenge of the session. *)
Definition admitted_frame (s : WitnessSession) (frame : Frame) (now : N) (w : VerifiedWitness) : Prop :=
  exists signed c r receipt, decode_signed (frame_bytes frame) = Ok signed /\
    authentic sha256 (rw_context (ws_replay s)) signed (ws_subject_key s) now /\
    env_kind (se_envelope signed) = KIND_WITNESS_RESPONSE /\
    decode_challenge (encode_challenge (ws_challenge s)) = Ok c /\
    decode_response (env_body (se_envelope signed)) = Ok r /\
    witness_admissible sha256 c (ws_manifest s) r (ws_expected s) (ws_verifier s)
      (clock_at (ws_verifier s) now) receipt /\
    w = witness_evidence sha256 c r receipt.

(** The verifier may have moved; the window of a refused frame is the old one. *)
Record frame_step (s : WitnessSession) (r : res SteelError VerifiedWitness) (s' : WitnessSession) : Prop := {
  fs_pinned : pinned s' = pinned s;
  fs_ok : verifier_ok (ws_verifier s');
  fs_closed scope e : scope_closed (ws_verifier s) scope e -> scope_closed (ws_verifier s') scope e;
  fs_admits w : r = Ok w -> scope_closed (ws_verifier s') (vw_scope_key w) (vw_expires_at w) /\
    ~ scope_closed (ws_verifier s) (vw_scope_key w) (vw_expires_at w);
  fs_count : open_challenges s' = open_challenges s + (match r with Ok _ => 1 | _ => 0 end);
}.

Lemma consumed_count c h v win : consumed sha256 c h v win -> window_len win = window_len (wv_window v) + 1.
Proof.
  unfold consumed, window_consume, bind, get, throw, modify. destruct (window_peek _ _ _) eqn:Ep; [done|].
  repeat (case_match; [done|]). intros [= <-]. unfold window_len. cbn [ow_entries].
  rewrite map_size_insert_None; [lia|]. unfold window_peek in Ep.
  by destruct (ow_entries (wv_window v) !! scope_key sha256 c); [case_match|].
Qed.

Lemma verify_bytes_Ok c manifest r expected now v w v' :
  verify_bytes sha256 c manifest r expected now v = (Ok w, v') <->
  exists c' r', decode_challenge c = Ok c' /\ decode_response r = Ok r' /\
    verify_response sha256 c' manifest r' expected now v = (Ok w, v').
Proof.
  unfold verify_bytes. rewrite bind_lift_Ok. split.
  - intros (c' & Hc%map_err_Ok & H). apply bind_lift_Ok in H as (r' & Hr%map_err_Ok & H). eauto.
  - intros (c' & r' & Hc & Hr & H). exists c'. split; [by apply map_err_Ok|].
    apply bind_lift_Ok. exists r'. split; [by apply map_err_Ok|done].
Qed.

(** The verifier's part of a frame. *)
Lemma verify_bytes_step v c manifest r expected now : verifier_ok v ->
  let '(x, v') := verify_bytes sha256 c manifest r expected now v in
  step_ok v (witness_admission x v') v' /\
  window_len (wv_window v') = window_len (wv_window v) + (match x with Ok _ => 1 | _ => 0 end).
Proof.
  intros Hv. pose proof (verifier_step_ok sha256 (CallBytes c manifest r expected now) v Hv) as Hs.
  cbn [verifier_step] in Hs. destruct (verify_bytes _ _ _ _ _ _ _) as [x v'] eqn:E. split; [done|].
  destruct x as [w|e|].
  - apply verify_bytes_Ok in E as (c' & r' & _ & _ & H).
    apply verify_response_Ok in H as (receipt & win & _ & Hw & _ & ->).
    by apply consumed_count in Hw.
  - unfold verify_bytes, bind, lift in E. rewrite N.add_0_r.
    destruct (decode_challenge c) as [c'|e1|]; cbn [map_err] in E; [|by simplify_eq..].
    destruct (decode_response r) as [r'|e2|]; cbn [map_err] in E; [|by simplify_eq..].
    pose proof (verify_response_fails sha256 c' manifest r' expected now v) as H. rewrite E in H. by subst.
  - unfold verify_bytes, bind, lift in E. rewrite N.add_0_r.
    destruct (decode_challenge c) as [c'|e1|]; cbn [map_err] in E; [|by simplify_eq..].
    destruct (decode_response r) as [r'|e2|]; cbn [map_err] in E; [|by simplify_eq..].
    pose proof (verify_response_fails sha256 c' manifest r' expected now v) as H. rewrite E in H. by subst.
Qed.

Lemma frame_refl s e : verifier_ok (ws_verifier s) -> frame_step s (Err e) s.
Proof. intros H. split; [done|done|auto|done|]. by rewrite N.add_0_r. Qed.

Lemma receive_witness_step frame now s : verifier_ok (ws_verifier s) ->
  let '(r, s') := receive_witness frame now s in
  frame_step s r s' /\ forall w, r = Ok w -> admitted_frame s frame now w.
Proof.
  intros Hv. unfold receive_witness, bind at 1, lift at 1.
  pose proof (decode_signed_no_panic (frame_bytes frame)) as Hnp.
  destruct (decode_signed (frame_bytes frame)) as [signed|e|] eqn:Hd; cbn [map_err];
    [|split; [by apply frame_refl|done]|done].
  unfold bind at 1, get, bind at 1, on_ws_replay, eff_map_err at 1, zoom at 1.
  destruct (verify_and_accept sha256 signed (ws_subject_key s) now (ws_replay s)) as [[ev|e|] win] eqn:E;
    cbn [map_err].
  - apply verify_and_accept_Ok in E as (Hau & Hf & -> & ->). cbn [ve_envelope evidence].
    set (s1 := set_ws_replay _ s).
    assert (Hs1 : forall x, open_challenges s1 = x <-> open_challenges s = x) by done.
    destruct (N.eqb_spec (env_kind (se_envelope signed)) KIND_WITNESS_RESPONSE) as [Hk|Hk]; cbn [negb].
    2: { split; [|done]. split; [done|done|auto|done|]. by rewrite N.add_0_r. }
    unfold on_verifier, eff_map_err, zoom.
    pose proof (verify_bytes_step (ws_verifier s) (encode_challenge (ws_challenge s)) (ws_manifest s)
      (env_body (se_envelope signed)) (ws_expected s) now Hv) as Hstep.
    change (ws_verifier s1) with (ws_verifier s).
    destruct (verify_bytes _ _ _ _ _ _ _) as [x v'] eqn:Ev. destruct Hstep as [Hstep Hcount].
    split.
    + split; [done|apply Hstep|apply Hstep| |by destruct x].
      destruct x as [w|e|]; [|done..]. intros w' [= <-].
      destruct (sk_admits _ _ _ Hstep _ ltac:(left)) as (Hle & Hb & Hn). split; [exact Hb|].
      intros Hbl. apply Hn in Hbl. cbn in *. lia.
    + intros w Hw. destruct x as [w'|e|]; [|done..]. injection Hw as ->.
      apply verify_bytes_Ok in Ev as (c & r & Hc & Hr & Ev).
      apply verify_response_Ok in Ev as (receipt & win & Ha & _ & -> & _).
      by exists signed, c, r, receipt.
  - apply verify_fails in E as ->. split; [|done].
    replace (set_ws_replay (ws_replay s) s) with s by (by destruct s). by apply frame_refl.
  - destruct (verify_no_panic sha256 signed (ws_subject_key s) now (ws_replay s)). by rewrite E.
Qed.

(** ** Runs of a session *)

Fixpoint witness_run (frames : list (Frame * N)) (s : WitnessSession) : list VerifiedWitness * WitnessSession :=
  match frames with
  | [] => ([], s)
  | (frame, now) :: frames =>
      let '(r, s1) := receive_witness frame now s in
      let '(ws, s2) := witness_run frames s1 in
      (match r with Ok w => w :: ws | _ => ws end, s2)
  end.

(** The scope and the expiry of what a session can admit are fixed. *)
Definition session_scope (s : WitnessSession) (scope : list N) (e : N) : Prop :=
  forall c, decode_challenge (encode_challenge (ws_challenge s)) = Ok c ->
    scope = scope_key sha256 c /\ e = ch_expires_at c.

Lemma admitted_scope s frame now w : admitted_frame s frame now w ->
  session_scope s (vw_scope_key w) (vw_expires_at w).
Proof. intros (signed & c & r & receipt & _ & _ & _ & Hc & _ & _ & ->) c' Hc'. rewrite Hc in Hc'. by injection Hc' as <-. Qed.

Lemma witness_run_spec frames s : verifier_ok (ws_verifier s) ->
  let '(ws, s') := witness_run frames s in
  verifier_ok (ws_verifier s') /\ pinned s' = pinned s /\ len ws <= 1 /\
  open_challenges s' = open_challenges s + len ws /\
  (forall w, w ∈ ws -> ~ scope_closed (ws_verifier s) (vw_scope_key w) (vw_expires_at w) /\
     exists frame now s1, (frame, now) ∈ frames /\ pinned s1 = pinned s /\ admitted_frame s1 frame now w).
Proof.
  revert s. induction frames as [|[frame now] frames IH]; intros s Hv; cbn [witness_run].
  { split; [done|]. split; [done|]. split; [done|]. split; [change (len []) with 0; lia|].
    by intros w ?%elem_of_nil. }
  pose proof (receive_witness_step frame now s Hv) as H.
  destruct (receive_witness frame now s) as [r s1]. destruct H as [[Hp Hok Hb Ha Hn] Hadm].
  specialize (IH s1 Hok). destruct (witness_run frames s1) as [ws s2].
  destruct IH as (Hok2 & Hp2 & Hl2 & Hn2 & Hw2). split; [done|]. split; [congruence|].
  assert (Hlater : forall w, w ∈ ws -> ~ scope_closed (ws_verifier s) (vw_scope_key w) (vw_expires_at w) /\
     exists frame' now' s1, (frame', now') ∈ (frame, now) :: frames /\ pinned s1 = pinned s /\
       admitted_frame s1 frame' now' w).
  { intros w Hin. destruct (Hw2 w Hin) as (Hnb & f & t & s0 & Hfr & Hp0 & Hf). split; [naive_solver|].
    exists f, t, s0. split; [by right|]. split; [congruence|done]. }
  destruct r as [w|e|]; [|by rewrite Hn2, Hn, N.add_0_r..].
  destruct (Ha w eq_refl) as [Hbl Hnb].
  assert (ws = []) as ->.
  { destruct ws as [|w2 ws]; [done|]. exfalso. destruct (Hw2 w2 ltac:(left)) as (Hnb2 & f & t & s0 & _ & Hp0 & Hf).
    pose proof (admitted_scope _ _ _ _ (Hadm w eq_refl)) as Hs1.
    pose proof (admitted_scope _ _ _ _ Hf) as Hs2. destruct Hf as (_ & c & _ & _ & _ & _ & _ & Hc & _).
    assert (Hch : ws_challenge s0 = ws_challenge s) by (unfold pinned in *; congruence).
    destruct (Hs2 c Hc) as [E1 E2]. rewrite Hch in Hc. destruct (Hs1 c Hc) as [E3 E4]. congruence. }
  change (len [w]) with 1. split; [lia|]. split; [rewrite Hn2, Hn; change (len []) with 0; lia|].
  intros w' ->%list_elem_of_singleton. split; [done|]. exists frame, now, s. split; [left|]. split; [done|auto].
Qed.

Lemma new_witness_session context key challenge manifest allowance started s :
  WitnessSession_new context key challenge manifest allowance started = Ok s ->
  verifier_ok (ws_verifier s) /\ open_challenges s = 0 /\
  pinned s = (key, challenge, manifest, challenge_context challenge, context) /\
  is_weak key = false /\ ch_subject_key challenge = key.
Proof.
  unfold WitnessSession_new. destruct (is_weak key); [done|]. destruct (differs _ _) eqn:Ed; [done|].
  apply (proj1 (differs_false _ _)) in Ed. intros [= <-]. split; [apply new_verifier_ok|].
  split; [unfold open_challenges, window_len; cbn; by rewrite map_size_empty|done].
Qed.
End Session.
