(* ===== verification/SteelClaims.v ===== *)
(** Properties of signed frames, replay admission, grants and sessions
    ([Wire], [Signed], [Replay], [Access], [Relay], [SteelThread]). *)
From stdpp Require Import gmap sorting.
From S2P Require Import Prelude Bytes PrefixFree Wire Signed Replay Access Relay SteelThread.

(** ** A concrete session, to evaluate the definitions *)

Definition toy_key : list N := poly_hash SIGNING_SEED.
Definition toy_author : N := peer_id_from_key poly_hash toy_key.
Definition toy_envelope (sequence : N) : Envelope :=
  mkEnvelope KIND_READ_MEMORY_REQUEST toy_author 10 20 30 sequence [1; 2; 3].
Definition toy_signed (sequence : N) : SignedEnvelope :=
  mkSigned (toy_envelope sequence) 1 1 40 100
    (toy_signature toy_key (signed_bytes (mkSigned (toy_envelope sequence) 1 1 40 100 []))).
Definition toy_frame (sequence : N) : Frame := mkFrame (signed_frame (toy_signed sequence)).
Definition toy_session : MemorySession :=
  mkSession (mkWindow demo_context 1 ∅) (mkHost (read_memory demo_context toy_key 7) 0) toy_key 7.

Example toy_sign : sign (H := toy_ed25519) poly_hash (toy_envelope 1) 1 1 40 100 SIGNING_SEED = Ok (toy_signed 1).
Proof. vm_compute. reflexivity. Qed.

Lemma toy_envelope_ok : envelope_ok (toy_envelope 1).
Proof.
  split; try (vm_compute; reflexivity); split; try (vm_compute; reflexivity); try (vm_compute; discriminate).
  apply (bool_decide_unpack _). vm_compute. exact I.
Qed.

Example toy_session_new :
  MemorySession_new (Hed := toy_ed25519) demo_context toy_key 7 = Ok toy_session.
Proof. vm_compute. reflexivity. Qed.

(** ** The properties *)

(** A frame is canonical at both layers: the envelope decoder and the signed
    decoder accept exactly the encodings of well-formed values, so every
    accepted frame re-encodes to itself and every encoding decodes back; the
    decoders never panic, whatever the bytes; and the signed bytes determine
    the whole envelope, the context and the expiry. *)
Theorem frame_canonical raw (Hraw : Forall byte raw) :
  (forall e, decode_envelope raw = Ok e <-> envelope_ok e /\ raw = encode_envelope e) /\
  (forall s, decode_signed raw = Ok s <-> signed_ok s /\ encode_signed s = Ok raw) /\
  decode_envelope raw <> Panic /\ decode_signed raw <> Panic /\
  (forall s1 s2 t, signed_ok s1 -> signed_ok s2 -> transcript_of s1 = Ok t -> transcript_of s2 = Ok t ->
     se_envelope s1 = se_envelope s2 /\ signed_context s1 = signed_context s2 /\
     se_expires_at s1 = se_expires_at s2).
Proof.
  split; [intros e; by apply decode_envelope_iff|]. split; [intros s; by apply decode_signed_iff|].
  split; [apply decode_envelope_no_panic|]. split; [apply decode_signed_no_panic|].
  intros s1 s2 t H1 H2 [L1 ->]%transcript_of_Ok [L2 E]%transcript_of_Ok. by apply signed_bytes_inj.
Qed.

Lemma frame_canonical_witness :
  decode_signed (signed_frame (toy_signed 1)) = Ok (toy_signed 1) /\
  decode_envelope (encode_envelope (toy_envelope 1)) = Ok (toy_envelope 1).
Proof.
  assert (H1 : Forall byte (signed_frame (toy_signed 1))) by (apply (bool_decide_unpack _); vm_compute; exact I).
  assert (H2 : Forall byte (encode_envelope (toy_envelope 1)))
    by (apply (bool_decide_unpack _); vm_compute; exact I).
  assert (Hs : signed_ok (toy_signed 1)).
  { apply (sign_ok (Hed := toy_ed25519) (Ed25519Laws0 := toy_laws) poly_hash
      (toy_envelope 1) 1 1 40 100 SIGNING_SEED); [exact toy_sign|exact toy_envelope_ok|reflexivity..]. }
  split.
  - apply (frame_canonical _ H1). split; [exact Hs|]. vm_compute. reflexivity.
  - apply (frame_canonical _ H2). split; [apply Hs|reflexivity].
Defined.

(** Replay admission: a call is accepted exactly when the signature, the key,
    the whole context and the expiry check out and the sequence is newer than
    the last accepted one of that key (or there is room for the key), and it
    then records the sequence; a refused call changes nothing.  So over any
    sequence of calls on a new window no sequence of a key is admitted twice,
    every admitted envelope was authentic for the window's context, and the
    window keeps at most [max] keys. *)
Theorem replay_admits_once sha256 (Hed : Ed25519) context max calls w
    (Hw : ReplayWindow_new context max = Ok w) :
  (forall s key now w1 v w2, verify_and_accept sha256 s key now w1 = (Ok v, w2) <->
     authentic sha256 (rw_context w1) s key now /\
     fresh w1 key (env_sequence (se_envelope s)) /\
     v = evidence w1 s key /\ w2 = record_sequence w1 key (env_sequence (se_envelope s))) /\
  (forall s key now w1 e w2, verify_and_accept sha256 s key now w1 = (Err e, w2) -> w2 = w1) /\
  let '(vs, w') := admit_all sha256 calls w in
  NoDup (admission <$> vs) /\
  (forall v, v ∈ vs -> ve_context v = context /\
     exists s now, (s, ve_signer_key v, now) ∈ calls /\ ve_envelope v = se_envelope s /\
       ve_expires_at v = se_expires_at s /\ authentic sha256 context s (ve_signer_key v) now) /\
  N.of_nat (size (rw_last w')) <= max <= MAX_REPLAY_AUTHORS.
Proof.
  split; [intros; apply verify_and_accept_Ok|]. split; [intros s key now w1 e w2; apply verify_fails|].
  pose proof (admit_all_spec sha256 calls w) as H. destruct (admit_all sha256 calls w) as [vs w'].
  unfold ReplayWindow_new in Hw. destruct (in_range 1 MAX_REPLAY_AUTHORS max) eqn:Hr; [|done].
  injection Hw as <-. unfold in_range in Hr. bool_to_prop. destruct H as (_ & Hb & Hv & Hn).
  split; [done|]. split.
  - intros v (Hc & _ & Hin)%Hv. by split.
  - split; [|done]. apply Hb. cbn. rewrite map_size_empty. lia.
Qed.

Lemma replay_admits_once_witness :
  admission <$> fst (admit_all (Hed := toy_ed25519) poly_hash
    [(toy_signed 1, toy_key, 50); (toy_signed 1, toy_key, 50); (toy_signed 2, toy_key, 101);
     (toy_signed 2, toy_key, 100)] (mkWindow demo_context 1 ∅)) = [(toy_key, 1); (toy_key, 2)] /\
  NoDup (admission <$> fst (admit_all (Hed := toy_ed25519) poly_hash
    [(toy_signed 1, toy_key, 50); (toy_signed 1, toy_key, 50)] (mkWindow demo_context 1 ∅))).
Proof.
  split; [vm_compute; reflexivity|].
  pose proof (replay_admits_once poly_hash toy_ed25519 demo_context 1
    [(toy_signed 1, toy_key, 50); (toy_signed 1, toy_key, 50)] (mkWindow demo_context 1 ∅) eq_refl) as H.
  destruct H as (_ & _ & H). destruct (admit_all _ _ _) as [vs w']. exact (proj1 H).
Defined.

(** C5. A session executes every effect at most once.  Over any sequence of
    frames and policy rotations, the executed effects are in strictly
    increasing order of epoch and sequence, so no message, epoch and sequence
    is executed twice; each was an unexpired read request under a valid
    signature of the key pinned at that time, for the context of that time; and
    the read counter counts exactly the executions. *)
Theorem session_executes_once sha256 (Hed : Ed25519) context key resource calls s
    (Hs : MemorySession_new context key resource = Ok s) :
  let '(xs, s') := session_run sha256 calls s in
  StronglySorted earlier (place_of <$> xs) /\ NoDup (place_of <$> xs) /\
  reads s' = len xs /\
  Forall (fun x => authentic sha256 (xc_context x) (xc_signed x) (xc_key x) (xc_now x) /\
    env_kind (se_envelope (xc_signed x)) = KIND_READ_MEMORY_REQUEST) xs.
Proof.
  pose proof (session_run_spec sha256 calls s (new_session_ok _ _ _ _ Hs)) as H.
  destruct (session_run sha256 calls s) as [xs s']. destruct H as (_ & Hr & Hx & _ & Hsort).
  split; [done|]. split; [by apply earlier_nodup|]. split; [|done].
  apply new_session_Ok in Hs as [_ ->]. by rewrite Hr.
Qed.

Lemma session_executes_once_witness :
  let '(xs, s') := session_run (Hed := toy_ed25519) poly_hash
    [CallReceive (toy_frame 1) 50; CallReceive (toy_frame 1) 50; CallReceive (toy_frame 2) 50] toy_session in
  NoDup (place_of <$> xs) /\ reads s' = len xs /\ place_of <$> xs = [(1, 1); (1, 2)].
Proof.
  pose proof (session_executes_once poly_hash toy_ed25519 demo_context toy_key 7
    [CallReceive (toy_frame 1) 50; CallReceive (toy_frame 1) 50; CallReceive (toy_frame 2) 50]
    toy_session toy_session_new) as H.
  assert (E : place_of <$> fst (session_run (Hed := toy_ed25519) poly_hash
    [CallReceive (toy_frame 1) 50; CallReceive (toy_frame 1) 50; CallReceive (toy_frame 2) 50] toy_session)
    = [(1, 1); (1, 2)]) by (vm_compute; reflexivity).
  destruct (session_run _ _ _) as [xs s']. destruct H as (_ & Hn & Hr & _).
  split; [exact Hn|]. split; [exact Hr|exact E].
Defined.

(** C28. What one frame does, on every branch: a frame that does not decode to an
    authentic, newer message of the pinned key is refused and the session is
    unchanged; any other uses up its sequence, and is executed unless it is not
    a read request or the counter is at its limit.  Nothing panics. *)
Theorem receive_exact sha256 (Hed : Ed25519) frame now s (Hs : session_ok s) :
  (forall signed, received sha256 frame now s signed ->
     receive sha256 frame now s = request_answer s frame signed) /\
  ((forall signed, ~ received sha256 frame now s signed) ->
     exists e, receive sha256 frame now s = (Err e, s)) /\
  session_ok (snd (receive sha256 frame now s)) /\ fst (receive sha256 frame now s) <> Panic.
Proof.
  split; [intros signed; by apply receive_received|]. split; [apply receive_refused|].
  split; [by apply receive_ok|]. pose proof (receive_step sha256 frame now s Hs) as H.
  destruct (receive sha256 frame now s) as [r s']. apply H.
Qed.

Lemma receive_exact_witness :
  receive (Hed := toy_ed25519) poly_hash (toy_frame 1) 50 toy_session =
  request_answer toy_session (toy_frame 1) (toy_signed 1).
Proof.
  apply (receive_exact poly_hash toy_ed25519 (toy_frame 1) 50 toy_session
    (new_session_ok (Hed := toy_ed25519) _ _ _ _ toy_session_new)).
  split; [vm_compute; reflexivity|]. split.
  - split; vm_compute; try reflexivity; discriminate.
  - vm_compute. reflexivity.
Defined.

(** C26. An honest request gets through: what the holder of the pinned key signs
    for the session's context, with a new sequence and in time, encodes, fits a
    frame, and is executed by the session on arrival. *)
Theorem honest_request_executes sha256 (Hed : Ed25519) (Hlaws : Ed25519Laws Hed)
    envelope expires_at seed signed now s :
  session_ok s -> ms_requester_key s = verifying_key seed -> envelope_ok envelope ->
  (let c := rw_context (ms_replay s) in
   env_realm envelope = vc_realm c /\ env_room envelope = vc_room c /\
   u 128 (vc_audience c) /\ u 64 (vc_epoch c) /\ u 128 (vc_session c) /\
   sign sha256 envelope (vc_audience c) (vc_epoch c) (vc_session c) expires_at seed = Ok signed) ->
  u 64 expires_at -> now <= expires_at -> env_kind envelope = KIND_READ_MEMORY_REQUEST ->
  (forall last, rw_last (ms_replay s) !! ms_requester_key s = Some last -> last < env_sequence envelope) ->
  reads s + 1 < 2 ^ 64 ->
  exists bytes frame, encode_signed signed = Ok bytes /\ Frame_new bytes = Ok frame /\
    fst (receive sha256 frame now s) =
      Ok (mkSteelReceipt (mkReceipt (env_event envelope) ReadMemory) (len bytes)) /\
    reads (snd (receive sha256 frame now s)) = reads s + 1.
Proof.
  cbv zeta. intros Hok Hkey Henv (Hrealm & Hroom & Ha & Hp & Hx & Hsign) He Hnow Hkind Hlast Hreads.
  assert (Hsok : signed_ok signed) by (by eapply sign_ok).
  pose proof (sign_authentic sha256 _ _ _ _ _ _ _ now Hsign) as Hau.
  rewrite <- Hkey in Hau. specialize (Hau (so_strong _ Hok) Hnow).
  pose proof Hsign as (Hsize & _ & Es)%sign_Ok.
  assert (Hse : se_envelope signed = envelope) by (by rewrite Es).
  assert (Hc : signed_context signed = rw_context (ms_replay s)).
  { rewrite Es. unfold signed_context. cbn. rewrite Hrealm, Hroom. by destruct (rw_context (ms_replay s)). }
  rewrite Hc in Hau. exists (signed_frame signed), (mkFrame (signed_frame signed)).
  split; [apply encode_signed_Ok; by rewrite Hse|]. split.
  { unfold Frame_new. rewrite (proj2 (N.ltb_ge _ _)); [done|]. unfold len.
    rewrite length_signed_frame, Hse by done.
    unfold MAX_FRAME_BYTES, MAX_SIGNED_BYTES, MAX_ENVELOPE_BYTES, SIGNED_OVERHEAD_BYTES in *. lia. }
  assert (Hr : received sha256 (mkFrame (signed_frame signed)) now s signed).
  { split; [apply decode_frame; [done|by rewrite Hse]|]. split; [done|].
    apply session_fresh; [done|]. by rewrite Hse. }
  rewrite (receive_received sha256 _ _ _ _ Hok Hr). unfold request_answer. rewrite Hse, Hkind.
  rewrite N.eqb_refl. cbn [negb]. by rewrite (proj2 (N.leb_gt _ _)).
Qed.

Lemma honest_request_executes_witness :
  exists bytes frame, encode_signed (toy_signed 1) = Ok bytes /\ Frame_new bytes = Ok frame /\
    fst (receive (Hed := toy_ed25519) poly_hash frame 50 toy_session) =
      Ok (mkSteelReceipt (mkReceipt 30 ReadMemory) (len bytes)) /\
    reads (snd (receive (Hed := toy_ed25519) poly_hash frame 50 toy_session)) = 1.
Proof.
  apply (honest_request_executes poly_hash toy_ed25519 toy_laws (toy_envelope 1) 100 SIGNING_SEED
    (toy_signed 1) 50 toy_session).
  - exact (new_session_ok (Hed := toy_ed25519) _ _ _ _ toy_session_new).
  - reflexivity.
  - exact toy_envelope_ok.
  - split_and!; [reflexivity..|exact toy_sign].
  - reflexivity.
  - discriminate.
  - reflexivity.
  - intros last E. discriminate E.
  - reflexivity.
Defined.

(** ** Revocation *)

(** What can happen to a host after a capability was minted; [true] when the
    policy was replaced at least once. *)
Inductive evolves : bool -> MemoryHost -> MemoryHost -> Prop :=
| ev_same h : evolves false h h
| ev_execute b h h' e now : evolves b h h' -> evolves b h (snd (execute e now h'))
| ev_refused b h h' next e : evolves b h h' -> fst (replace_policy next h') = Err e ->
    evolves b h (snd (replace_policy next h'))
| ev_replaced b h h' next h'' : evolves b h h' -> replace_policy next h' = (Ok tt, h'') ->
    evolves true h h''.

Lemma execute_keeps_policy e now h : mh_policy (snd (execute e now h)) = mh_policy h.
Proof.
  destruct (execute e now h) as [[r|er|] h'] eqn:E.
  - by apply execute_Ok in E as (_ & _ & _ & _ & ->).
  - by apply execute_fails in E as ->.
  - by destruct (execute_no_panic e now h); rewrite E.
Qed.

Lemma evolves_epoch b h h' : evolves b h h' ->
  let epoch x := vc_epoch (lp_context (mh_policy x)) in
  epoch h <= epoch h' /\ (b = true -> epoch h < epoch h').
Proof.
  cbv zeta. induction 1 as [h|b h h' e now _ IH|b h h' next e _ IH Hf|b h h' next h'' _ IH Hr].
  - by split.
  - by rewrite execute_keeps_policy.
  - destruct (replace_policy next h') as [r h2] eqn:E. simpl in *. subst r.
    by apply replace_policy_fails in E as ->.
  - apply replace_policy_Ok in Hr as (_ & _ & _ & _ & He & ->). simpl. destruct IH as [IH _]. split; [lia|]. lia.
Qed.

(** Replacing the policy revokes: once the policy of a host has been replaced,
    a capability minted before is refused at execution, whatever happened in
    between and whatever the replacement grants, and the refusal has no effect;
    before that, an unexpired capability is executed exactly under the policy
    that minted it. *)
Theorem rotation_revokes h request capability h' now b
    (Hcap : host_authorize h request = Ok capability) (Hev : evolves b h h') :
  (b = true -> exists d, execute capability now h' = (Err (HostDenied d), h')) /\
  (forall r h'', execute capability now h' = (Ok r, h'') ->
     mh_policy h' = grant_of capability /\ mh_policy h' = mh_policy h /\ now <= ae_expires_at capability).
Proof.
  apply evolves_epoch in Hev as [_ Hlt]. unfold host_authorize in Hcap. destruct request as [v scope].
  apply authorize_Ok in Hcap as [Hp Ecap]. split.
  - intros Hb. specialize (Hlt Hb). rewrite Hp in Hlt. cbn in Hlt.
    unfold execute, bind, get, lift, validate_effect. rewrite Ecap. cbn [ae_context ae_requester ae_scope].
    destruct (check_grant (mh_policy h') (ve_context v) (ve_signer_key v) scope) as [[]|d|] eqn:E.
    + apply check_grant_Ok in E. rewrite E in Hlt. cbn in Hlt. lia.
    + by exists d.
    + unfold check_grant in E. by repeat case_match.
  - intros r h'' (Hp' & He & _)%execute_Ok. split; [done|]. split; [|done]. rewrite Hp', Hp, Ecap. done.
Qed.

Lemma rotation_revokes_witness :
  let h := ms_host toy_session in
  let v := evidence (ms_replay toy_session) (toy_signed 1) toy_key in
  let next := read_memory (mkContext 1 10 20 2 40) toy_key 7 in
  exists d, execute (mkEffect 30 demo_context toy_key (mkScope ReadMemory 7) 100) 50
      (snd (replace_policy next h)) = (Err (HostDenied d), snd (replace_policy next h)).
Proof.
  cbv zeta.
  apply (rotation_revokes (ms_host toy_session)
    (mkRequest (evidence (ms_replay toy_session) (toy_signed 1) toy_key) (mkScope ReadMemory 7))
    (mkEffect 30 demo_context toy_key (mkScope ReadMemory 7) 100) _ 50 true).
  - vm_compute. reflexivity.
  - eapply (ev_replaced false _ _ (read_memory (mkContext 1 10 20 2 40) toy_key 7)); [constructor|].
    vm_compute. reflexivity.
  - reflexivity.
Defined.

(** The relay is a bounded queue: over any sequence of sends and receives
    what was delivered, followed by what is still queued, is what was queued
    and accepted, in order; the queue stays within its bound; and a send is
    refused, without effect, exactly when the queue is full. *)
Theorem relay_fifo calls max_queue path :
  let '(sent, got, r) := relay_run calls (InMemoryRelay_new max_queue path) in
  sent = got ++ ir_queue r /\ len (ir_queue r) <= max_queue /\
  (forall frame, send frame r =
     if max_queue <=? len (ir_queue r) then (Err QueueFull, r)
     else (Ok tt, set_queue (ir_queue r ++ [frame]) r)).
Proof.
  pose proof (relay_run_fifo calls (InMemoryRelay_new max_queue path)) as H.
  destruct (relay_run calls _) as [[sent got] r]. cbn in H. destruct H as (E & Hm & Hb).
  split; [done|]. split; [apply Hb; unfold len; simpl; lia|]. intros frame.
  unfold send, bind, get, throw, modify. rewrite Hm. by destruct (_ <=? _).
Qed.

(** An invitation nonce is consumed at most once: over any sequence of
    attempts on a new guard the consumed nonces are distinct and none is the
    reserved zero value, the guard remembers exactly these, their number never
    exceeds the capacity, and a refused attempt changes nothing. *)
Theorem nonce_consumed_once nonces capacity :
  let '(used, g) := consume_all nonces (Spent_new capacity) in
  NoDup used /\ replicate 32 0 ∉ used /\ sn_spent g = list_to_set used /\ spent_len g <= capacity /\
  (forall nonce, consume nonce g =
     if bool_decide (nonce = replicate 32 0) then (Err Malformed, g)
     else if bool_decide (nonce ∈ used) then (Err AlreadySpent, g)
     else if capacity <=? spent_len g then (Err SpendCapacity, g)
     else (Ok tt, mkSpent capacity ({[nonce]} ∪ sn_spent g))).
Proof.
  assert (Hz : replicate 32 0 ∉ fst (consume_all nonces (Spent_new capacity))).
  { generalize (Spent_new capacity). induction nonces as [|n nonces IH]; intros g; cbn [consume_all].
    - by apply not_elem_of_nil.
    - destruct (consume n g) as [[[]|e|] g1] eqn:E; specialize (IH g1);
        destruct (consume_all nonces g1) as [used g2]; [|done..].
      apply consume_Ok in E as (Hn & _). cbn [fst] in *. by rewrite not_elem_of_cons. }
  pose proof (consume_all_spec nonces (Spent_new capacity)) as H.
  destruct (consume_all nonces (Spent_new capacity)) as [used g]. cbn in H.
  destruct H as (Hd & _ & Hs & Hc & Hb). assert (Hset : sn_spent g = list_to_set used) by set_solver.
  split; [done|]. split; [done|]. split; [done|].
  split; [apply Hb; unfold spent_len; cbn; rewrite size_empty; lia|].
  intros nonce. unfold consume, bind, get, throw, modify. rewrite Hc.
  rewrite (bool_decide_ext (nonce ∈ sn_spent g) (nonce ∈ used)) by (rewrite Hset; set_solver).
  repeat case_match; by rewrite ?Hc.
Qed.
