(* ===== verification/BotcaptchaClaims.v ===== *)
(** Properties of the bot captcha ([Challenge], [Hashcash], [Hashcash],
    [Response], [Admit]) and of the session that joins it to the signed
    transport ([WitnessSession]). *)
From stdpp Require Import gmap sorting.
From S2P Require Import Prelude Language Bytes ProgramCodec WorldCodec ResultCodec.
From S2P Require Import World Machine Fixture Manifest Platform PlatformFacts Wire Signed Replay Relay.
From S2P Require Import Challenge Hashcash Response Admit AdmitFacts.
From S2P Require Import SteelThread WitnessSession.

(** ** The wire *)

Definition signing_domains : list (list N) :=
  [CHALLENGE_DOMAIN; RESPONSE_DOMAIN; HASHCASH_RESPONSE_DOMAIN].

(** The same challenge or response under another signature. *)
Definition sign_challenge (s : list N) (c : Challenge) : Challenge :=
  mkChallenge (ch_version c) (ch_algorithm c) (ch_challenge_id c) (ch_issuer_key c) (ch_subject_key c)
    (ch_realm c) (ch_room c) (ch_purpose c) (ch_task_manifest_hash c) (ch_issued_at c) (ch_expires_at c)
    (ch_requirement c) s.
Definition sign_response (s : list N) (r : Response) : Response :=
  mkResponse (re_version r) (re_proof_profile r) (re_challenge_id r) (re_challenge_hash r)
    (re_subject_key r) (re_task_manifest_hash r) (re_program_hash r) (re_output_hash r)
    (re_receipt_hash r) (re_measured_work r) (re_hashcash_nonce r) (re_candidate r) (re_claimed r) s.

Lemma captcha_transcript_inj d b1 b2 : transcript d b1 = transcript d b2 -> b1 = b2.
Proof.
  unfold transcript. intros E. apply app_inv_head in E. apply app_inj_1 in E as [_ E]; [done|].
  by rewrite !be_length.
Qed.

Lemma challenge_transcript_inj c1 c2 : challenge_wire c1 -> challenge_wire c2 ->
  challenge_transcript c1 = challenge_transcript c2 -> c2 = sign_challenge (ch_signature c2) c1.
Proof.
  intros H1 H2 E%captcha_transcript_inj. set (c := sign_challenge (ch_signature c2) c1).
  assert (Hc : challenge_wire c).
  { unfold challenge_wire in *. cbn [c sign_challenge ch_version ch_challenge_id ch_issuer_key
      ch_subject_key ch_realm ch_room ch_task_manifest_hash ch_issued_at ch_expires_at ch_algorithm
      ch_requirement ch_signature]. tauto. }
  assert (Ee : encode_challenge c2 = encode_challenge c).
  { unfold encode_challenge. rewrite !written_challenge. by rewrite <- E. }
  pose proof (decode_encode_challenge c2 H2) as D2. rewrite Ee, decode_encode_challenge in D2 by done.
  by injection D2.
Qed.

Lemma response_transcript_inj r1 r2 : response_wire r1 -> response_wire r2 ->
  response_transcript r1 = response_transcript r2 -> r2 = sign_response (re_signature r2) r1.
Proof.
  intros H1 H2 E%captcha_transcript_inj. set (r := sign_response (re_signature r2) r1).
  assert (Hr : response_wire r).
  { unfold response_wire in *. cbn [r sign_response re_version re_challenge_id re_challenge_hash
      re_subject_key re_task_manifest_hash re_program_hash re_output_hash re_receipt_hash
      re_measured_work re_hashcash_nonce re_candidate re_claimed re_signature]. tauto. }
  assert (Ee : encode_response r2 = encode_response r).
  { unfold encode_response, put_response. rewrite !written_seq by apply _.
    change (written (put_response_body ?x)) with (response_body x). by rewrite <- E. }
  pose proof (decode_encode_response r2 H2) as D2. rewrite Ee, decode_encode_response in D2 by done.
  by injection D2.
Qed.

(** The wire forms of the captcha are canonical and signatures bind them.
    Challenges, witness responses and hashcash responses decode from exactly
    their canonical bytes, and decoding never panics.  The signed bytes
    determine every field but the signature, and no message is signed both as
    one kind and as another. *)
Theorem captcha_wire_canonical raw (Hraw : Forall byte raw) :
  (forall c, decode_challenge raw = Ok c <-> challenge_wire c /\ raw = encode_challenge c) /\
  (forall r, decode_response raw = Ok r <-> response_wire r /\ raw = encode_response r) /\
  (forall h, decode_hashcash raw = Ok h <-> hashcash_wire h /\ raw = encode_hashcash h) /\
  decode_challenge raw <> Panic /\ decode_response raw <> Panic /\ decode_hashcash raw <> Panic /\
  (forall c1 c2, challenge_wire c1 -> challenge_wire c2 ->
     challenge_transcript c1 = challenge_transcript c2 -> c2 = sign_challenge (ch_signature c2) c1) /\
  (forall r1 r2, response_wire r1 -> response_wire r2 ->
     response_transcript r1 = response_transcript r2 -> r2 = sign_response (re_signature r2) r1) /\
  (forall d1 d2 b1 b2, d1 ∈ signing_domains -> d2 ∈ signing_domains ->
     transcript d1 b1 = transcript d2 b2 -> d1 = d2).
Proof.
  split; [intros c; by apply decode_challenge_iff|]. split; [intros r; by apply decode_response_iff|].
  split; [intros h; by apply decode_hashcash_iff|]. split; [by apply decode_total|].
  split; [by apply decode_total|]. split; [by apply decode_total|].
  split; [apply challenge_transcript_inj|]. split; [apply response_transcript_inj|].
  intros d1 d2 b1 b2 H1 H2 E. assert (Hs : separate signing_domains = true) by (vm_compute; reflexivity).
  by apply (preimage_separate signing_domains) in E as [? _].
Qed.

Definition toy_hash : list N := replicate 32 5.
Definition toy_subject_seed : list N := replicate 32 9.
Definition toy_issuer_seed : list N := replicate 32 3.

Definition toy_challenge : Challenge :=
  match issue_hashcash (Hed := toy_ed25519) toy_issuer_seed toy_hash 100 60
          (poly_hash toy_subject_seed) 10 20 RateLimitRelief (mkDifficulty 2) with
  | Ok c => c
  | _ => mkChallenge 0 Witness [] [] [] 0 0 RateLimitRelief (mkManifestHash []) 0 0
           (RequireWitness (mkWorkContract 0 0 false)) []
  end.

Lemma toy_challenge_wire : challenge_wire toy_challenge.
Proof.
  apply (issue_wire (Hed := toy_ed25519) (Ed25519Laws0 := toy_laws) toy_issuer_seed Hashcash toy_hash 100 60
    (poly_hash toy_subject_seed) 10 20 RateLimitRelief (mkManifestHash (replicate 32 0))
    (RequireHashcash (mkDifficulty 2))).
  - vm_compute. reflexivity.
  - split; [by apply Forall_replicate|done].
  - apply poly_hash_sha256.
  - done.
  - done.
  - split; [by apply Forall_replicate|done].
  - done.
  - split; by vm_compute.
Qed.

Lemma captcha_wire_canonical_witness :
  Forall byte (encode_challenge toy_challenge) /\
  decode_challenge (encode_challenge toy_challenge) = Ok toy_challenge.
Proof.
  assert (Hb : Forall byte (encode_challenge toy_challenge)) by exact (encode_challenge_bytes _ toy_challenge_wire).
  split; [exact Hb|]. apply (captcha_wire_canonical _ Hb). split; [exact toy_challenge_wire|reflexivity].
Defined.

(** ** The one-use window *)

Inductive WindowCall : Type :=
| CallConsume (scope subject response : list N) (expires_at : N)
| CallPruneTo (now : N).

(** The answers of the code: an error, or nothing. *)
Fixpoint window_run (calls : list WindowCall) (w : OneUseWindow) : list (option WindowError) * OneUseWindow :=
  match calls with
  | [] => ([], w)
  | CallConsume scope subject response expires_at :: calls =>
      let '(r, w1) := window_consume scope subject response expires_at w in
      let '(answers, w2) := window_run calls w1 in
      (match r with Err e => Some e | _ => None end :: answers, w2)
  | CallPruneTo now :: calls => window_run calls (window_prune now w)
  end.

(** The answers of the abstract window, a map from scopes to entries: a scope
    is refused while it is in the map, when the map is full, or when the
    subject holds its share of it; pruning drops the expired entries. *)
Fixpoint scopes_run (calls : list WindowCall) (m : OpenScopes) : list (option WindowError) * OpenScopes :=
  match calls with
  | [] => ([], m)
  | CallConsume scope subject response expires_at :: calls =>
      let refused := refusal m scope subject response in
      let m1 := match refused with
                | Some _ => m
                | None => <[scope := mkEntry response expires_at subject]> m
                end in
      let '(answers, m2) := scopes_run calls m1 in (refused :: answers, m2)
  | CallPruneTo now :: calls => scopes_run calls (unexpired now m)
  end.

Lemma window_run_refines calls m w : represents m w -> bounded_scopes m ->
  let '(answers, w') := window_run calls w in
  let '(answers', m') := scopes_run calls m in
  answers = answers' /\ represents m' w' /\ bounded_scopes m'.
Proof.
  revert m w. induction calls as [|[scope subject response expires|now] calls IH]; intros m w Hr Hb;
    cbn [window_run scopes_run]; [done| |].
  - pose proof (consume_refines m w scope subject response expires Hr) as H.
    pose proof (bounded_insert m scope subject response expires Hb) as Hi.
    destruct (refusal m scope subject response) as [e|].
    + rewrite H. specialize (IH m w Hr Hb). destruct (window_run calls w), (scopes_run calls m).
      destruct IH as (-> & ? & ?). done.
    + destruct H as (w1 & -> & Hr1). specialize (IH _ w1 Hr1 (Hi eq_refl)).
      destruct (window_run calls w1), (scopes_run calls _). destruct IH as (-> & ? & ?). done.
  - apply IH; [by apply prune_refines|by apply bounded_unexpired].
Qed.

(** The one-use window implements its specification: over any sequence of
    consumptions and prunings it gives the answers of the abstract map, error
    for error; it stores exactly that map, with one count per subject that
    holds an entry; at most 4096 entries are open and at most 64 of a subject;
    and its queries are those of the map. *)
Theorem window_refines_scopes calls :
  let '(answers, w) := window_run calls OneUseWindow_new in
  let '(answers', m) := scopes_run calls ∅ in
  answers = answers' /\ represents m w /\
  window_len w <= MAX_OPEN_CHALLENGES /\ (forall s, held_by w s <= MAX_OPEN_PER_SUBJECT) /\
  (forall s, held_by w s = held s m) /\
  (forall scope, window_consumed w scope = en_response_hash <$> m !! scope).
Proof.
  pose proof (window_run_refines calls ∅ OneUseWindow_new represents_new) as H.
  destruct (window_run calls OneUseWindow_new) as [answers w], (scopes_run calls ∅) as [answers' m].
  destruct H as (Ha & Hr & Hb & Hs).
  { split; [by rewrite map_size_empty|]. intros s. by rewrite held_empty. }
  destruct (represents_queries m w Hr) as (_ & Hl & Hh & Hc).
  split; [done|]. split; [done|]. split; [by rewrite Hl|]. split; [intros s; by rewrite Hh|done].
Qed.

(** ** The verifier *)

(** C6. One use: whatever a verifier is called with, in whatever order and at
    whatever clocks, the evidence it hands out is one-use.  When two pieces of
    evidence have one scope, the earlier had expired before the later was
    handed out, so no scope is admitted twice with one expiry and no challenge
    is admitted twice; every piece is handed out before its expiry; and the
    bounds of the window hold. *)
Theorem evidence_is_one_use sha256 (Hed : Ed25519) started_at allowance calls :
  let '(xs, v) := verifier_run sha256 calls (WitnessVerifier_new started_at allowance OneUseWindow_new) in
  StronglySorted (fun a b => ad_scope a = ad_scope b -> ad_expires a < ad_now b) xs /\
  NoDup ((fun x => (ad_scope x, ad_expires x)) <$> xs) /\
  (forall x, x ∈ xs -> ad_now x <= ad_expires x) /\
  window_len (wv_window v) <= MAX_OPEN_CHALLENGES /\
  (forall s, held_by (wv_window v) s <= MAX_OPEN_PER_SUBJECT).
Proof.
  pose proof (verifier_run_ok sha256 calls _ (new_verifier_ok started_at allowance)) as H.
  destruct (verifier_run sha256 calls _) as [xs v]. destruct H as [[Hr [Hb Hs]] _ Hx Hsort].
  assert (Hle : forall x, x ∈ xs -> ad_now x <= ad_expires x) by (intros x Hin; by apply Hx).
  split; [done|]. split; [by apply earlier_nodup_scopes|]. split; [done|].
  destruct (represents_queries _ _ Hr) as (_ & Hl & Hh & _).
  split; [by rewrite Hl|]. intros s. by rewrite Hh.
Qed.

(** C8. What the verifier admits.  A witness response is accepted exactly when
    the challenge is signed by a strong issuer key, current and of the expected
    context, the response is signed by the strong key of its subject, replaying
    its candidate on the named manifest within the allowance gives a receipt
    of which the response is the exact answer and which meets the contract, and
    the window takes the scope.  Then the evidence is that of the receipt.  A
    refusal moves the clock and nothing else, and on a validated manifest
    nothing panics. *)
Theorem witness_admission_exact sha256 (Hed : Ed25519) c manifest r expected now v :
  (forall w v', verify_response sha256 c manifest r expected now v = (Ok w, v') <->
     exists receipt win,
       witness_admissible sha256 c manifest r expected v (N.max (wv_clock v) now) receipt /\
       consumed sha256 c (response_digest sha256 r) v win /\
       w = witness_evidence sha256 c r receipt /\
       v' = set_window win (set_clock (N.max (wv_clock v) now) v)) /\
  (forall e v', verify_response sha256 c manifest r expected now v = (Err e, v') ->
     v' = set_clock (N.max (wv_clock v) now) v) /\
  (forall m, manifest_typed m -> validate sha256 m = Ok manifest -> Forall byte (re_candidate r) ->
     fst (verify_response sha256 c manifest r expected now v) <> Panic).
Proof.
  split; [intros w v'; apply verify_response_Ok|]. split.
  - intros e v' E. pose proof (verify_response_fails sha256 c manifest r expected now v) as H.
    by rewrite E in H.
  - intros m Ht Hm Hb. by apply (verify_response_no_panic sha256 m).
Qed.

(** An issuer, a subject and a verifier that play by the rules: the keys are
    strong, the challenge names a validated manifest, and the verifier knew it
    from the start, is called in time, allows the manifest's fuel and has room. *)
Record honest_setting (sha256 : list N -> list N) (Hed : Ed25519) (m : TaskManifest)
    (manifest : ValidManifest) (candidate : list (N * Program)) (a : Assignment)
    (issuer subject entropy : list N) (issued_at lifetime realm room : N) (purpose : Purpose)
    (contract : WorkContract) (c : Challenge) (v : WitnessVerifier) (now : N) : Prop := {
  hs_task : bound_task sha256 m manifest candidate a;
  hs_issued : issue issuer entropy issued_at lifetime (verifying_key subject) realm room purpose
                (vm_hash manifest) contract = Ok c;
  hs_strong : is_weak (verifying_key issuer) = false /\ is_weak (verifying_key subject) = false;
  hs_types : hash_wire entropy /\ u 128 realm /\ u 128 room /\ u 64 issued_at /\ contract_wire contract;
  hs_fuel : fuel_total manifest <= max_total (wv_allowance v);
  hs_time : wv_started_at v <= issued_at <= N.max (wv_clock v) now /\
            N.max (wv_clock v) now <= issued_at + lifetime;
  hs_room : room_for sha256 v c;
}.

Lemma claim_inj r1 r2 : claim r1 = claim r2 -> r1 = r2.
Proof. destruct r1, r2. unfold claim. cbn. by intros [= -> -> -> -> -> -> -> -> ->]. Qed.

(** C9. An honest subject gets its evidence.  Its prover never fails on an
    issued challenge, within an allowance that covers the manifest; and the
    verifier, given the encoded challenge and the encoded response, hands out
    the evidence of that very run exactly when the run meets the contract. *)
Theorem honest_witness_admitted sha256 (Hed : Ed25519) (Hsha : Sha256 sha256) (Hlaws : Ed25519Laws Hed)
    m manifest candidate a issuer subject entropy issued_at lifetime realm room purpose contract c v now
    allowance :
  honest_setting sha256 Hed m manifest candidate a issuer subject entropy issued_at lifetime realm room
    purpose contract c v now ->
  fuel_total manifest <= max_total allowance ->
  exists receipt r,
    respond sha256 (verified_of sha256 c) manifest candidate allowance subject = Ok r /\
    re_claimed r = claim receipt /\
    let answer := verify_bytes sha256 (encode_challenge c) manifest (encode_response r)
                    (challenge_context c) now v in
    (contract_met contract receipt -> fst answer = Ok (witness_evidence sha256 c r receipt)) /\
    (forall w, fst answer = Ok w -> contract_met contract receipt).
Proof.
  intros [Htask Hiss [Hwi Hws] (Te & Tr & To & Ti & Tc) Hfv [Ht1 Ht2] Hroom] Hfuel.
  assert (Hmh : hash_wire (manifest_hash (vm_hash manifest))).
  { destruct (bound_task_ok _ _ _ _ _ Htask) as (w & -> & _). by apply digest_wire. }
  assert (Hc : challenge_wire c) by (eapply issue_wire; try done; apply verifying_key_wire).
  assert (Hf : ch_algorithm c = Witness /\ ch_task_manifest_hash c = vm_hash manifest /\
    ch_subject_key c = verifying_key subject /\ challenge_contract c = Some contract).
  { unfold issue, issue_with in Hiss. destruct (_ || _); [done|]. destruct (checked_add _ _ _); [|done].
    by injection Hiss as <-. }
  destruct Hf as (Halg & Hman & Hsub & Hk).
  destruct (respond_honest sha256 m manifest candidate a c allowance subject) as (receipt & r & Er & Hn);
    [done..|]. exists receipt, r. split; [done|]. destruct Hn as [Hrw Hcand Hans Hsig Hrep].
  split; [apply (an_claimed _ _ _ _ Hans)|]. cbv zeta. split.
  - intros Hmet.
    destruct (room_consumed sha256 v c (response_digest sha256 r) Hroom) as (win & Hwin).
    assert (E : verify_bytes sha256 (encode_challenge c) manifest (encode_response r) (challenge_context c) now v
      = (Ok (witness_evidence sha256 c r receipt), set_window win (set_clock (clock_at v now) v))).
    { apply verify_bytes_Ok. exists c, r. split; [by apply decode_encode_challenge|].
      split; [by apply decode_encode_response|]. apply verify_response_Ok. exists receipt, win.
      split; [|done]. split; try done.
      - eapply issue_current; [exact Hiss|done|lia|unfold clock_at; lia].
      - by exists contract.
      - split; [rewrite Hsub; apply verifying_key_valid|by rewrite Hsub|done].
      - rewrite Hcand. by apply Hrep. }
    by rewrite E.
  - intros w Hw. destruct (verify_bytes sha256 _ _ _ _ _ _) as [x v'] eqn:E. cbn [fst] in Hw. subst x.
    apply verify_bytes_Ok in E as (c' & r' & Hc' & Hr' & E).
    rewrite decode_encode_challenge in Hc' by done. rewrite decode_encode_response in Hr' by done.
    injection Hc' as <-. injection Hr' as <-.
    apply verify_response_Ok in E as (receipt' & win & [_ (k & Hk' & Hmet) _ _ _ Hans'] & _).
    rewrite Hk in Hk'. injection Hk' as <-.
    assert (receipt' = receipt) as ->; [|done]. apply claim_inj.
    by rewrite <- (an_claimed _ _ _ _ Hans), <- (an_claimed _ _ _ _ Hans').
Qed.

Definition toy_witness_challenge : Challenge :=
  match issue (Hed := toy_ed25519) toy_issuer_seed toy_hash 100 60 (poly_hash toy_subject_seed) 10 20
          GameQualification (vm_hash fixture_valid) (mkWorkContract 1 3000 true) with
  | Ok c => c
  | _ => toy_challenge
  end.

Definition toy_verifier : WitnessVerifier :=
  WitnessVerifier_new 90 (mkWorkAllowance 5000) OneUseWindow_new.

Lemma toy_setting :
  honest_setting length_hash toy_ed25519 fixture_manifest fixture_valid fixture_candidate
    fixture_assignment toy_issuer_seed toy_subject_seed toy_hash 100 60 10 20 GameQualification
    (mkWorkContract 1 3000 true) toy_witness_challenge toy_verifier 120.
Proof.
  split.
  - exact fixture_task.
  - vm_compute. reflexivity.
  - split; vm_compute; reflexivity.
  - split_and!; try done. split; [by apply Forall_replicate|done].
  - vm_compute. discriminate.
  - split; [split|]; vm_compute; discriminate.
  - split; [|split]; vm_compute; reflexivity.
Qed.

(** The receipt of the fixture's run meets the contract. *)
Definition toy_run_meets_at (allowance : N) : res WitnessError unit :=
  let? r := map_err (fun _ => WRun) (respond (Hed := toy_ed25519) length_hash
    (verified_of length_hash toy_witness_challenge) fixture_valid fixture_candidate
    (mkWorkAllowance allowance) toy_subject_seed) in
  check_contract (mkWorkContract 1 3000 true) (as_witness (re_claimed r)).

Lemma toy_run_meets : toy_run_meets_at 4000 = Ok tt.
Proof. vm_compute. reflexivity. Qed.

Lemma honest_witness_admitted_witness :
  exists receipt r w,
    respond (Hed := toy_ed25519) length_hash (verified_of length_hash toy_witness_challenge) fixture_valid
      fixture_candidate (mkWorkAllowance 4000) toy_subject_seed = Ok r /\
    fst (verify_bytes (Hed := toy_ed25519) length_hash (encode_challenge toy_witness_challenge) fixture_valid
      (encode_response r) (challenge_context toy_witness_challenge) 120 toy_verifier) = Ok w /\
    vw_receipt w = receipt /\ wx_passed receipt = true.
Proof.
  destruct (honest_witness_admitted length_hash toy_ed25519 length_hash_sha256 toy_laws _ _ _ _ _ _ _ _ _ _ _ _
    _ _ _ _ (mkWorkAllowance 4000) toy_setting) as (receipt & r & Hr & Hc & Hok & _).
  { vm_compute. discriminate. }
  assert (Hmet : contract_met (mkWorkContract 1 3000 true) receipt).
  { apply check_contract_Ok. pose proof toy_run_meets as E. unfold toy_run_meets_at in E. rewrite Hr in E.
    cbn [res_bind map_err] in E. by rewrite Hc, as_witness_claim in E. }
  exists receipt, r, (witness_evidence length_hash toy_witness_challenge r receipt).
  split; [exact Hr|]. split; [exact (Hok Hmet)|]. split; [reflexivity|]. by apply Hmet.
Defined.

(** ** Hashcash *)

(** Hashcash, exactly.  The work digest meets a target of [b] bits iff the
    number it encodes is below 2^(256-b); the solver returns the least nonce
    under its budget that meets it, and reports exhaustion iff there is none;
    the verifier accepts exactly the signed responses of the subject that name
    the current challenge, carry a nonce that meets the target and whose scope
    the window takes; a refusal moves the clock and nothing else. *)
Theorem hashcash_exact sha256 (Hed : Ed25519) (Hsha : Sha256 sha256) c d (Hd : challenge_difficulty c = Some d)
    (Hbits : difficulty_ok d) :
  (forall n, meets sha256 c d n <->
     of_be (work_digest sha256 (challenge_hash sha256 c) (ch_subject_key c) n) < 2 ^ (256 - bits d)) /\
  (forall budget n, solve sha256 (verified_of sha256 c) budget = Ok n <->
     n < budget /\ meets sha256 c d n /\ forall k, k < n -> ~ meets sha256 c d k) /\
  (forall budget, solve sha256 (verified_of sha256 c) budget = Err SolveExhausted <->
     forall n, n < budget -> ~ meets sha256 c d n) /\
  (forall r expected now v h v', verify_hashcash sha256 c r expected now v = (Ok h, v') <->
     exists win, hashcash_admissible sha256 c r expected v (N.max (wv_clock v) now) d /\
       consumed sha256 c (hashcash_hash sha256 r) v win /\ h = hashcash_evidence sha256 c r d /\
       v' = set_window win (set_clock (N.max (wv_clock v) now) v)) /\
  (forall r expected now v e v', verify_hashcash sha256 c r expected now v = (Err e, v') ->
     v' = set_clock (N.max (wv_clock v) now) v).
Proof.
  pose proof (solve_exact sha256 c) as Hsolve. split; [|split; [|split; [|split]]].
  - intros n. unfold meets. set (w := work_digest _ _ _ _).
    assert (Hw : hash_wire w) by apply (digest_wire sha256). destruct Hw as [Hb Hl].
    destruct Hbits as [_ Hmax]. unfold MAX_DIFFICULTY in Hmax.
    assert (Elen : 8 * len w = 256) by (unfold len; rewrite Hl; done).
    rewrite leading_zero_bits_spec by (done || lia). by rewrite Elen.
  - intros budget n. by apply Hsolve.
  - intros budget. by apply Hsolve.
  - intros r expected now v h v'. rewrite verify_hashcash_Ok. split.
    + intros (d' & win & Ha & H). pose proof (ha_difficulty _ _ _ _ _ _ _ Ha) as E.
      rewrite Hd in E. injection E as <-. by exists win.
    + intros (win & H). by exists d, win.
  - intros r expected now v e v' E. pose proof (verify_hashcash_fails sha256 c r expected now v) as H.
    by rewrite E in H.
Qed.

(** A concrete hash whose leading bits depend on the nonce. *)
Definition mix_hash (l : list N) : list N :=
  be 32 (foldl (fun h b => N.land (h * 257 + b + 1) (2 ^ 256 - 1)) 0 l * (11400714819323198485 * 2 ^ 190 + 1)).

Lemma mix_hash_sha256 : Sha256 mix_hash.
Proof. intros l. split; [apply be_bytes|apply be_length]. Qed.

Lemma hashcash_exact_witness :
  solve mix_hash (verified_of mix_hash toy_challenge) 16 = Ok 5 /\
  meets mix_hash toy_challenge (mkDifficulty 2) 5.
Proof.
  assert (Hd : challenge_difficulty toy_challenge = Some (mkDifficulty 2)) by (vm_compute; reflexivity).
  assert (Hb : difficulty_ok (mkDifficulty 2)) by (split; by vm_compute).
  assert (E : solve mix_hash (verified_of mix_hash toy_challenge) 16 = Ok 5) by (vm_compute; reflexivity).
  split; [exact E|].
  destruct (hashcash_exact mix_hash toy_ed25519 mix_hash_sha256 toy_challenge _ Hd Hb) as (_ & H & _).
  by apply H in E as (_ & Hm & _).
Defined.

(** A solved hashcash challenge is admitted: what the solver finds on an
    issued challenge, signed by its subject, gets the evidence from any
    verifier that is called in time and has room. *)
Theorem hashcash_solution_admitted sha256 (Hed : Ed25519) (Hsha : Sha256 sha256) (Hlaws : Ed25519Laws Hed)
    issuer subject entropy issued_at lifetime realm room purpose difficulty c budget nonce v now :
  issue_hashcash issuer entropy issued_at lifetime (verifying_key subject) realm room purpose difficulty = Ok c ->
  is_weak (verifying_key issuer) = false -> is_weak (verifying_key subject) = false ->
  hash_wire entropy /\ u 128 realm /\ u 128 room /\ u 64 issued_at /\ difficulty_ok difficulty /\ u 64 budget ->
  solve sha256 (verified_of sha256 c) budget = Ok nonce ->
  wv_started_at v <= issued_at <= N.max (wv_clock v) now ->
  N.max (wv_clock v) now <= issued_at + lifetime -> room_for sha256 v c ->
  exists r, respond_hashcash sha256 (verified_of sha256 c) nonce subject = Ok r /\
    decode_hashcash (encode_hashcash r) = Ok r /\ decode_challenge (encode_challenge c) = Ok c /\
    fst (verify_hashcash sha256 c r (challenge_context c) now v) =
      Ok (hashcash_evidence sha256 c r difficulty).
Proof.
  intros Hiss Hwi Hws (Te & Tr & To & Ti & Td & Tb) Hsolve [Ht1 Ht2] Ht3 Hroom.
  assert (Hc : challenge_wire c).
  { eapply issue_wire; try done; [apply verifying_key_wire|]. split; [by apply Forall_replicate|done]. }
  assert (Hf : ch_algorithm c = Hashcash /\ ch_subject_key c = verifying_key subject /\
    challenge_difficulty c = Some difficulty).
  { unfold issue_hashcash, issue_with in Hiss. destruct (_ || _); [done|].
    destruct (checked_add _ _ _); [|done]. by injection Hiss as <-. }
  destruct Hf as (Halg & Hsub & Hd).
  apply (solve_exact sha256 c budget difficulty Hd) in Hsolve as (Hn & Hmeets & _).
  destruct (respond_hashcash_honest sha256 c nonce subject) as (r & Er & Hrw & H1 & H2 & H3 & H4 & Hsig);
    [done..|unfold u in *; lia|]. exists r. split; [done|].
  split; [apply decode_hashcash_iff; [by apply (codec_bytes (g := get_hashcash))|done]|].
  split; [by apply decode_encode_challenge|].
  destruct (room_consumed sha256 v c (hashcash_hash sha256 r) Hroom) as (win & Hwin).
  assert (E : verify_hashcash sha256 c r (challenge_context c) now v =
    (Ok (hashcash_evidence sha256 c r difficulty), set_window win (set_clock (clock_at v now) v))).
  { apply verify_hashcash_Ok. exists difficulty, win. split; [|done]. split; try done.
    - eapply issue_current; [exact Hiss|done|lia|unfold clock_at; lia].
    - split; [rewrite Hsub; apply verifying_key_valid|by rewrite Hsub|done].
    - by rewrite H4. }
  by rewrite E.
Qed.

Lemma hashcash_solution_admitted_witness :
  exists r, respond_hashcash (Hed := toy_ed25519) mix_hash (verified_of mix_hash toy_challenge) 5
      toy_subject_seed = Ok r /\
    fst (verify_hashcash (Hed := toy_ed25519) mix_hash toy_challenge r (challenge_context toy_challenge) 130
      toy_verifier) = Ok (hashcash_evidence mix_hash toy_challenge r (mkDifficulty 2)).
Proof.
  destruct (hashcash_solution_admitted mix_hash toy_ed25519 mix_hash_sha256 toy_laws toy_issuer_seed
    toy_subject_seed toy_hash 100 60 10 20 RateLimitRelief (mkDifficulty 2) toy_challenge 16 5 toy_verifier 130)
    as (r & H1 & _ & _ & H2).
  - vm_compute. reflexivity.
  - vm_compute. reflexivity.
  - vm_compute. reflexivity.
  - split_and!; try done; [split; [by apply Forall_replicate|done]].
  - vm_compute. reflexivity.
  - split; vm_compute; discriminate.
  - vm_compute. discriminate.
  - split; [|split]; vm_compute; reflexivity.
  - exists r. split; [exact H1|exact H2].
Defined.

(** ** The witness session *)

(** A witness session yields at most one piece of evidence, whatever frames
    arrive and at whatever clocks.  The evidence comes from a frame that was
    signed by the pinned strong key for the context of the session and carries
    a witness response admissible for the session's challenge, whose subject is
    that very key; and the open one-use entries count the evidence. *)
Theorem witness_session_once sha256 (Hed : Ed25519) context key challenge manifest allowance started_at
    frames s (Hs : WitnessSession_new context key challenge manifest allowance started_at = Ok s) :
  let '(ws, s') := witness_run sha256 frames s in
  len ws <= 1 /\ open_challenges s' = len ws /\ is_weak key = false /\ ch_subject_key challenge = key /\
  forall w, w ∈ ws -> exists frame now signed c r receipt v,
    (frame, now) ∈ frames /\ decode_signed (frame_bytes frame) = Ok signed /\
    authentic sha256 context signed key now /\
    env_kind (se_envelope signed) = KIND_WITNESS_RESPONSE /\
    decode_challenge (encode_challenge challenge) = Ok c /\
    decode_response (env_body (se_envelope signed)) = Ok r /\
    witness_admissible sha256 c manifest r (challenge_context challenge) v (N.max (wv_clock v) now) receipt /\
    w = witness_evidence sha256 c r receipt.
Proof.
  destruct (new_witness_session _ _ _ _ _ _ _ Hs) as (Hok & Hzero & Hp & Hweak & Hsub).
  pose proof (witness_run_spec sha256 frames s Hok) as H. destruct (witness_run sha256 frames s) as [ws s'].
  destruct H as (_ & _ & Hl & Hn & Hw). rewrite Hzero, N.add_0_l in Hn.
  split; [done|]. split; [done|]. split; [done|]. split; [done|]. intros w Hin.
  destruct (Hw w Hin) as (_ & frame & now & s1 & Hfr & Hp1 & Hadm).
  destruct Hadm as (signed & c & r & receipt & Hd & Hau & Hk & Hc & Hr & Ha & Ew).
  rewrite Hp in Hp1. unfold pinned in Hp1. injection Hp1 as E1 E2 E3 E4 E5.
  rewrite E1, E5 in Hau. rewrite E2 in Hc. rewrite E3, E4 in Ha.
  by exists frame, now, signed, c, r, receipt, (ws_verifier s1).
Qed.

Definition toy_subject : list N := poly_hash toy_subject_seed.
Definition toy_context : VerificationContext := mkContext 1 10 20 1 40.

(** The subject's response to the challenge in a signed frame. *)
Definition toy_response_frame (sequence : N) : Frame :=
  match respond (Hed := toy_ed25519) length_hash (verified_of length_hash toy_witness_challenge)
          fixture_valid fixture_candidate (mkWorkAllowance 4000) toy_subject_seed with
  | Ok r =>
      let e := mkEnvelope KIND_WITNESS_RESPONSE (peer_id_from_key length_hash toy_subject) 10 20 30 sequence
                 (encode_response r) in
      let unsigned := mkSigned e 1 1 40 200 [] in
      mkFrame (signed_frame (mkSigned e 1 1 40 200 (toy_signature toy_subject (signed_bytes unsigned))))
  | _ => mkFrame []
  end.

Definition toy_witness_session : WitnessSession :=
  mkWitnessSession (mkWindow toy_context 1 ∅) toy_subject toy_witness_challenge fixture_valid
    (challenge_context toy_witness_challenge) toy_verifier.

Lemma witness_session_once_witness :
  let run := witness_run (Hed := toy_ed25519) length_hash
    [(toy_response_frame 1, 120); (toy_response_frame 2, 121)]
    toy_witness_session in
  length (fst run) = 1%nat /\ open_challenges (snd run) = len (fst run).
Proof.
  cbv zeta.
  assert (Hs : WitnessSession_new (Hed := toy_ed25519) toy_context toy_subject toy_witness_challenge
    fixture_valid (mkWorkAllowance 5000) 90 = Ok toy_witness_session) by (vm_compute; reflexivity).
  pose proof (witness_session_once length_hash toy_ed25519 _ _ _ _ _ _
    [(toy_response_frame 1, 120); (toy_response_frame 2, 121)] _ Hs) as H.
  split; [vm_compute; reflexivity|].
  destruct (witness_run _ _ _) as [ws s']. apply H.
Defined.
