(* ===== verification/Layout.v ===== *)
(** Fixed-width layouts: byte strings that are a known sequence of fields, as
    the decoders that read constant ranges see them. *)
From S2P Require Import Prelude Bytes Wire Signed.

Lemma be_of_width n l : Forall byte l -> length l = n -> be n (of_be l) = l.
Proof. intros Hl <-. by apply be_of_be. Qed.

Lemma of_be_width n l w : Forall byte l -> length l = n -> 256 ^ N.of_nat n = 2 ^ w -> u w (of_be l).
Proof. intros Hl <- E. unfold u. rewrite <- E. by apply of_be_lt. Qed.

Section Layout.
Context {Er : Type}.
Implicit Types (ps : list (list N)) (ws : list nat).

Definition width_before (i : nat) ps : nat := sum_list (length <$> take i ps).

Lemma drop_field ps i p : ps !! i = Some p ->
  drop (width_before i ps) (concat ps) = p ++ concat (drop (S i) ps) /\
  (width_before i ps + length p <= length (concat ps))%nat.
Proof.
  unfold width_before. revert ps. induction i as [|i IH]; intros [|q ps] Hi; try done; csimpl in *.
  - injection Hi as ->. rewrite length_app. split; [done|lia].
  - destruct (IH ps Hi) as [E Hl]. rewrite drop_app_ge, length_app by lia.
    replace (length q + sum_list (length <$> take i ps) - length q)%nat with
      (sum_list (length <$> take i ps)) by lia. split; [done|lia].
Qed.

Lemma slice_field ps i p a b : ps !! i = Some p -> width_before i ps = a -> (a + length p)%nat = b ->
  sub_slice (Er := Er) (concat ps) a b = Ok p.
Proof.
  intros Hi <- <-. destruct (drop_field ps i p Hi) as [E Hl]. unfold sub_slice.
  rewrite slice_eq by done. by rewrite E, take_app_length.
Qed.

Lemma index_field ps i v a : ps !! i = Some [v] -> width_before i ps = a ->
  index (E := Er) (concat ps) a = Ok v.
Proof.
  intros Hi <-. destruct (drop_field ps i [v] Hi) as [E _]. unfold index.
  apply (f_equal (fun l => l !! 0%nat)) in E. rewrite lookup_drop, Nat.add_0_r in E. by rewrite E.
Qed.

(** A byte string of the right length has these fields. *)
Lemma cut_fields ws raw : length raw = sum_list ws -> exists ps, raw = concat ps /\ length <$> ps = ws.
Proof.
  revert raw. induction ws as [|w ws IH]; intros raw H; simpl in H.
  - exists []. by destruct raw.
  - destruct (IH (drop w raw)) as (ps & E & Hw); [rewrite length_drop; lia|].
    exists (take w raw :: ps). csimpl. rewrite <- E, Hw, take_drop. split; [done|].
    rewrite length_take. f_equal. lia.
Qed.
End Layout.

(** The read of the field [i] of a literal layout whose lengths are known. *)
Ltac read_field i :=
  let i := eval cbv in (N.to_nat i) in
  first [ erewrite (slice_field _ i); [cbn [res_bind]|reflexivity|unfold width_before; csimpl; lia|csimpl; lia]
        | erewrite (index_field _ i); [cbn [res_bind]|reflexivity|unfold width_before; csimpl; lia] ].
