(* ===== verification/Invitation.v ===== *)
(** Owner-signed pairing invitations (src/crates/vhalla-session/src/invitation.rs):
    the fixed-width codec, issue and verification. *)
From Stdlib Require Import Ascii String.
From S2P Require Import Prelude Bytes PrefixFree Wire Signed Layout.

Definition INVITATION_MAGIC : list N := bytes_of "VHIN".
Definition INVITATION_VERSION : N := 1.
Definition INVITATION_DOMAIN : list N := bytes_of "vhalla/owner-invitation/v1".
Definition NONCE_BYTES : N := 32.
Definition UNSIGNED_BYTES : N := 4 + 1 + 32 + 32 + 16 + 16 + 8 + 8 + NONCE_BYTES.
Definition INVITATION_BYTES : N := UNSIGNED_BYTES + 64.

Inductive InvitationError : Type :=
| InvMalformed | InvKey | InvIssuer | InvSignature | InvExpired.

Record InvitationClaims : Type := mkInvClaims {
  ic_owner : list N; ic_invitee : list N; ic_realm : N; ic_room : N; ic_epoch : N;
  ic_expires_at : N; ic_nonce : list N;
}.

#[global] Instance InvitationClaims_eq_dec : EqDecision InvitationClaims. Proof. solve_decision. Defined.

Record Invitation : Type := mkInvitation { in_claims : InvitationClaims; in_signature : list N }.

(** [unsigned] *)
Definition put_claims (c : InvitationClaims) : Writer -> Writer :=
  w_bytes INVITATION_MAGIC >> w_u8 INVITATION_VERSION >> w_bytes (ic_owner c) >> w_bytes (ic_invitee c)
  >> w_u128 (ic_realm c) >> w_u128 (ic_room c) >> w_u64 (ic_epoch c) >> w_u64 (ic_expires_at c)
  >> w_bytes (ic_nonce c).
Definition invitation_unsigned (c : InvitationClaims) : list N := written (put_claims c).
Definition invitation_transcript (c : InvitationClaims) : list N :=
  INVITATION_DOMAIN ++ invitation_unsigned c.

Definition encode_invitation (i : Invitation) : list N :=
  invitation_unsigned (in_claims i) ++ in_signature i.

Definition zero_nonce : list N := replicate 32 0.

Section Invitation.
Context `{Hed : Ed25519}.

(** A key that [VerifyingKey::from_bytes] accepts and that is not weak. *)
Definition strong_key (key : list N) : Prop := valid_key key = true /\ is_weak key = false.

Definition invitation_key (bytes : list N) : res InvitationError (list N) :=
  if negb (valid_key bytes) then Err InvKey
  else if is_weak bytes then Err InvKey
  else Ok bytes.

Definition validate_keys (owner invitee : list N) : res InvitationError unit :=
  if bool_decide (owner = invitee) then Err InvKey
  else
    let? _ := invitation_key owner in
    let? _ := invitation_key invitee in
    Ok tt.

(** [seed] is the signing key of the owner. *)
Definition issue_invitation (seed invitee : list N) (realm room epoch expires_at : N) (nonce : list N)
    : res InvitationError Invitation :=
  let owner_key := verifying_key seed in
  let? _ := validate_keys owner_key invitee in
  if (expires_at =? 0) || bool_decide (nonce = zero_nonce) then Err InvMalformed
  else
    let claims := mkInvClaims owner_key invitee realm room epoch expires_at nonce in
    Ok (mkInvitation claims (sign_bytes seed (invitation_transcript claims))).

(** The conversions of a range to an array do not fail: the ranges have the
    widths of the arrays. *)
Definition decode_invitation (raw : list N) : res InvitationError Invitation :=
  if negb (len raw =? INVITATION_BYTES) then Err InvMalformed
  else
    let? magic := sub_slice raw 0 4 in
    if negb (bool_decide (magic = INVITATION_MAGIC)) then Err InvMalformed
    else
      let? version := index raw 4 in
      if negb (version =? INVITATION_VERSION) then Err InvMalformed
      else
        let? owner := sub_slice raw 5 37 in
        let? invitee := sub_slice raw 37 69 in
        let? realm := sub_slice raw 69 85 in
        let? room := sub_slice raw 85 101 in
        let? epoch := sub_slice raw 101 109 in
        let? expires_at := sub_slice raw 109 117 in
        let? nonce := sub_slice raw 117 149 in
        if (of_be expires_at =? 0) || bool_decide (nonce = zero_nonce) then Err InvMalformed
        else
          let? _ := validate_keys owner invitee in
          let? signature := sub_slice raw 149 213 in
          Ok (mkInvitation (mkInvClaims owner invitee (of_be realm) (of_be room) (of_be epoch)
                (of_be expires_at) nonce) signature).

Definition verify_for (i : Invitation) (expected_owner : list N) : res InvitationError InvitationClaims :=
  if negb (bool_decide (ic_owner (in_claims i) = expected_owner)) then Err InvIssuer
  else
    let? key := invitation_key expected_owner in
    if negb (verify_strict key (invitation_transcript (in_claims i)) (in_signature i))
    then Err InvSignature
    else Ok (in_claims i).

(** Expiry is exclusive. *)
Definition verify_at (i : Invitation) (expected_owner : list N) (now : N)
    : res InvitationError InvitationClaims :=
  let? claims := verify_for i expected_owner in
  if ic_expires_at claims <=? now then Err InvExpired else Ok claims.

(** ** What the operations decide *)

(** Fields of their widths. *)
Definition claims_wire (c : InvitationClaims) : Prop :=
  hash_wire (ic_owner c) /\ hash_wire (ic_invitee c) /\ u 128 (ic_realm c) /\ u 128 (ic_room c) /\
  u 64 (ic_epoch c) /\ u 64 (ic_expires_at c) /\ hash_wire (ic_nonce c).

(** Claims that an invitation may carry. *)
Record claims_valid (c : InvitationClaims) : Prop := {
  cv_distinct : ic_owner c <> ic_invitee c;
  cv_owner : strong_key (ic_owner c);
  cv_invitee : strong_key (ic_invitee c);
  cv_expires : ic_expires_at c <> 0;
  cv_nonce : ic_nonce c <> zero_nonce;
}.

Definition invitation_wire (i : Invitation) : Prop :=
  claims_wire (in_claims i) /\ claims_valid (in_claims i) /\ sig_wire (in_signature i).

Lemma invitation_key_Ok bytes key : invitation_key bytes = Ok key <-> strong_key bytes /\ key = bytes.
Proof.
  unfold invitation_key, strong_key. destruct (valid_key bytes), (is_weak bytes); simpl; naive_solver.
Qed.

Lemma validate_keys_Ok owner invitee : validate_keys owner invitee = Ok tt <->
  owner <> invitee /\ strong_key owner /\ strong_key invitee.
Proof.
  unfold validate_keys. case_bool_decide as E; [split; [done|tauto]|].
  rewrite res_bind_Ok. setoid_rewrite res_bind_Ok. setoid_rewrite invitation_key_Ok. naive_solver.
Qed.

Lemma validate_keys_no_panic owner invitee : validate_keys owner invitee <> Panic.
Proof. unfold validate_keys, invitation_key. by repeat case_match; simplify_eq. Qed.

Lemma length_unsigned c : claims_wire c -> length (invitation_unsigned c) = 149%nat.
Proof.
  intros (Ho & Hi & _ & _ & _ & _ & Hn). unfold invitation_unsigned, put_claims. split_written.
  rewrite !length_app. autorewrite with written_length.
  by rewrite (proj2 Ho), (proj2 Hi), (proj2 Hn).
Qed.

(** The fields of an encoding. *)
Definition claim_fields (magic : list N) (version : N) (owner invitee realm room epoch expires_at nonce
    signature : list N) : list (list N) :=
  [magic; [version]; owner; invitee; realm; room; epoch; expires_at; nonce; signature].

Lemma encode_fields i : encode_invitation i = concat (claim_fields INVITATION_MAGIC INVITATION_VERSION
  (ic_owner (in_claims i)) (ic_invitee (in_claims i)) (be 16 (ic_realm (in_claims i)))
  (be 16 (ic_room (in_claims i))) (be 8 (ic_epoch (in_claims i))) (be 8 (ic_expires_at (in_claims i)))
  (ic_nonce (in_claims i)) (in_signature i)).
Proof.
  unfold encode_invitation, invitation_unsigned, put_claims, claim_fields. split_written. cbn [concat].
  rewrite <- !app_assoc, app_nil_r. done.
Qed.

Lemma decode_fields magic version owner invitee realm room epoch expires_at nonce signature :
  length <$> claim_fields magic version owner invitee realm room epoch expires_at nonce signature =
    [4; 1; 32; 32; 16; 16; 8; 8; 32; 64]%nat ->
  decode_invitation (concat (claim_fields magic version owner invitee realm room epoch expires_at nonce signature)) =
  if negb (bool_decide (magic = INVITATION_MAGIC)) then Err InvMalformed
  else if negb (version =? INVITATION_VERSION) then Err InvMalformed
  else if (of_be expires_at =? 0) || bool_decide (nonce = zero_nonce) then Err InvMalformed
  else let? _ := validate_keys owner invitee in
    Ok (mkInvitation (mkInvClaims owner invitee (of_be realm) (of_be room) (of_be epoch)
          (of_be expires_at) nonce) signature).
Proof.
  unfold claim_fields. intros H. csimpl in H. injection H as H0 H2 H3 H4 H5 H6 H7 H8 H9.
  unfold decode_invitation. rewrite (proj2 (N.eqb_eq _ _)).
  2: { unfold len. cbn [concat]. rewrite !length_app, H0, H2, H3, H4, H5, H6, H7, H8, H9. done. }
  cbn [negb]. read_field 0. case_match; [done|]. read_field 1. case_match; [done|].
  read_field 2. read_field 3. read_field 4. read_field 5. read_field 6. read_field 7. read_field 8.
  case_match; [done|]. destruct (validate_keys owner invitee); [cbn [res_bind]|done..].
  by read_field 9.
Qed.

Lemma invitation_cut raw : len raw = INVITATION_BYTES ->
  exists magic version owner invitee realm room epoch expires_at nonce signature,
    let fs := claim_fields magic version owner invitee realm room epoch expires_at nonce signature in
    raw = concat fs /\ length <$> fs = [4; 1; 32; 32; 16; 16; 8; 8; 32; 64]%nat.
Proof.
  intros Hl. destruct (cut_fields [4; 1; 32; 32; 16; 16; 8; 8; 32; 64]%nat raw) as (ps & -> & Hw).
  { unfold len in Hl. simpl. change INVITATION_BYTES with 213 in Hl. lia. }
  do 10 (destruct ps as [|? ps]; [done|]). destruct ps; [|done]. csimpl in Hw.
  injection Hw as ? E. destruct l0 as [|v [|]]; [done| |done].
  do 10 eexists. split; [reflexivity|]. unfold claim_fields. csimpl. congruence.
Qed.

Lemma decode_encode_invitation i : invitation_wire i -> decode_invitation (encode_invitation i) = Ok i.
Proof.
  intros (Hc & [Hd Ho Hi He Hn] & [Hs Hsl]). rewrite encode_fields. destruct i as [c sg]. destruct c as [o v re ro ep ex no].
  cbn [in_claims in_signature ic_owner ic_invitee ic_realm ic_room ic_epoch ic_expires_at ic_nonce] in *.
  destruct Hc as ([? Ho1] & [? Hi1] & ? & ? & ? & ? & [? Hn1]). cbn in Ho1, Hi1, Hn1. rewrite decode_fields.
  2: { unfold claim_fields. rewrite !fmap_cons, !be_length, Ho1, Hi1, Hn1, Hsl. reflexivity. }
  rewrite !of_be_be by done. rewrite bool_decide_true, N.eqb_refl by done. cbn [negb].
  rewrite (proj2 (N.eqb_neq ex 0)), bool_decide_false by done. cbn [orb].
  by rewrite (proj2 (validate_keys_Ok o v)).
Qed.

Lemma decode_invitation_iff raw i : Forall byte raw ->
  decode_invitation raw = Ok i <-> invitation_wire i /\ raw = encode_invitation i.
Proof.
  intros Hb. split.
  - intros H. destruct (decide (len raw = INVITATION_BYTES)) as [Hl|Hl].
    2: { unfold decode_invitation in H. by rewrite (proj2 (N.eqb_neq _ _)) in H. }
    destruct (invitation_cut raw Hl) as (? & ? & owner & invitee & realm & room & epoch & ex & nonce & sg & -> & Hw).
    rewrite decode_fields in H by done. unfold claim_fields in *. cbn [concat] in Hb.
    csimpl in Hw. injection Hw as H0 H2 H3 H4 H5 H6 H7 H8 H9.
    rewrite !Forall_app in Hb. destruct Hb as (? & ? & ? & ? & ? & ? & ? & ? & ? & ? & _).
    repeat (case_match; [done|]). bool_to_prop. subst.
    destruct (validate_keys owner invitee) as [[]|e|] eqn:Ev; [|done..].
    apply validate_keys_Ok in Ev as (? & ? & ?). injection H as <-. split.
    + split; [|split]; [|by split|by split]. repeat split; try done; cbn.
      all: by eapply of_be_width.
    + rewrite encode_fields. unfold claim_fields. cbn [in_claims in_signature ic_owner ic_invitee ic_realm
        ic_room ic_epoch ic_expires_at ic_nonce].
      by rewrite (be_of_width 16 realm), (be_of_width 16 room), (be_of_width 8 epoch), (be_of_width 8 ex).
  - intros [Hw ->]. by apply decode_encode_invitation.
Qed.

Lemma decode_invitation_no_panic raw : decode_invitation raw <> Panic.
Proof.
  destruct (decide (len raw = INVITATION_BYTES)) as [Hl|Hl].
  - destruct (invitation_cut raw Hl) as (? & ? & owner & invitee & ? & ? & ? & ? & ? & ? & -> & Hw).
    rewrite decode_fields by done. repeat (case_match; [done|]).
    pose proof (validate_keys_no_panic owner invitee). by destruct (validate_keys owner invitee).
  - unfold decode_invitation. by rewrite (proj2 (N.eqb_neq _ _)).
Qed.

Lemma verify_for_Ok i owner c : verify_for i owner = Ok c <->
  owner = ic_owner c /\ strong_key owner /\ c = in_claims i /\
  verify_strict owner (invitation_transcript c) (in_signature i) = true.
Proof.
  unfold verify_for. case_bool_decide as E; simpl; [|split; [done|by intros (-> & _ & -> & _)]].
  rewrite res_bind_Ok. split.
  - intros (k & [Hk ->]%invitation_key_Ok & H). case_match eqn:Ev; [done|]. bool_to_prop.
    injection H as <-. done.
  - intros (-> & Hk & -> & Hv). exists (ic_owner (in_claims i)). split; [by apply invitation_key_Ok|].
    by rewrite Hv.
Qed.

Lemma verify_at_Ok i owner now c : verify_at i owner now = Ok c <->
  verify_for i owner = Ok c /\ now < ic_expires_at c.
Proof.
  unfold verify_at. rewrite res_bind_Ok. split.
  - intros (c' & -> & H). case_match eqn:E; [done|]. bool_to_prop. by injection H as ->.
  - intros [-> Hn]. exists c. by rewrite (proj2 (N.leb_gt _ _)).
Qed.

Lemma verify_at_no_panic i owner now : verify_at i owner now <> Panic.
Proof.
  unfold verify_at, verify_for, invitation_key. case_match; [done|]. cbn [res_bind].
  by repeat (case_match; [done|]; cbn [res_bind]).
Qed.

Lemma issue_invitation_Ok seed invitee realm room epoch expires_at nonce i :
  issue_invitation seed invitee realm room epoch expires_at nonce = Ok i <->
  let c := mkInvClaims (verifying_key seed) invitee realm room epoch expires_at nonce in
  claims_valid c /\ i = mkInvitation c (sign_bytes seed (invitation_transcript c)).
Proof.
  unfold issue_invitation. rewrite res_bind_Ok. cbv zeta. split.
  - intros ([] & (? & ? & ?)%validate_keys_Ok & Hr). case_match eqn:E; [done|]. bool_to_prop.
    injection Hr as <-. split; [by split|done].
  - intros [[? ? ? He Hn] ->]. exists tt. split; [by apply validate_keys_Ok|]. cbn in *.
    rewrite (proj2 (N.eqb_neq _ _)) by done. by rewrite bool_decide_false.
Qed.

(** The signed bytes determine the claims. *)
Lemma invitation_transcript_inj c1 c2 : claims_wire c1 -> claims_wire c2 ->
  invitation_transcript c1 = invitation_transcript c2 -> c1 = c2.
Proof.
  intros H1 H2 E. unfold invitation_transcript in E. apply app_inv_head in E.
  unfold invitation_unsigned in E. apply (f_equal (fun W => W ++ [])) in E. unfold put_claims in E.
  destruct H1 as (? & ? & ? & ? & ? & ? & ?), H2 as (? & ? & ? & ? & ? & ? & ?).
  rewrite !(written_seq (w_bytes INVITATION_MAGIC)), !(written_seq (w_u8 _)) in E by apply _.
  rewrite <- !app_assoc in E. apply app_inv_head, app_inv_head in E. peel E.
  destruct c1, c2. simpl in *. congruence.
Qed.
End Invitation.
