(* ===== verification/Session.v ===== *)
(** Chat sessions of two paired peers (src/crates/vhalla-session/src/lib.rs):
    pairings, the three signed messages of the handshake, and the session that
    both peers hold afterwards. *)
From Stdlib Require Import Ascii String.
From stdpp Require Import gmap.
From S2P Require Import Prelude Bytes PrefixFree Wire Signed Layout Invitation.

Definition HANDSHAKE_MAGIC : list N := bytes_of "VHS1".
Definition HELLO : N := 1.
Definition RESPONSE : N := 2.
Definition CONFIRM : N := 3.
Definition HELLO_BYTES : N := 133.
Definition MAX_HANDSHAKE_BYTES : N := 165.
Definition HANDSHAKE_DOMAIN : list N := bytes_of "vhalla/paired-chat/handshake/v1".
Definition CONFIG_DOMAIN : list N := bytes_of "vhalla/paired-chat/config/v1".
Definition SESSION_DOMAIN : list N := bytes_of "vhalla/paired-chat/session/v1".
Definition CHAT_EVENT_DOMAIN : list N := bytes_of "vhalla/paired-chat/event/v1".

Inductive Role : Type := Initiator | Responder.
#[global] Instance Role_eq_dec : EqDecision Role. Proof. solve_decision. Defined.

Record Pairing : Type := mkPairing {
  pr_initiator : list N; pr_responder : list N;
  pr_initiator_transport : list N; pr_responder_transport : list N;
  pr_realm : N; pr_room : N; pr_epoch : N; pr_expires_at : N;
}.

Inductive Reject : Type :=
| RejMalformed | RejKey | RejLocalKey | RejTransport | RejContext | RejSignature | RejExpired
| RejClockRollback | RejClosed | RejKind | RejVerify (e : VerifyError) | RejCapacity.

Record Packet : Type := mkPacket {
  pk_kind : N; pk_pairing : list N; pk_initiator_nonce : list N; pk_responder_nonce : list N;
  pk_signature : list N;
}.

Definition set_kind (kind : N) (p : Packet) : Packet :=
  mkPacket kind (pk_pairing p) (pk_initiator_nonce p) (pk_responder_nonce p) (pk_signature p).
Definition set_responder_nonce (nonce : list N) (p : Packet) : Packet :=
  mkPacket (pk_kind p) (pk_pairing p) (pk_initiator_nonce p) nonce (pk_signature p).

Definition local_key (p : Pairing) (role : Role) : list N :=
  match role with Initiator => pr_initiator p | Responder => pr_responder p end.
Definition remote_key (p : Pairing) (role : Role) : list N :=
  match role with Initiator => pr_responder p | Responder => pr_initiator p end.

(** What [digest] hashes. *)
Definition put_pairing (p : Pairing) : Writer -> Writer :=
  w_bytes CONFIG_DOMAIN >> w_bytes (pr_initiator p) >> w_bytes (pr_responder p)
  >> w_bytes (pr_initiator_transport p) >> w_bytes (pr_responder_transport p)
  >> w_u128 (pr_realm p) >> w_u128 (pr_room p) >> w_u64 (pr_epoch p) >> w_u64 (pr_expires_at p).
Definition pairing_preimage (p : Pairing) : list N := written (put_pairing p).

Definition put_packet (p : Packet) : Writer -> Writer :=
  w_bytes HANDSHAKE_MAGIC >> w_u8 (pk_kind p) >> w_bytes (pk_pairing p) >> w_bytes (pk_initiator_nonce p)
  >> (if negb (pk_kind p =? HELLO) then w_bytes (pk_responder_nonce p) else id).
Definition packet_unsigned (p : Packet) : list N := written (put_packet p).
Definition packet_transcript (p : Packet) : list N := HANDSHAKE_DOMAIN ++ packet_unsigned p.

(** What [session_id] hashes. *)
Definition session_preimage (p : Packet) : list N :=
  SESSION_DOMAIN ++ pk_pairing p ++ pk_initiator_nonce p ++ pk_responder_nonce p.

Definition fresh_nonce (nonce : list N) : res Reject unit :=
  if bool_decide (nonce = zero_nonce) then Err RejMalformed else Ok tt.

Definition decode_packet (raw : list N) (kind : N) : res Reject Packet :=
  let length := if kind =? HELLO then HELLO_BYTES else MAX_HANDSHAKE_BYTES in
  if negb (len raw =? length) then Err RejMalformed
  else
    let? magic := sub_slice raw 0 4 in
    if negb (bool_decide (magic = HANDSHAKE_MAGIC)) then Err RejMalformed
    else
      let? found := index raw 4 in
      if negb (found =? kind) then Err RejMalformed
      else
        let? initiator_nonce := sub_slice raw 37 69 in
        let? responder_nonce :=
          if kind =? HELLO then Ok zero_nonce else sub_slice raw 69 101 in
        let? _ := fresh_nonce initiator_nonce in
        let? _ := if negb (kind =? HELLO) then fresh_nonce responder_nonce else Ok tt in
        let? pairing := sub_slice raw 5 37 in
        let? signature := sub_slice raw (N.to_nat (length - 64)) (List.length raw) in
        Ok (mkPacket kind pairing initiator_nonce responder_nonce signature).

Record Pending : Type := mkPending {
  pd_pairing : Pairing; pd_role : Role; pd_packet : Packet; pd_started_at : N; pd_deadline : N;
}.

Definition check_deadline (pairing : Pairing) (now deadline : N) : res Reject N :=
  if (deadline <=? now) || (pr_expires_at pairing <? now) then Err RejExpired
  else Ok (N.min deadline (pr_expires_at pairing)).

Definition check_time (p : Pending) (now : N) : res Reject unit :=
  if now <? pd_started_at p then Err RejClockRollback
  else if pd_deadline p <? now then Err RejExpired
  else Ok tt.

Record ChatSession : Type := mkChat {
  cs_pairing : Pairing; cs_peer : list N; cs_inbound : ReplayWindow; cs_outbound : VerificationContext;
  cs_next_sequence : N; cs_last_now : N; cs_closed : bool;
}.

Definition set_inbound (w : ReplayWindow) (s : ChatSession) : ChatSession :=
  mkChat (cs_pairing s) (cs_peer s) w (cs_outbound s) (cs_next_sequence s) (cs_last_now s) (cs_closed s).
Definition set_next (n : N) (s : ChatSession) : ChatSession :=
  mkChat (cs_pairing s) (cs_peer s) (cs_inbound s) (cs_outbound s) n (cs_last_now s) (cs_closed s).
Definition set_last_now (now : N) (s : ChatSession) : ChatSession :=
  mkChat (cs_pairing s) (cs_peer s) (cs_inbound s) (cs_outbound s) (cs_next_sequence s) now (cs_closed s).

(** [close] *)
Definition close (s : ChatSession) : ChatSession :=
  mkChat (cs_pairing s) (cs_peer s) (cs_inbound s) (cs_outbound s) (cs_next_sequence s) (cs_last_now s) true.

Definition check_live (now : N) : eff ChatSession Reject unit :=
  let! s := get in
  if cs_closed s then throw RejClosed
  else if now <? cs_last_now s then do! modify close in throw RejClockRollback
  else if pr_expires_at (cs_pairing s) <? now then do! modify close in throw RejExpired
  else modify (set_last_now now).

Section Session.
Context (sha256 : list N -> list N) `{Hed : Ed25519}.

Definition checked_key (bytes : list N) : res Reject (list N) :=
  if negb (valid_key bytes) then Err RejKey
  else if is_weak bytes then Err RejKey
  else Ok bytes.

Definition pairing_digest (p : Pairing) : list N := sha256 (pairing_preimage p).

Definition pairing_validate (p : Pairing) : res Reject unit :=
  if bool_decide (pr_initiator p = pr_responder p) then Err RejKey
  else
    res_fold (fun _ bytes => let? _ := checked_key bytes in Ok tt) tt
      [pr_initiator p; pr_responder p; pr_initiator_transport p; pr_responder_transport p].

Definition check_local (p : Pairing) (role : Role) (seed observed_local observed_remote : list N)
    : res Reject unit :=
  let? _ := pairing_validate p in
  if negb (bool_decide (verifying_key seed = local_key p role)) then Err RejLocalKey
  else
    let expected := match role with
      | Initiator => (pr_initiator_transport p, pr_responder_transport p)
      | Responder => (pr_responder_transport p, pr_initiator_transport p)
      end in
    if negb (bool_decide ((observed_local, observed_remote) = expected)) then Err RejTransport
    else Ok tt.

(** [signed]: the bytes of the packet with a new signature. *)
Definition packet_signed (p : Packet) (seed : list N) : list N :=
  packet_unsigned p ++ sign_bytes seed (packet_transcript p).

Definition packet_verify (p : Packet) (key : list N) : res Reject unit :=
  let? key := checked_key key in
  if negb (verify_strict key (packet_transcript p) (pk_signature p)) then Err RejSignature else Ok tt.

Definition session_id (p : Packet) : N := of_be (take 16 (sha256 (session_preimage p))).

Definition initiate (pairing : Pairing) (seed observed_local observed_remote nonce : list N)
    (now deadline : N) : res Reject (Pending * list N) :=
  let? _ := check_local pairing Initiator seed observed_local observed_remote in
  let? deadline := check_deadline pairing now deadline in
  let? _ := fresh_nonce nonce in
  let packet := mkPacket HELLO (pairing_digest pairing) nonce zero_nonce (replicate 64 0) in
  Ok (mkPending pairing Initiator packet now deadline, packet_signed packet seed).

Definition respond (pairing : Pairing) (seed observed_local observed_remote hello nonce : list N)
    (now deadline : N) : res Reject (Pending * list N) :=
  let? _ := check_local pairing Responder seed observed_local observed_remote in
  let? deadline := check_deadline pairing now deadline in
  let? _ := fresh_nonce nonce in
  let? packet := decode_packet hello HELLO in
  if negb (bool_decide (pk_pairing packet = pairing_digest pairing)) then Err RejContext
  else
    let? _ := packet_verify packet (pr_initiator pairing) in
    let packet := set_responder_nonce nonce (set_kind RESPONSE packet) in
    Ok (mkPending pairing Responder packet now deadline, packet_signed packet seed).

Definition establish (pairing : Pairing) (role : Role) (session now : N) : res Reject ChatSession :=
  let? local := checked_key (local_key pairing role) in
  let? peer := checked_key (remote_key pairing role) in
  let context := mkContext (peer_id_from_key sha256 local) (pr_realm pairing) (pr_room pairing)
                   (pr_epoch pairing) session in
  let? inbound := map_err RejVerify (ReplayWindow_new context 1) in
  Ok (mkChat pairing peer inbound
        (mkContext (peer_id_from_key sha256 peer) (vc_realm context) (vc_room context) (vc_epoch context)
           (vc_session context)) 1 now false).

Definition confirm (p : Pending) (response seed : list N) (now : N) : res Reject (ChatSession * list N) :=
  let? _ := check_time p now in
  if bool_decide (pd_role p <> Initiator)
    || negb (bool_decide (verifying_key seed = pr_initiator (pd_pairing p))) then Err RejLocalKey
  else
    let? packet := decode_packet response RESPONSE in
    if negb (bool_decide (pk_pairing packet = pk_pairing (pd_packet p)))
      || negb (bool_decide (pk_initiator_nonce packet = pk_initiator_nonce (pd_packet p)))
    then Err RejContext
    else
      let? _ := packet_verify packet (pr_responder (pd_pairing p)) in
      let packet := set_kind CONFIRM packet in
      let confirmation := packet_signed packet seed in
      let? s := establish (pd_pairing p) (pd_role p) (session_id packet) now in
      Ok (s, confirmation).

Definition finish (p : Pending) (confirmation : list N) (now : N) : res Reject ChatSession :=
  let? _ := check_time p now in
  if bool_decide (pd_role p <> Responder) then Err RejContext
  else
    let? packet := decode_packet confirmation CONFIRM in
    if negb (bool_decide (pk_pairing packet = pk_pairing (pd_packet p)))
      || negb (bool_decide (pk_initiator_nonce packet = pk_initiator_nonce (pd_packet p)))
      || negb (bool_decide (pk_responder_nonce packet = pk_responder_nonce (pd_packet p)))
    then Err RejContext
    else
      let? _ := packet_verify packet (pr_initiator (pd_pairing p)) in
      establish (pd_pairing p) (pd_role p) (session_id packet) now.

(** What the event identifier of a chat message hashes. *)
Definition chat_event_preimage (session audience sequence : N) : list N :=
  CHAT_EVENT_DOMAIN ++ be 16 session ++ be 16 audience ++ be 8 sequence.

Definition prepare_chat (body : list N) (now : N) : eff ChatSession Reject Envelope :=
  do! check_live now in
  if MAX_SIGNED_BODY_BYTES <? len body then throw RejCapacity
  else
    let! s := get in
    let sequence := cs_next_sequence s in
    let! next := lift (ok_or (checked_add 64 sequence 1) RejCapacity) in
    let audience := vc_audience (rw_context (cs_inbound s)) in
    let digest := sha256 (chat_event_preimage (vc_session (cs_outbound s)) audience sequence) in
    let event := of_be (take 16 digest) in
    let! envelope := lift (ok_or (envelope_chat audience (pr_realm (cs_pairing s))
                             (pr_room (cs_pairing s)) event sequence body) RejCapacity) in
    do! modify (set_next next) in
    ret envelope.

(** [receive] *)
Definition receive_chat (raw : list N) (now : N) : eff ChatSession Reject VerifiedEnvelope :=
  do! check_live now in
  let! signed := lift (map_err (fun _ => RejMalformed) (decode_signed raw)) in
  if negb (env_kind (se_envelope signed) =? KIND_CHAT) then throw RejKind
  else
    let! s := get in
    if pr_expires_at (cs_pairing s) <? se_expires_at signed then throw RejExpired
    else
      eff_map_err RejVerify (zoom cs_inbound set_inbound
        (verify_and_accept sha256 signed (cs_peer s) now)).
End Session.
