(* ===== verification/Handshake.v ===== *)
(** What the handshake of [Session] decides: its packets, each of its three
    steps exactly, and what its signatures bind. *)
From Stdlib Require Import Ascii String.
From stdpp Require Import gmap.
From S2P Require Import Prelude Bytes PrefixFree Wire Signed Layout Invitation Session.

(** ** Packets *)

Record packet_wire (p : Packet) : Prop := {
  pw_kind : u 8 (pk_kind p);
  pw_pairing : hash_wire (pk_pairing p);
  pw_initiator : hash_wire (pk_initiator_nonce p) /\ pk_initiator_nonce p <> zero_nonce;
  pw_responder : hash_wire (pk_responder_nonce p) /\
    (pk_responder_nonce p = zero_nonce <-> pk_kind p = HELLO);
  pw_signature : sig_wire (pk_signature p);
}.

Definition encode_packet (p : Packet) : list N := packet_unsigned p ++ pk_signature p.

Definition packet_fields (magic : list N) (kind : N) (pairing initiator responder signature : list N)
    : list (list N) :=
  [magic; [kind]; pairing; initiator; responder; signature].

(** The nonce a packet of this kind carries. *)
Definition carried_nonce (kind : N) (responder : list N) : list N :=
  if kind =? HELLO then [] else responder.

Lemma encode_packet_fields p : encode_packet p = concat (packet_fields HANDSHAKE_MAGIC (pk_kind p)
  (pk_pairing p) (pk_initiator_nonce p) (carried_nonce (pk_kind p) (pk_responder_nonce p)) (pk_signature p)).
Proof.
  unfold encode_packet, packet_unsigned, put_packet, packet_fields, carried_nonce.
  destruct (pk_kind p =? HELLO); cbn [negb]; split_written; cbn [concat]; rewrite ?app_nil_r, <- ?app_assoc; done.
Qed.

(** The widths of the fields of a packet. *)
Definition packet_widths (kind : N) : list nat :=
  [4; 1; 32; 32; if (kind =? HELLO)%N then 0 else 32; 64]%nat.

Lemma decode_packet_fields magic found pairing initiator responder signature kind :
  length <$> packet_fields magic found pairing initiator responder signature = packet_widths kind ->
  decode_packet (concat (packet_fields magic found pairing initiator responder signature)) kind =
  if negb (bool_decide (magic = HANDSHAKE_MAGIC)) then Err RejMalformed
  else if negb (found =? kind) then Err RejMalformed
  else
    let nonce := if kind =? HELLO then zero_nonce else responder in
    let? _ := fresh_nonce initiator in
    let? _ := if negb (kind =? HELLO) then fresh_nonce nonce else Ok tt in
    Ok (mkPacket kind pairing initiator nonce signature).
Proof.
  unfold packet_fields, packet_widths. intros H. csimpl in H. injection H as H0 H2 H3 H4 H5.
  unfold decode_packet.
  assert (Hl : length (concat [magic; [found]; pairing; initiator; responder; signature]) =
    N.to_nat (if kind =? HELLO then HELLO_BYTES else MAX_HANDSHAKE_BYTES)).
  { cbn [concat]. rewrite !length_app, H0, H2, H3, H4, H5. by case_match. }
  cbv zeta. rewrite Hl. rewrite (proj2 (N.eqb_eq (len _) _)) by (unfold len; rewrite Hl; apply N2Nat.id).
  cbn [negb].
  read_field 0. destruct (negb (bool_decide _)); [done|]. read_field 1. destruct (negb _); [done|]. read_field 3.
  destruct (kind =? HELLO) eqn:Ek; cbn [res_bind negb].
  - destruct (fresh_nonce initiator); [cbn [res_bind]|done..]. read_field 2.
    erewrite (slice_field _ 5%nat); [done|reflexivity|unfold width_before; csimpl|csimpl].
    all: rewrite ?H0, ?H2, ?H3, ?H4, ?H5; done.
  - read_field 4. destruct (fresh_nonce initiator); [cbn [res_bind]|done..].
    destruct (fresh_nonce responder); [cbn [res_bind]|done..]. read_field 2.
    erewrite (slice_field _ 5%nat); [done|reflexivity|unfold width_before; csimpl|csimpl].
    all: rewrite ?H0, ?H2, ?H3, ?H4, ?H5; done.
Qed.

Lemma packet_cut raw kind :
  len raw = (if kind =? HELLO then HELLO_BYTES else MAX_HANDSHAKE_BYTES) ->
  exists magic found pairing initiator responder signature,
    let fs := packet_fields magic found pairing initiator responder signature in
    raw = concat fs /\ length <$> fs = packet_widths kind.
Proof.
  intros Hl. destruct (cut_fields (packet_widths kind) raw) as (ps & -> & Hw).
  { unfold packet_widths, len in *. simpl. unfold HELLO_BYTES, MAX_HANDSHAKE_BYTES in Hl.
    destruct (kind =? HELLO); lia. }
  unfold packet_widths in *. do 6 (destruct ps as [|? ps]; [done|]). destruct ps; [|done].
  csimpl in Hw. injection Hw as ? E. destruct l0 as [|v [|]]; [done| |done].
  do 6 eexists. split; [reflexivity|]. unfold packet_fields. csimpl. congruence.
Qed.

Lemma fresh_nonce_Ok nonce : fresh_nonce nonce = Ok tt <-> nonce <> zero_nonce.
Proof. unfold fresh_nonce. case_bool_decide; naive_solver. Qed.

Lemma fresh_nonce_no_panic nonce : fresh_nonce nonce <> Panic.
Proof. unfold fresh_nonce. by case_bool_decide. Qed.

Lemma zero_nonce_wire : hash_wire zero_nonce.
Proof. split; [by apply Forall_replicate|done]. Qed.

Lemma decode_packet_iff raw kind p : Forall byte raw ->
  decode_packet raw kind = Ok p <-> packet_wire p /\ pk_kind p = kind /\ raw = encode_packet p.
Proof.
  intros Hb. split.
  - intros H. destruct (decide (len raw = if kind =? HELLO then HELLO_BYTES else MAX_HANDSHAKE_BYTES)) as [Hl|Hl].
    2: { unfold decode_packet in H. by rewrite (proj2 (N.eqb_neq _ _)) in H. }
    destruct (packet_cut raw kind Hl) as (magic & found & pairing & initiator & responder & sg & -> & Hw).
    rewrite decode_packet_fields in H by done. unfold packet_fields, packet_widths in *.
    csimpl in Hw. injection Hw as W0 W2 W3 W4 W5. cbn [concat] in Hb.
    rewrite !Forall_app in Hb. destruct Hb as (? & Hf & ? & ? & ? & ? & _).
    destruct (negb (bool_decide _)) eqn:E1; [done|]. destruct (negb (found =? kind)) eqn:E2; [done|].
    bool_to_prop. subst. apply Forall_cons_1 in Hf as [Hf _].
    destruct (fresh_nonce initiator) as [[]|e|] eqn:Ei; [|done..]. cbn [res_bind] in H.
    apply fresh_nonce_Ok in Ei. cbv zeta in H. rewrite res_bind_Ok in H. destruct H as ([] & Er & H).
    injection H as <-. rewrite encode_packet_fields. unfold packet_fields, carried_nonce. cbn.
    destruct (N.eqb_spec kind HELLO) as [->|Hk]; cbn in Er.
    + destruct responder; [|done]. split; [|done].
      split; cbn; try done. split; [exact zero_nonce_wire|done].
    + apply fresh_nonce_Ok in Er. split; [|done]. by split.
  - intros ([Hk [Hp1 Hp2] [[Hi1 Hi2] Hin] [[Hr1 Hr2] Hrn] [Hs1 Hs2]] & <- & ->).
    rewrite encode_packet_fields, decode_packet_fields.
    2: { unfold packet_fields, packet_widths, carried_nonce. rewrite !fmap_cons, Hp2, Hi2, Hs2.
         case_match; [done|]. by rewrite Hr2. }
    rewrite bool_decide_true, N.eqb_refl by done. cbn [negb]. cbv zeta.
    rewrite (proj2 (fresh_nonce_Ok _)) by done. cbn [res_bind]. unfold carried_nonce.
    destruct (N.eqb_spec (pk_kind p) HELLO) as [E|E]; cbn [negb].
    + cbn [res_bind]. rewrite <- (proj2 Hrn E). by destruct p.
    + rewrite (proj2 (fresh_nonce_Ok _)) by (intros Hz; by apply Hrn in Hz). cbn [res_bind]. by destruct p.
Qed.

Lemma decode_packet_no_panic raw kind : decode_packet raw kind <> Panic.
Proof.
  destruct (decide (len raw = if kind =? HELLO then HELLO_BYTES else MAX_HANDSHAKE_BYTES)) as [Hl|Hl].
  - destruct (packet_cut raw kind Hl) as (? & ? & ? & i & r & ? & -> & Hw). rewrite decode_packet_fields by done.
    destruct (negb (bool_decide _)); [done|]. destruct (negb _); [done|].
    destruct (fresh_nonce i) as [[]|e|] eqn:Ei; [|done|by apply fresh_nonce_no_panic in Ei]. cbn [res_bind].
    cbv zeta. clear Ei. destruct (negb _); [|done].
    destruct (fresh_nonce _) as [[]|e|] eqn:Er; cbn [res_bind]; [done..|].
    by apply fresh_nonce_no_panic in Er.
  - unfold decode_packet. by rewrite (proj2 (N.eqb_neq _ _)).
Qed.

(** ** What a signature of a packet binds *)

Lemma packet_transcript_inj p1 p2 : packet_wire p1 -> packet_wire p2 ->
  packet_transcript p1 = packet_transcript p2 -> p2 = mkPacket (pk_kind p1) (pk_pairing p1)
    (pk_initiator_nonce p1) (pk_responder_nonce p1) (pk_signature p2).
Proof.
  intros [K1 [] [[] _] [[] R1] _] [K2 [] [[] _] [[] R2] _] E. unfold packet_transcript in E.
  apply app_inv_head in E. apply (f_equal (fun W => W ++ pk_signature p1)) in E.
  change (encode_packet p1 = packet_unsigned p2 ++ pk_signature p1) in E.
  change (packet_unsigned p2 ++ pk_signature p1) with
    (encode_packet (mkPacket (pk_kind p2) (pk_pairing p2) (pk_initiator_nonce p2) (pk_responder_nonce p2)
       (pk_signature p1))) in E.
  rewrite !encode_packet_fields in E. unfold packet_fields in E. cbn [concat pk_kind pk_pairing
    pk_initiator_nonce pk_responder_nonce pk_signature] in E.
  apply app_inv_head in E. cbn [app] in E. injection E as Ek E.
  apply app_inj_1 in E as [Ep E]; [|congruence]. apply app_inj_1 in E as [Ei E]; [|congruence].
  apply app_inv_tail in E. unfold carried_nonce in E. rewrite Ek in *.
  destruct p1, p2. cbn in *. subst. f_equal. destruct (N.eqb_spec pk_kind0 HELLO) as [Hh|]; [|done].
  by rewrite (proj2 R1 Hh), (proj2 R2 Hh).
Qed.

(** Fields of their widths. *)
Definition pairing_wire (p : Pairing) : Prop :=
  hash_wire (pr_initiator p) /\ hash_wire (pr_responder p) /\ hash_wire (pr_initiator_transport p) /\
  hash_wire (pr_responder_transport p) /\ u 128 (pr_realm p) /\ u 128 (pr_room p) /\ u 64 (pr_epoch p) /\
  u 64 (pr_expires_at p).

Lemma pairing_preimage_inj p1 p2 : pairing_wire p1 -> pairing_wire p2 ->
  pairing_preimage p1 = pairing_preimage p2 -> p1 = p2.
Proof.
  intros H1 H2 E. unfold pairing_preimage in E. apply (f_equal (fun W => W ++ [])) in E.
  unfold put_pairing in E. rewrite !(written_seq (w_bytes CONFIG_DOMAIN)) in E by apply _.
  rewrite <- !app_assoc in E. apply app_inv_head in E.
  destruct H1 as (? & ? & ? & ? & ? & ? & ? & ?), H2 as (? & ? & ? & ? & ? & ? & ? & ?).
  peel E. destruct p1, p2. simpl in *. congruence.
Qed.

(** ** The steps *)

Section Steps.
Context (sha256 : list N -> list N) `{Hed : Ed25519}.

Lemma checked_key_Ok bytes key : checked_key bytes = Ok key <-> strong_key bytes /\ key = bytes.
Proof. unfold checked_key, strong_key. destruct (valid_key bytes), (is_weak bytes); simpl; naive_solver. Qed.

(** A peer may play [role] of the pairing: the pairing is sound, the peer holds
    the key of the role and sees the pinned transport keys. *)
Record plays (p : Pairing) (role : Role) (seed observed_local observed_remote : list N) : Prop := {
  pl_distinct : pr_initiator p <> pr_responder p;
  pl_initiator : strong_key (pr_initiator p);
  pl_responder : strong_key (pr_responder p);
  pl_initiator_transport : strong_key (pr_initiator_transport p);
  pl_responder_transport : strong_key (pr_responder_transport p);
  pl_local : verifying_key seed = local_key p role;
  pl_observed : (observed_local, observed_remote) =
    match role with
    | Initiator => (pr_initiator_transport p, pr_responder_transport p)
    | Responder => (pr_responder_transport p, pr_initiator_transport p)
    end;
}.

Lemma pairing_validate_Ok p : pairing_validate p = Ok tt <->
  pr_initiator p <> pr_responder p /\ strong_key (pr_initiator p) /\ strong_key (pr_responder p) /\
  strong_key (pr_initiator_transport p) /\ strong_key (pr_responder_transport p).
Proof.
  unfold pairing_validate. case_bool_decide as E; [split; [done|tauto]|]. cbn [res_fold].
  repeat setoid_rewrite res_bind_Ok. repeat setoid_rewrite checked_key_Ok. naive_solver.
Qed.

Lemma check_local_Ok p role seed ol or : check_local p role seed ol or = Ok tt <-> plays p role seed ol or.
Proof.
  unfold check_local. rewrite res_bind_Ok. split.
  - intros ([] & (? & ? & ? & ? & ?)%pairing_validate_Ok & Hx). case_bool_decide; [|done]. cbn [negb] in Hx.
    case_bool_decide; [|done]. by split.
  - intros []. exists tt. split; [by apply pairing_validate_Ok|]. by rewrite !bool_decide_true.
Qed.

Definition in_time (p : Pairing) (now deadline : N) : Prop := now < deadline /\ now <= pr_expires_at p.

Lemma check_deadline_Ok p now deadline d : check_deadline p now deadline = Ok d <->
  in_time p now deadline /\ d = N.min deadline (pr_expires_at p).
Proof.
  unfold check_deadline, in_time. destruct (N.leb_spec deadline now), (N.ltb_spec (pr_expires_at p) now);
    cbn; (split; [intros [=]|intros [[? ?] ->]]); subst; first [lia|done].
Qed.

Lemma check_time_Ok p now : check_time p now = Ok tt <-> pd_started_at p <= now <= pd_deadline p.
Proof.
  unfold check_time. destruct (N.ltb_spec now (pd_started_at p)), (N.ltb_spec (pd_deadline p) now);
    (split; [intros [=]|intros [? ?]]); first [lia|done].
Qed.

Lemma packet_verify_Ok p key : packet_verify p key = Ok tt <->
  strong_key key /\ verify_strict key (packet_transcript p) (pk_signature p) = true.
Proof.
  unfold packet_verify. rewrite res_bind_Ok. setoid_rewrite checked_key_Ok. split.
  - intros (k & [Hk ->] & H). by destruct (verify_strict _ _ _).
  - intros [Hk Hv]. exists key. by rewrite Hv.
Qed.

(** The session that both roles establish. *)
Definition session_of (p : Pairing) (role : Role) (session now : N) : ChatSession :=
  let context key := mkContext (peer_id_from_key sha256 key) (pr_realm p) (pr_room p) (pr_epoch p) session in
  mkChat p (remote_key p role) (mkWindow (context (local_key p role)) 1 ∅) (context (remote_key p role))
    1 now false.

Lemma establish_Ok p role session now s : establish sha256 p role session now = Ok s <->
  strong_key (local_key p role) /\ strong_key (remote_key p role) /\ s = session_of p role session now.
Proof.
  unfold establish. split.
  - intros (l & [Hl ->]%checked_key_Ok & (r & [Hr ->]%checked_key_Ok & [= <-])%res_bind_Ok)%res_bind_Ok. done.
  - intros (Hl & Hr & ->). rewrite (proj2 (checked_key_Ok _ _) (conj Hl eq_refl)). cbn [res_bind].
    by rewrite (proj2 (checked_key_Ok _ _) (conj Hr eq_refl)).
Qed.

Definition hello_packet (p : Pairing) (nonce : list N) : Packet :=
  mkPacket HELLO (pairing_digest sha256 p) nonce zero_nonce (replicate 64 0).

Lemma initiate_Ok p seed ol or nonce now deadline r :
  initiate sha256 p seed ol or nonce now deadline = Ok r <->
  plays p Initiator seed ol or /\ in_time p now deadline /\ nonce <> zero_nonce /\
  r = (mkPending p Initiator (hello_packet p nonce) now (N.min deadline (pr_expires_at p)),
       packet_signed (hello_packet p nonce) seed).
Proof.
  unfold initiate. split.
  - intros ([] & Hl%check_local_Ok & (d & [Hd ->]%check_deadline_Ok &
      ([] & Hn%fresh_nonce_Ok & [= <-])%res_bind_Ok)%res_bind_Ok)%res_bind_Ok. done.
  - intros (Hl & Hd & Hn & ->). rewrite (proj2 (check_local_Ok _ _ _ _ _)) by done. cbn [res_bind].
    rewrite (proj2 (check_deadline_Ok _ _ _ _)) by done. cbn [res_bind].
    by rewrite (proj2 (fresh_nonce_Ok _)).
Qed.

Definition response_packet (hello : Packet) (nonce : list N) : Packet :=
  set_responder_nonce nonce (set_kind RESPONSE hello).

(** A hello that the responder of [p] accepts. *)
Definition greets (p : Pairing) (hello : Packet) : Prop :=
  packet_wire hello /\ pk_kind hello = HELLO /\ pk_pairing hello = pairing_digest sha256 p /\
  verify_strict (pr_initiator p) (packet_transcript hello) (pk_signature hello) = true.

Lemma respond_Ok p seed ol or raw nonce now deadline r : Forall byte raw ->
  respond sha256 p seed ol or raw nonce now deadline = Ok r <->
  plays p Responder seed ol or /\ in_time p now deadline /\ nonce <> zero_nonce /\
  exists hello, greets p hello /\ raw = encode_packet hello /\
    r = (mkPending p Responder (response_packet hello nonce) now (N.min deadline (pr_expires_at p)),
         packet_signed (response_packet hello nonce) seed).
Proof.
  intros Hb. unfold respond. split.
  - intros ([] & Hl%check_local_Ok & (d & [Hd ->]%check_deadline_Ok &
      ([] & Hn%fresh_nonce_Ok & H)%res_bind_Ok)%res_bind_Ok)%res_bind_Ok.
    apply res_bind_Ok in H as (hello & (Hw & Hk & ->)%decode_packet_iff & H); [|done].
    case_bool_decide as Hp; [|done]. cbn [negb] in H. apply res_bind_Ok in H as ([] & Hv & [= <-]).
    apply packet_verify_Ok in Hv as [_ Hv]. split_and!; try done. by exists hello.
  - intros (Hl & Hd & Hn & hello & (Hw & Hk & Hp & Hv) & -> & ->).
    rewrite (proj2 (check_local_Ok _ _ _ _ _)) by done. cbn [res_bind].
    rewrite (proj2 (check_deadline_Ok _ _ _ _)) by done. cbn [res_bind].
    rewrite (proj2 (fresh_nonce_Ok _)) by done. cbn [res_bind]. apply res_bind_Ok.
    exists hello. split; [by apply decode_packet_iff|]. rewrite bool_decide_true by done. cbn [negb].
    apply res_bind_Ok. exists tt. split; [|done]. apply packet_verify_Ok. split; [apply Hl|done].
Qed.

(** A response that the initiator with this hello accepts. *)
Definition answers (p : Pending) (response : Packet) : Prop :=
  packet_wire response /\ pk_kind response = RESPONSE /\
  pk_pairing response = pk_pairing (pd_packet p) /\
  pk_initiator_nonce response = pk_initiator_nonce (pd_packet p) /\
  strong_key (pr_responder (pd_pairing p)) /\
  verify_strict (pr_responder (pd_pairing p)) (packet_transcript response) (pk_signature response) = true.

Lemma confirm_Ok p raw seed now r : Forall byte raw ->
  confirm sha256 p raw seed now = Ok r <->
  pd_started_at p <= now <= pd_deadline p /\ pd_role p = Initiator /\
  verifying_key seed = pr_initiator (pd_pairing p) /\ strong_key (pr_initiator (pd_pairing p)) /\
  exists response, answers p response /\ raw = encode_packet response /\
    r = (session_of (pd_pairing p) Initiator (session_id sha256 response) now,
         packet_signed (set_kind CONFIRM response) seed).
Proof.
  intros Hb. unfold confirm. rewrite res_bind_Ok. split.
  - intros ([] & Ht%check_time_Ok & H). case_bool_decide as Hr; [done|]. cbn [orb] in H.
    case_bool_decide as Hs; [|done]. cbn [negb] in H.
    apply res_bind_Ok in H as (response & (Hw & Hk & ->)%decode_packet_iff & H); [|done].
    case_bool_decide as Hp; [|done]. case_bool_decide as Hi; [|done]. cbn [negb orb] in H.
    apply res_bind_Ok in H as ([] & [Hsr Hv]%packet_verify_Ok & H).
    apply res_bind_Ok in H as (s & (Hl & _ & ->)%establish_Ok & [= <-]). rewrite Hr in *.
    split_and!; try done; try apply Ht. exists response. by split_and!.
  - intros (Ht & Hr & Hs & Hl & response & (Hw & Hk & Hp & Hi & Hsr & Hv) & -> & ->).
    exists tt. split; [by apply check_time_Ok|]. rewrite bool_decide_false by (by rewrite Hr; intros []).
    rewrite bool_decide_true by done. cbn [negb orb]. apply res_bind_Ok. exists response.
    split; [by apply decode_packet_iff|]. rewrite !bool_decide_true by done. cbn [negb orb].
    apply res_bind_Ok. exists tt. split; [by apply packet_verify_Ok|]. apply res_bind_Ok.
    eexists. split; [|reflexivity]. apply establish_Ok. by rewrite Hr.
Qed.

(** A confirmation that the responder with this response accepts. *)
Definition confirms (p : Pending) (confirmation : Packet) : Prop :=
  packet_wire confirmation /\ pk_kind confirmation = CONFIRM /\
  pk_pairing confirmation = pk_pairing (pd_packet p) /\
  pk_initiator_nonce confirmation = pk_initiator_nonce (pd_packet p) /\
  pk_responder_nonce confirmation = pk_responder_nonce (pd_packet p) /\
  strong_key (pr_initiator (pd_pairing p)) /\
  verify_strict (pr_initiator (pd_pairing p)) (packet_transcript confirmation) (pk_signature confirmation) = true.

Lemma finish_Ok p raw now s : Forall byte raw ->
  finish sha256 p raw now = Ok s <->
  pd_started_at p <= now <= pd_deadline p /\ pd_role p = Responder /\
  strong_key (pr_responder (pd_pairing p)) /\
  exists confirmation, confirms p confirmation /\ raw = encode_packet confirmation /\
    s = session_of (pd_pairing p) Responder (session_id sha256 confirmation) now.
Proof.
  intros Hb. unfold finish. rewrite res_bind_Ok. split.
  - intros ([] & Ht%check_time_Ok & H). case_bool_decide as Hr; [done|].
    apply res_bind_Ok in H as (c & (Hw & Hk & ->)%decode_packet_iff & H); [|done].
    case_bool_decide as Hp; [|done]. case_bool_decide as Hi; [|done]. case_bool_decide as Hn; [|done].
    cbn [negb orb] in H. apply res_bind_Ok in H as ([] & [Hsr Hv]%packet_verify_Ok & H).
    apply establish_Ok in H as (Hl & _ & ->). rewrite Hr in *.
    split_and!; try done; try apply Ht. exists c. by split_and!.
  - intros (Ht & Hr & Hl & c & (Hw & Hk & Hp & Hi & Hn & Hsr & Hv) & -> & ->).
    exists tt. split; [by apply check_time_Ok|]. rewrite bool_decide_false by (by rewrite Hr; intros []).
    apply res_bind_Ok. exists c. split; [by apply decode_packet_iff|]. rewrite !bool_decide_true by done.
    cbn [negb orb]. apply res_bind_Ok. exists tt. split; [by apply packet_verify_Ok|].
    apply establish_Ok. by rewrite Hr.
Qed.

(** The session identifier does not depend on the kind or the signature. *)
Lemma session_id_eq p1 p2 : pk_pairing p1 = pk_pairing p2 ->
  pk_initiator_nonce p1 = pk_initiator_nonce p2 -> pk_responder_nonce p1 = pk_responder_nonce p2 ->
  session_id sha256 p1 = session_id sha256 p2.
Proof. intros Hp Hi Hr. unfold session_id, session_preimage. by rewrite Hp, Hi, Hr. Qed.

(** A packet that is decoded from its signed bytes. *)
Definition with_signature (p : Packet) (signature : list N) : Packet :=
  mkPacket (pk_kind p) (pk_pairing p) (pk_initiator_nonce p) (pk_responder_nonce p) signature.

Lemma packet_signed_eq p seed :
  packet_signed p seed = encode_packet (with_signature p (sign_bytes seed (packet_transcript p))).
Proof. done. Qed.
End Steps.
