(* ===== verification/ChatLink.v ===== *)
(** Chat sessions under any calls, and two of them connected. *)
From stdpp Require Import gmap sorting.
From S2P Require Import Prelude Bytes PrefixFree Wire Replay Signed Layout Invitation Session.
From S2P Require Import Handshake.

(** The chat session of [Session] after the handshake: its calls one by one,
    sequences of calls, and the delivery of messages between two linked
    sessions. *)

Inductive ChatCall : Type :=
| CallPrepare (body : list N) (now : N)
| CallReceive (raw : list N) (now : N)
| CallClose.

(** What a session gave out, and at which clock. *)
Inductive ChatEvent : Type :=
| Prepared (envelope : Envelope) (now : N)
| Received (evidence : VerifiedEnvelope) (now : N).

Definition event_now (e : ChatEvent) : N := match e with Prepared _ now | Received _ now => now end.
Definition prepared_sequence (e : ChatEvent) : option N :=
  match e with Prepared envelope _ => Some (env_sequence envelope) | _ => None end.
Definition received_sequence (e : ChatEvent) : option N :=
  match e with Received v _ => Some (env_sequence (ve_envelope v)) | _ => None end.
Definition prepared_sequences : list ChatEvent -> list N := omap prepared_sequence.
Definition received_sequences : list ChatEvent -> list N := omap received_sequence.

(** [start, start + 1, ...] *)
Fixpoint count_from (start : N) (n : nat) : list N :=
  match n with O => [] | S n => start :: count_from (start + 1) n end.

Section Chat.
Context (sha256 : list N -> list N) `{Hed : Ed25519}.

Definition chat_step (call : ChatCall) (s : ChatSession) : list ChatEvent * ChatSession :=
  match call with
  | CallPrepare body now =>
      let '(r, s') := prepare_chat sha256 body now s in
      (match r with Ok e => [Prepared e now] | _ => [] end, s')
  | CallReceive raw now =>
      let '(r, s') := receive_chat sha256 raw now s in
      (match r with Ok v => [Received v now] | _ => [] end, s')
  | CallClose => ([], close s)
  end.

Fixpoint chat_run (calls : list ChatCall) (s : ChatSession) : list ChatEvent * ChatSession :=
  match calls with
  | [] => ([], s)
  | call :: calls =>
      let '(es, s) := chat_step call s in
      let '(fs, s) := chat_run calls s in (es ++ fs, s)
  end.

(** ** The calls *)

(** The session may act at [now]. *)
Definition live (s : ChatSession) (now : N) : Prop :=
  cs_closed s = false /\ cs_last_now s <= now <= pr_expires_at (cs_pairing s).

Lemma check_live_Ok now s s' : check_live now s = (Ok tt, s') <-> live s now /\ s' = set_last_now now s.
Proof.
  unfold check_live, live, bind, get, throw, modify. destruct (cs_closed s); [split; [done|by intros [[? _] _]]|].
  destruct (N.ltb_spec now (cs_last_now s)); [split; [done|lia]|].
  destruct (N.ltb_spec (pr_expires_at (cs_pairing s)) now); [split; [done|lia]|].
  split; [by intros [= <-]|by intros [_ ->]].
Qed.

(** A refusal by the clock closes the session. *)
Lemma check_live_fails now s e s' : check_live now s = (Err e, s') ->
  s' = close s /\ (cs_closed s = true -> s' = s).
Proof.
  unfold check_live, bind, get, throw, modify. destruct s as [p k i o n l []]; cbn; [by intros [= <- <-]|].
  destruct (now <? l); [by intros [= <- <-]|]. by destruct (pr_expires_at p <? now); [intros [= <- <-]|].
Qed.

Lemma check_live_no_panic now s : fst (check_live now s) <> Panic.
Proof.
  unfold check_live, bind, get, throw, modify. destruct (cs_closed s); [done|].
  destruct (_ <? _); [done|]. by destruct (_ <? _).
Qed.

(** The envelope that carries [body] next. *)
Definition next_envelope (s : ChatSession) (body : list N) : Envelope :=
  let audience := vc_audience (rw_context (cs_inbound s)) in
  mkEnvelope KIND_CHAT audience (pr_realm (cs_pairing s)) (pr_room (cs_pairing s))
    (of_be (take 16 (sha256 (chat_event_preimage (vc_session (cs_outbound s)) audience (cs_next_sequence s)))))
    (cs_next_sequence s) body.

Lemma prepare_chat_Ok body now s e s' : prepare_chat sha256 body now s = (Ok e, s') <->
  live s now /\ len body <= MAX_SIGNED_BODY_BYTES /\ cs_next_sequence s + 1 < 2 ^ 64 /\
  e = next_envelope s body /\ s' = set_next (cs_next_sequence s + 1) (set_last_now now s).
Proof.
  unfold prepare_chat. rewrite bind_Ok. split.
  - intros ([] & s1 & [Hl ->]%check_live_Ok & H). destruct (N.ltb_spec MAX_SIGNED_BODY_BYTES (len body)); [done|].
    unfold bind, get, lift, modify, ret in H.
    cbn [cs_next_sequence cs_inbound cs_pairing cs_outbound set_last_now] in H.
    unfold checked_add in H.
    destruct (N.ltb_spec (cs_next_sequence s + 1) (2 ^ 64)); [|done]. cbn [ok_or] in H.
    unfold envelope_chat, envelope_new in H. destruct (_ || _); [done|].
    injection H as <- <-. done.
  - intros (Hl & Hb & Hn & -> & ->). exists tt, (set_last_now now s). split; [by apply check_live_Ok|].
    rewrite (proj2 (N.ltb_ge _ _)) by done. unfold bind, get, lift, modify, ret.
    cbn [cs_next_sequence cs_inbound cs_pairing cs_outbound set_last_now]. unfold checked_add.
    rewrite (proj2 (N.ltb_lt _ _)) by done. cbn [ok_or]. unfold envelope_chat, envelope_new.
    rewrite (proj2 (N.ltb_ge MAX_BODY_BYTES _)); [done|]. etrans; [exact Hb|]. by vm_compute.
Qed.

(** Evidence of a chat message that the session accepts at [now]. *)
Definition admits (s : ChatSession) (raw : list N) (now : N) (signed : SignedEnvelope) : Prop :=
  decode_signed raw = Ok signed /\ env_kind (se_envelope signed) = KIND_CHAT /\
  se_expires_at signed <= pr_expires_at (cs_pairing s) /\
  authentic sha256 (rw_context (cs_inbound s)) signed (cs_peer s) now.

Lemma receive_chat_Ok raw now s v s' : receive_chat sha256 raw now s = (Ok v, s') <->
  live s now /\ exists signed, admits s raw now signed /\
    fresh (cs_inbound s) (cs_peer s) (env_sequence (se_envelope signed)) /\
    v = evidence (cs_inbound s) signed (cs_peer s) /\
    s' = set_inbound (record_sequence (cs_inbound s) (cs_peer s) (env_sequence (se_envelope signed)))
           (set_last_now now s).
Proof.
  unfold receive_chat. rewrite bind_Ok. split.
  - intros ([] & s1 & [Hl ->]%check_live_Ok & H). split; [done|].
    apply bind_lift_Ok in H as (signed & Hd & H). destruct (decode_signed raw) as [sg|e|] eqn:Ed; [|done..].
    injection Hd as ->. destruct (N.eqb_spec (env_kind (se_envelope signed)) KIND_CHAT); [|done]. cbn [negb] in H.
    unfold bind at 1, get in H. cbn [cs_pairing set_last_now] in H.
    destruct (N.ltb_spec (pr_expires_at (cs_pairing s)) (se_expires_at signed)); [done|].
    unfold eff_map_err, zoom in H. cbn [cs_inbound cs_peer set_last_now] in H.
    destruct (verify_and_accept _ _ _ _ _) as [[v1|er|] w] eqn:Ev; [|done..]. injection H as <- <-.
    apply verify_and_accept_Ok in Ev as (Ha & Hf & -> & ->). by exists signed.
  - intros (Hl & signed & (Hd & Hk & He & Ha) & Hf & -> & ->). exists tt, (set_last_now now s).
    split; [by apply check_live_Ok|]. apply bind_lift_Ok. exists signed. rewrite Hd. split; [done|].
    rewrite Hk, N.eqb_refl. cbn [negb]. unfold bind at 1, get. cbn [cs_pairing set_last_now].
    rewrite (proj2 (N.ltb_ge _ _)) by done. unfold eff_map_err, zoom. cbn [cs_inbound cs_peer set_last_now].
    by rewrite (proj2 (verify_and_accept_Ok sha256 _ _ _ _ _ _) (conj Ha (conj Hf (conj eq_refl eq_refl)))).
Qed.

(** What no call changes. *)
Definition fixed (s : ChatSession) :=
  (cs_pairing s, cs_peer s, rw_context (cs_inbound s), rw_max_authors (cs_inbound s), cs_outbound s).

(** A refused call leaves everything but the clock, or closes the session. *)
Definition refused (s s' : ChatSession) (now : N) : Prop :=
  (live s now /\ s' = set_last_now now s) \/ (~ live s now /\ s' = close s).

Lemma close_closed s : cs_closed s = true -> close s = s.
Proof. by destruct s as [? ? ? ? ? ? []]. Qed.

Lemma check_live_split now s :
  (live s now /\ check_live now s = (Ok tt, set_last_now now s)) \/
  (~ live s now /\ exists e, check_live now s = (Err e, close s)).
Proof.
  destruct (check_live now s) as [[[]|e|] s'] eqn:E.
  - apply check_live_Ok in E as [Hl ->]. by left.
  - right. split; [|exists e; by apply check_live_fails in E as [-> _]].
    intros Hl. by rewrite (proj2 (check_live_Ok now s _) (conj Hl eq_refl)) in E.
  - by destruct (check_live_no_panic now s); rewrite E.
Qed.

Lemma prepare_chat_refused body now s r s' : prepare_chat sha256 body now s = (r, s') ->
  match r with Ok _ => True | Err _ => refused s s' now | Panic => False end.
Proof.
  unfold prepare_chat, bind at 1. destruct (check_live_split now s) as [[Hl ->]|[Hl [e ->]]].
  - unfold bind, get, lift, throw, modify, ret, ok_or. destruct (_ <? _); [intros [= <- <-]; by left|].
    destruct (checked_add _ _ _); [|intros [= <- <-]; by left].
    destruct (envelope_chat _ _ _ _ _ _); intros [= <- <-]; [done|by left].
  - intros [= <- <-]. by right.
Qed.

Lemma receive_chat_refused raw now s r s' : receive_chat sha256 raw now s = (r, s') ->
  match r with Ok _ => True | Err _ => refused s s' now | Panic => False end.
Proof.
  unfold receive_chat, bind at 1. destruct (check_live_split now s) as [[Hl ->]|[Hl [e ->]]].
  2: { intros [= <- <-]. by right. }
  unfold bind, get, lift, throw. pose proof (decode_signed_no_panic raw) as Hd.
  destruct (decode_signed raw) as [signed|e|]; [|intros [= <- <-]; by left|done]. cbn [map_err].
  destruct (negb _); [intros [= <- <-]; by left|]. case_match; [intros [= <- <-]; by left|].
  unfold eff_map_err, zoom. cbn [cs_inbound cs_peer set_last_now].
  pose proof (verify_no_panic sha256 signed (cs_peer s) now (cs_inbound s)) as Hp.
  destruct (verify_and_accept _ _ _ _ _) as [[v|e|] w] eqn:Ev; cbn [map_err]; intros [= <- <-]; [done| |done].
  apply verify_fails in Ev as ->. left. split; [done|]. by destruct s.
Qed.

(** ** Sequences of calls *)

Definition last_of (s : ChatSession) : option N := rw_last (cs_inbound s) !! cs_peer s.

(** Where an event comes from. *)
Definition accounted (s : ChatSession) (call : ChatCall) (e : ChatEvent) : Prop :=
  match e with
  | Prepared envelope now => exists body t, call = CallPrepare body now /\ fixed t = fixed s /\
      len body <= MAX_SIGNED_BODY_BYTES /\ envelope = next_envelope t body
  | Received v now => exists raw signed, call = CallReceive raw now /\ admits s raw now signed /\
      v = mkVerified (se_envelope signed) (cs_peer s) (rw_context (cs_inbound s)) (se_expires_at signed)
  end.

(** From [s] the session gives out [es] and becomes [s']. *)
Record chat_moves (s : ChatSession) (es : list ChatEvent) (s' : ChatSession) : Prop := {
  cm_fixed : fixed s' = fixed s;
  cm_now : cs_last_now s <= cs_last_now s';
  cm_closed : cs_closed s = true -> es = [] /\ cs_closed s' = true;
  cm_prepared : prepared_sequences es = count_from (cs_next_sequence s) (length (prepared_sequences es));
  cm_next : cs_next_sequence s' = cs_next_sequence s + len (prepared_sequences es);
  cm_last last : last_of s = Some last -> exists last', last_of s' = Some last' /\ last <= last' /\
    Forall (N.lt last) (received_sequences es);
  cm_received : Forall (fun q => exists last, last_of s' = Some last /\ q <= last) (received_sequences es);
  cm_increasing : StronglySorted N.lt (received_sequences es);
  cm_clocks : StronglySorted N.le (event_now <$> es);
  cm_in_time : Forall (fun e => cs_last_now s <= event_now e <= cs_last_now s' /\
    event_now e <= pr_expires_at (cs_pairing s)) es;
}.

Lemma count_from_app start n m :
  count_from start (n + m) = count_from start n ++ count_from (start + N.of_nat n) m.
Proof.
  revert start. induction n as [|n IH]; intros start; simpl; [by rewrite N.add_0_r|].
  rewrite IH. do 3 f_equal. lia.
Qed.

Lemma sorted_app {A} (R : A -> A -> Prop) l k : StronglySorted R l -> StronglySorted R k ->
  Forall (fun x => Forall (R x) k) l -> StronglySorted R (l ++ k).
Proof.
  induction 1 as [|x l Hl IH Hx]; intros Hk Hf; simpl; [done|]. apply Forall_cons in Hf as [Hxk Hf].
  constructor; [by apply IH|]. by apply Forall_app.
Qed.

Lemma chat_moves_app s es s1 fs s2 : chat_moves s es s1 -> chat_moves s1 fs s2 -> chat_moves s (es ++ fs) s2.
Proof.
  intros A B. pose proof (cm_fixed _ _ _ A) as Fx. unfold fixed in Fx. injection Fx as Hp _ _ _ _.
  pose proof (cm_now _ _ _ A). pose proof (cm_now _ _ _ B). split.
  - by rewrite (cm_fixed _ _ _ B), (cm_fixed _ _ _ A).
  - lia.
  - intros Hc. destruct (cm_closed _ _ _ A Hc) as [-> Hc1]. by apply (cm_closed _ _ _ B).
  - unfold prepared_sequences. rewrite omap_app, length_app, count_from_app.
    fold (prepared_sequences es) (prepared_sequences fs).
    rewrite <- (cm_prepared _ _ _ A). f_equal. change (N.of_nat (length (prepared_sequences es))) with
      (len (prepared_sequences es)). by rewrite <- (cm_next _ _ _ A), <- (cm_prepared _ _ _ B).
  - rewrite (cm_next _ _ _ B), (cm_next _ _ _ A). unfold prepared_sequences, len.
    rewrite omap_app, length_app. lia.
  - intros last (l1 & E1 & L1 & F1)%(cm_last _ _ _ A). destruct (cm_last _ _ _ B _ E1) as (l2 & E2 & L2 & F2).
    exists l2. split; [done|]. split; [lia|]. unfold received_sequences. rewrite omap_app. apply Forall_app.
    split; [done|]. eapply Forall_impl; [exact F2|]. intros x Hx. simpl in *. lia.
  - unfold received_sequences. rewrite omap_app. apply Forall_app. split; [|apply B].
    eapply Forall_impl; [apply (cm_received _ _ _ A)|]. intros q (last & E & Hq).
    destruct (cm_last _ _ _ B _ E) as (l2 & E2 & L2 & _). exists l2. split; [done|lia].
  - unfold received_sequences. rewrite omap_app. apply sorted_app; [apply A|apply B|].
    eapply Forall_impl; [apply (cm_received _ _ _ A)|]. intros q (last & E & Hq).
    destruct (cm_last _ _ _ B _ E) as (l2 & _ & _ & F). eapply Forall_impl; [exact F|]. intros x Hx. simpl in *. lia.
  - rewrite fmap_app. apply sorted_app; [apply A|apply B|]. apply Forall_fmap.
    eapply Forall_impl; [apply (cm_in_time _ _ _ A)|]. intros e He. apply Forall_fmap.
    eapply Forall_impl; [apply (cm_in_time _ _ _ B)|]. intros x Hx. simpl in *. lia.
  - apply Forall_app. split.
    + eapply Forall_impl; [apply (cm_in_time _ _ _ A)|]. intros x Hx. simpl in *. lia.
    + eapply Forall_impl; [apply (cm_in_time _ _ _ B)|]. intros x Hx. simpl in *. rewrite Hp in Hx. lia.
Qed.

(** A step without an event. *)
Lemma chat_moves_none s s' : fixed s' = fixed s -> cs_last_now s <= cs_last_now s' ->
  (cs_closed s = true -> cs_closed s' = true) -> cs_next_sequence s' = cs_next_sequence s ->
  last_of s' = last_of s -> chat_moves s [] s'.
Proof.
  intros Hf Hn Hc Hs Hl. split; try done; try apply SSorted_nil; try apply Forall_nil_2.
  - intros H. split; [done|by apply Hc].
  - unfold len. simpl. lia.
  - intros last E. exists last. rewrite Hl, E. split; [done|]. split; [lia|constructor].
Qed.

Lemma chat_moves_refused s s' now : refused s s' now -> chat_moves s [] s'.
Proof.
  intros [[[Hc Hn] ->]|[_ ->]]; apply chat_moves_none; try done; cbn; lia.
Qed.

Lemma chat_step_moves call s :
  let '(es, s') := chat_step call s in chat_moves s es s' /\ Forall (accounted s call) es.
Proof.
  destruct call as [body now|raw now|]; simpl.
  - destruct (prepare_chat sha256 body now s) as [[e|er|] s'] eqn:E.
    3: by apply prepare_chat_refused in E.
    2: { apply prepare_chat_refused in E. split; [by eapply chat_moves_refused|done]. }
    apply prepare_chat_Ok in E as ([Hc Hl] & Hb & Hn & -> & ->). split.
    + split; cbn; try done; [lia|by rewrite Hc| |constructor|by repeat constructor|].
      * intros last E. exists last. split; [done|]. split; [lia|constructor].
      * repeat constructor; simpl; lia.
    + constructor; [|done]. by exists body, s.
  - destruct (receive_chat sha256 raw now s) as [[v|er|] s'] eqn:E.
    3: by apply receive_chat_refused in E.
    2: { apply receive_chat_refused in E. split; [by eapply chat_moves_refused|done]. }
    apply receive_chat_Ok in E as ([Hc Hl] & signed & Ha & Hf & -> & ->). split.
    + assert (El : last_of (set_inbound (record_sequence (cs_inbound s) (cs_peer s)
        (env_sequence (se_envelope signed))) (set_last_now now s)) = Some (env_sequence (se_envelope signed)))
        by (unfold last_of; cbn; apply lookup_insert_eq).
      split; cbn; try done; [lia|by rewrite Hc|unfold len; simpl; lia| | |by repeat constructor|by repeat constructor|].
      * intros last E. exists (env_sequence (se_envelope signed)). split; [done|].
        unfold fresh in Hf. unfold last_of in E. rewrite E in Hf. split; [lia|by repeat constructor].
      * constructor; [|done]. eexists. split; [exact El|lia].
      * repeat constructor; simpl; lia.
    + constructor; [|done]. by exists raw, signed.
  - split; [by apply chat_moves_none|done].
Qed.

Lemma accounted_fixed s t call e : fixed t = fixed s -> accounted t call e -> accounted s call e.
Proof.
  intros Fx. destruct e as [envelope now|v now]; simpl.
  - intros (body & t0 & Hc & F0 & H). exists body, t0. by rewrite F0.
  - unfold fixed in Fx. injection Fx as Hp Hk Hx _ _. unfold admits. rewrite Hp, Hk, Hx. done.
Qed.

Lemma chat_run_moves calls s :
  let '(es, s') := chat_run calls s in
  chat_moves s es s' /\ Forall (fun e => exists call, call ∈ calls /\ accounted s call e) es.
Proof.
  revert s. induction calls as [|call calls IH]; intros s; cbn [chat_run].
  { split; [by apply chat_moves_none|constructor]. }
  pose proof (chat_step_moves call s) as H1. destruct (chat_step call s) as [es s1]. destruct H1 as [M1 A1].
  specialize (IH s1). destruct (chat_run calls s1) as [fs s2]. destruct IH as [M2 A2].
  split; [by eapply chat_moves_app|]. apply Forall_app. split.
  - eapply Forall_impl; [exact A1|]. intros e He. exists call. split; [left|done].
  - eapply Forall_impl; [exact A2|]. intros e (c & Hc & He). exists c. split; [by right|].
    eapply accounted_fixed; [|exact He]. apply (cm_fixed _ _ _ M1).
Qed.

(** A call that the clock refuses, and [close], close the session for good. *)
Lemma chat_run_app calls1 calls2 s :
  chat_run (calls1 ++ calls2) s =
  let '(es, s1) := chat_run calls1 s in let '(fs, s2) := chat_run calls2 s1 in (es ++ fs, s2).
Proof.
  revert s. induction calls1 as [|call calls1 IH]; intros s; simpl.
  - by destruct (chat_run calls2 s).
  - destruct (chat_step call s) as [es s1]. rewrite IH. destruct (chat_run calls1 s1) as [fs s2].
    destruct (chat_run calls2 s2) as [gs s3]. by rewrite app_assoc.
Qed.

Definition call_refused (s : ChatSession) (call : ChatCall) : Prop :=
  match call with CallPrepare _ now | CallReceive _ now => ~ live s now | CallClose => True end.

Lemma chat_step_closes call s : call_refused s call -> chat_step call s = ([], close s).
Proof.
  destruct call as [body now|raw now|]; simpl; [intros Hl|intros Hl|done].
  - destruct (prepare_chat sha256 body now s) as [[e|er|] s'] eqn:E.
    + by apply prepare_chat_Ok in E as (? & _).
    + apply prepare_chat_refused in E as [[? _]|[_ ->]]; done.
    + by apply prepare_chat_refused in E.
  - destruct (receive_chat sha256 raw now s) as [[v|er|] s'] eqn:E.
    + by apply receive_chat_Ok in E as (? & _).
    + apply receive_chat_refused in E as [[? _]|[_ ->]]; done.
    + by apply receive_chat_refused in E.
Qed.

Lemma chat_run_closed calls s : cs_closed s = true -> chat_run calls s = ([], s).
Proof.
  intros Hc. induction calls as [|call calls IH]; simpl; [done|]. rewrite chat_step_closes.
  - rewrite (close_closed s Hc). by rewrite IH.
  - destruct call; simpl; unfold live; rewrite ?Hc; try done; by intros [? _].
Qed.
End Chat.

(** Two chat sessions of one handshake: the messages one prepares and its key
    holder signs are received by the other. *)

Section Link.
Context (sha256 : list N -> list N) `{Hed : Ed25519}.

(** What the holder of [seed] does with a message: prepare it in its session,
    sign the envelope until the pairing expires, and send the encoding to the
    session of the peer. *)
Definition deliver (seed body : list N) (now : N) (a b : ChatSession)
    : option (VerifiedEnvelope * ChatSession * ChatSession) :=
  match prepare_chat sha256 body now a with
  | (Ok envelope, a') =>
      let c := cs_outbound a' in
      match sign sha256 envelope (vc_audience c) (vc_epoch c) (vc_session c)
              (pr_expires_at (cs_pairing a')) seed with
      | Ok signed =>
          match encode_signed signed with
          | Ok raw =>
              match receive_chat sha256 raw now b with
              | (Ok v, b') => Some (v, a', b')
              | _ => None
              end
          | _ => None
          end
      | _ => None
      end
  | _ => None
  end.

(** A conversation: who speaks, what and when. *)
Definition Message : Type := Role * list N * N.

Fixpoint converse (seed_i seed_r : list N) (messages : list Message) (i r : ChatSession)
    : option (list (list N)) :=
  match messages with
  | [] => Some []
  | (Initiator, body, now) :: messages =>
      '(v, i, r) ← deliver seed_i body now i r;
      heard ← converse seed_i seed_r messages i r;
      Some (env_body (ve_envelope v) :: heard)
  | (Responder, body, now) :: messages =>
      '(v, r, i) ← deliver seed_r body now r i;
      heard ← converse seed_i seed_r messages i r;
      Some (env_body (ve_envelope v) :: heard)
  end.

Definition context_wire (c : VerificationContext) : Prop :=
  u 128 (vc_audience c) /\ u 128 (vc_realm c) /\ u 128 (vc_room c) /\ u 64 (vc_epoch c) /\
  u 128 (vc_session c).

(** [a], held by the holder of [seed], sends to [b]. *)
Record linked (seed : list N) (a b : ChatSession) : Prop := {
  lk_key : verifying_key seed = cs_peer b;
  lk_strong : is_weak (cs_peer b) = false;
  lk_pairing : cs_pairing a = cs_pairing b;
  lk_outbound : cs_outbound a = rw_context (cs_inbound b);
  lk_author : vc_audience (rw_context (cs_inbound a)) = peer_id_from_key sha256 (cs_peer b);
  lk_author_wire : u 128 (vc_audience (rw_context (cs_inbound a)));
  lk_wire : context_wire (cs_outbound a);
  lk_names : vc_realm (cs_outbound a) = pr_realm (cs_pairing a) /\
    vc_room (cs_outbound a) = pr_room (cs_pairing a);
  lk_expires : u 64 (pr_expires_at (cs_pairing a));
  lk_fresh sequence : cs_next_sequence a <= sequence -> fresh (cs_inbound b) (cs_peer b) sequence;
  lk_open : cs_closed a = false /\ cs_closed b = false;
}.

Definition chat_body (body : list N) : Prop := Forall byte body /\ len body <= MAX_SIGNED_BODY_BYTES.

Section Honest.
Context {Hlaws : Ed25519Laws Hed} {Hsha : Sha256 sha256}.

Lemma digest_id_wire l : u 128 (of_be (take 16 (sha256 l))).
Proof.
  destruct (sha256_wire (sha256 := sha256) l) as [Hb Hl]. apply (of_be_width 16); [by apply Forall_take| |done].
  by rewrite length_take, Hl.
Qed.

Lemma next_envelope_ok seed a b body : linked seed a b -> chat_body body -> u 64 (cs_next_sequence a) ->
  envelope_ok (next_envelope sha256 a body).
Proof.
  intros [_ _ _ _ _ Haw (? & ? & ? & ? & ?) [Hr Hro] _ _ _] [Hb Hl] Hn.
  split; cbn; rewrite <- ?Hr, <- ?Hro; try done.
  - apply digest_id_wire.
  - split; [done|]. cbn. etrans; [exact Hl|]. by vm_compute.
Qed.

(** One message gets through, and the link stays. *)
Lemma deliver_linked seed a b body now :
  linked seed a b -> chat_body body -> cs_next_sequence a + 1 < 2 ^ 64 ->
  cs_last_now a <= now -> cs_last_now b <= now -> now <= pr_expires_at (cs_pairing a) ->
  exists v a' b', deliver seed body now a b = Some (v, a', b') /\
    env_body (ve_envelope v) = body /\ ve_signer_key v = cs_peer b /\ linked seed a' b' /\
    cs_last_now a' = now /\ cs_last_now b' = now /\ cs_pairing a' = cs_pairing a /\ cs_pairing b' = cs_pairing b /\
    cs_next_sequence a' = cs_next_sequence a + 1 /\ cs_next_sequence b' = cs_next_sequence b /\
    (forall seed', linked seed' b a -> linked seed' b' a').
Proof.
  intros Hl Hbody Hn Ha Hb He. pose proof (next_envelope_ok _ _ _ _ Hl Hbody ltac:(unfold u; lia)) as Hok.
  destruct Hl as [Hkey Hstrong Hpair Hout Hauth Haw Hw [Hr Hro] Hx Hf [Hoa Hob]].
  set (e := next_envelope sha256 a body) in *. set (a' := set_next (cs_next_sequence a + 1) (set_last_now now a)).
  assert (Hprep : prepare_chat sha256 body now a = (Ok e, a')).
  { apply prepare_chat_Ok. split; [by split|]. by split; [apply Hbody|]. }
  unfold deliver. rewrite Hprep. set (c := cs_outbound a'). change (cs_outbound a') with (cs_outbound a) in c.
  set (x := pr_expires_at (cs_pairing a')). change (pr_expires_at (cs_pairing a')) with (pr_expires_at (cs_pairing a)) in x.
  assert (Hsize : encoded_len e <= MAX_SIGNED_BYTES - SIGNED_OVERHEAD_BYTES).
  { unfold encoded_len. destruct Hbody as [_ Hlen]. cbn [env_body next_envelope e].
    unfold MAX_SIGNED_BODY_BYTES, HEADER_BYTES in *. change (MAX_SIGNED_BYTES - SIGNED_OVERHEAD_BYTES) with 65419 in *. lia. }
  set (signed := mkSigned e (vc_audience c) (vc_epoch c) (vc_session c) x
    (sign_bytes seed (signed_bytes (mkSigned e (vc_audience c) (vc_epoch c) (vc_session c) x [])))).
  assert (Hsign : sign sha256 e (vc_audience c) (vc_epoch c) (vc_session c) x seed = Ok signed).
  { apply sign_Ok. split; [done|]. split; [|done]. cbn. unfold peer_id_from_seed. by rewrite Hkey. }
  rewrite Hsign. pose proof Hw as (? & ? & ? & ? & ?).
  assert (Hsok : signed_ok signed) by (by eapply sign_ok).
  pose proof (sign_authentic sha256 _ _ _ _ _ _ _ now Hsign) as Hau. rewrite Hkey in Hau.
  specialize (Hau Hstrong He).
  assert (Hctx : signed_context signed = rw_context (cs_inbound b)).
  { rewrite <- Hout. unfold signed_context. cbn. rewrite <- Hr, <- Hro. by destruct (cs_outbound a). }
  rewrite Hctx in Hau. rewrite (proj2 (encode_signed_Ok signed _) (conj Hsize eq_refl)).
  set (b' := set_inbound (record_sequence (cs_inbound b) (cs_peer b) (cs_next_sequence a)) (set_last_now now b)).
  assert (Hrecv : receive_chat sha256 (signed_frame signed) now b =
    (Ok (evidence (cs_inbound b) signed (cs_peer b)), b')).
  { apply receive_chat_Ok. split; [by split; [|rewrite <- Hpair]|]. exists signed. split.
    { split; [by apply decode_frame|]. split; [done|]. split; [|done]. cbn. unfold x. rewrite Hpair. lia. }
    split; [|done]. cbn. apply Hf. lia. }
  rewrite Hrecv. exists (evidence (cs_inbound b) signed (cs_peer b)), a', b'.
  split_and!; try done.
  - split; try done. intros q Hq. unfold fresh. cbn in *. rewrite lookup_insert_eq. lia.
  - intros seed' [K1 K2 K3 K4 K5 K6 K7 K8 K9 K10 K11]. split; try done.
Qed.
End Honest.
End Link.
