(* ===== verification/SessionClaims.v ===== *)
(** Properties of invitations, of the handshake and of chat sessions
    ([Invitation], [Session]). *)
From stdpp Require Import gmap sorting.
From S2P Require Import Prelude Bytes PrefixFree Wire Signed Replay Layout Invitation Session Handshake ChatLink.

(** ** Conversations *)

Definition body_of (m : Message) : list N := m.1.2.

(** Bodies that fit, at clocks that do not run backwards. *)
Fixpoint timely (start limit : N) (messages : list Message) : Prop :=
  match messages with
  | [] => True
  | (_, body, now) :: messages => chat_body body /\ start <= now <= limit /\ timely now limit messages
  end.

Section Conversation.
Context (sha256 : list N -> list N) `{Hed : Ed25519} {Hlaws : Ed25519Laws Hed} {Hsha : Sha256 sha256}.

Lemma converse_linked seed_i seed_r messages i r start :
  linked sha256 seed_i i r -> linked sha256 seed_r r i ->
  cs_last_now i <= start -> cs_last_now r <= start -> timely start (pr_expires_at (cs_pairing i)) messages ->
  cs_next_sequence i + len messages < 2 ^ 64 -> cs_next_sequence r + len messages < 2 ^ 64 ->
  converse sha256 seed_i seed_r messages i r = Some (body_of <$> messages).
Proof.
  revert i r start. induction messages as [|[[role body] now] messages IH]; intros i r start Hi Hr Ni Nr Ht Si Sr; [done|].
  destruct Ht as (Hb & [Hs He] & Ht). unfold len in Si, Sr. rewrite length_cons, Nat2N.inj_succ in Si, Sr.
  pose proof (lk_pairing _ _ _ _ Hi) as Hp. unfold len in IH. cbn [converse]. destruct role.
  - destruct (deliver_linked sha256 seed_i i r body now Hi Hb) as
      (v & i' & r' & -> & Ev & _ & Hi' & Ti & Tr & Pi & Pr & Qi & Qr & Hback); [lia..|].
    cbn [mbind option_bind]. rewrite (IH i' r' now); [csimpl; by rewrite Ev|done|by apply Hback|lia|lia| |lia|lia].
    by rewrite Pi.
  - destruct (deliver_linked sha256 seed_r r i body now Hr Hb) as
      (v & r' & i' & -> & Ev & _ & Hr' & Tr & Ti & Pr & Pi & Qr & Qi & Hback); [lia|lia|lia|by rewrite <- Hp|].
    cbn [mbind option_bind]. rewrite (IH i' r' now); [csimpl; by rewrite Ev|by apply Hback|done|lia|lia| |lia|lia].
    by rewrite Pi.
Qed.

(** ** The honest handshake *)

(** Two peers that pinned each other and hold the keys of their roles. *)
Record paired (p : Pairing) (seed_i seed_r : list N) : Prop := {
  pa_initiator : plays p Initiator seed_i (pr_initiator_transport p) (pr_responder_transport p);
  pa_responder : plays p Responder seed_r (pr_responder_transport p) (pr_initiator_transport p);
  pa_wire : pairing_wire p;
}.

Lemma pairing_digest_wire p : hash_wire (pairing_digest sha256 p).
Proof. exact (sha256_wire _). Qed.

Lemma verify_signed seed message : strong_key (verifying_key seed) ->
  verify_strict (verifying_key seed) message (sign_bytes seed message) = true.
Proof. intros [_ Hw]. by apply verify_sign. Qed.

(** The two sessions of one identifier are linked, in both directions. *)
Lemma sessions_linked p seed_i seed_r sid ti tr : paired p seed_i seed_r -> u 128 sid ->
  linked sha256 seed_i (session_of sha256 p Initiator sid ti) (session_of sha256 p Responder sid tr) /\
  linked sha256 seed_r (session_of sha256 p Responder sid tr) (session_of sha256 p Initiator sid ti).
Proof.
  intros [[_ Hi Hr _ _ Ki _] [_ _ _ _ _ Kr _] (? & ? & ? & ? & ? & ? & ? & ?)] Hs.
  pose proof (digest_id_wire sha256) as Hid. cbn in Ki, Kr.
  split; split; try done; try apply Hi; try apply Hr; try (intros q _; unfold fresh; cbn; by rewrite lookup_empty).
  all: try apply Hid; split_and!; first [apply Hid|done].
Qed.

Lemma hello_wire p nonce seed : hash_wire nonce -> nonce <> zero_nonce ->
  packet_wire (with_signature (hello_packet sha256 p nonce) (sign_bytes seed (packet_transcript (hello_packet sha256 p nonce)))).
Proof.
  intros Hn Hz. split; cbn; try done; [apply pairing_digest_wire| |apply sign_bytes_wire].
  split; [exact zero_nonce_wire|done].
Qed.

Lemma response_wire q nonce seed : packet_wire q -> hash_wire nonce -> nonce <> zero_nonce ->
  packet_wire (with_signature (response_packet q nonce) (sign_bytes seed (packet_transcript (response_packet q nonce)))).
Proof.
  intros [_ Hp Hi _ _] Hn Hz. split; cbn; try done. apply sign_bytes_wire.
Qed.

Lemma confirmation_wire q seed : packet_wire q -> pk_kind q = RESPONSE ->
  packet_wire (with_signature (set_kind CONFIRM q) (sign_bytes seed (packet_transcript (set_kind CONFIRM q)))).
Proof.
  intros [_ Hp Hi [Hr Hz] _] Hk. split; cbn; try done; [|apply sign_bytes_wire]. split; [done|].
  rewrite Hz, Hk. done.
Qed.

Lemma packet_bytes q : packet_wire q -> Forall byte (encode_packet q).
Proof.
  intros [Hk [Hp _] [[Hi _] _] [[Hr _] _] [Hs _]]. rewrite encode_packet_fields. unfold packet_fields, carried_nonce.
  cbn [concat]. apply byte_u in Hk. assert (Hm : Forall byte HANDSHAKE_MAGIC).
  { vm_compute. repeat (constructor; [reflexivity|]). constructor. }
  assert (Hc : Forall byte (if pk_kind q =? HELLO then [] else pk_responder_nonce q)) by (by case_match).
  rewrite !Forall_app. split_and!; try done. by apply Forall_singleton.
Qed.
End Conversation.

(** C16. Two paired peers that follow the protocol reach linked sessions and can
    talk: all four steps of the handshake succeed, each session expects what
    the other sends, and every message of any later conversation, from either
    side, is prepared, signed, received and read as it was written. *)
Theorem paired_peers_converse sha256 (Hed : Ed25519) (Hlaws : Ed25519Laws Hed) (Hsha : Sha256 sha256)
    p seed_i seed_r nonce_i nonce_r t1 d1 t2 d2 t3 t4 messages :
  paired p seed_i seed_r ->
  hash_wire nonce_i /\ nonce_i <> zero_nonce /\ hash_wire nonce_r /\ nonce_r <> zero_nonce ->
  in_time p t1 d1 /\ in_time p t2 d2 ->
  t1 <= t3 <= N.min d1 (pr_expires_at p) /\ t2 <= t4 <= N.min d2 (pr_expires_at p) ->
  timely (N.max t3 t4) (pr_expires_at p) messages -> 1 + len messages < 2 ^ 64 ->
  let ti := pr_initiator_transport p in
  let tr := pr_responder_transport p in
  exists pi hello pr response i confirmation r,
    initiate sha256 p seed_i ti tr nonce_i t1 d1 = Ok (pi, hello) /\
    respond sha256 p seed_r tr ti hello nonce_r t2 d2 = Ok (pr, response) /\
    confirm sha256 pi response seed_i t3 = Ok (i, confirmation) /\
    finish sha256 pr confirmation t4 = Ok r /\
    cs_outbound i = rw_context (cs_inbound r) /\ cs_outbound r = rw_context (cs_inbound i) /\
    converse sha256 seed_i seed_r messages i r = Some (body_of <$> messages).
Proof.
  cbv zeta. intros Hp (Hni & Zi & Hnr & Zr) [T1 T2] [T3 T4] Ht Hs. pose proof Hp as [PI PR Hw].
  pose proof (pl_initiator _ _ _ _ _ PI) as SI. pose proof (pl_responder _ _ _ _ _ PI) as SR.
  pose proof (pl_local _ _ _ _ _ PI) as LI. pose proof (pl_local _ _ _ _ _ PR) as LR. cbn in LI, LR.
  assert (VI : forall m, verify_strict (pr_initiator p) m (sign_bytes seed_i m) = true)
    by (intros m; rewrite <- LI; apply verify_signed; by rewrite LI).
  assert (VR : forall m, verify_strict (pr_responder p) m (sign_bytes seed_r m) = true)
    by (intros m; rewrite <- LR; apply verify_signed; by rewrite LR).
  set (q1 := hello_packet sha256 p nonce_i). set (h1 := with_signature q1 (sign_bytes seed_i (packet_transcript q1))).
  pose proof (hello_wire sha256 p nonce_i seed_i Hni Zi) as W1.
  set (q2 := response_packet h1 nonce_r). set (h2 := with_signature q2 (sign_bytes seed_r (packet_transcript q2))).
  pose proof (response_wire h1 nonce_r seed_r W1 Hnr Zr) as W2.
  set (q3 := set_kind CONFIRM h2). set (h3 := with_signature q3 (sign_bytes seed_i (packet_transcript q3))).
  pose proof (confirmation_wire h2 seed_i W2 eq_refl) as W3.
  exists (mkPending p Initiator q1 t1 (N.min d1 (pr_expires_at p))), (encode_packet h1),
    (mkPending p Responder q2 t2 (N.min d2 (pr_expires_at p))), (encode_packet h2),
    (session_of sha256 p Initiator (session_id sha256 h2) t3), (encode_packet h3),
    (session_of sha256 p Responder (session_id sha256 h2) t4).
  destruct (sessions_linked sha256 p seed_i seed_r (session_id sha256 h2) t3 t4 Hp (digest_id_wire sha256 _)) as [Li Lr].
  split_and!.
  - by apply initiate_Ok.
  - apply respond_Ok; [by apply packet_bytes|]. split_and!; try done. exists h1. split; [|done]. split_and!; try done.
  - apply confirm_Ok; [by apply packet_bytes|]. split_and!; try done; [apply T3..|]. exists h2. split; [|done].
    split_and!; try done.
  - apply finish_Ok; [by apply packet_bytes|]. split_and!; try done; [apply T4..|]. exists h3. split; [|done].
    split_and!; try done.
  - apply Li.
  - apply Lr.
  - apply (converse_linked sha256 seed_i seed_r messages _ _ (N.max t3 t4) Li Lr); cbn; first [done|lia].
Qed.

(** ** Toy values *)

Definition toy_key (n : N) : list N := verifying_key (Ed25519 := toy_ed25519) (replicate 32 n).
Definition toy_pairing : Pairing := mkPairing (toy_key 1) (toy_key 2) (toy_key 3) (toy_key 4) 5 6 7 100.
Definition toy_conversation : list Message :=
  [(Initiator, [104; 105], 12); (Responder, [121; 111], 12); (Initiator, [98; 121; 101], 99)].

Lemma toy_paired : paired (Hed := toy_ed25519) toy_pairing (replicate 32 1) (replicate 32 2).
Proof.
  split; [split; first [by vm_compute|split; by vm_compute]|split; first [by vm_compute|split; by vm_compute]|].
  split_and!; first [apply (verifying_key_wire (Ed25519Laws := toy_laws))|by vm_compute].
Qed.

Lemma paired_peers_converse_witness :
  exists i r, converse (Hed := toy_ed25519) poly_hash (replicate 32 1) (replicate 32 2) toy_conversation i r =
    Some [[104; 105]; [121; 111]; [98; 121; 101]].
Proof.
  destruct (paired_peers_converse poly_hash toy_ed25519 toy_laws poly_hash_sha256 toy_pairing
    (replicate 32 1) (replicate 32 2) (replicate 32 8) (replicate 32 9) 10 20 10 20 11 11 toy_conversation
    toy_paired) as (pi & hello & pr & response & i & confirmation & r & _ & _ & _ & _ & _ & _ & E).
  - split_and!; first [split; [by apply Forall_replicate|done]|by vm_compute].
  - split; by vm_compute.
  - split; split; by vm_compute.
  - cbn. unfold chat_body. split_and!; first [by repeat constructor|by vm_compute].
  - by vm_compute.
  - exists i, r. exact E.
Defined.

(** ** Agreement *)

Section Agreement.
Context (sha256 : list N -> list N) `{Hed : Ed25519}.

(** Handshakes of any number of peers whose messages an adversary delivers: it
    picks every call, with any bytes.  [confirm] and [finish] take their pending
    handshake by value, so a run, once tried, is spent. *)
Inductive HandshakeCall : Type :=
| CallInitiate (p : Pairing) (seed observed_local observed_remote nonce : list N) (now deadline : N)
| CallRespond (p : Pairing) (seed observed_local observed_remote hello nonce : list N) (now deadline : N)
| CallConfirm (run : nat) (response seed : list N) (now : N)
| CallFinish (run : nat) (confirmation : list N) (now : N).

(** A call that succeeded, with what it was given and what it returned. *)
Inductive HandshakeEvent : Type :=
| Initiated (run : nat) (seed : list N) (pd : Pending) (hello : list N)
| Responded (run : nat) (seed hello : list N) (pd : Pending) (response : list N)
| Confirmed (run : nat) (seed response : list N) (pd : Pending) (s : ChatSession) (confirmation : list N)
| Finished (run : nat) (pd : Pending) (confirmation : list N) (s : ChatSession).

Record HandshakeWorld : Type := mkHandshakeWorld { hw_runs : list (option Pending); hw_log : list HandshakeEvent }.

Definition start_run (event : nat -> Pending -> list N -> HandshakeEvent)
    (result : res Reject (Pending * list N)) (w : HandshakeWorld) : HandshakeWorld :=
  match result with
  | Ok (pd, message) => mkHandshakeWorld (hw_runs w ++ [Some pd]) (hw_log w ++ [event (length (hw_runs w)) pd message])
  | _ => w
  end.

Definition close_run {A} (event : A -> HandshakeEvent) (run : nat) (result : res Reject A)
    (w : HandshakeWorld) : HandshakeWorld :=
  let runs := <[run := None]> (hw_runs w) in
  match result with
  | Ok a => mkHandshakeWorld runs (hw_log w ++ [event a])
  | _ => mkHandshakeWorld runs (hw_log w)
  end.

Definition handshake_step (w : HandshakeWorld) (call : HandshakeCall) : HandshakeWorld :=
  match call with
  | CallInitiate p seed ol or nonce now deadline =>
      start_run (fun run => Initiated run seed) (initiate sha256 p seed ol or nonce now deadline) w
  | CallRespond p seed ol or hello nonce now deadline =>
      start_run (fun run => Responded run seed hello) (respond sha256 p seed ol or hello nonce now deadline) w
  | CallConfirm run response seed now =>
      match hw_runs w !! run with
      | Some (Some pd) => close_run (fun r => Confirmed run seed response pd r.1 r.2) run (confirm sha256 pd response seed now) w
      | _ => w
      end
  | CallFinish run confirmation now =>
      match hw_runs w !! run with
      | Some (Some pd) => close_run (Finished run pd confirmation) run (finish sha256 pd confirmation now) w
      | _ => w
      end
  end.

Definition handshake_run (calls : list HandshakeCall) : HandshakeWorld :=
  foldl handshake_step (mkHandshakeWorld [] []) calls.

Definition handshake_call_wire (call : HandshakeCall) : Prop :=
  match call with
  | CallInitiate p _ _ _ nonce _ _ => pairing_wire p /\ hash_wire nonce
  | CallRespond p _ _ _ hello nonce _ _ => pairing_wire p /\ Forall byte hello /\ hash_wire nonce
  | CallConfirm _ response _ _ => Forall byte response
  | CallFinish _ confirmation _ => Forall byte confirmation
  end.

(** The run and the pending handshake that an event creates, and the run it ends. *)
Definition event_starts (e : HandshakeEvent) : option (nat * Pending) :=
  match e with
  | Initiated run _ pd _ | Responded run _ _ pd _ => Some (run, pd)
  | _ => None
  end.
Definition event_closes (e : HandshakeEvent) : option nat :=
  match e with
  | Confirmed run _ _ _ _ _ | Finished run _ _ _ => Some run
  | _ => None
  end.

(** The message of an event and the key of the peer that signed it. *)
Definition event_message (e : HandshakeEvent) : option (list N * list N) :=
  match e with
  | Initiated _ seed _ message | Responded _ seed _ _ message | Confirmed _ seed _ _ _ message =>
      Some (verifying_key seed, message)
  | Finished _ _ _ _ => None
  end.

Definition unsigned_part (raw : list N) : list N := take (length raw - 64) raw.
Definition signature_part (raw : list N) : list N := drop (length raw - 64) raw.

(** A forgery, found among the bytes that were delivered: a signature that
    verifies with [key] over a message which no holder of [key] sent. *)
Definition forged (key : list N) (log : list HandshakeEvent) (raw : list N) : Prop :=
  verify_strict key (HANDSHAKE_DOMAIN ++ unsigned_part raw) (signature_part raw) = true /\
  (key, unsigned_part raw) ∉ prod_map id unsigned_part <$> omap event_message log.

(** Equal digests of different pairings. *)
Definition digest_collision (p1 p2 : Pairing) : Prop :=
  pairing_preimage p1 <> pairing_preimage p2 /\ pairing_digest sha256 p1 = pairing_digest sha256 p2.

Lemma digest_same p1 p2 : pairing_wire p1 -> pairing_wire p2 ->
  pairing_digest sha256 p1 = pairing_digest sha256 p2 -> p1 = p2 \/ digest_collision p1 p2.
Proof.
  intros H1 H2 E. destruct (decide (pairing_preimage p1 = pairing_preimage p2)) as [Ep|Hn]; [left|by right].
  by apply pairing_preimage_inj.
Qed.

(** Two packets of one run: they carry the same digest and nonces. *)
Definition same_run (q1 q2 : Packet) : Prop :=
  pk_pairing q1 = pk_pairing q2 /\ pk_initiator_nonce q1 = pk_initiator_nonce q2 /\
  pk_responder_nonce q1 = pk_responder_nonce q2.

(** *** What the log of a world records *)

Record pending_ok (pd : Pending) : Prop := {
  po_pairing : pairing_wire (pd_pairing pd);
  po_packet : packet_wire (pd_packet pd);
  po_digest : pk_pairing (pd_packet pd) = pairing_digest sha256 (pd_pairing pd);
  po_kind : pk_kind (pd_packet pd) = match pd_role pd with Initiator => HELLO | Responder => RESPONSE end;
}.

(** [run] is a run of the log with this pending handshake, and nothing ended it. *)
Definition open_in (log : list HandshakeEvent) (run : nat) (pd : Pending) : Prop :=
  (exists e, e ∈ log /\ event_starts e = Some (run, pd)) /\ forall e, e ∈ log -> event_closes e <> Some run.

Definition event_ok (before : list HandshakeEvent) (e : HandshakeEvent) : Prop :=
  match e with
  | Initiated run seed pd hello => pending_ok pd /\ pd_role pd = Initiator /\
      verifying_key seed = pr_initiator (pd_pairing pd) /\ hello = packet_signed (pd_packet pd) seed
  | Responded run seed hello pd response => pending_ok pd /\ pd_role pd = Responder /\
      verifying_key seed = pr_responder (pd_pairing pd) /\ response = packet_signed (pd_packet pd) seed /\
      exists q, greets sha256 (pd_pairing pd) q /\ hello = encode_packet q /\
        pk_initiator_nonce q = pk_initiator_nonce (pd_packet pd)
  | Confirmed run seed response pd s confirmation => open_in before run pd /\ pending_ok pd /\ pd_role pd = Initiator /\
      verifying_key seed = pr_initiator (pd_pairing pd) /\
      exists q now, answers pd q /\ response = encode_packet q /\
        s = session_of sha256 (pd_pairing pd) Initiator (session_id sha256 q) now /\
        confirmation = packet_signed (set_kind CONFIRM q) seed
  | Finished run pd confirmation s => open_in before run pd /\ pending_ok pd /\ pd_role pd = Responder /\
      exists q now, confirms pd q /\ confirmation = encode_packet q /\
        s = session_of sha256 (pd_pairing pd) Responder (session_id sha256 q) now
  end.

Definition log_ok (log : list HandshakeEvent) : Prop :=
  forall before e after, log = before ++ e :: after -> event_ok before e.

Record world_ok (w : HandshakeWorld) : Prop := {
  wo_log : log_ok (hw_log w);
  wo_runs run pd : hw_runs w !! run = Some (Some pd) -> open_in (hw_log w) run pd /\ pending_ok pd;
  wo_closed e run : e ∈ hw_log w -> event_closes e = Some run -> (run < length (hw_runs w))%nat;
}.

Lemma handshake_log_snoc log e : log_ok log -> event_ok log e -> log_ok (log ++ [e]).
Proof.
  intros Hl He before e' after E. destruct after as [|x after _] using rev_ind.
  - apply app_inj_tail in E as [-> ->]. done.
  - rewrite app_comm_cons, app_assoc in E. apply app_inj_tail in E as [E _]. by eapply Hl.
Qed.

Lemma open_in_weaken log run pd e : open_in log run pd -> event_closes e <> Some run -> open_in (log ++ [e]) run pd.
Proof.
  intros [(e0 & H0 & Hs) Hc] He. split.
  - exists e0. split; [|done]. apply elem_of_app. by left.
  - intros e' [H'| ->%list_elem_of_singleton]%elem_of_app; [by apply Hc|done].
Qed.

Context {Hlaws : Ed25519Laws Hed} {Hsha : Sha256 sha256}.

Lemma packet_signed_wire q seed : packet_wire q ->
  packet_wire (with_signature q (sign_bytes seed (packet_transcript q))).
Proof. intros []. split; try done. apply sign_bytes_wire. Qed.

Lemma blank_signature : sig_wire (replicate 64 0).
Proof. split; [by apply Forall_replicate|done]. Qed.

Lemma hello_packet_wire p nonce : hash_wire nonce -> nonce <> zero_nonce -> packet_wire (hello_packet sha256 p nonce).
Proof.
  intros Hn Hz. split; cbn; try done; [exact (sha256_wire _)| |exact blank_signature].
  split; [exact zero_nonce_wire|done].
Qed.

Lemma response_packet_wire q nonce : packet_wire q -> hash_wire nonce -> nonce <> zero_nonce ->
  packet_wire (response_packet q nonce).
Proof. intros [_ Hp Hi _ Hs] Hn Hz. by split. Qed.

Lemma confirm_packet_wire q : packet_wire q -> pk_kind q = RESPONSE -> packet_wire (set_kind CONFIRM q).
Proof. intros [_ Hp Hi [Hr Hz] Hs] Hk. split; cbn; try done. split; [done|]. by rewrite Hz, Hk. Qed.

(** A new run keeps a sound world sound. *)
Lemma start_run_ok event result w : world_ok w ->
  (forall run pd message, event_starts (event run pd message) = Some (run, pd)) ->
  (forall pd message, result = Ok (pd, message) ->
     pending_ok pd /\ forall before run, event_ok before (event run pd message)) ->
  world_ok (start_run event result w).
Proof.
  intros [Hl Hr Hc] Hs Hok. unfold start_run. destruct result as [[pd m]|e|]; [|by split..].
  destruct (Hok pd m eq_refl) as [Hpd Hev].
  assert (Hn : event_closes (event (length (hw_runs w)) pd m) = None).
  { specialize (Hs (length (hw_runs w)) pd m). by destruct (event _ _ _). }
  split; cbn [hw_log hw_runs].
  - apply handshake_log_snoc; [done|apply Hev].
  - intros run pd'. destruct (decide (run = length (hw_runs w))) as [->|Hne].
    + rewrite lookup_app_r, Nat.sub_diag by done. cbn. intros [= <-]. split; [|done]. split.
      * eexists. split; [apply elem_of_app; right; by apply list_elem_of_singleton|apply Hs].
      * intros e [He| ->%list_elem_of_singleton]%elem_of_app; [|by rewrite Hn].
        intros Hx. apply Hc in Hx; [lia|done].
    + intros H. pose proof (lookup_lt_Some _ _ _ H) as Hlt. rewrite length_app in Hlt. cbn in Hlt.
      rewrite lookup_app_l in H by lia. destruct (Hr _ _ H). split; [|done]. apply open_in_weaken; [done|by rewrite Hn].
  - intros e run [He| ->%list_elem_of_singleton]%elem_of_app Hx; [|by rewrite Hn in Hx].
    rewrite length_app. pose proof (Hc _ _ He Hx). lia.
Qed.

(** So does the end of an open one. *)
Lemma close_run_ok {A} (event : A -> HandshakeEvent) run result w pd : world_ok w ->
  hw_runs w !! run = Some (Some pd) -> (forall a, event_closes (event a) = Some run) ->
  (forall a, result = Ok a -> event_ok (hw_log w) (event a)) -> world_ok (close_run event run result w).
Proof.
  intros [Hl Hr Hc] Hrun He Hok. unfold close_run.
  assert (Hlt := lookup_lt_Some _ _ _ Hrun).
  assert (Hlook : forall run' pd', <[run:=None]> (hw_runs w) !! run' = Some (Some pd') ->
    run' <> run /\ hw_runs w !! run' = Some (Some pd')).
  { intros run' pd' H. destruct (decide (run' = run)) as [->|Hne].
    - by rewrite list_lookup_insert_eq in H.
    - by rewrite list_lookup_insert_ne in H. }
  assert (Hidle : world_ok (mkHandshakeWorld (<[run:=None]> (hw_runs w)) (hw_log w))).
  { split; cbn; [done|intros run' pd' [_ H]%Hlook; by apply Hr|]. rewrite length_insert. exact Hc. }
  destruct result as [a|e|]; [|done..]. split; cbn [hw_log hw_runs].
  - apply handshake_log_snoc; [done|by apply Hok].
  - intros run' pd' [Hne H]%Hlook. destruct (Hr _ _ H). split; [|done]. apply open_in_weaken; [done|].
    rewrite He. congruence.
  - intros e run' [H'| ->%list_elem_of_singleton]%elem_of_app Hx; rewrite length_insert; [by eapply Hc|].
    rewrite He in Hx. by injection Hx as <-.
Qed.

Lemma handshake_step_ok w call : world_ok w -> handshake_call_wire call -> world_ok (handshake_step w call).
Proof.
  intros Hw. destruct call as [p seed ol or nonce now d|p seed ol or hello nonce now d|run response seed now|
    run confirmation now]; cbn [handshake_call_wire handshake_step].
  - intros [Hp Hn]. apply start_run_ok; [done..|]. intros pd m (Hpl & _ & Hz & [= -> ->])%initiate_Ok.
    assert (Hok : pending_ok (mkPending p Initiator (hello_packet sha256 p nonce) now (N.min d (pr_expires_at p))))
      by (split; cbn; try done; by apply hello_packet_wire).
    split; [done|]. intros before run. split_and!; try done. apply Hpl.
  - intros (Hp & Hb & Hn). apply start_run_ok; [done..|].
    intros pd m (Hpl & _ & Hz & q & Hg & -> & [= -> ->])%respond_Ok; [|done]. pose proof Hg as (Hq & _ & Hd & _).
    assert (Hok : pending_ok (mkPending p Responder (response_packet q nonce) now (N.min d (pr_expires_at p))))
      by (split; cbn; try done; by apply response_packet_wire).
    split; [done|]. intros before run. split_and!; try done; [apply Hpl|]. by exists q.
  - intros Hb. destruct (hw_runs w !! run) as [[pd|]|] eqn:Hrun; [|done..].
    eapply close_run_ok; [done|done|done|]. intros [s c] (_ & Hr & Hk & _ & q & Ha & -> & [= -> ->])%confirm_Ok; [|done].
    destruct (wo_runs _ Hw _ _ Hrun) as [Ho Hpd]. cbn. split_and!; try done. by exists q, now.
  - intros Hb. destruct (hw_runs w !! run) as [[pd|]|] eqn:Hrun; [|done..].
    eapply close_run_ok; [done|done|done|]. intros s (_ & Hr & _ & q & Ha & -> & ->)%finish_Ok; [|done].
    destruct (wo_runs _ Hw _ _ Hrun) as [Ho Hpd]. cbn. split_and!; try done. by exists q, now.
Qed.

Lemma handshake_run_ok calls : Forall handshake_call_wire calls -> world_ok (handshake_run calls).
Proof.
  intros H. unfold handshake_run. assert (Hw : world_ok (mkHandshakeWorld [] [])).
  { split; cbn; [by intros [|]|by intros|by intros e run ?%elem_of_nil]. }
  revert Hw. generalize (mkHandshakeWorld [] []). induction H as [|call calls Hc _ IH]; intros w Hw; [done|].
  cbn [foldl]. by apply IH, handshake_step_ok.
Qed.

(** *** Where a verified message comes from *)

(** The packet that an event signed. *)
Definition event_packet (e : HandshakeEvent) (q : Packet) : Prop :=
  match e with
  | Initiated _ _ pd _ | Responded _ _ _ pd _ => q = pd_packet pd
  | Confirmed _ _ response pd _ _ => exists r, answers pd r /\ response = encode_packet r /\ q = set_kind CONFIRM r
  | Finished _ _ _ _ => False
  end.

Lemma parts_of_packet q : packet_wire q ->
  unsigned_part (encode_packet q) = packet_unsigned q /\ signature_part (encode_packet q) = pk_signature q.
Proof.
  intros [_ _ _ _ [_ Hs]]. unfold unsigned_part, signature_part, encode_packet.
  rewrite length_app, Hs, Nat.add_sub, take_app_length, drop_app_length. done.
Qed.

Lemma event_message_packet before e key message : event_ok before e -> event_message e = Some (key, message) ->
  exists q, event_packet e q /\ packet_wire q /\ unsigned_part message = packet_unsigned q.
Proof.
  intros He Hm.
  assert (Hq : forall q seed, packet_wire q -> unsigned_part (packet_signed q seed) = packet_unsigned q).
  { intros q seed Hq. rewrite packet_signed_eq. by apply (parts_of_packet _ (packet_signed_wire q seed Hq)). }
  destruct e as [run seed pd m|run seed h pd m|run seed r pd s m|]; cbn [event_message event_ok event_packet] in *; [| | |done]; injection Hm as <- <-.
  - destruct He as (Hpd & _ & _ & ->). exists (pd_packet pd). pose proof (po_packet _ Hpd). split_and!; [done..|by apply Hq].
  - destruct He as (Hpd & _ & _ & -> & _). exists (pd_packet pd). pose proof (po_packet _ Hpd). split_and!; [done..|by apply Hq].
  - destruct He as (_ & _ & _ & _ & q & now & Ha & -> & _ & ->). exists (set_kind CONFIRM q).
    assert (packet_wire (set_kind CONFIRM q)) by (apply confirm_packet_wire; apply Ha).
    split_and!; [by exists q|done|by apply Hq].
Qed.

(** A packet that verifies was sent by a holder of the key, or it is a forgery. *)
Lemma verified_packet log key q : log_ok log -> packet_wire q ->
  verify_strict key (packet_transcript q) (pk_signature q) = true ->
  forged key log (encode_packet q) \/
  exists before e m q', e ∈ log /\ event_ok before e /\ event_message e = Some (key, m) /\ event_packet e q' /\
    pk_kind q' = pk_kind q /\ same_run q' q.
Proof.
  intros Hl Hq Hv. destruct (parts_of_packet q Hq) as [Eu Es]. unfold forged. rewrite Eu, Es.
  destruct (decide ((key, packet_unsigned q) ∈ prod_map id unsigned_part <$> omap event_message log)) as [Hin|Hn];
    [right|by left].
  apply list_elem_of_fmap in Hin as ([k m] & [= <- Em] & (e & He & Hm)%list_elem_of_omap).
  pose proof He as (before & after & Eb)%list_elem_of_split. pose proof (Hl _ _ _ Eb) as Hok.
  destruct (event_message_packet _ _ _ _ Hok Hm) as (q' & Hp & Hw' & Em').
  assert (Et : packet_transcript q = packet_transcript q') by (unfold packet_transcript; by rewrite Em, Em').
  apply packet_transcript_inj in Et; [|done..].
  exists before, e, m, q'. split_and!; try done; by rewrite Et.
Qed.

(** *** Each step, traced back to the step of the other peer *)

(** The event that created a pending handshake of this role. *)
Lemma open_started log run pd : log_ok log -> open_in log run pd ->
  match pd_role pd with
  | Initiator => exists seed hello, Initiated run seed pd hello ∈ log
  | Responder => exists seed hello response, Responded run seed hello pd response ∈ log
  end.
Proof.
  intros Hl [(e & He & Hs) _]. pose proof He as (before & after & Eb)%list_elem_of_split. apply Hl in Eb.
  destruct e; cbn in Hs; [| |done..]; injection Hs as -> ->; destruct Eb as (_ & -> & _); eauto.
Qed.

Lemma handshake_log_prefix before after : log_ok (before ++ after) -> log_ok before.
Proof. intros H b e a ->. apply (H b e (a ++ after)). by rewrite <- app_assoc. Qed.

Lemma responded_after_initiated before run seed hello pd response : log_ok before ->
  event_ok before (Responded run seed hello pd response) ->
  forged (pr_initiator (pd_pairing pd)) before hello \/
  exists run' seed' pd' hello', Initiated run' seed' pd' hello' ∈ before /\
    verifying_key seed' = pr_initiator (pd_pairing pd) /\
    pk_initiator_nonce (pd_packet pd') = pk_initiator_nonce (pd_packet pd) /\
    (digest_collision (pd_pairing pd) (pd_pairing pd') \/ pd_pairing pd = pd_pairing pd').
Proof.
  intros Hl (Hpd & _ & _ & _ & q & (Hq & Hk & Hd & Hv) & -> & Hn).
  destruct (verified_packet before _ q Hl Hq Hv) as [?|(b & e & m & q' & He & Hok & Hm & Hp & Hk' & Hp1 & Hp2 & _)];
    [by left|right]. rewrite Hk in Hk'.
  destruct e as [run' seed' pd' h'|? ? ? pd' ?|? ? ? ? ? ?|]; cbn [event_message event_packet] in *; [| | |done].
  - destruct Hok as (Hpd' & _ & _ & _). injection Hm as Ekey _. subst q'.
    exists run', seed', pd', h'. split_and!; try done; [congruence|].
    destruct (digest_same (pd_pairing pd) (pd_pairing pd')) as [?|?]; [apply Hpd|apply Hpd'| |by right|by left].
    rewrite <- (po_digest _ Hpd'). congruence.
  - destruct Hok as ([_ _ _ Hkind] & Hr & _). subst q'. by rewrite Hr, Hk' in Hkind.
  - destruct Hp as (r & _ & _ & ->). done.
Qed.

Lemma confirmed_after_responded before run seed response pd i confirmation : log_ok before ->
  event_ok before (Confirmed run seed response pd i confirmation) ->
  forged (pr_responder (pd_pairing pd)) before response \/
  exists run' seed' hello' pd' response', Responded run' seed' hello' pd' response' ∈ before /\
    verifying_key seed' = pr_responder (pd_pairing pd) /\
    pk_initiator_nonce (pd_packet pd') = pk_initiator_nonce (pd_packet pd) /\
    session_id sha256 (pd_packet pd') = vc_session (cs_outbound i) /\
    (digest_collision (pd_pairing pd) (pd_pairing pd') \/ pd_pairing pd = pd_pairing pd').
Proof.
  intros Hl (_ & Hpd & _ & _ & q & now & (Hq & Hk & Hd & Hn & _ & Hv) & -> & -> & _).
  destruct (verified_packet before _ q Hl Hq Hv) as [?|(b & e & m & q' & He & Hok & Hm & Hp & Hk' & Hp1 & Hp2 & Hp3)];
    [by left|right]. rewrite Hk in Hk'.
  destruct e as [? ? pd' ?|run' seed' h' pd' r'|? ? ? ? ? ?|]; cbn [event_message event_packet] in *; [| | |done].
  - destruct Hok as ([_ _ _ Hkind] & Hr & _). subst q'. by rewrite Hr, Hk' in Hkind.
  - destruct Hok as (Hpd' & _ & _ & _). injection Hm as Ekey _. subst q'.
    exists run', seed', h', pd', r'. split_and!; try done; [congruence|by apply session_id_eq|].
    destruct (digest_same (pd_pairing pd) (pd_pairing pd')) as [?|?]; [apply Hpd|apply Hpd'| |by right|by left].
    rewrite <- (po_digest _ Hpd'), Hp1, Hd. symmetry. apply Hpd.
  - destruct Hp as (r & _ & _ & ->). done.
Qed.

Lemma finished_after_confirmed before run pd confirmation r : log_ok before ->
  event_ok before (Finished run pd confirmation r) ->
  forged (pr_initiator (pd_pairing pd)) before confirmation \/
  exists run' seed' response' pd' i confirmation' q, Confirmed run' seed' response' pd' i confirmation' ∈ before /\
    verifying_key seed' = pr_initiator (pd_pairing pd) /\
    decode_packet response' RESPONSE = Ok q /\ same_run q (pd_packet pd) /\
    vc_session (cs_outbound i) = vc_session (cs_outbound r) /\
    (digest_collision (pd_pairing pd) (pd_pairing pd') \/
     (pd_pairing pd = pd_pairing pd' /\ cs_outbound i = rw_context (cs_inbound r) /\
      cs_outbound r = rw_context (cs_inbound i))).
Proof.
  intros Hl (_ & Hpd & _ & q & now & (Hq & Hk & Hd & Hi & Hn & _ & Hv) & -> & ->).
  destruct (verified_packet before _ q Hl Hq Hv) as [?|(b & e & m & q' & He & Hok & Hm & Hp & Hk' & Hp1 & Hp2 & Hp3)];
    [by left|right]. rewrite Hk in Hk'.
  destruct e as [? ? pd' ?|? ? ? pd' ?|run' seed' response' pd' i c'|]; cbn [event_message event_packet] in *; [| | |done].
  - destruct Hok as ([_ _ _ Hkind] & Hr & _). subst q'. by rewrite Hr, Hk' in Hkind.
  - destruct Hok as ([_ _ _ Hkind] & Hr & _). subst q'. by rewrite Hr, Hk' in Hkind.
  - destruct Hok as (_ & Hpd' & _ & _ & a & t & Ha & -> & -> & _), Hp as (a' & Ha' & Ea & ->). injection Hm as Ekey _.
    pose proof Ha as (Wa & Ka & Da & _). pose proof Ha' as (Wa' & Ka' & Da' & _).
    assert (decode_packet (encode_packet a) RESPONSE = Ok a) as D by (apply decode_packet_iff; [by apply packet_bytes|done]).
    assert (a' = a) as ->.
    { rewrite Ea in D. rewrite (proj2 (decode_packet_iff _ RESPONSE a' (packet_bytes _ Wa'))) in D; [by injection D|done]. }
    change (pk_pairing a = pk_pairing q) in Hp1. change (pk_initiator_nonce a = pk_initiator_nonce q) in Hp2.
    change (pk_responder_nonce a = pk_responder_nonce q) in Hp3.
    assert (Es : session_id sha256 a = session_id sha256 q) by (by apply session_id_eq).
    eexists run', seed', _, pd', _, c', a. split; [exact He|]. split_and!; try done; [split_and!; congruence|].
    destruct (digest_same (pd_pairing pd) (pd_pairing pd')) as [E|?]; [apply Hpd|apply Hpd'| | |by left].
    { rewrite <- (po_digest _ Hpd'), <- Da, Hp1, Hd. symmetry. apply Hpd. }
    right. rewrite Es, <- E. done.
Qed.

End Agreement.

(** C12. Agreement, over any handshakes of any peers, whoever delivers whatever
    bytes.  A responder that finishes a run answered with it before, and either
    the delivered confirmation is a forgery, a signature verifying with the
    initiator's key over a message that no holder of that key sent, or a holder
    of that key did confirm before, in answer to a response with the nonces of
    this very run, a session with the same identifier; unless two pairings of
    one digest are exhibited it did so for the same pairing, and then both
    sessions expect exactly what the other sends.  An initiator that confirms
    started the run before, and the response is a forgery of the responder's
    key or a holder of it answered before with this run's nonce and session,
    for the same pairing or one of equal digest; a responder answers only a
    hello that is forged or that a holder of the initiator's key sent before.
    And no run is confirmed or finished twice. *)
Theorem handshake_agreement sha256 (Hed : Ed25519) (Hlaws : Ed25519Laws Hed) (Hsha : Sha256 sha256) calls
    (Hcalls : Forall handshake_call_wire calls) : let log := hw_log (handshake_run sha256 calls) in
  (forall before run pd confirmation r after, log = before ++ Finished run pd confirmation r :: after ->
     (exists seed hello response, Responded run seed hello pd response ∈ before) /\
     (forged (pr_initiator (pd_pairing pd)) before confirmation \/
      exists run' seed' response' pd' i confirmation' q, Confirmed run' seed' response' pd' i confirmation' ∈ before /\
        verifying_key seed' = pr_initiator (pd_pairing pd) /\
        decode_packet response' RESPONSE = Ok q /\ same_run q (pd_packet pd) /\
        vc_session (cs_outbound i) = vc_session (cs_outbound r) /\
        (digest_collision sha256 (pd_pairing pd) (pd_pairing pd') \/
         (pd_pairing pd = pd_pairing pd' /\ cs_outbound i = rw_context (cs_inbound r) /\
          cs_outbound r = rw_context (cs_inbound i))))) /\
  (forall before run seed response pd i confirmation after,
     log = before ++ Confirmed run seed response pd i confirmation :: after ->
     (exists seed hello, Initiated run seed pd hello ∈ before) /\
     (forged (pr_responder (pd_pairing pd)) before response \/
      exists run' seed' hello' pd' response', Responded run' seed' hello' pd' response' ∈ before /\
        verifying_key seed' = pr_responder (pd_pairing pd) /\
        pk_initiator_nonce (pd_packet pd') = pk_initiator_nonce (pd_packet pd) /\
        session_id sha256 (pd_packet pd') = vc_session (cs_outbound i) /\
        (digest_collision sha256 (pd_pairing pd) (pd_pairing pd') \/ pd_pairing pd = pd_pairing pd'))) /\
  (forall before run seed hello pd response after, log = before ++ Responded run seed hello pd response :: after ->
     forged (pr_initiator (pd_pairing pd)) before hello \/
     exists run' seed' pd' hello', Initiated run' seed' pd' hello' ∈ before /\
       verifying_key seed' = pr_initiator (pd_pairing pd) /\
       pk_initiator_nonce (pd_packet pd') = pk_initiator_nonce (pd_packet pd) /\
       (digest_collision sha256 (pd_pairing pd) (pd_pairing pd') \/ pd_pairing pd = pd_pairing pd')) /\
  (forall before e middle e' after run, log = before ++ e :: middle ++ e' :: after ->
     event_closes e = Some run -> event_closes e' <> Some run).
Proof.
  intros log. pose proof (wo_log _ _ (handshake_run_ok sha256 calls Hcalls)) as Hl. fold log in Hl.
  assert (Hpre : forall before e after, log = before ++ e :: after -> log_ok sha256 before)
    by (intros before e after E; rewrite E in Hl; by eapply handshake_log_prefix).
  split_and!.
  - intros before run pd c r after E. pose proof (Hpre _ _ _ E) as Hb. pose proof (Hl _ _ _ E) as Hok.
    split; [|by eapply finished_after_confirmed]. destruct Hok as (Ho & _ & Hr & _).
    pose proof (open_started sha256 _ _ _ Hb Ho) as Hs. by rewrite Hr in Hs.
  - intros before run seed response pd i c after E. pose proof (Hpre _ _ _ E) as Hb. pose proof (Hl _ _ _ E) as Hok.
    split; [|by eapply confirmed_after_responded]. destruct Hok as (Ho & _ & Hr & _).
    pose proof (open_started sha256 _ _ _ Hb Ho) as Hs. by rewrite Hr in Hs.
  - intros before run seed hello pd response after E. pose proof (Hpre _ _ _ E) as Hb. pose proof (Hl _ _ _ E) as Hok.
    by eapply responded_after_initiated.
  - intros before e middle e' after run E He He'. rewrite app_comm_cons, app_assoc in E. apply Hl in E.
    destruct e' as [| |run' ? ? pd ? ?|run' pd ? ?]; [done..| |]; injection He' as ->;
      destruct E as ([_ Hc] & _); by destruct (Hc e ltac:(set_solver)).
Qed.

Definition bytes_ok (l : list N) : bool := forallb (fun b => b <? 256) l.

Lemma bytes_ok_spec l : bytes_ok l = true -> Forall byte l.
Proof.
  unfold bytes_ok. rewrite forallb_forall. intros H. apply Forall_forall. intros x Hx.
  apply N.ltb_lt, H. by apply list_elem_of_In.
Qed.

Lemma toy_pairing_wire : pairing_wire toy_pairing.
Proof. apply (pa_wire (Hed := toy_ed25519) _ _ _ toy_paired). Qed.

Lemma run_nonce n : n < 256 -> hash_wire (replicate 32 n).
Proof. intros H. split; [by apply Forall_replicate|done]. Qed.

(** One run between two paired peers, and another one that never finishes. *)
Definition toy_hello : Packet := hello_packet poly_hash toy_pairing (replicate 32 8).
Definition toy_response : Packet :=
  response_packet (with_signature toy_hello (sign_bytes (Ed25519 := toy_ed25519) (replicate 32 1)
    (packet_transcript toy_hello))) (replicate 32 9).
Definition toy_answer : Packet := with_signature toy_response
  (sign_bytes (Ed25519 := toy_ed25519) (replicate 32 2) (packet_transcript toy_response)).
Definition toy_sent (q : Packet) (n : N) : list N := packet_signed (Hed := toy_ed25519) q (replicate 32 n).
Definition toy_handshake : list HandshakeCall := [
  CallInitiate toy_pairing (replicate 32 1) (toy_key 3) (toy_key 4) (replicate 32 8) 10 20;
  CallRespond toy_pairing (replicate 32 2) (toy_key 4) (toy_key 3) (toy_sent toy_hello 1) (replicate 32 9) 10 20;
  CallRespond toy_pairing (replicate 32 2) (toy_key 4) (toy_key 3) (toy_sent toy_hello 1) (replicate 32 7) 10 20;
  CallConfirm 0 (toy_sent toy_response 2) (replicate 32 1) 11;
  CallFinish 2 (toy_sent (set_kind CONFIRM toy_answer) 1) 11;
  CallFinish 1 (toy_sent (set_kind CONFIRM toy_answer) 1) 11;
  CallFinish 1 (toy_sent (set_kind CONFIRM toy_answer) 1) 11].
Definition toy_pending : Pending := mkPending toy_pairing Responder toy_response 10 20.
Definition toy_finished : ChatSession :=
  session_of poly_hash toy_pairing Responder (session_id poly_hash toy_response) 11.
#[local] Notation toy_log := (hw_log (handshake_run (Hed := toy_ed25519) poly_hash toy_handshake)).

Lemma toy_handshake_wire : Forall handshake_call_wire toy_handshake.
Proof.
  assert (Hh : Forall byte (toy_sent toy_hello 1)) by (apply bytes_ok_spec; vm_compute; reflexivity).
  assert (Hr : Forall byte (toy_sent toy_response 2)) by (apply bytes_ok_spec; vm_compute; reflexivity).
  assert (Hc : Forall byte (toy_sent (set_kind CONFIRM toy_answer) 1)) by (apply bytes_ok_spec; vm_compute; reflexivity).
  pose proof toy_pairing_wire as Hp. pose proof run_nonce as Hn.
  apply Forall_cons_2; [exact (conj Hp (Hn 8 eq_refl))|].
  apply Forall_cons_2; [exact (conj Hp (conj Hh (Hn 9 eq_refl)))|].
  apply Forall_cons_2; [exact (conj Hp (conj Hh (Hn 7 eq_refl)))|].
  apply Forall_cons_2; [exact Hr|]. apply Forall_cons_2; [exact Hc|].
  apply Forall_cons_2; [exact Hc|]. apply Forall_cons_2; [exact Hc|]. apply Forall_nil_2.
Qed.

Lemma toy_log_finished :
  toy_log = take 4 toy_log ++ [Finished 1 toy_pending (toy_sent (set_kind CONFIRM toy_answer) 1) toy_finished].
Proof. vm_compute. reflexivity. Qed.

Lemma toy_not_forged :
  ~ forged (Hed := toy_ed25519) (toy_key 1) (take 4 toy_log) (toy_sent (set_kind CONFIRM toy_answer) 1).
Proof.
  intros [_ H]. revert H. apply (bool_decide_eq_false_1 (_ ∉ _)). vm_compute. reflexivity.
Qed.

Lemma handshake_agreement_witness : exists run seed response pd i confirmation,
  Confirmed run seed response pd i confirmation ∈ take 4 toy_log /\
  verifying_key (Ed25519 := toy_ed25519) seed = toy_key 1 /\
  vc_session (cs_outbound i) = vc_session (cs_outbound toy_finished).
Proof.
  destruct (handshake_agreement poly_hash toy_ed25519 toy_laws poly_hash_sha256 toy_handshake) as (H & _).
  - exact toy_handshake_wire.
  - destruct (H _ _ _ _ _ _ toy_log_finished) as
      (_ & [Hf|(run & seed & response & pd & i & c & q & Hin & Hk & _ & _ & Hs & _)]).
    + by destruct (toy_not_forged Hf).
    + exists run, seed, response, pd, i, c. exact (conj Hin (conj Hk Hs)).
Defined.

(** ** Chat sessions *)

(** C17. A chat session over any sequence of prepared messages, received bytes and
    closings, at any clocks: the messages it prepares are numbered without a
    gap from the sequence it starts at; the sequences it accepts increase
    strictly, so no message is accepted twice; each event happens within the
    pairing's lifetime and no clock runs backwards; what is received is
    authentic chat of the pinned peer for the context of the session; and a
    call that the clock refuses, or a closing, is the end: nothing is given out
    afterwards. *)
Theorem chat_session_safe sha256 (Hed : Ed25519) calls s :
  let '(es, s') := chat_run sha256 calls s in
  prepared_sequences es = count_from (cs_next_sequence s) (length (prepared_sequences es)) /\
  cs_next_sequence s' = cs_next_sequence s + len (prepared_sequences es) /\
  StronglySorted N.lt (received_sequences es) /\
  (forall last, last_of s = Some last -> Forall (N.lt last) (received_sequences es)) /\
  StronglySorted N.le (event_now <$> es) /\
  Forall (fun e => cs_last_now s <= event_now e <= pr_expires_at (cs_pairing s)) es /\
  Forall (fun e => exists call, call ∈ calls /\ accounted sha256 s call e) es /\
  fixed s' = fixed s /\
  (forall before call after, calls = before ++ call :: after ->
     call_refused (snd (chat_run sha256 before s)) call ->
     es = fst (chat_run sha256 before s) /\ cs_closed s' = true).
Proof.
  pose proof (chat_run_moves sha256 calls s) as H. destruct (chat_run sha256 calls s) as [es s'] eqn:E.
  destruct H as [M A]. split_and!; try apply M; try done.
  - intros last Hl. by destruct (cm_last _ _ _ M last Hl) as (? & _ & _ & ?).
  - eapply Forall_impl; [apply (cm_in_time _ _ _ M)|]. simpl. intros e He. lia.
  - intros before call after -> Hr. rewrite chat_run_app in E. destruct (chat_run sha256 before s) as [fs s1].
    cbn [fst snd chat_run] in *. rewrite (chat_step_closes sha256 call s1 Hr) in E.
    rewrite (chat_run_closed sha256 after (close s1) eq_refl) in E. injection E as <- <-.
    by rewrite !app_nil_r.
Qed.

(** ** Invitations *)

(** Invitations.  Decoding accepts exactly the canonical encodings of
    well-formed invitations and does not panic; verification accepts exactly
    an invitation of the expected strong owner that verifies and has not
    expired, the last admissible clock being one less than the expiry; the
    signed bytes determine the claims; and what an owner issues decodes back
    and verifies for that owner at every clock before its expiry. *)
Theorem invitation_exact (Hed : Ed25519) (Hlaws : Ed25519Laws Hed) :
  (forall raw, Forall byte raw ->
     (forall i, decode_invitation raw = Ok i <-> invitation_wire i /\ raw = encode_invitation i) /\
     decode_invitation raw <> Panic) /\
  (forall i owner now c, verify_at i owner now = Ok c <->
     owner = ic_owner c /\ strong_key owner /\ c = in_claims i /\ now < ic_expires_at c /\
     verify_strict owner (invitation_transcript c) (in_signature i) = true) /\
  (forall c1 c2, claims_wire c1 -> claims_wire c2 ->
     invitation_transcript c1 = invitation_transcript c2 -> c1 = c2) /\
  (forall seed invitee realm room epoch expires_at nonce i,
     issue_invitation seed invitee realm room epoch expires_at nonce = Ok i -> claims_wire (in_claims i) ->
     decode_invitation (encode_invitation i) = Ok i /\
     forall now, now < expires_at -> verify_at i (verifying_key seed) now = Ok (in_claims i)).
Proof.
  split_and!.
  - intros raw Hb. split; [intros i; by apply decode_invitation_iff|apply decode_invitation_no_panic].
  - intros i owner now c. rewrite verify_at_Ok, verify_for_Ok. naive_solver.
  - exact invitation_transcript_inj.
  - intros seed invitee realm room epoch expires_at nonce i [Hv ->]%issue_invitation_Ok Hw. cbn in Hw.
    pose proof (cv_owner _ Hv) as Hs. cbn in Hs. split.
    + apply decode_encode_invitation. split; [done|]. split; [done|apply sign_bytes_wire].
    + intros now Hn. apply verify_at_Ok. split; [|done]. apply verify_for_Ok. split_and!; try done.
      by apply verify_signed.
Qed.

Definition toy_invitation : Invitation :=
  let c := mkInvClaims (toy_key 7) (toy_key 8) 9 10 11 100 (replicate 32 3) in
  mkInvitation c (toy_signature (toy_key 7) (invitation_transcript c)).

Lemma invitation_exact_witness :
  decode_invitation (Hed := toy_ed25519) (encode_invitation toy_invitation) = Ok toy_invitation /\
  verify_at (Hed := toy_ed25519) toy_invitation (toy_key 7) 99 = Ok (in_claims toy_invitation).
Proof.
  destruct (invitation_exact toy_ed25519 toy_laws) as (_ & _ & _ & H).
  destruct (H (replicate 32 7) (toy_key 8) 9 10 11 100 (replicate 32 3) toy_invitation) as [Hd Hv].
  - vm_compute. reflexivity.
  - split_and!; first [apply (verifying_key_wire (Ed25519Laws := toy_laws))|by vm_compute|by apply run_nonce].
  - split; [exact Hd|]. apply Hv. reflexivity.
Defined.
