(* ===== verification/SignedClaims.v ===== *)
(** Typed signed claims (src/crates/vhalla-crypto/src/claims.rs): the canonical
    claim, its signature, and the window that refuses replays and
    equivocation. *)
From Stdlib Require Import Ascii String.
From stdpp Require Import gmap.
From S2P Require Import Prelude Bytes PrefixFree Wire Signed Layout.

Definition TRANSCRIPT_DOMAIN : list N := bytes_of "vhalla/signed-claim/v1".
Definition CLAIM_VERSION : N := 1.
Definition MAX_SIGNED_CLAIM_BYTES : N := 256.
Definition DEFAULT_REPLAY_LIMIT : N := 1024.

Inductive ClaimDomain : Type := Session | Provenance | Capability | Receipt.
#[global] Instance ClaimDomain_eq_dec : EqDecision ClaimDomain. Proof. solve_decision. Defined.

(** [self as u8] *)
Definition domain_tag (d : ClaimDomain) : N :=
  match d with Session => 1 | Provenance => 2 | Capability => 3 | Receipt => 4 end.

Definition domain_label (d : ClaimDomain) : list N :=
  match d with
  | Session => bytes_of "session"
  | Provenance => bytes_of "provenance"
  | Capability => bytes_of "capability"
  | Receipt => bytes_of "receipt"
  end.

Definition domain_from_wire (value : N) : option ClaimDomain :=
  if value =? 1 then Some Session
  else if value =? 2 then Some Provenance
  else if value =? 3 then Some Capability
  else if value =? 4 then Some Receipt
  else None.

#[global] Instance ClaimDomain_countable : Countable ClaimDomain.
Proof.
  refine (inj_countable domain_tag domain_from_wire _). by intros [].
Defined.

Record ClaimContext : Type := mkClaimContext {
  cc_domain : ClaimDomain; cc_realm : N; cc_session : N; cc_audience : N; cc_epoch : N;
}.

Record Claim : Type := mkClaim {
  cl_domain : ClaimDomain; cl_realm : N; cl_session : N; cl_subject : list N; cl_sequence : N;
  cl_epoch : N; cl_issued_at : N; cl_expires_at : N; cl_audience : N;
}.

Record SignedClaim : Type := mkSignedClaim {
  sc_claim : Claim; sc_issuer : N; sc_signature : list N;
}.

Inductive ClaimBuildError : Type := BuildLifetime.

Inductive ClaimDecodeError : Type :=
| ClaimTooLarge | ClaimTruncated | ClaimVersion | ClaimUnknownDomain | ClaimLength | ClaimLifetime
| ClaimTrailing.

Inductive ClaimVerifyError : Type :=
| ClaimWeakKey | ClaimIssuer | ClaimDomainMismatch | ClaimRealm | ClaimSession | ClaimAudience
| ClaimEpoch | ClaimNotYetValid | ClaimBadLifetime | ClaimExpired | ClaimSignature | ClaimReplay
| ClaimEquivocation | ClaimCapacity.

Record ReplayScope : Type := mkReplayScope {
  rs_domain : ClaimDomain; rs_realm : N; rs_session : N; rs_audience : N; rs_issuer : list N;
}.
#[global] Instance ReplayScope_eq_dec : EqDecision ReplayScope. Proof. solve_decision. Defined.
#[global] Instance ReplayScope_countable : Countable ReplayScope.
Proof.
  refine (inj_countable' (fun s => (rs_domain s, rs_realm s, rs_session s, rs_audience s, rs_issuer s))
    (fun '(d, r, s, a, i) => mkReplayScope d r s a i) _). by intros [].
Defined.

Record Accepted : Type := mkAccepted { ac_epoch : N; ac_sequence : N; ac_digest : list N }.

Record ClaimReplayWindow : Type := mkClaimWindow {
  cw_accepted : gmap ReplayScope Accepted; cw_limit : N;
}.

(** ** The claim *)

Definition Claim_new (context : ClaimContext) (subject : list N) (sequence issued_at expires_at : N)
    : res ClaimBuildError Claim :=
  if expires_at <=? issued_at then Err BuildLifetime
  else Ok (mkClaim (cc_domain context) (cc_realm context) (cc_session context) subject sequence
             (cc_epoch context) issued_at expires_at (cc_audience context)).

(** The fields after the label. *)
Definition put_claim_fields (c : Claim) : Writer -> Writer :=
  w_u128 (cl_realm c) >> w_u128 (cl_session c) >> w_bytes (cl_subject c) >> w_u64 (cl_sequence c)
  >> w_u64 (cl_epoch c) >> w_u64 (cl_issued_at c) >> w_u64 (cl_expires_at c) >> w_u128 (cl_audience c).

Definition put_claim (c : Claim) : Writer -> Writer :=
  let label := domain_label (cl_domain c) in
  w_u8 CLAIM_VERSION >> w_u8 (domain_tag (cl_domain c)) >> w_u16 (len label) >> w_bytes label
  >> put_claim_fields c.
Definition encode_claim (c : Claim) : list N := written (put_claim c).

(** [read_u128], [read_u64] and [read_exact] move one offset along the bytes. *)
Definition get_claim_fields (domain : ClaimDomain) : reads ClaimDecodeError Claim :=
  let! realm := r_int 16 ClaimTruncated in
  let! session := r_int 16 ClaimTruncated in
  let! subject := r_slice 32 ClaimTruncated in
  let! sequence := r_int 8 ClaimTruncated in
  let! epoch := r_int 8 ClaimTruncated in
  let! issued_at := r_int 8 ClaimTruncated in
  let! expires_at := r_int 8 ClaimTruncated in
  let! audience := r_int 16 ClaimTruncated in
  ret (mkClaim domain realm session subject sequence epoch issued_at expires_at audience).

Definition get_claim_rest (domain : ClaimDomain) : reads ClaimDecodeError Claim :=
  let! c := get_claim_fields domain in
  let! r := get in
  if negb (N.of_nat (pos r) =? len (raw r)) then throw ClaimTrailing
  else
    lift (map_err (fun _ => ClaimLifetime)
      (Claim_new (mkClaimContext domain (cl_realm c) (cl_session c) (cl_audience c) (cl_epoch c))
         (cl_subject c) (cl_sequence c) (cl_issued_at c) (cl_expires_at c))).

Definition CLAIM_FIXED : N := 1 + 1 + 2 + 16 + 16 + 32 + 8 + 8 + 8 + 8 + 16.

Definition decode_claim (raw : list N) : res ClaimDecodeError Claim :=
  if (MAX_SIGNED_CLAIM_BYTES <? len raw) || (len raw <? CLAIM_FIXED)
  then Err (if MAX_SIGNED_CLAIM_BYTES <? len raw then ClaimTooLarge else ClaimTruncated)
  else
    let? version := index raw 0 in
    if negb (version =? CLAIM_VERSION) then Err ClaimVersion
    else
      let? tag := index raw 1 in
      let? domain := ok_or (domain_from_wire tag) ClaimUnknownDomain in
      let? label_len := sub_int raw 2 2 in
      if negb (label_len =? len (domain_label domain)) then Err ClaimLength
      else
        let label_end := 4 + label_len in
        if len raw <? label_end then Err ClaimLength
        else
          let? label := sub_slice raw 4 (N.to_nat label_end) in
          if negb (bool_decide (label = domain_label domain)) then Err ClaimLength
          else fst (get_claim_rest domain (mkReader raw (N.to_nat label_end))).

(** ** The signed claim *)

Definition put_signed_claim (s : SignedClaim) : Writer -> Writer :=
  let claim := encode_claim (sc_claim s) in
  w_u32 (len claim) >> w_bytes claim >> w_u128 (sc_issuer s).
Definition encode_signed_claim (s : SignedClaim) : list N :=
  written (put_signed_claim s >> w_bytes (sc_signature s)).

Definition claim_transcript (s : SignedClaim) : list N :=
  TRANSCRIPT_DOMAIN ++ written (put_signed_claim s).

Definition decode_signed_claim (raw : list N) : res ClaimDecodeError SignedClaim :=
  if MAX_SIGNED_CLAIM_BYTES <? len raw then Err ClaimTooLarge
  else if len raw <? 4 then Err ClaimTruncated
  else
    let? claim_len := sub_int raw 0 4 in
    let? claim_end := ok_or (checked_add 64 4 claim_len) ClaimLength in
    let? fixed_end := ok_or (checked_add 64 claim_end (16 + 64)) ClaimLength in
    if len raw <? fixed_end then Err ClaimTruncated
    else if fixed_end <? len raw then Err ClaimTrailing
    else
      let? bytes := sub_slice raw 4 (N.to_nat claim_end) in
      let? claim := decode_claim bytes in
      let? issuer := sub_int raw (N.to_nat claim_end) 16 in
      let? signature := sub_slice raw (N.to_nat claim_end + 16) (N.to_nat fixed_end) in
      Ok (mkSignedClaim claim issuer signature).

Section Claims.
Context (sha256 : list N -> list N) `{Hed : Ed25519}.

Definition verify_context (s : SignedClaim) (key : list N) (expected : ClaimContext) (now : N)
    : res ClaimVerifyError unit :=
  let c := sc_claim s in
  if is_weak key then Err ClaimWeakKey
  else if cl_expires_at c <=? cl_issued_at c then Err ClaimBadLifetime
  else if negb (peer_id_from_key sha256 key =? sc_issuer s) then Err ClaimIssuer
  else if negb (bool_decide (cl_domain c = cc_domain expected)) then Err ClaimDomainMismatch
  else if negb (cl_realm c =? cc_realm expected) then Err ClaimRealm
  else if negb (cl_session c =? cc_session expected) then Err ClaimSession
  else if negb (cl_audience c =? cc_audience expected) then Err ClaimAudience
  else if negb (cl_epoch c =? cc_epoch expected) then Err ClaimEpoch
  else if now <? cl_issued_at c then Err ClaimNotYetValid
  else if cl_expires_at c <? now then Err ClaimExpired
  else Ok tt.

Definition verify_claim (s : SignedClaim) (key : list N) (expected : ClaimContext) (now : N)
    : res ClaimVerifyError unit :=
  let? _ := verify_context s key expected now in
  if negb (verify_strict key (claim_transcript s) (sc_signature s)) then Err ClaimSignature else Ok tt.

Definition sign_claim (claim : Claim) (seed : list N) : SignedClaim :=
  let signed := mkSignedClaim claim (peer_id_from_key sha256 (verifying_key seed)) (replicate 64 0) in
  mkSignedClaim claim (sc_issuer signed) (sign_bytes seed (claim_transcript signed)).

Definition claim_digest (s : SignedClaim) : list N := sha256 (claim_transcript s).

Definition ClaimReplayWindow_new : ClaimReplayWindow := mkClaimWindow ∅ DEFAULT_REPLAY_LIMIT.
Definition with_limit (limit : N) : ClaimReplayWindow := mkClaimWindow ∅ (N.min limit DEFAULT_REPLAY_LIMIT).

Definition scope_of (s : SignedClaim) (key : list N) : ReplayScope :=
  mkReplayScope (cl_domain (sc_claim s)) (cl_realm (sc_claim s)) (cl_session (sc_claim s))
    (cl_audience (sc_claim s)) key.
Definition accepted_of (s : SignedClaim) : Accepted :=
  mkAccepted (cl_epoch (sc_claim s)) (cl_sequence (sc_claim s)) (claim_digest s).

(** [self.accepted.insert(scope, accepted)] *)
Definition insert_accepted {E} (scope : ReplayScope) (accepted : Accepted) : eff ClaimReplayWindow E unit :=
  modify (fun w => mkClaimWindow (<[scope := accepted]> (cw_accepted w)) (cw_limit w)).

Definition accept_claim (signed : SignedClaim) (key : list N) (expected : ClaimContext) (now : N)
    : eff ClaimReplayWindow ClaimVerifyError unit :=
  do! lift (verify_claim signed key expected now) in
  let scope := scope_of signed key in
  let accepted := accepted_of signed in
  let! w := get in
  match cw_accepted w !! scope with
  | None =>
      if cw_limit w <=? N.of_nat (size (cw_accepted w)) then throw ClaimCapacity
      else insert_accepted scope accepted
  | Some previous =>
      if ac_epoch accepted <? ac_epoch previous then throw ClaimReplay
      else if ac_epoch previous <? ac_epoch accepted then insert_accepted scope accepted
      else if ac_sequence accepted <? ac_sequence previous then throw ClaimReplay
      else if ac_sequence previous <? ac_sequence accepted then insert_accepted scope accepted
      else if bool_decide (ac_digest accepted = ac_digest previous) then throw ClaimReplay
      else throw ClaimEquivocation
  end.
End Claims.

(** ** The codec *)

Definition claim_fields_wire (domain : ClaimDomain) (c : Claim) : Prop :=
  cl_domain c = domain /\ u 128 (cl_realm c) /\ u 128 (cl_session c) /\ hash_wire (cl_subject c) /\
  u 64 (cl_sequence c) /\ u 64 (cl_epoch c) /\ u 64 (cl_issued_at c) /\ u 64 (cl_expires_at c) /\
  u 128 (cl_audience c).

Definition claim_wire (c : Claim) : Prop :=
  claim_fields_wire (cl_domain c) c /\ cl_issued_at c < cl_expires_at c.

Record signed_claim_wire (s : SignedClaim) : Prop := {
  sw_claim : claim_wire (sc_claim s);
  sw_issuer : u 128 (sc_issuer s);
  sw_signature : sig_wire (sc_signature s);
}.

#[export] Instance codec_claim_fields domain :
  Codec (claim_fields_wire domain) put_claim_fields (get_claim_fields domain).
Proof.
  unfold claim_fields_wire. apply codec_intro.
  - intros c. unfold put_claim_fields. apply _.
  - codec_bytes_tac put_claim_fields.
  - codec_safe get_claim_fields.
  - codec_inv put_claim_fields get_claim_fields.
  - intros r k [] Hr H E. simpl in H. split_ands. subst. unfold get_claim_fields, put_claim_fields in *.
    cbn in E |- *. split_written. rewrite <- ?app_assoc in E. fwd_reads E.
Qed.

Lemma claim_new_Ok d c b : Claim_new (mkClaimContext d (cl_realm c) (cl_session c) (cl_audience c) (cl_epoch c))
    (cl_subject c) (cl_sequence c) (cl_issued_at c) (cl_expires_at c) = Ok b <->
  cl_issued_at c < cl_expires_at c /\ b = mkClaim d (cl_realm c) (cl_session c) (cl_subject c) (cl_sequence c)
    (cl_epoch c) (cl_issued_at c) (cl_expires_at c) (cl_audience c).
Proof.
  unfold Claim_new. destruct (N.leb_spec (cl_expires_at c) (cl_issued_at c)); [split; [done|lia]|].
  split; [by intros [= <-]|by intros [_ ->]].
Qed.

Lemma claim_rest_iff d bytes n c : Forall byte bytes -> (n <= length bytes)%nat ->
  fst (get_claim_rest d (mkReader bytes n)) = Ok c <->
  claim_fields_wire d c /\ cl_issued_at c < cl_expires_at c /\ drop n bytes = written (put_claim_fields c).
Proof.
  intros Hb Hn. set (r := mkReader bytes n). assert (Hr : reader_ok r) by done. unfold get_claim_rest.
  assert (Hend : forall W k, rest r = W ++ k ->
    (N.of_nat (pos (advance W r)) =? len (raw (advance W r))) = bool_decide (k = [])).
  { intros W k E. unfold rest in E. cbn in E. apply (f_equal length) in E as El.
    rewrite length_drop, length_app in El. cbn. unfold len. destruct k as [|x k]; simpl in El.
    - rewrite bool_decide_true by done. apply N.eqb_eq. lia.
    - rewrite bool_decide_false by done. apply N.eqb_neq. lia. }
  split.
  - destruct (bind _ _ r) as [o r'] eqn:E. cbn [fst]. intros ->.
    apply read_bind in E as (a & Hw & k & Ek & E); [|done]. unfold bind, get in E. rewrite (Hend _ _ Ek) in E.
    case_bool_decide as Hk; [subst k|done]. cbn [negb] in E. unfold lift in E. injection E as E _.
    destruct (Claim_new _ _ _ _ _) as [b|e|] eqn:En; [|done..]. injection E as ->.
    apply claim_new_Ok in En as [Hlt ->]. destruct a, Hw as (<- & Hw). cbn in *. split; [by split|]. split; [done|].
    by rewrite app_nil_r in Ek.
  - intros (Hw & Hlt & E).
    assert (Ek : rest r = written (put_claim_fields c) ++ []) by (by rewrite app_nil_r).
    rewrite (read_step _ r c [] Hr Hw Ek). unfold bind, get. rewrite (Hend _ _ Ek). cbn [bool_decide negb].
    rewrite bool_decide_true by done. cbn [negb]. unfold lift. cbn [fst].
    rewrite (proj2 (claim_new_Ok d c _) (conj Hlt eq_refl)). destruct c, Hw as (<- & _). done.
Qed.

Lemma claim_rest_no_panic d bytes n : Forall byte bytes -> fst (get_claim_rest d (mkReader bytes n)) <> Panic.
Proof.
  intros Hb. apply safe_bind; [|done]. intros a r _. unfold bind, get, throw, lift.
  case_match; [done|]. unfold Claim_new. by case_match.
Qed.

Lemma domain_from_tag d : domain_from_wire (domain_tag d) = Some d.
Proof. by destruct d. Qed.

Lemma domain_from_wire_Some t d : domain_from_wire t = Some d <-> t = domain_tag d.
Proof.
  split; [|intros ->; apply domain_from_tag]. unfold domain_from_wire. repeat case_match; bool_to_prop; naive_solver.
Qed.

Lemma label_length d : len (domain_label d) <= 10.
Proof. by destruct d. Qed.

Lemma length_claim_fields c : hash_wire (cl_subject c) -> length (written (put_claim_fields c)) = 112%nat.
Proof.
  intros [_ Hs]. unfold put_claim_fields. split_written. rewrite !length_app. autorewrite with written_length.
  by rewrite Hs.
Qed.

Lemma encode_claim_fields c : encode_claim c = concat [[CLAIM_VERSION]; [domain_tag (cl_domain c)];
  be 2 (len (domain_label (cl_domain c))); domain_label (cl_domain c); written (put_claim_fields c)].
Proof. unfold encode_claim, put_claim. split_written. cbn [concat]. by rewrite <- ?app_assoc, app_nil_r. Qed.

Lemma length_encode_claim c : hash_wire (cl_subject c) ->
  len (encode_claim c) = 116 + len (domain_label (cl_domain c)).
Proof.
  intros Hs. rewrite encode_claim_fields. unfold len. cbn [concat]. rewrite !length_app, length_claim_fields by done.
  rewrite be_length. cbn [length]. lia.
Qed.

Lemma encode_claim_bytes c : claim_wire c -> Forall byte (encode_claim c).
Proof.
  intros [Hw _]. rewrite encode_claim_fields. pose proof (codec_bytes c Hw) as Hf. cbn [concat].
  assert (Hl : Forall byte (domain_label (cl_domain c)) /\ byte (domain_tag (cl_domain c))).
  { destruct (cl_domain c); (split; [vm_compute; repeat (constructor; [reflexivity|]); constructor|reflexivity]). }
  destruct Hl as [Hl Ht]. rewrite !Forall_app. split_and!; first [done|apply be_bytes|by apply Forall_singleton].
Qed.

(** The header of an accepted claim, and the rest. *)
Lemma decode_claim_parts v t b tl c : length b = 2%nat ->
  let bytes := concat [[v]; [t]; b; tl] in
  decode_claim bytes = Ok c <->
  CLAIM_FIXED <= len bytes <= MAX_SIGNED_CLAIM_BYTES /\ v = CLAIM_VERSION /\
  exists d k, t = domain_tag d /\ of_be b = len (domain_label d) /\ tl = domain_label d ++ k /\
    fst (get_claim_rest d (mkReader bytes (N.to_nat (4 + len (domain_label d))))) = Ok c.
Proof.
  cbv zeta. intros Hb. unfold decode_claim, sub_int.
  assert (Hl : len (concat [[v]; [t]; b; tl]) = 4 + len tl).
  { unfold len. cbn [concat]. rewrite !length_app, Hb. cbn [length]. lia. }
  read_field 0. read_field 1. read_field 2. rewrite Hl.
  destruct (N.ltb_spec MAX_SIGNED_CLAIM_BYTES (4 + len tl)); [split; [done|lia]|].
  destruct (N.ltb_spec (4 + len tl) CLAIM_FIXED); [split; [done|lia]|]. cbn [orb].
  destruct (N.eqb_spec v CLAIM_VERSION); [|split; [done|tauto]]. cbn [negb].
  destruct (domain_from_wire t) as [d|] eqn:Ed; cbn [ok_or res_bind].
  2: { split; [done|]. intros (_ & _ & d & k & -> & _). by rewrite domain_from_tag in Ed. }
  apply domain_from_wire_Some in Ed as ->.
  assert (Hd : forall d', domain_tag d = domain_tag d' -> d' = d) by (by intros []; destruct d).
  destruct (N.eqb_spec (of_be b) (len (domain_label d))) as [E|E]; cbn [negb].
  2: { split; [done|]. by intros (_ & _ & d' & k & ->%Hd & ? & _). }
  rewrite E. destruct (N.ltb_spec (4 + len tl) (4 + len (domain_label d))) as [Hlt|Hge].
  { split; [done|]. intros (_ & _ & d' & k & ->%Hd & _ & -> & _). unfold len in Hlt. rewrite length_app in Hlt. lia. }
  set (n := length (domain_label d)). assert (Hn : (n <= length tl)%nat) by (unfold len in Hge; lia).
  assert (Hslice : sub_slice (Er := ClaimDecodeError) (concat [[v]; [domain_tag d]; b; tl]) 4
    (N.to_nat (4 + len (domain_label d))) = Ok (take n tl)).
  { replace (concat [[v]; [domain_tag d]; b; tl]) with (concat [[v]; [domain_tag d]; b; take n tl; drop n tl]).
    - apply (slice_field _ 3%nat); [done|unfold width_before; csimpl; lia|].
      rewrite length_take. unfold len. lia.
    - cbn [concat]. by rewrite !app_nil_r, take_drop. }
  rewrite Hslice. cbn [res_bind]. case_bool_decide as El; cbn [negb].
  - split.
    + intros Hr. split; [lia|]. split; [done|]. exists d, (drop n tl).
      split; [done|]. split; [done|]. split; [by rewrite <- El, take_drop|done].
    + intros (_ & _ & d' & k & ->%Hd & _ & _ & Hr). exact Hr.
  - split; [done|]. intros (_ & _ & d' & k & ->%Hd & _ & -> & _). destruct El. apply take_app_length.
Qed.

Lemma decode_claim_iff bytes c : Forall byte bytes ->
  decode_claim bytes = Ok c <-> claim_wire c /\ bytes = encode_claim c.
Proof.
  intros Hb. split.
  - intros H. destruct (decide (CLAIM_FIXED <= len bytes)) as [Hl|Hl].
    2: { unfold decode_claim in H. rewrite (proj2 (N.ltb_lt _ CLAIM_FIXED)) in H by lia.
         by rewrite orb_true_r in H. }
    destruct bytes as [|v [|t [|b0 [|b1 tl]]]]; try (unfold len, CLAIM_FIXED in Hl; simpl in Hl; lia).
    change (v :: t :: b0 :: b1 :: tl) with ([v] ++ [t] ++ [b0; b1] ++ tl) in *.
    assert (Ec : [v] ++ [t] ++ [b0; b1] ++ tl = concat [[v]; [t]; [b0; b1]; tl]) by (simpl; by rewrite app_nil_r).
    rewrite Ec in H. apply decode_claim_parts in H as (_ & -> & d & k & -> & E & -> & H); [|done].
    rewrite <- Ec in H. apply claim_rest_iff in H as (Hw & Hlt & Ek); [|done|].
    2: { rewrite !length_app. cbn [length]. unfold len. lia. }
    pose proof Hw as (Ed & _). split; [by rewrite <- Ed in Hw|]. rewrite encode_claim_fields, Ed, <- Ek, <- E.
    rewrite !Forall_app in Hb. destruct Hb as (_ & _ & Hb & _).
    change 2%nat with (length [b0; b1]). rewrite be_of_be by done. cbn [concat app]. do 4 f_equal.
    rewrite app_nil_r. f_equal. rewrite E.
    replace (N.to_nat (4 + len (domain_label d))) with (4 + length (domain_label d))%nat by (unfold len; lia).
    cbn [drop Nat.add]. by rewrite drop_app_length.
  - intros [Hc ->]. pose proof (encode_claim_bytes c Hc) as Hbytes. destruct Hc as [Hw Hlt].
    pose proof Hw as (_ & _ & _ & Hs & _). pose proof (label_length (cl_domain c)) as Hl.
    pose proof (length_encode_claim c Hs) as Hlen. pose proof (length_claim_fields c Hs) as Hf.
    set (label := domain_label (cl_domain c)) in *.
    assert (Ec : encode_claim c = concat [[CLAIM_VERSION]; [domain_tag (cl_domain c)]; be 2 (len label);
      label ++ written (put_claim_fields c)])
      by (rewrite encode_claim_fields; cbn [concat]; by rewrite !app_nil_r).
    rewrite Ec. apply decode_claim_parts; [apply be_length|]. rewrite <- Ec.
    split; [unfold CLAIM_FIXED, MAX_SIGNED_CLAIM_BYTES; lia|]. split; [done|].
    exists (cl_domain c), (written (put_claim_fields c)). fold label. split; [done|].
    split; [apply of_be_be; change (256 ^ N.of_nat 2) with 65536; lia|]. split; [done|].
    apply claim_rest_iff; [done|unfold len in *; lia|]. split; [done|]. split; [done|].
    rewrite Ec. cbn [concat app]. rewrite app_nil_r.
    replace (N.to_nat (4 + len label)) with (length (CLAIM_VERSION :: domain_tag (cl_domain c) ::
      be 2 (len label) ++ label)) by (cbn [length]; rewrite length_app, be_length; unfold len; lia).
    rewrite app_assoc, !app_comm_cons. apply drop_app_length.
Qed.

Lemma decode_claim_no_panic bytes : Forall byte bytes -> decode_claim bytes <> Panic.
Proof.
  intros Hb. unfold decode_claim, sub_int. destruct (N.ltb_spec MAX_SIGNED_CLAIM_BYTES (len bytes)); [done|].
  destruct (N.ltb_spec (len bytes) CLAIM_FIXED) as [|Hl]; [done|]. cbn [orb].
  destruct bytes as [|v [|t [|b0 [|b1 tl]]]]; try (unfold len, CLAIM_FIXED in Hl; simpl in Hl; lia).
  set (bytes := v :: t :: b0 :: b1 :: tl) in *. cbn [index lookup list_lookup res_bind].
  change (index bytes 0) with (Ok v : res ClaimDecodeError N). change (index bytes 1) with (Ok t : res ClaimDecodeError N).
  cbn [res_bind]. case_match; [done|]. destruct (domain_from_wire t); [cbn [ok_or res_bind]|done].
  change (sub_slice bytes 2 (2 + 2)) with (Ok [b0; b1] : res ClaimDecodeError (list N)). cbn [res_bind].
  case_match; [done|]. destruct (N.ltb_spec (len bytes) (4 + of_be [b0; b1])) as [|Hle]; [done|].
  destruct (sub_slice_total (Er := ClaimDecodeError) bytes 4 (N.to_nat (of_be [b0; b1]))) as (s & Hs & _);
    [unfold len in Hle; lia|].
  replace (N.to_nat (4 + of_be [b0; b1])) with (4 + N.to_nat (of_be [b0; b1]))%nat by lia. rewrite Hs. cbn [res_bind].
  case_match; [done|]. by apply claim_rest_no_panic.
Qed.

(** The signed claim as its fields. *)
Lemma encode_signed_claim_fields s : encode_signed_claim s = concat [be 4 (len (encode_claim (sc_claim s)));
  encode_claim (sc_claim s); be 16 (sc_issuer s); sc_signature s].
Proof. unfold encode_signed_claim, put_signed_claim. split_written. cbn [concat]. by rewrite <- ?app_assoc, app_nil_r. Qed.

Lemma decode_signed_parts b bytes i sg s : length b = 4%nat -> length i = 16%nat -> length sg = 64%nat ->
  Forall byte b -> of_be b = len bytes -> len bytes <= 200 ->
  decode_signed_claim (concat [b; bytes; i; sg]) = Ok s <->
  len bytes <= 172 /\ exists c, decode_claim bytes = Ok c /\ s = mkSignedClaim c (of_be i) sg.
Proof.
  intros Hb Hi Hs Hbytes E Hmax. unfold decode_signed_claim, sub_int.
  assert (Hl : len (concat [b; bytes; i; sg]) = 84 + len bytes).
  { unfold len. cbn [concat]. rewrite !length_app, Hb, Hi, Hs. simpl. lia. }
  rewrite Hl. unfold MAX_SIGNED_CLAIM_BYTES. destruct (N.ltb_spec 256 (84 + len bytes)); [split; [done|lia]|].
  rewrite (proj2 (N.ltb_ge _ 4)) by lia. read_field 0. rewrite E. unfold checked_add.
  do 2 (rewrite (proj2 (N.ltb_lt _ (2 ^ 64))) by (change (2 ^ 64) with 18446744073709551616; lia);
    cbn [ok_or res_bind]).
  do 2 (rewrite (proj2 (N.ltb_ge _ _)) by lia).
  assert (Hn : N.to_nat (len bytes) = length bytes) by (unfold len; lia).
  read_field 1. destruct (decode_claim bytes) as [c|e|]; cbn [res_bind].
  2-3: split; [done|]; by intros (_ & c & ? & _).
  read_field 2. read_field 3. split.
  - intros [= <-]. split; [lia|]. by exists c.
  - by intros (_ & c' & [= <-] & ->).
Qed.

Lemma decode_signed_claim_iff bytes s : Forall byte bytes ->
  decode_signed_claim bytes = Ok s <-> signed_claim_wire s /\ bytes = encode_signed_claim s.
Proof.
  intros Hb. split.
  - intros H. pose proof H as Hdec. unfold decode_signed_claim in H.
    destruct (N.ltb_spec MAX_SIGNED_CLAIM_BYTES (len bytes)) as [|Hmax]; [done|].
    destruct (N.ltb_spec (len bytes) 4) as [|H4]; [done|]. unfold len, MAX_SIGNED_CLAIM_BYTES in *.
    destruct (sub_int_cut (Er := ClaimDecodeError) bytes 0 4 Hb ltac:(lia)) as (n & R & Hn & D0).
    rewrite R in H. cbn [res_bind] in H. unfold checked_add in H. change (256 ^ N.of_nat 4) with 4294967296 in Hn.
    rewrite !(proj2 (N.ltb_lt _ (2 ^ 64))) in H by (change (2 ^ 64) with 18446744073709551616; lia).
    cbn [ok_or res_bind] in H.
    rewrite !(proj2 (N.ltb_lt _ (2 ^ 64))) in H by (change (2 ^ 64) with 18446744073709551616; lia).
    cbn [ok_or res_bind] in H.
    destruct (N.ltb_spec (N.of_nat (length bytes)) (4 + n + (16 + 64))) as [|L1]; [done|].
    destruct (N.ltb_spec (4 + n + (16 + 64)) (N.of_nat (length bytes))) as [|L2]; [done|].
    destruct (cut_fields [4; N.to_nat n; 16; 64]%nat bytes) as (ps & E & Hw); [simpl; lia|].
    do 4 (destruct ps as [|? ps]; [done|]). destruct ps; [|done]. csimpl in Hw. injection Hw as W1 W2 W3 W4.
    rewrite E in Hb. cbn [concat] in Hb. rewrite !Forall_app in Hb. destruct Hb as (B1 & B2 & B3 & B4 & _).
    assert (En : of_be l = n).
    { assert (Ok (of_be l) = (Ok n : res ClaimDecodeError N)) as [=]; [|done]. rewrite <- R, E. unfold sub_int.
      by read_field 0. }
    assert (El : of_be l = len l0) by (unfold len; rewrite W2, En; lia).
    rewrite E in Hdec. apply decode_signed_parts in Hdec as (_ & c & Hc & ->); [|done|done|done|done|done|unfold len; lia].
    apply decode_claim_iff in Hc as [Hc ->]; [|done]. split.
    + split; [done| |done]. by eapply of_be_width.
    + rewrite E, encode_signed_claim_fields. cbn [sc_claim sc_issuer sc_signature].
      by rewrite <- El, (be_of_width 4 l), (be_of_width 16 l1).
  - intros [[Hc Hi [Hs Hsl]] ->]. rewrite encode_signed_claim_fields. pose proof Hc as [(_ & _ & _ & Hsub & _) _].
    pose proof (length_encode_claim _ Hsub). pose proof (label_length (cl_domain (sc_claim s))).
    apply decode_signed_parts; [apply be_length|apply be_length|done|apply be_bytes| |lia|].
    + apply of_be_be. change (256 ^ N.of_nat 4) with 4294967296. lia.
    + split; [lia|]. exists (sc_claim s). split; [by apply decode_claim_iff; [apply encode_claim_bytes|]|].
      rewrite of_be_be by done. by destruct s.
Qed.

Lemma decode_signed_claim_no_panic bytes : Forall byte bytes -> decode_signed_claim bytes <> Panic.
Proof.
  intros Hb. unfold decode_signed_claim. case_match; [done|].
  destruct (N.ltb_spec (len bytes) 4) as [|H4]; [done|]. unfold len in *.
  destruct (sub_int_total (Er := ClaimDecodeError) bytes 0 4 ltac:(lia)) as (n & ->). cbn [res_bind].
  unfold checked_add. case_match; [|done]. cbn [ok_or res_bind]. case_match; [|done]. cbn [ok_or res_bind].
  destruct (N.ltb_spec (N.of_nat (length bytes)) (4 + n + (16 + 64))) as [|L1]; [done|].
  destruct (N.ltb_spec (4 + n + (16 + 64)) (N.of_nat (length bytes))) as [|L2]; [done|].
  destruct (sub_slice_cut (Er := ClaimDecodeError) bytes 4 (N.to_nat n) Hb ltac:(lia)) as (c & Hc & _ & Hcb & _).
  replace (N.to_nat (4 + n)) with (4 + N.to_nat n)%nat by lia. rewrite Hc. cbn [res_bind].
  pose proof (decode_claim_no_panic c Hcb). destruct (decode_claim c); [cbn [res_bind]|done..].
  destruct (sub_int_total (Er := ClaimDecodeError) bytes (4 + N.to_nat n) 16 ltac:(lia)) as (i & ->). cbn [res_bind].
  replace (N.to_nat (4 + n + (16 + 64))) with (4 + N.to_nat n + 16 + 64)%nat by lia.
  by destruct (sub_slice_total (Er := ClaimDecodeError) bytes (4 + N.to_nat n + 16) 64 ltac:(lia)) as (s & -> & _).
Qed.

(** The signed bytes determine the claim and the issuer. *)
Lemma claim_transcript_inj s1 s2 : claim_wire (sc_claim s1) -> claim_wire (sc_claim s2) ->
  u 128 (sc_issuer s1) -> u 128 (sc_issuer s2) -> claim_transcript s1 = claim_transcript s2 ->
  sc_claim s1 = sc_claim s2 /\ sc_issuer s1 = sc_issuer s2.
Proof.
  intros H1 H2 I1 I2 E. unfold claim_transcript in E. apply app_inv_head in E.
  assert (Hz : sig_wire (replicate 64 0)) by (split; [by apply Forall_replicate|done]).
  assert (Ee : encode_signed_claim (mkSignedClaim (sc_claim s1) (sc_issuer s1) (replicate 64 0)) =
    encode_signed_claim (mkSignedClaim (sc_claim s2) (sc_issuer s2) (replicate 64 0))).
  { unfold encode_signed_claim. rewrite !(written_seq (put_signed_claim _)) by apply _.
    unfold put_signed_claim in *. cbn [sc_claim sc_issuer sc_signature]. by rewrite E. }
  set (t1 := mkSignedClaim (sc_claim s1) (sc_issuer s1) (replicate 64 0)) in *.
  set (t2 := mkSignedClaim (sc_claim s2) (sc_issuer s2) (replicate 64 0)) in *.
  assert (W1 : signed_claim_wire t1) by by split.
  assert (W2 : signed_claim_wire t2) by by split.
  assert (Hb : Forall byte (encode_signed_claim t1)).
  { rewrite encode_signed_claim_fields. cbn [concat]. rewrite !Forall_app. split_and!;
      [apply be_bytes|by apply encode_claim_bytes|apply be_bytes|apply Hz|done]. }
  pose proof (proj2 (decode_signed_claim_iff _ t1 Hb) (conj W1 eq_refl)) as D1.
  pose proof (proj2 (decode_signed_claim_iff _ t2 Hb) (conj W2 Ee)) as D2. rewrite D1 in D2.
  by injection D2.
Qed.
