(* ===== verification/ClaimWindow.v ===== *)
(** What the window of signed claims accepts, and properties of signed claims
    ([SignedClaims]). *)
From stdpp Require Import gmap sorting.
From S2P Require Import Prelude Bytes Wire Signed SignedClaims.

Section Window.
Context (sha256 : list N -> list N) `{Hed : Ed25519}.

(** The claim is signed by [key] and valid at [now] in this context. *)
Record claim_authentic (s : SignedClaim) (key : list N) (expected : ClaimContext) (now : N) : Prop := {
  ca_strong : is_weak key = false;
  ca_issuer : sc_issuer s = peer_id_from_key sha256 key;
  ca_context : mkClaimContext (cl_domain (sc_claim s)) (cl_realm (sc_claim s)) (cl_session (sc_claim s))
    (cl_audience (sc_claim s)) (cl_epoch (sc_claim s)) = expected;
  ca_lifetime : cl_issued_at (sc_claim s) < cl_expires_at (sc_claim s);
  ca_now : cl_issued_at (sc_claim s) <= now <= cl_expires_at (sc_claim s);
  ca_signature : verify_strict key (claim_transcript s) (sc_signature s) = true;
}.

Lemma verify_claim_Ok s key expected now : verify_claim sha256 s key expected now = Ok tt <->
  claim_authentic s key expected now.
Proof.
  unfold verify_claim, verify_context. split.
  - intros ([] & Hc & Hv)%res_bind_Ok. repeat (case_match; [done|]). bool_to_prop.
    split; try done. destruct expected. cbn in *. congruence.
  - intros [Hw Hi <- Hl [Hn1 Hn2] Hs]. rewrite Hw, Hi. cbn [cc_domain cc_realm cc_session cc_audience cc_epoch].
    rewrite (proj2 (N.leb_gt _ _)) by done. rewrite bool_decide_true, !N.eqb_refl by done. cbn [negb].
    rewrite !(proj2 (N.ltb_ge _ _)) by done. cbn [res_bind]. by rewrite Hs.
Qed.

Lemma verify_claim_no_panic s key expected now : verify_claim sha256 s key expected now <> Panic.
Proof. unfold verify_claim, verify_context. by repeat (case_match; [done|]; cbn [res_bind]). Qed.

(** The lexicographic order of epoch and sequence. *)
Definition newer (a b : N * N) : Prop := a.1 < b.1 \/ (a.1 = b.1 /\ a.2 < b.2).

Definition position (a : Accepted) : N * N := (ac_epoch a, ac_sequence a).

(** The claim is newer than the last of its scope, or the scope is new and
    there is room. *)
Definition claim_fresh (w : ClaimReplayWindow) (s : SignedClaim) (key : list N) : Prop :=
  match cw_accepted w !! scope_of s key with
  | Some previous => newer (position previous) (position (accepted_of sha256 s))
  | None => N.of_nat (size (cw_accepted w)) < cw_limit w
  end.

Definition record_claim (w : ClaimReplayWindow) (s : SignedClaim) (key : list N) : ClaimReplayWindow :=
  mkClaimWindow (<[scope_of s key := accepted_of sha256 s]> (cw_accepted w)) (cw_limit w).

(** Why an authentic claim is not accepted. *)
Definition claim_refusal (w : ClaimReplayWindow) (s : SignedClaim) (key : list N) : ClaimVerifyError :=
  match cw_accepted w !! scope_of s key with
  | Some previous =>
      if bool_decide (position previous = position (accepted_of sha256 s)) &&
         negb (bool_decide (ac_digest previous = claim_digest sha256 s))
      then ClaimEquivocation else ClaimReplay
  | None => ClaimCapacity
  end.

Lemma accept_claim_eq s key expected now w :
  match verify_claim sha256 s key expected now with
  | Err e => accept_claim sha256 s key expected now w = (Err e, w)
  | _ => (claim_fresh w s key /\ accept_claim sha256 s key expected now w = (Ok tt, record_claim w s key)) \/
      (~ claim_fresh w s key /\ accept_claim sha256 s key expected now w = (Err (claim_refusal w s key), w))
  end.
Proof.
  pose proof (verify_claim_no_panic s key expected now) as Hp. unfold accept_claim, bind at 1, lift.
  destruct (verify_claim _ _ _ _ _) as [[]|e|]; [|done..]. unfold bind, get, claim_fresh, claim_refusal, newer, position.
  destruct (cw_accepted w !! scope_of s key) as [p|].
  - cbn [ac_epoch ac_sequence ac_digest accepted_of fst snd].
    destruct (N.ltb_spec (cl_epoch (sc_claim s)) (ac_epoch p)) as [|He1].
    { right. split; [lia|]. rewrite bool_decide_false; [done|]. intros [=]. lia. }
    destruct (N.ltb_spec (ac_epoch p) (cl_epoch (sc_claim s))) as [|He2]; [left; split; [lia|done]|].
    destruct (N.ltb_spec (cl_sequence (sc_claim s)) (ac_sequence p)) as [|Hs1].
    { right. split; [lia|]. rewrite bool_decide_false; [done|]. intros [=]. lia. }
    destruct (N.ltb_spec (ac_sequence p) (cl_sequence (sc_claim s))) as [|Hs2]; [left; split; [lia|done]|].
    right. split; [lia|]. rewrite (bool_decide_true ((_, _) = _)) by (f_equal; lia). cbn [andb].
    case_bool_decide as Hd; case_bool_decide; simpl; first [done|congruence].
  - destruct (N.leb_spec (cw_limit w) (N.of_nat (size (cw_accepted w)))); [right|left]; (split; [lia|done]).
Qed.

Lemma accept_claim_Ok s key expected now w w' : accept_claim sha256 s key expected now w = (Ok tt, w') <->
  claim_authentic s key expected now /\ claim_fresh w s key /\ w' = record_claim w s key.
Proof.
  pose proof (accept_claim_eq s key expected now w) as H. pose proof (verify_claim_no_panic s key expected now) as Hp.
  rewrite <- verify_claim_Ok. destruct (verify_claim _ _ _ _ _) as [[]|e|]; [| |done].
  - destruct H as [[Hf ->]|[Hf ->]]; (split; [intros [=]|intros (_ & ? & ->)]); subst; done.
  - rewrite H. split; [done|by intros [? _]].
Qed.

(** ** Runs *)

Definition ClaimCall : Type := SignedClaim * list N * ClaimContext * N.

(** The accepted claims with their keys, in order. *)
Fixpoint accept_all (calls : list ClaimCall) (w : ClaimReplayWindow) :
    list (SignedClaim * list N) * ClaimReplayWindow :=
  match calls with
  | [] => ([], w)
  | (s, key, expected, now) :: calls =>
      let '(r, w1) := accept_claim sha256 s key expected now w in
      let '(xs, w2) := accept_all calls w1 in
      (match r with Ok _ => (s, key) :: xs | _ => xs end, w2)
  end.

(** Accepted claims of one scope come in increasing order. *)
Definition in_order (a b : SignedClaim * list N) : Prop :=
  scope_of a.1 a.2 = scope_of b.1 b.2 ->
  newer (cl_epoch (sc_claim a.1), cl_sequence (sc_claim a.1)) (cl_epoch (sc_claim b.1), cl_sequence (sc_claim b.1)).

Lemma newer_trans a b c : newer a b -> newer b c -> newer a c.
Proof. unfold newer. lia. Qed.

Definition moved (w w' : ClaimReplayWindow) : Prop := cw_limit w' = cw_limit w /\
  (N.of_nat (size (cw_accepted w)) <= cw_limit w -> N.of_nat (size (cw_accepted w')) <= cw_limit w) /\
  forall scope p, cw_accepted w !! scope = Some p -> exists p', cw_accepted w' !! scope = Some p' /\
    (position p = position p' \/ newer (position p) (position p')).

Lemma moved_refl w : moved w w.
Proof. split; [done|]. split; [done|]. intros scope p H. exists p. auto. Qed.

Lemma moved_trans w1 w2 w3 : moved w1 w2 -> moved w2 w3 -> moved w1 w3.
Proof.
  intros (L1 & S1 & M1) (L2 & S2 & M2). split; [congruence|]. rewrite L1 in S2. split; [tauto|].
  intros scope p (p2 & E2 & H2)%M1. apply M2 in E2 as (p3 & E3 & H3). exists p3. split; [done|].
  destruct H2 as [->|H2], H3 as [<-|H3]; auto. right. by eapply newer_trans.
Qed.

Lemma record_moved w s key : claim_fresh w s key -> moved w (record_claim w s key).
Proof.
  unfold claim_fresh. intros Hf. split; [done|]. cbn. split.
  - intros Hs. destruct (cw_accepted w !! scope_of s key) as [p|] eqn:E.
    + by rewrite map_size_insert_Some by (by rewrite E).
    + rewrite map_size_insert_None by done. lia.
  - intros scope p E. destruct (decide (scope = scope_of s key)) as [->|Hne].
    + rewrite lookup_insert_eq. eexists. split; [done|]. right. by rewrite E in Hf.
    + rewrite lookup_insert_ne by done. exists p. auto.
Qed.

Lemma accept_moved s key expected now w : moved w (snd (accept_claim sha256 s key expected now w)).
Proof.
  pose proof (accept_claim_eq s key expected now w) as H.
  destruct (verify_claim _ _ _ _ _) as [[]|e|]; [|rewrite H; apply moved_refl|].
  all: destruct H as [[Hf ->]|[_ ->]]; [by apply record_moved|apply moved_refl].
Qed.

Lemma accept_all_spec calls w :
  let '(xs, w') := accept_all calls w in
  moved w w' /\ StronglySorted in_order xs /\
  (forall x, x ∈ xs -> (exists expected now, (x.1, x.2, expected, now) ∈ calls /\ claim_authentic x.1 x.2 expected now) /\
     forall p, cw_accepted w !! scope_of x.1 x.2 = Some p ->
       newer (position p) (cl_epoch (sc_claim x.1), cl_sequence (sc_claim x.1))).
Proof.
  revert w. induction calls as [|[[[s key] expected] now] calls IH]; intros w; cbn [accept_all].
  { split; [apply moved_refl|]. split; [constructor|]. by intros x ?%elem_of_nil. }
  pose proof (accept_moved s key expected now w) as M1.
  destruct (accept_claim sha256 s key expected now w) as [r w1] eqn:Ea. cbn [snd] in M1.
  specialize (IH w1). destruct (accept_all calls w1) as [xs w2]. destruct IH as (M2 & Hs & Hx).
  split; [by eapply moved_trans|].
  assert (Hxs : forall x, x ∈ xs -> (exists e n, (x.1, x.2, e, n) ∈ (s, key, expected, now) :: calls /\ claim_authentic x.1 x.2 e n) /\
     forall p, cw_accepted w !! scope_of x.1 x.2 = Some p ->
       newer (position p) (cl_epoch (sc_claim x.1), cl_sequence (sc_claim x.1))).
  { intros x ((e & n & Hin & Ha) & Hp)%Hx. split; [exists e, n; split; [by right|done]|].
    intros p (p1 & E1 & H1)%M1. specialize (Hp p1 E1). destruct H1 as [->|H1]; [done|by eapply newer_trans]. }
  destruct r as [[]|e|]; [|done..].
  apply accept_claim_Ok in Ea as (Ha & Hf & ->). split.
  - constructor; [done|]. apply Forall_forall. intros x Hin Esc. apply Hx in Hin as [_ Hp].
    cbn [fst snd] in Esc. apply (Hp (accepted_of sha256 s)). cbn. rewrite <- Esc. apply lookup_insert_eq.
  - intros x [->|Hin]%elem_of_cons; [|by apply Hxs]. split; [exists expected, now; split; [left|done]|].
    intros p E. cbn in *. unfold claim_fresh in Hf. by rewrite E in Hf.
Qed.

Lemma sign_claim_authentic `{!Ed25519Laws Hed} c seed now :
  is_weak (verifying_key seed) = false -> cl_issued_at c < cl_expires_at c ->
  cl_issued_at c <= now <= cl_expires_at c ->
  claim_authentic (sign_claim sha256 c seed) (verifying_key seed)
    (mkClaimContext (cl_domain c) (cl_realm c) (cl_session c) (cl_audience c) (cl_epoch c)) now.
Proof. intros Hw Hl Hn. split; try done. by apply verify_sign. Qed.
End Window.

(** ** Properties *)

(** Claims and signed claims decode from exactly their canonical bytes, and
    decoding never panics; a well-formed signed claim always fits the bound;
    the signed bytes determine the claim, its domain included, and the issuer;
    and a claim that is signed with a strong key decodes from its encoding and
    verifies for that key in its own context as long as it lives. *)
Theorem signed_claim_canonical sha256 (Hed : Ed25519) (Hsha : Sha256 sha256) (Hlaws : Ed25519Laws Hed) :
  (forall raw, Forall byte raw ->
     (forall c, decode_claim raw = Ok c <-> claim_wire c /\ raw = encode_claim c) /\
     (forall s, decode_signed_claim raw = Ok s <-> signed_claim_wire s /\ raw = encode_signed_claim s) /\
     decode_claim raw <> Panic /\ decode_signed_claim raw <> Panic) /\
  (forall s, signed_claim_wire s -> len (encode_signed_claim s) <= MAX_SIGNED_CLAIM_BYTES) /\
  (forall s1 s2, signed_claim_wire s1 -> signed_claim_wire s2 -> claim_transcript s1 = claim_transcript s2 ->
     sc_claim s1 = sc_claim s2 /\ sc_issuer s1 = sc_issuer s2) /\
  (forall c seed now, claim_wire c -> is_weak (verifying_key seed) = false ->
     cl_issued_at c <= now <= cl_expires_at c ->
     decode_signed_claim (encode_signed_claim (sign_claim sha256 c seed)) = Ok (sign_claim sha256 c seed) /\
     verify_claim sha256 (sign_claim sha256 c seed) (verifying_key seed)
       (mkClaimContext (cl_domain c) (cl_realm c) (cl_session c) (cl_audience c) (cl_epoch c)) now = Ok tt).
Proof.
  split_and!.
  - intros raw Hb. split_and!; [intros; by apply decode_claim_iff|intros; by apply decode_signed_claim_iff|
      by apply decode_claim_no_panic|by apply decode_signed_claim_no_panic].
  - intros s [[(_ & _ & _ & Hs & _) _] _ [_ Hl]]. rewrite encode_signed_claim_fields. unfold len. cbn [concat].
    rewrite !length_app, !be_length, Hl. pose proof (length_encode_claim _ Hs) as H. unfold len in H.
    pose proof (label_length (cl_domain (sc_claim s))) as L. unfold len in L. unfold MAX_SIGNED_CLAIM_BYTES.
    change (length []) with 0%nat. lia.
  - intros s1 s2 [C1 I1 _] [C2 I2 _]. by apply claim_transcript_inj.
  - intros c seed now Hc Hw Hn. pose proof Hc as [_ Hlt]. split.
    + assert (Hwire : signed_claim_wire (sign_claim sha256 c seed)).
      { split; [done| |apply sign_bytes_wire]. cbn. unfold peer_id_from_key.
        destruct (sha256_wire (sha256 := sha256) (verifying_key seed)) as [Hb Hl].
        apply (Layout.of_be_width 16); [by apply Forall_take|by rewrite length_take, Hl|done]. }
      apply decode_signed_claim_iff; [|done]. rewrite encode_signed_claim_fields. cbn [concat].
      rewrite !Forall_app. split_and!; [apply be_bytes|by apply encode_claim_bytes|apply be_bytes|apply Hwire|done].
    + apply verify_claim_Ok. by apply sign_claim_authentic.
Qed.

Definition toy_claim (sequence epoch subject : N) : Claim :=
  mkClaim Capability 7 8 (replicate 32 subject) sequence epoch 10 20 55.
Definition toy_signed_claim (sequence epoch subject : N) : SignedClaim :=
  sign_claim (Hed := toy_ed25519) poly_hash (toy_claim sequence epoch subject) (replicate 32 9).

Lemma signed_claim_canonical_witness :
  decode_signed_claim (encode_signed_claim (toy_signed_claim 1 2 3)) = Ok (toy_signed_claim 1 2 3) /\
  verify_claim (Hed := toy_ed25519) poly_hash (toy_signed_claim 1 2 3) (poly_hash (replicate 32 9))
    (mkClaimContext Capability 7 8 55 2) 20 = Ok tt.
Proof.
  apply (proj2 (proj2 (proj2 (signed_claim_canonical poly_hash toy_ed25519 poly_hash_sha256 toy_laws)))).
  - split; [|reflexivity]. split; [done|]. split; [reflexivity|]. split; [reflexivity|].
    split; [split; [by apply Forall_replicate|done]|]. split_and!; reflexivity.
  - reflexivity.
  - done.
Defined.

(** The claim window.  A claim is accepted exactly when it is signed by the
    given strong key for the expected context, alive, and newer than the last
    accepted claim of its scope, or of a new scope while there is room; a
    refusal changes nothing, and an authentic claim that reuses the epoch and
    sequence of the last one is called an equivocation exactly when its digest
    differs.  Over any calls the accepted claims of one scope have strictly
    increasing epoch and sequence, every one was authentic in its call, and the
    number of scopes stays within the limit, which is at most 1024. *)
Theorem claim_window_exact sha256 (Hed : Ed25519) :
  (forall s key expected now w,
     (forall w', accept_claim sha256 s key expected now w = (Ok tt, w') <->
        claim_authentic sha256 s key expected now /\ claim_fresh sha256 w s key /\ w' = record_claim sha256 w s key) /\
     (forall e w', accept_claim sha256 s key expected now w = (Err e, w') -> w' = w) /\
     (claim_authentic sha256 s key expected now -> ~ claim_fresh sha256 w s key ->
        fst (accept_claim sha256 s key expected now w) = Err (claim_refusal sha256 w s key)) /\
     fst (accept_claim sha256 s key expected now w) <> Panic) /\
  (forall limit calls,
     let '(xs, w) := accept_all sha256 calls (with_limit limit) in
     StronglySorted in_order xs /\
     (forall x, x ∈ xs -> exists expected now, (x.1, x.2, expected, now) ∈ calls /\
        claim_authentic sha256 x.1 x.2 expected now) /\
     N.of_nat (size (cw_accepted w)) <= N.min limit DEFAULT_REPLAY_LIMIT).
Proof.
  split.
  - intros s key expected now w. pose proof (accept_claim_eq sha256 s key expected now w) as H.
    pose proof (verify_claim_no_panic sha256 s key expected now) as Hp.
    split; [intros; apply accept_claim_Ok|]. rewrite <- verify_claim_Ok.
    destruct (verify_claim _ _ _ _ _) as [[]|e|]; [| |done].
    + destruct H as [[Hf ->]|[Hf ->]]; (split; [by intros ? ? [=]|]); (split; [|done]); tauto.
    + rewrite H. split; [by intros ? ? [=]|]. split; [done|done].
  - intros limit calls. pose proof (accept_all_spec sha256 calls (with_limit limit)) as H.
    destruct (accept_all sha256 calls (with_limit limit)) as [xs w]. destruct H as ((_ & Hs & _) & Ho & Hx).
    split; [done|]. split; [intros x Hin; by apply Hx|]. apply Hs. cbn. rewrite map_size_empty. lia.
Qed.

(** Calls in which a claim is repeated and one equivocates. *)
Definition toy_claim_calls : list ClaimCall :=
  let call s := (s, poly_hash (replicate 32 9), mkClaimContext Capability 7 8 55 2, 15) in
  [call (toy_signed_claim 1 2 3); call (toy_signed_claim 1 2 3); call (toy_signed_claim 1 2 4);
   call (toy_signed_claim 2 2 4)].

Lemma claim_window_exact_witness :
  length (fst (accept_all (Hed := toy_ed25519) poly_hash toy_claim_calls (with_limit 5))) = 2%nat /\
  StronglySorted in_order (fst (accept_all (Hed := toy_ed25519) poly_hash toy_claim_calls (with_limit 5))).
Proof.
  split; [vm_compute; reflexivity|].
  pose proof (proj2 (claim_window_exact poly_hash toy_ed25519) 5 toy_claim_calls) as H.
  destruct (accept_all _ _ _) as [xs w]. apply H.
Defined.
