(* ===== verification/Utf8.v ===== *)
(** Text and plain arithmetic of Rust. *)
From S2P Require Import Prelude.

(** UTF-8 text: [str::from_utf8] of the Rust standard library, the characters
    of a [str], and [char::is_control]. *)

(** A [str]: its bytes, and the code points [chars] iterates over. *)
Record str : Type := mkStr { str_bytes : list N; str_chars : list N }.

Definition continuation (b : N) : bool := in_range 128 191 b.

(** The second byte that may follow a leading byte of three, and of four. *)
Definition second_of_three (a b : N) : bool :=
  (a =? 224) && in_range 160 191 b
  || in_range 225 236 a && continuation b
  || (a =? 237) && in_range 128 159 b
  || in_range 238 239 a && continuation b.

Definition second_of_four (a b : N) : bool :=
  (a =? 240) && in_range 144 191 b
  || in_range 241 243 a && continuation b
  || (a =? 244) && in_range 128 143 b.

(** The payload of a continuation byte. *)
Definition payload (b : N) : N := N.land b 63.

Fixpoint utf8_chars (l : list N) : option (list N) :=
  match l with
  | [] => Some []
  | a :: l1 =>
      if a <? 128 then cons a <$> utf8_chars l1
      else
        match l1 with
        | [] => None
        | b :: l2 =>
            if in_range 194 223 a then
              if continuation b then cons (N.land a 31 * 64 + payload b) <$> utf8_chars l2 else None
            else
              match l2 with
              | [] => None
              | c :: l3 =>
                  if second_of_three a b then
                    if continuation c
                    then cons ((N.land a 15 * 64 + payload b) * 64 + payload c) <$> utf8_chars l3
                    else None
                  else
                    match l3 with
                    | [] => None
                    | d :: l4 =>
                        if second_of_four a b && continuation c && continuation d
                        then cons (((N.land a 7 * 64 + payload b) * 64 + payload c) * 64 + payload d)
                               <$> utf8_chars l4
                        else None
                    end
              end
        end
  end.

Definition from_utf8 (bytes : list N) : option str := mkStr bytes <$> utf8_chars bytes.

(** The general category Cc. *)
Definition is_control (c : N) : bool := (c <=? 31) || in_range 127 159 c.

Lemma from_utf8_Some bytes s :
  from_utf8 bytes = Some s <-> str_bytes s = bytes /\ utf8_chars bytes = Some (str_chars s).
Proof.
  unfold from_utf8. destruct s as [b cs]. destruct (utf8_chars bytes); simpl; naive_solver.
Qed.

(** The operators [+], [-] and [*] of Rust on [u64] and [usize], both 64 bits
    wide: a result out of range is a run-time panic of a build with overflow
    checks, so that freedom from overflow is part of panic freedom. *)

Section Plain.
Context {E : Type}.

Definition plain (n : N) : res E N := if n <? 2 ^ 64 then Ok n else Panic.
Definition plain_add (a b : N) : res E N := plain (a + b).
Definition plain_mul (a b : N) : res E N := plain (a * b).
Definition plain_sub (a b : N) : res E N := if b <=? a then Ok (a - b) else Panic.

Lemma plain_ok n : n < 2 ^ 64 -> plain n = Ok n.
Proof. intros H. unfold plain. by rewrite (proj2 (N.ltb_lt _ _)). Qed.
Lemma plain_add_ok a b : a + b < 2 ^ 64 -> plain_add a b = Ok (a + b).
Proof. apply plain_ok. Qed.
Lemma plain_mul_ok a b : a * b < 2 ^ 64 -> plain_mul a b = Ok (a * b).
Proof. apply plain_ok. Qed.
Lemma plain_sub_ok a b : b <= a -> plain_sub a b = Ok (a - b).
Proof. intros H. unfold plain_sub. by rewrite (proj2 (N.leb_le _ _)). Qed.
End Plain.

(** Evaluate the next plain operation; the bound is left if [lia] cannot tell. *)
Ltac plain_step :=
  match goal with
  | |- context [plain_add ?a ?b] => rewrite (plain_add_ok a b) by lia
  | |- context [plain_mul ?a ?b] => rewrite (plain_mul_ok a b) by lia
  | |- context [plain_sub ?a ?b] => rewrite (plain_sub_ok a b) by lia
  end; cbn [res_bind].
