(* ===== verification/DirectCodec.v ===== *)
(** Records of direct rooms and their codec
    (src/crates/vhalla-direct-room/src/{codec,records}.rs). *)
From Stdlib Require Import Ascii String.
From stdpp Require Import sorting.
From S2P Require Import Prelude Bytes PrefixFree Wire Signed Utf8 OrderedMap.

(** Records of direct rooms (src/crates/vhalla-direct-room/src/records.rs,
    codec.rs and the errors of lib.rs): genesis, owner policies and events, with
    their canonical codec, their structural checks and their signatures.  The
    macro [record!] of the source is the section [Record], whose parameters are
    the class [RecordKind]. *)

Inductive RoomError : Type :=
| RBounds | RCapacity | REncoding | RProtocol | RKey | RSigner | RSignature | RScope | ROwner
| RPolicy | RPolicyPending | RAuthor | RSequence | RDuplicate | RGap | RFork | RReplay | RExhausted
| RStaleBase | RStalePolicy.
#[global] Instance RoomError_eq_dec : EqDecision RoomError. Proof. solve_decision. Defined.

(** The newtypes [RoomId], [PolicyId] and [EventId] of 32 bytes. *)
Definition RoomId : Type := list N.
Definition PolicyId : Type := list N.
Definition EventId : Type := list N.
Definition ZERO : list N := replicate 32 0.

Definition MAX_WRITERS : N := 64.
Definition MAX_TEXT_BYTES : N := 4096.
Definition MAX_GENESIS_BYTES : N := 5 + 32 + 32 + 2 + 32 * MAX_WRITERS + 64.
Definition MAX_POLICY_BYTES : N :=
  5 + 32 + 32 + 8 + 32 + 2 + 32 * MAX_WRITERS + 2 + 72 * MAX_WRITERS + 64.
Definition MAX_ROOM_EVENT_BYTES : N := 5 + 32 + 32 + 32 + 8 + 32 + 8 + 4 + MAX_TEXT_BYTES + 64.

Definition GENESIS_MAGIC : list N := bytes_of "VHDG" ++ [1].
Definition POLICY_MAGIC : list N := bytes_of "VHDP" ++ [1].
Definition EVENT_MAGIC : list N := bytes_of "VHDE" ++ [1].
Definition GENESIS_DOMAIN : list N := bytes_of "vhalla/direct-room/genesis/v1" ++ [0].
Definition POLICY_DOMAIN : list N := bytes_of "vhalla/direct-room/policy/v1" ++ [0].
Definition ROOM_EVENT_DOMAIN : list N := bytes_of "vhalla/direct-room/event/v1" ++ [0].
Definition POLICY_ROOT_DOMAIN : list N := bytes_of "vhalla/direct-room/policy-root/v1" ++ [0].

(** ** Text *)

Record Text : Type := mkText { text_bytes : list N }.

(** Newline and tab are the only control characters. *)
Definition bad_char (c : N) : bool := is_control c && negb (c =? 10) && negb (c =? 9).

Definition Text_new (text : str) : res RoomError Text :=
  if (len (str_bytes text) =? 0) || (MAX_TEXT_BYTES <? len (str_bytes text)) then Err RBounds
  else if existsb bad_char (str_chars text) then Err REncoding
  else Ok (mkText (str_bytes text)).

Definition text_of_utf8 (bytes : list N) : res RoomError Text :=
  let? text := ok_or (from_utf8 bytes) REncoding in Text_new text.

(** ** Claims *)

Record GenesisClaims : Type := mkGenesis {
  ge_owner : list N; ge_nonce : list N; ge_writers : list (list N);
}.

Record SealHead : Type := mkSeal { sl_author : list N; sl_sequence : N; sl_event : EventId }.

Record PolicyClaims : Type := mkPolicy {
  po_room : RoomId; po_owner : list N; po_revision : N; po_previous : PolicyId;
  po_writers : list (list N); po_sealed_heads : list SealHead;
}.

Record EventClaims : Type := mkEvent {
  ev_room : RoomId; ev_policy : PolicyId; ev_author : list N; ev_sequence : N;
  ev_previous : EventId; ev_created_at : N; ev_text : Text;
}.

(** ** The reader and the writer *)

(** [Reader::new] *)
Definition r_magic (magic : list N) : reads RoomError unit :=
  let! found := r_slice 5 REncoding in
  if bool_decide (found = magic) then ret tt else throw RProtocol.

Definition r_bounded_count (max : N) : reads RoomError N :=
  let! count := r_int 2 REncoding in
  if max <? count then throw RBounds else ret count.

(** [to_be_bytes] of [len as u16] truncates, as [w_u16] does. *)
Definition w_list {A} (put : A -> Writer -> Writer) (l : list A) : Writer -> Writer :=
  w_u16 (len l) >> w_all put l.
Definition r_list {A} (max : N) (g : reads RoomError A) : reads RoomError (list A) :=
  let! count := r_bounded_count max in r_repeat (N.to_nat count) g.

Definition put_writers : list (list N) -> Writer -> Writer := w_list w_bytes.
Definition get_writers : reads RoomError (list (list N)) := r_list MAX_WRITERS (r_slice 32 REncoding).

Definition put_genesis (c : GenesisClaims) : Writer -> Writer :=
  w_bytes GENESIS_MAGIC >> w_bytes (ge_owner c) >> w_bytes (ge_nonce c) >> put_writers (ge_writers c).
Definition get_genesis : reads RoomError GenesisClaims :=
  do! r_magic GENESIS_MAGIC in
  let! owner := r_slice 32 REncoding in
  let! nonce := r_slice 32 REncoding in
  let! writers := get_writers in
  ret (mkGenesis owner nonce writers).

Definition put_seal (s : SealHead) : Writer -> Writer :=
  w_bytes (sl_author s) >> w_u64 (sl_sequence s) >> w_bytes (sl_event s).
Definition get_seal : reads RoomError SealHead :=
  let! author := r_slice 32 REncoding in
  let! sequence := r_int 8 REncoding in
  let! event := r_slice 32 REncoding in
  ret (mkSeal author sequence event).

Definition put_policy (c : PolicyClaims) : Writer -> Writer :=
  w_bytes POLICY_MAGIC >> w_bytes (po_room c) >> w_bytes (po_owner c) >> w_u64 (po_revision c)
  >> w_bytes (po_previous c) >> put_writers (po_writers c) >> w_list put_seal (po_sealed_heads c).
Definition get_policy : reads RoomError PolicyClaims :=
  do! r_magic POLICY_MAGIC in
  let! room := r_slice 32 REncoding in
  let! owner := r_slice 32 REncoding in
  let! revision := r_int 8 REncoding in
  let! previous := r_slice 32 REncoding in
  let! writers := get_writers in
  let! sealed_heads := r_list MAX_WRITERS get_seal in
  ret (mkPolicy room owner revision previous writers sealed_heads).

Definition put_text (t : Text) : Writer -> Writer := w_sized w_u32 (text_bytes t).
Definition get_text : reads RoomError Text :=
  let! bytes := r_sized (r_int 4 REncoding) MAX_TEXT_BYTES RBounds REncoding in
  lift (text_of_utf8 bytes).

Definition put_room_event (c : EventClaims) : Writer -> Writer :=
  w_bytes EVENT_MAGIC >> w_bytes (ev_room c) >> w_bytes (ev_policy c) >> w_bytes (ev_author c)
  >> w_u64 (ev_sequence c) >> w_bytes (ev_previous c) >> w_u64 (ev_created_at c) >> put_text (ev_text c).
Definition get_room_event : reads RoomError EventClaims :=
  do! r_magic EVENT_MAGIC in
  let! room := r_slice 32 REncoding in
  let! policy := r_slice 32 REncoding in
  let! author := r_slice 32 REncoding in
  let! sequence := r_int 8 REncoding in
  let! previous := r_slice 32 REncoding in
  let! created_at := r_int 8 REncoding in
  let! text := get_text in
  ret (mkEvent room policy author sequence previous created_at text).

(** ** Structural checks *)

Section Checks.
Context `{Hed : Ed25519}.

Definition room_key (key : list N) : res RoomError (list N) :=
  if negb (valid_key key) then Err RKey
  else if is_weak key then Err RKey
  else Ok key.

(** [windows(2).any(|pair| pair[0] >= pair[1])] of the keys [f]. *)
Definition unsorted {A} (f : A -> list N) (l : list A) : bool :=
  windows_any (fun a b => bool_decide (key_le (f b) (f a))) l.

Definition writers_check (writers : list (list N)) (owner : list N) : res RoomError unit :=
  let? _ := room_key owner in
  if (len writers =? 0) || (MAX_WRITERS <? len writers) then Err RBounds
  else
    let? _ := res_fold (fun _ key => let? _ := room_key key in Ok tt) tt writers in
    if unsorted id writers then Err REncoding
    else if negb (contains_sorted writers owner) then Err ROwner
    else Ok tt.

Definition genesis_check (c : GenesisClaims) : res RoomError unit :=
  if bool_decide (ge_nonce c = ZERO) then Err REncoding
  else writers_check (ge_writers c) (ge_owner c).

Definition seal_check (s : SealHead) : res RoomError unit :=
  let? _ := room_key (sl_author s) in
  if (sl_sequence s =? 0) || bool_decide (sl_event s = ZERO) then Err RSequence else Ok tt.

Definition policy_check (c : PolicyClaims) : res RoomError unit :=
  if bool_decide (po_room c = ZERO) || bool_decide (po_previous c = ZERO) then Err RScope
  else if po_revision c =? 0 then Err RSequence
  else
    let? _ := writers_check (po_writers c) (po_owner c) in
    if MAX_WRITERS <? len (po_sealed_heads c) then Err RBounds
    else
      let? _ := res_fold (fun _ => seal_check) tt (po_sealed_heads c) in
      if unsorted sl_author (po_sealed_heads c) then Err REncoding else Ok tt.

Definition event_check (c : EventClaims) : res RoomError unit :=
  if bool_decide (ev_room c = ZERO) || bool_decide (ev_policy c = ZERO) then Err RScope
  else
    let? _ := room_key (ev_author c) in
    if (ev_sequence c =? 0) || negb (eqb (ev_sequence c =? 1) (bool_decide (ev_previous c = ZERO)))
    then Err RSequence
    else Ok tt.
End Checks.

(** ** Signed records *)

(** The arguments of [record!]: claims, their codec, the check, the signer, the
    domain and the bound on a signed frame. *)
Class RecordKind (C : Type) : Type := {
  rk_put : C -> Writer -> Writer;
  rk_get : reads RoomError C;
  rk_check : Ed25519 -> C -> res RoomError unit;
  rk_signer : C -> list N;
  rk_domain : list N;
  rk_max : N;
}.

#[export] Instance genesis_kind : RecordKind GenesisClaims := {|
  rk_put := put_genesis; rk_get := get_genesis; rk_check := @genesis_check; rk_signer := ge_owner;
  rk_domain := GENESIS_DOMAIN; rk_max := MAX_GENESIS_BYTES;
|}.
#[export] Instance policy_kind : RecordKind PolicyClaims := {|
  rk_put := put_policy; rk_get := get_policy; rk_check := @policy_check; rk_signer := po_owner;
  rk_domain := POLICY_DOMAIN; rk_max := MAX_POLICY_BYTES;
|}.
#[export] Instance event_kind : RecordKind EventClaims := {|
  rk_put := put_room_event; rk_get := get_room_event; rk_check := @event_check; rk_signer := ev_author;
  rk_domain := ROOM_EVENT_DOMAIN; rk_max := MAX_ROOM_EVENT_BYTES;
|}.

Record UnsignedRecord (C : Type) : Type := mkUnsigned { un_claims : C; un_id : list N }.
Record SignedRecord (C : Type) : Type := mkSignedRecord {
  sr_unsigned : UnsignedRecord C; sr_signature : list N;
}.
(** The source constructs it in [verify] only. *)
Record VerifiedRecord (C : Type) : Type := mkVerifiedRecord { vr_signed : SignedRecord C }.
Arguments mkUnsigned {C}.
Arguments un_claims {C}.
Arguments un_id {C}.
Arguments mkSignedRecord {C}.
Arguments sr_unsigned {C}.
Arguments sr_signature {C}.
Arguments mkVerifiedRecord {C}.
Arguments vr_signed {C}.

(** [claims] and [id] of a verified record. *)
Definition claims {C} (v : VerifiedRecord C) : C := un_claims (sr_unsigned (vr_signed v)).
Definition record_id {C} (v : VerifiedRecord C) : list N := un_id (sr_unsigned (vr_signed v)).

Section Record.
Context (sha256 : list N -> list N) `{Hed : Ed25519} {C : Type} `{Hk : RecordKind C}.
Implicit Types (c : C) (u : UnsignedRecord C) (s : SignedRecord C).

Definition encode_record (c : C) : list N := written (rk_put c).

(** What is hashed, and what is signed. *)
Definition record_preimage (c : C) : list N := rk_domain ++ encode_record c.
Definition signing_bytes (u : UnsignedRecord C) : list N := record_preimage (un_claims u).

Definition unsigned_new (c : C) : res RoomError (UnsignedRecord C) :=
  let? _ := rk_check Hed c in
  Ok (mkUnsigned c (sha256 (record_preimage c))).

Definition unsigned_decode (bytes : list N) : res RoomError (UnsignedRecord C) :=
  if rk_max - 64 <? len bytes then Err RBounds
  else
    let? c := parse_all (fun _ => REncoding) rk_get bytes in
    unsigned_new c.

Definition check_signature (u : UnsignedRecord C) (signature : list N) : res RoomError unit :=
  let? key := room_key (rk_signer (un_claims u)) in
  if verify_strict key (signing_bytes u) signature then Ok tt else Err RSignature.

Definition attach_signature (u : UnsignedRecord C) (signature : list N) : res RoomError (SignedRecord C) :=
  let? _ := check_signature u signature in
  Ok (mkSignedRecord u signature).

(** [seed] is the signing key. *)
Definition sign_record (u : UnsignedRecord C) (seed : list N) : res RoomError (SignedRecord C) :=
  if negb (bool_decide (verifying_key seed = rk_signer (un_claims u))) then Err RSigner
  else attach_signature u (sign_bytes seed (signing_bytes u)).

Definition decode_signed_record (bytes : list N) : res RoomError (SignedRecord C) :=
  if rk_max <? len bytes then Err RBounds
  else
    let? split := ok_or (checked_sub (len bytes) 64) REncoding in
    let? unsigned := sub_slice bytes 0 (N.to_nat split) in
    let? unsigned := unsigned_decode unsigned in
    let? signature := sub_slice bytes (N.to_nat split) (length bytes) in
    Ok (mkSignedRecord unsigned signature).

Definition encode_signed_record (s : SignedRecord C) : list N :=
  encode_record (un_claims (sr_unsigned s)) ++ sr_signature s.

Definition verify_record (s : SignedRecord C) : res RoomError (VerifiedRecord C) :=
  let? _ := check_signature (sr_unsigned s) (sr_signature s) in
  Ok (mkVerifiedRecord s).
End Record.

Definition VerifiedGenesis : Type := VerifiedRecord GenesisClaims.
Definition VerifiedPolicy : Type := VerifiedRecord PolicyClaims.
Definition VerifiedEvent : Type := VerifiedRecord EventClaims.

Record PinnedGenesis : Type := mkPinned { pg_genesis : VerifiedGenesis }.

Definition verify_pin `{Ed25519} (s : SignedRecord GenesisClaims) (expected : RoomId) :
    res RoomError PinnedGenesis :=
  let? verified := verify_record s in
  if negb (bool_decide (record_id verified = expected)) then Err RScope
  else Ok (mkPinned verified).

Definition initial_policy (sha256 : list N -> list N) (room : RoomId) : PolicyId :=
  sha256 (POLICY_ROOT_DOMAIN ++ room).

(** The codec laws of the records of direct rooms ([DirectCodec]): typed
    claims of each kind, what their checks accept, and the exact frames that
    decode. *)

(** ** Codecs of the parts *)

Lemma codec_magic magic : Forall byte magic -> length magic = 5%nat ->
  Codec (fun _ : unit => True) (fun _ => w_bytes magic) (r_magic magic).
Proof.
  intros Hm Hl. assert (Codec (fun l => Forall byte l /\ length l = 5%nat) w_bytes (r_slice 5 REncoding))
    by (apply codec_slice; lia).
  unfold r_magic. apply codec_intro; [apply _|done| | |].
  - apply safe_bind. intros l. case_bool_decide; apply _.
  - intros r k [] r' Hr E Hg. inv_reads Hg Hr E. case_bool_decide; [|done]. subst.
    unfold ret in Hg. injection Hg as <-. split; [done|]. by eexists _, _.
  - intros r k [] Hr _ E. fwd_read E; [|done]. by rewrite bool_decide_true.
Qed.

Lemma codec_room_list {A} {wf : A -> Prop} {put} {g : reads RoomError A} `{!Codec wf put g} max :
  max < 2 ^ 16 -> Codec (fun l => len l <= max /\ Forall wf l) (w_list put) (r_list max g).
Proof.
  intros Hmax. assert (Happ : forall a, Appends (put a)) by apply codec_appends.
  assert (Hu : forall l : list A, len l <= max -> u 16 (len l)) by (unfold u; intros; lia).
  assert (Codec (fun n => n <= max) w_u16 (r_bounded_count max)).
  { unfold r_bounded_count. apply codec_intro; [apply _|intros; apply be_bytes| | |].
    - apply safe_bind. intros n. destruct (max <? n); apply _.
    - intros r k n r' Hr E Hg. inv_reads Hg Hr E. destruct (N.ltb_spec max a); [done|].
      unfold ret in Hg. injection Hg as <- <-. split; [lia|]. by eexists _, _.
    - intros r k n Hr Hn E. fwd_read E; [|unfold u; lia]. by rewrite (proj2 (N.ltb_ge _ _)). }
  unfold r_list, w_list. apply codec_intro; [apply _| | | |].
  - intros l [_ Hl]. rewrite written_seq by apply _. apply Forall_app. split; [apply be_bytes|].
    by apply (codec_bytes (g := r_repeat (length l) g)).
  - apply safe_bind. intros n. apply _.
  - intros r k l r' Hr E Hg. inv_reads Hg Hr E.
    apply (inv_last (wf := fun l => length l = N.to_nat a /\ Forall wf l) (put := w_all put) _ _ _ _ _ Hr E) in Hg
      as ([Hl Hf] & k' & E' & ->). assert (a = len l) as -> by (unfold len; lia).
    split; [done|]. eexists _, _. split; [exact E'|]. split; [done|]. by rewrite written_seq by apply _.
  - intros r k l Hr [Hl Hf] E. rewrite written_seq in * by apply _. rewrite <- app_assoc in E.
    fwd_read E; [|done]. erewrite (fwd_last (wf := fun l' => length l' = N.to_nat (len l) /\ Forall wf l') _ l).
    + done.
    + done.
    + by rewrite E.
    + split; [unfold len; lia|done].
Qed.

#[export] Instance codec_writers :
  Codec (fun l => len l <= MAX_WRITERS /\ Forall hash_wire l) put_writers get_writers.
Proof. by apply codec_room_list. Qed.

Definition seal_typed (s : SealHead) : Prop :=
  hash_wire (sl_author s) /\ u 64 (sl_sequence s) /\ hash_wire (sl_event s).

#[export] Instance codec_seal : Codec seal_typed put_seal get_seal.
Proof. unfold seal_typed. codec_tac put_seal get_seal. Qed.

#[export] Instance codec_seals :
  Codec (fun l => len l <= MAX_WRITERS /\ Forall seal_typed l) (w_list put_seal) (r_list MAX_WRITERS get_seal).
Proof. by apply codec_room_list. Qed.

(** ** Text *)

Definition text_valid (t : Text) : Prop := Forall byte (text_bytes t) /\ text_of_utf8 (text_bytes t) = Ok t.

Lemma text_of_utf8_Ok bytes t : text_of_utf8 bytes = Ok t <->
  text_bytes t = bytes /\ 1 <= len bytes <= MAX_TEXT_BYTES /\
  exists chars, utf8_chars bytes = Some chars /\ Forall (fun c => bad_char c = false) chars.
Proof.
  unfold text_of_utf8, Text_new, from_utf8. destruct (utf8_chars bytes) as [cs|]; cbn [ok_or fmap option_fmap option_map res_bind].
  2: { split; [done|]. by intros (_ & _ & ? & ? & _). }
  cbn [str_bytes str_chars]. destruct ((len bytes =? 0) || (MAX_TEXT_BYTES <? len bytes)) eqn:El.
  { apply orb_true_iff in El. rewrite N.eqb_eq, N.ltb_lt in El. split; [done|]. lia. }
  bool_to_prop. destruct (existsb bad_char cs) eqn:Ee.
  - split; [done|]. intros (_ & _ & ? & [= <-] & He). apply List.existsb_exists in Ee as (c & Hc & Ec).
    apply list_elem_of_In in Hc. by rewrite (proj1 (Forall_forall _ _) He c Hc) in Ec.
  - destruct t as [b]. simpl. split; [|by intros (-> & _)].
    intros [= <-]. split; [done|]. split; [lia|]. exists cs. split; [done|]. apply Forall_forall.
    intros c Hc. apply not_true_iff_false. intros Ec. apply list_elem_of_In in Hc.
    assert (existsb bad_char cs = true) by (apply List.existsb_exists; eauto). congruence.
Qed.

Lemma text_of_utf8_total bytes : text_of_utf8 bytes <> Panic.
Proof.
  unfold text_of_utf8, from_utf8, Text_new. destruct (utf8_chars bytes); simpl; [|done].
  by repeat case_match.
Qed.

Lemma text_bounds t : text_valid t -> 1 <= len (text_bytes t) <= MAX_TEXT_BYTES.
Proof. intros [_ (_ & H & _)%text_of_utf8_Ok]. done. Qed.

#[export] Instance codec_text : Codec text_valid put_text get_text.
Proof.
  assert (Codec (fun l => Forall byte l /\ len l <= MAX_TEXT_BYTES) (w_sized w_u32)
    (r_sized (Er := RoomError) (r_int 4 REncoding) MAX_TEXT_BYTES RBounds REncoding)) by by apply codec_sized.
  unfold get_text, put_text. apply codec_intro; [unfold w_sized; apply _| | | |].
  - intros t [Ht _]. by apply bytes_sized32.
  - apply safe_bind. intros bytes r _. apply text_of_utf8_total.
  - intros r k t r' Hr E Hg. inv_reads Hg Hr E. unfold lift in Hg. injection Hg as Ht <-.
    apply text_of_utf8_Ok in Ht as Ht'. destruct Ht' as [<- _]. split; [by split; [destruct Ha|]|].
    by eexists _, _.
  - intros r k t Hr Ht E. pose proof (text_bounds t Ht). destruct Ht as [Hb Ht]. fwd_read E; [|by split; [|lia]].
    unfold lift. by rewrite Ht.
Qed.

(** ** Claims *)

Definition genesis_typed (c : GenesisClaims) : Prop :=
  hash_wire (ge_owner c) /\ hash_wire (ge_nonce c) /\
  (len (ge_writers c) <= MAX_WRITERS /\ Forall hash_wire (ge_writers c)).

Definition policy_typed (c : PolicyClaims) : Prop :=
  hash_wire (po_room c) /\ hash_wire (po_owner c) /\ u 64 (po_revision c) /\ hash_wire (po_previous c) /\
  (len (po_writers c) <= MAX_WRITERS /\ Forall hash_wire (po_writers c)) /\
  (len (po_sealed_heads c) <= MAX_WRITERS /\ Forall seal_typed (po_sealed_heads c)).

Definition event_typed (c : EventClaims) : Prop :=
  hash_wire (ev_room c) /\ hash_wire (ev_policy c) /\ hash_wire (ev_author c) /\ u 64 (ev_sequence c) /\
  hash_wire (ev_previous c) /\ u 64 (ev_created_at c) /\ text_valid (ev_text c).

Lemma magic_ok magic : bool_decide (Forall byte magic /\ length magic = 5%nat) = true ->
  Codec (fun _ : unit => True) (fun _ => w_bytes magic) (r_magic magic).
Proof. intros [??]%bool_decide_eq_true. by apply codec_magic. Qed.

#[export] Instance codec_genesis_magic : Codec (fun _ : unit => True) (fun _ => w_bytes GENESIS_MAGIC) (r_magic GENESIS_MAGIC).
Proof. by apply magic_ok. Qed.
#[export] Instance codec_policy_magic : Codec (fun _ : unit => True) (fun _ => w_bytes POLICY_MAGIC) (r_magic POLICY_MAGIC).
Proof. by apply magic_ok. Qed.
#[export] Instance codec_event_magic : Codec (fun _ : unit => True) (fun _ => w_bytes EVENT_MAGIC) (r_magic EVENT_MAGIC).
Proof. by apply magic_ok. Qed.

Lemma bytes_genesis_magic : Forall byte (written (w_bytes GENESIS_MAGIC)).
Proof. by apply (bool_decide_eq_true_1 _). Qed.
Lemma bytes_policy_magic : Forall byte (written (w_bytes POLICY_MAGIC)).
Proof. by apply (bool_decide_eq_true_1 _). Qed.
Lemma bytes_event_magic : Forall byte (written (w_bytes EVENT_MAGIC)).
Proof. by apply (bool_decide_eq_true_1 _). Qed.
Lemma bytes_writers l : len l <= MAX_WRITERS -> Forall hash_wire l -> Forall byte (written (put_writers l)).
Proof. intros. by apply (codec_bytes (g := get_writers)). Qed.
Lemma bytes_seals l : len l <= MAX_WRITERS -> Forall seal_typed l -> Forall byte (written (w_list put_seal l)).
Proof. intros. by apply (codec_bytes (g := r_list MAX_WRITERS get_seal)). Qed.
Lemma bytes_text t : text_valid t -> Forall byte (written (put_text t)).
Proof. apply (codec_bytes (g := get_text)). Qed.
#[export] Hint Resolve bytes_genesis_magic bytes_policy_magic bytes_event_magic bytes_writers bytes_seals
  bytes_text : bytes.

#[export] Instance codec_genesis : Codec genesis_typed put_genesis get_genesis.
Proof. unfold genesis_typed. codec_tac put_genesis get_genesis; tauto. Unshelve. all: exact tt. Qed.

#[export] Instance codec_policy : Codec policy_typed put_policy get_policy.
Proof. unfold policy_typed. codec_tac put_policy get_policy; tauto. Unshelve. all: exact tt. Qed.

#[export] Instance codec_room_event : Codec event_typed put_room_event get_room_event.
Proof. unfold event_typed. codec_tac put_room_event get_room_event. Unshelve. all: exact tt. Qed.
