(* ===== verification/DirectFacts.v ===== *)
(** What the checks and the signatures of direct-room records establish
    ([DirectCodec]): the claims that pass, the frames that decode, and the
    records that verify. *)
From stdpp Require Import sorting.
From S2P Require Import Prelude Bytes PrefixFree Wire Signed Layout OrderedMap Invitation.
From S2P Require Import Utf8 DirectCodec.

Section Checks.
Context `{Hed : Ed25519}.

Lemma room_key_Ok bytes key : room_key bytes = Ok key <-> strong_key bytes /\ key = bytes.
Proof. unfold room_key, strong_key. destruct (valid_key bytes), (is_weak bytes); simpl; naive_solver. Qed.

Lemma room_key_total bytes : room_key bytes <> Panic.
Proof. unfold room_key. by repeat case_match. Qed.

(** A loop that only checks. *)
Lemma check_all_Ok {A} (f : A -> res RoomError unit) (P : A -> Prop) l :
  (forall a, f a = Ok tt <-> P a) -> res_fold (fun _ => f) tt l = Ok tt <-> Forall P l.
Proof.
  intros Hf. induction l as [|a l IH]; [by split|]. cbn [res_fold]. rewrite res_bind_Ok, Forall_cons, <- Hf.
  split; [intros ([] & -> & H); tauto|]. intros [? ?]. exists tt. tauto.
Qed.

Lemma check_all_total {A} (f : A -> res RoomError unit) l :
  (forall a, f a <> Panic) -> res_fold (fun _ => f) tt l <> Panic.
Proof.
  intros Hf. induction l as [|a l IH]; [done|]. cbn [res_fold]. specialize (Hf a). by destruct (f a) as [[]| |].
Qed.

Lemma keys_check_Ok l : res_fold (fun _ key => let? _ := room_key key in Ok tt) tt l = Ok tt <-> Forall strong_key l.
Proof.
  apply (check_all_Ok (fun key => let? _ := room_key key in Ok tt) strong_key).
  intros a. rewrite res_bind_Ok. setoid_rewrite room_key_Ok. naive_solver.
Qed.

Lemma unsorted_false {A} (f : A -> list N) l : unsorted f l = false <-> sorted_by f l.
Proof. exact (windows_sorted f l). Qed.

Record writers_ok (writers : list (list N)) (owner : list N) : Prop := {
  wk_owner : strong_key owner;
  wk_bounds : 1 <= len writers <= MAX_WRITERS;
  wk_keys : Forall strong_key writers;
  wk_sorted : sorted_by id writers;
  wk_member : owner ∈ writers;
}.

Lemma writers_check_Ok writers owner : writers_check writers owner = Ok tt <-> writers_ok writers owner.
Proof.
  unfold writers_check. rewrite res_bind_Ok. split.
  - intros (k & [Hk _]%room_key_Ok & H). case_match eqn:El; [done|]. apply res_bind_Ok in H as ([] & Hf & H).
    case_match eqn:Es; [done|]. case_match eqn:Ec; [done|]. apply unsorted_false in Es. bool_to_prop.
    apply contains_sorted_true in Ec; [|done].
    apply keys_check_Ok in Hf.
    split; [done|lia|done..].
  - intros [Hk Hb Hf Hs Hm]. exists owner. split; [by apply room_key_Ok|].
    rewrite (proj2 (N.eqb_neq _ _)) by lia. rewrite (proj2 (N.ltb_ge _ _)) by lia. cbn [orb].
    rewrite (proj2 (keys_check_Ok writers) Hf). cbn [res_bind].
    rewrite (proj2 (unsorted_false id _)) by done. by rewrite (proj2 (contains_sorted_true _ _ Hs)).
Qed.

Lemma writers_check_total writers owner : writers_check writers owner <> Panic.
Proof.
  unfold writers_check. pose proof (room_key_total owner). destruct (room_key owner); [simpl|done..].
  case_match; [done|].
  assert (res_fold (fun _ key => let? _ := room_key key in Ok tt) tt writers <> Panic).
  { apply (check_all_total (fun key => let? _ := room_key key in Ok tt)). intros k.
    pose proof (room_key_total k). by destruct (room_key k). }
  destruct (res_fold _ _ _); cbn [res_bind]; [|done..]. by repeat case_match.
Qed.

Record genesis_ok (c : GenesisClaims) : Prop := {
  gk_nonce : ge_nonce c <> ZERO;
  gk_writers : writers_ok (ge_writers c) (ge_owner c);
}.

Lemma genesis_check_Ok c : genesis_check c = Ok tt <-> genesis_ok c.
Proof.
  unfold genesis_check. case_bool_decide as E; [split; [done|by intros [? _]]|].
  rewrite writers_check_Ok. split; [done|by intros []].
Qed.

Record seal_ok (s : SealHead) : Prop := {
  sk_author : strong_key (sl_author s);
  sk_sequence : 1 <= sl_sequence s;
  sk_event : sl_event s <> ZERO;
}.

Lemma seal_check_Ok s : seal_check s = Ok tt <-> seal_ok s.
Proof.
  unfold seal_check. rewrite res_bind_Ok. split.
  - intros (k & [Hk _]%room_key_Ok & H). case_match eqn:E; [done|]. bool_to_prop. split; [done|lia|done].
  - intros [Hk Hs He]. exists (sl_author s). split; [by apply room_key_Ok|].
    rewrite (proj2 (N.eqb_neq _ _)) by lia. by rewrite bool_decide_false.
Qed.

Record policy_ok (c : PolicyClaims) : Prop := {
  pk_room : po_room c <> ZERO;
  pk_previous : po_previous c <> ZERO;
  pk_revision : 1 <= po_revision c;
  pk_writers : writers_ok (po_writers c) (po_owner c);
  pk_seals_bound : len (po_sealed_heads c) <= MAX_WRITERS;
  pk_seals : Forall seal_ok (po_sealed_heads c);
  pk_sorted : sorted_by sl_author (po_sealed_heads c);
}.

Lemma policy_check_Ok c : policy_check c = Ok tt <-> policy_ok c.
Proof.
  unfold policy_check. split.
  - intros H. case_match eqn:E; [done|]. case_match eqn:Er; [done|].
    apply res_bind_Ok in H as ([] & Hw%writers_check_Ok & H). case_match eqn:El; [done|].
    apply res_bind_Ok in H as ([] & Hs & H). apply (check_all_Ok _ _ _ seal_check_Ok) in Hs.
    case_match eqn:Eu; [done|]. apply unsorted_false in Eu. bool_to_prop. split; (done || lia).
  - intros [Hr Hp Hv Hw Hl Hs Hu]. rewrite !bool_decide_false by done. cbn [orb].
    rewrite (proj2 (N.eqb_neq _ _)) by lia. rewrite (proj2 (writers_check_Ok _ _) Hw). cbn [res_bind].
    rewrite (proj2 (N.ltb_ge _ _)) by done. rewrite (proj2 (check_all_Ok _ _ _ seal_check_Ok) Hs). cbn [res_bind].
    by rewrite (proj2 (unsorted_false _ _)).
Qed.

Record event_ok (c : EventClaims) : Prop := {
  ek_room : ev_room c <> ZERO;
  ek_policy : ev_policy c <> ZERO;
  ek_author : strong_key (ev_author c);
  ek_sequence : 1 <= ev_sequence c;
  ek_first : ev_sequence c = 1 <-> ev_previous c = ZERO;
}.

Lemma event_check_Ok c : event_check c = Ok tt <-> event_ok c.
Proof.
  unfold event_check. split.
  - intros H. case_match eqn:E; [done|]. apply res_bind_Ok in H as (k & [Hk _]%room_key_Ok & H).
    case_match eqn:Es; [done|]. bool_to_prop.
    match goal with H : eqb _ _ = true |- _ => apply eqb_prop in H end.
    split; [done..|lia|]. destruct (N.eqb_spec (ev_sequence c) 1), (bool_decide_reflect (ev_previous c = ZERO)); naive_solver.
  - intros [Hr Hp Ha Hs Hf]. rewrite !bool_decide_false by done. cbn [orb].
    rewrite (proj2 (room_key_Ok _ _) (conj Ha eq_refl)). cbn [res_bind].
    rewrite (proj2 (N.eqb_neq _ _)) by lia. cbn [orb].
    assert ((ev_sequence c =? 1) = bool_decide (ev_previous c = ZERO)) as ->; [|by rewrite eqb_reflx].
    destruct (N.eqb_spec (ev_sequence c) 1), (bool_decide_reflect (ev_previous c = ZERO)); tauto.
Qed.
End Checks.

(** ** The three kinds *)

(** Typed claims of a kind, their codec and the bound of their frames. *)
Class RecordLaws (C : Type) `{RecordKind C} (typed : C -> Prop) : Prop := {
  rl_codec :: Codec typed rk_put rk_get;
  rl_fits c : typed c -> len (written (rk_put c)) + 64 <= rk_max;
  rl_total (Hed : Ed25519) c : rk_check Hed c <> Panic;
}.

Lemma length_all {A} (put : A -> Writer -> Writer) n l `{!forall a, Appends (put a)} :
  Forall (fun a => length (written (put a)) = n) l -> length (written (w_all put l)) = (length l * n)%nat.
Proof.
  intros Hf. rewrite written_all by done. induction Hf as [|a l Ha Hf IH]; [done|]. csimpl.
  rewrite length_app, IH, Ha. lia.
Qed.

Lemma length_writers l : Forall hash_wire l -> length (written (put_writers l)) = (2 + 32 * length l)%nat.
Proof.
  intros Hf. unfold put_writers, w_list. split_written. rewrite length_app, length_w_u16.
  rewrite (length_all w_bytes 32); [lia|apply _|]. eapply Forall_impl; [exact Hf|]. by intros a [_ Ha].
Qed.

Lemma length_seals l : Forall seal_typed l -> length (written (w_list put_seal l)) = (2 + 72 * length l)%nat.
Proof.
  intros Hf. unfold w_list. split_written. rewrite length_app, length_w_u16.
  rewrite (length_all put_seal 72); [lia|apply _|]. eapply Forall_impl; [exact Hf|]. intros a ([_ Ha] & _ & [_ He]).
  unfold put_seal. split_written. rewrite !length_app. autorewrite with written_length. lia.
Qed.

#[export] Instance genesis_laws : RecordLaws GenesisClaims genesis_typed.
Proof.
  split; [apply _| |].
  - intros c ([_ Ho] & [_ Hn] & Hl & Hf). simpl rk_put. unfold put_genesis. split_written.
    unfold len in *. rewrite !length_app, length_writers by done. autorewrite with written_length.
    change (length GENESIS_MAGIC) with 5%nat. change rk_max with 2183. change MAX_WRITERS with 64 in Hl. lia.
  - intros Hed c. simpl. unfold genesis_check. case_match; [done|]. apply writers_check_total.
Qed.

#[export] Instance policy_laws : RecordLaws PolicyClaims policy_typed.
Proof.
  split; [apply _| |].
  - intros c ([_ Hr] & [_ Ho] & _ & [_ Hp] & [Hl Hf] & Hl2 & Hf2). simpl rk_put. unfold put_policy. split_written.
    unfold len in *. rewrite !length_app, length_writers, length_seals by done. autorewrite with written_length.
    change (length POLICY_MAGIC) with 5%nat. change rk_max with 6833. change MAX_WRITERS with 64 in *. lia.
  - intros Hed c. simpl. unfold policy_check. do 2 (case_match; [done|]).
    pose proof (writers_check_total (po_writers c) (po_owner c)). destruct (writers_check _ _); simpl; [|done..].
    case_match; [done|].
    assert (res_fold (fun _ => seal_check) tt (po_sealed_heads c) <> Panic).
    { apply check_all_total. intros s. unfold seal_check. pose proof (room_key_total (sl_author s)).
      destruct (room_key (sl_author s)); simpl; [|done..]. by case_match. }
    destruct (res_fold _ _ _); simpl; [|done..]. by case_match.
Qed.

#[export] Instance event_laws : RecordLaws EventClaims event_typed.
Proof.
  split; [apply _| |].
  - intros c ([_ Hr] & [_ Hp] & [_ Ha] & _ & [_ He] & _ & Ht%text_bounds). simpl rk_put. unfold put_room_event, put_text, w_sized.
    split_written. unfold len in *. rewrite !length_app. autorewrite with written_length.
    change (length EVENT_MAGIC) with 5%nat. change rk_max with 4313. change MAX_TEXT_BYTES with 4096 in *. lia.
  - intros Hed c. simpl. unfold event_check. case_match; [done|].
    pose proof (room_key_total (ev_author c)). destruct (room_key _); simpl; [|done..]. by case_match.
Qed.

(** ** Frames and signatures *)

Section Record.
Context (sha256 : list N -> list N) `{Hed : Ed25519} {C : Type} `{Hk : RecordKind C} {typed : C -> Prop}
  {Hlaws : RecordLaws C typed}.
Implicit Types (c : C) (u : UnsignedRecord C) (s : SignedRecord C) (v : VerifiedRecord C).

Record unsigned_ok u : Prop := {
  uk_typed : typed (un_claims u);
  uk_check : rk_check Hed (un_claims u) = Ok tt;
  uk_id : un_id u = sha256 (record_preimage (un_claims u));
}.

Definition signed_ok s : Prop := unsigned_ok (sr_unsigned s) /\ sig_wire (sr_signature s).

(** What the source's private constructor guarantees. *)
Definition authentic v : Prop :=
  signed_ok (vr_signed v) /\ check_signature (sr_unsigned (vr_signed v)) (sr_signature (vr_signed v)) = Ok tt.

Lemma check_signature_Ok u signature : check_signature u signature = Ok tt <->
  strong_key (rk_signer (un_claims u)) /\
  verify_strict (rk_signer (un_claims u)) (signing_bytes u) signature = true.
Proof.
  unfold check_signature. rewrite res_bind_Ok. split.
  - intros (k & [Hs ->]%room_key_Ok & H). by destruct (verify_strict _ _ _).
  - intros [Hs Hv]. exists (rk_signer (un_claims u)). rewrite Hv. split; [by apply room_key_Ok|done].
Qed.

Lemma check_signature_total u signature : check_signature u signature <> Panic.
Proof.
  unfold check_signature. pose proof (room_key_total (rk_signer (un_claims u))).
  destruct (room_key _); simpl; [|done..]. by case_match.
Qed.

Lemma unsigned_new_Ok c u : unsigned_new sha256 c = Ok u <->
  rk_check Hed c = Ok tt /\ u = mkUnsigned c (sha256 (record_preimage c)).
Proof.
  unfold unsigned_new. rewrite res_bind_Ok. split.
  - by intros ([] & ? & [= <-]).
  - intros [? ->]. by exists tt.
Qed.

Lemma unsigned_decode_iff bytes u : Forall byte bytes ->
  unsigned_decode sha256 bytes = Ok u <-> unsigned_ok u /\ bytes = encode_record (un_claims u).
Proof.
  intros Hb. unfold unsigned_decode, encode_record. split.
  - case_match; [done|]. intros (c & [Ht ->]%parse_all_iff & [Hc ->]%unsigned_new_Ok)%res_bind_Ok; [|done]. done.
  - intros ([Ht Hc Hi] & ->). pose proof (rl_fits _ Ht). rewrite (proj2 (N.ltb_ge _ _)) by lia.
    apply res_bind_Ok. exists (un_claims u). split; [by apply parse_all_iff|].
    apply unsigned_new_Ok. split; [done|]. destruct u. simpl in *. by subst.
Qed.

Lemma unsigned_decode_total bytes : Forall byte bytes -> unsigned_decode sha256 bytes <> Panic.
Proof.
  intros Hb. unfold unsigned_decode. case_match; [done|].
  pose proof (parse_all_total (fun _ => REncoding) (g := rk_get) bytes Hb) as Hp.
  destruct (parse_all _ _ _) as [c|e|]; simpl; [|done..]. unfold unsigned_new.
  pose proof (rl_total Hed c) as Ht. by destruct (rk_check Hed c).
Qed.

(** A frame is a prefix and the last 64 bytes. *)
Lemma split_frame (raw : list N) : 64 <= len raw ->
  exists p q, raw = p ++ q /\ length q = 64%nat /\ checked_sub (len raw) 64 = Some (N.of_nat (length p)).
Proof.
  intros Hl. unfold len in *. exists (take (length raw - 64) raw), (drop (length raw - 64) raw).
  rewrite take_drop, length_drop, length_take. unfold checked_sub. rewrite (proj2 (N.leb_le _ _)) by lia.
  split; [done|]. split; [lia|]. f_equal. lia.
Qed.

Lemma decode_record_frame p q : length q = 64%nat -> len (p ++ q) <= rk_max ->
  decode_signed_record sha256 (p ++ q) =
    let? u := unsigned_decode sha256 p in Ok (mkSignedRecord u q).
Proof.
  intros Hq Hl. unfold decode_signed_record. rewrite (proj2 (N.ltb_ge _ _)) by done. unfold checked_sub.
  unfold len. rewrite length_app, Hq. rewrite (proj2 (N.leb_le _ _)) by lia. cbn [ok_or res_bind].
  replace (N.to_nat (N.of_nat (length p + 64) - 64)) with (length p) by lia.
  assert (concat [p; q] = p ++ q) as <- by (cbn [concat]; by rewrite app_nil_r).
  erewrite (slice_field _ 0 p); [|done|done|lia]. cbn [res_bind]. destruct (unsigned_decode sha256 p); [simpl|done..].
  erewrite (slice_field [p; q] 1 q); [done|done| |].
  - unfold width_before. simpl. lia.
  - lia.
Qed.

Lemma decode_signed_record_iff bytes s : Forall byte bytes ->
  decode_signed_record sha256 bytes = Ok s <-> signed_ok s /\ bytes = encode_signed_record s.
Proof.
  intros Hb. split.
  - intros H. destruct (decide (len bytes <= rk_max)) as [Hm|Hm].
    2: { unfold decode_signed_record in H. by rewrite (proj2 (N.ltb_lt _ _)) in H by lia. }
    destruct (decide (64 <= len bytes)) as [Hl|Hl].
    2: { unfold decode_signed_record, checked_sub in H. rewrite (proj2 (N.ltb_ge _ _)) in H by done.
         by rewrite (proj2 (N.leb_gt _ _)) in H by lia. }
    destruct (split_frame bytes Hl) as (p & q & -> & Hq & _). apply Forall_app in Hb as [Hp Hqb].
    rewrite decode_record_frame in H by done. apply res_bind_Ok in H as (u & [Hu ->]%unsigned_decode_iff & [= <-]); [|done].
    done.
  - intros [[Hu [Hsb Hsl]] ->]. unfold encode_signed_record in *. apply Forall_app in Hb as [Hb _].
    pose proof (rl_fits _ (uk_typed _ Hu)) as Hf. fold (encode_record (un_claims (sr_unsigned s))) in Hf.
    rewrite decode_record_frame; [|done|unfold len in *; rewrite length_app; lia].
    apply res_bind_Ok. exists (sr_unsigned s). split; [by apply unsigned_decode_iff|]. by destruct s.
Qed.

Lemma decode_signed_record_total bytes : Forall byte bytes -> decode_signed_record sha256 bytes <> Panic.
Proof.
  intros Hb. destruct (decide (len bytes <= rk_max)) as [Hm|Hm].
  2: { unfold decode_signed_record. by rewrite (proj2 (N.ltb_lt _ _)) by lia. }
  destruct (decide (64 <= len bytes)) as [Hl|Hl].
  2: { unfold decode_signed_record, checked_sub. rewrite (proj2 (N.ltb_ge _ _)) by done.
       by rewrite (proj2 (N.leb_gt _ _)) by lia. }
  destruct (split_frame bytes Hl) as (p & q & -> & Hq & _). apply Forall_app in Hb as [Hp Hqb].
  rewrite decode_record_frame by done. pose proof (unsigned_decode_total p Hp). by destruct (unsigned_decode _ p).
Qed.

Lemma verify_record_Ok s v : verify_record s = Ok v <->
  check_signature (sr_unsigned s) (sr_signature s) = Ok tt /\ v = mkVerifiedRecord s.
Proof.
  unfold verify_record. rewrite res_bind_Ok. split.
  - by intros ([] & ? & [= <-]).
  - intros [? ->]. by exists tt.
Qed.

(** What decodes and verifies is authentic. *)
Lemma verify_authentic s v : signed_ok s -> verify_record s = Ok v -> authentic v.
Proof. by intros Hs [Hc ->]%verify_record_Ok. Qed.

Lemma sign_record_Ok {Hed_laws : Ed25519Laws Hed} u seed : unsigned_ok u ->
  strong_key (verifying_key seed) -> rk_signer (un_claims u) = verifying_key seed ->
  exists s v, sign_record u seed = Ok s /\ sr_unsigned s = u /\ verify_record s = Ok v /\ authentic v.
Proof.
  intros Hu Hs E. set (s := mkSignedRecord u (sign_bytes seed (signing_bytes u))).
  assert (Hc : check_signature u (sr_signature s) = Ok tt).
  { apply check_signature_Ok. rewrite E. split; [done|]. apply verify_sign, Hs. }
  exists s, (mkVerifiedRecord s). split; [|split; [done|split; [by apply verify_record_Ok|]]].
  - unfold sign_record, attach_signature. rewrite bool_decide_true by done. cbn [negb]. simpl in Hc. by rewrite Hc.
  - split; [split; [done|apply sign_bytes_wire]|done].
Qed.

Lemma record_preimage_inj c1 c2 : typed c1 -> typed c2 -> record_preimage c1 = record_preimage c2 -> c1 = c2.
Proof.
  intros H1 H2 E. apply app_inv_head in E. unfold encode_record in E.
  assert (PrefixFree typed rk_put) by (apply (codec_prefix_free (g := rk_get))).
  apply (pf_inj (put := rk_put) c1 c2 [] []); [done|done|by rewrite !app_nil_r].
Qed.
End Record.

(** Signed policies, by what they carry. *)
Lemma policy_signed_ok sha256 `{Hed : Ed25519} (s : SignedRecord PolicyClaims) :
  signed_ok sha256 (typed := policy_typed) s ->
  policy_typed (un_claims (sr_unsigned s)) /\ policy_ok (un_claims (sr_unsigned s)) /\
  un_id (sr_unsigned s) = sha256 (record_preimage (un_claims (sr_unsigned s))) /\ sig_wire (sr_signature s).
Proof. intros [[Ht Hc Hi] Hs]. split; [done|]. split; [by apply policy_check_Ok|done]. Qed.
