(* ===== verification/DirectState.v ===== *)
(** Owner policies and author chains of direct rooms
    (src/crates/vhalla-direct-room/src/state.rs): what a replica of a room keeps
    in memory, the transitions it prepares, and their commits.  A prepared value
    is an argument of its commit, as in the source, so that any interleaving of
    other calls may come between. *)
From Stdlib Require Import Ascii String.
From stdpp Require Import gmap.
From S2P Require Import Prelude Bytes Signed OrderedMap Utf8 DirectCodec.

Definition MAX_SEALED_AUTHORS : N := 4096.
Definition MAX_OBSERVED_POLICIES : N := 256.
Definition MAX_CHAIN_PAGE : N := 32.

Record PolicyPosition : Type := mkPosition { pp_revision : N; pp_id : PolicyId }.
#[global] Instance PolicyPosition_eq_dec : EqDecision PolicyPosition. Proof. solve_decision. Defined.

Record AuthorHead : Type := mkHead { ah_sequence : N; ah_event : EventId }.
#[global] Instance AuthorHead_eq_dec : EqDecision AuthorHead. Proof. solve_decision. Defined.
Definition EMPTY : AuthorHead := mkHead 0 ZERO.

(** The position of an event. *)
Definition head_of (event : VerifiedEvent) : AuthorHead :=
  mkHead (ev_sequence (claims event)) (record_id event).

Record AuthorChain : Type := mkChain {
  ac_room : RoomId; ac_author : list N; ac_head : AuthorHead; ac_checked_seal : option AuthorHead;
}.

Record PolicyState : Type := mkState {
  ps_genesis : PinnedGenesis;
  ps_current : option VerifiedPolicy;
  ps_sealed : gmap (list N) AuthorHead;
  ps_observed : gmap N PolicyId;
  ps_observation_overflow : bool;
  ps_forked : bool;
}.

Record SealProof : Type := mkProof { sp_chain : AuthorChain; sp_target : SealHead; sp_policy : PolicyId }.

Record ClosedPolicy : Type := mkClosed {
  cp_room : RoomId; cp_policy : PolicyId; cp_closing_policy : PolicyId; cp_writers : list (list N);
  cp_seals : list SealHead;
}.

Record PreparedPolicy : Type := mkPreparedPolicy {
  qp_room : RoomId; qp_base : PolicyPosition; qp_update : VerifiedPolicy; qp_closed : ClosedPolicy;
  qp_proofs : list SealProof;
}.

Record PreparedContinuity : Type := mkContinuity {
  qc_room : RoomId; qc_author : list N; qc_base : AuthorHead; qc_event : VerifiedEvent;
}.

Record PreparedEvent : Type := mkPreparedEvent { qe_step : PreparedContinuity; qe_policy : PolicyPosition }.

Record AnchorReconciliation : Type := mkReconciliation {
  rc_room : RoomId; rc_author : list N; rc_policy : PolicyPosition; rc_seal : AuthorHead;
  rc_target : AuthorHead; rc_progress : AuthorHead;
}.

(** Assignments to one field. *)
Definition set_head (head : AuthorHead) (c : AuthorChain) : AuthorChain :=
  mkChain (ac_room c) (ac_author c) head (ac_checked_seal c).
Definition set_checked_seal (seal : option AuthorHead) (c : AuthorChain) : AuthorChain :=
  mkChain (ac_room c) (ac_author c) (ac_head c) seal.
Definition set_forked (s : PolicyState) : PolicyState :=
  mkState (ps_genesis s) (ps_current s) (ps_sealed s) (ps_observed s) (ps_observation_overflow s) true.
Definition set_overflow (s : PolicyState) : PolicyState :=
  mkState (ps_genesis s) (ps_current s) (ps_sealed s) (ps_observed s) true (ps_forked s).
Definition set_observed (m : gmap N PolicyId) (s : PolicyState) : PolicyState :=
  mkState (ps_genesis s) (ps_current s) (ps_sealed s) m (ps_observation_overflow s) (ps_forked s).
Definition set_sealed (m : gmap (list N) AuthorHead) (s : PolicyState) : PolicyState :=
  mkState (ps_genesis s) (ps_current s) m (ps_observed s) (ps_observation_overflow s) (ps_forked s).
Definition set_current (p : VerifiedPolicy) (s : PolicyState) : PolicyState :=
  mkState (ps_genesis s) (Some p) (ps_sealed s) (ps_observed s) (ps_observation_overflow s) (ps_forked s).

(** ** Author chains and seal proofs *)

(** The event follows the head. *)
Definition check_next (c : AuthorChain) (event : VerifiedEvent) : res RoomError unit :=
  let e := claims event in
  if negb (bool_decide (ev_room e = ac_room c)) then Err RScope
  else if negb (bool_decide (ev_author e = ac_author c)) then Err RAuthor
  else if ev_sequence e <? ah_sequence (ac_head c) then Err RReplay
  else if ev_sequence e =? ah_sequence (ac_head c) then
    Err (if bool_decide (record_id event = ah_event (ac_head c)) then RDuplicate else RFork)
  else
    let? next := ok_or (checked_add 64 (ah_sequence (ac_head c)) 1) RExhausted in
    if negb (ev_sequence e =? next) then Err RGap
    else if negb (bool_decide (ev_previous e = ah_event (ac_head c))) then Err RFork
    else Ok tt.

(** A nonempty bounded page. *)
Definition page_bounds (page : list VerifiedEvent) : res RoomError unit :=
  if (len page =? 0) || (MAX_CHAIN_PAGE <? len page) then Err RBounds else Ok tt.

(** One event of a page of [SealProof::push]. *)
Definition seal_step (target : SealHead) (policy : PolicyId) (next : AuthorChain) (event : VerifiedEvent) :
    res RoomError AuthorChain :=
  if sl_sequence target <? ev_sequence (claims event) then Err RBounds
  else
    let? _ := check_next next event in
    let? _ :=
      if ev_sequence (claims event) =? sl_sequence target then
        if negb (bool_decide (record_id event = sl_event target)) then Err RFork
        else if negb (bool_decide (ev_policy (claims event) = policy)) then Err RPolicy
        else Ok tt
      else Ok tt in
    Ok (set_head (head_of event) next).

Definition seal_push (page : list VerifiedEvent) : eff SealProof RoomError unit :=
  do! lift (page_bounds page) in
  let! p := get in
  let! next := lift (res_fold (seal_step (sp_target p) (sp_policy p)) (sp_chain p) page) in
  modify (fun p => mkProof next (sp_target p) (sp_policy p)).

Definition seal_complete (p : SealProof) : bool :=
  (ah_sequence (ac_head (sp_chain p)) =? sl_sequence (sp_target p))
  && bool_decide (ah_event (ac_head (sp_chain p)) = sl_event (sp_target p)).

(** [PreparedPolicy::push_seal] pushes to the first proof of the author. *)
Definition push_seal (author : list N) (page : list VerifiedEvent) : eff PreparedPolicy RoomError unit :=
  let! q := get in
  match list_find (fun p => sl_author (sp_target p) = author) (qp_proofs q) with
  | None => throw RAuthor
  | Some (i, proof) =>
      let '(r, proof') := seal_push page proof in
      do! modify (fun q => mkPreparedPolicy (qp_room q) (qp_base q) (qp_update q) (qp_closed q)
                             (<[i := proof']> (qp_proofs q))) in
      lift r
  end.

Definition is_ready (q : PreparedPolicy) : bool := forallb seal_complete (qp_proofs q).

Section State.
Context (sha256 : list N -> list N) `{Hed : Ed25519}.

Definition AuthorChain_new (room : RoomId) (author : list N) : res RoomError AuthorChain :=
  if bool_decide (room = ZERO) then Err RScope
  else
    let? _ := room_key author in
    Ok (mkChain room author EMPTY None).

(** ** The policy of a room *)

Definition PolicyState_new (genesis : PinnedGenesis) : PolicyState := mkState genesis None ∅ ∅ false false.

Definition room (s : PolicyState) : RoomId := record_id (pg_genesis (ps_genesis s)).
Definition owner (s : PolicyState) : list N := ge_owner (claims (pg_genesis (ps_genesis s))).

Definition policy_head (s : PolicyState) : PolicyPosition :=
  match ps_current s with
  | Some current => mkPosition (po_revision (claims current)) (record_id current)
  | None => mkPosition 0 (initial_policy sha256 (room s))
  end.

Definition writers (s : PolicyState) : list (list N) :=
  match ps_current s with
  | Some current => po_writers (claims current)
  | None => ge_writers (claims (pg_genesis (ps_genesis s)))
  end.

Definition allows (s : PolicyState) (author : list N) : bool := contains_sorted (writers s) author.

Definition sealed_head (s : PolicyState) (author : list N) : option AuthorHead := ps_sealed s !! author.

Definition pending_policy (s : PolicyState) : option PolicyPosition :=
  (fun '(revision, id) => mkPosition revision id) <$> last (entries (ps_observed s)).

Definition check_owner (s : PolicyState) (update : VerifiedPolicy) : res RoomError unit :=
  if negb (bool_decide (po_room (claims update) = room s)) then Err RScope
  else if negb (bool_decide (po_owner (claims update) = owner s)) then Err ROwner
  else Ok tt.

(** [PolicyState::observe_after_persist] *)
Definition observe (update : VerifiedPolicy) : eff PolicyState RoomError unit :=
  let! s := get in
  do! lift (check_owner s update) in
  let offered := mkPosition (po_revision (claims update)) (record_id update) in
  let head := policy_head s in
  if pp_revision offered <? pp_revision head then throw RReplay
  else if pp_revision offered =? pp_revision head then
    if bool_decide (pp_id offered = pp_id head) then throw RDuplicate
    else do! modify set_forked in throw RFork
  else
    match ps_observed s !! pp_revision offered with
    | Some observed =>
        if negb (bool_decide (pp_id offered = observed)) then do! modify set_forked in throw RFork
        else ret tt
    | None =>
        if N.of_nat (size (ps_observed s)) =? MAX_OBSERVED_POLICIES
        then do! modify set_overflow in throw RCapacity
        else modify (fun s => set_observed (<[pp_revision offered := pp_id offered]> (ps_observed s)) s)
    end.

Definition fresh_admission (s : PolicyState) : res RoomError unit :=
  if ps_forked s then Err RFork
  else if ps_observation_overflow s then Err RCapacity
  else if negb (bool_decide (ps_observed s = ∅)) then Err RPolicyPending
  else Ok tt.

(** An observation at this revision has another identifier. *)
Definition conflicts (s : PolicyState) (update : VerifiedPolicy) : bool :=
  match ps_observed s !! po_revision (claims update) with
  | Some id => negb (bool_decide (id = record_id update))
  | None => false
  end.

(** The proof that one seal asks for. *)
Definition prepare_seal (s : PolicyState) (seal : SealHead) : res RoomError SealProof :=
  let prior := default EMPTY (sealed_head s (sl_author seal)) in
  if (sl_sequence seal <? ah_sequence prior)
     || (sl_sequence seal =? ah_sequence prior) && negb (bool_decide (sl_event seal = ah_event prior))
  then Err RFork
  else if sl_sequence seal =? ah_sequence prior then Err RPolicy
  else Ok (mkProof (mkChain (room s) (sl_author seal) prior None) seal (pp_id (policy_head s))).

Definition added_authors (s : PolicyState) (seals : list SealHead) : N :=
  len (filter (fun seal => ps_sealed s !! sl_author seal = None) seals).

Definition prepare_update (s : PolicyState) (signed : SignedRecord PolicyClaims) : res RoomError PreparedPolicy :=
  if ps_forked s then Err RFork
  else
    let? update := verify_record signed in
    let? _ := check_owner s update in
    if conflicts s update then Err RFork
    else
      let c := claims update in
      if po_revision c <? pp_revision (policy_head s) then Err RReplay
      else if po_revision c =? pp_revision (policy_head s) then
        Err (if bool_decide (record_id update = pp_id (policy_head s)) then RDuplicate else RFork)
      else
        let? next := ok_or (checked_add 64 (pp_revision (policy_head s)) 1) RExhausted in
        if negb (po_revision c =? next) then Err RGap
        else if negb (bool_decide (po_previous c = pp_id (policy_head s))) then Err RFork
        else if existsb (fun seal => negb (allows s (sl_author seal))) (po_sealed_heads c) then Err RAuthor
        else
          let? total := ok_or (checked_add 64 (N.of_nat (size (ps_sealed s))) (added_authors s (po_sealed_heads c)))
                          RCapacity in
          if MAX_SEALED_AUTHORS <? total then Err RCapacity
          else
            let? proofs := res_fold (fun proofs seal => let? p := prepare_seal s seal in Ok (proofs ++ [p]))
                             [] (po_sealed_heads c) in
            Ok (mkPreparedPolicy (room s) (policy_head s) update
                  (mkClosed (room s) (pp_id (policy_head s)) (record_id update) (writers s) (po_sealed_heads c))
                  proofs).

(** [PolicyState::commit_after_persist] *)
Definition commit_update (q : PreparedPolicy) : eff PolicyState RoomError ClosedPolicy :=
  let! s := get in
  if ps_forked s then throw RFork
  else if negb (bool_decide (qp_room q = room s)) || negb (bool_decide (qp_base q = policy_head s)) then throw RStaleBase
  else if negb (is_ready q) then throw RGap
  else if conflicts s (qp_update q) then throw RFork
  else
    do! for_each (fun p => modify (fun s =>
          set_sealed (<[sl_author (sp_target p) := ac_head (sp_chain p)]> (ps_sealed s)) s)) (qp_proofs q) in
    do! modify (set_current (qp_update q)) in
    do! modify (fun s => set_observed (delete (pp_revision (policy_head s)) (ps_observed s)) s) in
    ret (qp_closed q).

(** It always refuses: the offered record is the retained one, or a fork. *)
Definition compare_retained (s : PolicyState) (retained : VerifiedPolicy) (offered : SignedRecord PolicyClaims) :
    res RoomError unit :=
  let? offered := verify_record offered in
  let? _ := check_owner s retained in
  let? _ := check_owner s offered in
  if negb (po_revision (claims retained) =? po_revision (claims offered)) then Err RSequence
  else Err (if bool_decide (record_id retained = record_id offered) then RDuplicate else RFork).

(** [PolicyState::observe_retained_after_persist] *)
Definition observe_retained (retained : VerifiedPolicy) (offered : SignedRecord PolicyClaims) :
    eff PolicyState RoomError unit :=
  let! s := get in
  match compare_retained s retained offered with
  | Err RFork => do! modify set_forked in throw RFork
  | r => lift r
  end.

(** ** The chain of an author under a policy *)

Definition check_fresh_anchor (c : AuthorChain) (s : PolicyState) : res RoomError unit :=
  match sealed_head s (ac_author c) with
  | None => Ok tt
  | Some seal =>
      if ah_sequence (ac_head c) <? ah_sequence seal then Err RGap
      else if ah_sequence (ac_head c) =? ah_sequence seal then
        if negb (bool_decide (ac_head c = seal)) then Err RFork else Ok tt
      else if negb (bool_decide (ac_checked_seal c = Some seal)) then Err RGap
      else Ok tt
  end.

Definition checked_anchor_after (c : AuthorChain) (event : VerifiedEvent) (s : PolicyState) :
    res RoomError (option AuthorHead) :=
  if negb (bool_decide (room s = ac_room c)) then Err RScope
  else
    match sealed_head s (ac_author c) with
    | None => Ok None
    | Some seal =>
        if ah_sequence (ac_head c) <? ah_sequence seal then
          if ev_sequence (claims event) =? ah_sequence seal then
            if negb (bool_decide (record_id event = ah_event seal)) then Err RFork else Ok (Some seal)
          else Ok None
        else
          let? _ := check_fresh_anchor c s in
          Ok (Some seal)
    end.

Definition prepare_anchor_reconciliation (c : AuthorChain) (s : PolicyState) : res RoomError AnchorReconciliation :=
  if negb (bool_decide (room s = ac_room c)) then Err RScope
  else
    let? seal := ok_or (sealed_head s (ac_author c)) RPolicy in
    if ah_sequence (ac_head c) <? ah_sequence seal then Err RGap
    else if (ah_sequence (ac_head c) =? ah_sequence seal) && negb (bool_decide (ac_head c = seal)) then Err RFork
    else Ok (mkReconciliation (ac_room c) (ac_author c) (policy_head s) seal (ac_head c) seal).

(** One event of a page of [AnchorReconciliation::push]. *)
Definition reconcile_step (target : AuthorHead) (c : AuthorChain) (event : VerifiedEvent) : res RoomError AuthorChain :=
  if ah_sequence target <? ev_sequence (claims event) then Err RBounds
  else
    let? _ := check_next c event in
    let c := set_head (head_of event) c in
    if (ah_sequence (ac_head c) =? ah_sequence target) && negb (bool_decide (ac_head c = target)) then Err RFork
    else Ok c.

Definition reconcile_push (page : list VerifiedEvent) : eff AnchorReconciliation RoomError unit :=
  do! lift (page_bounds page) in
  let! r := get in
  let! chain := lift (res_fold (reconcile_step (rc_target r))
                        (mkChain (rc_room r) (rc_author r) (rc_progress r) None) page) in
  modify (fun r => mkReconciliation (rc_room r) (rc_author r) (rc_policy r) (rc_seal r) (rc_target r)
                     (ac_head chain)).

Definition reconcile_ready (r : AnchorReconciliation) : bool := bool_decide (rc_progress r = rc_target r).

Definition reconcile_anchor (r : AnchorReconciliation) (s : PolicyState) : eff AuthorChain RoomError unit :=
  let! c := get in
  if negb (bool_decide (rc_room r = ac_room c)) || negb (bool_decide (rc_author r = ac_author c))
     || negb (bool_decide (rc_target r = ac_head c)) then throw RStaleBase
  else if negb (bool_decide (room s = ac_room c)) || negb (bool_decide (policy_head s = rc_policy r))
     || negb (bool_decide (sealed_head s (ac_author c) = Some (rc_seal r))) then throw RStalePolicy
  else if negb (reconcile_ready r) then throw RGap
  else modify (set_checked_seal (Some (rc_seal r))).

Definition authoring_head (c : AuthorChain) (s : PolicyState) : res RoomError AuthorHead :=
  let? _ := fresh_admission s in
  if negb (bool_decide (room s = ac_room c)) then Err RScope
  else if negb (allows s (ac_author c)) then Err RAuthor
  else
    let? _ := check_fresh_anchor c s in
    Ok (ac_head c).

Definition prepare_next (c : AuthorChain) (event : VerifiedEvent) (s : PolicyState) : res RoomError PreparedEvent :=
  let? _ := fresh_admission s in
  if negb (bool_decide (room s = ac_room c)) then Err RScope
  else if negb (bool_decide (ev_policy (claims event) = pp_id (policy_head s))) then Err RPolicy
  else
    let? _ := authoring_head c s in
    let? _ := check_next c event in
    Ok (mkPreparedEvent (mkContinuity (ac_room c) (ac_author c) (ac_head c) event) (policy_head s)).

Definition prepare_continuity (c : AuthorChain) (event : VerifiedEvent) (s : PolicyState) :
    res RoomError PreparedContinuity :=
  let? _ := check_next c event in
  let? _ := checked_anchor_after c event s in
  Ok (mkContinuity (ac_room c) (ac_author c) (ac_head c) event).

(** [AuthorChain::commit_continuity_after_persist] *)
Definition commit_continuity (q : PreparedContinuity) (s : PolicyState) : eff AuthorChain RoomError unit :=
  let! c := get in
  if negb (bool_decide (qc_room q = ac_room c)) || negb (bool_decide (qc_author q = ac_author c))
     || negb (bool_decide (qc_base q = ac_head c)) then throw RStaleBase
  else
    let! checked_seal := lift (checked_anchor_after c (qc_event q) s) in
    do! modify (set_head (head_of (qc_event q))) in
    modify (set_checked_seal checked_seal).

(** [AuthorChain::commit_after_persist] *)
Definition commit_event (q : PreparedEvent) (s : PolicyState) : eff AuthorChain RoomError unit :=
  let! c := get in
  do! lift (fresh_admission s) in
  if negb (bool_decide (room s = ac_room c)) || negb (bool_decide (qe_policy q = policy_head s)) then throw RStalePolicy
  else
    do! lift (check_fresh_anchor c s) in
    commit_continuity (qe_step q) s.
End State.
