(* ===== verification/DirectChain.v ===== *)
(** Sealed history and author chains of direct rooms
    (src/crates/vhalla-direct-room/src/history.rs). *)
From stdpp Require Import gmap.
From S2P Require Import Prelude Bytes Signed Invitation OrderedMap DirectCodec DirectFacts.
From S2P Require Import DirectState.

(** Proofs of sealed history (src/crates/vhalla-direct-room/src/history.rs):
    what a closed policy requires of a historical event, and the verifier that
    consumes the author's chain page by page. *)

Record SealedHistoryVerifier : Type := mkVerifier {
  hv_room : RoomId; hv_policy : PolicyId; hv_closing_policy : PolicyId; hv_seal : SealHead;
  hv_candidate : VerifiedEvent; hv_head : AuthorHead; hv_encountered : bool;
  hv_terminal_policy : option PolicyId;
}.

Inductive HistoryRequirement : Type :=
| ContinuityOnly
| Verify (v : SealedHistoryVerifier).

Record VerifiedHistoricalEvent : Type := mkHistorical {
  he_event : VerifiedEvent; he_closing_policy : PolicyId;
}.

Definition history_requirement (p : ClosedPolicy) (candidate : VerifiedEvent) :
    res RoomError HistoryRequirement :=
  let c := claims candidate in
  if negb (bool_decide (ev_room c = cp_room p)) then Err RScope
  else if negb (bool_decide (ev_policy c = cp_policy p)) then Err RPolicy
  else if negb (contains_sorted (cp_writers p) (ev_author c)) then Ok ContinuityOnly
  else
    match binary_search_by sl_author (ev_author c) (cp_seals p) with
    | None => Ok ContinuityOnly
    | Some i =>
        let? seal := index (cp_seals p) i in
        if sl_sequence seal <? ev_sequence c then Ok ContinuityOnly
        else Ok (Verify (mkVerifier (cp_room p) (cp_policy p) (cp_closing_policy p) seal candidate
                           EMPTY false None))
    end.

(** Assignments to one field. *)
Definition hv_set_encountered (v : SealedHistoryVerifier) : SealedHistoryVerifier :=
  mkVerifier (hv_room v) (hv_policy v) (hv_closing_policy v) (hv_seal v) (hv_candidate v) (hv_head v)
    true (hv_terminal_policy v).
Definition hv_set_head (head : AuthorHead) (v : SealedHistoryVerifier) : SealedHistoryVerifier :=
  mkVerifier (hv_room v) (hv_policy v) (hv_closing_policy v) (hv_seal v) (hv_candidate v) head
    (hv_encountered v) (hv_terminal_policy v).
Definition hv_set_terminal (policy : PolicyId) (v : SealedHistoryVerifier) : SealedHistoryVerifier :=
  mkVerifier (hv_room v) (hv_policy v) (hv_closing_policy v) (hv_seal v) (hv_candidate v) (hv_head v)
    (hv_encountered v) (Some policy).

(** One event of a page. *)
Definition history_step (next : SealedHistoryVerifier) (event : VerifiedEvent) :
    res RoomError SealedHistoryVerifier :=
  let c := claims event in
  if negb (bool_decide (ev_room c = hv_room next)) then Err RScope
  else if negb (bool_decide (ev_author c = sl_author (hv_seal next))) then Err RAuthor
  else if sl_sequence (hv_seal next) <? ev_sequence c then Err RBounds
  else
    let? following := ok_or (checked_add 64 (ah_sequence (hv_head next)) 1) RExhausted in
    if negb (ev_sequence c =? following) then Err RGap
    else if negb (bool_decide (ev_previous c = ah_event (hv_head next))) then Err RFork
    else
      let? next :=
        if ev_sequence c =? ev_sequence (claims (hv_candidate next)) then
          if negb (bool_decide (record_id event = record_id (hv_candidate next))) then Err RFork
          else Ok (hv_set_encountered next)
        else Ok next in
      let next := hv_set_head (head_of event) next in
      if ev_sequence c =? sl_sequence (hv_seal next) then
        if negb (bool_decide (record_id event = sl_event (hv_seal next))) then Err RFork
        else if negb (bool_decide (ev_policy c = hv_policy next)) then Err RPolicy
        else Ok (hv_set_terminal (ev_policy c) next)
      else Ok next.

Definition history_push (page : list VerifiedEvent) : eff SealedHistoryVerifier RoomError unit :=
  do! lift (page_bounds page) in
  let! v := get in
  let! next := lift (res_fold history_step v page) in
  modify (fun _ => next).

Definition history_finish (v : SealedHistoryVerifier) : res RoomError VerifiedHistoricalEvent :=
  if negb (hv_encountered v)
     || negb (ah_sequence (hv_head v) =? sl_sequence (hv_seal v))
     || negb (bool_decide (ah_event (hv_head v) = sl_event (hv_seal v)))
     || negb (bool_decide (hv_terminal_policy v = Some (hv_policy v)))
  then Err RGap
  else Ok (mkHistorical (hv_candidate v) (hv_closing_policy v)).

(** [target] *)
Definition history_target (v : SealedHistoryVerifier) : N * EventId :=
  (sl_sequence (hv_seal v), sl_event (hv_seal v)).

(** Author chains as relations ([DirectState]): which event follows which head,
    the chains that pages extend, and the uniqueness of the ancestry of a
    commitment, up to a hash collision between two of its events. *)

(** The event extends a chain of the author in the room that ends at [from]. *)
Definition follows (room : RoomId) (author : list N) (from : AuthorHead) (e : VerifiedEvent) : Prop :=
  ev_room (claims e) = room /\ ev_author (claims e) = author /\
  ev_sequence (claims e) = ah_sequence from + 1 /\ ev_previous (claims e) = ah_event from.

(** The events lead from one head to the other. *)
Fixpoint linked (room : RoomId) (author : list N) (from : AuthorHead) (l : list VerifiedEvent)
    (to : AuthorHead) : Prop :=
  match l with
  | [] => to = from
  | e :: l => follows room author from e /\ linked room author (head_of e) l to
  end.

Section linked.
Context (room : RoomId) (author : list N).
Implicit Types (from to mid : AuthorHead) (l k : list VerifiedEvent).

Lemma linked_app from l k to :
  linked room author from (l ++ k) to <-> exists mid, linked room author from l mid /\ linked room author mid k to.
Proof.
  revert from. induction l as [|e l IH]; intros from; simpl; [naive_solver|]. rewrite IH. naive_solver.
Qed.

Lemma linked_snoc from l e mid : linked room author from l mid -> follows room author mid e ->
  linked room author from (l ++ [e]) (head_of e).
Proof. intros Hl He. apply linked_app. by exists mid. Qed.

Lemma linked_det from l to to' : linked room author from l to -> linked room author from l to' -> to = to'.
Proof. revert from. induction l as [|e l IH]; intros from; simpl; [congruence|]. intros [_ ?] [_ ?]. eauto. Qed.

Lemma linked_length from l to : linked room author from l to -> ah_sequence to = ah_sequence from + len l.
Proof.
  unfold len. revert from. induction l as [|e l IH]; intros from; simpl; [intros ->; lia|].
  intros ((_ & _ & Hs & _) & Hl). apply IH in Hl. simpl in Hl. lia.
Qed.

Lemma linked_elem from l to e : linked room author from l to -> e ∈ l ->
  exists l1 l2 mid, l = l1 ++ e :: l2 /\ linked room author from l1 mid /\ follows room author mid e /\
    linked room author (head_of e) l2 to.
Proof.
  intros Hl (l1 & l2 & ->)%list_elem_of_split. apply linked_app in Hl as (mid & H1 & H2 & H3). by exists l1, l2, mid.
Qed.

Lemma linked_bounds from l to e : linked room author from l to -> e ∈ l ->
  ah_sequence from < ev_sequence (claims e) <= ah_sequence to.
Proof.
  intros Hl (l1 & l2 & mid & -> & H1%linked_length & (_ & _ & Hs & _) & H2%linked_length)%(linked_elem _ _ _ _ Hl).
  simpl in H2. lia.
Qed.

(** One event per sequence number. *)
Lemma linked_at from l to e e' : linked room author from l to -> e ∈ l -> e' ∈ l ->
  ev_sequence (claims e) = ev_sequence (claims e') -> e = e'.
Proof.
  intros Hl He He' E. destruct (linked_elem _ _ _ _ Hl He) as (l1 & l2 & mid & -> & H1 & Hf & H2).
  apply elem_of_app in He' as [H|[->|H]%elem_of_cons]; [|done|].
  - destruct (linked_bounds _ _ _ _ H1 H). destruct Hf as (_ & _ & Hs & _). lia.
  - destruct (linked_bounds _ _ _ _ H2 H). simpl in *. lia.
Qed.

(** The last event is the head. *)
Lemma linked_last from l to : linked room author from l to -> l <> [] ->
  exists l' e, l = l' ++ [e] /\ to = head_of e.
Proof.
  intros Hl Hn. destruct l as [|e l _] using rev_ind; [done|]. apply linked_app in Hl as (mid & _ & _ & ->). eauto.
Qed.

(** An event at every number. *)
Lemma linked_covers from l to n : linked room author from l to ->
  ah_sequence from < n <= ah_sequence to -> exists e, e ∈ l /\ ev_sequence (claims e) = n.
Proof.
  revert from. induction l as [|e l IH]; intros from; simpl; [intros ->; lia|].
  intros ((_ & _ & Hs & _) & Hl) Hn. destruct (decide (n = ah_sequence from + 1)) as [->|Hne].
  - exists e. split; [by left|done].
  - destruct (IH _ Hl) as (x & Hx & Ex); [simpl; lia|]. exists x. split; [by right|done].
Qed.
End linked.

(** ** The ancestry of a commitment *)

Section Collide.
Context (sha256 : list N -> list N) `{Hed : Ed25519}.

Notation authentic := (authentic sha256 (typed := event_typed)).

(** Two events whose hashed bytes differ and whose hashes agree. *)
Definition collide (e e' : VerifiedEvent) : Prop :=
  record_preimage (claims e) <> record_preimage (claims e') /\
  sha256 (record_preimage (claims e)) = sha256 (record_preimage (claims e')).

Definition chains_collide (l k : list VerifiedEvent) : Prop := exists e e', e ∈ l /\ e' ∈ k /\ collide e e'.

Lemma authentic_id e : authentic e -> record_id e = sha256 (record_preimage (claims e)).
Proof. by intros [[[_ _ Hi] _] _]. Qed.

Lemma authentic_typed e : authentic e -> event_typed (claims e).
Proof. by intros [[[Ht _ _] _] _]. Qed.

Lemma authentic_event_ok e : authentic e -> event_ok (claims e).
Proof. intros [[[_ Hc _] _] _]. by apply event_check_Ok. Qed.

Lemma same_id e e' : authentic e -> authentic e' -> record_id e = record_id e' ->
  claims e = claims e' \/ collide e e'.
Proof.
  intros He He' E. rewrite !authentic_id in E by done.
  destruct (decide (record_preimage (claims e) = record_preimage (claims e'))) as [Ep|]; [left|by right].
  by apply (record_preimage_inj (typed := event_typed)) in Ep; [|apply authentic_typed..].
Qed.

(** Chains of one length that end at one head have the same claims and start
    at one head. *)
Lemma linked_back room author from from' l k to : linked room author from l to -> linked room author from' k to ->
  length l = length k -> Forall authentic l -> Forall authentic k ->
  (claims <$> l = claims <$> k /\ from = from') \/ chains_collide l k.
Proof.
  revert from from' k. induction l as [|e l IH]; intros from from' [|e' k]; cbn [linked length]; try done.
  { intros -> ->. by left. }
  intros [He Hl] [He' Hk] Hn [Ae Al]%Forall_cons [Ae' Ak]%Forall_cons.
  destruct (IH _ _ k Hl Hk) as [[Ec Eh]|(x & y & ? & ? & ?)]; [lia|done|done| |].
  2: { right. exists x, y. split_and!; [by right..|done]. }
  destruct (same_id e e' Ae Ae') as [E|Hcol]; [by injection Eh| |].
  - left. split; [by rewrite !fmap_cons, E, Ec|]. destruct He as (_ & _ & Hs & Hp), He' as (_ & _ & Hs' & Hp').
    rewrite E in Hs, Hp. destruct from, from'. simpl in *. f_equal; [lia|congruence].
  - right. exists e, e'. split_and!; [by left..|done].
Qed.

(** A chain that ends where a longer one does is its end. *)
Lemma linked_suffix room author from mid l k to : linked room author from l to -> linked room author mid k to ->
  ah_sequence from <= ah_sequence mid -> Forall authentic l -> Forall authentic k ->
  (exists l1 l2, l = l1 ++ l2 /\ linked room author from l1 mid /\ claims <$> l2 = claims <$> k)
  \/ chains_collide l k.
Proof.
  intros Hl Hk Hs Al Ak. pose proof (linked_length _ _ _ _ _ Hl). pose proof (linked_length _ _ _ _ _ Hk).
  unfold len in *. rewrite <- (take_drop (length l - length k) l) in Hl, Al.
  apply linked_app in Hl as (m & H1 & H2). apply Forall_app in Al as [A1 A2].
  destruct (linked_back room author m mid _ k to H2 Hk) as [[Ec ->]|(x & y & Hx & Hy & Hc)]; try done.
  - rewrite length_drop. lia.
  - left. eexists _, _. split; [symmetry; apply take_drop|done].
  - right. exists x, y. split; [|done]. eapply subseteq_drop, Hx.
Qed.
End Collide.

(** ** The steps that extend a chain *)

(** An event whose sequence is a [u64]. *)
Definition sequenced (e : VerifiedEvent) : Prop := u 64 (ev_sequence (claims e)).

Lemma authentic_sequenced sha256 `{Ed25519} e : authentic sha256 (typed := event_typed) e -> sequenced e.
Proof. intros (_ & _ & _ & Hs & _)%authentic_typed. done. Qed.

Lemma check_next_Ok c e : sequenced e ->
  check_next c e = Ok tt <-> follows (ac_room c) (ac_author c) (ac_head c) e.
Proof.
  unfold sequenced, u, check_next, follows. intros Hu. split.
  - intros H. repeat (case_match; [done|]). bool_to_prop.
    unfold checked_add in H. destruct (N.ltb_spec (ah_sequence (ac_head c) + 1) (2 ^ 64)); simpl in H; [|done].
    repeat (case_match; [done|]). bool_to_prop. done.
  - intros (-> & -> & Hs & Hp). rewrite !bool_decide_true by done. cbn [negb].
    rewrite (proj2 (N.ltb_ge _ _)) by lia. rewrite (proj2 (N.eqb_neq _ _)) by lia. unfold checked_add.
    rewrite (proj2 (N.ltb_lt (_ + 1) _)) by lia. cbn [ok_or res_bind].
    rewrite (proj2 (N.eqb_eq _ _)) by lia. by rewrite bool_decide_true.
Qed.

Lemma check_next_total c e : check_next c e <> Panic.
Proof. unfold check_next, checked_add. repeat (case_match; [done|]). case_match; simpl; [|done]. by repeat case_match. Qed.

Lemma page_bounds_Ok page : page_bounds page = Ok tt <-> 1 <= len page <= MAX_CHAIN_PAGE.
Proof.
  unfold page_bounds. destruct (N.eqb_spec (len page) 0), (N.ltb_spec MAX_CHAIN_PAGE (len page)); simpl;
    (split; [done || lia|]); (done || lia).
Qed.

(** A fold of a step that accepts the events that follow and that satisfy [P]. *)
Lemma chain_fold (f : AuthorChain -> VerifiedEvent -> res RoomError AuthorChain) (P : VerifiedEvent -> Prop) c l c' :
  (forall c e c', sequenced e -> f c e = Ok c' <->
     follows (ac_room c) (ac_author c) (ac_head c) e /\ P e /\ c' = set_head (head_of e) c) ->
  Forall sequenced l ->
  res_fold f c l = Ok c' <->
  exists to, linked (ac_room c) (ac_author c) (ac_head c) l to /\ Forall P l /\ c' = set_head to c.
Proof.
  intros Hf Hl. revert c. induction Hl as [|e l He Hl IH]; intros c; simpl.
  - split; [intros [= <-]; exists (ac_head c); by destruct c|]. intros (to & -> & _ & ->). by destruct c.
  - rewrite res_bind_Ok. setoid_rewrite Hf; [|done]. split.
    + intros (c1 & (Hfo & HP & ->) & (to & Hto & HPl & ->)%IH). exists to. by rewrite Forall_cons.
    + intros (to & [Hfo Hto] & [HP HPl]%Forall_cons & ->). exists (set_head (head_of e) c). split; [done|].
      apply IH. by exists to.
Qed.

Definition fits_seal (target : SealHead) (policy : PolicyId) (e : VerifiedEvent) : Prop :=
  ev_sequence (claims e) <= sl_sequence target /\
  (ev_sequence (claims e) = sl_sequence target -> record_id e = sl_event target /\ ev_policy (claims e) = policy).

Lemma seal_step_Ok target policy c e c' : sequenced e -> seal_step target policy c e = Ok c' <->
  follows (ac_room c) (ac_author c) (ac_head c) e /\ fits_seal target policy e /\ c' = set_head (head_of e) c.
Proof.
  intros Hu. unfold seal_step, fits_seal. rewrite <- check_next_Ok by done. split.
  - intros H. case_match eqn:El; [done|]. apply res_bind_Ok in H as ([] & Hc & H).
    apply res_bind_Ok in H as ([] & Hm & [= <-]). bool_to_prop. split; [done|]. split; [|done]. split; [done|].
    intros E. rewrite (proj2 (N.eqb_eq _ _)) in Hm by done. repeat (case_match; [done|]). bool_to_prop. done.
  - intros (Hc & [Hl Hm] & ->). rewrite (proj2 (N.ltb_ge _ _)) by done. rewrite Hc. cbn [res_bind].
    destruct (N.eqb_spec (ev_sequence (claims e)) (sl_sequence target)) as [E|]; [|done].
    destruct (Hm E). by rewrite !bool_decide_true by done.
Qed.

Definition fits_target (target : AuthorHead) (e : VerifiedEvent) : Prop :=
  ev_sequence (claims e) <= ah_sequence target /\
  (ev_sequence (claims e) = ah_sequence target -> head_of e = target).

Lemma reconcile_step_Ok target c e c' : sequenced e -> reconcile_step target c e = Ok c' <->
  follows (ac_room c) (ac_author c) (ac_head c) e /\ fits_target target e /\ c' = set_head (head_of e) c.
Proof.
  intros Hu. unfold reconcile_step, fits_target. rewrite <- check_next_Ok by done. split.
  - intros H. case_match eqn:El; [done|]. apply res_bind_Ok in H as ([] & Hc & H).
    case_match eqn:Em; [done|]. injection H as <-. bool_to_prop. split; [done|]. split; [|done]. split; [done|].
    simpl in Em. intros E. rewrite (proj2 (N.eqb_eq _ _)) in Em by done. simpl in Em. by bool_to_prop.
  - intros (Hc & [Hl Hm] & ->). rewrite (proj2 (N.ltb_ge _ _)) by done. rewrite Hc. cbn [res_bind].
    simpl ac_head. destruct (N.eqb_spec (ah_sequence (head_of e)) (ah_sequence target)) as [E|]; simpl.
    + by rewrite bool_decide_true by auto.
    + done.
Qed.

Lemma seal_fold target policy c l c' : Forall sequenced l ->
  res_fold (seal_step target policy) c l = Ok c' <->
  exists to, linked (ac_room c) (ac_author c) (ac_head c) l to /\ Forall (fits_seal target policy) l /\ c' = set_head to c.
Proof. apply chain_fold. intros. by apply seal_step_Ok. Qed.

Lemma reconcile_fold target c l c' : Forall sequenced l ->
  res_fold (reconcile_step target) c l = Ok c' <->
  exists to, linked (ac_room c) (ac_author c) (ac_head c) l to /\ Forall (fits_target target) l /\ c' = set_head to c.
Proof. apply chain_fold. intros. by apply reconcile_step_Ok. Qed.

(** A page of a proof, all of it or nothing. *)
Lemma seal_push_Ok page p p' : Forall sequenced page -> seal_push page p = (Ok tt, p') <->
  1 <= len page <= MAX_CHAIN_PAGE /\
  exists to, linked (ac_room (sp_chain p)) (ac_author (sp_chain p)) (ac_head (sp_chain p)) page to /\
    Forall (fits_seal (sp_target p) (sp_policy p)) page /\
    p' = mkProof (set_head to (sp_chain p)) (sp_target p) (sp_policy p).
Proof.
  intros Hs. unfold seal_push. rewrite bind_lift_Ok. setoid_rewrite bind_Ok. setoid_rewrite bind_lift_Ok. split.
  - intros ([] & Hb%page_bounds_Ok & ? & ? & [= <- <-] & c & (to & ? & ? & ->)%seal_fold & [= <-]); [|done].
    split; [done|]. by exists to.
  - intros [Hb (to & ? & ? & ->)]. exists tt. split; [by apply page_bounds_Ok|]. do 2 eexists. split; [done|].
    eexists. split; [apply seal_fold; eauto|done].
Qed.

Lemma seal_push_rolls_back page : rolls_back (seal_push page).
Proof.
  unfold seal_push. apply rolls_back_bind; [apply observes_lift|]. intros _.
  apply rolls_back_bind; [apply observes_get|]. intros p.
  apply rolls_back_bind; [apply observes_lift|]. intros c. apply rolls_back_modify.
Qed.

Lemma reconcile_push_Ok page r r' : Forall sequenced page -> reconcile_push page r = (Ok tt, r') <->
  1 <= len page <= MAX_CHAIN_PAGE /\
  exists to, linked (rc_room r) (rc_author r) (rc_progress r) page to /\
    Forall (fits_target (rc_target r)) page /\
    r' = mkReconciliation (rc_room r) (rc_author r) (rc_policy r) (rc_seal r) (rc_target r) to.
Proof.
  intros Hs. unfold reconcile_push. rewrite bind_lift_Ok. setoid_rewrite bind_Ok. setoid_rewrite bind_lift_Ok. split.
  - intros ([] & Hb%page_bounds_Ok & ? & ? & [= <- <-] & c & (to & ? & ? & ->)%reconcile_fold & [= <-]); [|done].
    split; [done|]. by exists to.
  - intros [Hb (to & ? & ? & ->)]. exists tt. split; [by apply page_bounds_Ok|]. do 2 eexists. split; [done|].
    eexists. split; [apply reconcile_fold; [done|]; eauto|done].
Qed.

Lemma reconcile_push_rolls_back page : rolls_back (reconcile_push page).
Proof.
  unfold reconcile_push. apply rolls_back_bind; [apply observes_lift|]. intros _.
  apply rolls_back_bind; [apply observes_get|]. intros p.
  apply rolls_back_bind; [apply observes_lift|]. intros c. apply rolls_back_modify.
Qed.
