(* ===== verification/DirectProof.v ===== *)
(** The verifier of sealed history against the relation it decides
    ([DirectChain], [DirectChain]). *)
From stdpp Require Import gmap.
From S2P Require Import Prelude Bytes Signed OrderedMap.
From S2P Require Import DirectCodec DirectFacts DirectState DirectChain.

(** The head a seal names. *)
Definition seal_head (s : SealHead) : AuthorHead := mkHead (sl_sequence s) (sl_event s).

(** [l] is the whole chain of the sealed author: it ends at the sealed event,
    which names the closed policy, and the candidate is one of its events. *)
Record sealed_history (room : RoomId) (policy : PolicyId) (seal : SealHead) (candidate : VerifiedEvent)
    (l : list VerifiedEvent) : Prop := {
  sh_linked : linked room (sl_author seal) EMPTY l (seal_head seal);
  sh_terminal : exists e, e ∈ l /\ ev_sequence (claims e) = sl_sequence seal /\ ev_policy (claims e) = policy;
  sh_candidate : exists e, e ∈ l /\ ev_sequence (claims e) = ev_sequence (claims candidate) /\
    record_id e = record_id candidate;
}.

(** Pages pushed one after another; a refused page is dropped. *)
Definition history_run (pages : list (list VerifiedEvent)) (v : SealedHistoryVerifier) : SealedHistoryVerifier :=
  foldl (fun v page => snd (history_push page v)) v pages.

Fixpoint accepted_events (pages : list (list VerifiedEvent)) (v : SealedHistoryVerifier) : list VerifiedEvent :=
  match pages with
  | [] => []
  | page :: pages =>
      match history_push page v with
      | (Ok _, v') => page ++ accepted_events pages v'
      | (_, v') => accepted_events pages v'
      end
  end.

(** ** One event *)

Definition fits_history (v : SealedHistoryVerifier) (e : VerifiedEvent) : Prop :=
  fits_seal (hv_seal v) (hv_policy v) e /\
  (ev_sequence (claims e) = ev_sequence (claims (hv_candidate v)) -> record_id e = record_id (hv_candidate v)).

Definition history_next (v : SealedHistoryVerifier) (e : VerifiedEvent) : SealedHistoryVerifier :=
  mkVerifier (hv_room v) (hv_policy v) (hv_closing_policy v) (hv_seal v) (hv_candidate v) (head_of e)
    (hv_encountered v || (ev_sequence (claims e) =? ev_sequence (claims (hv_candidate v))))
    (if ev_sequence (claims e) =? sl_sequence (hv_seal v) then Some (ev_policy (claims e)) else hv_terminal_policy v).

Lemma history_step_Ok v e v' : sequenced e -> history_step v e = Ok v' <->
  follows (hv_room v) (sl_author (hv_seal v)) (hv_head v) e /\ fits_history v e /\ v' = history_next v e.
Proof.
  intros Hu. unfold sequenced, u in Hu. unfold history_step, fits_history, fits_seal, follows, history_next, checked_add. split.
  - intros H. repeat (case_match; [done|]). bool_to_prop.
    destruct (N.ltb_spec (ah_sequence (hv_head v) + 1) (2 ^ 64)); cbn [ok_or res_bind] in H; [|done].
    repeat (case_match; [done|]). bool_to_prop. rewrite res_bind_Ok in H. destruct H as (w & Hw & H).
    destruct (N.eqb_spec (ev_sequence (claims e)) (ev_sequence (claims (hv_candidate v)))) as [Ec|Ec];
      [destruct (bool_decide_reflect (record_id e = record_id (hv_candidate v))); [|done]|];
      injection Hw as <-; simpl in H;
      (destruct (N.eqb_spec (ev_sequence (claims e)) (sl_sequence (hv_seal v))) as [Es|Es];
       [repeat (case_match; [done|]); bool_to_prop|]); injection H as <-;
      rewrite ?orb_true_r, ?orb_false_r; split_and!; (done || congruence).
  - intros ((-> & -> & Hs & ->) & [[Hl Ht] Hc] & ->). rewrite !bool_decide_true by done. cbn [negb].
    rewrite (proj2 (N.ltb_ge _ _)) by lia. rewrite (proj2 (N.ltb_lt (_ + 1) _)) by lia. cbn [ok_or res_bind].
    rewrite (proj2 (N.eqb_eq _ (ah_sequence (hv_head v) + 1))) by lia. rewrite ?bool_decide_true by done. cbn [negb].
    destruct (N.eqb_spec (ev_sequence (claims e)) (ev_sequence (claims (hv_candidate v)))) as [Ec|Ec].
    + rewrite (bool_decide_true _ (Hc Ec)). cbn [negb res_bind]. simpl.
      destruct (N.eqb_spec (ev_sequence (claims e)) (sl_sequence (hv_seal v))) as [Es|Es].
      * destruct (Ht Es). rewrite !bool_decide_true by done. simpl. by rewrite orb_true_r.
      * by rewrite orb_true_r.
    + cbn [res_bind]. simpl. destruct (N.eqb_spec (ev_sequence (claims e)) (sl_sequence (hv_seal v))) as [Es|Es].
      * destruct (Ht Es). rewrite !bool_decide_true by done. simpl. by rewrite orb_false_r.
      * by rewrite orb_false_r.
Qed.

Lemma history_fold v l v' : Forall sequenced l -> res_fold history_step v l = Ok v' <->
  linked (hv_room v) (sl_author (hv_seal v)) (hv_head v) l (hv_head v') /\ Forall (fits_history v) l /\
  v' = foldl history_next v l.
Proof.
  intros Hl. revert v. induction Hl as [|e l He Hl IH]; intros v; simpl.
  - split; [by intros [= <-]|]. by intros (_ & _ & ->).
  - rewrite res_bind_Ok. setoid_rewrite history_step_Ok; [|done]. split.
    + intros (v1 & (Hfo & Hfi & ->) & (Hl1 & Hl2 & ->)%IH). split; [done|]. split; [by constructor|done].
    + intros ([Hfo Hl1] & [Hfi Hl2]%Forall_cons & ->). exists (history_next v e). split; [done|].
      by apply IH.
Qed.

Lemma history_push_Ok page v v' : Forall sequenced page -> history_push page v = (Ok tt, v') <->
  1 <= len page <= MAX_CHAIN_PAGE /\
  linked (hv_room v) (sl_author (hv_seal v)) (hv_head v) page (hv_head v') /\ Forall (fits_history v) page /\
  v' = foldl history_next v page.
Proof.
  intros Hs. unfold history_push. rewrite bind_lift_Ok. setoid_rewrite bind_Ok. setoid_rewrite bind_lift_Ok. split.
  - intros ([] & Hb%page_bounds_Ok & ? & ? & [= <- <-] & c & (? & ? & ->)%history_fold & [= <-]); done.
  - intros (Hb & ? & ? & ->). exists tt. split; [by apply page_bounds_Ok|]. do 2 eexists. split; [done|].
    eexists. split; [by apply history_fold|done].
Qed.

Lemma history_push_rolls_back page : rolls_back (history_push page).
Proof.
  unfold history_push. apply rolls_back_bind; [apply observes_lift|]. intros _.
  apply rolls_back_bind; [apply observes_get|]. intros p.
  apply rolls_back_bind; [apply observes_lift|]. intros c. apply rolls_back_modify.
Qed.

Lemma history_push_total page v : fst (history_push page v) <> Panic.
Proof.
  unfold history_push, bind, lift, get, modify.
  assert (Hb : page_bounds page <> Panic) by (unfold page_bounds; by case_match).
  destruct (page_bounds page); simpl; [|done..].
  enough (H : forall l w, res_fold history_step w l <> Panic) by (specialize (H page v); by destruct (res_fold _ v page)).
  intros l. induction l as [|e l IH]; intros w; simpl; [done|].
  enough (history_step w e <> Panic) by (destruct (history_step w e); simpl; auto).
  unfold history_step, checked_add. repeat (case_match; [done|]).
  destruct (_ <? 2 ^ 64); simpl; [|done]. by repeat (case_match; simpl; try done).
Qed.

(** ** All pages *)

(** The verifier after the events [l] of a fresh one. *)
Record verifying (v0 v : SealedHistoryVerifier) (l : list VerifiedEvent) : Prop := {
  vy_linked : linked (hv_room v0) (sl_author (hv_seal v0)) EMPTY l (hv_head v);
  vy_fits : Forall (fits_history v0) l;
  vy_state : v = foldl history_next v0 l;
}.

Lemma next_fields l v : let v' := foldl history_next v l in
  hv_room v' = hv_room v /\ hv_policy v' = hv_policy v /\ hv_closing_policy v' = hv_closing_policy v /\
  hv_seal v' = hv_seal v /\ hv_candidate v' = hv_candidate v.
Proof. simpl. revert v. induction l as [|e l IH]; intros v; simpl; [done|].
  destruct (IH (history_next v e)) as (-> & -> & -> & -> & ->). done.
Qed.

Lemma fits_fields v v' e : hv_policy v' = hv_policy v -> hv_seal v' = hv_seal v -> hv_candidate v' = hv_candidate v ->
  fits_history v' e <-> fits_history v e.
Proof. unfold fits_history. by intros -> -> ->. Qed.

Lemma next_encountered l v : hv_encountered (foldl history_next v l) =
  hv_encountered v || existsb (fun e => ev_sequence (claims e) =? ev_sequence (claims (hv_candidate v))) l.
Proof.
  revert v. induction l as [|e l IH]; intros v; simpl; [by rewrite orb_false_r|].
  rewrite IH. simpl. by rewrite orb_assoc.
Qed.

Lemma next_terminal v l : Forall (fits_history v) l -> hv_terminal_policy v = None ->
  hv_terminal_policy (foldl history_next v l) =
  if existsb (fun e => ev_sequence (claims e) =? sl_sequence (hv_seal v)) l then Some (hv_policy v) else None.
Proof.
  intros Hf Hn. induction l as [|e l IH] using rev_ind; [done|].
  apply Forall_app in Hf as [Hf [[_ Ht] _]%Forall_singleton]. rewrite foldl_app, existsb_app. simpl.
  destruct (next_fields l v) as (_ & _ & _ & -> & _). rewrite orb_false_r, IH by done.
  destruct (N.eqb_spec (ev_sequence (claims e)) (sl_sequence (hv_seal v))) as [E|E].
  - rewrite orb_true_r. destruct (Ht E) as [_ ->]. done.
  - by rewrite orb_false_r.
Qed.

Lemma verifying_push v0 v l page : Forall sequenced page -> verifying v0 v l ->
  match history_push page v with
  | (Ok _, v') => verifying v0 v' (l ++ page)
  | (_, v') => v' = v
  end.
Proof.
  intros Hs Hv. pose proof (history_push_rolls_back page v) as Hr.
  destruct (history_push page v) as [[[]|e|] v'] eqn:E; [|done..]. clear Hr. destruct Hv as [Hl Hf ->].
  apply history_push_Ok in E as (_ & Hl' & Hf' & ->); [|done].
  destruct (next_fields l v0) as (E1 & E2 & _ & E4 & E5). rewrite E1, E4 in Hl'. split.
  - apply linked_app. eexists. split; [exact Hl|exact Hl'].
  - apply Forall_app. split; [done|]. eapply Forall_impl; [exact Hf'|]. intros e. by apply fits_fields.
  - by rewrite foldl_app.
Qed.

Lemma verifying_run v0 v l pages : Forall (Forall sequenced) pages -> verifying v0 v l ->
  verifying v0 (history_run pages v) (l ++ accepted_events pages v).
Proof.
  intros Hp. revert v l. induction Hp as [|page pages Hp Hps IH]; intros v l Hv; simpl; [by rewrite app_nil_r|].
  pose proof (verifying_push v0 v l page Hp Hv) as H. unfold history_run in *. simpl.
  destruct (history_push page v) as [[[]|e|] v'] eqn:E; simpl in *.
  - rewrite app_assoc. by apply IH.
  - subst. by apply IH.
  - subst. by apply IH.
Qed.

(** A fresh verifier for a seal and a candidate below it. *)
Record fresh_verifier (v : SealedHistoryVerifier) : Prop := {
  fv_head : hv_head v = EMPTY;
  fv_encountered : hv_encountered v = false;
  fv_terminal : hv_terminal_policy v = None;
}.

Lemma verifying_fresh v : fresh_verifier v -> verifying v v [].
Proof. intros [Hh _ _]. split; [done|done|done]. Qed.

Lemma existsb_elem {A} (f : A -> bool) l : existsb f l = true <-> exists x, x ∈ l /\ f x = true.
Proof. rewrite List.existsb_exists. by setoid_rewrite list_elem_of_In. Qed.

Lemma finish_verifying v0 v l h : fresh_verifier v0 -> verifying v0 v l ->
  history_finish v = Ok h <->
  sealed_history (hv_room v0) (hv_policy v0) (hv_seal v0) (hv_candidate v0) l /\
  h = mkHistorical (hv_candidate v0) (hv_closing_policy v0).
Proof.
  intros [Hh He Ht] [Hl Hf Ev]. destruct (next_fields l v0) as (_ & E2 & E3 & E4 & E5). rewrite <- Ev in *.
  pose proof (next_encountered l v0) as Hen. rewrite He in Hen. pose proof (next_terminal v0 l Hf Ht) as Hte.
  rewrite <- Ev in *. simpl in Hen. unfold history_finish. rewrite E2, E3, E4, E5, Hen, Hte. clear Hen Hte. split.
  - intros H. case_match eqn:Ef; [done|]. injection H as <-. bool_to_prop. split; [|done].
    rewrite (existsb_elem (A := VerifiedEvent)) in *. split.
    + destruct (hv_head v) as [n i]. simpl in *. subst. exact Hl.
    + match goal with H : (if ?b then _ else _) = _ |- _ => destruct b eqn:Eb; [|done] end.
      apply existsb_elem in Eb as (e & He1 & He2). bool_to_prop.
      exists e. split; [done|]. split; [done|]. pose proof (proj1 (Forall_forall _ _) Hf e He1) as [[_ Hx] _]. by apply Hx.
    + match goal with H : exists x, _ |- _ => destruct H as (e & He1 & He2) end. bool_to_prop.
      exists e. split; [done|]. split; [done|]. pose proof (proj1 (Forall_forall _ _) Hf e He1) as [_ Hx]. by apply Hx.
  - intros [[Hl' (e & He1 & He2 & _) (c & Hc1 & Hc2 & _)] ->].
    pose proof (linked_det _ _ _ _ _ _ Hl Hl') as Eh. rewrite Eh. simpl.
    rewrite (proj2 (existsb_elem _ l)) by (exists c; split; [done|by apply N.eqb_eq]).
    rewrite (proj2 (existsb_elem _ l)) by (exists e; split; [done|by apply N.eqb_eq]).
    rewrite N.eqb_refl, !bool_decide_true by done. done.
Qed.

(** Every event of a sealed history passes. *)
Lemma sealed_fits v l e : sealed_history (hv_room v) (hv_policy v) (hv_seal v) (hv_candidate v) l -> e ∈ l ->
  fits_history v e.
Proof.
  intros [Hl (t & Ht1 & Ht2 & Ht3) (c & Hc1 & Hc2 & Hc3)] He. split; [split|].
  - destruct (linked_bounds _ _ _ _ _ _ Hl He). done.
  - intros E. assert (e = t) as -> by (eapply linked_at; [exact Hl|done|done|congruence]). split; [|done].
    assert (Hn : l <> []) by (intros ->; by apply elem_of_nil in He).
    destruct (linked_last _ _ _ _ _ Hl Hn) as (l' & x & -> & Ex). injection Ex as E1 E2.
    assert (t = x) as ->; [|done]. eapply (linked_at _ _ _ _ _ _ _ Hl); [done| |congruence].
    apply elem_of_app. right. by left.
  - intros E. assert (e = c) as -> by (eapply linked_at; [exact Hl|done|done|congruence]). done.
Qed.

Definition page_sized (page : list VerifiedEvent) : Prop := 1 <= len page <= MAX_CHAIN_PAGE.

(** The pages of a sealed history are all accepted. *)
Lemma accepted_all v0 v l pages : fresh_verifier v0 -> verifying v0 v l ->
  sealed_history (hv_room v0) (hv_policy v0) (hv_seal v0) (hv_candidate v0) (l ++ concat pages) ->
  Forall page_sized pages -> Forall (Forall sequenced) pages ->
  accepted_events pages v = concat pages.
Proof.
  intros Hf Hv Hsh Hsz Hs. revert v l Hv Hsh Hs. induction Hsz as [|page pages Hp Hps IH]; intros v l Hv Hsh Hs; [done|].
  apply Forall_cons in Hs as [Hs1 Hs2]. cbn [concat accepted_events] in *.
  pose proof (sh_linked _ _ _ _ _ Hsh) as Hl. apply linked_app in Hl as (m1 & Hl1 & Hl2).
  apply linked_app in Hl2 as (m2 & Hl2 & Hl3).
  pose proof (linked_det _ _ _ _ _ _ (vy_linked _ _ _ Hv) Hl1) as Em. subst m1.
  destruct (next_fields l v0) as (E1 & E2 & _ & E4 & E5). pose proof (vy_state _ _ _ Hv) as Est.
  assert (Hpush : history_push page v = (Ok tt, foldl history_next v page)).
  { apply history_push_Ok; [done|]. split; [done|]. subst v. rewrite E1, E4. split; [|split; [|done]].
    - assert (Hn : page <> []) by (intros ->; by destruct Hp).
      destruct (linked_last _ _ _ _ _ Hl2 Hn) as (l' & x & -> & Ex). rewrite foldl_app. simpl. by subst m2.
    - apply Forall_forall. intros e He. apply (fits_fields v0); [done..|].
      eapply sealed_fits; [exact Hsh|]. apply elem_of_app. right. apply elem_of_app. by left. }
  rewrite Hpush. f_equal. eapply (IH _ (l ++ page)); [|by rewrite <- app_assoc|done].
  pose proof (verifying_push v0 v l page Hs1 Hv) as H. by rewrite Hpush in H.
Qed.
