(* ===== verification/DirectCommit.v ===== *)
(** Policies of direct rooms and the commit of owner updates. *)
From Stdlib Require Import Ascii String.
From stdpp Require Import gmap sorting.
From S2P Require Import Prelude Bytes Signed Invitation OrderedMap DirectCodec DirectFacts.
From S2P Require Import DirectState DirectChain DirectProof.

(** Owner policies of a direct room: the exact effect of each operation on
    [PolicyState], and the invariant that its policies are one chain of the
    pinned owner whose seals end authentic author chains ([DirectState]). *)

Section Policy.
Context (sha256 : list N -> list N) `{Hed : Ed25519}.
Implicit Types (s : PolicyState) (p : VerifiedPolicy) (q : PreparedPolicy).

Notation authentic_event := (authentic sha256 (typed := event_typed)).
Notation authentic_policy := (authentic sha256 (typed := policy_typed)).
Notation head := (policy_head sha256).

(** ** The operations *)

Lemma check_owner_Ok s p : check_owner s p = Ok tt <->
  po_room (claims p) = room s /\ po_owner (claims p) = owner s.
Proof.
  unfold check_owner. split.
  - intros H. repeat (case_match; [done|]). bool_to_prop. done.
  - intros [-> ->]. by rewrite !bool_decide_true.
Qed.

Lemma fresh_admission_Ok s : fresh_admission s = Ok tt <->
  ps_forked s = false /\ ps_observation_overflow s = false /\ ps_observed s = ∅.
Proof.
  unfold fresh_admission. split.
  - intros H. repeat (case_match; [done|]). by bool_to_prop.
  - intros (-> & -> & ->). by rewrite bool_decide_true.
Qed.

(** The fields an operation other than a commit may change. *)
Record same_policy s s' : Prop := {
  sm_genesis : ps_genesis s' = ps_genesis s;
  sm_current : ps_current s' = ps_current s;
  sm_sealed : ps_sealed s' = ps_sealed s;
}.

(** Authenticated updates of the owner that contradict the head or an earlier
    observation fork the room; a later one is remembered. *)
Inductive observed_as p s : RoomError + unit -> PolicyState -> Prop :=
| observed_fork :
    check_owner s p = Ok tt ->
    (po_revision (claims p) = pp_revision (head s) /\ record_id p <> pp_id (head s)) \/
    (pp_revision (head s) < po_revision (claims p) /\
     exists id, ps_observed s !! po_revision (claims p) = Some id /\ id <> record_id p) ->
    observed_as p s (inl RFork) (set_forked s)
| observed_full :
    check_owner s p = Ok tt -> pp_revision (head s) < po_revision (claims p) ->
    ps_observed s !! po_revision (claims p) = None -> N.of_nat (size (ps_observed s)) = MAX_OBSERVED_POLICIES ->
    observed_as p s (inl RCapacity) (set_overflow s)
| observed_new :
    check_owner s p = Ok tt -> pp_revision (head s) < po_revision (claims p) ->
    ps_observed s !! po_revision (claims p) = None -> N.of_nat (size (ps_observed s)) <> MAX_OBSERVED_POLICIES ->
    observed_as p s (inr tt) (set_observed (<[po_revision (claims p) := record_id p]> (ps_observed s)) s)
| observed_again :
    check_owner s p = Ok tt -> pp_revision (head s) < po_revision (claims p) ->
    ps_observed s !! po_revision (claims p) = Some (record_id p) -> observed_as p s (inr tt) s
| observed_refused e :
    check_owner s p = Err e \/
    (check_owner s p = Ok tt /\
     ((po_revision (claims p) < pp_revision (head s) /\ e = RReplay) \/
      (po_revision (claims p) = pp_revision (head s) /\ record_id p = pp_id (head s) /\ e = RDuplicate))) ->
    observed_as p s (inl e) s.

Definition observe_outcome (r : res RoomError unit) : option (RoomError + unit) :=
  match r with Ok a => Some (inr a) | Err e => Some (inl e) | Panic => None end.

Lemma observe_cases p s : exists o, observe_outcome (fst (observe sha256 p s)) = Some o /\
  observed_as p s o (snd (observe sha256 p s)).
Proof.
  unfold observe, bind, get, lift. destruct (check_owner s p) as [[]|e|] eqn:Eo; simpl.
  2: { exists (inl e). split; [done|]. apply observed_refused. by left. }
  2: { exfalso. revert Eo. unfold check_owner. by repeat case_match. }
  destruct (N.ltb_spec (po_revision (claims p)) (pp_revision (head s))) as [Hl|Hl].
  { eexists. split; [done|]. apply observed_refused. right. split; [done|]. left. done. }
  destruct (N.eqb_spec (po_revision (claims p)) (pp_revision (head s))) as [He|He].
  { case_bool_decide as Ei.
    - eexists. split; [done|]. apply observed_refused. right. split; [done|]. by right.
    - eexists. split; [done|]. apply observed_fork; [done|]. by left. }
  destruct (ps_observed s !! po_revision (claims p)) as [id|] eqn:El.
  - case_bool_decide as Ei; simpl; eexists; (split; [done|]).
    + subst. apply observed_again; [done|lia|done].
    + apply observed_fork; [done|]. right. split; [lia|]. exists id. split; [done|]. congruence.
  - destruct (N.eqb_spec (N.of_nat (size (ps_observed s))) MAX_OBSERVED_POLICIES); simpl; eexists; (split; [done|]).
    + apply observed_full; (done || lia).
    + apply observed_new; (done || lia).
Qed.

(** What the seal of an author extends. *)
Definition prior s (author : list N) : AuthorHead := default EMPTY (sealed_head s author).

Definition proof_for s (seal : SealHead) : SealProof :=
  mkProof (mkChain (room s) (sl_author seal) (prior s (sl_author seal)) None) seal (pp_id (head s)).

Lemma prepare_seal_Ok s seal x : prepare_seal sha256 s seal = Ok x <->
  ah_sequence (prior s (sl_author seal)) < sl_sequence seal /\ x = proof_for s seal.
Proof.
  unfold prepare_seal, proof_for. fold (prior s (sl_author seal)). split.
  - intros H. destruct (N.ltb_spec (sl_sequence seal) (ah_sequence (prior s (sl_author seal)))); [done|].
    simpl in H. destruct (N.eqb_spec (sl_sequence seal) (ah_sequence (prior s (sl_author seal)))).
    + by case_match.
    + injection H as <-. split; [lia|done].
  - intros [Hl ->]. rewrite (proj2 (N.ltb_ge _ _)) by lia. by rewrite (proj2 (N.eqb_neq _ _)) by lia.
Qed.

Lemma prepare_seals_Ok s acc seals proofs :
  res_fold (fun proofs seal => let? p := prepare_seal sha256 s seal in Ok (proofs ++ [p])) acc seals = Ok proofs <->
  Forall (fun seal => ah_sequence (prior s (sl_author seal)) < sl_sequence seal) seals /\
  proofs = acc ++ (proof_for s <$> seals).
Proof.
  revert acc. induction seals as [|seal seals IH]; intros acc; cbn [res_fold].
  - rewrite app_nil_r. split; [by intros [= <-]|by intros [_ ->]].
  - rewrite res_bind_Ok. setoid_rewrite res_bind_Ok. setoid_rewrite prepare_seal_Ok. setoid_rewrite IH.
    rewrite Forall_cons, fmap_cons. split.
    + intros (? & (? & [? ->] & [= <-]) & ? & ->). rewrite <- app_assoc. done.
    + intros ([? ?] & ->). exists (acc ++ [proof_for s seal]). split; [by exists (proof_for s seal)|]. by rewrite <- app_assoc.
Qed.

(** An update that the state may prepare. *)
Record succeeds s p : Prop := {
  su_room : po_room (claims p) = room s;
  su_owner : po_owner (claims p) = owner s;
  su_revision : po_revision (claims p) = pp_revision (head s) + 1;
  su_previous : po_previous (claims p) = pp_id (head s);
}.

Record admits_seals s p : Prop := {
  as_authors : Forall (fun seal => allows s (sl_author seal) = true) (po_sealed_heads (claims p));
  as_capacity : N.of_nat (size (ps_sealed s)) + added_authors s (po_sealed_heads (claims p)) <= MAX_SEALED_AUTHORS;
  as_advance : Forall (fun seal => ah_sequence (prior s (sl_author seal)) < sl_sequence seal)
    (po_sealed_heads (claims p));
}.

Definition prepared_for s p : PreparedPolicy :=
  mkPreparedPolicy (room s) (head s) p
    (mkClosed (room s) (pp_id (head s)) (record_id p) (writers s) (po_sealed_heads (claims p)))
    (proof_for s <$> po_sealed_heads (claims p)).

Lemma existsb_negb {A} (f : A -> bool) l : existsb (fun a => negb (f a)) l = false <-> Forall (fun a => f a = true) l.
Proof.
  induction l as [|a l IH]; [by split|]. cbn [existsb]. rewrite orb_false_iff, negb_false_iff, Forall_cons, IH. done.
Qed.

Lemma prepare_update_Ok s signed q : u 64 (po_revision (un_claims (sr_unsigned signed))) ->
  prepare_update sha256 s signed = Ok q <->
  exists p, verify_record signed = Ok p /\ ps_forked s = false /\ conflicts s p = false /\
    succeeds s p /\ admits_seals s p /\ q = prepared_for s p.
Proof.
  intros Hu. unfold prepare_update. split.
  - intros H. destruct (ps_forked s); [done|]. apply res_bind_Ok in H as (p & Hv & H).
    apply res_bind_Ok in H as ([] & [Hr Ho]%check_owner_Ok & H). destruct (conflicts s p) eqn:Ec; [done|].
    destruct (N.ltb_spec (po_revision (claims p)) (pp_revision (head s))); [done|].
    destruct (N.eqb_spec (po_revision (claims p)) (pp_revision (head s))); [done|].
    apply res_bind_Ok in H as (next & Hn & H). unfold checked_add in Hn.
    destruct (N.ltb_spec (pp_revision (head s) + 1) (2 ^ 64)); [|done]. injection Hn as <-.
    destruct (N.eqb_spec (po_revision (claims p)) (pp_revision (head s) + 1)); [|done].
    destruct (bool_decide_reflect (po_previous (claims p) = pp_id (head s))); [|done]. cbn [negb] in H.
    destruct (existsb _ _) eqn:Ea; [done|]. apply existsb_negb in Ea.
    apply res_bind_Ok in H as (total & Ht & H). unfold checked_add in Ht.
    destruct (_ <? 2 ^ 64); [|done]. injection Ht as <-.
    destruct (N.ltb_spec MAX_SEALED_AUTHORS (N.of_nat (size (ps_sealed s)) + added_authors s (po_sealed_heads (claims p)))); [done|].
    apply res_bind_Ok in H as (proofs & [Hf ->]%prepare_seals_Ok & [= <-]). exists p. by split_and!.
  - intros (p & Hv & -> & Hc & [Hr Ho Hn Hp] & [Ha Hcap Hf] & ->). rewrite Hv. cbn [res_bind].
    assert (Hup : po_revision (claims p) < 2 ^ 64) by (by apply verify_record_Ok in Hv as [_ ->]).
    rewrite (proj2 (check_owner_Ok s p)) by done. cbn [res_bind]. rewrite Hc.
    rewrite (proj2 (N.ltb_ge _ _)) by lia. rewrite (proj2 (N.eqb_neq _ _)) by lia. unfold checked_add.
    rewrite (proj2 (N.ltb_lt _ (2 ^ 64))) by lia. cbn [ok_or res_bind].
    rewrite (proj2 (N.eqb_eq _ _)) by lia. rewrite bool_decide_true by done. cbn [negb].
    rewrite (proj2 (existsb_negb _ _) Ha). change MAX_SEALED_AUTHORS with 4096 in *.
    rewrite (proj2 (N.ltb_lt _ (2 ^ 64))) by lia. cbn [ok_or res_bind].
    rewrite (proj2 (N.ltb_ge _ _)) by lia.
    by rewrite (proj2 (prepare_seals_Ok s [] _ _) (conj Hf eq_refl)).
Qed.

(** The seals recorded by a commit. *)
Definition record_seals (proofs : list SealProof) (m : gmap (list N) AuthorHead) : gmap (list N) AuthorHead :=
  foldl (fun m x => <[sl_author (sp_target x) := ac_head (sp_chain x)]> m) m proofs.

Definition after_commit q s : PolicyState :=
  mkState (ps_genesis s) (Some (qp_update q)) (record_seals (qp_proofs q) (ps_sealed s))
    (delete (po_revision (claims (qp_update q))) (ps_observed s)) (ps_observation_overflow s) (ps_forked s).

Lemma for_each_seals proofs s :
  for_each (E := RoomError) (fun x => modify (fun s =>
    set_sealed (<[sl_author (sp_target x) := ac_head (sp_chain x)]> (ps_sealed s)) s)) proofs s =
  (Ok tt, set_sealed (record_seals proofs (ps_sealed s)) s).
Proof.
  unfold for_each. revert s. induction proofs as [|x proofs IH]; intros s; cbn [eff_fold].
  - by destruct s.
  - unfold bind, modify. by rewrite IH.
Qed.

Record commits q s : Prop := {
  cm_forked : ps_forked s = false;
  cm_room : qp_room q = room s;
  cm_base : qp_base q = head s;
  cm_ready : is_ready q = true;
  cm_conflicts : conflicts s (qp_update q) = false;
}.

Lemma commit_update_Ok q s c s' : commit_update sha256 q s = (Ok c, s') <->
  commits q s /\ c = qp_closed q /\ s' = after_commit q s.
Proof.
  unfold commit_update. rewrite bind_Ok. split.
  - intros (? & ? & [= <- <-] & H). destruct (ps_forked s) eqn:Ef; [done|]. do 3 (case_match; [done|]). bool_to_prop.
    unfold bind in H. rewrite for_each_seals in H. injection H as <- <-. done.
  - intros ([Hf Hr Hb Hd Hc] & -> & ->). exists s, s. split; [done|]. rewrite Hf, Hd, Hc, !bool_decide_true by done.
    unfold bind. cbn [negb orb]. by rewrite for_each_seals.
Qed.

Lemma commit_update_rolls_back q : rolls_back (commit_update sha256 q).
Proof.
  intros s. unfold commit_update, bind, get. destruct (ps_forked s); [done|]. destruct (_ || _); [done|].
  destruct (negb (is_ready q)); [done|]. destruct (conflicts s (qp_update q)); [done|]. by rewrite for_each_seals.
Qed.

(** ** The invariant *)

Definition succeeds_position (r : RoomId) (o : list N) (from : PolicyPosition) p : Prop :=
  po_room (claims p) = r /\ po_owner (claims p) = o /\
  po_revision (claims p) = pp_revision from + 1 /\ po_previous (claims p) = pp_id from.

Definition position_of p : PolicyPosition := mkPosition (po_revision (claims p)) (record_id p).

(** The policies lead from one position to the other. *)
Fixpoint policies_linked (r : RoomId) (o : list N) (from : PolicyPosition) (l : list VerifiedPolicy)
    (to : PolicyPosition) : Prop :=
  match l with
  | [] => to = from
  | p :: l => succeeds_position r o from p /\ policies_linked r o (position_of p) l to
  end.

Lemma policies_linked_snoc r o from l to p : policies_linked r o from l to -> succeeds_position r o to p ->
  policies_linked r o from (l ++ [p]) (position_of p).
Proof.
  revert from. induction l as [|x l IH]; intros from; simpl; [by intros ->|]. intros [? ?] ?. split; [done|by apply IH].
Qed.

Lemma policies_linked_revision r o from l to : policies_linked r o from l to ->
  pp_revision to = pp_revision from + len l.
Proof.
  unfold len. revert from. induction l as [|x l IH]; intros from; simpl; [intros ->; lia|].
  intros [(_ & _ & Hr & _) H%IH]. simpl in H. lia.
Qed.

(** Policy zero. *)
Definition genesis_position s : PolicyPosition := mkPosition 0 (initial_policy sha256 (room s)).

(** The author's sealed head ends a chain of authentic events. *)
Definition sealed_by s (author : list N) (h : AuthorHead) : Prop :=
  exists l, Forall authentic_event l /\ l <> [] /\ linked (room s) author EMPTY l h.

Record policy_inv s (committed : list VerifiedPolicy) : Prop := {
  pi_genesis : authentic sha256 (typed := genesis_typed) (pg_genesis (ps_genesis s));
  pi_chain : policies_linked (room s) (owner s) (genesis_position s) committed (head s);
  pi_current : ps_current s = last committed;
  pi_authentic : Forall authentic_policy committed;
  pi_sealed : forall a h, ps_sealed s !! a = Some h -> sealed_by s a h;
  pi_sealed_bound : N.of_nat (size (ps_sealed s)) <= MAX_SEALED_AUTHORS;
  pi_observed : forall r id, ps_observed s !! r = Some id -> pp_revision (head s) < r;
  pi_observed_bound : N.of_nat (size (ps_observed s)) <= MAX_OBSERVED_POLICIES;
}.

(** A seal's proof: it extends what the author's seal was when the update was
    prepared, up to where the pages have led. *)
Record proof_inv s (x : SealProof) : Prop := {
  xi_room : ac_room (sp_chain x) = room s;
  xi_author : ac_author (sp_chain x) = sl_author (sp_target x);
  xi_policy : sp_policy x = pp_id (head s);
  xi_advance : ah_sequence (prior s (sl_author (sp_target x))) < sl_sequence (sp_target x);
  xi_chain : exists l, Forall authentic_event l /\
    linked (room s) (sl_author (sp_target x)) (prior s (sl_author (sp_target x))) l (ac_head (sp_chain x)) /\
    Forall (fits_seal (sp_target x) (pp_id (head s))) l;
}.

(** A prepared update, until the policy has moved past its base. *)
Record prepared_inv s q : Prop := {
  qi_room : qp_room q = room s;
  qi_base : pp_revision (qp_base q) <= pp_revision (head s);
  qi_current : qp_base q = head s ->
    authentic_policy (qp_update q) /\ succeeds s (qp_update q) /\ admits_seals s (qp_update q) /\
    qp_closed q = qp_closed (prepared_for s (qp_update q)) /\
    sp_target <$> qp_proofs q = po_sealed_heads (claims (qp_update q)) /\ Forall (proof_inv s) (qp_proofs q);
}.

(** How the state may evolve: the policy stays, or its revision grows. *)
Definition evolves s s' : Prop :=
  ps_genesis s' = ps_genesis s /\ (same_policy s s' \/ pp_revision (head s) < pp_revision (head s')).

Lemma same_policy_head s s' : same_policy s s' -> head s' = head s.
Proof. intros [Hg Hc _]. unfold policy_head, room. by rewrite Hg, Hc. Qed.

Lemma same_policy_evolves s s' : same_policy s s' -> evolves s s'.
Proof. intros H. split; [apply H|by left]. Qed.

Lemma proof_same s s' x : same_policy s s' -> proof_inv s x -> proof_inv s' x.
Proof.
  intros Hs. pose proof (same_policy_head s s' Hs) as Hh. destruct Hs as [Hg Hc Hm].
  assert (Hp : forall a, prior s' a = prior s a) by (intros; unfold prior, sealed_head; by rewrite Hm).
  assert (Hr : room s' = room s) by (unfold room; by rewrite Hg).
  intros []. split; rewrite ?Hh, ?Hp, ?Hr; done.
Qed.

Lemma prepared_evolves s s' q : evolves s s' -> prepared_inv s q -> prepared_inv s' q.
Proof.
  intros [Hg He] [Hr Hb Hc]. assert (Er : room s' = room s) by (unfold room; by rewrite Hg).
  assert (Eo : owner s' = owner s) by (unfold owner; by rewrite Hg).
  destruct He as [Hs|Hlt].
  - pose proof (same_policy_head s s' Hs) as Hh. split; [by rewrite Er|by rewrite Hh|]. rewrite Hh. intros E.
    destruct (Hc E) as (Ha & [? ? ? ?] & [? Hcap ?] & Hcl & Ht & Hp). split; [done|].
    assert (Hm : ps_sealed s' = ps_sealed s) by apply Hs.
    assert (Hw : writers s' = writers s) by (unfold writers; by rewrite (sm_current _ _ Hs), Hg).
    split_and!; [split; rewrite ?Hh, ?Er, ?Eo; done| | |done|].
    + split; unfold allows, prior, sealed_head, added_authors in *; rewrite ?Hm, ?Hw; done.
    + rewrite Hcl. unfold prepared_for. simpl. by rewrite Er, Hh, Hw.
    + eapply Forall_impl; [exact Hp|]. intros x. by apply proof_same.
  - split; [by rewrite Er|lia|]. intros E. rewrite E in Hb. lia.
Qed.

Lemma policy_inv_same s s' committed : same_policy s s' -> policy_inv s committed ->
  (forall r id, ps_observed s' !! r = Some id -> pp_revision (head s) < r) ->
  N.of_nat (size (ps_observed s')) <= MAX_OBSERVED_POLICIES -> policy_inv s' committed.
Proof.
  intros Hs [] Ho Hb. pose proof (same_policy_head s s' Hs) as Hh. destruct Hs as [Hg Hc Hm].
  assert (Er : room s' = room s) by (unfold room; by rewrite Hg).
  assert (Eo : owner s' = owner s) by (unfold owner; by rewrite Hg).
  split; rewrite ?Hg, ?Hc, ?Hm, ?Hh, ?Er, ?Eo; unfold genesis_position, sealed_by; rewrite ?Er; done.
Qed.

Lemma observed_as_same p s o s' : observed_as p s o s' -> same_policy s s'.
Proof. by intros []. Qed.

Lemma observe_inv p s committed : policy_inv s committed ->
  policy_inv (snd (observe sha256 p s)) committed /\ same_policy s (snd (observe sha256 p s)).
Proof.
  intros Hi. destruct (observe_cases p s) as (o & _ & Ho). split; [|by eapply observed_as_same].
  eapply policy_inv_same; [by eapply observed_as_same|done|..].
  - destruct Ho; try apply Hi. intros r id Hr. simpl in Hr.
    apply lookup_insert_Some in Hr as [[<- _]|[_ Hr]]; [done|]. by eapply pi_observed.
  - pose proof (pi_observed_bound _ _ Hi). destruct Ho; try done. simpl. rewrite map_size_insert_None by done. lia.
Qed.

Lemma observe_retained_same retained offered s : same_policy s (snd (observe_retained retained offered s)) /\
  ps_observed (snd (observe_retained retained offered s)) = ps_observed s.
Proof.
  unfold observe_retained, bind, get. destruct (compare_retained s retained offered) as [|[]|]; done.
Qed.

Lemma observe_retained_inv retained offered s committed : policy_inv s committed ->
  policy_inv (snd (observe_retained retained offered s)) committed.
Proof.
  intros Hi. destruct (observe_retained_same retained offered s) as [Hs Ho].
  eapply policy_inv_same; [done|done|..]; rewrite Ho; apply Hi.
Qed.

(** A verified update that the state prepares. *)
Lemma prepare_update_inv signed s q : signed_ok sha256 (typed := policy_typed) signed ->
  prepare_update sha256 s signed = Ok q -> prepared_inv s q.
Proof.
  intros Hs H. apply prepare_update_Ok in H as (p & Hv & _ & _ & Hsu & Had & ->).
  2: { destruct Hs as [[(_ & _ & Hu & _) _ _] _]. exact Hu. }
  split; [done|done|]. intros _. split_and!; [by eapply verify_authentic|done|done|done| |].
  - simpl. rewrite <- list_fmap_compose. by apply list_fmap_id.
  - simpl. destruct Had as [_ _ Hf]. induction Hf as [|seal seals Hx Hf IH]; csimpl; constructor; [|done].
    split; try done. exists []. split_and!; constructor.
Qed.

(** A page for a seal. *)
Lemma seal_push_inv page x s : Forall authentic_event page -> proof_inv s x ->
  proof_inv s (snd (seal_push page x)) /\ sp_target (snd (seal_push page x)) = sp_target x.
Proof.
  intros Hp Hx. pose proof (seal_push_rolls_back page x) as Hr.
  destruct (seal_push page x) as [[[]|e|] x'] eqn:E; simpl; [|by subst..].
  apply seal_push_Ok in E as (_ & to & Hl & Hf & ->).
  2: { eapply Forall_impl; [exact Hp|]. apply authentic_sequenced. }
  split; [|done]. destruct Hx as [H1 H2 H3 H4 (l & Ha & Hl' & Hf')]. rewrite H1, H2 in Hl. rewrite H3 in Hf.
  split; try done. simpl. exists (l ++ page). split_and!; [by apply Forall_app| |by apply Forall_app].
  apply linked_app. by exists (ac_head (sp_chain x)).
Qed.

Lemma push_seal_inv author page q s : Forall authentic_event page -> prepared_inv s q ->
  prepared_inv s (snd (push_seal author page q)).
Proof.
  intros Hp Hq. unfold push_seal, bind, get, throw, modify, lift.
  destruct (list_find _ (qp_proofs q)) as [[i x]|] eqn:Ef; [|done].
  apply list_find_Some in Ef as (Hi & _ & _).
  destruct (seal_push page x) as [r x'] eqn:E. simpl. destruct Hq as [Hr Hb Hc]. split; [done|done|].
  simpl. intros Eb. destruct (Hc Eb) as (Ha & Hsu & Had & Hcl & Ht & Hpr). split_and!; try done.
  - destruct (seal_push_inv page x s Hp) as [_ Et]; [by eapply Forall_lookup_1|]. rewrite E in Et. simpl in Et.
    rewrite list_fmap_insert, Et. rewrite list_insert_id; [done|]. by rewrite list_lookup_fmap, Hi.
  - apply Forall_insert; [done|]. destruct (seal_push_inv page x s Hp) as [H' _]; [by eapply Forall_lookup_1|].
    by rewrite E in H'.
Qed.
End Policy.

(** Commits of owner updates: what they record, and that the invariant of the
    policy survives them ([DirectCommit]). *)

Definition proof_author (x : SealProof) : list N := sl_author (sp_target x).

Lemma record_seals_source proofs m a h : record_seals proofs m !! a = Some h ->
  (m !! a = Some h /\ a ∉ proof_author <$> proofs) \/ exists x, x ∈ proofs /\ proof_author x = a /\ h = ac_head (sp_chain x).
Proof.
  induction proofs as [|x proofs IH] using rev_ind; [left; by split; [|apply not_elem_of_nil]|].
  unfold record_seals in *. rewrite foldl_app. simpl. intros [[<- <-]|[Hne H]]%lookup_insert_Some.
  - right. exists x. split; [apply elem_of_app; right; by left|done].
  - apply IH in H as [[Hm Hn]|(y & Hy & Ey & ->)].
    + left. split; [done|]. rewrite fmap_app, not_elem_of_app. split; [done|]. by apply not_elem_of_cons; split; [|apply not_elem_of_nil].
    + right. exists y. split; [apply elem_of_app; by left|done].
Qed.

Lemma record_seals_other proofs m a : a ∉ proof_author <$> proofs -> record_seals proofs m !! a = m !! a.
Proof.
  unfold record_seals. revert m. induction proofs as [|x proofs IH]; intros m; [done|].
  rewrite fmap_cons, not_elem_of_cons. intros [Hx Hp]. simpl. rewrite IH by done. by rewrite lookup_insert_ne.
Qed.

Lemma record_seals_in proofs m x : NoDup (proof_author <$> proofs) -> x ∈ proofs ->
  record_seals proofs m !! proof_author x = Some (ac_head (sp_chain x)).
Proof.
  unfold record_seals. revert m. induction proofs as [|y proofs IH]; intros m; [by intros _ ?%elem_of_nil|].
  rewrite fmap_cons. intros [Hy Hn]%NoDup_cons [->|Hx]%elem_of_cons; simpl; [|by apply IH].
  fold (record_seals proofs (<[sl_author (sp_target y):=ac_head (sp_chain y)]> m)).
  rewrite record_seals_other by done. by rewrite lookup_insert, decide_True.
Qed.

Lemma record_seals_size proofs m :
  (size (record_seals proofs m) <= size m + length (filter (fun x => m !! sl_author (sp_target x) = None) proofs))%nat.
Proof.
  unfold record_seals. revert m. induction proofs as [|x proofs IH]; intros m; simpl; [lia|].
  etrans; [apply IH|]. rewrite filter_cons.
  assert (Hf : (length (filter (fun y => <[sl_author (sp_target x):=ac_head (sp_chain x)]> m !! sl_author (sp_target y) = None) proofs)
    <= length (filter (fun y => m !! sl_author (sp_target y) = None) proofs))%nat).
  { apply submseteq_length, sublist_submseteq. clear IH. induction proofs as [|y proofs IH]; [done|].
    rewrite !filter_cons. case_decide as D1; case_decide as D2; [by constructor| |by constructor|done].
    apply lookup_insert_None in D1 as [? _]. done. }
  case_decide as D.
  - rewrite map_size_insert_None by done. simpl. lia.
  - destruct (m !! sl_author (sp_target x)) as [h|] eqn:E; [|done]. rewrite map_size_insert_Some by (by rewrite E). lia.
Qed.

Section Commit.
Context (sha256 : list N -> list N) `{Hed : Ed25519}.
Implicit Types (s : PolicyState) (p : VerifiedPolicy) (q : PreparedPolicy).

Notation authentic_event := (authentic sha256 (typed := event_typed)).
Notation authentic_policy := (authentic sha256 (typed := policy_typed)).
Notation head := (policy_head sha256).

Lemma authentic_policy_ok p : authentic_policy p -> policy_ok (claims p).
Proof. intros [[[_ Hc _] _] _]. by apply policy_check_Ok. Qed.

(** The invariant's reading of a commit: the proofs are complete. *)
Record committing s q : Prop := {
  ct_authentic : authentic_policy (qp_update q);
  ct_succeeds : succeeds sha256 s (qp_update q);
  ct_seals : admits_seals s (qp_update q);
  ct_closed : qp_closed q = qp_closed (prepared_for sha256 s (qp_update q));
  ct_targets : sp_target <$> qp_proofs q = po_sealed_heads (claims (qp_update q));
  ct_proofs : Forall (proof_inv sha256 s) (qp_proofs q);
  ct_complete : forall x, x ∈ qp_proofs q -> ac_head (sp_chain x) = seal_head (sp_target x);
}.

Lemma commits_committing s q : prepared_inv sha256 s q -> commits sha256 q s -> committing s q.
Proof.
  intros [_ _ Hc] [_ _ Hb Hd _]. destruct (Hc Hb) as (? & ? & ? & ? & ? & ?). split; [done..|].
  intros x Hx. unfold is_ready in Hd. rewrite forallb_forall in Hd. apply list_elem_of_In, Hd in Hx.
  unfold seal_complete in Hx. bool_to_prop. destruct (ac_head (sp_chain x)). unfold seal_head. simpl in *. by subst.
Qed.

(** The chain between an author's seals. *)
Definition seal_extends s s' (seal : SealHead) (policy : PolicyId) : Prop :=
  sealed_head s' (sl_author seal) = Some (seal_head seal) /\
  exists l, l <> [] /\ Forall authentic_event l /\ Forall (fits_seal seal policy) l /\
    linked (room s) (sl_author seal) (prior s (sl_author seal)) l (seal_head seal).

Lemma committing_authors s q : committing s q -> proof_author <$> qp_proofs q = sl_author <$> po_sealed_heads (claims (qp_update q)).
Proof. intros H. rewrite <- (ct_targets _ _ H), <- list_fmap_compose. done. Qed.

Lemma committing_nodup s q : committing s q -> NoDup (proof_author <$> qp_proofs q).
Proof.
  intros H. rewrite (committing_authors s q H). apply sorted_nodup.
  apply (pk_sorted _ (authentic_policy_ok _ (ct_authentic _ _ H))).
Qed.

(** A complete proof has a chain that ends at its seal. *)
Lemma complete_chain s q x : committing s q -> x ∈ qp_proofs q ->
  exists l, l <> [] /\ Forall authentic_event l /\ Forall (fits_seal (sp_target x) (pp_id (head s))) l /\
    linked (room s) (proof_author x) (prior s (proof_author x)) l (seal_head (sp_target x)).
Proof.
  intros H Hx. destruct (proj1 (Forall_forall _ _) (ct_proofs _ _ H) x Hx) as [_ _ _ Had (l & Ha & Hl & Hf)].
  rewrite (ct_complete _ _ H x Hx) in Hl. exists l. split_and!; try done. intros ->. simpl in Hl.
  unfold proof_author in *. rewrite <- Hl in Had. simpl in Had. lia.
Qed.

Lemma commit_extends s q seal : committing s q -> seal ∈ po_sealed_heads (claims (qp_update q)) ->
  seal_extends s (after_commit q s) seal (pp_id (head s)).
Proof.
  intros H Hs. rewrite <- (ct_targets _ _ H) in Hs. apply list_elem_of_fmap in Hs as (x & -> & Hx). split.
  - unfold sealed_head. simpl. change (sl_author (sp_target x)) with (proof_author x).
    rewrite record_seals_in by (done || by eapply committing_nodup). by rewrite (ct_complete _ _ H x Hx).
  - by apply (complete_chain s q).
Qed.

Lemma commit_keeps s q a : committing s q -> a ∉ sl_author <$> po_sealed_heads (claims (qp_update q)) ->
  sealed_head (after_commit q s) a = sealed_head s a.
Proof. intros H Ha. unfold sealed_head. simpl. apply record_seals_other. by rewrite (committing_authors s q H). Qed.

Lemma commit_size s q : committing s q -> N.of_nat (size (record_seals (qp_proofs q) (ps_sealed s))) <= MAX_SEALED_AUTHORS.
Proof.
  intros H. pose proof (as_capacity _ _ (ct_seals _ _ H)) as Hc. pose proof (record_seals_size (qp_proofs q) (ps_sealed s)) as Hr.
  unfold added_authors, len in Hc. rewrite <- (ct_targets _ _ H) in Hc. 
  replace (length (filter (fun seal => ps_sealed s !! sl_author seal = None) (sp_target <$> qp_proofs q)))
    with (length (filter (fun x => ps_sealed s !! sl_author (sp_target x) = None) (qp_proofs q))) in Hc; [lia|].
  clear. induction (qp_proofs q) as [|x l IH]; [done|]. rewrite fmap_cons, !filter_cons.
  case_decide; [|done]. cbn [length]. by rewrite IH.
Qed.

Lemma after_commit_head s q : policy_head sha256 (after_commit q s) = position_of (qp_update q).
Proof. done. Qed.

Lemma commit_evolves s q : committing s q -> evolves sha256 s (after_commit q s).
Proof. intros H. split; [done|]. right. rewrite after_commit_head. simpl. rewrite (su_revision _ _ _ (ct_succeeds _ _ H)). lia. Qed.

Lemma prior_chain s committed a : policy_inv sha256 s committed ->
  exists l, Forall authentic_event l /\ linked (room s) a EMPTY l (prior s a).
Proof.
  intros Hi. unfold prior, sealed_head. destruct (ps_sealed s !! a) as [h|] eqn:E.
  - destruct (pi_sealed _ _ _ Hi _ _ E) as (l & Ha & _ & Hl). by exists l.
  - by exists [].
Qed.

Lemma commit_inv s q committed : policy_inv sha256 s committed -> committing s q ->
  policy_inv sha256 (after_commit q s) (committed ++ [qp_update q]).
Proof.
  intros Hi H. assert (Hi' := Hi). destruct Hi' as [Hg Hc Hcu Ha Hs Hsb Ho Hob].
  destruct (ct_succeeds _ _ H) as [S1 S2 S3 S4]. split; try done.
  - rewrite after_commit_head. eapply policies_linked_snoc; [exact Hc|]. done.
  - by rewrite last_snoc.
  - apply Forall_app. split; [done|]. constructor; [apply H|done].
  - intros a h Hh. simpl in Hh. apply record_seals_source in Hh as [[Hm _]|(x & Hx & <- & ->)]; [by apply Hs|].
    destruct (complete_chain s q x H Hx) as (l & Hn & Hal & _ & Hl).
    destruct (prior_chain s committed (proof_author x) Hi) as (l0 & Hal0 & Hl0).
    exists (l0 ++ l). split; [by apply Forall_app|]. split; [by destruct l0, l|].
    rewrite (ct_complete _ _ H x Hx). change (room (after_commit q s)) with (room s). apply linked_app. eauto.
  - simpl. by apply commit_size.
  - intros r id Hr. simpl in Hr. apply lookup_delete_Some in Hr as [Hne Hr]. specialize (Ho r id Hr).
    rewrite after_commit_head. simpl. lia.
  - simpl. etrans; [|exact Hob].
    pose proof (subseteq_size _ _ (subseteq_dom _ _ (delete_subseteq (ps_observed s) (po_revision (claims (qp_update q)))))) as Hsz.
    rewrite !size_dom in Hsz. lia.
Qed.
End Commit.
