(* ===== verification/DirectRoom.v ===== *)
(** Direct rooms as a whole: their invariants, and progress. *)
From Stdlib Require Import Ascii String.
From stdpp Require Import gmap sorting.
From S2P Require Import Prelude Bytes Signed Invitation OrderedMap DirectCodec DirectFacts.
From S2P Require Import DirectState DirectChain DirectProof DirectCommit.

(** A replica of a direct room under any sequence of calls: its policy, the
    chain of one author, and the transitions that were prepared and not yet
    committed ([DirectState]).  What is committed is also kept in a log, as the
    callers persist it before they commit. *)

(** ** The operations of an author chain *)

Section Chain.
Context (sha256 : list N -> list N) `{Hed : Ed25519}.
Implicit Types (s : PolicyState) (c : AuthorChain) (e : VerifiedEvent).

Notation head := (policy_head sha256).

(** The head of the chain is the author's seal, or is known to descend from it. *)
Definition anchored c s : Prop :=
  forall seal, sealed_head s (ac_author c) = Some seal ->
    ac_head c = seal \/ (ah_sequence seal < ah_sequence (ac_head c) /\ ac_checked_seal c = Some seal).

Lemma check_fresh_anchor_Ok c s : check_fresh_anchor c s = Ok tt <-> anchored c s.
Proof.
  unfold check_fresh_anchor, anchored. destruct (sealed_head s (ac_author c)) as [seal|]; [|by split]. split.
  - intros H x [= <-]. destruct (N.ltb_spec (ah_sequence (ac_head c)) (ah_sequence seal)); [done|].
    destruct (N.eqb_spec (ah_sequence (ac_head c)) (ah_sequence seal)).
    + left. by destruct (bool_decide_reflect (ac_head c = seal)).
    + right. destruct (bool_decide_reflect (ac_checked_seal c = Some seal)); [|done]. split; [lia|done].
  - intros H. destruct (H seal eq_refl) as [E|[Hl E]].
    + rewrite E, (proj2 (N.ltb_ge _ _)), N.eqb_refl by lia. by rewrite bool_decide_true.
    + rewrite (proj2 (N.ltb_ge _ _)) by lia. rewrite (proj2 (N.eqb_neq _ _)) by lia. by rewrite bool_decide_true.
Qed.

(** The seal the chain is known to descend from, after the event. *)
Lemma checked_anchor_after_Ok c e s o : checked_anchor_after c e s = Ok o <->
  room s = ac_room c /\
  match sealed_head s (ac_author c) with
  | None => o = None
  | Some seal =>
      if ah_sequence (ac_head c) <? ah_sequence seal then
        if ev_sequence (claims e) =? ah_sequence seal
        then record_id e = ah_event seal /\ o = Some seal else o = None
      else anchored c s /\ o = Some seal
  end.
Proof.
  unfold checked_anchor_after. destruct (bool_decide_reflect (room s = ac_room c)) as [E|E]; cbn [negb].
  2: { split; [done|]. by intros [? _]. }
  destruct (sealed_head s (ac_author c)) as [seal|]; [|naive_solver].
  destruct (_ <? _); [destruct (_ =? _); [destruct (bool_decide_reflect (record_id e = ah_event seal))|]|]; cbn [negb]; [naive_solver..|].
  rewrite res_bind_Ok. setoid_rewrite <- check_fresh_anchor_Ok. split.
  - by intros ([] & ? & [= <-]).
  - intros (_ & ? & ->). by exists tt.
Qed.

Lemma anchored_after c e s : anchored c s -> room s = ac_room c ->
  checked_anchor_after c e s = Ok (sealed_head s (ac_author c)).
Proof.
  intros Ha Hr. apply checked_anchor_after_Ok. split; [done|].
  destruct (sealed_head s (ac_author c)) as [seal|] eqn:E; [|done].
  rewrite (proj2 (N.ltb_ge _ _)); [done|]. destruct (Ha seal E) as [->|[? _]]; lia.
Qed.

Definition may_author c s : Prop :=
  fresh_admission s = Ok tt /\ room s = ac_room c /\ allows s (ac_author c) = true /\ anchored c s.

Lemma authoring_head_Ok c s h : authoring_head c s = Ok h <-> may_author c s /\ h = ac_head c.
Proof.
  unfold authoring_head, may_author. rewrite res_bind_Ok. split.
  - intros ([] & Hf & H). destruct (bool_decide_reflect (room s = ac_room c)); [|done]. cbn [negb] in H.
    destruct (allows s (ac_author c)); [|done]. cbn [negb] in H.
    apply res_bind_Ok in H as ([] & Ha%check_fresh_anchor_Ok & [= <-]). done.
  - intros [(Hf & Hr & Hal & Ha) ->]. exists tt. split; [done|]. rewrite bool_decide_true, Hal by done. cbn [negb].
    by rewrite (proj2 (check_fresh_anchor_Ok c s) Ha).
Qed.

Lemma prepare_next_Ok c e s q : sequenced e -> prepare_next sha256 c e s = Ok q <->
  may_author c s /\ ev_policy (claims e) = pp_id (head s) /\
  follows (ac_room c) (ac_author c) (ac_head c) e /\
  q = mkPreparedEvent (mkContinuity (ac_room c) (ac_author c) (ac_head c) e) (head s).
Proof.
  intros Hs. unfold prepare_next. rewrite res_bind_Ok. split.
  - intros ([] & Hf & H). destruct (bool_decide_reflect (room s = ac_room c)); [|done]. cbn [negb] in H.
    destruct (bool_decide_reflect (ev_policy (claims e) = pp_id (head s))); [|done]. cbn [negb] in H.
    apply res_bind_Ok in H as (h & [Hm ->]%authoring_head_Ok & H).
    apply res_bind_Ok in H as ([] & Hc%check_next_Ok & [= <-]); [|done]. done.
  - intros (Hm & Hp & Hfo & ->). exists tt. split; [apply Hm|]. rewrite !bool_decide_true by (done || apply Hm).
    cbn [negb]. rewrite (proj2 (authoring_head_Ok c s _) (conj Hm eq_refl)). cbn [res_bind].
    by rewrite (proj2 (check_next_Ok c e Hs) Hfo).
Qed.

Lemma prepare_continuity_Ok c e s q : sequenced e -> prepare_continuity c e s = Ok q ->
  follows (ac_room c) (ac_author c) (ac_head c) e /\ q = mkContinuity (ac_room c) (ac_author c) (ac_head c) e.
Proof.
  intros Hs. unfold prepare_continuity. intros ([] & Hc%check_next_Ok & H)%res_bind_Ok; [|done].
  apply res_bind_Ok in H as (o & _ & [= <-]). done.
Qed.

(** The preparation was made at this head of this chain. *)
Definition current (q : PreparedContinuity) c : Prop :=
  qc_room q = ac_room c /\ qc_author q = ac_author c /\ qc_base q = ac_head c.

Lemma commit_continuity_Ok q s c c' : commit_continuity q s c = (Ok tt, c') <->
  current q c /\ exists o, checked_anchor_after c (qc_event q) s = Ok o /\
  c' = mkChain (ac_room c) (ac_author c) (head_of (qc_event q)) o.
Proof.
  unfold commit_continuity, current. rewrite bind_Ok. split.
  - intros (? & ? & [= <- <-] & H). case_match eqn:E; [done|]. bool_to_prop.
    apply bind_lift_Ok in H as (o & Ho & [= <-]). split; [done|]. by exists o.
  - intros ((E1 & E2 & E3) & o & Ho & ->). exists c, c. split; [done|]. rewrite !bool_decide_true by done.
    apply bind_lift_Ok. by exists o.
Qed.

Lemma commit_continuity_rolls_back q s : rolls_back (commit_continuity q s).
Proof.
  intros c. unfold commit_continuity, bind, get. destruct (_ || _); [done|]. unfold lift.
  by destruct (checked_anchor_after c (qc_event q) s).
Qed.

Lemma commit_event_Ok q s c c' : commit_event sha256 q s c = (Ok tt, c') <->
  fresh_admission s = Ok tt /\ room s = ac_room c /\ qe_policy q = head s /\ anchored c s /\
  current (qe_step q) c /\
  c' = mkChain (ac_room c) (ac_author c) (head_of (qc_event (qe_step q))) (sealed_head s (ac_author c)).
Proof.
  unfold commit_event. rewrite bind_Ok. setoid_rewrite bind_lift_Ok. split.
  - intros (? & ? & [= <- <-] & [] & Hf & H). case_match eqn:E; [done|]. bool_to_prop.
    apply bind_lift_Ok in H as ([] & Ha%check_fresh_anchor_Ok & H).
    apply commit_continuity_Ok in H as (Hc & o & Ho & ->). rewrite anchored_after in Ho by done.
    injection Ho as <-. done.
  - intros (Hf & Hr & Hp & Ha & Hc & ->). exists c, c. split; [done|]. exists tt. split; [done|].
    rewrite !bool_decide_true by done. cbn [negb orb]. apply bind_lift_Ok. exists tt.
    split; [by apply check_fresh_anchor_Ok|]. apply commit_continuity_Ok. split; [done|].
    exists (sealed_head s (ac_author c)). split; [by apply anchored_after|done].
Qed.

Lemma commit_event_rolls_back q s : rolls_back (commit_event sha256 q s).
Proof.
  unfold commit_event. apply rolls_back_bind; [apply observes_get|]. intros c.
  apply rolls_back_bind; [apply observes_lift|]. intros _. case_match; [done|].
  apply rolls_back_bind; [apply observes_lift|]. intros _. apply commit_continuity_rolls_back.
Qed.

Lemma prepare_reconciliation_Ok c s r : prepare_anchor_reconciliation sha256 c s = Ok r ->
  exists seal, sealed_head s (ac_author c) = Some seal /\ room s = ac_room c /\
    r = mkReconciliation (ac_room c) (ac_author c) (head s) seal (ac_head c) seal.
Proof.
  unfold prepare_anchor_reconciliation. intros H. case_match eqn:E; [done|]. bool_to_prop.
  destruct (sealed_head s (ac_author c)) as [seal|]; simpl in H; [|done]. do 2 (case_match; [done|]).
  injection H as <-. by exists seal.
Qed.

Lemma reconcile_anchor_Ok r s c c' : reconcile_anchor sha256 r s c = (Ok tt, c') ->
  rc_room r = ac_room c /\ rc_author r = ac_author c /\ rc_target r = ac_head c /\
  sealed_head s (ac_author c) = Some (rc_seal r) /\ rc_progress r = rc_target r /\
  c' = set_checked_seal (Some (rc_seal r)) c.
Proof.
  unfold reconcile_anchor. intros (? & ? & [= <- <-] & H)%bind_Ok. do 3 (case_match; [done|]).
  unfold reconcile_ready in *. injection H as <-. bool_to_prop. done.
Qed.

Lemma reconcile_anchor_rolls_back r s : rolls_back (reconcile_anchor sha256 r s).
Proof.
  unfold reconcile_anchor. apply rolls_back_bind; [apply observes_get|]. intros c.
  do 3 (case_match; [done|]). apply rolls_back_modify.
Qed.
End Chain.

(** ** The world of a replica *)

Record RoomWorld : Type := mkRoomWorld {
  w_policy : PolicyState;
  w_chain : AuthorChain;
  w_updates : list PreparedPolicy;
  w_events : list PreparedEvent;
  w_steps : list PreparedContinuity;
  w_reconciliations : list AnchorReconciliation;
  w_policies : list VerifiedPolicy;
  w_retained : list VerifiedEvent;
}.

(** A commit takes its prepared value; the others stay. *)
Inductive RoomCall : Type :=
| CallObserve (update : VerifiedPolicy)
| CallObserveRetained (retained : VerifiedPolicy) (offered : SignedRecord PolicyClaims)
| CallPrepareUpdate (signed : SignedRecord PolicyClaims)
| CallPushSeal (i : nat) (author : list N) (page : list VerifiedEvent)
| CallCommitUpdate (i : nat)
| CallPrepareNext (event : VerifiedEvent)
| CallCommitEvent (i : nat)
| CallPrepareContinuity (event : VerifiedEvent)
| CallCommitContinuity (i : nat)
| CallPrepareReconciliation
| CallReconcilePush (i : nat) (page : list VerifiedEvent)
| CallReconcileAnchor (i : nat).

Definition with_policy (s : PolicyState) (w : RoomWorld) : RoomWorld :=
  mkRoomWorld s (w_chain w) (w_updates w) (w_events w) (w_steps w) (w_reconciliations w) (w_policies w) (w_retained w).
Definition with_chain (c : AuthorChain) (w : RoomWorld) : RoomWorld :=
  mkRoomWorld (w_policy w) c (w_updates w) (w_events w) (w_steps w) (w_reconciliations w) (w_policies w) (w_retained w).
Definition with_updates (l : list PreparedPolicy) (w : RoomWorld) : RoomWorld :=
  mkRoomWorld (w_policy w) (w_chain w) l (w_events w) (w_steps w) (w_reconciliations w) (w_policies w) (w_retained w).
Definition with_events (l : list PreparedEvent) (w : RoomWorld) : RoomWorld :=
  mkRoomWorld (w_policy w) (w_chain w) (w_updates w) l (w_steps w) (w_reconciliations w) (w_policies w) (w_retained w).
Definition with_steps (l : list PreparedContinuity) (w : RoomWorld) : RoomWorld :=
  mkRoomWorld (w_policy w) (w_chain w) (w_updates w) (w_events w) l (w_reconciliations w) (w_policies w) (w_retained w).
Definition with_reconciliations (l : list AnchorReconciliation) (w : RoomWorld) : RoomWorld :=
  mkRoomWorld (w_policy w) (w_chain w) (w_updates w) (w_events w) (w_steps w) l (w_policies w) (w_retained w).
Definition log_policy (p : VerifiedPolicy) (w : RoomWorld) : RoomWorld :=
  mkRoomWorld (w_policy w) (w_chain w) (w_updates w) (w_events w) (w_steps w) (w_reconciliations w)
    (w_policies w ++ [p]) (w_retained w).
Definition log_event (e : VerifiedEvent) (w : RoomWorld) : RoomWorld :=
  mkRoomWorld (w_policy w) (w_chain w) (w_updates w) (w_events w) (w_steps w) (w_reconciliations w)
    (w_policies w) (w_retained w ++ [e]).

(** The value a preparation adds, when it succeeds. *)
Definition added {A} (r : res RoomError A) : list A := match r with Ok a => [a] | _ => [] end.

Section Replicas.
Context (sha256 : list N -> list N) `{Hed : Ed25519}.

Definition room_step (w : RoomWorld) (call : RoomCall) : RoomWorld :=
  let s := w_policy w in
  let c := w_chain w in
  match call with
  | CallObserve p => with_policy (snd (observe sha256 p s)) w
  | CallObserveRetained p o => with_policy (snd (observe_retained p o s)) w
  | CallPrepareUpdate signed => with_updates (w_updates w ++ added (prepare_update sha256 s signed)) w
  | CallPushSeal i author page =>
      match w_updates w !! i with
      | None => w
      | Some q => with_updates (<[i := snd (push_seal author page q)]> (w_updates w)) w
      end
  | CallCommitUpdate i =>
      match w_updates w !! i with
      | None => w
      | Some q =>
          let w := with_updates (delete i (w_updates w)) w in
          match commit_update sha256 q s with
          | (Ok _, s') => log_policy (qp_update q) (with_policy s' w)
          | (_, s') => with_policy s' w
          end
      end
  | CallPrepareNext e => with_events (w_events w ++ added (prepare_next sha256 c e s)) w
  | CallCommitEvent i =>
      match w_events w !! i with
      | None => w
      | Some q =>
          let w := with_events (delete i (w_events w)) w in
          match commit_event sha256 q s c with
          | (Ok _, c') => log_event (qc_event (qe_step q)) (with_chain c' w)
          | (_, c') => with_chain c' w
          end
      end
  | CallPrepareContinuity e => with_steps (w_steps w ++ added (prepare_continuity c e s)) w
  | CallCommitContinuity i =>
      match w_steps w !! i with
      | None => w
      | Some q =>
          let w := with_steps (delete i (w_steps w)) w in
          match commit_continuity q s c with
          | (Ok _, c') => log_event (qc_event q) (with_chain c' w)
          | (_, c') => with_chain c' w
          end
      end
  | CallPrepareReconciliation =>
      with_reconciliations (w_reconciliations w ++ added (prepare_anchor_reconciliation sha256 c s)) w
  | CallReconcilePush i page =>
      match w_reconciliations w !! i with
      | None => w
      | Some r => with_reconciliations (<[i := snd (reconcile_push page r)]> (w_reconciliations w)) w
      end
  | CallReconcileAnchor i =>
      match w_reconciliations w !! i with
      | None => w
      | Some r => with_chain (snd (reconcile_anchor sha256 r s c)) w
      end
  end.

Definition room_run (calls : list RoomCall) (w : RoomWorld) : RoomWorld := foldl room_step w calls.

(** A replica that pinned this genesis and starts this author's chain. *)
Definition room_start (genesis : PinnedGenesis) (chain : AuthorChain) : RoomWorld :=
  mkRoomWorld (PolicyState_new genesis) chain [] [] [] [] [] [].

(** ** The invariant *)

Notation authentic_event := (authentic sha256 (typed := event_typed)).
Notation authentic_policy := (authentic sha256 (typed := policy_typed)).
Notation head := (policy_head sha256).

(** Records come from [decode] and [verify]. *)
Definition call_authentic (call : RoomCall) : Prop :=
  match call with
  | CallObserve p => authentic_policy p
  | CallObserveRetained p o => authentic_policy p /\ signed_ok sha256 (typed := policy_typed) o
  | CallPrepareUpdate o => signed_ok sha256 (typed := policy_typed) o
  | CallPushSeal _ _ page | CallReconcilePush _ page => Forall authentic_event page
  | CallPrepareNext e | CallPrepareContinuity e => authentic_event e
  | _ => True
  end.

Record chain_inv (c : AuthorChain) (retained : list VerifiedEvent) : Prop := {
  ci_chain : linked (ac_room c) (ac_author c) EMPTY retained (ac_head c);
  ci_authentic : Forall authentic_event retained;
  ci_checked : forall seal, ac_checked_seal c = Some seal ->
    exists k, Forall authentic_event k /\ linked (ac_room c) (ac_author c) seal k (ac_head c);
}.

Definition continuity_inv (q : PreparedContinuity) : Prop :=
  authentic_event (qc_event q) /\ follows (qc_room q) (qc_author q) (qc_base q) (qc_event q).

Record event_inv (s : PolicyState) (q : PreparedEvent) : Prop := {
  ei_step : continuity_inv (qe_step q);
  ei_policy : pp_revision (qe_policy q) <= pp_revision (head s);
  ei_current : qe_policy q = head s ->
    allows s (qc_author (qe_step q)) = true /\ ev_policy (claims (qc_event (qe_step q))) = pp_id (head s);
}.

Definition reconciliation_inv (r : AnchorReconciliation) : Prop :=
  exists k, Forall authentic_event k /\ linked (rc_room r) (rc_author r) (rc_seal r) k (rc_progress r).

Record world_inv (w : RoomWorld) : Prop := {
  wi_policy : policy_inv sha256 (w_policy w) (w_policies w);
  wi_chain : chain_inv (w_chain w) (w_retained w);
  wi_updates : Forall (prepared_inv sha256 (w_policy w)) (w_updates w);
  wi_events : Forall (event_inv (w_policy w)) (w_events w);
  wi_steps : Forall continuity_inv (w_steps w);
  wi_reconciliations : Forall reconciliation_inv (w_reconciliations w);
}.

Lemma event_evolves s s' q : evolves sha256 s s' -> event_inv s q -> event_inv s' q.
Proof.
  intros [Hg [Hs|Hlt]] [Hst Hp Hc].
  - pose proof (same_policy_head sha256 s s' Hs) as Hh. split; [done|by rewrite Hh|]. rewrite Hh.
    unfold allows, writers in *. by rewrite (sm_current _ _ Hs), Hg.
  - split; [done|lia|]. intros E. rewrite E in Hp. lia.
Qed.

Lemma Forall_added {A} (P : A -> Prop) l (r : res RoomError A) : Forall P l -> (forall a, r = Ok a -> P a) ->
  Forall P (l ++ added r).
Proof. intros Hl Hr. apply Forall_app. split; [done|]. destruct r; simpl; constructor; auto. Qed.

(** A change of the policy alone. *)
Lemma world_policy w s : world_inv w -> evolves sha256 (w_policy w) s -> policy_inv sha256 s (w_policies w) ->
  world_inv (with_policy s w).
Proof.
  intros [] He Hp. split; try done; simpl.
  - eapply Forall_impl; [done|]. intros q. by apply prepared_evolves.
  - eapply Forall_impl; [done|]. intros q. by apply event_evolves.
Qed.

(** A chain that grows by an event that follows its head. *)
Lemma chain_extends c retained e o : chain_inv c retained -> authentic_event e ->
  follows (ac_room c) (ac_author c) (ac_head c) e ->
  (forall seal, o = Some seal -> seal = head_of e \/ seal = ac_head c \/ ac_checked_seal c = Some seal) ->
  chain_inv (mkChain (ac_room c) (ac_author c) (head_of e) o) (retained ++ [e]).
Proof.
  intros [Hl Ha Hc] He Hf Ho. split; simpl.
  - by eapply linked_snoc.
  - apply Forall_app. split; [done|by constructor].
  - intros seal Es. destruct (Ho seal Es) as [->|[->|Ek]].
    + exists []. split; [constructor|done].
    + exists [e]. split; [by constructor|]. by split.
    + destruct (Hc seal Ek) as (k & Hk & Hkl). exists (k ++ [e]). split; [apply Forall_app; split; [done|by constructor]|].
      by eapply linked_snoc.
Qed.

Lemma anchored_source c s seal : anchored c s -> sealed_head s (ac_author c) = Some seal ->
  seal = ac_head c \/ ac_checked_seal c = Some seal.
Proof. intros Ha Hs. destruct (Ha seal Hs) as [->|[_ ?]]; auto. Qed.

Lemma commit_continuity_inv q s c retained : chain_inv c retained -> continuity_inv q ->
  match commit_continuity q s c with
  | (Ok _, c') => chain_inv c' (retained ++ [qc_event q])
  | (_, c') => c' = c
  end.
Proof.
  intros Hc [He Hf]. pose proof (commit_continuity_rolls_back q s c) as Hr.
  destruct (commit_continuity q s c) as [[[]|e|] c'] eqn:E; [|done..]. clear Hr.
  apply commit_continuity_Ok in E as ((E1 & E2 & E3) & o & Ho & ->). rewrite E1, E2, E3 in Hf.
  apply chain_extends; [done..|]. apply checked_anchor_after_Ok in Ho as [_ Ho].
  intros seal ->. destruct (sealed_head s (ac_author c)) as [seal'|] eqn:Es; [|done].
  destruct (_ <? _).
  - destruct (N.eqb_spec (ev_sequence (claims (qc_event q))) (ah_sequence seal')) as [En|]; [|done].
    destruct Ho as [Ei [= ->]]. left. destruct seal'. unfold head_of. simpl in *. by subst.
  - destruct Ho as [Ha [= ->]]. right. by eapply anchored_source.
Qed.

Lemma commit_event_inv q s c retained : chain_inv c retained -> continuity_inv (qe_step q) ->
  match commit_event sha256 q s c with
  | (Ok _, c') => chain_inv c' (retained ++ [qc_event (qe_step q)])
  | (_, c') => c' = c
  end.
Proof.
  intros Hc [He Hf]. pose proof (commit_event_rolls_back sha256 q s c) as Hr.
  destruct (commit_event sha256 q s c) as [[[]|e|] c'] eqn:E; [|done..]. clear Hr.
  apply commit_event_Ok in E as (_ & _ & _ & Ha & (E1 & E2 & E3) & ->). rewrite E1, E2, E3 in Hf.
  apply chain_extends; [done..|]. intros seal Es. right. by eapply anchored_source.
Qed.

Lemma reconcile_push_inv page r : Forall authentic_event page -> reconciliation_inv r ->
  reconciliation_inv (snd (reconcile_push page r)).
Proof.
  intros Hp (k & Hk & Hl). pose proof (reconcile_push_rolls_back page r) as Hr.
  destruct (reconcile_push page r) as [[[]|e|] r'] eqn:E; simpl; [|subst; by exists k..].
  apply reconcile_push_Ok in E as (_ & to & Hto & _ & ->).
  2: { eapply Forall_impl; [exact Hp|]. apply (authentic_sequenced sha256). }
  exists (k ++ page). split; [by apply Forall_app|]. simpl. apply linked_app. by exists (rc_progress r).
Qed.

Lemma reconcile_anchor_inv r s c retained : chain_inv c retained -> reconciliation_inv r ->
  chain_inv (snd (reconcile_anchor sha256 r s c)) retained.
Proof.
  intros Hc (k & Hk & Hl). pose proof (reconcile_anchor_rolls_back sha256 r s c) as Hr.
  destruct (reconcile_anchor sha256 r s c) as [[[]|e|] c'] eqn:E; simpl; [|by subst..].
  apply reconcile_anchor_Ok in E as (E1 & E2 & E3 & _ & E5 & ->). destruct Hc as [H1 H2 H3]. split; try done.
  simpl. intros seal [= <-]. exists k. split; [done|]. by rewrite <- E1, <- E2, <- E3, <- E5.
Qed.

Lemma prepare_next_inv s c e q : authentic_event e -> prepare_next sha256 c e s = Ok q -> event_inv s q.
Proof.
  intros He Hq. apply prepare_next_Ok in Hq as (Hm & Hp & Hf & ->); [|by eapply (authentic_sequenced sha256)].
  split; [done|done|]. intros _. split; [apply Hm|done].
Qed.

Lemma Forall_remove {A} (P : A -> Prop) i l : Forall P l -> Forall P (delete i l).
Proof. apply Forall_delete. Qed.

Lemma world_updates w l : world_inv w -> Forall (prepared_inv sha256 (w_policy w)) l -> world_inv (with_updates l w).
Proof. intros [] H. by split. Qed.
Lemma world_events w l : world_inv w -> Forall (event_inv (w_policy w)) l -> world_inv (with_events l w).
Proof. intros [] H. by split. Qed.
Lemma world_steps w l : world_inv w -> Forall continuity_inv l -> world_inv (with_steps l w).
Proof. intros [] H. by split. Qed.
Lemma world_reconciliations w l : world_inv w -> Forall reconciliation_inv l -> world_inv (with_reconciliations l w).
Proof. intros [] H. by split. Qed.
Lemma world_chain w c : world_inv w -> chain_inv c (w_retained w) -> world_inv (with_chain c w).
Proof. intros [] H. by split. Qed.
Lemma world_log w c e : world_inv w -> chain_inv c (w_retained w ++ [e]) -> world_inv (log_event e (with_chain c w)).
Proof. intros [] H. by split. Qed.

(** The effect of an update's commit on the policy and its log. *)
Lemma commit_update_world w i q : world_inv w -> w_updates w !! i = Some q ->
  world_inv (room_step w (CallCommitUpdate i)).
Proof.
  intros Hw Hi. simpl. rewrite Hi. pose proof (commit_update_rolls_back sha256 q (w_policy w)) as Hr.
  assert (Hw' : world_inv (with_updates (delete i (w_updates w)) w)).
  { apply world_updates; [done|]. apply Forall_remove, Hw. }
  destruct (commit_update sha256 q (w_policy w)) as [[c|e|] s'] eqn:E; [|by subst; destruct w..]. clear Hr.
  apply commit_update_Ok in E as (Hc & _ & ->).
  assert (Hct : committing sha256 (w_policy w) q).
  { apply commits_committing; [|done]. eapply Forall_lookup_1; [apply Hw|exact Hi]. }
  assert (He : evolves sha256 (w_policy w) (after_commit q (w_policy w))) by exact (commit_evolves sha256 _ _ Hct).
  destruct Hw' as [H1 H2 H3 H4 H5 H6]. split; try done; simpl.
  - apply (commit_inv sha256 _ q); [apply Hw|done].
  - eapply Forall_impl; [exact H3|]. intros x. by apply prepared_evolves.
  - eapply Forall_impl; [exact H4|]. intros x. by apply event_evolves.
Qed.

Lemma room_step_inv w call : call_authentic call -> world_inv w -> world_inv (room_step w call).
Proof.
  intros Hcall Hw. destruct call as [p|p o|signed|i author page|i|e|i|e|i| |i page|i]; cbn [call_authentic] in Hcall.
  - destruct (observe_inv sha256 p (w_policy w) (w_policies w)) as [H1 H2]; [apply Hw|].
    apply world_policy; [done| |done]. by apply same_policy_evolves.
  - apply world_policy; [done| |].
    + apply same_policy_evolves, observe_retained_same.
    + apply observe_retained_inv, Hw.
  - apply world_updates; [done|]. apply Forall_added; [apply Hw|]. intros q. by apply prepare_update_inv.
  - simpl. destruct (w_updates w !! i) as [q|] eqn:Ei; [|done]. apply world_updates; [done|].
    apply Forall_insert; [apply Hw|]. apply push_seal_inv; [done|]. eapply Forall_lookup_1; [apply Hw|exact Ei].
  - destruct (w_updates w !! i) as [q|] eqn:Ei; [by eapply commit_update_world|]. simpl. by rewrite Ei.
  - apply world_events; [done|]. apply Forall_added; [apply Hw|]. intros q. by apply prepare_next_inv.
  - simpl. destruct (w_events w !! i) as [q|] eqn:Ei; [|done].
    assert (Hq : event_inv (w_policy w) q) by (eapply Forall_lookup_1; [apply Hw|exact Ei]).
    assert (Hw' : world_inv (with_events (delete i (w_events w)) w)).
    { apply world_events; [done|]. apply Forall_remove, Hw. }
    pose proof (commit_event_inv q (w_policy w) (w_chain w) (w_retained w) (wi_chain _ Hw) (ei_step _ _ Hq)) as Hc.
    destruct (commit_event sha256 q (w_policy w) (w_chain w)) as [[[]|e|] c']; [by apply world_log| |]; subst; by destruct w.
  - apply world_steps; [done|]. apply Forall_added; [apply Hw|]. intros q Hq.
    apply prepare_continuity_Ok in Hq as [Hf ->]; [|by eapply (authentic_sequenced sha256)]. done.
  - simpl. destruct (w_steps w !! i) as [q|] eqn:Ei; [|done].
    assert (Hq : continuity_inv q) by (eapply Forall_lookup_1; [apply Hw|exact Ei]).
    assert (Hw' : world_inv (with_steps (delete i (w_steps w)) w)).
    { apply world_steps; [done|]. apply Forall_remove, Hw. }
    pose proof (commit_continuity_inv q (w_policy w) (w_chain w) (w_retained w) (wi_chain _ Hw) Hq) as Hc.
    destruct (commit_continuity q (w_policy w) (w_chain w)) as [[[]|e|] c']; [by apply world_log| |]; subst; by destruct w.
  - apply world_reconciliations; [done|]. apply Forall_added; [apply Hw|]. intros r Hr.
    apply prepare_reconciliation_Ok in Hr as (seal & _ & _ & ->). by exists [].
  - simpl. destruct (w_reconciliations w !! i) as [r|] eqn:Ei; [|done]. apply world_reconciliations; [done|].
    apply Forall_insert; [apply Hw|]. apply reconcile_push_inv; [done|]. eapply Forall_lookup_1; [apply Hw|exact Ei].
  - simpl. destruct (w_reconciliations w !! i) as [r|] eqn:Ei; [|done]. apply world_chain; [done|].
    apply reconcile_anchor_inv; [apply Hw|]. eapply Forall_lookup_1; [apply Hw|exact Ei].
Qed.

Lemma room_run_inv calls w : Forall call_authentic calls -> world_inv w -> world_inv (room_run calls w).
Proof.
  intros Hc. revert w. induction Hc as [|call calls H Hc IH]; intros w Hw; [done|]. apply IH. by apply room_step_inv.
Qed.

Lemma room_start_inv genesis r a c : authentic sha256 (typed := genesis_typed) (pg_genesis genesis) ->
  AuthorChain_new r a = Ok c -> world_inv (room_start genesis c).
Proof.
  intros Hg Hc. assert (c = mkChain r a EMPTY None) as ->.
  { unfold AuthorChain_new in Hc. case_match; [done|]. apply res_bind_Ok in Hc as (? & _ & [= <-]). done. }
  split; try by constructor.
Qed.
End Replicas.

(** What later calls keep of a room replica, and the calls of honest owners and
    authors ([DirectRoom]). *)

Section Flow.
Context (sha256 : list N -> list N) `{Hed : Ed25519}.
Implicit Types (s : PolicyState) (c : AuthorChain) (w : RoomWorld).

Notation authentic_event := (authentic sha256 (typed := event_typed)).
Notation authentic_policy := (authentic sha256 (typed := policy_typed)).
Notation head := (policy_head sha256).

(** ** The author of the chain *)

Definition same_author c c' : Prop := ac_room c' = ac_room c /\ ac_author c' = ac_author c.

Lemma commit_continuity_author q s c : same_author c (snd (commit_continuity q s c)).
Proof.
  pose proof (commit_continuity_rolls_back q s c) as Hr.
  destruct (commit_continuity q s c) as [[[]|e|] c'] eqn:E; simpl; [|by subst..].
  by apply commit_continuity_Ok in E as (_ & o & _ & ->).
Qed.

Lemma commit_event_author q s c : same_author c (snd (commit_event sha256 q s c)).
Proof.
  pose proof (commit_event_rolls_back sha256 q s c) as Hr.
  destruct (commit_event sha256 q s c) as [[[]|e|] c'] eqn:E; simpl; [|by subst..].
  by apply commit_event_Ok in E as (_ & _ & _ & _ & _ & ->).
Qed.

Lemma reconcile_anchor_author r s c : same_author c (snd (reconcile_anchor sha256 r s c)).
Proof.
  pose proof (reconcile_anchor_rolls_back sha256 r s c) as Hr.
  destruct (reconcile_anchor sha256 r s c) as [[[]|e|] c'] eqn:E; simpl; [|by subst..].
  by apply reconcile_anchor_Ok in E as (_ & _ & _ & _ & _ & ->).
Qed.

Lemma room_step_author w call : same_author (w_chain w) (w_chain (room_step sha256 w call)).
Proof.
  destruct call as [p|p o|signed|i author page|i|e|i|e|i| |i page|i]; simpl; try done.
  - by destruct (_ !! i).
  - destruct (_ !! i) as [q|]; [|done]. by destruct (commit_update sha256 q _) as [[]].
  - destruct (_ !! i) as [q|]; [|done]. pose proof (commit_event_author q (w_policy w) (w_chain w)) as H.
    by destruct (commit_event sha256 q _ _) as [[]].
  - destruct (_ !! i) as [q|]; [|done]. pose proof (commit_continuity_author q (w_policy w) (w_chain w)) as H.
    by destruct (commit_continuity q _ _) as [[]].
  - by destruct (_ !! i).
  - destruct (_ !! i) as [r|]; [|done]. apply reconcile_anchor_author.
Qed.

Lemma room_run_author calls w : same_author (w_chain w) (w_chain (room_run sha256 calls w)).
Proof.
  revert w. induction calls as [|call calls IH]; intros w; [done|]. simpl.
  destruct (IH (room_step sha256 w call)) as [E1 E2], (room_step_author w call) as [E3 E4].
  unfold room_run in *. simpl. split; congruence.
Qed.

(** ** What calls keep *)

(** Latches stay set, the log of policies grows, and an author's seal only moves
    along an authentic chain. *)
Record keeps w w' : Prop := {
  kp_genesis : ps_genesis (w_policy w') = ps_genesis (w_policy w);
  kp_forked : ps_forked (w_policy w) = true -> ps_forked (w_policy w') = true /\ w_policies w' = w_policies w;
  kp_overflow : ps_observation_overflow (w_policy w) = true -> ps_observation_overflow (w_policy w') = true;
  kp_policies : w_policies w `prefix_of` w_policies w';
  kp_seals : forall a h, sealed_head (w_policy w) a = Some h -> exists h' l,
    sealed_head (w_policy w') a = Some h' /\ Forall authentic_event l /\ linked (room (w_policy w)) a h l h';
}.

Lemma keeps_refl w : keeps w w.
Proof. split; try done. intros a h Hh. exists h, []. done. Qed.

Lemma keeps_trans w1 w2 w3 : keeps w1 w2 -> keeps w2 w3 -> keeps w1 w3.
Proof.
  intros [G1 F1 O1 P1 S1] [G2 F2 O2 P2 S2]. split.
  - congruence.
  - intros Hf. destruct (F1 Hf) as [H1 E1], (F2 H1) as [H2 E2]. split; [done|congruence].
  - auto.
  - by etrans.
  - intros a h Hh. destruct (S1 a h Hh) as (h2 & l1 & H2 & A1 & L1), (S2 a h2 H2) as (h3 & l2 & H3 & A2 & L2).
    exists h3, (l1 ++ l2). split; [done|]. split; [by apply Forall_app|]. apply linked_app. exists h2. split; [done|].
    unfold room in *. by rewrite <- G1.
Qed.

Lemma keeps_policy w s : same_policy (w_policy w) s ->
  (ps_forked (w_policy w) = true -> ps_forked s = true) ->
  (ps_observation_overflow (w_policy w) = true -> ps_observation_overflow s = true) ->
  keeps w (with_policy s w).
Proof.
  intros [Hg _ Hs] Hf Ho. split; try done; simpl; [auto|].
  intros a h Hh. exists h, []. unfold sealed_head in *. by rewrite Hs.
Qed.

Lemma keeps_other w w' : w_policy w' = w_policy w -> w_policies w' = w_policies w -> keeps w w'.
Proof. intros E1 E2. split; rewrite ?E1, ?E2; try done. intros a h Hh. by exists h, []. Qed.

Lemma observed_as_latches p s o s' : observed_as sha256 p s o s' ->
  (ps_forked s = true -> ps_forked s' = true) /\
  (ps_observation_overflow s = true -> ps_observation_overflow s' = true).
Proof. by intros []. Qed.

Lemma commit_keeps_seals s q committed a h : policy_inv sha256 s committed -> committing sha256 s q ->
  sealed_head s a = Some h -> exists h' l,
    sealed_head (after_commit q s) a = Some h' /\ Forall authentic_event l /\ linked (room s) a h l h'.
Proof.
  intros Hi Hc Hh. destruct (decide (a ∈ sl_author <$> po_sealed_heads (claims (qp_update q)))) as [Hin|Hn].
  - apply list_elem_of_fmap in Hin as (seal & -> & Hs).
    destruct (commit_extends sha256 s q seal Hc Hs) as [E (l & _ & Ha & _ & Hl)].
    exists (seal_head seal), l. split; [done|]. split; [done|]. unfold prior in Hl. by rewrite Hh in Hl.
  - exists h, []. by rewrite (commit_keeps sha256 s q a Hc Hn).
Qed.

Lemma room_step_keeps w call : world_inv sha256 w -> keeps w (room_step sha256 w call).
Proof.
  intros Hw. destruct call as [p|p o|signed|i author page|i|e|i|e|i| |i page|i].
  - destruct (observe_cases sha256 p (w_policy w)) as (o & _ & Ho). destruct (observed_as_latches _ _ _ _ Ho).
    simpl. apply keeps_policy; [by eapply observed_as_same|done|done].
  - simpl. apply keeps_policy; [apply observe_retained_same|..]; unfold observe_retained, bind, get;
      by destruct (compare_retained _ _ _) as [|[]|].
  - by apply keeps_other.
  - apply keeps_other; simpl; by destruct (_ !! i).
  - simpl. destruct (_ !! i) as [q|] eqn:Ei; [|apply keeps_refl].
    pose proof (commit_update_rolls_back sha256 q (w_policy w)) as Hr.
    destruct (commit_update sha256 q (w_policy w)) as [[cl|er|] s'] eqn:E; [|by subst; apply keeps_other..].
    apply commit_update_Ok in E as (Hc & _ & ->).
    assert (Hct : committing sha256 (w_policy w) q).
    { apply commits_committing; [|done]. eapply Forall_lookup_1; [apply Hw|exact Ei]. }
    split; simpl.
    + done.
    + intros Hf. by rewrite (cm_forked _ _ _ Hc) in Hf.
    + done.
    + by apply prefix_app_r.
    + intros a h Hh. by eapply commit_keeps_seals; [apply Hw|..].
  - by apply keeps_other.
  - simpl. destruct (_ !! i) as [q|]; [|apply keeps_refl]. by destruct (commit_event sha256 q _ _) as [[]]; apply keeps_other.
  - by apply keeps_other.
  - simpl. destruct (_ !! i) as [q|]; [|apply keeps_refl]. by destruct (commit_continuity q _ _) as [[]]; apply keeps_other.
  - by apply keeps_other.
  - apply keeps_other; simpl; by destruct (_ !! i).
  - apply keeps_other; simpl; by destruct (_ !! i).
Qed.

Lemma room_run_keeps calls w : Forall (call_authentic sha256) calls -> world_inv sha256 w ->
  keeps w (room_run sha256 calls w).
Proof.
  intros Hc. revert w. induction Hc as [|call calls H Hc IH]; intros w Hw; [apply keeps_refl|].
  eapply keeps_trans; [by apply room_step_keeps|]. apply IH. by apply room_step_inv.
Qed.

(** ** Pages *)

Lemma fits_seal_linked r a from l seal policy e : linked r a from l (seal_head seal) -> e ∈ l ->
  (forall x, x ∈ l -> ev_sequence (claims x) = sl_sequence seal -> ev_policy (claims x) = policy) ->
  fits_seal seal policy e.
Proof.
  intros Hl He Hp. destruct (linked_bounds _ _ _ _ _ _ Hl He) as [_ Hb]. split; [done|]. intros E. split; [|by apply Hp].
  assert (Hn : l <> []) by (intros ->; by apply elem_of_nil in He).
  destruct (linked_last _ _ _ _ _ Hl Hn) as (l' & x & -> & Ex). injection Ex as E1 E2. rewrite E2. f_equal.
  eapply linked_at; [exact Hl|done| |congruence]. apply elem_of_app. right. by left.
Qed.

(** The pages that lead a seal's proof to its target. *)
Definition seal_pages (r : RoomId) (from : AuthorHead) (seal : SealHead) (policy : PolicyId)
    (pages : list (list VerifiedEvent)) : Prop :=
  Forall page_sized pages /\ Forall sequenced (concat pages) /\
  linked r (sl_author seal) from (concat pages) (seal_head seal) /\
  (forall e, e ∈ concat pages -> ev_sequence (claims e) = sl_sequence seal -> ev_policy (claims e) = policy).

Lemma seal_push_pages r from seal policy pages x : seal_pages r from seal policy pages ->
  sp_chain x = mkChain r (sl_author seal) from None -> sp_target x = seal -> sp_policy x = policy ->
  exists x', foldl (fun x page => snd (seal_push page x)) x pages = x' /\
    sp_target x' = seal /\ seal_complete x' = true.
Proof.
  intros (Hsz & Hsq & Hl & Hp). revert from x Hsq Hl Hp. induction Hsz as [|page pages Hs Hsz IH]; intros from x Hsq Hl Hp Ec Et Ep.
  - exists x. split; [done|]. split; [done|]. cbn [concat linked] in Hl. unfold seal_complete. rewrite Ec, Et. simpl. 
    rewrite <- Hl. simpl. rewrite N.eqb_refl. by rewrite bool_decide_true.
  - cbn [concat foldl] in *. assert (Hl' := Hl). apply linked_app in Hl as (mid & H1 & H2). apply Forall_app in Hsq as [Q1 Q2].
    assert (Hpush : seal_push page x = (Ok tt, mkProof (mkChain r (sl_author seal) mid None) seal policy)).
    { apply seal_push_Ok; [done|]. split; [done|]. exists mid. rewrite Ec, Et, Ep. split; [done|]. split; [|done].
      apply Forall_forall. intros e He. eapply fits_seal_linked; [exact Hl'| |exact Hp]. apply elem_of_app. by left. }
    rewrite Hpush. cbn [snd]. apply (IH mid); [done|done| |done..]. intros e He. apply Hp. apply elem_of_app. by right.
Qed.

(** The owner pushes the pages of one author after another. *)
Definition push_pages (author : list N) (pages : list (list VerifiedEvent)) (q : PreparedPolicy) : PreparedPolicy :=
  foldl (fun q page => snd (push_seal author page q)) q pages.
Definition push_all (supply : list (list N * list (list VerifiedEvent))) (q : PreparedPolicy) : PreparedPolicy :=
  foldl (fun q '(author, pages) => push_pages author pages q) q supply.

Definition with_proofs (l : list SealProof) (q : PreparedPolicy) : PreparedPolicy :=
  mkPreparedPolicy (qp_room q) (qp_base q) (qp_update q) (qp_closed q) l.

Lemma seal_push_target page x : sp_target (snd (seal_push page x)) = sp_target x.
Proof.
  unfold seal_push, bind, lift, get, modify. destruct (page_bounds page); [|done..]. by destruct (res_fold _ _ _).
Qed.

Lemma push_pages_at author pages q before x after : qp_proofs q = before ++ x :: after ->
  proof_author x = author -> author ∉ proof_author <$> before ->
  push_pages author pages q = with_proofs (before ++ foldl (fun x page => snd (seal_push page x)) x pages :: after) q.
Proof.
  revert q x. induction pages as [|page pages IH]; intros q x Eq Ea Hn.
  - simpl. rewrite <- Eq. by destruct q.
  - assert (E : snd (push_seal author page q) = with_proofs (before ++ snd (seal_push page x) :: after) q).
    { unfold push_seal, bind, get, modify, lift. rewrite Eq.
      assert (Hf : list_find (fun p => sl_author (sp_target p) = author) (before ++ x :: after) = Some (length before, x)).
      { apply list_find_Some. split; [by rewrite list_lookup_middle|]. split; [done|]. intros j y Hj Hlt Ey.
        rewrite lookup_app_l in Hj by done. apply Hn. apply list_elem_of_fmap. exists y. split; [done|].
        by eapply list_elem_of_lookup_2. }
      rewrite Hf. destruct (seal_push page x) as [r x'] eqn:Ex. simpl. unfold with_proofs.
      rewrite Eq, insert_app_r_alt by lia. by rewrite Nat.sub_diag. }
    change (push_pages author (page :: pages) q) with (push_pages author pages (snd (push_seal author page q))).
    rewrite E, (IH _ (snd (seal_push page x))); [done|done| |done].
    unfold proof_author. by rewrite seal_push_target.
Qed.

(** Supplies for all seals of a prepared update complete it. *)
Lemma push_all_ready s p q before seals supply :
  NoDup ((proof_author <$> before) ++ (sl_author <$> seals)) ->
  qp_proofs q = before ++ (proof_for sha256 s <$> seals) -> forallb seal_complete before = true ->
  Forall2 (fun seal '(author, pages) => author = sl_author seal /\
    seal_pages (room s) (prior s (sl_author seal)) seal (pp_id (head s)) pages) seals supply ->
  qp_room q = room s -> qp_base q = head s -> qp_update q = p ->
  exists proofs, push_all supply q = with_proofs proofs q /\ forallb seal_complete proofs = true.
Proof.
  intros Hn Eq Hb Hs E1 E2 E3. revert before q Hn Eq Hb E1 E2 E3.
  induction Hs as [|seal [author pages] seals supply [-> Hp] Hs IH]; intros before q Hn Eq Hb E1 E2 E3.
  - exists before. rewrite app_nil_r in Eq. split; [|done]. rewrite <- Eq. by destruct q.
  - destruct (seal_push_pages _ _ _ _ _ (proof_for sha256 s seal) Hp eq_refl eq_refl eq_refl) as (x' & Ex & Et & Hx).
    assert (Epush : push_pages (sl_author seal) pages q = with_proofs (before ++ x' :: (proof_for sha256 s <$> seals)) q).
    { rewrite <- Ex. apply push_pages_at; [done|done|]. rewrite fmap_cons in Hn. apply NoDup_app in Hn as (_ & Hn & _).
      intros Hin. apply (Hn _ Hin). by left. }
    destruct (IH (before ++ [x']) (push_pages (sl_author seal) pages q)) as (proofs & Ep & Hc).
    + rewrite fmap_app, <- app_assoc. simpl. unfold proof_author at 2. rewrite Et. done.
    + rewrite Epush. simpl. by rewrite <- app_assoc.
    + rewrite forallb_app, Hb. simpl. by rewrite Hx.
    + by rewrite Epush.
    + by rewrite Epush.
    + by rewrite Epush.
    + exists proofs. split; [|done]. change (push_all ((sl_author seal, pages) :: supply) q)
        with (push_all supply (push_pages (sl_author seal) pages q)). rewrite Ep, Epush. done.
Qed.

(** The pages that lead a reconciliation to the head. *)
Definition anchor_pages (r : RoomId) (author : list N) (from to : AuthorHead) (pages : list (list VerifiedEvent)) : Prop :=
  Forall page_sized pages /\ Forall sequenced (concat pages) /\ linked r author from (concat pages) to.

Lemma fits_target_linked r a from l to e : linked r a from l to -> e ∈ l -> fits_target to e.
Proof.
  intros Hl He. destruct (linked_bounds _ _ _ _ _ _ Hl He) as [_ Hb]. split; [done|]. intros E.
  assert (Hn : l <> []) by (intros ->; by apply elem_of_nil in He).
  destruct (linked_last _ _ _ _ _ Hl Hn) as (l' & x & -> & ->). simpl in E. f_equal.
  eapply linked_at; [exact Hl|done| |done]. apply elem_of_app. right. by left.
Qed.

Lemma reconcile_pages r a pages x to : anchor_pages r a (rc_progress x) to pages -> rc_room x = r -> rc_author x = a ->
  rc_target x = to ->
  foldl (fun x page => snd (reconcile_push page x)) x pages =
    mkReconciliation r a (rc_policy x) (rc_seal x) to to.
Proof.
  intros (Hsz & Hsq & Hl) Er Ea Et. revert x Hsq Hl Er Ea Et. induction Hsz as [|page pages Hs Hsz IH]; intros x Hsq Hl Er Ea Et.
  - simpl in *. destruct x. simpl in *. by subst.
  - cbn [concat foldl] in *. assert (Hl' := Hl). apply linked_app in Hl as (mid & H1 & H2). apply Forall_app in Hsq as [Q1 Q2].
    assert (Hpush : reconcile_push page x = (Ok tt, mkReconciliation r a (rc_policy x) (rc_seal x) to mid)).
    { apply reconcile_push_Ok; [done|]. split; [done|]. exists mid. rewrite Er, Ea, Et. split; [done|]. split; [|done].
      apply Forall_forall. intros e He. eapply fits_target_linked; [exact Hl'|]. apply elem_of_app. by left. }
    rewrite Hpush. cbn [snd]. by rewrite (IH (mkReconciliation r a (rc_policy x) (rc_seal x) to mid)).
Qed.
End Flow.
