(* ===== verification/DirectFixture.v ===== *)
(** A concrete direct room, to evaluate its operations: the owner seals the
    author's first event with a first update, after which the author prepares
    a second event. *)
From Stdlib Require Import Ascii String.
From stdpp Require Import gmap sorting.
From S2P Require Import Prelude Bytes Signed OrderedMap Invitation.
From S2P Require Import DirectCodec DirectFacts DirectState DirectChain DirectProof DirectCommit.
From S2P Require Import DirectRoom.

#[local] Existing Instance toy_ed25519.

Section Toy.
Context {C : Type} `{RecordKind C}.

Definition toy_signed_record (c : C) (seed : list N) : SignedRecord C :=
  let u := mkUnsigned c (poly_hash (record_preimage c)) in
  mkSignedRecord u (sign_bytes seed (signing_bytes u)).
Definition toy_verified (c : C) (seed : list N) : VerifiedRecord C := mkVerifiedRecord (toy_signed_record c seed).

(** The frame decodes to the record and verifies. *)
Definition toy_genuine (c : C) (seed : list N) : bool :=
  let s := toy_signed_record c seed in
  let bytes := encode_signed_record s in
  bool_decide (Forall byte bytes) &&
  match decode_signed_record poly_hash bytes with
  | Ok s' => match verify_record s' with Ok _ => true | _ => false end
  | _ => false
  end.

Lemma toy_signed_ok {typed : C -> Prop} {Hl : RecordLaws C typed} c seed : toy_genuine c seed = true ->
  decode_signed_record poly_hash (encode_signed_record (toy_signed_record c seed)) = Ok (toy_signed_record c seed) ->
  signed_ok poly_hash (typed := typed) (toy_signed_record c seed).
Proof.
  unfold toy_genuine. intros Hg E. apply andb_true_iff in Hg as [Hb _]. apply bool_decide_eq_true_1 in Hb.
  by apply (decode_signed_record_iff poly_hash) in E as [Hs _].
Qed.

Lemma toy_authentic {typed : C -> Prop} {Hl : RecordLaws C typed} c seed : toy_genuine c seed = true ->
  decode_signed_record poly_hash (encode_signed_record (toy_signed_record c seed)) = Ok (toy_signed_record c seed) ->
  authentic poly_hash (typed := typed) (toy_verified c seed).
Proof.
  intros Hg E. split; [by apply toy_signed_ok|]. unfold toy_genuine in Hg. rewrite E in Hg.
  apply andb_true_iff in Hg as [_ Hg]. unfold toy_verified. simpl vr_signed.
  destruct (verify_record (toy_signed_record c seed)) as [v| |] eqn:Ev; [|done..]. by apply verify_record_Ok in Ev as [? _].
Qed.
End Toy.

Definition toy_owner_seed : list N := [1].
Definition toy_author_seed : list N := [2].
Definition toy_owner : list N := verifying_key toy_owner_seed.
Definition toy_room_author : list N := verifying_key toy_author_seed.
Definition toy_text : Text := mkText [104; 105; 10].

Definition toy_genesis : VerifiedGenesis :=
  toy_verified (mkGenesis toy_owner (replicate 32 7) [toy_owner; toy_room_author]) toy_owner_seed.
Definition toy_room : RoomId := record_id toy_genesis.
Definition toy_first : VerifiedEvent :=
  toy_verified (mkEvent toy_room (initial_policy poly_hash toy_room) toy_room_author 1 ZERO 1000 toy_text) toy_author_seed.
Definition toy_update : SignedRecord PolicyClaims :=
  toy_signed_record (mkPolicy toy_room toy_owner 1 (initial_policy poly_hash toy_room) [toy_owner; toy_room_author]
    [mkSeal toy_room_author 1 (record_id toy_first)]) toy_owner_seed.
Definition toy_second : VerifiedEvent :=
  toy_verified (mkEvent toy_room (un_id (sr_unsigned toy_update)) toy_room_author 2 (record_id toy_first) 2000 toy_text)
    toy_author_seed.

Definition toy_start : RoomWorld := room_start (mkPinned toy_genesis) (mkChain toy_room toy_room_author EMPTY None).
Definition toy_calls : list RoomCall :=
  [CallPrepareNext toy_first; CallCommitEvent 0; CallPrepareUpdate toy_update;
   CallPushSeal 0 toy_room_author [toy_first]; CallCommitUpdate 0; CallPrepareNext toy_second].
Definition toy_world : RoomWorld := room_run poly_hash toy_calls toy_start.

Lemma toy_world_heads :
  policy_head poly_hash (w_policy toy_world) = mkPosition 1 (un_id (sr_unsigned toy_update)) /\
  w_retained toy_world = [toy_first] /\ length (w_events toy_world) = 1%nat /\
  sealed_head (w_policy toy_world) toy_room_author = Some (head_of toy_first).
Proof. vm_compute. done. Qed.

Lemma toy_genesis_authentic : authentic poly_hash (typed := genesis_typed) toy_genesis.
Proof. by apply toy_authentic; vm_compute. Qed.
Lemma toy_first_authentic : authentic poly_hash (typed := event_typed) toy_first.
Proof. by apply toy_authentic; vm_compute. Qed.
Lemma toy_second_authentic : authentic poly_hash (typed := event_typed) toy_second.
Proof. by apply toy_authentic; vm_compute. Qed.
Lemma toy_update_ok : signed_ok poly_hash (typed := policy_typed) toy_update.
Proof. by apply toy_signed_ok; vm_compute. Qed.

Lemma toy_calls_authentic : Forall (call_authentic poly_hash) toy_calls.
Proof.
  apply Forall_cons_2; [exact toy_first_authentic|]. apply Forall_cons_2; [exact I|].
  apply Forall_cons_2; [exact toy_update_ok|].
  apply Forall_cons_2; [exact (Forall_cons_2 _ _ [] toy_first_authentic (Forall_nil_2 _))|].
  apply Forall_cons_2; [exact I|]. apply Forall_cons_2; [exact toy_second_authentic|]. apply Forall_nil_2.
Qed.

(** The boundary the commit of the update returned. *)
Definition toy_closed : ClosedPolicy :=
  mkClosed toy_room (initial_policy poly_hash toy_room) (un_id (sr_unsigned toy_update)) [toy_owner; toy_room_author]
    [mkSeal toy_room_author 1 (record_id toy_first)].
Definition toy_pending : PreparedEvent :=
  mkPreparedEvent (mkContinuity toy_room toy_room_author (head_of toy_first) toy_second)
    (mkPosition 1 (un_id (sr_unsigned toy_update))).
Lemma toy_pending_event : w_events toy_world !! 0%nat = Some toy_pending.
Proof. vm_compute. done. Qed.

(** The replica before the update is committed, what the commit leaves, and the
    chain after the second event. *)
Definition toy_before : RoomWorld := room_run poly_hash (take 4 toy_calls) toy_start.
Definition toy_prepared : PreparedPolicy :=
  match w_updates toy_before !! 0%nat with Some q => q | None => mkPreparedPolicy [] (mkPosition 0 []) (mkVerifiedRecord toy_update) toy_closed [] end.
Definition toy_after : PolicyState := snd (commit_update poly_hash toy_prepared (w_policy toy_before)).
Definition toy_chain_after : AuthorChain := snd (commit_event poly_hash toy_pending (w_policy toy_world) (w_chain toy_world)).

Lemma toy_prepared_at : w_updates toy_before !! 0%nat = Some toy_prepared.
Proof. vm_compute. reflexivity. Qed.
Lemma toy_commit : commit_update poly_hash toy_prepared (w_policy toy_before) = (Ok toy_closed, toy_after).
Proof. vm_compute. reflexivity. Qed.
Lemma toy_commit_second : commit_event poly_hash toy_pending (w_policy toy_world) (w_chain toy_world) = (Ok tt, toy_chain_after).
Proof. vm_compute. reflexivity. Qed.
Lemma toy_may_author : authoring_head (w_chain toy_world) (w_policy toy_world) = Ok (head_of toy_first).
Proof. vm_compute. reflexivity. Qed.
Lemma toy_second_follows : follows toy_room toy_room_author (ac_head (w_chain toy_world)) toy_second.
Proof. vm_compute. split_and!; reflexivity. Qed.
Lemma toy_second_policy : ev_policy (claims toy_second) = pp_id (policy_head poly_hash (w_policy toy_world)).
Proof. vm_compute. reflexivity. Qed.

(** The verifier for the first event under the closed policy. *)
Definition toy_history_verifier : DirectChain.SealedHistoryVerifier :=
  DirectChain.mkVerifier toy_room (initial_policy poly_hash toy_room) (un_id (sr_unsigned toy_update))
    (mkSeal toy_room_author 1 (record_id toy_first)) toy_first EMPTY false None.
Definition toy_pages : list (list VerifiedEvent) := [[toy_second]; []; [toy_first]].
Lemma toy_requirement : DirectChain.history_requirement toy_closed toy_first = Ok (DirectChain.Verify toy_history_verifier).
Proof. vm_compute. reflexivity. Qed.
Lemma toy_accepted : accepted_events toy_pages toy_history_verifier = [toy_first].
Proof. vm_compute. reflexivity. Qed.
Lemma toy_sealed : sealed_history toy_room (initial_policy poly_hash toy_room)
  (mkSeal toy_room_author 1 (record_id toy_first)) toy_first [toy_first].
Proof.
  split.
  - vm_compute. tauto.
  - exists toy_first. split; [by apply list_elem_of_singleton|]. split; vm_compute; reflexivity.
  - exists toy_first. split; [by apply list_elem_of_singleton|]. split; reflexivity.
Qed.
Lemma toy_pages_sequenced : Forall (Forall sequenced) toy_pages.
Proof.
  pose proof (authentic_sequenced poly_hash _ toy_first_authentic) as H1.
  pose proof (authentic_sequenced poly_hash _ toy_second_authentic) as H2.
  apply Forall_cons_2; [exact (Forall_cons_2 _ _ [] H2 (Forall_nil_2 _))|]. apply Forall_cons_2; [exact (Forall_nil_2 _)|].
  apply Forall_cons_2; [exact (Forall_cons_2 _ _ [] H1 (Forall_nil_2 _))|]. apply Forall_nil_2.
Qed.
