(* ===== verification/DirectClaims.v ===== *)
(** Properties of direct rooms ([DirectCodec], [DirectState],
    [DirectChain]). *)
From Stdlib Require Import Ascii String.
From stdpp Require Import gmap sorting.
From S2P Require Import Prelude Bytes PrefixFree Wire Signed OrderedMap Invitation.
From S2P Require Import DirectCodec DirectFacts DirectState DirectChain DirectProof.
From S2P Require Import DirectCommit DirectRoom DirectFixture.

(** ** Records *)

Section RecordExact.
Context (sha256 : list N -> list N) `{Hed : Ed25519} {C : Type} `{Hk : RecordKind C} {typed : C -> Prop}
  {Hlaws : RecordLaws C typed}.

(** A kind of record whose check accepts the claims [ok]. *)
Definition record_exact (ok : C -> Prop) : Prop :=
  (forall bytes s, Forall byte bytes ->
     decode_signed_record sha256 bytes = Ok s <->
     (typed (un_claims (sr_unsigned s)) /\ ok (un_claims (sr_unsigned s)) /\
      un_id (sr_unsigned s) = sha256 (record_preimage (un_claims (sr_unsigned s))) /\
      sig_wire (sr_signature s)) /\
     bytes = encode_signed_record s) /\
  (forall bytes, Forall byte bytes -> decode_signed_record sha256 bytes <> Panic) /\
  (forall c, typed c -> len (encode_record c) + 64 <= rk_max) /\
  (forall s v, verify_record s = Ok v <->
     v = mkVerifiedRecord s /\ strong_key (rk_signer (un_claims (sr_unsigned s))) /\
     verify_strict (rk_signer (un_claims (sr_unsigned s))) (signing_bytes (sr_unsigned s)) (sr_signature s) = true) /\
  (forall c seed, typed c -> ok c -> rk_signer c = verifying_key seed ->
     exists u s v, unsigned_new sha256 c = Ok u /\ sign_record u seed = Ok s /\
       decode_signed_record sha256 (encode_signed_record s) = Ok s /\ verify_record s = Ok v /\ claims v = c) /\
  (forall c1 c2, typed c1 -> typed c2 -> record_preimage c1 = record_preimage c2 -> c1 = c2).

Lemma record_exact_intro {Hed_laws : Ed25519Laws Hed} (ok : C -> Prop) :
  (forall c, rk_check Hed c = Ok tt <-> ok c) -> (forall c, ok c -> strong_key (rk_signer c)) -> record_exact ok.
Proof.
  intros Hok Hstrong. unfold record_exact. split_and!.
  - intros bytes s Hb. rewrite (decode_signed_record_iff sha256) by done. unfold signed_ok. split.
    + intros [[[Ht Hc Hi] Hs] ->]. rewrite <- Hok. done.
    + intros [(Ht & Hc%Hok & Hi & Hs) ->]. done.
  - apply (decode_signed_record_total sha256).
  - apply (rl_fits (typed := typed)).
  - intros s v. rewrite verify_record_Ok, check_signature_Ok. tauto.
  - intros c seed Ht Hc E. set (u := mkUnsigned c (sha256 (record_preimage c))).
    assert (Hu : unsigned_ok sha256 (typed := typed) u) by (split; [done|by apply Hok|done]).
    destruct (sign_record_Ok sha256 (typed := typed) u seed Hu) as (s & v & Hs & Eu & Hv & Ha).
    { rewrite <- E. by apply Hstrong. } { done. }
    exists u, s, v. apply verify_record_Ok in Hv as Hv'. destruct Hv' as [_ ->]. destruct Ha as [Ha _]. simpl in Ha.
    split_and!; [|done| |done|].
    + apply unsigned_new_Ok. split; [by apply Hok|done].
    + apply (decode_signed_record_iff sha256 (typed := typed)); [|done]. destruct Ha as [Hau [Hb _]].
      apply Forall_app. split; [|done]. apply (codec_bytes (g := rk_get)). apply Hau.
    + unfold claims. simpl. by rewrite Eu.
  - intros c1 c2. apply (record_preimage_inj (typed := typed)).
Qed.
End RecordExact.

(** Bytes that start with different domains. *)
Lemma domains_differ (n : nat) (d1 d2 x y : list N) : (n <= length d1)%nat -> (n <= length d2)%nat -> take n d1 <> take n d2 ->
  d1 ++ x <> d2 ++ y.
Proof. intros H1 H2 Hd E. apply Hd. by rewrite <- (take_app_le d1 x), E, take_app_le. Qed.

(** C34. The three records of a direct room: [decode] accepts exactly the
    canonical frames of typed claims that pass the check, within the bound and
    without panics; [verify] accepts exactly strict signatures of the strong
    claimed signer; a signer that holds the claimed key makes frames that decode
    and verify; the hashed bytes determine the claims, and no two kinds, nor
    policy zero, hash the same bytes. *)
Theorem direct_record_exact (sha256 : list N -> list N) `{Hed : Ed25519} {Hed_laws : Ed25519Laws Hed} :
  record_exact sha256 (typed := genesis_typed) genesis_ok /\
  record_exact sha256 (typed := policy_typed) policy_ok /\
  record_exact sha256 (typed := event_typed) event_ok /\
  (forall (g : GenesisClaims) (p : PolicyClaims) (e : EventClaims) room,
     record_preimage g <> record_preimage p /\ record_preimage g <> record_preimage e /\
     record_preimage p <> record_preimage e /\ POLICY_ROOT_DOMAIN ++ room <> record_preimage g /\
     POLICY_ROOT_DOMAIN ++ room <> record_preimage p /\ POLICY_ROOT_DOMAIN ++ room <> record_preimage e).
Proof.
  split_and!.
  - apply (record_exact_intro sha256 (typed := genesis_typed)); [apply genesis_check_Ok|]. intros c [_ Hw]. apply Hw.
  - apply (record_exact_intro sha256 (typed := policy_typed)); [apply policy_check_Ok|]. intros c Hc. apply (pk_writers _ Hc).
  - apply (record_exact_intro sha256 (typed := event_typed)); [apply event_check_Ok|]. intros c Hc. apply (ek_author _ Hc).
  - intros. split_and!; by apply (domains_differ 26); [simpl; lia..|].
Qed.

Lemma direct_record_exact_witness :
  decode_signed_record poly_hash (Hed := toy_ed25519) (encode_signed_record toy_update) = Ok toy_update.
Proof.
  destruct (direct_record_exact poly_hash (Hed := toy_ed25519) (Hed_laws := toy_laws)) as (_ & [Hd _] & _).
  apply Hd; [|split; [exact (policy_signed_ok poly_hash _ toy_update_ok)|reflexivity]].
  apply (bool_decide_unpack _). vm_compute. exact I.
Defined.

(** ** Replicas *)

Section Replica.
Context (sha256 : list N -> list N) `{Hed : Ed25519} {Hsha : Sha256 sha256}.

Notation authentic_genesis := (authentic sha256 (typed := genesis_typed)).
Notation authentic_event := (authentic sha256 (typed := event_typed)).
Notation authentic_policy := (authentic sha256 (typed := policy_typed)).
Notation head := (policy_head sha256).

(** A replica after any calls with records from [verify]. *)
Record reached (genesis : PinnedGenesis) (room : RoomId) (author : list N) (calls : list RoomCall) (w : RoomWorld) : Prop := {
  re_genesis : authentic_genesis (pg_genesis genesis);
  re_start : AuthorChain_new room author = Ok (mkChain room author EMPTY None);
  re_calls : Forall (call_authentic sha256) calls;
  re_run : w = room_run sha256 calls (room_start genesis (mkChain room author EMPTY None));
}.

Lemma reached_inv genesis room author calls w : reached genesis room author calls w -> world_inv sha256 w.
Proof. intros [Hg Hs Hc ->]. apply room_run_inv; [done|]. by eapply room_start_inv. Qed.

Lemma reached_author genesis room author calls w : reached genesis room author calls w ->
  ac_room (w_chain w) = room /\ ac_author (w_chain w) = author.
Proof.
  intros [_ _ _ ->]. apply (room_run_author sha256 calls (room_start genesis (mkChain room author EMPTY None))).
Qed.

Lemma policy_writers s committed : policy_inv sha256 s committed -> writers_ok (writers s) (owner s).
Proof.
  intros Hi. unfold writers. rewrite (pi_current _ _ _ Hi).
  destruct committed as [|p committed _] using rev_ind.
  - simpl. pose proof (pi_genesis _ _ _ Hi) as [[[_ Hc _] _] _].
    apply (gk_writers _ (proj1 (genesis_check_Ok _) Hc)).
  - rewrite last_snoc. pose proof (pi_authentic _ _ _ Hi) as [_ [Hp _]%Forall_cons]%Forall_app.
    assert (Ho : po_owner (claims p) = owner s).
    { pose proof (pi_chain _ _ _ Hi) as Hc. generalize dependent (genesis_position sha256 s).
      clear. induction committed as [|x l IH]; intros from; simpl; [by intros [(_ & -> & _) _]|]. intros [_ H]. by eapply IH. }
    rewrite <- Ho. apply (pk_writers _ (authentic_policy_ok _ _ Hp)).
Qed.

Lemma linked_wire r a l to : Forall authentic_event l -> linked r a EMPTY l to ->
  u 64 (ah_sequence to) /\ hash_wire (ah_event to).
Proof.
  intros Ha Hl. destruct l as [|e l _] using rev_ind.
  - simpl in Hl. subst. split; [done|]. split; [by apply Forall_replicate|apply length_replicate].
  - apply linked_app in Hl as (mid & _ & _ & ->). apply Forall_app in Ha as [_ [He _]%Forall_cons]. split.
    + by apply (authentic_sequenced sha256).
    + simpl. rewrite (authentic_id _ _ He). apply sha256_wire.
Qed.

Lemma head_wire s committed : policy_inv sha256 s committed -> u 64 (pp_revision (head s)) /\ hash_wire (pp_id (head s)).
Proof.
  intros Hi. unfold policy_head. rewrite (pi_current _ _ _ Hi). destruct (last committed) as [p|] eqn:E.
  - apply last_Some_elem_of in E. pose proof (proj1 (Forall_forall _ _) (pi_authentic _ _ _ Hi) p E) as [[[Ht _ Hid] _] _].
    split; [by destruct Ht as (_ & _ & ? & _)|]. simpl. unfold record_id. rewrite Hid. apply sha256_wire.
  - split; [done|exact (sha256_wire (sha256 := sha256) _)].
Qed.
End Replica.

Lemma toy_chain_new : AuthorChain_new (Hed := toy_ed25519) toy_room toy_room_author = Ok (mkChain toy_room toy_room_author EMPTY None).
Proof. vm_compute. reflexivity. Qed.

Lemma toy_reached : reached poly_hash (Hed := toy_ed25519) (mkPinned toy_genesis) toy_room toy_room_author toy_calls toy_world.
Proof. split; [exact toy_genesis_authentic|exact toy_chain_new|exact toy_calls_authentic|reflexivity]. Qed.

(** C35. The state of a replica is well formed after any calls: the writers are
    a sorted set of strong keys with the owner, the retained seals and the
    unresolved observations keep their bounds, only later revisions are
    unresolved, positions and heads have their widths, and sequence and
    revision count what was committed. *)
Theorem direct_room_typed (sha256 : list N -> list N) `{Hed : Ed25519} {Hsha : Sha256 sha256}
    genesis r author calls w (H : reached sha256 genesis r author calls w) :
  let s := w_policy w in
  let c := w_chain w in
  writers_ok (writers s) (owner s) /\
  N.of_nat (size (ps_sealed s)) <= MAX_SEALED_AUTHORS /\
  N.of_nat (size (ps_observed s)) <= MAX_OBSERVED_POLICIES /\
  (forall revision id, ps_observed s !! revision = Some id -> pp_revision (policy_head sha256 s) < revision) /\
  u 64 (pp_revision (policy_head sha256 s)) /\ hash_wire (pp_id (policy_head sha256 s)) /\
  (forall a h, sealed_head s a = Some h -> 1 <= ah_sequence h /\ u 64 (ah_sequence h) /\ hash_wire (ah_event h)) /\
  u 64 (ah_sequence (ac_head c)) /\ hash_wire (ah_event (ac_head c)) /\
  pp_revision (policy_head sha256 s) = len (w_policies w) /\ ah_sequence (ac_head c) = len (w_retained w) /\
  ac_room c = r /\ ac_author c = author.
Proof.
  pose proof (reached_inv sha256 _ _ _ _ _ H) as [Hp Hc _ _ _ _]. destruct (reached_author sha256 _ _ _ _ _ H) as [Er Ea].
  destruct (head_wire sha256 _ _ Hp) as [Hu Hw]. destruct Hc as [Hl Hal _].
  destruct (linked_wire sha256 _ _ _ _ Hal Hl) as [Hlu Hlw].
  pose proof (linked_length _ _ _ _ _ Hl) as Hlen. pose proof (policies_linked_revision _ _ _ _ _ (pi_chain _ _ _ Hp)) as Hrev.
  simpl in Hlen, Hrev. split_and!; try done; try apply Hp.
  - by eapply policy_writers.
  - intros a h Hh. destruct (pi_sealed _ _ _ Hp a h Hh) as (l & Hla & Hn & Hll).
    destruct (linked_wire sha256 _ _ _ _ Hla Hll). split; [|done]. apply linked_length in Hll. destruct l; [done|].
    unfold len in Hll. simpl in Hll. lia.
Qed.

Lemma direct_room_typed_witness :
  owner (w_policy toy_world) ∈ writers (w_policy toy_world) /\
  ah_sequence (ac_head (w_chain toy_world)) = len (w_retained toy_world) /\
  w_retained toy_world = [toy_first].
Proof.
  destruct (direct_room_typed poly_hash (Hed := toy_ed25519) _ _ _ _ _ toy_reached)
    as ([_ _ _ _ Hm] & _ & _ & _ & _ & _ & _ & _ & _ & _ & Hl & _).
  split; [exact Hm|]. split; [exact Hl|]. exact (proj1 (proj2 toy_world_heads)).
Defined.

(** C22. The policies of a replica are one chain of authentic updates of the
    pinned owner from policy zero, the last one being current; every seal ends
    an authentic chain of its author from sequence one.  Later calls only add
    policies, move seals along the author's chain, and never lift a fork, after
    which no policy is added, nor an overflow. *)
Theorem owner_policies_chain (sha256 : list N -> list N) `{Hed : Ed25519} {Hsha : Sha256 sha256}
    genesis r author calls w (H : reached sha256 genesis r author calls w) :
  let s := w_policy w in
  policies_linked (room s) (owner s) (mkPosition 0 (initial_policy sha256 (room s))) (w_policies w)
    (policy_head sha256 s) /\
  Forall (authentic sha256 (typed := policy_typed)) (w_policies w) /\ ps_current s = last (w_policies w) /\
  (forall a h, sealed_head s a = Some h -> exists l, l <> [] /\
     Forall (authentic sha256 (typed := event_typed)) l /\ linked (room s) a EMPTY l h) /\
  forall later, Forall (call_authentic sha256) later ->
    let w' := room_run sha256 later w in
    w_policies w `prefix_of` w_policies w' /\
    (forall a h, sealed_head s a = Some h -> exists h' l, sealed_head (w_policy w') a = Some h' /\
       Forall (authentic sha256 (typed := event_typed)) l /\ linked (room s) a h l h') /\
    (ps_forked s = true -> ps_forked (w_policy w') = true /\ w_policies w' = w_policies w) /\
    (ps_observation_overflow s = true -> ps_observation_overflow (w_policy w') = true).
Proof.
  pose proof (reached_inv sha256 _ _ _ _ _ H) as Hw. pose proof (wi_policy _ _ Hw) as Hp. split_and!; try apply Hp.
  - intros a h Hh. destruct (pi_sealed _ _ _ Hp a h Hh) as (l & ? & ? & ?). by exists l.
  - intros later Hl. destruct (room_run_keeps sha256 later w Hl Hw) as [_ Hf Ho Hpr Hs]. done.
Qed.

Lemma owner_policies_chain_witness :
  (exists l, l <> [] /\ linked (room (w_policy toy_world)) toy_room_author EMPTY l (head_of toy_first)) /\
  ps_current (w_policy toy_world) = last (w_policies toy_world) /\
  policy_head poly_hash (w_policy toy_world) = mkPosition 1 (un_id (sr_unsigned toy_update)).
Proof.
  destruct (owner_policies_chain poly_hash (Hed := toy_ed25519) _ _ _ _ _ toy_reached) as (_ & _ & Hc & Hs & _).
  destruct toy_world_heads as (Eh & _ & _ & Es).
  destruct (Hs toy_room_author (head_of toy_first) Es) as (l & Hn & _ & Hl).
  split; [exists l; split; [exact Hn|exact Hl]|]. split; [exact Hc|exact Eh].
Defined.

(** C33. Owner updates, exactly: [prepare_update] accepts an update of the owner
    that verifies, follows the head, contradicts no observation and whose seals
    are of current writers, advance their authors and fit; [commit] accepts a
    prepared update when its base is still the head and every seal is reached.
    It then makes the update current, moves exactly the named seals along
    authentic chains that end under the closed policy, and returns that
    policy's boundary; a refusal changes nothing. *)
Theorem owner_update_exact (sha256 : list N -> list N) `{Hed : Ed25519} {Hsha : Sha256 sha256}
    genesis r author calls w (H : reached sha256 genesis r author calls w) :
  let s := w_policy w in
  (forall signed q, signed_ok sha256 (typed := policy_typed) signed ->
     prepare_update sha256 s signed = Ok q <->
     exists p, verify_record signed = Ok p /\ ps_forked s = false /\ conflicts s p = false /\
       succeeds sha256 s p /\ admits_seals s p /\ q = prepared_for sha256 s p) /\
  (forall i q, w_updates w !! i = Some q ->
     (exists c s', commit_update sha256 q s = (Ok c, s')) <-> commits sha256 q s) /\
  (forall i q c s', w_updates w !! i = Some q -> commit_update sha256 q s = (Ok c, s') ->
     let p := qp_update q in
     authentic sha256 (typed := policy_typed) p /\ succeeds sha256 s p /\
     policy_head sha256 s' = mkPosition (po_revision (claims p)) (record_id p) /\ writers s' = po_writers (claims p) /\
     ps_observed s' = delete (po_revision (claims p)) (ps_observed s) /\
     c = mkClosed (room s) (pp_id (policy_head sha256 s)) (record_id p) (writers s) (po_sealed_heads (claims p)) /\
     (forall seal, seal ∈ po_sealed_heads (claims p) ->
        seal_extends sha256 s s' seal (pp_id (policy_head sha256 s))) /\
     (forall a, a ∉ sl_author <$> po_sealed_heads (claims p) -> sealed_head s' a = sealed_head s a)) /\
  (forall q, match commit_update sha256 q s with (Ok _, _) => True | (_, s') => s' = s end).
Proof.
  pose proof (reached_inv sha256 _ _ _ _ _ H) as Hw. split_and!.
  - intros signed q Hs. apply prepare_update_Ok. by destruct Hs as [[(_ & _ & Hu & _) _ _] _].
  - intros i q _. split.
    + intros (c & s' & E). by apply commit_update_Ok in E as [? _].
    + intros Hc. do 2 eexists. by apply commit_update_Ok.
  - intros i q c s' Hi E. apply commit_update_Ok in E as (Hc & -> & ->).
    assert (Hct : committing sha256 (w_policy w) q).
    { apply commits_committing; [|done]. eapply Forall_lookup_1; [apply Hw|exact Hi]. }
    destruct Hct as [Ha Hs Had Hcl Ht Hpr Hco] eqn:Ect. clear Ect. split_and!; try done.
    + intros seal Hse. by apply commit_extends.
    + intros a Hn. by apply (commit_keeps sha256).
  - intros q. apply commit_update_rolls_back.
Qed.

Lemma owner_update_exact_witness :
  commits poly_hash toy_prepared (w_policy toy_before) /\
  policy_head poly_hash toy_after =
    mkPosition (po_revision (claims (qp_update toy_prepared))) (record_id (qp_update toy_prepared)).
Proof.
  assert (H : reached poly_hash (Hed := toy_ed25519) (mkPinned toy_genesis) toy_room toy_room_author (take 4 toy_calls) toy_before).
  { split; [exact toy_genesis_authentic|exact toy_chain_new|apply Forall_take, toy_calls_authentic|reflexivity]. }
  destruct (owner_update_exact poly_hash (Hed := toy_ed25519) _ _ _ _ _ H) as (_ & Hc & Hok & _). split.
  - apply (Hc 0%nat toy_prepared toy_prepared_at). exists toy_closed, toy_after. exact toy_commit.
  - exact (proj1 (proj2 (proj2 (Hok 0%nat toy_prepared toy_closed toy_after toy_prepared_at toy_commit)))).
Defined.

(** C10. An event admitted as fresh is authentic, by a writer of the current
    policy, which it names, and follows the chain's head; no fork, overflow or
    unresolved update stands against it; and the chain it extends passes
    through the author's sealed head, unless two of its events collide. *)
Theorem fresh_event_authorised (sha256 : list N -> list N) `{Hed : Ed25519} {Hsha : Sha256 sha256}
    genesis r author calls w (H : reached sha256 genesis r author calls w)
    i q c' (Hi : w_events w !! i = Some q)
    (Hc : commit_event sha256 q (w_policy w) (w_chain w) = (Ok tt, c')) :
  let s := w_policy w in
  let e := qc_event (qe_step q) in
  ps_forked s = false /\ ps_observation_overflow s = false /\ ps_observed s = ∅ /\
  authentic sha256 (typed := event_typed) e /\ author ∈ writers s /\
  ev_policy (claims e) = pp_id (policy_head sha256 s) /\ room s = r /\
  follows r author (ac_head (w_chain w)) e /\ ac_head c' = head_of e /\
  forall seal, sealed_head s author = Some seal ->
    (exists l1 l2, w_retained w = l1 ++ l2 /\ linked r author EMPTY l1 seal) \/
    exists k, Forall (authentic sha256 (typed := event_typed)) k /\ chains_collide sha256 (w_retained w) k.
Proof.
  pose proof (reached_inv sha256 _ _ _ _ _ H) as Hw. destruct (reached_author sha256 _ _ _ _ _ H) as [Er Ea].
  apply commit_event_Ok in Hc as (Hf & Hr & Hp & Han & (E1 & E2 & E3) & ->).
  apply fresh_admission_Ok in Hf as (F1 & F2 & F3).
  assert (Hq : event_inv sha256 (w_policy w) q) by (eapply Forall_lookup_1; [apply Hw|exact Hi]).
  destruct Hq as [[He Hfo] _ Hcu]. destruct (Hcu Hp) as [Hal Hpo]. rewrite E1, E2, E3, Er, Ea in Hfo. rewrite E2, Ea in Hal.
  pose proof (policy_writers sha256 _ _ (wi_policy _ _ Hw)) as Hwr.
  apply contains_sorted_true in Hal; [|apply Hwr]. split_and!; try done; [congruence|].
  intros seal Hs. destruct (wi_chain _ _ Hw) as [Hl Hal' Hch]. rewrite Er, Ea in Hl, Hch. rewrite <- Ea in Hs.
  destruct (Han seal Hs) as [<-|[_ Hck]].
  - left. exists (w_retained w), []. by rewrite app_nil_r.
  - destruct (Hch seal Hck) as (k & Hk & Hkl).
    destruct (linked_suffix sha256 _ _ EMPTY seal _ _ _ Hl Hkl) as [(l1 & l2 & E & Hl1 & _)|Hcol]; [simpl; lia|done|done|..].
    + left. by exists l1, l2.
    + right. by exists k.
Qed.

Lemma fresh_event_authorised_witness :
  toy_room_author ∈ writers (w_policy toy_world) /\ ac_head toy_chain_after = head_of (qc_event (qe_step toy_pending)).
Proof.
  destruct (fresh_event_authorised poly_hash (Hed := toy_ed25519) _ _ _ _ _ toy_reached 0 toy_pending toy_chain_after
    toy_pending_event toy_commit_second) as (_ & _ & _ & _ & Hw & _ & _ & _ & Hh & _).
  split; [exact Hw|exact Hh].
Defined.

(** C11. The verifier of sealed history refines its abstract condition: for a
    candidate under the seal of a closed policy, in whatever pages events
    arrive, refused pages included, [finish] succeeds exactly when the events
    accepted are the whole chain of the author up to the sealed event, under
    the closed policy, with the candidate among them; the pages of such a chain
    are all accepted; and a refused page changes nothing.  Other candidates are
    refused or left out of the feed. *)
Theorem sealed_history_exact p candidate (Hws : sorted_by id (cp_writers p)) (Hss : sorted_by sl_author (cp_seals p)) :
  (forall v, history_requirement p candidate = Ok (Verify v) <->
     ev_room (claims candidate) = cp_room p /\ ev_policy (claims candidate) = cp_policy p /\
     ev_author (claims candidate) ∈ cp_writers p /\
     exists seal, seal ∈ cp_seals p /\ sl_author seal = ev_author (claims candidate) /\
       ev_sequence (claims candidate) <= sl_sequence seal /\
       v = mkVerifier (cp_room p) (cp_policy p) (cp_closing_policy p) seal candidate EMPTY false None) /\
  (history_requirement p candidate <> Panic) /\
  (forall e, history_requirement p candidate = Err e <->
     (e = RScope /\ ev_room (claims candidate) <> cp_room p) \/
     (e = RPolicy /\ ev_room (claims candidate) = cp_room p /\ ev_policy (claims candidate) <> cp_policy p)) /\
  forall v, history_requirement p candidate = Ok (Verify v) ->
    (forall pages h, Forall (Forall sequenced) pages ->
       history_finish (history_run pages v) = Ok h <->
       sealed_history (cp_room p) (cp_policy p) (hv_seal v) candidate (accepted_events pages v) /\
       h = mkHistorical candidate (cp_closing_policy p)) /\
    (forall pages, Forall page_sized pages -> Forall (Forall sequenced) pages ->
       sealed_history (cp_room p) (cp_policy p) (hv_seal v) candidate (concat pages) ->
       accepted_events pages v = concat pages /\
       history_finish (history_run pages v) = Ok (mkHistorical candidate (cp_closing_policy p))) /\
    (forall v' page, match history_push page v' with (Ok _, _) => True | (Err _, v'') => v'' = v' | (Panic, _) => False end).
Proof.
  assert (Hreq : forall v, history_requirement p candidate = Ok (Verify v) <->
     ev_room (claims candidate) = cp_room p /\ ev_policy (claims candidate) = cp_policy p /\
     ev_author (claims candidate) ∈ cp_writers p /\
     exists seal, seal ∈ cp_seals p /\ sl_author seal = ev_author (claims candidate) /\
       ev_sequence (claims candidate) <= sl_sequence seal /\
       v = mkVerifier (cp_room p) (cp_policy p) (cp_closing_policy p) seal candidate EMPTY false None).
  { intros v. unfold history_requirement. split.
    - intros Hv. do 3 (case_match; [done|]). bool_to_prop.
      match goal with H : contains_sorted _ _ = true |- _ => apply contains_sorted_true in H; [|done] end.
      destruct (binary_search_by _ _ _) as [i|] eqn:Eb; [|done]. apply binary_search_Some in Eb as (seal & Hi & Ha); [|done].
      unfold index in Hv. rewrite Hi in Hv. cbn [res_bind] in Hv. case_match eqn:El; [done|]. injection Hv as <-.
      bool_to_prop. split_and!; [done..|]. exists seal. split; [by eapply list_elem_of_lookup_2|]. done.
    - intros (E1 & E2 & E3 & seal & Hs & Ha & Hl & ->). rewrite !bool_decide_true by done. cbn [negb].
      rewrite (proj2 (contains_sorted_true _ _ Hws) E3). cbn [negb].
      apply list_elem_of_lookup_1 in Hs as [i Hi].
      rewrite (proj2 (binary_search_Some sl_author _ _ i Hss)) by eauto. unfold index. rewrite Hi. cbn [res_bind].
      by rewrite (proj2 (N.ltb_ge _ _)). }
  split; [done|]. split; [|split].
  - unfold history_requirement. do 3 (case_match; [done|]).
    destruct (binary_search_by _ _ _) as [i|] eqn:Eb; [|done]. apply binary_search_Some in Eb as (seal & Hi & _); [|done].
    unfold index. rewrite Hi. cbn [res_bind]. by case_match.
  - intros e. unfold history_requirement.
    destruct (bool_decide_reflect (ev_room (claims candidate) = cp_room p)); cbn [negb]; [|naive_solver].
    destruct (bool_decide_reflect (ev_policy (claims candidate) = cp_policy p)); cbn [negb]; [|naive_solver].
    split; [|naive_solver]. intros He. case_match; [done|].
    destruct (binary_search_by _ _ _) as [i|] eqn:Eb; [|done]. apply binary_search_Some in Eb as (seal & Hi & _); [|done].
    unfold index in He. rewrite Hi in He. cbn [res_bind] in He. by case_match.
  - intros v (_ & _ & _ & seal & _ & _ & _ & ->)%Hreq. cbn [hv_seal].
    set (v0 := mkVerifier (cp_room p) (cp_policy p) (cp_closing_policy p) seal candidate EMPTY false None).
    assert (Hf : fresh_verifier v0) by done. pose proof (verifying_fresh v0 Hf) as Hv0. split_and!.
    + intros pages h Hp. apply (finish_verifying v0 _ _ h Hf). apply (verifying_run v0 v0 [] pages Hp Hv0).
    + intros pages Hsz Hsq Hh. assert (Ea : accepted_events pages v0 = concat pages).
      { by apply (accepted_all v0 v0 [] pages Hf Hv0). }
      split; [done|]. apply (finish_verifying v0 _ (accepted_events pages v0) _ Hf).
      * apply (verifying_run v0 v0 [] pages Hsq Hv0).
      * by rewrite Ea.
    + intros v' page. pose proof (history_push_rolls_back page v') as Hr. pose proof (history_push_total page v') as Ht.
      by destruct (history_push page v') as [[]].
Qed.

Lemma sealed_history_exact_witness :
  history_finish (history_run toy_pages toy_history_verifier) = Ok (mkHistorical toy_first (cp_closing_policy toy_closed)).
Proof.
  assert (Hw : sorted_by id (cp_writers toy_closed)) by (apply windows_sorted; vm_compute; reflexivity).
  assert (Hs : sorted_by sl_author (cp_seals toy_closed)) by (apply windows_sorted; vm_compute; reflexivity).
  destruct (sealed_history_exact toy_closed toy_first Hw Hs) as (_ & _ & _ & Hv).
  destruct (Hv toy_history_verifier toy_requirement) as (Hf & _).
  apply (Hf toy_pages _ toy_pages_sequenced). split; [|reflexivity]. rewrite toy_accepted. exact toy_sealed.
Defined.

(** C25. Honest progress: an update that follows the head is prepared, the pages
    of its authors' chains, in any order of authors' seals and any page sizes up
    to the bound, complete it, and it commits; an author that may write has its
    next event admitted; and an author whose chain extends a seal it learned
    later proves so with its own events and may write again. *)
Theorem direct_room_progress (sha256 : list N -> list N) `{Hed : Ed25519} {Hsha : Sha256 sha256}
    genesis r author calls w (H : reached sha256 genesis r author calls w) :
  let s := w_policy w in
  let c := w_chain w in
  (forall signed p supply, signed_ok sha256 (typed := policy_typed) signed -> verify_record signed = Ok p ->
     ps_forked s = false -> conflicts s p = false -> succeeds sha256 s p -> admits_seals s p ->
     Forall2 (fun seal '(a, pages) => a = sl_author seal /\
       seal_pages (room s) (prior s a) seal (pp_id (policy_head sha256 s)) pages)
       (po_sealed_heads (claims p)) supply ->
     exists q closed s', prepare_update sha256 s signed = Ok q /\
       commit_update sha256 (push_all supply q) s = (Ok closed, s') /\
       policy_head sha256 s' = mkPosition (po_revision (claims p)) (record_id p)) /\
  (forall e, authentic sha256 (typed := event_typed) e -> may_author c s ->
     follows r author (ac_head c) e -> ev_policy (claims e) = pp_id (policy_head sha256 s) ->
     exists q c', prepare_next sha256 c e s = Ok q /\ commit_event sha256 q s c = (Ok tt, c') /\
       ac_head c' = head_of e /\ may_author c' s) /\
  (forall seal l1 pages, sealed_head s author = Some seal -> room s = r ->
     w_retained w = l1 ++ concat pages -> linked r author EMPTY l1 seal -> Forall page_sized pages ->
     exists rc c', prepare_anchor_reconciliation sha256 c s = Ok rc /\
       reconcile_anchor sha256 (foldl (fun x page => snd (reconcile_push page x)) rc pages) s c = (Ok tt, c') /\
       ac_head c' = ac_head c /\ anchored c' s).
Proof.
  pose proof (reached_inv sha256 _ _ _ _ _ H) as Hw. destruct (reached_author sha256 _ _ _ _ _ H) as [Er Ea]. split_and!.
  - intros signed p supply Hs Hv Hf Hc Hsu Had Hsup. pose proof (verify_authentic sha256 _ _ Hs Hv) as Hap.
    assert (Hq : prepare_update sha256 (w_policy w) signed = Ok (prepared_for sha256 (w_policy w) p)).
    { apply prepare_update_Ok; [by destruct Hs as [[(_ & _ & Hu & _) _ _] _]|]. by exists p. }
    destruct (push_all_ready sha256 (w_policy w) p (prepared_for sha256 (w_policy w) p) [] (po_sealed_heads (claims p)) supply)
      as (proofs & Ep & Hd); try done.
    { apply sorted_nodup. apply (pk_sorted _ (authentic_policy_ok sha256 _ Hap)). }
    { eapply Forall2_impl; [exact Hsup|]. intros seal [a pages] [-> ?]. done. }
    exists (prepared_for sha256 (w_policy w) p). do 2 eexists. split; [exact Hq|]. rewrite Ep.
    split; [apply commit_update_Ok; split; [by split|split; reflexivity]|done].
  - intros e He Hm Hfo Hp. rewrite <- Er, <- Ea in Hfo.
    eexists _, _. split; [apply prepare_next_Ok; [by apply (authentic_sequenced sha256)|done]|]. destruct Hm as (Hf & Hr & Hal & Han).
    split; [by apply commit_event_Ok|]. split; [done|]. split; [done|]. split; [done|]. split; [done|].
    intros seal Hs. simpl in Hs |- *. right. split; [|done]. destruct Hfo as (_ & _ & Hsq & _).
    destruct (Han seal Hs) as [E|[E _]]; [rewrite <- E|]; lia.
  - intros seal l1 pages Hs Hr Hre Hl1 Hsz. destruct (wi_chain _ _ Hw) as [Hl Hal _]. rewrite Er, Ea, Hre in Hl.
    apply linked_app in Hl as (mid & Hm & Hl2). pose proof (linked_det _ _ _ _ _ _ Hl1 Hm) as <-.
    set (rc := mkReconciliation r author (policy_head sha256 (w_policy w)) seal (ac_head (w_chain w)) seal).
    pose proof (linked_length _ _ _ _ _ Hl2) as Hlen.
    assert (Hrc : prepare_anchor_reconciliation sha256 (w_chain w) (w_policy w) = Ok rc).
    { unfold prepare_anchor_reconciliation. rewrite Er, Ea, bool_decide_true, Hs by done. cbn [negb ok_or res_bind].
      rewrite (proj2 (N.ltb_ge _ _)) by lia.
      destruct (N.eqb_spec (ah_sequence (ac_head (w_chain w))) (ah_sequence seal)) as [E|E]; [|done].
      destruct (concat pages) as [|x l] eqn:Ec; [|unfold len in Hlen; simpl in Hlen; lia].
      simpl in Hl2. by rewrite bool_decide_true. }
    assert (Hpg : anchor_pages r author seal (ac_head (w_chain w)) pages).
    { split; [done|]. split; [|done]. rewrite Hre in Hal. apply Forall_app in Hal as [_ Hal].
      eapply Forall_impl; [exact Hal|]. apply (authentic_sequenced sha256). }
    eexists _, _. split; [exact Hrc|]. rewrite (reconcile_pages r author pages rc _ Hpg) by done. split; [|split].
    + unfold reconcile_anchor, bind, get. simpl. rewrite Er, Ea, !bool_decide_true by done. simpl.
      unfold reconcile_ready. rewrite bool_decide_true by done. reflexivity.
    + done.
    + intros seal' Hs'. simpl in *. rewrite Ea, Hs in Hs'. injection Hs' as <-.
      destruct (decide (ac_head (w_chain w) = seal)) as [->|Hne]; [by left|right]. split; [|done].
      destruct (concat pages) as [|x l]; [by simpl in Hl2|]. unfold len in Hlen. simpl in Hlen. lia.
Qed.

Lemma direct_room_progress_witness :
  exists q c', prepare_next poly_hash (w_chain toy_world) toy_second (w_policy toy_world) = Ok q /\
    commit_event poly_hash q (w_policy toy_world) (w_chain toy_world) = (Ok tt, c') /\
    ac_head c' = head_of toy_second.
Proof.
  destruct (direct_room_progress poly_hash (Hed := toy_ed25519) _ _ _ _ _ toy_reached) as (_ & Ha & _).
  assert (Hm : may_author (w_chain toy_world) (w_policy toy_world)).
  { exact (proj1 (proj1 (authoring_head_Ok _ _ _) toy_may_author)). }
  destruct (Ha toy_second toy_second_authentic Hm toy_second_follows toy_second_policy) as (q & c' & Hq & Hc & Hh & _).
  exists q, c'. split; [exact Hq|]. split; [exact Hc|exact Hh].
Defined.
