(* ===== verification/SyncRecords.v ===== *)
(** Verification of a peer's frozen snapshot of a direct room
    (src/crates/vhalla-direct-sync/src/lib.rs): checkpoints, the rolling digest,
    the accumulator of a source and the receiver that consumes pages. *)
From Stdlib Require Import Ascii String.
From S2P Require Import Prelude Utf8 Bytes Signed DirectCodec.

Definition MAX_PAGE_FRAMES : N := 32.
Definition MAX_SNAPSHOT_RECORDS : N := 1000000.
Definition MAX_SNAPSHOT_BYTES : N := 8 * 1024 * 1024 * 1024.
Definition MIN_POLICY_BYTES : N := MAX_POLICY_BYTES - 32 * (MAX_WRITERS - 1) - 72 * MAX_WRITERS.
Definition MIN_EVENT_BYTES : N := MAX_ROOM_EVENT_BYTES - MAX_TEXT_BYTES + 1.
Definition MIN_RECORD_BYTES : N :=
  if MIN_POLICY_BYTES <? MIN_EVENT_BYTES then MIN_POLICY_BYTES else MIN_EVENT_BYTES.
Definition MAX_RECORD_BYTES : N :=
  if MAX_ROOM_EVENT_BYTES <? MAX_POLICY_BYTES then MAX_POLICY_BYTES else MAX_ROOM_EVENT_BYTES.

Inductive SyncError : Type :=
| SBounds | SSource | SRoom | SEpoch | SSequence | SCheckpoint | SDigest | STruncated
| SStaleBase | SPending | SRollback | SFork | SProtocol (e : RoomError).

Inductive SyncKind : Type := KindGenesis | KindPolicy | KindEvent.
#[global] Instance SyncKind_eq_dec : EqDecision SyncKind. Proof. solve_decision. Defined.
(** [frame.kind as u8] *)
Definition sync_tag (k : SyncKind) : N :=
  match k with KindGenesis => 1 | KindPolicy => 2 | KindEvent => 3 end.

Record SyncFrame : Type := mkSyncFrame { sf_kind : SyncKind; sf_bytes : list N }.

Record SyncCheckpoint : Type := mkSyncCheckpoint {
  sc_source : list N; sc_room : RoomId; sc_epoch : list N;
  sc_records : N; sc_bytes : N; sc_digest : list N;
}.
#[global] Instance SyncCheckpoint_eq_dec : EqDecision SyncCheckpoint. Proof. solve_decision. Defined.

Record SyncPage : Type := mkSyncPage {
  sp_checkpoint_id : list N; sp_first : N; sp_last : N; sp_frames : list SyncFrame;
}.

(** [VerifiedRecord] of the source. *)
Inductive SyncRecord : Type :=
| SyncGenesis (record : PinnedGenesis)
| SyncPolicy (record : VerifiedPolicy)
| SyncEvent (record : VerifiedEvent).

Definition sync_kind (r : SyncRecord) : SyncKind :=
  match r with SyncGenesis _ => KindGenesis | SyncPolicy _ => KindPolicy | SyncEvent _ => KindEvent end.

Definition pinned_encode (g : PinnedGenesis) : list N := encode_signed_record (vr_signed (pg_genesis g)).
Definition pinned_id (g : PinnedGenesis) : RoomId := record_id (pg_genesis g).

Definition sync_encode (r : SyncRecord) : list N :=
  match r with
  | SyncGenesis record => pinned_encode record
  | SyncPolicy record => encode_signed_record (vr_signed record)
  | SyncEvent record => encode_signed_record (vr_signed record)
  end.

Record SyncProgress : Type := mkProgress { pr_records : N; pr_bytes : N; pr_digest : list N }.
#[global] Instance SyncProgress_eq_dec : EqDecision SyncProgress. Proof. solve_decision. Defined.

Inductive Coverage : Type := CoveragePending | CoverageComplete.
#[global] Instance Coverage_eq_dec : EqDecision Coverage. Proof. solve_decision. Defined.

Definition CHECKPOINT_DOMAIN : list N := bytes_of "vhalla/direct-sync/checkpoint/v1" ++ [0].
Definition SYNC_SOURCE_DOMAIN : list N := bytes_of "vhalla/direct-sync/source/v1" ++ [0].
Definition SYNC_FRAME_DOMAIN : list N := bytes_of "vhalla/direct-sync/frame/v1" ++ [0].

(** What each of the three digests hashes. *)
Definition checkpoint_preimage (c : SyncCheckpoint) : list N :=
  concat [CHECKPOINT_DOMAIN; sc_source c; sc_room c; sc_epoch c; be 8 (sc_records c); be 8 (sc_bytes c); sc_digest c].
Definition source_preimage (source : list N) (room : RoomId) (epoch : list N) : list N :=
  concat [SYNC_SOURCE_DOMAIN; source; room; epoch].
Definition frame_preimage (previous : list N) (records : N) (kind : SyncKind) (length : N) (inner : list N) : list N :=
  concat [SYNC_FRAME_DOMAIN; previous; be 8 records; [sync_tag kind]; be 8 length; inner].

Definition wrong_protocol {A} (r : res RoomError A) : res SyncError A := map_err SProtocol r.

Section Sync.
Context (sha256 : list N -> list N) `{Hed : Ed25519}.

Definition checkpoint_id (c : SyncCheckpoint) : list N := sha256 (checkpoint_preimage c).

Definition checkpoint_check (c : SyncCheckpoint) (genesis : PinnedGenesis) : res SyncError unit :=
  if bool_decide (sc_source c = ZERO) then Err SSource
  else if negb (bool_decide (sc_room c = pinned_id genesis)) then Err SRoom
  else if bool_decide (sc_epoch c = ZERO) then Err SEpoch
  else if (sc_records c =? 0) || (MAX_SNAPSHOT_RECORDS <? sc_records c) || (MAX_SNAPSHOT_BYTES <? sc_bytes c)
  then Err SBounds
  else
    let initial := len (pinned_encode genesis) in
    let? later := plain_sub (sc_records c) 1 in
    let? least := plain_mul later MIN_RECORD_BYTES in
    let? minimum := plain_add initial least in
    let? most := plain_mul later MAX_RECORD_BYTES in
    let? maximum := plain_add initial most in
    if (sc_bytes c <? minimum) || (maximum <? sc_bytes c) then Err SBounds else Ok tt.

Definition sync_initial (source : list N) (room : RoomId) (epoch : list N) : SyncProgress :=
  mkProgress 0 0 (sha256 (source_preimage source room epoch)).

Definition sync_advance (previous : SyncProgress) (frame : SyncFrame) : res SyncError SyncProgress :=
  let? records := ok_or (checked_add 64 (pr_records previous) 1) SBounds in
  let? bytes := ok_or (checked_add 64 (pr_bytes previous) (len (sf_bytes frame))) SBounds in
  if (MAX_SNAPSHOT_RECORDS <? records) || (MAX_SNAPSHOT_BYTES <? bytes) then Err SBounds
  else Ok (mkProgress records bytes
             (sha256 (frame_preimage (pr_digest previous) records (sf_kind frame) (len (sf_bytes frame))
                        (sha256 (sf_bytes frame))))).

Definition kind_bound (k : SyncKind) : N :=
  match k with
  | KindGenesis => MAX_GENESIS_BYTES
  | KindPolicy => MAX_POLICY_BYTES
  | KindEvent => MAX_ROOM_EVENT_BYTES
  end.

(** [SignedPolicy::decode(bytes)?.verify()?] and its like. *)
Definition decode_verified {C} `{RecordKind C} (bytes : list N) : res SyncError (VerifiedRecord C) :=
  let? signed := wrong_protocol (decode_signed_record sha256 bytes) in
  wrong_protocol (verify_record signed).

Definition sync_verify (genesis : PinnedGenesis) (sequence : N) (frame : SyncFrame) : res SyncError SyncRecord :=
  let bytes := sf_bytes frame in
  if (len bytes =? 0) || (kind_bound (sf_kind frame) <? len bytes) then Err SBounds
  else if negb (eqb (sequence =? 1) (bool_decide (sf_kind frame = KindGenesis))) then Err SSequence
  else
    let? record :=
      match sf_kind frame with
      | KindGenesis =>
          let? signed := wrong_protocol (decode_signed_record sha256 bytes) in
          let? record := wrong_protocol (verify_pin signed (pinned_id genesis)) in
          if negb (bool_decide (pinned_encode record = pinned_encode genesis)) then Err SRoom
          else Ok (SyncGenesis record)
      | KindPolicy =>
          let? record := decode_verified bytes in
          if negb (bool_decide (po_room (claims record) = pinned_id genesis)) then Err SRoom
          else if negb (bool_decide (po_owner (claims record) = ge_owner (claims (pg_genesis genesis))))
          then Err (SProtocol ROwner)
          else Ok (SyncPolicy record)
      | KindEvent =>
          let? record := decode_verified bytes in
          if negb (bool_decide (ev_room (claims record) = pinned_id genesis)) then Err SRoom
          else Ok (SyncEvent record)
      end in
    if negb (bool_decide (sync_encode record = bytes)) then Err (SProtocol REncoding) else Ok record.

(** ** Source *)

Record SourceAccumulator : Type := mkSource {
  sa_genesis : PinnedGenesis; sa_source : list N; sa_epoch : list N; sa_progress : SyncProgress;
}.

Definition source_new (source : list N) (genesis : PinnedGenesis) (epoch : list N) : res SyncError SourceAccumulator :=
  if bool_decide (source = ZERO) then Err SSource
  else if bool_decide (epoch = ZERO) then Err SEpoch
  else Ok (mkSource genesis source epoch (sync_initial source (pinned_id genesis) epoch)).

Definition source_push (frame : SyncFrame) : eff SourceAccumulator SyncError unit :=
  let! s := get in
  let! sequence := lift (ok_or (checked_add 64 (pr_records (sa_progress s)) 1) SBounds) in
  let! _ := lift (sync_verify (sa_genesis s) sequence frame) in
  let! next := lift (sync_advance (sa_progress s) frame) in
  modify (fun s => mkSource (sa_genesis s) (sa_source s) (sa_epoch s) next).

Definition source_checkpoint (s : SourceAccumulator) : res SyncError SyncCheckpoint :=
  let checkpoint := mkSyncCheckpoint (sa_source s) (pinned_id (sa_genesis s)) (sa_epoch s)
    (pr_records (sa_progress s)) (pr_bytes (sa_progress s)) (pr_digest (sa_progress s)) in
  let? _ := checkpoint_check checkpoint (sa_genesis s) in
  Ok checkpoint.

(** ** Receiver *)

Record PreparedPage : Type := mkPrepared {
  py_checkpoint : list N; py_base : SyncProgress; py_next : SyncProgress; py_frames : list SyncRecord;
}.

(** [first] and [last] of a prepared page. *)
Definition page_first (p : PreparedPage) : res SyncError N := plain_add (pr_records (py_base p)) 1.
Definition page_last (p : PreparedPage) : N := pr_records (py_next p).

Record Receiver : Type := mkReceiver {
  rv_genesis : PinnedGenesis; rv_target : SyncCheckpoint; rv_progress : SyncProgress;
}.

Definition receiver_begin (genesis : PinnedGenesis) (expected_source authenticated_source : list N)
    (target : SyncCheckpoint) : res SyncError Receiver :=
  if negb (bool_decide (expected_source = authenticated_source))
     || negb (bool_decide (expected_source = sc_source target))
  then Err SSource
  else
    let? _ := checkpoint_check target genesis in
    Ok (mkReceiver genesis target (sync_initial (sc_source target) (sc_room target) (sc_epoch target))).

Definition coverage (r : Receiver) : Coverage :=
  if (pr_records (rv_progress r) =? sc_records (rv_target r))
     && (pr_bytes (rv_progress r) =? sc_bytes (rv_target r))
     && bool_decide (pr_digest (rv_progress r) = sc_digest (rv_target r))
  then CoverageComplete else CoveragePending.

(** The body of the loop of [prepare_page]. *)
Definition page_step (r : Receiver) (acc : SyncProgress * list SyncRecord) (frame : SyncFrame) :
    res SyncError (SyncProgress * list SyncRecord) :=
  let '(next, frames) := acc in
  let? sequence := plain_add (pr_records next) 1 in
  let? record := sync_verify (rv_genesis r) sequence frame in
  let? next := sync_advance next frame in
  if sc_bytes (rv_target r) <? pr_bytes next then Err SDigest
  else Ok (next, frames ++ [record]).

(** The [||] of the guard on positions evaluates its operands in order. *)
Definition page_position (r : Receiver) (page : SyncPage) : res SyncError bool :=
  let? expected := plain_add (pr_records (rv_progress r)) 1 in
  if negb (sp_first page =? expected) then Ok true
  else
    let? more := plain_sub (len (sp_frames page)) 1 in
    let? last := ok_or (checked_add 64 (sp_first page) more) SSequence in
    Ok (negb (sp_last page =? last) || (sc_records (rv_target r) <? sp_last page)).

Definition prepare_page (r : Receiver) (page : SyncPage) : res SyncError PreparedPage :=
  let target := rv_target r in
  if negb (bool_decide (sp_checkpoint_id page = checkpoint_id target)) then Err SCheckpoint
  else if (len (sp_frames page) =? 0) || (MAX_PAGE_FRAMES <? len (sp_frames page)) then Err SBounds
  else
    let? misplaced := page_position r page in
    if misplaced then Err SSequence
    else
      let? '(next, frames) := res_fold (page_step r) (rv_progress r, []) (sp_frames page) in
      if (pr_records next =? sc_records target)
         && (negb (pr_bytes next =? sc_bytes target) || negb (bool_decide (pr_digest next = sc_digest target)))
      then Err SDigest
      else
        let? missing := plain_sub (sc_records target) (pr_records next) in
        let? least := plain_mul missing MIN_RECORD_BYTES in
        let? needed := plain_add (pr_bytes next) least in
        if sc_bytes target <? needed then Err SDigest
        else Ok (mkPrepared (checkpoint_id target) (rv_progress r) next frames).

Definition commit_after_persist (prepared : PreparedPage) : eff Receiver SyncError Coverage :=
  let! r := get in
  if negb (bool_decide (py_checkpoint prepared = checkpoint_id (rv_target r)))
     || negb (bool_decide (py_base prepared = rv_progress r))
  then throw SStaleBase
  else
    do! modify (fun r => mkReceiver (rv_genesis r) (rv_target r) (py_next prepared)) in
    let! r := get in
    ret (coverage r).

Definition receiver_finish (r : Receiver) : res SyncError SyncCheckpoint :=
  if negb (bool_decide (coverage r = CoverageComplete)) then Err STruncated else Ok (rv_target r).

Definition receiver_extend (authenticated_source : list N) (target : SyncCheckpoint) : eff Receiver SyncError unit :=
  let! r := get in
  let old := rv_target r in
  if negb (bool_decide (coverage r = CoverageComplete)) then throw SPending
  else if negb (bool_decide (authenticated_source = sc_source old))
          || negb (bool_decide (sc_source target = sc_source old)) then throw SSource
  else if negb (bool_decide (sc_room target = sc_room old)) then throw SRoom
  else if negb (bool_decide (sc_epoch target = sc_epoch old)) then throw SEpoch
  else if sc_records target =? sc_records old then
    if bool_decide (target = old) then ret tt else throw SFork
  else if (sc_records target <? sc_records old) || (sc_bytes target <? sc_bytes old) then throw SRollback
  else
    do! lift (checkpoint_check target (rv_genesis r)) in
    let! grown := lift (plain_sub (sc_bytes target) (pr_bytes (rv_progress r))) in
    let! later := lift (plain_sub (sc_records target) (pr_records (rv_progress r))) in
    let! least := lift (plain_mul later MIN_RECORD_BYTES) in
    if grown <? least then throw SBounds
    else modify (fun r => mkReceiver (rv_genesis r) target (rv_progress r)).
End Sync.
