(* ===== verification/SyncFacts.v ===== *)
(** What the checks of direct sync establish ([SyncRecords]): checkpoints,
    frames and the rolling digest. *)
From Stdlib Require Import Ascii String.
From S2P Require Import Prelude Utf8 Bytes PrefixFree Wire Signed Layout OrderedMap.
From S2P Require Import DirectCodec DirectFacts SyncRecords.


(** ** Sizes of frames *)

Section Sizes.
Context (sha256 : list N -> list N) `{Hed : Ed25519}.

Lemma frame_length {C : Type} `{RecordKind C} (typed : C -> Prop) {Hl : RecordLaws C typed} v :
  authentic sha256 (typed := typed) v ->
  len (encode_signed_record (vr_signed v)) = len (written (rk_put (claims v))) + 64 /\
  len (encode_signed_record (vr_signed v)) <= rk_max /\ Forall byte (encode_signed_record (vr_signed v)).
Proof.
  intros [[[Ht _ _] [Hb Hs]] _]. pose proof (rl_fits _ Ht) as Hf. unfold encode_signed_record, encode_record, claims in *.
  unfold len in *. rewrite length_app. split; [lia|]. split; [lia|]. apply Forall_app. split; [|done].
  by apply (codec_bytes (g := rk_get)).
Qed.

Lemma genesis_frame g : authentic sha256 (typed := genesis_typed) (pg_genesis g) ->
  1 <= len (pinned_encode g) <= MAX_GENESIS_BYTES /\ Forall byte (pinned_encode g).
Proof. intros Hg. destruct (frame_length genesis_typed _ Hg) as (E & Hm & Hb). unfold pinned_encode. split; [|done]. split; [lia|exact Hm]. Qed.

Lemma writers_nonempty writers owner : writers_ok writers owner -> 1 <= len writers.
Proof. by intros [_ [? _] _ _ _]. Qed.

Lemma policy_frame v : authentic sha256 (typed := policy_typed) v ->
  MIN_RECORD_BYTES <= len (encode_signed_record (vr_signed v)) <= MAX_POLICY_BYTES /\
  Forall byte (encode_signed_record (vr_signed v)).
Proof.
  intros Hv. destruct (frame_length policy_typed _ Hv) as (E & Hm & Hb). split; [|done]. split; [|exact Hm]. rewrite E.
  destruct Hv as [[[([_ Hr] & [_ Ho] & _ & [_ Hp] & [Hl Hf] & Hl2 & Hf2) Hc%policy_check_Ok _] _] _].
  pose proof (writers_nonempty _ _ (pk_writers _ Hc)) as Hw. unfold claims in *. simpl rk_put. unfold put_policy. split_written.
  unfold len in *. rewrite !length_app, length_writers, length_seals by done. autorewrite with written_length.
  change (length POLICY_MAGIC) with 5%nat. change MIN_RECORD_BYTES with 209. lia.
Qed.

Lemma event_frame v : authentic sha256 (typed := event_typed) v ->
  MIN_RECORD_BYTES <= len (encode_signed_record (vr_signed v)) <= MAX_ROOM_EVENT_BYTES /\
  Forall byte (encode_signed_record (vr_signed v)).
Proof.
  intros Hv. destruct (frame_length event_typed _ Hv) as (E & Hm & Hb). split; [|done]. split; [|exact Hm]. rewrite E.
  destruct Hv as [[[([_ Hr] & [_ Hp] & [_ Ha] & _ & [_ He] & _ & Ht%text_bounds) _ _] _] _].
  unfold claims in *. simpl rk_put. unfold put_room_event, put_text, w_sized. split_written.
  unfold len in *. rewrite !length_app. autorewrite with written_length.
  change (length EVENT_MAGIC) with 5%nat. change MIN_RECORD_BYTES with 209. lia.
Qed.
End Sizes.

(** ** Checkpoints *)

Section Genesis.
Context (sha256 : list N -> list N) `{Hed : Ed25519} (g : PinnedGenesis).
Hypothesis Hg : authentic sha256 (typed := genesis_typed) (pg_genesis g).

Record checkpoint_ok (c : SyncCheckpoint) : Prop := {
  co_source : sc_source c <> ZERO;
  co_room : sc_room c = pinned_id g;
  co_epoch : sc_epoch c <> ZERO;
  co_records : 1 <= sc_records c <= MAX_SNAPSHOT_RECORDS;
  co_bytes : sc_bytes c <= MAX_SNAPSHOT_BYTES;
  co_least : len (pinned_encode g) + (sc_records c - 1) * MIN_RECORD_BYTES <= sc_bytes c;
  co_most : sc_bytes c <= len (pinned_encode g) + (sc_records c - 1) * MAX_RECORD_BYTES;
}.

Lemma checkpoint_check_cases c :
  checkpoint_check c g <> Panic /\ (checkpoint_check c g = Ok tt <-> checkpoint_ok c).
Proof.
  destruct (genesis_frame sha256 g Hg) as [[_ Hl] _]. change MAX_GENESIS_BYTES with 2183 in Hl. unfold checkpoint_check.
  case_bool_decide; [by split; [|split; [|intros []]]|].
  case_bool_decide; [|by split; [|split; [|intros []]]].
  case_bool_decide; [by split; [|split; [|intros []]]|]. cbn [negb].
  destruct (_ || _ || _) eqn:Eb.
  { split; [done|]. split; [done|]. intros []. apply orb_true_iff in Eb as [[?|?]%orb_true_iff|?]; bool_to_prop; lia. }
  bool_to_prop. change MAX_SNAPSHOT_RECORDS with 1000000 in *. change MIN_RECORD_BYTES with 209. change MAX_RECORD_BYTES with 6833.
  repeat plain_step.
  destruct (_ || _) eqn:Em.
  - split; [done|]. split; [done|]. intros []. change MIN_RECORD_BYTES with 209 in *. change MAX_RECORD_BYTES with 6833 in *.
    apply orb_true_iff in Em as [?|?]; bool_to_prop; lia.
  - bool_to_prop. split; [done|]. split; [|done]. intros _. split; [done..|change MAX_SNAPSHOT_RECORDS with 1000000; lia|done| |].
    + change MIN_RECORD_BYTES with 209. lia.
    + change MAX_RECORD_BYTES with 6833. lia.
Qed.

Lemma checkpoint_check_Ok c : checkpoint_check c g = Ok tt <-> checkpoint_ok c.
Proof. apply checkpoint_check_cases. Qed.
Lemma checkpoint_check_total c : checkpoint_check c g <> Panic.
Proof. apply checkpoint_check_cases. Qed.

(** ** Frames *)

(** The record belongs at this position of a snapshot of the room. *)
Definition scoped (sequence : N) (r : SyncRecord) : Prop :=
  match r with
  | SyncGenesis p => sequence = 1 /\ p = g
  | SyncPolicy v => sequence <> 1 /\ authentic sha256 (typed := policy_typed) v /\
      po_room (claims v) = pinned_id g /\ po_owner (claims v) = ge_owner (claims (pg_genesis g))
  | SyncEvent v => sequence <> 1 /\ authentic sha256 (typed := event_typed) v /\ ev_room (claims v) = pinned_id g
  end.

(** The canonical frame of a record. *)
Definition record_frame (r : SyncRecord) : SyncFrame := mkSyncFrame (sync_kind r) (sync_encode r).

Lemma scoped_size n r : scoped n r ->
  1 <= len (sync_encode r) <= kind_bound (sync_kind r) /\ Forall byte (sync_encode r) /\
  len (sync_encode r) <= MAX_RECORD_BYTES /\ (n <> 1 -> MIN_RECORD_BYTES <= len (sync_encode r)).
Proof.
  change MAX_RECORD_BYTES with 6833. destruct r as [p|v|v]; simpl.
  - intros [-> ->]. destruct (genesis_frame sha256 g Hg) as [Hl Hb]. change MAX_GENESIS_BYTES with 2183 in *. split; [lia|].
    split; [done|]. split; [lia|done].
  - intros (_ & Hv & _). destruct (policy_frame sha256 v Hv) as [Hl Hb].
    change MAX_POLICY_BYTES with 6833 in *. change MIN_RECORD_BYTES with 209 in *. split; [lia|]. split; [done|]. lia.
  - intros (_ & Hv & _). destruct (event_frame sha256 v Hv) as [Hl Hb].
    change MAX_ROOM_EVENT_BYTES with 4313 in *. change MIN_RECORD_BYTES with 209 in *. split; [lia|]. split; [done|]. lia.
Qed.

Lemma decode_verified_Ok {C : Type} `{RecordKind C} (typed : C -> Prop) {Hl : RecordLaws C typed} bytes v :
  Forall byte bytes ->
  decode_verified sha256 bytes = Ok v <-> authentic sha256 (typed := typed) v /\ bytes = encode_signed_record (vr_signed v).
Proof.
  intros Hb. unfold decode_verified, wrong_protocol. split.
  - destruct (decode_signed_record sha256 bytes) as [s| |] eqn:Ed; [|done..]. cbn [map_err res_bind].
    apply (decode_signed_record_iff sha256 (typed := typed)) in Ed as [Hs ->]; [|done].
    destruct (verify_record s) as [v'| |] eqn:Ev; [|done..]. intros [= <-]. split; [by eapply verify_authentic|].
    by apply verify_record_Ok in Ev as [_ ->].
  - intros [Hv ->]. destruct v as [s]. destruct Hv as [Hs Hc]. simpl in *.
    rewrite (proj2 (decode_signed_record_iff sha256 (typed := typed) _ s Hb)) by done. cbn [map_err res_bind].
    by rewrite (proj2 (verify_record_Ok s (mkVerifiedRecord s))).
Qed.

Lemma decode_verified_total {C : Type} `{RecordKind C} (typed : C -> Prop) {Hl : RecordLaws C typed} bytes :
  Forall byte bytes -> decode_verified sha256 bytes <> Panic.
Proof.
  intros Hb. unfold decode_verified, wrong_protocol, verify_record.
  pose proof (decode_signed_record_total sha256 (typed := typed) bytes Hb) as Ht.
  destruct (decode_signed_record sha256 bytes) as [s| |]; [|done..]. cbn [map_err res_bind].
  pose proof (check_signature_total (sr_unsigned s) (sr_signature s)). by destruct (check_signature _ _).
Qed.

Lemma genesis_decodes bytes :
  Forall byte bytes -> bytes = pinned_encode g ->
  decode_signed_record sha256 bytes = Ok (vr_signed (pg_genesis g)) /\
  verify_pin (vr_signed (pg_genesis g)) (pinned_id g) = Ok g.
Proof.
  intros Hb ->. destruct Hg as [Hs Hc]. split.
  - by apply (decode_signed_record_iff sha256 (typed := genesis_typed)).
  - unfold verify_pin. destruct g as [[s]]. unfold pinned_id in *. simpl in *.
    rewrite (proj2 (verify_record_Ok s (mkVerifiedRecord s)) (conj Hc eq_refl)). cbn [res_bind]. by rewrite bool_decide_true.
Qed.

Lemma sync_verify_Ok n f r : Forall byte (sf_bytes f) ->
  sync_verify sha256 g n f = Ok r <-> scoped n r /\ f = record_frame r.
Proof.
  intros Hb. destruct f as [k bytes]. cbn [sf_bytes sf_kind] in *. unfold sync_verify. cbn [sf_bytes sf_kind]. split.
  - destruct (_ || _) eqn:Eb; [done|]. destruct (negb (eqb _ _)) eqn:Ek; [done|].
    apply negb_false_iff, eqb_prop in Ek. destruct k; cbn beta iota; intros H.
    + rewrite bool_decide_true in Ek by done. bool_to_prop.
      destruct (decode_signed_record sha256 bytes) as [s| |] eqn:Ed; [|done..]. cbn [wrong_protocol map_err res_bind] in H.
      destruct (verify_pin s (pinned_id g)) as [p| |] eqn:Ep; [|done..]. cbn [wrong_protocol map_err res_bind] in H.
      case_bool_decide as Ee; [|done]. cbn [negb res_bind] in H. case_bool_decide as E2; [|done]. injection H as <-.
      simpl in E2. unfold record_frame. simpl. rewrite E2. split; [|done]. split; [done|].
      destruct (genesis_decodes bytes Hb ltac:(congruence)) as [Ed' Ep']. rewrite Ed' in Ed. injection Ed as <-. congruence.
    + rewrite bool_decide_false in Ek by done. bool_to_prop.
      destruct (decode_verified sha256 bytes) as [v| |] eqn:Ed; [|done..]. cbn [res_bind] in H.
      apply (decode_verified_Ok policy_typed) in Ed as [Hv ->]; [|done].
      case_bool_decide; [|done]. case_bool_decide; [|done]. cbn [negb res_bind sync_encode] in H.
      rewrite bool_decide_true in H by done. injection H as <-. done.
    + rewrite bool_decide_false in Ek by done. bool_to_prop.
      destruct (decode_verified sha256 bytes) as [v| |] eqn:Ed; [|done..]. cbn [res_bind] in H.
      apply (decode_verified_Ok event_typed) in Ed as [Hv ->]; [|done].
      case_bool_decide; [|done]. cbn [negb res_bind sync_encode] in H.
      rewrite bool_decide_true in H by done. injection H as <-. done.
  - intros [Hs [= -> ->]]. destruct (scoped_size n r Hs) as ([Hl1 Hl2] & _).
    rewrite (proj2 (N.eqb_neq _ _)) by lia. rewrite (proj2 (N.ltb_ge _ _)) by done. cbn [orb].
    destruct r as [p|v|v]; cbn [sync_kind sync_encode] in *.
    + destruct Hs as [-> ->]. rewrite bool_decide_true by done. cbn [N.eqb Pos.eqb eqb negb].
      destruct (genesis_decodes _ Hb eq_refl) as [-> Ep]. cbn [wrong_protocol map_err res_bind]. rewrite Ep.
      cbn [wrong_protocol map_err res_bind]. rewrite bool_decide_true by done. cbn [negb res_bind sync_encode]. by rewrite bool_decide_true.
    + destruct Hs as (Hn & Hv & Hr & Ho). rewrite bool_decide_false by done. rewrite (proj2 (N.eqb_neq _ _)) by done.
      cbn [eqb negb]. rewrite (proj2 (decode_verified_Ok policy_typed _ v Hb)) by done. cbn [res_bind].
      rewrite !bool_decide_true by done. cbn [negb res_bind sync_encode]. by rewrite bool_decide_true.
    + destruct Hs as (Hn & Hv & Hr). rewrite bool_decide_false by done. rewrite (proj2 (N.eqb_neq _ _)) by done.
      cbn [eqb negb]. rewrite (proj2 (decode_verified_Ok event_typed _ v Hb)) by done. cbn [res_bind].
      rewrite !bool_decide_true by done. cbn [negb res_bind sync_encode]. by rewrite bool_decide_true.
Qed.

Lemma sync_verify_total n f : Forall byte (sf_bytes f) -> sync_verify sha256 g n f <> Panic.
Proof.
  intros Hb. unfold sync_verify. destruct (_ || _); [done|]. destruct (negb _); [done|]. destruct (sf_kind f).
  - pose proof (decode_signed_record_total sha256 (typed := genesis_typed) (sf_bytes f) Hb) as Ht.
    destruct (decode_signed_record sha256 (sf_bytes f)) as [s| |]; [|done..]. cbn [wrong_protocol map_err res_bind].
    assert (verify_pin s (pinned_id g) <> Panic).
    { unfold verify_pin, verify_record. pose proof (check_signature_total (sr_unsigned s) (sr_signature s)).
      destruct (check_signature _ _); cbn [res_bind]; [by case_match|done..]. }
    destruct (verify_pin _ _); cbn [wrong_protocol map_err res_bind]; [|done..].
    case_match; cbn [res_bind]; [done|]. by case_match.
  - pose proof (decode_verified_total policy_typed _ Hb). destruct (decode_verified _ _); cbn [res_bind]; [|done..].
    do 2 (case_match; cbn [res_bind]; [done|]). by case_match.
  - pose proof (decode_verified_total event_typed _ Hb). destruct (decode_verified _ _); cbn [res_bind]; [|done..].
    case_match; cbn [res_bind]; [done|]. by case_match.
Qed.

(** A frame carries one record. *)
Lemma frame_of_inj n x y : scoped n x -> scoped n y -> record_frame x = record_frame y -> x = y.
Proof.
  intros Hx Hy E. assert (Hb : Forall byte (sf_bytes (record_frame x))) by (by apply (scoped_size n)).
  pose proof (proj2 (sync_verify_Ok n _ x Hb) (conj Hx eq_refl)) as H1.
  pose proof (proj2 (sync_verify_Ok n _ y Hb) (conj Hy E)) as H2. congruence.
Qed.

(** Consecutive records from a position on. *)
Fixpoint scoped_from (n : N) (l : list SyncRecord) : Prop :=
  match l with
  | [] => True
  | r :: l => scoped n r /\ scoped_from (n + 1) l
  end.

Lemma scoped_from_app n l k : scoped_from n (l ++ k) <-> scoped_from n l /\ scoped_from (n + len l) k.
Proof.
  revert n. induction l as [|r l IH]; intros n; simpl.
  - change (len (@nil SyncRecord)) with 0. rewrite N.add_0_r. tauto.
  - rewrite IH. replace (n + 1 + len l) with (n + len (r :: l)) by (unfold len; simpl; lia). tauto.
Qed.

Lemma frames_of_inj n l k : scoped_from n l -> scoped_from n k -> record_frame <$> l = record_frame <$> k -> l = k.
Proof.
  revert n k. induction l as [|x l IH]; intros n [|y k] Hl Hk E; try done. csimpl in *. injection E as E1 E2 E3.
  destruct Hl as [Hx Hl], Hk as [Hy Hk]. f_equal; [|by eapply IH].
  apply (frame_of_inj n); [done..|]. unfold record_frame. congruence.
Qed.

Lemma scoped_bytes n l : scoped_from n l -> Forall (fun f => Forall byte (sf_bytes f)) (record_frame <$> l).
Proof.
  revert n. induction l as [|x l IH]; intros n; csimpl; [by constructor|]. intros [Hx Hl].
  constructor; [by apply (scoped_size n)|by eapply IH].
Qed.

(** The bytes of a list of frames. *)
Definition total_bytes (fs : list SyncFrame) : N := foldr (fun f n => len (sf_bytes f) + n) 0 fs.

Lemma total_bytes_app l k : total_bytes (l ++ k) = total_bytes l + total_bytes k.
Proof. induction l as [|f l IH]; simpl; [done|]. rewrite IH. lia. Qed.

Lemma scoped_total n l : scoped_from n l -> 1 <= n ->
  (n <> 1 -> len l * MIN_RECORD_BYTES <= total_bytes (record_frame <$> l)) /\
  total_bytes (record_frame <$> l) <= len l * MAX_RECORD_BYTES.
Proof.
  revert n. induction l as [|r l IH]; intros n; cbn [scoped_from]; csimpl; [change (len (@nil SyncRecord)) with 0; lia|]. intros [Hr Hl] Hn.
  destruct (IH _ Hl ltac:(lia)) as [H1 H2]. destruct (scoped_size n r Hr) as (_ & _ & H3 & H4).
  specialize (H1 ltac:(lia)).
  replace (len (r :: l)) with (len l + 1) by (unfold len; simpl; lia). change (sf_bytes (record_frame r)) with (sync_encode r).
  change MIN_RECORD_BYTES with 209 in *. change MAX_RECORD_BYTES with 6833 in *. split; [intros Hn1; specialize (H4 Hn1)|]; lia.
Qed.

(** A whole snapshot, which starts with the genesis. *)
Lemma snapshot_total l : scoped_from 1 l -> l <> [] ->
  len (pinned_encode g) + (len l - 1) * MIN_RECORD_BYTES <= total_bytes (record_frame <$> l) <=
  len (pinned_encode g) + (len l - 1) * MAX_RECORD_BYTES.
Proof.
  destruct l as [|r l]; [done|]. intros [Hr Hl] _. destruct r as [p|v|v]; simpl in Hr; [|naive_solver..].
  destruct Hr as [_ ->]. destruct (scoped_total _ _ Hl ltac:(lia)) as [H1 H2]. specialize (H1 ltac:(lia)).
  csimpl. replace (len (SyncGenesis g :: l) - 1) with (len l) by (unfold len; simpl; lia). lia.
Qed.
End Genesis.
