(* ===== verification/SyncRuns.v ===== *)
(** The receiver of direct sync and its runs. *)
From Stdlib Require Import Ascii String.
From stdpp Require Import sets.
From S2P Require Import Prelude Bytes Wire Signed DirectCodec DirectFacts Utf8 SyncRecords SyncFacts.

(** The rolling digest of a snapshot, and the receiver as a machine over calls
    ([SyncRecords]): the records it has retained are its abstract state. *)

Section Sync.
Context (sha256 : list N -> list N) `{Hed : Ed25519}.

(** ** The rolling digest *)

(** [advance] without its bounds. *)
Definition rolled (p : SyncProgress) (f : SyncFrame) : SyncProgress :=
  mkProgress (pr_records p + 1) (pr_bytes p + len (sf_bytes f))
    (sha256 (frame_preimage (pr_digest p) (pr_records p + 1) (sf_kind f) (len (sf_bytes f)) (sha256 (sf_bytes f)))).
Definition roll (p : SyncProgress) (fs : list SyncFrame) : SyncProgress := foldl rolled p fs.

Lemma roll_app p l k : roll p (l ++ k) = roll (roll p l) k.
Proof. apply foldl_app. Qed.

Lemma roll_records p l : pr_records (roll p l) = pr_records p + len l.
Proof. revert p. induction l as [|f l IH]; intros p; simpl; [unfold len; simpl; lia|]. rewrite IH. unfold len. simpl. lia. Qed.
Lemma roll_bytes p l : pr_bytes (roll p l) = pr_bytes p + total_bytes l.
Proof. revert p. induction l as [|f l IH]; intros p; simpl; [lia|]. rewrite IH. simpl. lia. Qed.

Lemma sync_advance_Ok p f q : sync_advance sha256 p f = Ok q <->
  q = rolled p f /\ pr_records p + 1 <= MAX_SNAPSHOT_RECORDS /\ pr_bytes p + len (sf_bytes f) <= MAX_SNAPSHOT_BYTES.
Proof.
  unfold sync_advance, checked_add. change MAX_SNAPSHOT_RECORDS with 1000000. change MAX_SNAPSHOT_BYTES with 8589934592.
  destruct (N.ltb_spec (pr_records p + 1) (2 ^ 64)); cbn [ok_or res_bind]; [|split; [done|lia]].
  destruct (N.ltb_spec (pr_bytes p + len (sf_bytes f)) (2 ^ 64)); cbn [ok_or res_bind]; [|split; [done|lia]].
  destruct (N.ltb_spec 1000000 (pr_records p + 1)); cbn [orb]; [split; [done|lia]|].
  destruct (N.ltb_spec 8589934592 (pr_bytes p + len (sf_bytes f))); [split; [done|lia]|].
  split; [intros [= <-]; done|]. by intros [-> _].
Qed.

Lemma sync_advance_total p f : sync_advance sha256 p f <> Panic.
Proof.
  unfold sync_advance. destruct (checked_add 64 _ 1); [|done]. cbn [ok_or res_bind].
  destruct (checked_add 64 _ _); [|done]. cbn [ok_or res_bind]. by case_match.
Qed.

(** What the digests of a chain hash. *)
Fixpoint hashed (p : SyncProgress) (fs : list SyncFrame) : list (list N) :=
  match fs with
  | [] => []
  | f :: fs =>
      sf_bytes f
      :: frame_preimage (pr_digest p) (pr_records p + 1) (sf_kind f) (len (sf_bytes f)) (sha256 (sf_bytes f))
      :: hashed (rolled p f) fs
  end.

(** Two snapshots exhibit a collision of the hash. *)
Definition snapshots_collide (p : SyncProgress) (l k : list SyncFrame) : Prop :=
  exists a b, a ∈ hashed p l /\ b ∈ hashed p k /\ a <> b /\ sha256 a = sha256 b.

Lemma hashed_app p l k : hashed p (l ++ k) = hashed p l ++ hashed (roll p l) k.
Proof. revert p. induction l as [|f l IH]; intros p; simpl; [done|]. by rewrite IH. Qed.

Lemma sync_tag_inj k1 k2 : sync_tag k1 = sync_tag k2 -> k1 = k2.
Proof. by destruct k1, k2. Qed.

Lemma frame_preimage_inj d1 d2 n1 n2 k1 k2 l1 l2 h1 h2 : length d1 = 32%nat -> length d2 = 32%nat ->
  frame_preimage d1 n1 k1 l1 h1 = frame_preimage d2 n2 k2 l2 h2 -> d1 = d2 /\ k1 = k2 /\ h1 = h2.
Proof.
  intros H1 H2 E. unfold frame_preimage in E. cbn [concat] in E. rewrite !app_nil_r in E.
  apply app_inv_head in E. apply app_inj_1 in E as [-> E]; [|congruence].
  apply app_inj_1 in E as [_ E]; [|by rewrite !be_length]. apply app_inj_1 in E as [Ek E]; [|done].
  injection Ek as Ek. apply app_inj_1 in E as [_ ->]; [|by rewrite !be_length]. split; [done|]. split; [|done].
  by apply sync_tag_inj.
Qed.

Context {Hsha : Sha256 sha256}.

Lemma roll_digest p l : length (pr_digest p) = 32%nat -> length (pr_digest (roll p l)) = 32%nat.
Proof. revert p. induction l as [|f l IH]; intros p Hp; simpl; [done|]. apply IH. simpl. apply sha256_wire. Qed.

(** Equal digests of equally many frames are of equal frames. *)
Lemma roll_inj p l k : length (pr_digest p) = 32%nat -> length l = length k ->
  pr_digest (roll p l) = pr_digest (roll p k) -> l = k \/ snapshots_collide p l k.
Proof.
  intros Hp. revert k. induction l as [|f l IH] using rev_ind; intros k Hlen E.
  - destruct k; [by left|done].
  - destruct k as [|h k _] using rev_ind; [rewrite length_app in Hlen; simpl in Hlen; lia|].
    rewrite !length_app in Hlen. simpl in Hlen. assert (Hl : length l = length k) by lia.
    rewrite !roll_app in E. simpl in E.
    set (a := frame_preimage _ _ (sf_kind f) _ _) in E. set (b := frame_preimage _ _ (sf_kind h) _ _) in E.
    assert (Hw : forall x, x ∈ hashed p l \/ x = sf_bytes f \/ x = a -> x ∈ hashed p (l ++ [f])).
    { intros x Hx. rewrite hashed_app. simpl. set_solver. }
    assert (Hv : forall x, x ∈ hashed p k \/ x = sf_bytes h \/ x = b -> x ∈ hashed p (k ++ [h])).
    { intros x Hx. rewrite hashed_app. simpl. set_solver. }
    destruct (decide (a = b)) as [Eab|Hne].
    2: { right. exists a, b. split_and!; [apply Hw; tauto|apply Hv; tauto|done|done]. }
    apply frame_preimage_inj in Eab as (Ed & Ek & Eh); [|by apply roll_digest..].
    destruct (decide (sf_bytes f = sf_bytes h)) as [Eb|Hne].
    2: { right. exists (sf_bytes f), (sf_bytes h). split_and!; [apply Hw; tauto|apply Hv; tauto|done|done]. }
    destruct (IH k Hl Ed) as [->|(x & y & Hx & Hy & Hxy & Es)].
    + left. f_equal. f_equal. destruct f, h. simpl in *. congruence.
    + right. exists x, y. split_and!; [apply Hw; tauto|apply Hv; tauto|done|done].
Qed.

(** ** Typed checkpoints are bound by their identifier *)

Definition checkpoint_typed (c : SyncCheckpoint) : Prop :=
  hash_wire (sc_source c) /\ hash_wire (sc_room c) /\ hash_wire (sc_epoch c) /\
  u 64 (sc_records c) /\ u 64 (sc_bytes c) /\ hash_wire (sc_digest c).

Lemma be_inj n a b : a < 256 ^ N.of_nat n -> b < 256 ^ N.of_nat n -> be n a = be n b -> a = b.
Proof. intros Ha Hb E. apply (f_equal of_be) in E. by rewrite !of_be_be in E. Qed.

Lemma checkpoint_preimage_inj c d : checkpoint_typed c -> checkpoint_typed d ->
  checkpoint_preimage c = checkpoint_preimage d -> c = d.
Proof.
  intros ([_ C1] & [_ C2] & [_ C3] & C4 & C5 & _) ([_ D1] & [_ D2] & [_ D3] & D4 & D5 & _) E.
  unfold checkpoint_preimage in E. cbn [concat] in E. rewrite !app_nil_r in E. apply app_inv_head in E.
  apply app_inj_1 in E as [E1 E]; [|congruence]. apply app_inj_1 in E as [E2 E]; [|congruence].
  apply app_inj_1 in E as [E3 E]; [|congruence]. apply app_inj_1 in E as [E4 E]; [|by rewrite !be_length].
  apply app_inj_1 in E as [E5 E6]; [|by rewrite !be_length].
  apply be_inj in E4; [|done..]. apply be_inj in E5; [|done..]. destruct c, d. simpl in *. congruence.
Qed.
End Sync.

(** Every operation of direct sync exactly, and the receiver under any calls
    ([SyncRecords]). *)

Definition frame_bytes_ok (fs : list SyncFrame) : Prop := Forall (fun f => Forall byte (sf_bytes f)) fs.

Section Ops.
Context (sha256 : list N -> list N) `{Hed : Ed25519}.
Notation authentic_genesis g := (authentic sha256 (typed := genesis_typed) (pg_genesis g)).
Notation frames l := (record_frame <$> l).

(** ** A loop over frames *)

Lemma rolled_frame p r : pr_records (rolled sha256 p (record_frame r)) = pr_records p + 1 /\
  pr_bytes (rolled sha256 p (record_frame r)) = pr_bytes p + len (sync_encode r).
Proof. done. Qed.

Section Loop.
Context (r : Receiver).
Hypothesis Hg : authentic_genesis (rv_genesis r).
Hypothesis Hrecords : sc_records (rv_target r) <= MAX_SNAPSHOT_RECORDS.
Hypothesis Hbytes : sc_bytes (rv_target r) <= MAX_SNAPSHOT_BYTES.

Lemma page_step_Ok p l f q k : Forall byte (sf_bytes f) -> pr_records p + 1 <= sc_records (rv_target r) ->
  page_step sha256 r (p, l) f = Ok (q, k) <->
  exists x, f = record_frame x /\ scoped sha256 (rv_genesis r) (pr_records p + 1) x /\
    q = rolled sha256 p f /\ k = l ++ [x] /\ pr_bytes q <= sc_bytes (rv_target r).
Proof.
  intros Hb Hn. change MAX_SNAPSHOT_RECORDS with 1000000 in *. unfold page_step. plain_step. split.
  - intros (x & Hx & H)%res_bind_Ok. apply sync_verify_Ok in Hx as [Hx Ef]; [|done..].
    apply res_bind_Ok in H as (q' & (-> & _)%sync_advance_Ok & H).
    case_match eqn:El; [done|]. bool_to_prop. injection H as <- <-. by exists x.
  - intros (x & Ef & Hx & -> & -> & Hq). apply res_bind_Ok. exists x. split; [by apply sync_verify_Ok|].
    apply res_bind_Ok. exists (rolled sha256 p f). split.
    + apply sync_advance_Ok. change MAX_SNAPSHOT_RECORDS with 1000000. simpl in Hq. split; [done|]. lia.
    + by rewrite (proj2 (N.ltb_ge _ _)).
Qed.

Lemma page_step_total p l f : Forall byte (sf_bytes f) -> pr_records p + 1 <= sc_records (rv_target r) ->
  page_step sha256 r (p, l) f <> Panic.
Proof.
  intros Hb Hn. change MAX_SNAPSHOT_RECORDS with 1000000 in *. unfold page_step. plain_step.
  pose proof (sync_verify_total sha256 (rv_genesis r) (pr_records p + 1) f Hb) as Hv.
  destruct (sync_verify _ _ _ _); [|done..]. cbn [res_bind].
  pose proof (sync_advance_total sha256 p f). destruct (sync_advance _ _ _); [|done..]. cbn [res_bind]. by case_match.
Qed.

Lemma page_loop_Ok fs p l q k : frame_bytes_ok fs -> fs <> [] ->
  pr_records p + len fs <= sc_records (rv_target r) ->
  res_fold (page_step sha256 r) (p, l) fs = Ok (q, k) <->
  exists xs, fs = frames xs /\ scoped_from sha256 (rv_genesis r) (pr_records p + 1) xs /\
    q = roll sha256 p fs /\ k = l ++ xs /\ pr_bytes q <= sc_bytes (rv_target r).
Proof.
  revert p l. induction fs as [|f fs IH]; intros p l Hb Hne Hn; [done|]. apply Forall_cons in Hb as [Hf Hb].
  assert (Hlen : len (f :: fs) = 1 + len fs) by (unfold len; simpl; lia). rewrite Hlen in Hn. cbn [res_fold].
  rewrite res_bind_Ok. destruct fs as [|f2 fs].
  { simpl. split.
    - intros ([p1 l1] & Hs & [= <- <-]). apply page_step_Ok in Hs as (x & -> & Hx & -> & -> & Hq); [|done|lia].
      exists [x]. simpl. split_and!; done.
    - intros (xs & E & Hx & -> & -> & Hq). destruct xs as [|x [|? ?]]; [done| |done]. injection E as ->.
      destruct Hx as [Hx _]. eexists (_, _). split; [|done]. apply page_step_Ok; [done|lia|]. by exists x. }
  split.
  - intros ([p1 l1] & Hs & H). apply page_step_Ok in Hs as (x & -> & Hx & -> & -> & _); [|done|lia].
    apply IH in H as (xs & -> & Hxs & -> & -> & Hq); [|done|done|simpl; lia].
    exists (x :: xs). csimpl. split; [done|]. split; [by split|]. split; [done|]. split; [|done]. by rewrite <- app_assoc.
  - intros (xs & E & Hx & -> & -> & Hq). destruct xs as [|x xs]; [done|]. injection E as -> E. destruct Hx as [Hx Hxs].
    exists (rolled sha256 p (record_frame x), l ++ [x]). split.
    + apply page_step_Ok; [done|lia|]. exists x. split; [done|]. split; [done|]. split; [done|]. split; [done|].
      rewrite roll_bytes in Hq. change (total_bytes (record_frame x :: f2 :: fs)) with (len (sync_encode x) + total_bytes (f2 :: fs)) in Hq.
      simpl. lia.
    + apply IH; [done|done|simpl; lia|]. exists xs. rewrite <- app_assoc. split_and!; done.
Qed.

Lemma page_loop_total fs p l : frame_bytes_ok fs -> pr_records p + len fs <= sc_records (rv_target r) ->
  res_fold (page_step sha256 r) (p, l) fs <> Panic.
Proof.
  revert p l. induction fs as [|f fs IH]; intros p l Hb Hn; [done|]. apply Forall_cons in Hb as [Hf Hb].
  assert (Hlen : len (f :: fs) = 1 + len fs) by (unfold len; simpl; lia). rewrite Hlen in Hn. cbn [res_fold].
  pose proof (page_step_total p l f Hf ltac:(lia)) as Hp. destruct (page_step _ _ _ _) as [[p1 l1]| |] eqn:E; [|done..].
  cbn [res_bind]. apply page_step_Ok in E as (x & _ & _ & -> & _); [|done|lia]. apply IH; [done|]. simpl. lia.
Qed.
End Loop.

(** ** Pages *)

(** What [prepare_page] demands of a page that carries the records [xs]. *)
Record prepares (r : Receiver) (page : SyncPage) (xs : list SyncRecord) : Prop := {
  pp_id_matches : sp_checkpoint_id page = checkpoint_id sha256 (rv_target r);
  pp_size : 1 <= len xs <= MAX_PAGE_FRAMES;
  pp_frames : sp_frames page = frames xs;
  pp_scoped : scoped_from sha256 (rv_genesis r) (pr_records (rv_progress r) + 1) xs;
  pp_first : sp_first page = pr_records (rv_progress r) + 1;
  pp_last : sp_last page = pr_records (rv_progress r) + len xs;
  pp_within : sp_last page <= sc_records (rv_target r);
  pp_budget :
    pr_bytes (rv_progress r) + total_bytes (frames xs) + (sc_records (rv_target r) - sp_last page) * MIN_RECORD_BYTES
    <= sc_bytes (rv_target r);
  pp_terminal : sp_last page = sc_records (rv_target r) ->
    pr_bytes (roll sha256 (rv_progress r) (frames xs)) = sc_bytes (rv_target r) /\
    pr_digest (roll sha256 (rv_progress r) (frames xs)) = sc_digest (rv_target r);
}.

Definition prepared (r : Receiver) (xs : list SyncRecord) : PreparedPage :=
  mkPrepared (checkpoint_id sha256 (rv_target r)) (rv_progress r) (roll sha256 (rv_progress r) (frames xs)) xs.

(** A receiver of an accepted target, not past it. *)
Record receiver_ok (r : Receiver) : Prop := {
  ro_genesis : authentic_genesis (rv_genesis r);
  ro_target : checkpoint_ok (rv_genesis r) (rv_target r);
  ro_within : pr_records (rv_progress r) <= sc_records (rv_target r);
}.

Lemma len_frames (l : list SyncRecord) : len (frames l) = len l.
Proof. unfold len. by rewrite length_fmap. Qed.

Lemma prepare_page_cases r page : receiver_ok r -> frame_bytes_ok (sp_frames page) ->
  prepare_page sha256 r page <> Panic /\
  forall q, prepare_page sha256 r page = Ok q <-> exists xs, prepares r page xs /\ q = prepared r xs.
Proof.
  intros [Hg Ht Hw] Hb. pose proof (co_records _ _ Ht) as Hr. pose proof (co_bytes _ _ Ht) as Hby.
  change MAX_SNAPSHOT_RECORDS with 1000000 in *. change MAX_SNAPSHOT_BYTES with 8589934592 in *.
  unfold prepare_page. case_bool_decide as Eid; cbn [negb].
  2: { split; [done|]. intros q. split; [done|]. by intros (xs & [] & _). }
  destruct (_ || _) eqn:Es.
  { split; [done|]. intros q. split; [done|]. intros (xs & [_ Hsz Hf] & _). rewrite Hf, len_frames in Es.
    apply orb_true_iff in Es as [?|?]; bool_to_prop; lia. }
  bool_to_prop. change MAX_PAGE_FRAMES with 32 in *. unfold page_position. plain_step.
  destruct (N.eqb_spec (sp_first page) (pr_records (rv_progress r) + 1)) as [Ef|Ef]; cbn [negb res_bind].
  2: { split; [done|]. intros q. split; [done|]. by intros (xs & [] & _). }
  plain_step. unfold checked_add. rewrite Ef. rewrite (proj2 (N.ltb_lt _ _)) by lia. cbn [ok_or res_bind].
  replace (pr_records (rv_progress r) + 1 + (len (sp_frames page) - 1)) with (pr_records (rv_progress r) + len (sp_frames page)) by lia.
  destruct (N.eqb_spec (sp_last page) (pr_records (rv_progress r) + len (sp_frames page))) as [El|El]; cbn [negb orb].
  2: { split; [done|]. intros q. split; [done|]. intros (xs & Hp & _). destruct El.
       by rewrite (pp_last _ _ _ Hp), (pp_frames _ _ _ Hp), len_frames. }
  destruct (N.ltb_spec (sc_records (rv_target r)) (sp_last page)) as [Hl|Hl]; cbn [res_bind].
  { split; [done|]. intros q. split; [done|]. intros (xs & Hp & _). pose proof (pp_within _ _ _ Hp). lia. }
  assert (Hne : sp_frames page <> []) by (intros E; rewrite E in *; unfold len in *; simpl in *; lia).
  pose proof (page_loop_total r Hg (proj2 Hr) Hby (sp_frames page) (rv_progress r) [] Hb ltac:(lia)) as Htot.
  destruct (res_fold _ _ _) as [[next xs]|e|] eqn:Efold; cbn [res_bind]; [| |done].
  2: { split; [done|]. intros q. split; [done|]. intros (xs & Hp & _).
       assert (Hok : res_fold (page_step sha256 r) (rv_progress r, []) (sp_frames page)
         = Ok (roll sha256 (rv_progress r) (sp_frames page), [] ++ xs)); [|congruence].
       apply (page_loop_Ok r Hg (proj2 Hr) Hby); [done|done|lia|]. exists xs. pose proof (pp_budget _ _ _ Hp) as Hbu. change MIN_RECORD_BYTES with 209 in Hbu.
       rewrite (pp_frames _ _ _ Hp), roll_bytes. split_and!; try done; [apply Hp|lia]. }
  apply (page_loop_Ok r Hg (proj2 Hr) Hby) in Efold as (ys & Efr & Hsc & -> & -> & Hq); [|done|done|lia].
  cbn [app]. set (next := roll sha256 (rv_progress r) (sp_frames page)) in *.
  assert (En : pr_records next = sp_last page).
  { unfold next. rewrite roll_records. lia. }
  assert (Huniq : forall xs, prepares r page xs -> xs = ys).
  { intros xs [_ _ Ex Hs _ _ _ _ _]. apply (frames_of_inj sha256 (rv_genesis r) Hg (pr_records (rv_progress r) + 1)); [done..|congruence]. }
  rewrite En. destruct (_ && _) eqn:Et.
  { split; [done|]. intros q. split; [done|]. intros (xs & Hp & _). pose proof (Huniq xs Hp) as ->.
    apply andb_true_iff in Et as [Et1 Et2]. bool_to_prop. destruct (pp_terminal _ _ _ Hp Et1) as [T1 T2].
    rewrite <- Efr in T1, T2. fold next in T1, T2. apply orb_true_iff in Et2 as [E|E]; bool_to_prop; done. }
  change MIN_RECORD_BYTES with 209 in *. repeat plain_step. assert (Enb : pr_bytes next = pr_bytes (rv_progress r) + total_bytes (frames ys)).
  { unfold next. by rewrite roll_bytes, Efr. }
  destruct (N.ltb_spec (sc_bytes (rv_target r)) (pr_bytes next + (sc_records (rv_target r) - sp_last page) * 209)) as [Hbu|Hbu].
  { split; [done|]. intros q. split; [done|]. intros (xs & Hp & _). pose proof (Huniq xs Hp) as ->.
    pose proof (pp_budget _ _ _ Hp) as Hbu2. change MIN_RECORD_BYTES with 209 in Hbu2. lia. }
  split; [done|]. intros q. split.
  - intros [= <-]. exists ys. unfold prepared. rewrite <- Efr. split; [|done]. pose proof (len_frames ys) as Ely. rewrite <- Efr in Ely.
    split; try done; try (rewrite <- ?Ely; change MAX_PAGE_FRAMES with 32; lia).
    + rewrite <- Enb. exact Hbu.
    + rewrite <- Efr. fold next. intros Elast. apply andb_false_iff in Et as [Et|Et]; bool_to_prop; [done|]. done.
  - intros (xs & Hp & ->). rewrite (Huniq xs Hp). unfold prepared. by rewrite <- Efr.
Qed.

Lemma prepare_page_Ok r page q : receiver_ok r -> frame_bytes_ok (sp_frames page) ->
  prepare_page sha256 r page = Ok q <-> exists xs, prepares r page xs /\ q = prepared r xs.
Proof. intros Hr Hb. apply prepare_page_cases; done. Qed.

(** ** Committing and extending *)

Lemma coverage_complete r : coverage r = CoverageComplete <->
  pr_records (rv_progress r) = sc_records (rv_target r) /\ pr_bytes (rv_progress r) = sc_bytes (rv_target r) /\
  pr_digest (rv_progress r) = sc_digest (rv_target r).
Proof.
  unfold coverage. destruct (_ && _ && _) eqn:E.
  - bool_to_prop. by split.
  - split; [done|]. intros (E1 & E2 & E3). apply andb_false_iff in E as [E|E]; bool_to_prop; [|done].
    apply andb_false_iff in E as [E|E]; by bool_to_prop.
Qed.

Lemma commit_Ok q r c r' : commit_after_persist sha256 q r = (Ok c, r') <->
  py_checkpoint q = checkpoint_id sha256 (rv_target r) /\ py_base q = rv_progress r /\
  r' = mkReceiver (rv_genesis r) (rv_target r) (py_next q) /\ c = coverage r'.
Proof.
  unfold commit_after_persist, bind, get, modify, ret, throw.
  do 2 (case_bool_decide; cbn [negb orb]; [|by split; [|intros (? & ? & _)]]).
  split; [intros [= <- <-]; done|]. by intros (_ & _ & -> & ->).
Qed.

Lemma commit_rolls_back q : rolls_back (commit_after_persist sha256 q).
Proof.
  intros r. unfold commit_after_persist, bind, get, modify, ret, throw. by destruct (_ || _).
Qed.

Lemma commit_total q r : fst (commit_after_persist sha256 q r) <> Panic.
Proof. unfold commit_after_persist, bind, get, modify, ret, throw. by destruct (_ || _). Qed.

(** What [extend] demands of a new target, and does. *)
Definition extends (r : Receiver) (source : list N) (t : SyncCheckpoint) (r' : Receiver) : Prop :=
  let old := rv_target r in
  coverage r = CoverageComplete /\ source = sc_source old /\ sc_source t = sc_source old /\
  sc_room t = sc_room old /\ sc_epoch t = sc_epoch old /\
  ((t = old /\ r' = r) \/
   (sc_records old < sc_records t /\ sc_bytes old <= sc_bytes t /\ checkpoint_ok (rv_genesis r) t /\
    (sc_records t - sc_records old) * MIN_RECORD_BYTES <= sc_bytes t - sc_bytes old /\
    r' = mkReceiver (rv_genesis r) t (rv_progress r))).

Lemma receiver_extend_cases source t r : receiver_ok r ->
  (match receiver_extend source t r with (Panic, _) => False | (Err _, r') => r' = r | _ => True end) /\
  forall r', receiver_extend source t r = (Ok tt, r') <-> extends r source t r'.
Proof.
  intros [Hg Ht Hw]. unfold receiver_extend, extends, bind, get, modify, ret, throw, lift.
  case_bool_decide as Ec; cbn [negb]; [|by split; [|split; [|intros (? & _)]]].
  case_bool_decide; cbn [negb orb]; [|by split; [|split; [|intros (_ & ? & _)]]].
  case_bool_decide; cbn [negb orb]; [|by split; [|split; [|intros (_ & _ & ? & _)]]].
  case_bool_decide; cbn [negb]; [|by split; [|split; [|intros (_ & _ & _ & ? & _)]]].
  case_bool_decide; cbn [negb]; [|by split; [|split; [|intros (_ & _ & _ & _ & ? & _)]]].
  apply coverage_complete in Ec as Ec'. destruct Ec' as (Er & Eb & _).
  destruct (N.eqb_spec (sc_records t) (sc_records (rv_target r))) as [Et|Et].
  { case_bool_decide as E; split; try done.
    - intros r'. split; [intros [= <-]; naive_solver|]. intros (_ & _ & _ & _ & _ & [[_ ->]|[? _]]); [done|lia].
    - intros r'. split; [done|]. intros (_ & _ & _ & _ & _ & [[? _]|[? _]]); [done|lia]. }
  destruct (_ || _) eqn:Eo.
  { split; [done|]. intros r'. split; [done|]. intros (_ & _ & _ & _ & _ & [[-> _]|(? & ? & _)]); [done|].
    apply orb_true_iff in Eo as [?|?]; bool_to_prop; lia. }
  bool_to_prop. pose proof (checkpoint_check_cases sha256 (rv_genesis r) Hg t) as [Htot Hiff].
  destruct (checkpoint_check t (rv_genesis r)) as [[]|e|] eqn:Ek; [|split; [done|]|done].
  2: { intros r'. split; [done|]. intros (_ & _ & _ & _ & _ & [[-> _]|(_ & _ & Hok & _)]); [done|]. by apply Hiff in Hok. }
  pose proof (proj1 Hiff eq_refl) as Hok. pose proof (co_records _ _ Hok) as Hr. change MAX_SNAPSHOT_RECORDS with 1000000 in *.
  change MIN_RECORD_BYTES with 209. rewrite !plain_sub_ok by lia. rewrite plain_mul_ok by lia. rewrite Er, Eb.
  destruct (N.ltb_spec (sc_bytes t - sc_bytes (rv_target r)) ((sc_records t - sc_records (rv_target r)) * 209)).
  - split; [done|]. intros r'. split; [done|]. intros (_ & _ & _ & _ & _ & [[-> _]|(_ & _ & _ & ? & _)]); [done|lia].
  - split; [done|]. intros r'. split.
    + intros [= <-]. split_and!; try done. right. split_and!; try done. lia.
    + intros (_ & _ & _ & _ & _ & [[-> _]|(_ & _ & _ & _ & ->)]); done.
Qed.

(** ** The source *)

Definition with_progress (s : SourceAccumulator) (p : SyncProgress) : SourceAccumulator :=
  mkSource (sa_genesis s) (sa_source s) (sa_epoch s) p.
Definition within (p : SyncProgress) : Prop :=
  pr_records p <= MAX_SNAPSHOT_RECORDS /\ pr_bytes p <= MAX_SNAPSHOT_BYTES.

Lemma source_push_cases f s : authentic_genesis (sa_genesis s) -> Forall byte (sf_bytes f) ->
  (match source_push sha256 f s with (Panic, _) => False | (Err _, s') => s' = s | _ => True end) /\
  forall s', source_push sha256 f s = (Ok tt, s') <->
    exists x, f = record_frame x /\ scoped sha256 (sa_genesis s) (pr_records (sa_progress s) + 1) x /\
      within (rolled sha256 (sa_progress s) f) /\ s' = with_progress s (rolled sha256 (sa_progress s) f).
Proof.
  intros Hg Hb. unfold source_push, bind, get, modify, lift. set (p := sa_progress s).
  unfold checked_add. destruct (N.ltb_spec (pr_records p + 1) (2 ^ 64)) as [Hl|Hl]; cbn [ok_or].
  2: { split; [done|]. intros s'. split; [done|]. intros (x & _ & _ & [Hr _] & _). simpl in Hr. change MAX_SNAPSHOT_RECORDS with 1000000 in Hr. lia. }
  pose proof (sync_verify_total sha256 (sa_genesis s) (pr_records p + 1) f Hb) as Hv.
  destruct (sync_verify sha256 (sa_genesis s) (pr_records p + 1) f) as [x|e|] eqn:Ev; [| |done].
  2: { split; [done|]. intros s'. split; [done|]. intros (x & -> & Hx & _).
       rewrite (proj2 (sync_verify_Ok sha256 _ Hg _ _ x Hb)) in Ev; done. }
  apply sync_verify_Ok in Ev as [Hx ->]; [|done..]. pose proof (sync_advance_total sha256 p (record_frame x)) as Ha.
  destruct (sync_advance sha256 p (record_frame x)) as [q|e|] eqn:Ea; [| |done].
  - apply sync_advance_Ok in Ea as (-> & Hw). split; [done|]. intros s'. split.
    + intros [= <-]. by exists x.
    + by intros (y & _ & _ & _ & ->).
  - split; [done|]. intros s'. split; [done|]. intros (y & _ & _ & Hw & _).
    rewrite (proj2 (sync_advance_Ok sha256 p (record_frame x) (rolled sha256 p (record_frame x)))) in Ea; done.
Qed.

(** The source pushes its frames in order. *)
Definition source_pushes (fs : list SyncFrame) : eff SourceAccumulator SyncError unit := for_each (source_push sha256) fs.

Lemma source_pushes_Ok fs s s' : authentic_genesis (sa_genesis s) -> frame_bytes_ok fs -> within (sa_progress s) ->
  source_pushes fs s = (Ok tt, s') <->
  exists xs, fs = frames xs /\ scoped_from sha256 (sa_genesis s) (pr_records (sa_progress s) + 1) xs /\
    within (roll sha256 (sa_progress s) fs) /\ s' = with_progress s (roll sha256 (sa_progress s) fs).
Proof.
  revert s. induction fs as [|f fs IH]; intros s Hg Hb Hw.
  { simpl. split; [intros [= <-]; exists []; by destruct s|]. intros (xs & _ & _ & _ & ->). by destruct s. }
  apply Forall_cons in Hb as [Hf Hb]. unfold source_pushes, for_each. cbn [eff_fold]. rewrite bind_Ok.
  destruct (source_push_cases f s Hg Hf) as [_ Hpush]. split.
  - intros ([] & s1 & Hp & H). apply Hpush in Hp as (x & -> & Hx & Hw1 & ->).
    apply IH in H as (xs & -> & Hxs & Hw2 & ->); [|done..]. exists (x :: xs). by split_and!.
  - intros (xs & E & Hx & Hw2 & ->). destruct xs as [|x xs]; [done|]. injection E as -> ->. destruct Hx as [Hx Hxs].
    assert (Hw1 : within (rolled sha256 (sa_progress s) (record_frame x))).
    { destruct Hw2 as [H1 H2]. rewrite roll_records in H1. rewrite roll_bytes in H2.
      split; [unfold len in H1; simpl in *; lia|]. change (total_bytes (record_frame x :: frames xs))
        with (len (sf_bytes (record_frame x)) + total_bytes (frames xs)) in H2. simpl in *. lia. }
    exists tt, (with_progress s (rolled sha256 (sa_progress s) (record_frame x))). split; [apply Hpush; by exists x|].
    apply IH; [done..|]. by exists xs.
Qed.
End Ops.
