(* ===== verification/SyncMachine.v ===== *)
(** A receiver under any sequence of calls, with the pages it prepared and the
    records that were retained before progress was published; and an honest
    source that feeds one. *)
From Stdlib Require Import Ascii String.
From stdpp Require Import sets.
From S2P Require Import Prelude Utf8 Bytes Wire Signed DirectCodec DirectFacts.
From S2P Require Import SyncRecords SyncFacts SyncRuns.

(** [sw_kept] is what the caller retained; [commit_after_persist] consumes its
    token, a machine that keeps the tokens allows more. *)
Record SyncWorld : Type := mkSyncWorld {
  sw_receiver : Receiver; sw_tokens : list PreparedPage; sw_kept : list SyncRecord;
}.

Inductive SyncCall : Type :=
| CallPage (page : SyncPage)
| CallCommit (token : nat)
| CallExtend (authenticated_source : list N) (target : SyncCheckpoint).

Section Machine.
Context (sha256 : list N -> list N) `{Hed : Ed25519}.
Notation frames l := (record_frame <$> l).

Definition sync_step (w : SyncWorld) (c : SyncCall) : SyncWorld :=
  match c with
  | CallPage page =>
      match prepare_page sha256 (sw_receiver w) page with
      | Ok q => mkSyncWorld (sw_receiver w) (sw_tokens w ++ [q]) (sw_kept w)
      | _ => w
      end
  | CallCommit i =>
      match sw_tokens w !! i with
      | Some q =>
          match commit_after_persist sha256 q (sw_receiver w) with
          | (Ok _, r) => mkSyncWorld r (sw_tokens w) (sw_kept w ++ py_frames q)
          | (_, r) => mkSyncWorld r (sw_tokens w) (sw_kept w)
          end
      | None => w
      end
  | CallExtend source target =>
      mkSyncWorld (snd (receiver_extend source target (sw_receiver w))) (sw_tokens w) (sw_kept w)
  end.
Definition sync_run (calls : list SyncCall) (w : SyncWorld) : SyncWorld := foldl sync_step w calls.
Definition sync_start (r : Receiver) : SyncWorld := mkSyncWorld r [] [].

Definition call_bytes (c : SyncCall) : Prop :=
  match c with CallPage page => frame_bytes_ok (sp_frames page) | _ => True end.

Definition initial_of (t : SyncCheckpoint) : SyncProgress := sync_initial sha256 (sc_source t) (sc_room t) (sc_epoch t).

(** A prepared page carries verified records from its base on; one whose base
    is current stays within the target. *)
Record token_inv (r : Receiver) (q : PreparedPage) : Prop := {
  ti_some : 1 <= len (py_frames q) <= MAX_PAGE_FRAMES;
  ti_next : py_next q = roll sha256 (py_base q) (frames (py_frames q));
  ti_scoped : scoped_from sha256 (rv_genesis r) (pr_records (py_base q) + 1) (py_frames q);
  ti_past : pr_records (py_base q) <= pr_records (rv_progress r);
  ti_within : py_base q = rv_progress r -> pr_records (py_next q) <= sc_records (rv_target r);
}.

Record sync_inv (w : SyncWorld) : Prop := {
  si_receiver : receiver_ok sha256 (sw_receiver w);
  si_scoped : scoped_from sha256 (rv_genesis (sw_receiver w)) 1 (sw_kept w);
  si_progress : rv_progress (sw_receiver w) = roll sha256 (initial_of (rv_target (sw_receiver w))) (frames (sw_kept w));
  si_tokens : Forall (token_inv (sw_receiver w)) (sw_tokens w);
}.

Lemma kept_records w : sync_inv w -> pr_records (rv_progress (sw_receiver w)) = len (sw_kept w).
Proof. intros Hi. rewrite (si_progress _ Hi), roll_records, len_frames. simpl. lia. Qed.

Lemma prepared_token r page xs : receiver_ok sha256 r -> prepares sha256 r page xs -> token_inv r (prepared sha256 r xs).
Proof.
  intros Hr [_ Hs _ Hsc _ Hl Hw _ _]. split; simpl; [done|done|done|lia|].
  intros _. rewrite roll_records, len_frames. lia.
Qed.

Lemma commit_step w q r' c : sync_inv w -> q ∈ sw_tokens w ->
  commit_after_persist sha256 q (sw_receiver w) = (Ok c, r') ->
  sync_inv (mkSyncWorld r' (sw_tokens w) (sw_kept w ++ py_frames q)).
Proof.
  intros Hi Hq (_ & Hb & -> & _)%commit_Ok. pose proof (proj1 (Forall_forall _ _) (si_tokens _ Hi) q Hq) as [Hs Hn Hsc Hp Hw].
  destruct Hi as [[Hg Ht Hle] Hk Hpr Htk]. specialize (Hw Hb).
  assert (Hnext : pr_records (py_next q) = pr_records (rv_progress (sw_receiver w)) + len (py_frames q)).
  { rewrite Hn, roll_records, len_frames. by rewrite Hb. }
  split; simpl.
  - split; simpl; done.
  - apply scoped_from_app. split; [done|]. rewrite Hb, Hpr, roll_records, len_frames in Hsc. simpl in Hsc.
    by replace (1 + len (sw_kept w)) with (0 + len (sw_kept w) + 1) by lia.
  - unfold initial_of in *. simpl. by rewrite Hn, Hb, Hpr, fmap_app, roll_app.
  - eapply Forall_impl; [exact Htk|]. intros q' [Hs' Hn' Hsc' Hp' _]. split; simpl; [done|done|done|lia|].
    intros E. rewrite E in Hp'. lia.
Qed.

Lemma extend_step w source t r' : sync_inv w -> extends (sw_receiver w) source t r' ->
  sync_inv (mkSyncWorld r' (sw_tokens w) (sw_kept w)).
Proof.
  intros [Hr Hk Hpr Htk] (_ & _ & E1 & E2 & E3 & [[-> ->]|(Hlt & _ & Hok & _ & ->)]); [by split|].
  destruct Hr as [Hg Ht Hle]. split; simpl; [split; simpl; [done|done|lia]|done| |].
  - unfold initial_of. by rewrite E1, E2, E3.
  - eapply Forall_impl; [exact Htk|]. intros q [? ? ? ? Hw]. split; simpl; try done. intros E. specialize (Hw E). lia.
Qed.

(** What every step does. *)
Record grows (w w' : SyncWorld) : Prop := {
  gr_genesis : rv_genesis (sw_receiver w') = rv_genesis (sw_receiver w);
  gr_initial : sc_source (rv_target (sw_receiver w')) = sc_source (rv_target (sw_receiver w)) /\
    sc_room (rv_target (sw_receiver w')) = sc_room (rv_target (sw_receiver w)) /\
    sc_epoch (rv_target (sw_receiver w')) = sc_epoch (rv_target (sw_receiver w));
  gr_records : sc_records (rv_target (sw_receiver w)) <= sc_records (rv_target (sw_receiver w'));
  gr_kept : sw_kept w `prefix_of` sw_kept w';
}.

#[global] Instance grows_preorder : PreOrder grows.
Proof.
  split; [by split|]. intros a b c [A1 (A2 & A3 & A4) A5 A6] [B1 (B2 & B3 & B4) B5 B6].
  split; [congruence|split_and!; congruence|lia|by etrans].
Qed.

Lemma sync_step_inv w c : sync_inv w -> call_bytes c -> sync_inv (sync_step w c) /\ grows w (sync_step w c).
Proof.
  intros Hi Hc. destruct c as [page|i|source t]; simpl.
  - destruct (prepare_page sha256 (sw_receiver w) page) as [q| |] eqn:E; [|done..].
    apply prepare_page_Ok in E as (xs & Hp & ->); [|by destruct Hi|done]. split; [|by split].
    destruct Hi as [Hr Hk Hpr Htk]. split; [done..|]. simpl. apply Forall_app. split; [done|]. constructor; [|done].
    by eapply prepared_token.
  - destruct (sw_tokens w !! i) as [q|] eqn:Ei; [|done]. apply list_elem_of_lookup_2 in Ei.
    pose proof (commit_rolls_back sha256 q (sw_receiver w)) as Hrb.
    destruct (commit_after_persist sha256 q (sw_receiver w)) as [[c|e|] r'] eqn:E.
    + split; [by eapply commit_step|]. apply commit_Ok in E as (_ & _ & -> & _). split; try done. simpl. by apply prefix_app_r.
    + subst. by destruct w.
    + subst. by destruct w.
  - destruct (receiver_extend_cases sha256 source t (sw_receiver w)) as [Hrb Hok]; [by destruct Hi|].
    destruct (receiver_extend source t (sw_receiver w)) as [[[]|e|] r'] eqn:E; simpl.
    + pose proof (proj1 (Hok r') eq_refl) as Hx. split; [by eapply extend_step|].
      destruct Hx as (_ & _ & E1 & E2 & E3 & [[-> ->]|(Hlt & _ & _ & _ & ->)]); [by destruct w|].
      split; simpl; [done|done|lia|done].
    + subst. by destruct w.
    + done.
Qed.

Lemma sync_run_inv calls w : sync_inv w -> Forall call_bytes calls -> sync_inv (sync_run calls w) /\ grows w (sync_run calls w).
Proof.
  intros Hi Hc. revert w Hi. induction Hc as [|c calls Hc _ IH]; intros w Hi; [done|].
  destruct (sync_step_inv w c Hi Hc) as [Hi1 Hg1]. destruct (IH _ Hi1) as [Hi2 Hg2]. split; [done|]. by etrans.
Qed.

Lemma begin_Ok g expected authenticated t r : authentic sha256 (typed := genesis_typed) (pg_genesis g) ->
  receiver_begin sha256 g expected authenticated t = Ok r <->
  expected = authenticated /\ expected = sc_source t /\ checkpoint_ok g t /\ r = mkReceiver g t (initial_of t).
Proof.
  intros Hg. unfold receiver_begin. do 2 (case_bool_decide; cbn [negb orb]; [|by split; [|intros (? & ? & _)]]).
  pose proof (checkpoint_check_cases sha256 g Hg t) as [Htot Hiff]. destruct (checkpoint_check t g) as [[]|e|]; cbn [res_bind]; [|split; [done|]|done].
  - split; [intros [= <-]; split_and!; try done; by apply Hiff|]. by intros (_ & _ & _ & ->).
  - intros (_ & _ & Hok & _). by apply Hiff in Hok.
Qed.

Lemma begin_total g expected authenticated t : authentic sha256 (typed := genesis_typed) (pg_genesis g) ->
  receiver_begin sha256 g expected authenticated t <> Panic.
Proof.
  intros Hg. unfold receiver_begin. case_match; [done|]. pose proof (checkpoint_check_total sha256 g Hg t).
  by destruct (checkpoint_check t g).
Qed.

Lemma begin_inv g t : authentic sha256 (typed := genesis_typed) (pg_genesis g) -> checkpoint_ok g t ->
  sync_inv (sync_start (mkReceiver g t (initial_of t))).
Proof. intros Hg Ht. split; simpl; [|done|done|by constructor]. split; simpl; [done|done|]. lia. Qed.

(** ** An honest source *)

(** The checkpoint of a source with this progress. *)
Definition checkpoint_of (s : SourceAccumulator) : SyncCheckpoint :=
  mkSyncCheckpoint (sa_source s) (pinned_id (sa_genesis s)) (sa_epoch s)
    (pr_records (sa_progress s)) (pr_bytes (sa_progress s)) (pr_digest (sa_progress s)).

Lemma source_new_Ok source g epoch s : source_new sha256 source g epoch = Ok s <->
  source <> ZERO /\ epoch <> ZERO /\ s = mkSource g source epoch (sync_initial sha256 source (pinned_id g) epoch).
Proof.
  unfold source_new. do 2 (case_bool_decide; [by split; [|intros (? & ? & _)]|]).
  split; [intros [= <-]; done|]. by intros (_ & _ & ->).
Qed.

(** A source after it pushed the frames of [xs]. *)
Record sourced (g : PinnedGenesis) (source epoch : list N) (xs : list SyncRecord) (s : SourceAccumulator) : Prop := {
  sd_genesis : authentic sha256 (typed := genesis_typed) (pg_genesis g);
  sd_named : source <> ZERO /\ epoch <> ZERO;
  sd_scoped : scoped_from sha256 g 1 xs;
  sd_within : within (sa_progress s);
  sd_state : s = mkSource g source epoch (roll sha256 (sync_initial sha256 source (pinned_id g) epoch) (frames xs));
}.

Lemma sourced_new g source epoch s fs s' : authentic sha256 (typed := genesis_typed) (pg_genesis g) -> frame_bytes_ok fs ->
  source_new sha256 source g epoch = Ok s -> source_pushes sha256 fs s = (Ok tt, s') ->
  exists xs, fs = frames xs /\ sourced g source epoch xs s'.
Proof.
  intros Hg Hb (Hs & He & ->)%source_new_Ok (xs & -> & Hsc & Hw & ->)%source_pushes_Ok; try done.
  exists xs. split; [done|]. split; done.
Qed.

Lemma sourced_more g source epoch xs s fs s' : sourced g source epoch xs s -> frame_bytes_ok fs ->
  source_pushes sha256 fs s = (Ok tt, s') -> exists ys, fs = frames ys /\ sourced g source epoch (xs ++ ys) s'.
Proof.
  intros [Hg Hn Hsc Hw Hst] Hb H. apply source_pushes_Ok in H as (ys & -> & Hsc2 & Hw2 & ->); [|by subst..].
  exists ys. split; [done|]. subst s. simpl in *. rewrite roll_records, len_frames in Hsc2. simpl in Hsc2. split; [done..| |done|].
  - apply scoped_from_app. split; [done|]. by replace (1 + len xs) with (0 + len xs + 1) by lia.
  - unfold with_progress. simpl. by rewrite fmap_app, roll_app.
Qed.

Lemma sourced_checkpoint g source epoch xs s : sourced g source epoch xs s -> xs <> [] ->
  source_checkpoint s = Ok (checkpoint_of s) /\ checkpoint_ok g (checkpoint_of s) /\
  sc_records (checkpoint_of s) = len xs /\ sc_bytes (checkpoint_of s) = total_bytes (frames xs).
Proof.
  intros [Hg [Hs He] Hsc [Hr Hb] ->] Hne. cbn [sa_progress] in Hr, Hb. rewrite roll_records, len_frames in Hr. rewrite roll_bytes in Hb.
  simpl in Hr, Hb.
  destruct (snapshot_total sha256 g Hg xs Hsc Hne) as [H1 H2].
  assert (Hlen : 1 <= len xs) by (destruct xs; [done|unfold len; simpl; lia]).
  assert (Hok : checkpoint_ok g (checkpoint_of (mkSource g source epoch
    (roll sha256 (sync_initial sha256 source (pinned_id g) epoch) (frames xs))))).
  { split; simpl; rewrite ?roll_records, ?roll_bytes, ?len_frames; simpl; rewrite ?N.add_0_l; try done. }
  split; [|split; [done|]].
  - unfold source_checkpoint. cbn zeta. fold (checkpoint_of (mkSource g source epoch
      (roll sha256 (sync_initial sha256 source (pinned_id g) epoch) (frames xs)))). simpl sa_genesis.
    by rewrite (proj2 (checkpoint_check_Ok sha256 g Hg _) Hok).
  - simpl. rewrite roll_records, roll_bytes, len_frames. simpl. lia.
Qed.

(** The pages a source serves. *)
Definition serve (r : Receiver) (xs : list SyncRecord) : SyncPage :=
  mkSyncPage (checkpoint_id sha256 (rv_target r)) (pr_records (rv_progress r) + 1)
    (pr_records (rv_progress r) + len xs) (frames xs).

(** Prepare and commit every page in turn; the records retained on the way. *)
Fixpoint feed (pages : list (list SyncRecord)) (r : Receiver) : res SyncError (Receiver * list SyncRecord) :=
  match pages with
  | [] => Ok (r, [])
  | xs :: pages =>
      let? q := prepare_page sha256 r (serve r xs) in
      let? r := match commit_after_persist sha256 q r with (Ok _, r) => Ok r | (Err e, _) => Err e | (Panic, _) => Panic end in
      let? '(r, kept) := feed pages r in
      Ok (r, py_frames q ++ kept)
  end.

Definition page_sizes (pages : list (list SyncRecord)) : Prop := Forall (fun xs => 1 <= len xs <= MAX_PAGE_FRAMES) pages.

Lemma feed_complete g t done pages : authentic sha256 (typed := genesis_typed) (pg_genesis g) -> checkpoint_ok g t ->
  scoped_from sha256 g 1 (done ++ concat pages) -> page_sizes pages ->
  sc_records t = len (done ++ concat pages) -> sc_bytes t = total_bytes (frames (done ++ concat pages)) ->
  sc_digest t = pr_digest (roll sha256 (initial_of t) (frames (done ++ concat pages))) ->
  feed pages (mkReceiver g t (roll sha256 (initial_of t) (frames done))) =
    Ok (mkReceiver g t (roll sha256 (initial_of t) (frames (done ++ concat pages))), concat pages).
Proof.
  intros Hg Ht. revert done. induction pages as [|xs pages IH]; intros done Hsc Hsz Hn Hb Hd.
  { cbn [concat feed]. by rewrite app_nil_r. }
  apply Forall_cons in Hsz as [Hx Hsz]. set (r := mkReceiver g t (roll sha256 (initial_of t) (frames done))).
  cbn [concat] in *. rewrite app_assoc in *. 
  assert (Hlen : len ((done ++ xs) ++ concat pages) = len done + len xs + len (concat pages)) by (unfold len; rewrite !length_app; lia).
  apply scoped_from_app in Hsc as Hsc'. destruct Hsc' as [Hsc1 Hsc2]. apply scoped_from_app in Hsc1 as Hsc3. destruct Hsc3 as [Hsc3 Hsc4].
  assert (Hrec : pr_records (rv_progress r) = len done) by (simpl; rewrite roll_records, len_frames; simpl; lia).
  assert (Hby : pr_bytes (rv_progress r) = total_bytes (frames done)) by (simpl; rewrite roll_bytes; simpl; lia).
  assert (Hp : prepares sha256 r (serve r xs) xs).
  { split; cbn [serve sp_checkpoint_id sp_frames sp_first sp_last rv_target r]; try done.
    - rewrite Hrec. by replace (len done + 1) with (1 + len done) by lia.
    - rewrite Hrec, Hn, Hlen. lia.
    - rewrite Hrec, Hby, Hn, Hb, Hlen, !fmap_app, !total_bytes_app.
      pose proof (scoped_total sha256 g Hg _ _ Hsc2 ltac:(lia)) as [Htot _].
      specialize (Htot ltac:(unfold len in *; rewrite length_app; lia)). change MIN_RECORD_BYTES with 209 in *. lia.
    - rewrite Hrec, Hn, Hlen. intros E. assert (concat pages = []) as En.
      { destruct (concat pages); [done|]. unfold len in E. simpl in E. lia. }
      rewrite En, app_nil_r, fmap_app, roll_app in Hd. rewrite En, app_nil_r in Hb. rewrite roll_bytes, Hby, Hb, fmap_app, total_bytes_app.
      split; [lia|]. by rewrite Hd. }
  cbn [feed]. rewrite (proj2 (prepare_page_Ok sha256 r (serve r xs) (prepared sha256 r xs) ltac:(split; simpl; try done; simpl in Hrec; rewrite Hrec, Hn, Hlen; lia)
    (scoped_bytes sha256 g Hg _ _ Hsc4))) by eauto.
  cbn [res_bind]. rewrite (proj2 (commit_Ok sha256 (prepared sha256 r xs) r _ _)) by done. cbn [res_bind prepared py_next rv_genesis rv_target r].
  change (rv_progress r) with (roll sha256 (initial_of t) (frames done)). rewrite <- roll_app, <- fmap_app.
  rewrite (IH (done ++ xs)) by done. cbn [res_bind py_frames]. done.
Qed.

(** A receiver of an honest checkpoint that holds the records [done]. *)
Definition holding (g : PinnedGenesis) (c : SyncCheckpoint) (done : list SyncRecord) : Receiver :=
  mkReceiver g c (roll sha256 (initial_of c) (frames done)).

Lemma sourced_fields g source epoch xs s : sourced g source epoch xs s ->
  sc_source (checkpoint_of s) = source /\ sc_room (checkpoint_of s) = pinned_id g /\ sc_epoch (checkpoint_of s) = epoch /\
  initial_of (checkpoint_of s) = sync_initial sha256 source (pinned_id g) epoch /\
  sc_digest (checkpoint_of s) = pr_digest (roll sha256 (initial_of (checkpoint_of s)) (frames xs)).
Proof. by intros [_ _ _ _ ->]. Qed.

(** The rest of an honest snapshot completes it. *)
Lemma sourced_feed g source epoch done pages s : sourced g source epoch (done ++ concat pages) s ->
  done ++ concat pages <> [] -> page_sizes pages ->
  feed pages (holding g (checkpoint_of s) done) = Ok (holding g (checkpoint_of s) (done ++ concat pages), concat pages) /\
  coverage (holding g (checkpoint_of s) (done ++ concat pages)) = CoverageComplete /\
  receiver_finish (holding g (checkpoint_of s) (done ++ concat pages)) = Ok (checkpoint_of s).
Proof.
  intros Hso Hne Hsz. destruct (sourced_checkpoint _ _ _ _ _ Hso Hne) as (_ & Hok & Hr & Hb).
  destruct (sourced_fields _ _ _ _ _ Hso) as (_ & _ & _ & _ & Hd).
  assert (Hcov : coverage (holding g (checkpoint_of s) (done ++ concat pages)) = CoverageComplete).
  { apply coverage_complete. unfold holding. cbn [rv_progress rv_target]. rewrite roll_records, roll_bytes, len_frames. by split_and!. }
  split; [|split; [done|unfold receiver_finish; by rewrite Hcov]].
  unfold holding. by apply feed_complete; try apply Hso.
Qed.
End Machine.
