(* ===== verification/SyncClaims.v ===== *)
(** Properties of direct sync ([SyncRecords]). *)
From Stdlib Require Import Ascii String.
From stdpp Require Import sets.
From S2P Require Import Prelude Utf8 Bytes Wire Signed DirectCodec DirectFacts DirectRoom.
From S2P Require Import DirectFixture SyncRecords SyncFacts SyncRuns SyncMachine.

Notation frames l := (record_frame <$> l).

(** A receiver of the target it began with, after any calls. *)
Record synced (sha256 : list N -> list N) `{Hed : Ed25519} (g : PinnedGenesis) (target : SyncCheckpoint)
    (calls : list SyncCall) (w : SyncWorld) : Prop := {
  sy_genesis : authentic sha256 (typed := genesis_typed) (pg_genesis g);
  sy_begin : exists source r, receiver_begin sha256 g source source target = Ok r /\ w = sync_run sha256 calls (sync_start r);
  sy_calls : Forall call_bytes calls;
}.

Lemma synced_inv sha256 `{Hed : Ed25519} g target calls w : synced sha256 g target calls w ->
  sync_inv sha256 w /\ grows (sync_start (mkReceiver g target (initial_of sha256 target))) w.
Proof.
  intros [Hg (source & r & Hb & ->) Hc]. apply (begin_Ok sha256 g source source target r Hg) in Hb as (_ & _ & Ht & ->).
  apply sync_run_inv; [|done]. by apply begin_inv.
Qed.

(** A source that pushed these frames. *)
Definition published (sha256 : list N -> list N) `{Hed : Ed25519} (g : PinnedGenesis) (source epoch : list N)
    (fs : list SyncFrame) (s : SourceAccumulator) : Prop :=
  authentic sha256 (typed := genesis_typed) (pg_genesis g) /\ frame_bytes_ok fs /\
  exists s0, source_new sha256 source g epoch = Ok s0 /\ source_pushes sha256 fs s0 = (Ok tt, s).

Lemma published_sourced sha256 `{Hed : Ed25519} g source epoch fs s : published sha256 g source epoch fs s ->
  exists xs, fs = frames xs /\ sourced sha256 g source epoch xs s.
Proof. intros (Hg & Hb & s0 & Hn & Hp). by eapply sourced_new. Qed.

(** ** A toy snapshot *)

#[local] Existing Instance toy_ed25519.

Definition toy_pin : PinnedGenesis := mkPinned toy_genesis.
Definition toy_update_record : VerifiedPolicy := mkVerifiedRecord toy_update.
Definition toy_snapshot : list SyncRecord := [SyncGenesis toy_pin; SyncEvent toy_first; SyncPolicy toy_update_record].
Definition toy_source_name : list N := replicate 32 11.
Definition toy_epoch : list N := replicate 32 12.
Definition toy_accumulator : SourceAccumulator :=
  mkSource toy_pin toy_source_name toy_epoch
    (roll poly_hash (sync_initial poly_hash toy_source_name (pinned_id toy_pin) toy_epoch) (frames toy_snapshot)).
Definition toy_target : SyncCheckpoint := checkpoint_of toy_accumulator.

Lemma toy_update_authentic : authentic poly_hash (typed := policy_typed) toy_update_record.
Proof. split; [exact toy_update_ok|]. vm_compute. reflexivity. Qed.

Lemma toy_scoped : scoped_from poly_hash toy_pin 1 toy_snapshot.
Proof.
  split; [done|]. split.
  - split; [done|]. split; [exact toy_first_authentic|]. vm_compute. reflexivity.
  - split; [|done]. split; [done|]. split; [exact toy_update_authentic|]. split; vm_compute; reflexivity.
Qed.

Lemma toy_published : published poly_hash toy_pin toy_source_name toy_epoch (frames toy_snapshot) toy_accumulator.
Proof.
  split; [exact toy_genesis_authentic|]. split; [exact (scoped_bytes poly_hash toy_pin toy_genesis_authentic 1 _ toy_scoped)|].
  exists (mkSource toy_pin toy_source_name toy_epoch (sync_initial poly_hash toy_source_name (pinned_id toy_pin) toy_epoch)).
  split; [apply source_new_Ok; split_and!; done|].
  apply source_pushes_Ok; [exact toy_genesis_authentic|exact (scoped_bytes poly_hash toy_pin toy_genesis_authentic 1 _ toy_scoped)|done|].
  exists toy_snapshot. split; [done|]. split; [exact toy_scoped|]. split; [|done].
  split; apply N.leb_le; vm_compute; reflexivity.
Qed.

(** ** Agreement *)

(** C13. A receiver that reports a target complete has retained exactly the
    frames of the source that published it, in order, or the two sequences
    exhibit a collision of the hash; this after any calls with any pages, tokens
    and extensions, whoever sent them.  [finish] then returns the target. *)
Theorem snapshot_agreement (sha256 : list N -> list N) `{Hed : Ed25519} {Hsha : Sha256 sha256}
    g target calls w (H : synced sha256 g target calls w)
    g' source epoch fs s (Hs : published sha256 g' source epoch fs s)
    (Hc : source_checkpoint s = Ok (rv_target (sw_receiver w)))
    (Hcov : coverage (sw_receiver w) = CoverageComplete) :
  receiver_finish (sw_receiver w) = Ok (rv_target (sw_receiver w)) /\
  ((sync_encode <$> sw_kept w = sf_bytes <$> fs /\ frames (sw_kept w) = fs) \/
   snapshots_collide sha256 (initial_of sha256 (rv_target (sw_receiver w))) (frames (sw_kept w)) fs).
Proof.
  split; [unfold receiver_finish; by rewrite Hcov|].
  destruct (synced_inv _ _ _ _ _ H) as [Hi _]. pose proof (si_progress _ _ Hi) as Hp.
  apply published_sourced in Hs as (xs & -> & Hso).
  assert (Hck : rv_target (sw_receiver w) = checkpoint_of s).
  { unfold source_checkpoint in Hc. apply res_bind_Ok in Hc as ([] & _ & [= <-]). done. }
  destruct Hso as [_ _ _ _ ->]. apply coverage_complete in Hcov as (Er & _ & Ed).
  rewrite Hp, Hck in Er, Ed. simpl in Er, Ed. rewrite Hck. rewrite !roll_records, !len_frames in Er. simpl in Er.
  destruct (roll_inj sha256 (initial_of sha256 (checkpoint_of (mkSource g' source epoch
    (roll sha256 (sync_initial sha256 source (pinned_id g') epoch) (frames xs))))) (frames (sw_kept w)) (frames xs)) as [E|E].
  - exact (proj2 (sha256_wire (sha256 := sha256) _)).
  - rewrite !length_fmap. unfold len in Er. lia.
  - exact Ed.
  - left. split; [|done]. apply (f_equal (fmap sf_bytes)) in E. by rewrite <- !list_fmap_compose in *.
  - by right.
Qed.

(** The toy snapshot in two pages. *)
Definition toy_sync_pages : list (list SyncRecord) := [take 2 toy_snapshot; drop 2 toy_snapshot].
Definition toy_receiver : Receiver := mkReceiver toy_pin toy_target (initial_of poly_hash toy_target).
Definition toy_sync_calls : list SyncCall :=
  [CallPage (mkSyncPage (checkpoint_id poly_hash toy_target) 1 2 (frames (take 2 toy_snapshot))); CallCommit 0;
   CallPage (mkSyncPage (checkpoint_id poly_hash toy_target) 3 3 (frames (drop 2 toy_snapshot))); CallCommit 0; CallCommit 1].
Definition toy_sync_world : SyncWorld := sync_run poly_hash toy_sync_calls (sync_start toy_receiver).

Lemma toy_sourced : sourced poly_hash toy_pin toy_source_name toy_epoch toy_snapshot toy_accumulator.
Proof.
  split; [exact toy_genesis_authentic|done|exact toy_scoped| |reflexivity]. split; apply N.leb_le; vm_compute; reflexivity.
Qed.
Lemma toy_target_ok : source_checkpoint toy_accumulator = Ok toy_target /\ checkpoint_ok toy_pin toy_target.
Proof. destruct (sourced_checkpoint poly_hash _ _ _ _ _ toy_sourced) as (E & Hok & _); [done|]. split; [exact E|exact Hok]. Qed.
Lemma toy_begin : receiver_begin poly_hash toy_pin toy_source_name toy_source_name toy_target = Ok toy_receiver.
Proof.
  apply (begin_Ok poly_hash toy_pin toy_source_name toy_source_name toy_target toy_receiver toy_genesis_authentic). split; [reflexivity|]. split; [reflexivity|].
  split; [exact (proj2 toy_target_ok)|reflexivity].
Qed.
Lemma toy_frames_ok l : scoped_from poly_hash toy_pin 1 l -> frame_bytes_ok (frames l).
Proof. exact (scoped_bytes poly_hash toy_pin toy_genesis_authentic 1 l). Qed.

Lemma toy_synced : synced poly_hash toy_pin toy_target toy_sync_calls toy_sync_world.
Proof.
  split; [exact toy_genesis_authentic|exists toy_source_name, toy_receiver; split; [exact toy_begin|reflexivity]|].
  pose proof (toy_frames_ok _ toy_scoped) as Hb. unfold frame_bytes_ok in Hb. rewrite <- (take_drop 2 toy_snapshot), fmap_app in Hb.
  apply Forall_app in Hb as [Hb1 Hb2]. unfold toy_sync_calls.
  apply Forall_cons_2; [exact Hb1|]. apply Forall_cons_2; [exact I|]. apply Forall_cons_2; [exact Hb2|].
  apply Forall_cons_2; [exact I|]. apply Forall_cons_2; [exact I|]. apply Forall_nil_2.
Qed.

Lemma toy_sync_target : rv_target (sw_receiver toy_sync_world) = toy_target.
Proof. vm_compute. reflexivity. Qed.
Lemma toy_complete : coverage (sw_receiver toy_sync_world) = CoverageComplete.
Proof. vm_compute. reflexivity. Qed.
Lemma toy_finish_checkpoint : source_checkpoint toy_accumulator = Ok (rv_target (sw_receiver toy_sync_world)).
Proof. rewrite toy_sync_target. exact (proj1 toy_target_ok). Qed.

Lemma snapshot_agreement_witness :
  receiver_finish (sw_receiver toy_sync_world) = Ok (rv_target (sw_receiver toy_sync_world)).
Proof.
  exact (proj1 (snapshot_agreement poly_hash toy_pin toy_target toy_sync_calls toy_sync_world toy_synced
    toy_pin toy_source_name toy_epoch _ toy_accumulator toy_published toy_finish_checkpoint toy_complete)).
Defined.

(** ** Receiver *)

(** C23. After any calls the retained records are a snapshot prefix: the pinned
    genesis first, then policies of its owner and events of its room, all
    authentic; progress is their count, bytes and rolling digest and stays
    within the target.  A commit makes every token of its base stale, no token
    commits once the target is complete, and later calls keep what was retained,
    the source, the room and the epoch, and never lower the target. *)
Theorem receiver_sound (sha256 : list N -> list N) `{Hed : Ed25519} g target calls w (H : synced sha256 g target calls w) :
  let r := sw_receiver w in
  scoped_from sha256 g 1 (sw_kept w) /\
  rv_progress r = roll sha256 (initial_of sha256 target) (frames (sw_kept w)) /\
  pr_records (rv_progress r) = len (sw_kept w) /\ pr_bytes (rv_progress r) = total_bytes (frames (sw_kept w)) /\
  pr_records (rv_progress r) <= sc_records (rv_target r) /\ checkpoint_ok g (rv_target r) /\
  (forall i q c r', sw_tokens w !! i = Some q -> commit_after_persist sha256 q r = (Ok c, r') ->
     coverage r = CoveragePending /\
     forall q', py_base q' = py_base q -> commit_after_persist sha256 q' r' = (Err SStaleBase, r')) /\
  (forall more, Forall call_bytes more ->
     let w' := sync_run sha256 more w in
     sw_kept w `prefix_of` sw_kept w' /\ sc_records (rv_target r) <= sc_records (rv_target (sw_receiver w')) /\
     sc_source (rv_target (sw_receiver w')) = sc_source target /\ sc_room (rv_target (sw_receiver w')) = pinned_id g /\
     sc_epoch (rv_target (sw_receiver w')) = sc_epoch target).
Proof.
  destruct (synced_inv _ _ _ _ _ H) as [Hi [Eg (E1 & E2 & E3) _ _]]. simpl in Eg, E1, E2, E3. cbn zeta.
  pose proof (kept_records sha256 _ Hi) as Hk. pose proof Hi as [[Hg Ht Hle] Hsc Hp Htk]. rewrite Eg in Hsc, Ht.
  assert (Ei : initial_of sha256 (rv_target (sw_receiver w)) = initial_of sha256 target) by (unfold initial_of; congruence).
  rewrite Ei in Hp. split_and!; try done.
  - rewrite Hp, roll_bytes. simpl. lia.
  - intros i q c r' Hq (Eid & Eb & -> & _)%commit_Ok. apply list_elem_of_lookup_2 in Hq.
    pose proof (proj1 (Forall_forall _ _) Htk q Hq) as [Hs Hn _ _ Hw]. specialize (Hw Eb).
    assert (Hnext : pr_records (py_next q) = pr_records (py_base q) + len (py_frames q)) by (rewrite Hn, roll_records, len_frames; done).
    split.
    + destruct (coverage (sw_receiver w)) eqn:Ec; [done|]. apply coverage_complete in Ec as (Er & _). rewrite Eb in Hnext. lia.
    + intros q' Eq'. unfold commit_after_persist, bind, get. simpl.
      destruct (bool_decide_reflect (py_base q' = py_next q)) as [E|E].
      * rewrite <- E, Eq' in Hnext. lia.
      * by rewrite orb_true_r.
  - intros more Hm. destruct (sync_run_inv sha256 more w Hi Hm) as [[[_ Ht' _] _ _ _] [Eg' (F1 & F2 & F3) Hr Hpre]].
    split_and!; [done|done|congruence| |congruence]. rewrite (co_room _ _ Ht'). congruence.
Qed.

Lemma receiver_sound_witness :
  scoped_from poly_hash toy_pin 1 (sw_kept toy_sync_world) /\
  pr_records (rv_progress (sw_receiver toy_sync_world)) = len (sw_kept toy_sync_world).
Proof.
  destruct (receiver_sound poly_hash toy_pin toy_target toy_sync_calls toy_sync_world toy_synced) as (Hs & _ & Hk & _).
  split; [exact Hs|exact Hk].
Defined.

(** C24. Pages, frames and targets exactly: a page is prepared just when it names
    the target, continues progress with at most [MAX_PAGE_FRAMES] canonical
    frames of records that belong there, leaves room for the records still
    missing and, as the last one, closes the target; frames are accepted just
    when they are canonical frames of such records; a token commits just when
    its target and base are current; a target is replaced just by a later one
    of a complete source.  Refusals change nothing, nothing panics, and a page
    that names another typed checkpoint exhibits a collision. *)
Theorem sync_exact (sha256 : list N -> list N) `{Hed : Ed25519} g target calls w (H : synced sha256 g target calls w) :
  let r := sw_receiver w in
  (forall page, frame_bytes_ok (sp_frames page) ->
     prepare_page sha256 r page <> Panic /\
     forall q, prepare_page sha256 r page = Ok q <-> exists xs, prepares sha256 r page xs /\ q = prepared sha256 r xs) /\
  (forall page q, frame_bytes_ok (sp_frames page) -> prepare_page sha256 r page = Ok q ->
     page_first q = Ok (sp_first page) /\ page_last q = sp_last page) /\
  (forall page q t, frame_bytes_ok (sp_frames page) -> prepare_page sha256 r page = Ok q ->
     sp_checkpoint_id page = checkpoint_id sha256 t -> checkpoint_typed t -> checkpoint_typed (rv_target r) ->
     t = rv_target r \/
     (checkpoint_preimage t <> checkpoint_preimage (rv_target r) /\
      sha256 (checkpoint_preimage t) = sha256 (checkpoint_preimage (rv_target r)))) /\
  (forall n f, Forall byte (sf_bytes f) ->
     sync_verify sha256 g n f <> Panic /\
     forall x, sync_verify sha256 g n f = Ok x <-> scoped sha256 g n x /\ f = record_frame x) /\
  (forall q, match commit_after_persist sha256 q r with
     | (Ok c, r') => py_checkpoint q = checkpoint_id sha256 (rv_target r) /\ py_base q = rv_progress r /\
         r' = mkReceiver (rv_genesis r) (rv_target r) (py_next q) /\ c = coverage r'
     | (Err e, r') => e = SStaleBase /\ r' = r /\
         (py_checkpoint q <> checkpoint_id sha256 (rv_target r) \/ py_base q <> rv_progress r)
     | (Panic, _) => False
     end) /\
  (forall source t, match receiver_extend source t r with (Panic, _) => False | (Err _, r') => r' = r | _ => True end) /\
  (forall source t r', receiver_extend source t r = (Ok tt, r') <-> extends r source t r').
Proof.
  destruct (synced_inv _ _ _ _ _ H) as [Hi [Eg _ _ _]]. simpl in Eg. cbn zeta. pose proof (si_receiver _ _ Hi) as Hr.
  assert (Hg : authentic sha256 (typed := genesis_typed) (pg_genesis g)) by apply H. split_and!.
  - intros page. by apply prepare_page_cases.
  - intros page q Hb (xs & [_ _ _ _ Hf Hl Hw _ _] & ->)%prepare_page_Ok; [|done..]. unfold page_first, page_last, prepared. simpl.
    rewrite roll_records, len_frames. pose proof (co_records _ _ (ro_target _ _ Hr)). change MAX_SNAPSHOT_RECORDS with 1000000 in *.
    destruct Hr as [_ _ Hle]. rewrite plain_add_ok by lia. by rewrite Hf, Hl.
  - intros page q t Hb (xs & Hp & _)%prepare_page_Ok E Ht Ht2; [|done..]. rewrite (pp_id_matches _ _ _ _ Hp) in E. unfold checkpoint_id in E.
    destruct (decide (checkpoint_preimage t = checkpoint_preimage (rv_target (sw_receiver w)))) as [Ec|Ec]; [|by right].
    left. by apply checkpoint_preimage_inj.
  - intros n f Hb. split; [by apply sync_verify_total|]. intros x. by apply sync_verify_Ok.
  - intros q. pose proof (commit_rolls_back sha256 q (sw_receiver w)) as Hrb. pose proof (commit_total sha256 q (sw_receiver w)) as Htot.
    destruct (commit_after_persist sha256 q (sw_receiver w)) as [[c|e|] r'] eqn:E; [by apply commit_Ok| |done].
    subst r'. unfold commit_after_persist, bind, get, modify, ret, throw in E.
    case_bool_decide; cbn [negb orb] in E; [|injection E as <-; tauto].
    case_bool_decide; cbn [negb orb] in E; [done|injection E as <-; tauto].
  - intros source t. exact (proj1 (receiver_extend_cases sha256 source t _ Hr)).
  - intros source t. exact (proj2 (receiver_extend_cases sha256 source t _ Hr)).
Qed.

Lemma sync_exact_witness : sync_verify poly_hash toy_pin 2 (record_frame (SyncEvent toy_first)) = Ok (SyncEvent toy_first).
Proof.
  destruct (sync_exact poly_hash toy_pin toy_target toy_sync_calls toy_sync_world toy_synced) as (_ & _ & _ & Hv & _).
  apply Hv; [exact (proj2 (event_frame poly_hash toy_first toy_first_authentic))|]. split; [exact (proj1 (proj2 toy_scoped))|reflexivity].
Defined.

(** A later checkpoint of the same source is accepted. *)
Lemma extend_honest sha256 `{Hed : Ed25519} g source epoch xs ys s s2 :
  sourced sha256 g source epoch xs s -> sourced sha256 g source epoch (xs ++ ys) s2 -> xs <> [] -> ys <> [] ->
  coverage (holding sha256 g (checkpoint_of s) xs) = CoverageComplete ->
  receiver_extend source (checkpoint_of s2) (holding sha256 g (checkpoint_of s) xs) =
    (Ok tt, holding sha256 g (checkpoint_of s2) xs).
Proof.
  intros Hso Hso2 Hx Hy Hcov. destruct (sourced_checkpoint sha256 _ _ _ _ _ Hso Hx) as (_ & Hok & Hr & Hb).
  destruct (sourced_checkpoint sha256 _ _ _ _ _ Hso2) as (_ & Hok2 & Hr2 & Hb2); [by intros [? _]%app_nil|].
  destruct (sourced_fields sha256 _ _ _ _ _ Hso) as (F1 & F2 & F3 & F4 & _).
  destruct (sourced_fields sha256 _ _ _ _ _ Hso2) as (G1 & G2 & G3 & G4 & _). rewrite <- F4 in G4.
  pose proof (sd_genesis _ _ _ _ _ _ Hso) as Hg. pose proof (sd_scoped _ _ _ _ _ _ Hso2) as [_ Hsc]%scoped_from_app.
  apply (receiver_extend_cases sha256 source).
  { split; [done|done|]. unfold holding. cbn [rv_progress rv_target]. rewrite roll_records, len_frames, Hr. done. }
  assert (Hx1 : 1 <= len xs) by (destruct xs; [done|unfold len; simpl; lia]).
  assert (Hy1 : 1 <= len ys) by (destruct ys; [done|unfold len; simpl; lia]).
  destruct (scoped_total sha256 g Hg _ _ Hsc ltac:(lia)) as [Htot _]. specialize (Htot ltac:(lia)).
  rewrite fmap_app, total_bytes_app in Hb2. assert (Hlen : len (xs ++ ys) = len xs + len ys) by (unfold len; rewrite length_app; lia).
  unfold extends. cbn [holding rv_target]. rewrite F1, F2, F3, G1, G2, G3. do 5 (split; [done|]). right.
  change MIN_RECORD_BYTES with 209 in *. rewrite Hr, Hb, Hr2, Hb2, Hlen. split; [lia|]. split; [lia|]. split; [done|]. split; [lia|].
  unfold holding. by rewrite G4.
Qed.

(** C15. Honest progress: a source that pushed frames has a checkpoint, a receiver
    of it begins, and the source's pages, of any sizes up to the bound, are all
    prepared and committed and leave the target complete with every record
    retained; when the source pushed more, the receiver extends to its new
    checkpoint and the pages of the new frames complete that one. *)
Theorem snapshot_completes (sha256 : list N -> list N) `{Hed : Ed25519} g source epoch fs s (Hs : published sha256 g source epoch fs s)
    (Hne : fs <> []) :
  exists c xs, source_checkpoint s = Ok c /\ fs = frames xs /\ scoped_from sha256 g 1 xs /\
    receiver_begin sha256 g source source c = Ok (mkReceiver g c (initial_of sha256 c)) /\
    forall pages, concat pages = xs -> page_sizes pages ->
      exists r, feed sha256 pages (mkReceiver g c (initial_of sha256 c)) = Ok (r, xs) /\
        coverage r = CoverageComplete /\ receiver_finish r = Ok c /\
        forall fs2 s2, frame_bytes_ok fs2 -> fs2 <> [] -> source_pushes sha256 fs2 s = (Ok tt, s2) ->
          exists c2 ys r2, source_checkpoint s2 = Ok c2 /\ fs2 = frames ys /\
            receiver_extend source c2 r = (Ok tt, r2) /\
            forall pages2, concat pages2 = ys -> page_sizes pages2 ->
              exists r3, feed sha256 pages2 r2 = Ok (r3, ys) /\ receiver_finish r3 = Ok c2.
Proof.
  apply published_sourced in Hs as (xs & -> & Hso). assert (Hx : xs <> []) by (by intros ->).
  destruct (sourced_checkpoint sha256 _ _ _ _ _ Hso Hx) as (Hck & Hok & Hr & Hb). pose proof (sd_genesis _ _ _ _ _ _ Hso) as Hg.
  destruct (sourced_fields sha256 _ _ _ _ _ Hso) as (F1 & F2 & F3 & F4 & _).
  exists (checkpoint_of s), xs. split; [done|]. split; [done|]. split; [by apply Hso|].
  split; [by apply (begin_Ok sha256 g source source _ _ Hg)|]. intros pages <- Hsz.
  destruct (sourced_feed sha256 g source epoch [] pages s Hso Hx Hsz) as (Hfeed & Hcov & Hfin). cbn [app] in *.
  exists (holding sha256 g (checkpoint_of s) (concat pages)). split; [exact Hfeed|]. split; [done|]. split; [done|].
  intros fs2 s2 Hb2 Hne2 Hp2. destruct (sourced_more sha256 _ _ _ _ _ _ _ Hso Hb2 Hp2) as (ys & -> & Hso2).
  assert (Hy : ys <> []) by (by intros ->). assert (Hxy : concat pages ++ ys <> []) by (by intros [? _]%app_nil).
  destruct (sourced_checkpoint sha256 _ _ _ _ _ Hso2 Hxy) as (Hck2 & Hok2 & Hr2 & Hb2').
  destruct (sourced_fields sha256 _ _ _ _ _ Hso2) as (G1 & G2 & G3 & G4 & _). rewrite <- F4 in G4.
  exists (checkpoint_of s2), ys, (holding sha256 g (checkpoint_of s2) (concat pages)).
  split; [done|]. split; [done|]. split; [by eapply extend_honest|]. intros pages2 <- Hsz2.
  destruct (sourced_feed sha256 g source epoch (concat pages) pages2 s2 Hso2 Hxy Hsz2) as (Hfeed2 & _ & Hfin2).
  by exists (holding sha256 g (checkpoint_of s2) (concat pages ++ concat pages2)).
Qed.

Lemma snapshot_completes_witness : exists r, feed poly_hash toy_sync_pages toy_receiver = Ok (r, toy_snapshot) /\ receiver_finish r = Ok toy_target.
Proof.
  destruct (snapshot_completes poly_hash toy_pin toy_source_name toy_epoch _ toy_accumulator toy_published) as (c & xs & Hc & Hx & Hsc & _ & Hf).
  { discriminate. }
  rewrite (proj1 toy_target_ok) in Hc. apply (frames_of_inj poly_hash toy_pin toy_genesis_authentic 1) in Hx; [|exact toy_scoped|exact Hsc].
  subst xs. assert (E : c = toy_target) by congruence. subst c.
  destruct (Hf toy_sync_pages) as (r & Hr & _ & Hfin & _); [reflexivity|repeat constructor; discriminate|].
  exists r. split; [exact Hr|exact Hfin].
Defined.
