(* ===== verification/RelayItem.v ===== *)
(** Items and wire formats of the private relay
    (src/crates/vhalla-private-relay/src/{lib,codec}.rs). *)
From Stdlib Require Import Ascii String.
From S2P Require Import Prelude Bytes Wire Signed Utf8.

(** Items of the private relay (src/crates/vhalla-private-relay/src/lib.rs):
    kinds, opaque namespaces, items with their commitment, and their canonical
    codec.  What an item is made of comes from src/crates/vhalla-private-kernel/src
    (operation identifiers, committed outbox artifacts and controls). *)

Definition ITEM_MAGIC : list N := bytes_of "VHPRELAY" ++ [1].
Definition ITEM_DIGEST_DOMAIN : list N := bytes_of "vhalla/private/relay-item/v1".
Definition CONTROL_DOMAIN : list N := bytes_of "vhalla/private/relay-control-operation/v1" ++ [0].
Definition MAX_RELAY_PAYLOAD : N := 2 * 128 * 1024 + 4096.
Definition MAX_RELAY_PAGE : N := 64.
Definition MAX_RELAY_ITEMS : N := 4096.

(** ** From the kernel *)

Inductive OutboxKind : Type :=
| ContactOffer | ContactRequest | ContactInvitation | KeyPackage | OutboxInvitation
| Application | Removal | OwnerUpdate | Succession.
#[global] Instance OutboxKind_eq_dec : EqDecision OutboxKind. Proof. solve_decision. Defined.

(** The newtype of 16 bytes; every caller here drops the error. *)
Definition OperationId : Type := list N.
Definition OperationId_from_bytes (bytes : list N) : option OperationId :=
  if bool_decide (bytes = replicate 16 0) then None else Some bytes.

Record CommittedOutbox : Type := mkOutbox {
  ob_sequence : N; ob_operation : OperationId; ob_kind : OutboxKind; ob_bytes : list N;
}.

(** [floor().sequence()] and [bytes()] of a committed control. *)
Record CommittedEncryptedControl : Type := mkControl { cc_sequence : N; cc_bytes : list N }.

(** ** Items *)

Inductive RelayKind : Type := RelayOutbox (kind : OutboxKind) | RelayControl.
#[global] Instance RelayKind_eq_dec : EqDecision RelayKind. Proof. solve_decision. Defined.

Inductive RelayError : Type :=
| RelayBounds | RelayScope | RelayConflict | RelayConfidential | RelayCapacity | RelayStorage.

Definition RelayNamespace : Type := list N.
Definition namespace_from_bytes (bytes : list N) : res RelayError RelayNamespace :=
  if bool_decide (bytes = replicate 32 0) then Err RelayBounds else Ok bytes.

Record RelayReceipt : Type := mkRelayReceipt { rr_position : N; rr_digest : list N; rr_duplicate : bool }.

Record RelayItem : Type := mkItem {
  ri_namespace : RelayNamespace; ri_sequence : N; ri_operation : OperationId; ri_kind : RelayKind;
  ri_payload : list N; ri_digest : list N;
}.
#[global] Instance RelayItem_eq_dec : EqDecision RelayItem. Proof. solve_decision. Defined.

Record PositionedItem : Type := mkPositioned { po_position : N; po_item : RelayItem }.
Record RelayPage : Type := mkRelayPage { rp_head : N; rp_next : option N; rp_records : list PositionedItem }.

Definition relay_kind (kind : RelayKind) : bool :=
  match kind with
  | RelayControl => true
  | RelayOutbox (ContactRequest | ContactInvitation | Application | Removal | OwnerUpdate | Succession) => true
  | RelayOutbox _ => false
  end.

Definition kind_byte (kind : RelayKind) : N :=
  match kind with
  | RelayControl => 9
  | RelayOutbox ContactOffer => 0
  | RelayOutbox ContactRequest => 1
  | RelayOutbox ContactInvitation => 2
  | RelayOutbox KeyPackage => 3
  | RelayOutbox OutboxInvitation => 4
  | RelayOutbox Application => 5
  | RelayOutbox Removal => 6
  | RelayOutbox OwnerUpdate => 7
  | RelayOutbox Succession => 8
  end.

Definition kind_from_byte (byte : N) : res RelayError RelayKind :=
  if byte =? 9 then Ok RelayControl
  else
    let? kind :=
      match byte with
      | 1 => Ok ContactRequest
      | 2 => Ok ContactInvitation
      | 3 => Ok KeyPackage
      | 4 => Ok OutboxInvitation
      | 5 => Ok Application
      | 6 => Ok Removal
      | 7 => Ok OwnerUpdate
      | 8 => Ok Succession
      | _ => Err RelayConfidential
      end in
    Ok (RelayOutbox kind).

(** The commitment's input. *)
Definition item_preimage (namespace : RelayNamespace) (sequence : N) (operation : OperationId) (kind : RelayKind)
    (payload : list N) : list N :=
  ITEM_DIGEST_DOMAIN ++ namespace ++ be 8 sequence ++ operation ++ [kind_byte kind] ++ payload.

Section Items.
Context (sha256 : list N -> list N).

Definition item_digest (namespace : RelayNamespace) (sequence : N) (operation : OperationId) (kind : RelayKind)
    (payload : list N) : list N :=
  sha256 (item_preimage namespace sequence operation kind payload).

Definition RelayItem_new (namespace : RelayNamespace) (sequence : N) (operation : OperationId) (kind : RelayKind)
    (payload : list N) : res RelayError RelayItem :=
  if (sequence =? 0) || negb (relay_kind kind) || (len payload =? 0) || (MAX_RELAY_PAYLOAD <? len payload)
  then Err (if relay_kind kind then RelayBounds else RelayConfidential)
  else Ok (mkItem namespace sequence operation kind payload (item_digest namespace sequence operation kind payload)).

Definition from_control (namespace : RelayNamespace) (control : CommittedEncryptedControl) : res RelayError RelayItem :=
  let digest := sha256 (CONTROL_DOMAIN ++ cc_bytes control) in
  let? prefix := sub_slice digest 0 16 in
  let? operation := ok_or (OperationId_from_bytes prefix) RelayBounds in
  RelayItem_new namespace (cc_sequence control) operation RelayControl (cc_bytes control).

Definition from_artifact (namespace : RelayNamespace) (artifact : CommittedOutbox) : res RelayError RelayItem :=
  if negb (relay_kind (RelayOutbox (ob_kind artifact))) then Err RelayConfidential
  else RelayItem_new namespace (ob_sequence artifact) (ob_operation artifact) (RelayOutbox (ob_kind artifact)) (ob_bytes artifact).

(** [u32::try_from] *)
Definition u32_try_from {E} (n : N) (e : E) : res E N := if n <? 2 ^ 32 then Ok n else Err e.

Definition put_item (item : RelayItem) : Writer -> Writer :=
  w_bytes ITEM_MAGIC >> w_bytes (ri_namespace item) >> w_u64 (ri_sequence item) >> w_bytes (ri_operation item)
  >> w_u8 (kind_byte (ri_kind item)) >> w_u32 (len (ri_payload item)) >> w_bytes (ri_payload item)
  >> w_bytes (ri_digest item).
Definition encode_item (item : RelayItem) : res RelayError (list N) :=
  let? _ := u32_try_from (len (ri_payload item)) RelayBounds in
  Ok (written (put_item item)).

(** ** Decoding *)

Definition r_namespace : reads RelayError RelayNamespace :=
  let! bytes := r_slice 32 RelayBounds in lift (namespace_from_bytes bytes).
Definition r_operation : reads RelayError OperationId :=
  let! bytes := r_slice 16 RelayBounds in lift (ok_or (OperationId_from_bytes bytes) RelayBounds).
Definition r_kind : reads RelayError RelayKind :=
  let! byte := r_byte RelayBounds in lift (kind_from_byte byte).

(** The payload and the digest, which must end the input. *)
Definition get_item_tail (namespace : RelayNamespace) (sequence : N) (operation : OperationId) (kind : RelayKind)
    (length : N) : reads RelayError RelayItem :=
  if (length =? 0) || (MAX_RELAY_PAYLOAD <? length) then throw RelayBounds
  else
    let! r := get in
    let! last := lift (ok_or (match checked_add 64 (N.of_nat (pos r)) length with
                              | Some n => checked_add 64 n 32 | None => None end) RelayBounds) in
    if negb (last =? len (raw r)) then throw RelayBounds
    else
      let! payload := lift (sub_slice (raw r) (pos r) (pos r + N.to_nat length)) in
      do! modify (fun r => mkReader (raw r) (pos r + N.to_nat length)) in
      let! expected := r_slice 32 RelayBounds in
      let! item := lift (RelayItem_new namespace sequence operation kind payload) in
      if negb (bool_decide (ri_digest item = expected)) then throw RelayConflict else ret item.

Definition get_item : reads RelayError RelayItem :=
  let! namespace := r_namespace in
  let! sequence := r_int 8 RelayBounds in
  let! operation := r_operation in
  let! kind := r_kind in
  let! length := r_int 4 RelayBounds in
  get_item_tail namespace sequence operation kind length.

Definition ITEM_HEADER : N := len ITEM_MAGIC + 32 + 8 + 16 + 1 + 4.

Definition decode_item (bytes : list N) : res RelayError RelayItem :=
  if (len bytes <? ITEM_HEADER + 32) || negb (bool_decide (take (length ITEM_MAGIC) bytes = ITEM_MAGIC)) then Err RelayBounds
  else fst (get_item (mkReader bytes (length ITEM_MAGIC))).
End Items.

(** Framing of the private relay (src/crates/vhalla-private-relay/src/codec.rs):
    statuses, frames, receipts, page requests and pages. *)

Inductive NetError : Type :=
| NetConnect | NetTimeout | NetDenied | NetConflict | NetCapacity | NetBounds | NetScope | NetMalformed | NetUnavailable.

Definition MAX_ITEM_BYTES : N := len ITEM_MAGIC + 32 + 8 + 16 + 1 + 4 + MAX_RELAY_PAYLOAD + 32.
Definition MAX_PUT_BODY : N := 32 + len ITEM_MAGIC + 32 + 8 + 16 + 1 + 4 + MAX_RELAY_PAYLOAD + 32.
Definition MAX_REQUEST : N := 1 + MAX_PUT_BODY.
Definition MAX_PAGE_BODY : N := 4 * 1024 * 1024.
Definition MAX_RESPONSE : N := 1 + MAX_PAGE_BODY.
Definition OP_PUT : N := 1.
Definition OP_PAGE : N := 2.
Definition STATUS_OK : N := 0.
Definition STATUS_CONFLICT : N := 2.
Definition STATUS_CAPACITY : N := 3.
Definition STATUS_BOUNDS : N := 4.
Definition STATUS_SCOPE : N := 5.
Definition STATUS_DENIED : N := 6.
Definition STATUS_UNAVAILABLE : N := 7.

Definition relay_status (e : RelayError) : N :=
  match e with
  | RelayConflict => STATUS_CONFLICT
  | RelayCapacity => STATUS_CAPACITY
  | RelayScope => STATUS_SCOPE
  | RelayStorage => STATUS_UNAVAILABLE
  | RelayBounds | RelayConfidential => STATUS_BOUNDS
  end.

Definition decode_status (code : N) (body : list N) : res NetError (list N) :=
  if negb (code =? STATUS_OK) && negb (len body =? 0) then Err NetMalformed
  else if code =? STATUS_OK then Ok body
  else if code =? STATUS_CONFLICT then Err NetConflict
  else if code =? STATUS_CAPACITY then Err NetCapacity
  else if code =? STATUS_BOUNDS then Err NetBounds
  else if code =? STATUS_SCOPE then Err NetScope
  else if code =? STATUS_DENIED then Err NetDenied
  else if code =? STATUS_UNAVAILABLE then Err NetUnavailable
  else Err NetMalformed.

(** [expect] of a length that does not fit is a panic. *)
Definition relay_frame (op : N) (body : list N) : res NetError (list N) :=
  let length := 1 + len body in
  if length <? 2 ^ 32 then Ok (be 4 length ++ [op] ++ body) else Panic.

Definition decode_relay_frame (bytes : list N) (max : N) : res NetError (N * list N) :=
  if (len bytes <? 5) || (saturating_add 64 max 4 <? len bytes) then Err NetMalformed
  else
    let? length := sub_int bytes 0 4 in
    if (length =? 0) || negb (length =? len bytes - 4) then Err NetMalformed
    else
      let? op := index bytes 4 in
      Ok (op, drop 5 bytes).

(** ** Receipts and requests *)

Definition encode_relay_receipt (r : RelayReceipt) : list N :=
  be 8 (rr_position r) ++ rr_digest r ++ [N.b2n (rr_duplicate r)].

Definition decode_receipt (body : list N) (item : RelayItem) : res NetError RelayReceipt :=
  if negb (len body =? 41) then Err NetMalformed
  else
    let? position := sub_int body 0 8 in
    let? digest := sub_slice body 8 40 in
    let? duplicate := index body 40 in
    if (position =? 0) || negb (bool_decide (digest = ri_digest item)) || (1 <? duplicate) then Err NetMalformed
    else Ok (mkRelayReceipt position digest (negb (duplicate =? 0))).

Definition limit_ok (limit : N) : bool := in_range 1 MAX_RELAY_PAGE limit.

Definition page_request (after limit : N) : res NetError (list N) :=
  if negb (limit_ok limit) then Err NetBounds else Ok (be 8 after ++ be 2 (wrap 16 limit)).

(** [wait] is [Duration::as_millis]. *)
Definition page_wait_request (after limit wait : N) : res NetError (list N) :=
  if 2 ^ 16 <=? wait then Err NetBounds
  else let? request := page_request after limit in Ok (request ++ be 2 wait).

(** ** Pages *)

(** The loop over the records; it returns the last position. *)
Fixpoint follow_records (head previous : N) (records : list PositionedItem) : res NetError N :=
  match records with
  | [] => Ok previous
  | record :: records =>
      if negb (bool_decide (Some (po_position record) = checked_add 64 previous 1)) || (head <? po_position record)
      then Err NetMalformed
      else follow_records head (po_position record) records
  end.

Definition validate_page (page : RelayPage) (after limit : N) : res NetError unit :=
  if (limit =? 0) || (MAX_RELAY_PAGE <? limit) || (limit <? len (rp_records page)) then Err NetMalformed
  else if rp_head page <? after then
    if (len (rp_records page) =? 0) && bool_decide (rp_next page = None) then Ok tt else Err NetMalformed
  else
    let? previous := follow_records (rp_head page) after (rp_records page) in
    if ((previous <? rp_head page) && ((len (rp_records page) =? 0) || negb (bool_decide (rp_next page = Some previous))))
       || ((previous =? rp_head page) && negb (bool_decide (rp_next page = None)))
    then Err NetMalformed
    else Ok tt.

(** The loop of [encode_page], with its early [break]. *)
Fixpoint page_items (records : list PositionedItem) (count : N) (items : list N) : res NetError (N * list N * bool) :=
  match records with
  | [] => Ok (count, items, false)
  | record :: records =>
      let? encoded := map_err (fun _ => NetUnavailable) (encode_item (po_item record)) in
      if (MAX_PAGE_BODY <? 11 + len items + 12 + len encoded) && (0 <? count) then Ok (count, items, true)
      else
        match checked_add 16 count 1 with
        | None => Panic
        | Some count =>
            page_items records count
              (items ++ be 8 (po_position record) ++ be 4 (wrap 32 (len encoded)) ++ encoded)
        end
  end.

Definition encode_page (page : RelayPage) : res NetError (list N) :=
  if MAX_RELAY_PAGE <? len (rp_records page) then Err NetBounds
  else
    let? '(count, items, truncated) := page_items (rp_records page) 0 [] in
    let more := truncated || bool_decide (rp_next page <> None) in
    Ok (be 8 (rp_head page) ++ [N.b2n more] ++ be 2 count ++ items).

Section Decode.
Context (sha256 : list N -> list N).

(** The body of the loop of [decode_page], from [cursor]. *)
Definition page_record (cursor : N) (body : list N) : res NetError (PositionedItem * N) :=
  let? last := ok_or (checked_add 64 cursor 8) NetMalformed in
  if len body <? last then Err NetMalformed
  else
    let? position := sub_int body (N.to_nat cursor) 8 in
    if position =? 0 then Err NetMalformed
    else
      let cursor := last in
      let? last := ok_or (checked_add 64 cursor 4) NetMalformed in
      if len body <? last then Err NetMalformed
      else
        let? length := sub_int body (N.to_nat cursor) 4 in
        let cursor := last in
        let? last := ok_or (checked_add 64 cursor length) NetMalformed in
        if len body <? last then Err NetMalformed
        else
          let? encoded := sub_slice body (N.to_nat cursor) (N.to_nat last) in
          let? item := map_err (fun _ => NetMalformed) (decode_item sha256 encoded) in
          Ok (mkPositioned position item, last).

Fixpoint page_records (count : nat) (cursor : N) (body : list N) : res NetError (list PositionedItem * N) :=
  match count with
  | O => Ok ([], cursor)
  | S count =>
      let? '(record, cursor) := page_record cursor body in
      let? '(records, cursor) := page_records count cursor body in
      Ok (record :: records, cursor)
  end.

(** [zip] with [skip(1)]: neighbours in order. *)
Fixpoint positions_ascend (records : list PositionedItem) : bool :=
  match records with
  | a :: (b :: _) as records => (po_position a <? po_position b) && positions_ascend records
  | _ => true
  end.

Definition decode_page (body : list N) (after limit : N) : res NetError RelayPage :=
  if (len body <? 11) || (MAX_PAGE_BODY <? len body) || negb (limit_ok limit) then Err NetMalformed
  else
    let? head := sub_int body 0 8 in
    let? flag := index body 8 in
    let? more := match flag with 0 => Ok false | 1 => Ok true | _ => Err NetMalformed end in
    let? count := sub_int body 9 2 in
    if limit <? count then Err NetMalformed
    else
      let? '(records, cursor) := page_records (N.to_nat count) 11 body in
      if negb (cursor =? len body) || (more && (len records =? 0)) || negb (positions_ascend records) then Err NetMalformed
      else
        let? next :=
          if more then let? record := match last records with Some r => Ok r | None => Panic end in Ok (Some (po_position record))
          else Ok None in
        let page := mkRelayPage head next records in
        let? _ := validate_page page after limit in
        Ok page.
End Decode.
