(* ===== verification/RelayFacts.v ===== *)
(** The codec law of relay items and of their frames ([RelayItem],
    [RelayItem]). *)
From Stdlib Require Import Ascii String.
From S2P Require Import Prelude Utf8 Bytes PrefixFree Wire Signed Layout RelayItem.

Lemma ok_or_total {E A} (o : option A) (e : E) : ok_or o e <> Panic.
Proof. by destruct o. Qed.

(** ** Parts of an item *)

Definition namespace_wire (n : list N) : Prop := hash_wire n /\ n <> replicate 32 0.
Definition operation_wire (o : list N) : Prop := (Forall byte o /\ length o = 16%nat) /\ o <> replicate 16 0.

#[export] Instance codec_namespace : Codec namespace_wire w_bytes r_namespace.
Proof.
  unfold r_namespace, namespace_from_bytes. apply codec_intro; [apply _|by intros a [[? _] _]| | |].
  - apply safe_bind. intros a. apply safe_lift. by case_match.
  - intros r k a r' Hr E H. inv_reads H Hr E. unfold lift in H. case_bool_decide; [done|]. injection H as -> <-.
    split; [done|]. by eexists _, _.
  - intros r k a Hr [Ha Hz] E. fwd_read E; [|done]. unfold lift. by rewrite bool_decide_false.
Qed.

#[export] Instance codec_slice16 {Er} (e : Er) : Codec (fun l => Forall byte l /\ length l = 16%nat) w_bytes (r_slice 16 e).
Proof. apply codec_slice. lia. Qed.

#[export] Instance codec_operation : Codec operation_wire w_bytes r_operation.
Proof.
  unfold r_operation, OperationId_from_bytes. apply codec_intro; [apply _|by intros a [[? _] _]| | |].
  - apply safe_bind. intros a. apply safe_lift. by case_match.
  - intros r k a r' Hr E H. inv_reads H Hr E. unfold lift in H. case_bool_decide; [done|]. injection H as -> <-.
    split; [done|]. by eexists _, _.
  - intros r k a Hr [Ha Hz] E. fwd_read E; [|done]. unfold lift. by rewrite bool_decide_false.
Qed.

(** Tag 0 is written for no relayed kind and never read. *)
Lemma kind_from_byte_iff b k : kind_from_byte b = Ok k <-> k <> RelayOutbox ContactOffer /\ b = kind_byte k.
Proof.
  unfold kind_from_byte. destruct (N.eqb_spec b 9) as [->|Hb].
  - split; [by intros [= <-]|]. intros [_ E]. by destruct k as [[]|].
  - split.
    + intros (o & H & [= <-])%res_bind_Ok. repeat (case_match; try done); by injection H as <-.
    + intros [Ho ->]. by destruct k as [[]|].
Qed.

Lemma kind_from_byte_total b : kind_from_byte b <> Panic.
Proof. unfold kind_from_byte. destruct (b =? 9); [done|]. by repeat case_match. Qed.

#[export] Instance codec_kind : Codec (fun k => k <> RelayOutbox ContactOffer) (fun k => w_u8 (kind_byte k)) r_kind.
Proof.
  unfold r_kind. apply codec_intro; [apply _|intros k _; apply bytes_u8; by destruct k as [[]|]| | |].
  - apply safe_bind. intros b. apply safe_lift, kind_from_byte_total.
  - intros r k a r' Hr E H. inv_reads H Hr E. unfold lift in H. injection H as H <-.
    apply kind_from_byte_iff in H as [Hk ->]. split; [done|]. by eexists _, _.
  - intros r k a Hr Ha E. fwd_read E; [|by destruct a as [[]|]]. unfold lift. by rewrite (proj2 (kind_from_byte_iff _ a)).
Qed.

(** ** Items *)

Section Items.
Context (sha256 : list N -> list N) {Hsha : Sha256 sha256}.

Record item_ok (i : RelayItem) : Prop := {
  io_namespace : namespace_wire (ri_namespace i);
  io_sequence : 1 <= ri_sequence i /\ u 64 (ri_sequence i);
  io_operation : operation_wire (ri_operation i);
  io_kind : relay_kind (ri_kind i) = true;
  io_payload : Forall byte (ri_payload i);
  io_size : 1 <= len (ri_payload i) <= MAX_RELAY_PAYLOAD;
  io_digest : ri_digest i =
    item_digest sha256 (ri_namespace i) (ri_sequence i) (ri_operation i) (ri_kind i) (ri_payload i);
}.

Lemma RelayItem_new_Ok n s o k p i : RelayItem_new sha256 n s o k p = Ok i <->
  (1 <= s /\ relay_kind k = true /\ 1 <= len p <= MAX_RELAY_PAYLOAD) /\
  i = mkItem n s o k p (item_digest sha256 n s o k p).
Proof.
  unfold RelayItem_new. destruct (_ || _) eqn:E.
  - split; [done|]. intros [(Hs & Hk & Hp) _]. apply orb_true_iff in E as [[[E|E]%orb_true_iff|E]%orb_true_iff|E];
      try rewrite Hk in E; bool_to_prop; try done; lia.
  - bool_to_prop. split; [intros [= <-]; split; [split_and!; [lia|done|lia..]|done]|]. by intros [_ ->].
Qed.

Lemma RelayItem_new_total n s o k p : RelayItem_new sha256 n s o k p <> Panic.
Proof. unfold RelayItem_new. by case_match. Qed.

Lemma length_item i : item_ok i -> len (written (put_item i)) = ITEM_HEADER + len (ri_payload i) + 32.
Proof.
  intros [[[_ Hn] _] _ [[_ Ho] _] _ _ _ Hd]. unfold put_item. split_written. unfold len. rewrite !length_app.
  autorewrite with written_length. rewrite Hn, Ho, Hd. unfold item_digest.
  rewrite (proj2 (sha256_wire (sha256 := sha256) _)). change (length ITEM_MAGIC) with 9%nat. change ITEM_HEADER with 70. lia.
Qed.

Lemma item_bytes i : item_ok i -> Forall byte (written (put_item i)).
Proof.
  intros [[[Hn _] _] _ [[Ho _] _] _ Hp _ Hd]. unfold put_item. split_written. rewrite !Forall_app. split_and!.
  - by apply (bool_decide_unpack _).
  - done.
  - apply bytes_u64.
  - done.
  - apply bytes_u8. by destruct (ri_kind i) as [[]|].
  - apply bytes_u32.
  - done.
  - rewrite Hd. apply (sha256_wire (sha256 := sha256)).
Qed.

Lemma encode_item_Ok i : item_ok i -> encode_item i = Ok (written (put_item i)).
Proof.
  intros Hi. pose proof (io_size _ Hi) as Hs. change MAX_RELAY_PAYLOAD with 266240 in Hs.
  unfold encode_item, u32_try_from. by rewrite (proj2 (N.ltb_lt _ _)) by lia.
Qed.

(** The payload and the digest are what is left of the input. *)
Lemma item_tail_Ok n s o k l r i r' : reader_ok r -> len (raw r) < 2 ^ 64 -> (pos r <= length (raw r))%nat ->
  get_item_tail sha256 n s o k l r = (Ok i, r') <->
  exists p, rest r = p ++ ri_digest i /\ len p = l /\ RelayItem_new sha256 n s o k p = Ok i /\ r' = advance (p ++ ri_digest i) r.
Proof.
  intros Hr Hlen Hpos. assert (Hrest : length (rest r) = (length (raw r) - pos r)%nat) by (unfold rest; apply length_drop).
  unfold get_item_tail. split.
  - destruct (_ || _) eqn:El; [done|]. rewrite bind_Ok. intros (r0 & s0 & [= <- <-] & H).
    apply bind_lift_Ok in H as (e & He & H). destruct (N.eqb_spec e (len (raw r))) as [->|]; [|done]. cbn [negb] in H.
    apply bind_lift_Ok in H as (p & Hp & H). rewrite bind_Ok in H. destruct H as (? & r1 & [= <- <-] & H).
    assert (Hend : (pos r + N.to_nat l + 32 = length (raw r))%nat).
    { unfold checked_add in He. destruct (N.of_nat (pos r) + l <? 2 ^ 64); [|done].
      destruct (_ <? 2 ^ 64); [|done]. injection He as He. unfold len in He. lia. }
    unfold sub_slice in Hp. rewrite slice_eq in Hp by lia. fold (rest r) in Hp. injection Hp as <-.
    replace (pos r + N.to_nat l - pos r)%nat with (N.to_nat l) in * by lia. set (p := take (N.to_nat l) (rest r)) in *.
    rewrite bind_Ok in H. destruct H as (d & r2 & Hd & H). apply r_slice_iff in Hd as (Hdl & k' & Ek & ->); [|by right; lia].
    apply bind_lift_Ok in H as (i' & Hi & H). case_bool_decide as Edi; [|done]. unfold ret in H. injection H as <- <-. subst d.
    assert (Hp : rest r = p ++ drop (N.to_nat l) (rest r)) by (unfold p; by rewrite take_drop).
    assert (Hlp : length p = N.to_nat l) by (unfold p; rewrite length_take; lia).
    unfold rest in Ek. cbn [raw pos] in Ek. rewrite <- drop_drop in Ek. fold (rest r) in Ek.
    assert (k' = []) as ->.
    { apply (f_equal length) in Ek. rewrite length_app, length_drop in Ek. destruct k'; [done|simpl in Ek; lia]. }
    rewrite app_nil_r in Ek. exists p. rewrite <- Ek. split; [done|]. split; [unfold len; lia|]. split; [done|].
    rewrite Ek. unfold advance. cbn [raw pos]. f_equal. rewrite length_app, Hlp. lia.
  - intros (p & E & <- & Hi & ->). apply RelayItem_new_Ok in Hi as Hi'. destruct Hi' as [(Hs & Hk & Hp) Ei].
    assert (Hd : length (ri_digest i) = 32%nat) by (subst i; apply (sha256_wire (sha256 := sha256))).
    assert (Hend : (pos r + length p + 32 = length (raw r))%nat) by (rewrite E, length_app in Hrest; lia).
    rewrite (proj2 (N.eqb_neq _ _)) by lia. rewrite (proj2 (N.ltb_ge _ _)) by lia. cbn [orb].
    rewrite bind_Ok. exists r, r. split; [done|]. apply bind_lift_Ok. exists (len (raw r)). split.
    { unfold checked_add, len in *. rewrite (proj2 (N.ltb_lt _ _)) by lia. rewrite (proj2 (N.ltb_lt _ _)) by lia. cbn [ok_or]. f_equal. lia. }
    rewrite N.eqb_refl. cbn [negb]. replace (N.to_nat (len p)) with (length p) by (unfold len; lia).
    apply bind_lift_Ok. exists p. split.
    { unfold sub_slice. rewrite slice_eq by lia. replace (pos r + length p - pos r)%nat with (length p) by lia.
      fold (rest r). by rewrite E, take_app_length. }
    rewrite bind_Ok. exists tt, (advance p r). split; [done|]. rewrite bind_Ok. exists (ri_digest i), (advance (p ++ ri_digest i) r).
    split.
    { rewrite <- advance_app. apply r_slice_iff; [by right; lia|]. split; [done|]. exists []. rewrite app_nil_r. split; [|done].
      by apply (rest_advance r p). }
    apply bind_lift_Ok. exists i. split; [done|]. by rewrite bool_decide_true.
Qed.

Lemma item_tail_total n s o k l r : reader_ok r -> fst (get_item_tail sha256 n s o k l r) <> Panic.
Proof.
  intros Hr. unfold get_item_tail. destruct (_ || _); [done|]. unfold bind at 1, get. unfold bind at 1, lift.
  destruct (ok_or _ _) as [e| |] eqn:E; [|done|by apply ok_or_total in E].
  destruct (N.eqb_spec e (len (raw r))) as [->|]; [|done]. cbn [negb].
  assert (Hend : (pos r + N.to_nat l + 32 = length (raw r))%nat).
  { unfold checked_add in E. destruct (N.of_nat (pos r) + l <? 2 ^ 64); [|done].
    destruct (_ <? 2 ^ 64); [|done]. injection E as E. unfold len in E. lia. }
  unfold bind at 1, lift, sub_slice. rewrite slice_eq by lia. unfold bind at 1, modify. unfold bind at 1.
  pose proof (r_slice_total 32 RelayBounds (mkReader (raw r) (pos r + N.to_nat l))) as Hs.
  destruct (r_slice _ _ _) as [[d|e|] r1]; [|done..]. unfold bind, lift.
  destruct (RelayItem_new _ _ _ _ _ _) as [i|e|] eqn:Ei; [by destruct (negb _)|done|by apply RelayItem_new_total in Ei].
Qed.

(** Where the header of an item leaves the reader. *)
Definition item_header (i : RelayItem) : Writer -> Writer :=
  w_bytes (ri_namespace i) >> w_u64 (ri_sequence i) >> w_bytes (ri_operation i)
  >> w_u8 (kind_byte (ri_kind i)) >> w_u32 (len (ri_payload i)).

Lemma put_item_split i : written (put_item i) = ITEM_MAGIC ++ written (item_header i) ++ ri_payload i ++ ri_digest i.
Proof. unfold put_item, item_header. split_written. by rewrite <- !app_assoc. Qed.

(** [decode] accepts exactly the canonical encodings of admissible items. *)
Lemma decode_item_iff bytes i : Forall byte bytes -> len bytes < 2 ^ 64 ->
  decode_item sha256 bytes = Ok i <-> item_ok i /\ bytes = written (put_item i).
Proof.
  intros Hb Hlen. unfold decode_item. change (length ITEM_MAGIC) with 9%nat. change (ITEM_HEADER + 32) with 102. split.
  - destruct (_ || _) eqn:E; [done|]. bool_to_prop.
    match goal with X : take 9 bytes = _ |- _ => rename X into Hmagic end. intros Hdec.
    set (r := mkReader bytes 9) in *. assert (Hr : reader_ok r) by done.
    destruct (get_item sha256 r) as [res r'] eqn:Eg. simpl in Hdec. subst res. rewrite <- (advance_nil r) in Eg.
    assert (Er : rest r = [] ++ rest r) by done. unfold get_item in Eg. inv_reads Eg Hr Er.
    set (W := (((([] ++ written (w_bytes a)) ++ written (w_u64 a0)) ++ written (w_bytes a1)) ++
         written (w_u8 (kind_byte a2))) ++ written (w_u32 a3)) in *.
    apply item_tail_Ok in Eg as (p & Ep & Ea & Hi & _); [|done|done|].
    2: { apply (rest_in_bounds W r k3 Er). by intros [_ ?]%app_nil. }
    rewrite (rest_advance _ _ _ Er) in Ep. apply RelayItem_new_Ok in Hi as [(Hs & Hk & Hp) ->]. cbn [ri_digest] in Ep.
    assert (Hbytes : bytes = ITEM_MAGIC ++ rest r) by (change (rest r) with (drop 9 bytes); by rewrite <- Hmagic, take_drop).
    rewrite Er, Ep in Hbytes. assert (Hpb : Forall byte p).
    { rewrite Hbytes in Hb. apply Forall_app in Hb as [_ [_ [Hb _]%Forall_app]%Forall_app]. done. }
    split; [split; simpl; done|]. rewrite Hbytes, put_item_split. unfold item_header, W. cbn [ri_namespace ri_sequence ri_operation ri_kind ri_payload ri_digest].
    split_written. rewrite Ea, <- !app_assoc. done.
  - intros [Hi ->]. pose proof (length_item i Hi) as Hl. change ITEM_HEADER with 70 in Hl. pose proof (io_size _ Hi) as Hsz.
    rewrite (proj2 (N.ltb_ge _ _)) by lia. rewrite put_item_split in *.
    rewrite (take_app_length' ITEM_MAGIC) by done. rewrite bool_decide_true by done. cbn [orb negb].
    set (r := mkReader (ITEM_MAGIC ++ written (item_header i) ++ ri_payload i ++ ri_digest i) 9). assert (Hr : reader_ok r) by done.
    assert (Er : rest r = [] ++ written (item_header i) ++ ri_payload i ++ ri_digest i) by done.
    enough (exists r', get_item sha256 r = (Ok i, r')) as [r' ->] by done. rewrite <- (advance_nil r). unfold get_item.
    unfold item_header in Er. split_written. rewrite <- !app_assoc in Er.
    destruct Hi as [Hns [Hs1 Hs2] Hop Hk Hpb Hps Hd]. change MAX_RELAY_PAYLOAD with 266240 in Hps.
    do 5 (erewrite fwd_step; [|done|rewrite Er, <- ?app_assoc; cbn [app]; reflexivity|]; [|first [done|unfold u; lia|by intros Ek; rewrite Ek in Hk]]).
    eexists. apply item_tail_Ok; [done|done| |].
    + eapply (rest_in_bounds _ r); [rewrite Er, <- !app_assoc; reflexivity|by intros [_ ?]%app_nil].
    + exists (ri_payload i). split; [|split; [done|split; [|reflexivity]]].
      * apply rest_advance. rewrite Er, <- !app_assoc. done.
      * apply RelayItem_new_Ok. split; [done|]. rewrite <- Hd. by destruct i.
Qed.

Lemma decode_item_total bytes : Forall byte bytes -> decode_item sha256 bytes <> Panic.
Proof.
  intros Hb. unfold decode_item. destruct (_ || _); [done|]. unfold get_item.
  assert (Hs : Safe (let! namespace := r_namespace in let! sequence := r_int 8 RelayBounds in
    let! operation := r_operation in let! kind := r_kind in let! length := r_int 4 RelayBounds in
    get_item_tail sha256 namespace sequence operation kind length)); [|by apply Hs].
  do 5 (apply safe_bind; intros ?). intros r Hr. by apply item_tail_total.
Qed.

(** ** Commitments *)

Definition item_collision (i j : RelayItem) : Prop :=
  let p k := item_preimage (ri_namespace k) (ri_sequence k) (ri_operation k) (ri_kind k) (ri_payload k) in
  p i <> p j /\ sha256 (p i) = sha256 (p j).

Lemma kind_byte_inj k l : relay_kind k = true -> relay_kind l = true -> kind_byte k = kind_byte l -> k = l.
Proof. by destruct k as [[]|], l as [[]|]. Qed.

(** A commitment binds the whole item. *)
Lemma item_bound i j : item_ok i -> item_ok j -> ri_digest i = ri_digest j -> i = j \/ item_collision i j.
Proof.
  intros Hi Hj E. pose proof (io_digest i Hi) as Ei. pose proof (io_digest j Hj) as Ej. unfold item_digest in Ei, Ej.
  destruct (decide (item_preimage (ri_namespace i) (ri_sequence i) (ri_operation i) (ri_kind i) (ri_payload i) =
                    item_preimage (ri_namespace j) (ri_sequence j) (ri_operation j) (ri_kind j) (ri_payload j))) as [Ep|Ep];
    [left|right; split; [done|congruence]].
  destruct Hi as [[[_ Hn] _] [_ Hs] [[_ Ho] _] Hk _ _ _], Hj as [[[_ Hn'] _] [_ Hs'] [[_ Ho'] _] Hk' _ _ _].
  unfold item_preimage in Ep. apply app_inv_head in Ep.
  apply app_inj_1 in Ep as [En Ep]; [|congruence]. apply app_inj_1 in Ep as [Es Ep]; [|by rewrite !be_length].
  apply app_inj_1 in Ep as [Eo Ep]; [|congruence]. injection Ep as Eb Epl.
  apply (f_equal of_be) in Es. rewrite !of_be_be in Es by done. apply kind_byte_inj in Eb; [|done|done].
  destruct i, j; cbn in *; congruence.
Qed.

(** ** What the kernel hands over *)

Record artifact_wire (a : CommittedOutbox) : Prop := {
  aw_sequence : u 64 (ob_sequence a); aw_operation : operation_wire (ob_operation a); aw_bytes : Forall byte (ob_bytes a);
}.

Lemma RelayItem_new_item n s o k p i : namespace_wire n -> u 64 s -> operation_wire o -> Forall byte p ->
  RelayItem_new sha256 n s o k p = Ok i -> item_ok i.
Proof. intros Hn Hs Ho Hp ((H1 & H2 & H3) & ->)%RelayItem_new_Ok. by split; cbn. Qed.

Lemma from_artifact_iff n a i : namespace_wire n -> artifact_wire a ->
  from_artifact sha256 n a = Ok i <->
  item_ok i /\ ri_namespace i = n /\ ri_sequence i = ob_sequence a /\ ri_operation i = ob_operation a /\
    ri_kind i = RelayOutbox (ob_kind a) /\ ri_payload i = ob_bytes a.
Proof.
  intros Hn [Hs Ho Hb]. unfold from_artifact. destruct (relay_kind (RelayOutbox (ob_kind a))) eqn:Ek; cbn [negb].
  - split.
    + intros E. split; [exact (RelayItem_new_item _ _ _ _ _ _ Hn Hs Ho Hb E)|]. apply RelayItem_new_Ok in E as (_ & ->). done.
    + intros ([Hin Hse Hop Hki Hpa Hsz Hd] & E1 & E2 & E3 & E4 & E5). destruct i; cbn in *. subst. apply RelayItem_new_Ok.
      split; [|done]. split; [lia|]. done.
  - split; [done|]. intros (Hi & _ & _ & _ & E & _). apply io_kind in Hi. rewrite E in Hi. congruence.
Qed.

(** The operation of a control. *)
Definition control_operation (c : CommittedEncryptedControl) : OperationId := take 16 (sha256 (CONTROL_DOMAIN ++ cc_bytes c)).

Lemma from_control_iff n c i : namespace_wire n -> u 64 (cc_sequence c) -> Forall byte (cc_bytes c) ->
  from_control sha256 n c = Ok i <->
  item_ok i /\ ri_namespace i = n /\ ri_sequence i = cc_sequence c /\ ri_operation i = control_operation c /\
    ri_kind i = RelayControl /\ ri_payload i = cc_bytes c.
Proof.
  intros Hn Hs Hb. pose proof (sha256_wire (sha256 := sha256) (CONTROL_DOMAIN ++ cc_bytes c)) as [Hby Hlen]. unfold from_control.
  unfold sub_slice, slice. rewrite (proj2 (Nat.leb_le _ _)) by lia. cbn [res_bind]. rewrite drop_0. change (16 - 0)%nat with 16%nat.
  fold (control_operation c). unfold OperationId_from_bytes. case_bool_decide as Ez; cbn [ok_or res_bind].
  - split; [done|]. intros ([_ _ [_ Hz] _ _ _ _] & _ & _ & E & _). congruence.
  - assert (Ho : operation_wire (control_operation c)).
    { split; [|done]. split; [by apply Forall_take|]. unfold control_operation. rewrite length_take. lia. }
    split.
    + intros E. split; [exact (RelayItem_new_item _ _ _ _ _ _ Hn Hs Ho Hb E)|]. apply RelayItem_new_Ok in E as (_ & ->). done.
    + intros ([Hin Hse Hop Hki Hpa Hsz Hd] & E1 & E2 & E3 & E4 & E5). destruct i; cbn in *. subst. apply RelayItem_new_Ok.
      split; [|done]. split; [lia|]. done.
Qed.
End Items.
