(* ===== verification/RelayPages.v ===== *)
(** Frames, receipts, requests and pages of the private relay. *)
From Stdlib Require Import Ascii String.
From S2P Require Import Prelude Bytes PrefixFree Wire Signed Layout Utf8 RelayItem.
From S2P Require Import RelayFacts.

(** Frames, receipts, requests and pages of the private relay: what their
    decoders accept ([RelayItem]). *)

(** ** Frames and statuses *)

Lemma relay_frame_Ok op body bytes : relay_frame op body = Ok bytes <->
  1 + len body < 2 ^ 32 /\ bytes = be 4 (1 + len body) ++ op :: body.
Proof.
  unfold relay_frame. destruct (N.ltb_spec (1 + len body) (2 ^ 32)).
  - split; [by intros [= <-]|]. by intros [_ ->].
  - split; [done|]. lia.
Qed.

Lemma drop_5 (bytes : list N) op k : drop 4 bytes = op :: k -> drop 5 bytes = k.
Proof. intros E. change 5%nat with (4 + 1)%nat. rewrite <- drop_drop, E. done. Qed.

Lemma decode_relay_frame_iff bytes max op body : Forall byte bytes -> max + 4 < 2 ^ 64 ->
  decode_relay_frame bytes max = Ok (op, body) <-> relay_frame op body = Ok bytes /\ len bytes <= max + 4.
Proof.
  intros Hb Hmax. unfold decode_relay_frame, saturating_add. rewrite relay_frame_Ok.
  assert (N.min (max + 4) (2 ^ 64 - 1) = max + 4) as -> by lia. split.
  - destruct (_ || _) eqn:E; [done|]. bool_to_prop. unfold len in *.
    destruct (sub_int_cut (Er := NetError) bytes 0 4 Hb ltac:(lia)) as (l & Hl & Hlw & Ed). change (0 + 4)%nat with 4%nat in *. rewrite Hl. cbn [res_bind].
    destruct (_ || _) eqn:E2; [done|]. bool_to_prop. unfold index.
    destruct (drop 4 bytes) as [|x k] eqn:Ek; [apply (f_equal length) in Ek; rewrite length_drop in Ek; simpl in Ek; lia|].
    assert (bytes !! 4%nat = Some x) as ->.
    { apply (f_equal (fun l => l !! 0%nat)) in Ek. by rewrite lookup_drop in Ek. }
    cbn [res_bind]. rewrite (drop_5 bytes x k Ek). intros [= <- <-]. rewrite drop_0 in Ed.
    assert (Hk : (length bytes = 5 + length k)%nat) by (rewrite Ed, length_app, be_length; simpl; lia).
    change (256 ^ N.of_nat 4) with (2 ^ 32) in Hlw. split; [|lia]. split; [lia|].
    by replace (1 + N.of_nat (length k)) with l by lia.
  - intros [[Hs E] Hl]. assert (Hk : (length bytes = 5 + length body)%nat) by (rewrite E, length_app, be_length; simpl; lia).
    unfold len in *. rewrite (proj2 (N.ltb_ge _ 5)) by lia. rewrite (proj2 (N.ltb_ge _ _)) by lia. cbn [orb].
    destruct (sub_int_known (Er := NetError) bytes 0 4 (1 + N.of_nat (length body)) (op :: body)) as (Hi & Hd & _); [done|by rewrite drop_0|lia|].
    change (0 + 4)%nat with 4%nat in Hd.
    rewrite Hi. cbn [res_bind]. rewrite (proj2 (N.eqb_neq _ 0)) by lia. rewrite (proj2 (N.eqb_eq _ _)) by lia. cbn [orb negb]. unfold index.
    assert (bytes !! 4%nat = Some op) as ->.
    { apply (f_equal (fun l => l !! 0%nat)) in Hd. by rewrite lookup_drop in Hd. }
    cbn [res_bind]. by rewrite (drop_5 bytes op body Hd).
Qed.

Lemma decode_relay_frame_total bytes max : decode_relay_frame bytes max <> Panic.
Proof.
  unfold decode_relay_frame. destruct (_ || _) eqn:E; [done|]. bool_to_prop. unfold len in *.
  destruct (sub_int_total (Er := NetError) bytes 0 4) as [l ->]; [lia|]. cbn [res_bind]. destruct (_ || _); [done|].
  unfold index. destruct (lookup_lt_is_Some_2 bytes 4) as [x ->]; [lia|]. done.
Qed.

(** The error a client reports for an error of the mailbox. *)
Definition net_error (e : RelayError) : NetError :=
  match e with
  | RelayConflict => NetConflict
  | RelayCapacity => NetCapacity
  | RelayScope => NetScope
  | RelayStorage => NetUnavailable
  | RelayBounds | RelayConfidential => NetBounds
  end.

Lemma status_reported e : decode_status (relay_status e) [] = Err (net_error e).
Proof. by destruct e. Qed.

(** ** Receipts *)

Definition receipt_ok (item : RelayItem) (r : RelayReceipt) : Prop :=
  1 <= rr_position r /\ u 64 (rr_position r) /\ rr_digest r = ri_digest item.

Lemma decode_receipt_iff body item r : Forall byte body -> hash_wire (ri_digest item) ->
  decode_receipt body item = Ok r <-> receipt_ok item r /\ body = encode_relay_receipt r.
Proof.
  intros Hb [_ Hd]. unfold decode_receipt, encode_relay_receipt, receipt_ok. split.
  - destruct (N.eqb_spec (len body) 41) as [Hl|]; [|done]. unfold len in Hl. cbn [negb].
    destruct (sub_int_cut (Er := NetError) body 0 8 Hb ltac:(lia)) as (p & Hp & Hpw & E0). rewrite Hp. cbn [res_bind].
    destruct (sub_slice_cut (Er := NetError) body 8 32 Hb ltac:(lia)) as (d & Hs & Hdl & _ & E1).
    change (8 + 32)%nat with 40%nat in *. rewrite Hs. cbn [res_bind]. unfold index.
    destruct (drop 40 body) as [|x [|? k]] eqn:E2; try (apply (f_equal length) in E2; rewrite length_drop in E2; simpl in E2; lia).
    assert (body !! 40%nat = Some x) as -> by (apply (f_equal (fun l => l !! 0%nat)) in E2; by rewrite lookup_drop in E2).
    cbn [res_bind]. destruct (_ || _) eqn:E; [done|]. bool_to_prop. subst d. intros [= <-]. cbn [rr_position rr_digest rr_duplicate].
    split; [split; [lia|done]|]. rewrite drop_0 in E0. change (0 + 8)%nat with 8%nat in E0. rewrite E0 at 1. rewrite E1. do 3 f_equal.
    destruct (N.eqb_spec x 0) as [->|]; [done|]. replace x with 1 by lia. done.
  - intros [(Hp & Hu & Er) E]. assert (Hl : length body = 41%nat) by (rewrite E, !length_app, be_length, Er, Hd; done).
    unfold len. rewrite Hl. cbn [N.of_nat Pos.of_succ_nat N.eqb Pos.eqb Pos.succ negb].
    destruct (sub_int_known (Er := NetError) body 0 8 (rr_position r) (rr_digest r ++ [N.b2n (rr_duplicate r)])) as (Hi & Hd1 & _); [exact Hu|by rewrite drop_0|lia|].
    rewrite Hi. cbn [res_bind]. change (0 + 8)%nat with 8%nat in *.
    destruct (sub_slice_known (Er := NetError) body 8 32 (rr_digest r) [N.b2n (rr_duplicate r)]) as (Hs & Hd2 & _); [done|by rewrite Er|lia|].
    change (8 + 32)%nat with 40%nat in *. rewrite Hs. cbn [res_bind]. unfold index.
    assert (body !! 40%nat = Some (N.b2n (rr_duplicate r))) as -> by (apply (f_equal (fun l => l !! 0%nat)) in Hd2; by rewrite lookup_drop in Hd2).
    cbn [res_bind]. rewrite (proj2 (N.eqb_neq (rr_position r) 0)) by lia. rewrite bool_decide_true by done. destruct r as [p d []]; done.
Qed.

Lemma decode_receipt_total body item : decode_receipt body item <> Panic.
Proof.
  unfold decode_receipt. destruct (N.eqb_spec (len body) 41) as [Hl|]; [|done]. cbn [negb]. unfold len in Hl.
  destruct (sub_int_total (Er := NetError) body 0 8) as [p ->]; [lia|]. cbn [res_bind].
  destruct (sub_slice_total (Er := NetError) body 8 32) as (d & Hs & _); [lia|]. change (8 + 32)%nat with 40%nat in Hs. rewrite Hs. cbn [res_bind].
  unfold index. destruct (lookup_lt_is_Some_2 body 40) as [x ->]; [lia|]. cbn [res_bind]. by destruct (_ || _).
Qed.

(** ** Page requests *)

Lemma page_request_Ok after limit r : page_request after limit = Ok r <->
  1 <= limit <= MAX_RELAY_PAGE /\ r = be 8 after ++ be 2 limit.
Proof.
  unfold page_request, limit_ok, in_range. change MAX_RELAY_PAGE with 64. destruct (_ && _) eqn:E; cbn [negb]; bool_to_prop.
  - rewrite wrap_small by lia. split; [intros [= <-]; split; [lia|done]|]. by intros [_ ->].
  - split; [done|]. intros [? _]. apply andb_false_iff in E as [E|E]; apply N.leb_gt in E; lia.
Qed.

(** ** Records of a page *)

Section Pages.
Context (sha256 : list N -> list N) {Hsha : Sha256 sha256}.

Definition record_ok (r : PositionedItem) : Prop := 1 <= po_position r /\ u 64 (po_position r) /\ item_ok sha256 (po_item r).
Definition record_bytes (r : PositionedItem) : list N :=
  let encoded := written (put_item (po_item r)) in be 8 (po_position r) ++ be 4 (len encoded) ++ encoded.
Definition records_bytes (l : list PositionedItem) : list N := l ≫= record_bytes.

Lemma item_length r : record_ok r -> 102 <= len (written (put_item (po_item r))) <= MAX_ITEM_BYTES.
Proof.
  intros (_ & _ & Hi). rewrite (length_item sha256) by done. pose proof (io_size _ _ Hi). change MAX_RELAY_PAYLOAD with 266240 in *.
  change ITEM_HEADER with 70. change MAX_ITEM_BYTES with 266342. lia.
Qed.

Lemma record_length r : record_ok r -> len (record_bytes r) = 12 + len (written (put_item (po_item r))).
Proof. intros _. unfold record_bytes, len. rewrite !length_app, !be_length. lia. Qed.

Lemma record_is_bytes r : record_ok r -> Forall byte (record_bytes r).
Proof.
  intros (_ & _ & Hi). unfold record_bytes. rewrite !Forall_app. split; [apply be_bytes|]. split; [apply be_bytes|by apply (item_bytes sha256)].
Qed.

Lemma page_record_iff cursor body r last : Forall byte body -> len body < 2 ^ 64 -> cursor <= len body ->
  page_record sha256 cursor body = Ok (r, last) <->
  record_ok r /\ exists k, drop (N.to_nat cursor) body = record_bytes r ++ k /\ last = cursor + len (record_bytes r).
Proof.
  intros Hb Hmax Hc. unfold page_record, checked_add. split.
  - destruct (N.ltb_spec (cursor + 8) (2 ^ 64)); [|done]. cbn [ok_or res_bind].
    destruct (N.ltb_spec (len body) (cursor + 8)) as [|H8]; [done|]. unfold len in H8.
    destruct (sub_int_cut (Er := NetError) body (N.to_nat cursor) 8 Hb ltac:(lia)) as (p & Hp & Hpw & E0). rewrite Hp. cbn [res_bind].
    destruct (N.eqb_spec p 0) as [|Hp0]; [done|].
    destruct (N.ltb_spec (cursor + 8 + 4) (2 ^ 64)); [|done]. cbn [ok_or res_bind].
    destruct (N.ltb_spec (len body) (cursor + 8 + 4)) as [|H12]; [done|]. unfold len in H12.
    destruct (sub_int_cut (Er := NetError) body (N.to_nat (cursor + 8)) 4 Hb ltac:(lia)) as (l & Hl & Hlw & E1). rewrite Hl. cbn [res_bind].
    destruct (N.ltb_spec (cursor + 8 + 4 + l) (2 ^ 64)); [|done]. cbn [ok_or res_bind].
    destruct (N.ltb_spec (len body) (cursor + 8 + 4 + l)) as [|Hend]; [done|]. unfold len in Hend.
    replace (N.to_nat (cursor + 8 + 4 + l)) with (N.to_nat (cursor + 8 + 4) + N.to_nat l)%nat by lia.
    destruct (sub_slice_cut (Er := NetError) body (N.to_nat (cursor + 8 + 4)) (N.to_nat l) Hb ltac:(lia)) as (e & He & Hel & Heb & E2).
    rewrite He. cbn [res_bind]. destruct (decode_item sha256 e) as [i| |] eqn:Ei; [|done..]. cbn [map_err res_bind]. intros [= <- <-].
    apply decode_item_iff in Ei as [Hi ->]; [|done|done|unfold len; lia].
    split; [split; [cbn; lia|split; [exact Hpw|done]]|]. eexists. unfold record_bytes. cbn [po_position po_item].
    replace (len (written (put_item i))) with l by (unfold len; lia).
    split; [|unfold len; rewrite !length_app, !be_length; lia]. rewrite <- !app_assoc.
    replace (N.to_nat (cursor + 8)) with (N.to_nat cursor + 8)%nat in E1 by lia.
    replace (N.to_nat (cursor + 8 + 4)) with (N.to_nat cursor + 8 + 4)%nat in E2 by lia. by rewrite E0, E1, E2.
  - intros ((Hp & Hpw & Hi) & k & E & ->). pose proof (item_length r (conj Hp (conj Hpw Hi))) as Hil. change MAX_ITEM_BYTES with 266342 in Hil.
    unfold record_bytes in *. set (e := written (put_item (po_item r))) in *. rewrite <- !app_assoc in E.
    assert (Hlen : N.of_nat (length body) = cursor + 12 + len e + len k).
    { apply (f_equal length) in E. rewrite length_drop, !length_app, !be_length in E. unfold len in *. lia. }
    rewrite (proj2 (N.ltb_lt _ _)) by (unfold len in *; lia). cbn [ok_or res_bind]. rewrite (proj2 (N.ltb_ge _ _)) by (unfold len; lia).
    destruct (sub_int_known (Er := NetError) body (N.to_nat cursor) 8 (po_position r) _ Hpw E ltac:(lia)) as (H1 & E1 & _).
    rewrite H1. cbn [res_bind]. rewrite (proj2 (N.eqb_neq _ _)) by lia.
    rewrite (proj2 (N.ltb_lt _ _)) by (unfold len in *; lia). cbn [ok_or res_bind]. rewrite (proj2 (N.ltb_ge _ _)) by (unfold len; lia).
    replace (N.to_nat cursor + 8)%nat with (N.to_nat (cursor + 8)) in E1 by lia.
    destruct (sub_int_known (Er := NetError) body (N.to_nat (cursor + 8)) 4 (len e) _ ltac:(change (256 ^ N.of_nat 4) with (2 ^ 32); lia) E1 ltac:(lia)) as (H2 & E2 & _).
    rewrite H2. cbn [res_bind]. rewrite (proj2 (N.ltb_lt _ _)) by (unfold len in *; lia). cbn [ok_or res_bind].
    rewrite (proj2 (N.ltb_ge _ _)) by (unfold len in *; lia).
    replace (N.to_nat (cursor + 8) + 4)%nat with (N.to_nat (cursor + 8 + 4)) in E2 by lia.
    replace (N.to_nat (cursor + 8 + 4 + len e)) with (N.to_nat (cursor + 8 + 4) + length e)%nat by (unfold len; lia).
    destruct (sub_slice_known (Er := NetError) body (N.to_nat (cursor + 8 + 4)) (length e) e k E2 eq_refl ltac:(lia)) as (H3 & _ & _).
    rewrite H3. cbn [res_bind]. rewrite (proj2 (decode_item_iff sha256 e (po_item r) (item_bytes sha256 _ Hi) ltac:(lia))) by done.
    cbn [map_err res_bind]. destruct r as [p i]. f_equal. f_equal. unfold len. rewrite !length_app, !be_length. cbn [po_position po_item]. fold e. lia.
Qed.

Lemma page_record_total cursor body : Forall byte body -> len body < 2 ^ 64 -> page_record sha256 cursor body <> Panic.
Proof.
  intros Hb Hmax. unfold page_record, checked_add.
  destruct (N.ltb_spec (cursor + 8) (2 ^ 64)); [|done]. cbn [ok_or res_bind].
  destruct (N.ltb_spec (len body) (cursor + 8)) as [|H8]; [done|]. unfold len in H8.
  destruct (sub_int_total (Er := NetError) body (N.to_nat cursor) 8) as [p ->]; [lia|]. cbn [res_bind]. destruct (p =? 0); [done|].
  destruct (N.ltb_spec (cursor + 8 + 4) (2 ^ 64)); [|done]. cbn [ok_or res_bind].
  destruct (N.ltb_spec (len body) (cursor + 8 + 4)) as [|H12]; [done|]. unfold len in H12.
  destruct (sub_int_total (Er := NetError) body (N.to_nat (cursor + 8)) 4) as [l ->]; [lia|]. cbn [res_bind].
  destruct (N.ltb_spec (cursor + 8 + 4 + l) (2 ^ 64)); [|done]. cbn [ok_or res_bind].
  destruct (N.ltb_spec (len body) (cursor + 8 + 4 + l)) as [|Hend]; [done|]. unfold len in Hend.
  replace (N.to_nat (cursor + 8 + 4 + l)) with (N.to_nat (cursor + 8 + 4) + N.to_nat l)%nat by lia.
  destruct (sub_slice_cut (Er := NetError) body (N.to_nat (cursor + 8 + 4)) (N.to_nat l) Hb ltac:(lia)) as (e & -> & _ & He & _). cbn [res_bind].
  pose proof (decode_item_total sha256 e He). by destruct (decode_item sha256 e).
Qed.

Lemma records_bytes_cons r l : records_bytes (r :: l) = record_bytes r ++ records_bytes l.
Proof. done. Qed.

Lemma page_records_iff n cursor body l last : Forall byte body -> len body < 2 ^ 64 -> cursor <= len body ->
  page_records sha256 n cursor body = Ok (l, last) <->
  length l = n /\ Forall record_ok l /\ exists k, drop (N.to_nat cursor) body = records_bytes l ++ k /\ last = cursor + len (records_bytes l).
Proof.
  intros Hb Hmax. revert cursor l last. induction n as [|n IH]; intros cursor l last Hc; cbn [page_records].
  - split.
    + intros [= <- <-]. split; [done|]. split; [done|]. exists (drop (N.to_nat cursor) body). split; [done|]. unfold records_bytes, len. simpl. lia.
    + intros (Hl & _ & k & _ & ->). destruct l; [|done]. unfold records_bytes, len. simpl. do 2 f_equal. lia.
  - assert (Hnext : forall r k, drop (N.to_nat cursor) body = record_bytes r ++ k ->
      drop (N.to_nat (cursor + len (record_bytes r))) body = k /\ cursor + len (record_bytes r) <= len body).
    { intros r k E. replace (N.to_nat (cursor + len (record_bytes r))) with (N.to_nat cursor + length (record_bytes r))%nat by (unfold len; lia).
      rewrite <- drop_drop, E, drop_app_length. split; [done|]. apply (f_equal length) in E. rewrite length_drop, length_app in E.
      unfold len in *. lia. }
    rewrite res_bind_Ok. split.
    + intros ([r c1] & Hr & H). apply page_record_iff in Hr as (Hr & k & E & ->); [|done..]. destruct (Hnext r k E) as [E1 Hc1].
      apply res_bind_Ok in H as ([l1 c2] & Hl & [= <- <-]). apply IH in Hl as (<- & Hf & k2 & E2 & ->); [|done].
      split; [done|]. split; [by constructor|]. exists k2. rewrite records_bytes_cons. rewrite E1 in E2. subst k. rewrite <- app_assoc.
      split; [done|]. unfold len. rewrite length_app. lia.
    + intros (Hl & Hf & k & E & ->). destruct l as [|r l]; [done|]. apply Forall_cons in Hf as [Hr Hf].
      rewrite records_bytes_cons, <- app_assoc in E. destruct (Hnext r _ E) as [E1 Hc1].
      exists (r, cursor + len (record_bytes r)). split; [apply page_record_iff; eauto|]. apply res_bind_Ok.
      exists (l, cursor + len (record_bytes r) + len (records_bytes l)). split.
      * apply IH; [done|]. split; [simpl in Hl; lia|]. split; [done|]. by exists k.
      * rewrite records_bytes_cons. unfold len. rewrite length_app. do 2 f_equal. lia.
Qed.

Lemma page_records_total n cursor body : Forall byte body -> len body < 2 ^ 64 -> page_records sha256 n cursor body <> Panic.
Proof.
  intros Hb Hmax. revert cursor. induction n as [|n IH]; intros cursor; cbn [page_records]; [done|].
  pose proof (page_record_total cursor body Hb Hmax). destruct (page_record _ _ _) as [[r c]| |]; [|done..]. cbn [res_bind].
  specialize (IH c). by destruct (page_records _ _ _ _) as [[]| |].
Qed.

(** ** The contract of a page *)

(** Consecutive positions after [p]. *)
Fixpoint follows_on (p : N) (l : list PositionedItem) : Prop :=
  match l with
  | [] => True
  | r :: l => po_position r = p + 1 /\ follows_on (p + 1) l
  end.

Definition page_contract (page : RelayPage) (after limit : N) : Prop :=
  let n := len (rp_records page) in
  (1 <= limit <= MAX_RELAY_PAGE /\ n <= limit) /\
  ((rp_head page < after /\ rp_records page = [] /\ rp_next page = None) \/
   (follows_on after (rp_records page) /\ after + n <= rp_head page /\
    (after + n = rp_head page -> rp_next page = None) /\
    (after + n < rp_head page -> 1 <= n /\ rp_next page = Some (after + n)))).

Lemma follow_records_Ok head p l last : head < 2 ^ 64 -> p <= head ->
  follow_records head p l = Ok last <-> follows_on p l /\ p + len l <= head /\ last = p + len l.
Proof.
  intros Hh. revert p. induction l as [|r l IH]; intros p Hp; cbn [follow_records].
  - unfold len. simpl. rewrite N.add_0_r. split; [intros [= <-]; done|]. by intros (_ & _ & ->).
  - replace (p + len (r :: l)) with (p + 1 + len l) by (unfold len; simpl; lia). unfold checked_add.
    destruct (_ || _) eqn:E.
    + split; [done|]. intros ([Er _] & Hl & _). rewrite Er in E. rewrite (proj2 (N.ltb_lt _ _)) in E by lia.
      rewrite bool_decide_true in E by done. cbn [negb orb] in E. apply N.ltb_lt in E. lia.
    + bool_to_prop. destruct (N.ltb_spec (p + 1) (2 ^ 64)); [|done].
      match goal with H : Some _ = Some _ |- _ => injection H as Er end. rewrite Er in *. rewrite IH by done. simpl. rewrite Er. tauto.
Qed.

Lemma follow_records_cases head p l : follow_records head p l <> Panic /\ forall e, follow_records head p l = Err e -> e = NetMalformed.
Proof. revert p. induction l as [|r l IH]; intros p; cbn [follow_records]; [done|]. case_match; [split; [done|congruence]|apply IH]. Qed.

Lemma validate_page_iff page after limit : rp_head page < 2 ^ 64 ->
  validate_page page after limit = Ok tt <-> page_contract page after limit.
Proof.
  intros Hh. unfold validate_page, page_contract. destruct (_ || _ || _) eqn:E.
  { split; [done|]. intros [Hl _]. apply orb_true_iff in E as [[E|E]%orb_true_iff|E]; bool_to_prop; lia. }
  bool_to_prop. assert (Hl : 1 <= limit <= MAX_RELAY_PAGE /\ len (rp_records page) <= limit) by (split_and!; lia).
  destruct (N.ltb_spec (rp_head page) after) as [Ha|Ha].
  - destruct (_ && _) eqn:E2.
    + bool_to_prop. split; [|done]. intros _. split; [done|]. left. split; [done|]. split; [|done]. by destruct (rp_records page).
    + split; [done|]. intros (_ & [(_ & Er & En)|(_ & Hle & _)]); [|lia]. rewrite Er, En in E2. done.
  - destruct (follow_records (rp_head page) after (rp_records page)) as [p|e|] eqn:Ef; cbn [res_bind].
    + apply follow_records_Ok in Ef as (Hf & Hle & ->); [|done..]. destruct (_ || _) eqn:E2.
      * split; [done|]. intros (_ & [(? & _)|(_ & _ & Hnone & Hsome)]); [lia|]. apply orb_true_iff in E2 as [E2|E2]; apply andb_true_iff in E2 as [E2 E3]; bool_to_prop.
        -- destruct (Hsome E2) as [Hn1 En]. apply orb_true_iff in E3 as [E3|E3]; bool_to_prop; [lia|done].
        -- by rewrite Hnone in E3.
      * split; [|done]. intros _. split; [done|]. right. apply orb_false_iff in E2 as [E2 E3]. split; [done|]. split; [done|]. split.
        -- intros En. rewrite (proj2 (N.eqb_eq _ _) En) in E3. cbn [andb] in E3. bool_to_prop. done.
        -- intros Hlt. rewrite (proj2 (N.ltb_lt _ _) Hlt) in E2. cbn [andb] in E2. bool_to_prop. split; [lia|done].
    + split; [done|]. intros (_ & [(? & _)|(Hf & Hle & _)]); [lia|].
      rewrite (proj2 (follow_records_Ok _ _ _ (after + len (rp_records page)) Hh Ha)) in Ef; done.
    + by destruct (follow_records_cases (rp_head page) after (rp_records page)).
Qed.

Lemma validate_page_total page after limit : validate_page page after limit <> Panic.
Proof.
  unfold validate_page. do 2 (case_match; [by repeat case_match|]).
  destruct (follow_records_cases (rp_head page) after (rp_records page)) as [Hp _].
  destruct (follow_records _ _ _); cbn [res_bind]; [by case_match|done..].
Qed.

Lemma follows_ascending p l : follows_on p l -> positions_ascend l = true.
Proof.
  revert p. induction l as [|a l IH]; intros p; [done|]. intros [Ea Hl]. specialize (IH _ Hl). destruct l as [|b l]; [done|].
  destruct Hl as [Eb _]. change (positions_ascend (a :: b :: l)) with ((po_position a <? po_position b) && positions_ascend (b :: l)). rewrite IH, andb_true_r. apply N.ltb_lt. lia.
Qed.

Lemma follows_last p l r : follows_on p l -> last l = Some r -> po_position r = p + len l.
Proof.
  revert p. induction l as [|a l IH]; intros p; [done|]. intros [Ea Hl] E. destruct l as [|b l].
  - injection E as <-. rewrite Ea. unfold len. simpl. lia.
  - rewrite (IH _ Hl E). unfold len. simpl. lia.
Qed.
End Pages.

(** The page codec of the private relay: exactly which bytes decode, and what
    the byte budget of an encoded page keeps ([RelayItem]). *)

Section Pages.
Context (sha256 : list N -> list N) {Hsha : Sha256 sha256}.
Notation record_ok := (record_ok sha256).

Definition page_bytes (page : RelayPage) : list N :=
  be 8 (rp_head page) ++ [N.b2n (bool_decide (rp_next page <> None))] ++ be 2 (len (rp_records page))
  ++ records_bytes (rp_records page).

Record page_ok (page : RelayPage) : Prop := {
  pk_head : u 64 (rp_head page);
  pk_records : Forall record_ok (rp_records page);
}.

(** The continuation of a page is the position of its last record. *)
Lemma contract_next page after limit : page_contract page after limit ->
  match rp_next page with
  | Some p => exists r, last (rp_records page) = Some r /\ po_position r = p
  | None => True
  end /\ positions_ascend (rp_records page) = true.
Proof.
  intros (_ & [(_ & -> & ->)|(Hf & Hle & H1 & H2)]); [done|]. split; [|by eapply follows_ascending].
  destruct (rp_next page) as [p|] eqn:En; [|done].
  destruct (decide (after + len (rp_records page) = rp_head page)) as [E|E]; [by specialize (H1 E)|].
  destruct (H2 ltac:(lia)) as [Hn [= ->]]. destruct (last (rp_records page)) as [r|] eqn:El.
  - exists r. split; [done|]. by eapply follows_last.
  - apply last_None in El. rewrite El in Hn. unfold len in Hn. simpl in Hn. lia.
Qed.

Lemma limit_ok_iff limit : limit_ok limit = true <-> 1 <= limit <= MAX_RELAY_PAGE.
Proof. unfold limit_ok, in_range. rewrite andb_true_iff, !N.leb_le. done. Qed.

Lemma decode_page_sound body after limit page : Forall byte body -> decode_page sha256 body after limit = Ok page ->
  page_ok page /\ page_contract page after limit /\ len body <= MAX_PAGE_BODY /\ body = page_bytes page.
Proof.
  intros Hb. unfold decode_page. destruct (_ || _ || _) eqn:E; [done|]. bool_to_prop. change MAX_PAGE_BODY with 4194304 in *.
  match goal with H : 11 <= len body |- _ => rename H into H11 end. match goal with H : len body <= _ |- _ => rename H into Hmax end.
  unfold len in H11. destruct (sub_int_cut (Er := NetError) body 0 8 Hb ltac:(lia)) as (h & -> & Hh & E0). cbn [res_bind].
  change (0 + 8)%nat with 8%nat in *. rewrite drop_0 in E0. unfold index.
  destruct (drop 8 body) as [|x k] eqn:Ek; [apply (f_equal length) in Ek; rewrite length_drop in Ek; simpl in Ek; lia|].
  assert (body !! 8%nat = Some x) as -> by (apply (f_equal (fun l => l !! 0%nat)) in Ek; by rewrite lookup_drop in Ek).
  cbn [res_bind]. intros H. apply res_bind_Ok in H as (more & Hmore & H).
  assert (Ex : x = N.b2n more) by (repeat case_match; try done; by injection Hmore as <-). clear Hmore.
  destruct (sub_int_cut (Er := NetError) body 9 2 Hb ltac:(lia)) as (n & Hn & Hnw & E1). rewrite Hn in H. cbn [res_bind] in H.
  change (9 + 2)%nat with 11%nat in *. destruct (N.ltb_spec limit n) as [|Hln]; [done|].
  apply res_bind_Ok in H as ([l c] & Hl & H). apply (page_records_iff sha256 (N.to_nat n) 11 body l c Hb ltac:(lia) ltac:(unfold len; lia)) in Hl as (Hlen & Hf & k2 & E2 & ->).
  change (N.to_nat 11) with 11%nat in E2. destruct (_ || _ || _) eqn:Eg; [done|]. bool_to_prop.
  assert (k2 = []) as ->.
  { apply (f_equal length) in E2. rewrite length_drop, length_app in E2. unfold len in *. destruct k2; [done|]. simpl in E2. lia. }
  rewrite app_nil_r in E2. apply res_bind_Ok in H as (next & Hnext & H). apply res_bind_Ok in H as ([] & Hv & [= <-]).
  apply validate_page_iff in Hv; [|exact Hh]. split; [split; [exact Hh|exact Hf]|]. split; [done|]. split; [done|].
  unfold page_bytes. cbn [rp_head rp_next rp_records].
  assert (En : bool_decide (next <> None) = more).
  { destruct more; cbn in Hnext; [|by injection Hnext as <-]. destruct (last l); [|done]. by injection Hnext as <-. }
  assert (E9 : drop 9 body = k) by (change 9%nat with (8 + 1)%nat; by rewrite <- drop_drop, Ek).
  rewrite En, E0, Ex. f_equal. cbn [app]. f_equal. rewrite <- E9, E1, E2. f_equal. f_equal. unfold len. lia.
Qed.

Lemma decode_page_complete page after limit : page_ok page -> page_contract page after limit ->
  len (page_bytes page) <= MAX_PAGE_BODY -> decode_page sha256 (page_bytes page) after limit = Ok page.
Proof.
  intros [Hh Hf] Hc Hmax. pose proof Hc as ((Hlim & Hn) & _). destruct (contract_next _ _ _ Hc) as [Hnext Hasc].
  change MAX_PAGE_BODY with 4194304 in *. change MAX_RELAY_PAGE with 64 in *.
  set (body := page_bytes page) in *. assert (E0 : body = be 8 (rp_head page) ++ [N.b2n (bool_decide (rp_next page <> None))] ++ be 2 (len (rp_records page))
    ++ records_bytes (rp_records page)) by done.
  assert (Hlen : (length body = 11 + length (records_bytes (rp_records page)))%nat) by (rewrite E0, !length_app, !be_length; simpl; lia).
  assert (Hb : Forall byte body).
  { rewrite E0, !Forall_app. split_and!; try apply be_bytes; [by destruct (bool_decide _); repeat constructor|].
    clear -Hf Hsha. induction Hf as [|r l Hr Hf IH]; [constructor|]. rewrite records_bytes_cons. apply Forall_app.
    split; [by apply (record_is_bytes sha256)|done]. }
  unfold decode_page. change MAX_PAGE_BODY with 4194304. rewrite (proj2 (N.ltb_ge _ 11)) by (unfold len; lia). rewrite (proj2 (N.ltb_ge 4194304 _)) by lia.
  rewrite (proj2 (limit_ok_iff limit)) by done. cbn [orb negb].
  destruct (sub_int_known (Er := NetError) body 0 8 (rp_head page) _ Hh ltac:(rewrite drop_0; exact E0) ltac:(lia)) as (-> & E1 & _). cbn [res_bind].
  change (0 + 8)%nat with 8%nat in E1. unfold index.
  assert (body !! 8%nat = Some (N.b2n (bool_decide (rp_next page <> None)))) as -> by (apply (f_equal (fun l => l !! 0%nat)) in E1; by rewrite lookup_drop in E1).
  cbn [res_bind].
  assert (Hmore : match N.b2n (bool_decide (rp_next page <> None)) with 0 => Ok false | 1 => Ok true | _ => Err NetMalformed end
    = Ok (bool_decide (rp_next page <> None))) by (by destruct (bool_decide _)).
  rewrite Hmore. cbn [res_bind].
  assert (E9 : drop 9 body = be 2 (len (rp_records page)) ++ records_bytes (rp_records page)) by (change 9%nat with (8 + 1)%nat; by rewrite <- drop_drop, E1).
  destruct (sub_int_known (Er := NetError) body 9 2 (len (rp_records page)) _ ltac:(change (256 ^ N.of_nat 2) with (2 ^ 16); lia) E9 ltac:(lia)) as (-> & E11 & _).
  cbn [res_bind]. rewrite (proj2 (N.ltb_ge _ _)) by lia. change (9 + 2)%nat with 11%nat in E11.
  rewrite (proj2 (page_records_iff sha256 (N.to_nat (len (rp_records page))) 11 body (rp_records page) (11 + len (records_bytes (rp_records page))) Hb ltac:(lia) ltac:(unfold len; lia))).
  2: { split; [unfold len; lia|]. split; [done|]. exists []. split; [|done]. rewrite app_nil_r. exact E11. }
  cbn [res_bind]. assert (11 + len (records_bytes (rp_records page)) = len body) as -> by (unfold len; lia). rewrite N.eqb_refl, Hasc. cbn [negb orb].
  rewrite orb_false_r. destruct (rp_next page) as [p|] eqn:En.
  - destruct Hnext as (r & El & <-). rewrite (bool_decide_true (Some _ <> None)) by done. rewrite El. cbn [res_bind andb].
    destruct (N.eqb_spec (len (rp_records page)) 0) as [E|_].
    { destruct (rp_records page); [done|unfold len in E; simpl in E; lia]. }
    destruct page as [h nx rs]. cbn in En, El |- *. subst nx. by rewrite (proj2 (validate_page_iff _ _ _ Hh)).
  - rewrite (bool_decide_false (None <> None)) by (intros ?; done). cbn [res_bind andb].
    destruct page as [h nx rs]. cbn in En |- *. subst nx. by rewrite (proj2 (validate_page_iff _ _ _ Hh)).
Qed.

Lemma decode_page_total body after limit : Forall byte body -> decode_page sha256 body after limit <> Panic.
Proof.
  intros Hb. unfold decode_page. destruct (_ || _ || _) eqn:E; [done|]. bool_to_prop. change MAX_PAGE_BODY with 4194304 in *.
  match goal with H : 11 <= len body |- _ => rename H into H11 end. unfold len in H11.
  destruct (sub_int_total (Er := NetError) body 0 8) as [h ->]; [lia|]. cbn [res_bind]. unfold index.
  destruct (lookup_lt_is_Some_2 body 8) as [x ->]; [lia|]. cbn [res_bind].
  assert (Hm : match x with 0 => Ok false | 1 => Ok true | _ => Err NetMalformed end <> Panic) by (by repeat case_match).
  destruct (match x with 0 => _ | _ => _ end) as [more| |]; [|done..]. cbn [res_bind].
  destruct (sub_int_total (Er := NetError) body 9 2) as [n ->]; [lia|]. cbn [res_bind]. destruct (limit <? n); [done|].
  pose proof (page_records_total sha256 (N.to_nat n) 11 body Hb ltac:(lia)) as Hp.
  destruct (page_records _ _ _ _) as [[l c]| |]; [|done..]. cbn [res_bind]. destruct (_ || _ || _) eqn:Eg; [done|]. bool_to_prop.
  destruct more; cbn [res_bind].
  - destruct (last l) as [r|] eqn:El; cbn [res_bind].
    + pose proof (validate_page_total (mkRelayPage h (Some (po_position r)) l) after limit). by destruct (validate_page _ _ _).
    + apply last_None in El as ->. done.
  - pose proof (validate_page_total (mkRelayPage h None l) after limit). by destruct (validate_page _ _ _).
Qed.

(** ** What the byte budget keeps *)

(** The records written after [used] bytes of earlier ones. *)
Fixpoint page_cut (used : N) (l : list PositionedItem) : list PositionedItem :=
  match l with
  | [] => []
  | r :: l =>
      if (MAX_PAGE_BODY <? 11 + used + len (record_bytes r)) && (0 <? used) then []
      else r :: page_cut (used + len (record_bytes r)) l
  end.

Lemma page_cut_prefix used l : page_cut used l `prefix_of` l.
Proof.
  revert used. induction l as [|r l IH]; intros used; cbn [page_cut]; [done|]. destruct (_ && _); [apply prefix_nil|]. by apply prefix_cons.
Qed.

Lemma page_cut_some l : l <> [] -> page_cut 0 l <> [].
Proof. destruct l as [|r l]; [done|]. intros _. cbn [page_cut]. by rewrite andb_false_r. Qed.

Lemma page_cut_fits used l : Forall record_ok l -> 11 + used <= MAX_PAGE_BODY -> 
  11 + used + len (records_bytes (page_cut used l)) <= MAX_PAGE_BODY.
Proof.
  change MAX_PAGE_BODY with 4194304. intros Hf. revert used. induction Hf as [|r l Hr Hf IH]; intros used Hu; cbn [page_cut]; [unfold records_bytes, len; simpl; lia|].
  change MAX_PAGE_BODY with 4194304. pose proof (record_length sha256 r Hr) as El. pose proof (item_length sha256 r Hr) as Hl. change MAX_ITEM_BYTES with 266342 in Hl.
  destruct (_ && _) eqn:E; [unfold records_bytes, len; simpl; lia|]. rewrite records_bytes_cons.
  assert (Hfit : 11 + (used + len (record_bytes r)) <= 4194304).
  { apply andb_false_iff in E as [E|E]; bool_to_prop; lia. }
  specialize (IH _ Hfit). unfold len in *. rewrite length_app. lia.
Qed.

Lemma page_items_Ok l count items : Forall record_ok l -> count + len l < 2 ^ 16 -> (0 < count <-> 0 < len items) ->
  page_items l count items =
    Ok (count + len (page_cut (len items) l), items ++ records_bytes (page_cut (len items) l),
        negb (len (page_cut (len items) l) =? len l)).
Proof.
  intros Hf. revert count items. induction Hf as [|r l Hr Hf IH]; intros count items Hc Hpos.
  { cbn [page_items page_cut]. unfold len, records_bytes. simpl. by rewrite N.add_0_r, app_nil_r. }
  assert (Hcons : len (r :: l) = 1 + len l) by (unfold len; simpl; lia). rewrite Hcons in Hc.
  cbn [page_items page_cut]. rewrite (encode_item_Ok sha256 _ (proj2 (proj2 Hr))). cbn [map_err res_bind].
  pose proof (record_length sha256 r Hr) as El. pose proof (item_length sha256 r Hr) as Hil. change MAX_ITEM_BYTES with 266342 in Hil.
  replace (11 + len items + 12 + len (written (put_item (po_item r)))) with (11 + len items + len (record_bytes r)) by lia.
  assert (Hz : (0 <? len items) = (0 <? count)).
  { destruct (N.ltb_spec 0 (len items)), (N.ltb_spec 0 count); try done; lia. }
  rewrite Hz. destruct (_ && _) eqn:E.
  { unfold records_bytes, len. simpl. rewrite N.add_0_r, app_nil_r. done. }
  unfold checked_add. rewrite (proj2 (N.ltb_lt _ _)) by lia. rewrite wrap_small by lia.
  change (items ++ be 8 (po_position r) ++ be 4 (len (written (put_item (po_item r)))) ++ written (put_item (po_item r)))
    with (items ++ record_bytes r). rewrite IH; [|lia|].
  - assert (len (items ++ record_bytes r) = len items + len (record_bytes r)) as -> by (unfold len; rewrite length_app; lia).
    rewrite records_bytes_cons, <- app_assoc. set (c := page_cut _ l).
    replace (len (r :: c)) with (1 + len c) by (unfold len; simpl; lia). rewrite Hcons. f_equal. f_equal; [f_equal; lia|].
    f_equal. destruct (N.eqb_spec (len c) (len l)), (N.eqb_spec (1 + len c) (1 + len l)); try done; lia.
  - unfold len in *. rewrite length_app. lia.
Qed.

(** The page as it is sent. *)
Definition cut_page (page : RelayPage) : RelayPage :=
  let cut := page_cut 0 (rp_records page) in
  if len cut =? len (rp_records page) then page
  else mkRelayPage (rp_head page) (po_position <$> last cut) cut.

Lemma cut_records page : rp_records (cut_page page) = page_cut 0 (rp_records page).
Proof.
  unfold cut_page. destruct (N.eqb_spec (len (page_cut 0 (rp_records page))) (len (rp_records page))) as [E|E]; [|done].
  destruct (page_cut_prefix 0 (rp_records page)) as [k Ek]. rewrite Ek in E at 2. unfold len in E. rewrite length_app in E.
  destruct k; [by rewrite app_nil_r in Ek|simpl in E; lia].
Qed.

Lemma follows_app p l k : follows_on p (l ++ k) <-> follows_on p l /\ follows_on (p + len l) k.
Proof.
  revert p. induction l as [|r l IH]; intros p; simpl; [unfold len; simpl; rewrite N.add_0_r; tauto|].
  rewrite IH. replace (p + 1 + len l) with (p + len (r :: l)) by (unfold len; simpl; lia). tauto.
Qed.

Lemma cut_contract page after limit : page_contract page after limit -> page_contract (cut_page page) after limit.
Proof.
  intros Hc. pose proof Hc as ((Hlim & Hn) & Hcase). unfold cut_page. set (cut := page_cut 0 (rp_records page)) in *.
  destruct (N.eqb_spec (len cut) (len (rp_records page))) as [E|E]; [done|].
  destruct (page_cut_prefix 0 (rp_records page)) as [k Ek]. fold cut in Ek.
  destruct Hcase as [(_ & Er & _)|(Hf & Hle & _ & _)].
  { destruct E. unfold cut. rewrite Er. done. }
  assert (Hlen : len (rp_records page) = len cut + len k) by (rewrite Ek; unfold len; rewrite length_app; lia).
  rewrite Ek in Hf. apply follows_app in Hf as [Hf _].
  assert (Hne : cut <> []).
  { apply page_cut_some. intros Er. destruct E. unfold cut. by rewrite Er. }
  destruct (last cut) as [r|] eqn:El; [|by apply last_None in El].
  pose proof (follows_last _ _ _ Hf El) as Ep. unfold page_contract. cbn [rp_head rp_next rp_records].
  split; [split; [done|lia]|]. right. split; [done|]. split; [lia|]. split; [lia|]. intros _.
  split; [destruct cut; [done|unfold len; simpl; lia]|]. simpl. by rewrite Ep.
Qed.

Lemma cut_page_ok page : page_ok page -> page_ok (cut_page page).
Proof.
  intros [Hh Hf]. split; [unfold cut_page; by case_match|]. rewrite cut_records.
  destruct (page_cut_prefix 0 (rp_records page)) as [k Ek]. rewrite Ek in Hf. by apply Forall_app in Hf as [? _].
Qed.

Lemma encode_page_Ok page : page_ok page -> len (rp_records page) <= MAX_RELAY_PAGE ->
  encode_page page = Ok (page_bytes (cut_page page)) /\ len (page_bytes (cut_page page)) <= MAX_PAGE_BODY.
Proof.
  intros [Hh Hf] Hn. pose proof (page_cut_fits 0 _ Hf) as Hfit. change MAX_RELAY_PAGE with 64 in *. change MAX_PAGE_BODY with 4194304 in *.
  specialize (Hfit ltac:(lia)). unfold encode_page. change MAX_RELAY_PAGE with 64. rewrite (proj2 (N.ltb_ge _ _)) by done.
  rewrite page_items_Ok; [|done|lia|by unfold len]. cbn [res_bind app]. change (len (@nil N)) with 0.
  set (cut := page_cut 0 (rp_records page)) in *. split.
  - unfold page_bytes. rewrite cut_records. fold cut. unfold cut_page. fold cut. rewrite N.add_0_l.
    destruct (N.eqb_spec (len cut) (len (rp_records page))) as [E|E]; cbn [negb orb]; [done|]. cbn [rp_head rp_next].
    destruct (last cut) as [r|] eqn:El; [done|]. apply last_None in El. destruct E. 
    assert (rp_records page = []) as -> by (destruct (rp_records page); [done|by destruct (page_cut_some (p :: l))]). by rewrite El.
  - unfold page_bytes. rewrite cut_records. fold cut. unfold len in *. rewrite !length_app, !be_length. simpl. lia.
Qed.

(** A page that fits is whole. *)
Lemma page_cut_whole used l : 11 + used + len (records_bytes l) <= MAX_PAGE_BODY -> page_cut used l = l.
Proof.
  revert used. induction l as [|r l IH]; intros used Hu; cbn [page_cut]; [done|].
  rewrite records_bytes_cons in Hu. assert (E : len (record_bytes r ++ records_bytes l) = len (record_bytes r) + len (records_bytes l))
    by (unfold len; rewrite length_app; lia).
  rewrite E in Hu. rewrite (proj2 (N.ltb_ge _ _)) by lia. cbn [andb]. by rewrite IH by lia.
Qed.

Lemma cut_page_whole page : len (page_bytes page) <= MAX_PAGE_BODY -> cut_page page = page.
Proof.
  intros Hl. unfold cut_page. rewrite page_cut_whole; [by rewrite N.eqb_refl|].
  unfold page_bytes, len in *. rewrite !length_app, !be_length in Hl. simpl in Hl. lia.
Qed.

(** The decoder accepts exactly what the encoder makes of whole pages. *)
Lemma decode_page_iff body after limit page : Forall byte body ->
  decode_page sha256 body after limit = Ok page <->
  page_ok page /\ page_contract page after limit /\ cut_page page = page /\ encode_page page = Ok body.
Proof.
  intros Hb. split.
  - intros (Hok & Hc & Hl & ->)%decode_page_sound; [|done]. pose proof Hc as [[? ?] _]. pose proof (cut_page_whole page Hl) as Ew.
    destruct (encode_page_Ok page Hok) as [E _]; [lia|]. rewrite E, Ew. done.
  - intros (Hok & Hc & Ew & E). pose proof Hc as [[? ?] _]. destruct (encode_page_Ok page Hok) as [E' Hl]; [lia|].
    rewrite Ew in E', Hl. rewrite E' in E. injection E as <-. by apply decode_page_complete.
Qed.
End Pages.
