(* ===== verification/Mailbox.v ===== *)
(** The mailbox of the private relay and its service
    (src/crates/vhalla-private-native/src/relay): the in-process [Store] of
    mod.rs, the dispatch of codec.rs, one request of net.rs and the client that
    makes it.  The connection is a byte string each way. *)
From Stdlib Require Import Ascii String.
From stdpp Require Import gmap.
From S2P Require Import Prelude Utf8 Bytes Wire Signed OrderedMap RelayItem.

Record Limits : Type := mkLimits { max_items : N; max_bytes : N }.

Definition Limits_check (l : Limits) : res RelayError unit :=
  if (max_items l =? 0) || (MAX_RELAY_ITEMS <? max_items l) || (max_bytes l =? 0) then Err RelayBounds else Ok tt.

(** Retained items, by position. *)
Record Store : Type := mkStore {
  st_namespace : RelayNamespace; st_limits : Limits; st_bytes : N; st_items : gmap N RelayItem;
}.

Definition Store_new (namespace : RelayNamespace) (limits : Limits) : res RelayError Store :=
  let? _ := Limits_check limits in Ok (mkStore namespace limits 0 ∅).

(** [last_key_value] of the map. *)
Definition last_key (items : gmap N RelayItem) : option N := last (entries items).*1.

Definition store_put (item : RelayItem) : eff Store RelayError RelayReceipt :=
  let! s := get in
  if negb (bool_decide (ri_namespace item = st_namespace s)) then throw RelayScope
  else
    match List.find (fun e => bool_decide (ri_digest e.2 = ri_digest item)) (entries (st_items s)) with
    | Some (position, _) => ret (mkRelayReceipt position (ri_digest item) true)
    | None =>
        if existsb (fun e => bool_decide (ri_operation e.2 = ri_operation item)) (entries (st_items s)) then throw RelayConflict
        else
          let! full :=
            lift (if max_items (st_limits s) <=? N.of_nat (size (st_items s)) then Ok true
                  else let? total := ok_or (checked_add 64 (st_bytes s) (len (ri_payload item))) RelayCapacity in
                       Ok (max_bytes (st_limits s) <? total)) in
          if full then throw RelayCapacity
          else
            let! position := lift (ok_or (checked_add 64 (default 0 (last_key (st_items s))) 1) RelayBounds) in
            let! bytes := lift (plain_add (st_bytes s) (len (ri_payload item))) in
            do! modify (fun s => mkStore (st_namespace s) (st_limits s) bytes (<[position := item]> (st_items s))) in
            ret (mkRelayReceipt position (ri_digest item) false)
    end.

Definition store_page (s : Store) (after limit : N) : res RelayError RelayPage :=
  if (limit =? 0) || (MAX_RELAY_PAGE <? limit) then Err RelayBounds
  else
    let? start := ok_or (checked_add 64 after 1) RelayBounds in
    let range := List.filter (fun e => start <=? e.1) (entries (st_items s)) in
    let records := (fun e => mkPositioned e.1 e.2) <$> take (N.to_nat limit) range in
    let rest := drop (N.to_nat limit) range in
    let next :=
      match last records, rest with
      | Some r, _ :: _ => Some (po_position r)
      | _, _ => None
      end in
    Ok (mkRelayPage (default 0 (last_key (st_items s))) next records).

(** ** Service *)

(** The trait of mailboxes. *)
Class Mailbox (S : Type) : Type := {
  mailbox_put : RelayItem -> eff S RelayError RelayReceipt;
  mailbox_page : S -> N -> N -> res RelayError RelayPage;
}.
#[export] Instance store_mailbox : Mailbox Store := {| mailbox_put := store_put; mailbox_page := store_page |}.

Definition RelayToken : Type := list N.
Definition token_from_bytes (bytes : list N) : res NetError RelayToken :=
  if bool_decide (bytes = replicate 32 0) then Err NetBounds else Ok bytes.

(** [zip] ends with the shorter list. *)
Definition authorized (token : RelayToken) (presented : list N) : bool :=
  if negb (len presented =? 32) then false
  else foldl (fun diff '(a, b) => N.lor diff (N.lxor a b)) 0 (zip token presented) =? 0.

Section Service.
Context (sha256 : list N -> list N) {S : Type} `{Hm : Mailbox S}.

Definition dispatch (op : N) (body : list N) : eff S NetError (N * list N) :=
  if op =? OP_PUT then
    fun s =>
      match (let! item := lift (decode_item sha256 body) in mailbox_put item) s with
      | (Ok receipt, s) => (Ok (STATUS_OK, encode_relay_receipt receipt), s)
      | (Err error, s) => (Ok (relay_status error, []), s)
      | (Panic, s) => (Panic, s)
      end
  else if (op =? OP_PAGE) && (len body =? 10) then
    let! after := lift (sub_int body 0 8) in
    let! limit := lift (sub_int body 8 2) in
    let! s := get in
    match mailbox_page s after limit with
    | Ok page => let! encoded := lift (encode_page page) in ret (STATUS_OK, encoded)
    | Err error => ret (relay_status error, [])
    | Panic => panic
    end
  else ret (STATUS_BOUNDS, []).

(** [read_frame] of a connection that holds these bytes. *)
Definition read_frame (max : N) : reads NetError (list N) :=
  let! length := r_int 4 NetUnavailable in
  if (length =? 0) || (max <? length) then throw NetMalformed
  else r_slice (N.to_nat length) NetUnavailable.

(** One request, and the bytes of the response. *)
Definition handle (token : RelayToken) (stream : list N) : eff S NetError (list N) :=
  let! request := lift (fst (read_frame MAX_REQUEST (mkReader stream 0))) in
  let! op := lift (index request 0) in
  let! body := lift (sub_slice request 1 (length request)) in
  let! denied :=
    lift (if len body <? 32 then Ok true else let? presented := sub_slice body 0 32 in Ok (negb (authorized token presented))) in
  if denied then lift (relay_frame STATUS_DENIED [])
  else
    let! body := lift (sub_slice body 32 (length body)) in
    let! '(code, out) := dispatch op body in
    lift (relay_frame code out).

(** The body of the loop of [serve_with_timeout]: an error closes the connection. *)
Definition serve_connection (token : RelayToken) (stream : list N) : eff S NetError (list N) :=
  fun s =>
    match handle token stream s with
    | (Err _, s) => (Ok [], s)
    | (answer, s) => (answer, s)
    end.

(** ** Client *)

Record SocketRelay : Type := mkSocketRelay { sr_token : RelayToken }.

(** [peer] answers one connection. *)
Definition exchange (peer : list N -> eff S NetError (list N)) (relay : SocketRelay) (op : N) (body : list N) :
    eff S NetError (list N) :=
  let! request := lift (relay_frame op (sr_token relay ++ body)) in
  let! stream := peer request in
  let! response := lift (fst (read_frame MAX_RESPONSE (mkReader stream 0))) in
  let! code := lift (index response 0) in
  let! body := lift (sub_slice response 1 (length response)) in
  lift (decode_status code body).

Definition submit (peer : list N -> eff S NetError (list N)) (relay : SocketRelay) (item : RelayItem) :
    eff S NetError RelayReceipt :=
  let! encoded := lift (map_err (fun _ => NetBounds) (encode_item item)) in
  let! body := exchange peer relay OP_PUT encoded in
  lift (decode_receipt body item).

Definition page_until (peer : list N -> eff S NetError (list N)) (relay : SocketRelay) (after limit : N) :
    eff S NetError RelayPage :=
  let! request := lift (page_request after limit) in
  let! body := exchange peer relay OP_PAGE request in
  lift (decode_page sha256 body after limit).

Definition fetch (peer : list N -> eff S NetError (list N)) (relay : SocketRelay) (position : N) :
    eff S NetError (option PositionedItem) :=
  let! after := lift (ok_or (checked_sub position 1) NetBounds) in
  let! page := page_until peer relay after 1 in
  ret (List.find (fun record => po_position record =? position) (rp_records page)).
End Service.
