(* ===== verification/MailboxFacts.v ===== *)
(** The mailbox as a log of items, and sequences of calls on it. *)
From Stdlib Require Import Ascii String.
From stdpp Require Import gmap sorting.
From S2P Require Import Prelude Bytes Wire Signed OrderedMap Utf8 RelayItem RelayFacts.
From S2P Require Import RelayPages Mailbox.

(** The mailbox as a log of items ([Mailbox]): what each operation does to the
    log, and the interface by which the service and its clients know it. *)

(** Items at consecutive positions. *)
Fixpoint positions (p : N) (l : list RelayItem) : list (N * RelayItem) :=
  match l with
  | [] => []
  | x :: l => (p, x) :: positions (p + 1) l
  end.

Lemma positions_app p l k : positions p (l ++ k) = positions p l ++ positions (p + len l) k.
Proof.
  revert p. induction l as [|x l IH]; intros p; simpl; [by rewrite N.add_0_r|]. rewrite IH.
  by replace (p + 1 + len l) with (p + len (x :: l)) by (unfold len; simpl; lia).
Qed.

Lemma positions_length p l : length (positions p l) = length l.
Proof. revert p. induction l as [|x l IH]; intros p; simpl; [done|]. by rewrite IH. Qed.

Lemma positions_drop p n l : drop n (positions p l) = positions (p + N.of_nat n) (drop n l).
Proof.
  revert p l. induction n as [|n IH]; intros p l; [by rewrite !drop_0, N.add_0_r|]. destruct l as [|x l]; [done|]. simpl.
  rewrite IH. f_equal. lia.
Qed.

Lemma positions_take p n l : take n (positions p l) = positions p (take n l).
Proof. revert p l. induction n as [|n IH]; intros p [|x l]; try done. simpl. by rewrite IH. Qed.

Lemma positions_items p l : (positions p l).*2 = l.
Proof. revert p. induction l as [|x l IH]; intros p; csimpl; [done|]. by rewrite IH. Qed.

Lemma positions_last p l : last (positions p l).*1 = match l with [] => None | _ => Some (p + len l - 1) end.
Proof.
  destruct l as [|x l _] using rev_ind; [done|]. rewrite positions_app, fmap_app. simpl. rewrite last_snoc.
  destruct (l ++ [x]) eqn:E; [by apply app_nil in E as []|]. rewrite <- E. unfold len. rewrite length_app. simpl. f_equal. lia.
Qed.

Lemma positions_keys p l k x : (k, x) ∈ positions p l -> p <= k < p + len l.
Proof.
  revert p. induction l as [|y l IH]; intros p; simpl; [by intros ?%elem_of_nil|].
  replace (len (y :: l)) with (1 + len l) by (unfold len; simpl; lia).
  intros [[= -> ->]|H]%elem_of_cons; [lia|]. apply IH in H. lia.
Qed.

(** The positions from [start] on. *)
Lemma positions_from p l start : p <= start ->
  List.filter (fun e : N * RelayItem => start <=? e.1) (positions p l) = drop (N.to_nat (start - p)) (positions p l).
Proof.
  revert p. induction l as [|x l IH]; intros p Hp; simpl; [by rewrite drop_nil|].
  destruct (N.leb_spec start p) as [H|H].
  - replace start with p by lia. rewrite N.sub_diag. simpl. f_equal. clear. assert (Hq : p <= p + 1) by lia. revert Hq. generalize (p + 1).
    induction l as [|y l IH]; intros q Hq; simpl; [done|]. rewrite (proj2 (N.leb_le _ _)) by done. f_equal. apply IH. lia.
  - rewrite IH by lia. replace (N.to_nat (start - p)) with (S (N.to_nat (start - (p + 1)))) by lia. done.
Qed.

(** ** The log *)

Definition payload_sum (l : list RelayItem) : N := foldr (fun i n => len (ri_payload i) + n) 0 l.

Lemma payload_sum_app l k : payload_sum (l ++ k) = payload_sum l + payload_sum k.
Proof. induction l as [|x l IH]; simpl; [done|]. rewrite IH. lia. Qed.

(** Where an item with this commitment is retained. *)
Fixpoint position_of (digest : list N) (p : N) (l : list RelayItem) : option N :=
  match l with
  | [] => None
  | x :: l => if bool_decide (ri_digest x = digest) then Some p else position_of digest (p + 1) l
  end.

(** The mailbox of a namespace with these limits. *)
Definition log_put (namespace : RelayNamespace) (limits : Limits) (item : RelayItem) (log : list RelayItem) :
    res RelayError RelayReceipt * list RelayItem :=
  if negb (bool_decide (ri_namespace item = namespace)) then (Err RelayScope, log)
  else
    match position_of (ri_digest item) 1 log with
    | Some position => (Ok (mkRelayReceipt position (ri_digest item) true), log)
    | None =>
        if existsb (fun x => bool_decide (ri_operation x = ri_operation item)) log then (Err RelayConflict, log)
        else if (max_items limits <=? len log) || (max_bytes limits <? payload_sum log + len (ri_payload item))
        then (Err RelayCapacity, log)
        else (Ok (mkRelayReceipt (len log + 1) (ri_digest item) false), log ++ [item])
    end.

Definition positioned (p : N) (l : list RelayItem) : list PositionedItem := (fun e => mkPositioned e.1 e.2) <$> positions p l.

Definition log_page (log : list RelayItem) (after limit : N) : res RelayError RelayPage :=
  if (limit =? 0) || (MAX_RELAY_PAGE <? limit) || (2 ^ 64 <=? after + 1) then Err RelayBounds
  else
    let records := take (N.to_nat limit) (drop (N.to_nat after) log) in
    Ok (mkRelayPage (len log) (if after + limit <? len log then Some (after + limit) else None) (positioned (after + 1) records)).

(** Distinct commitments and operations, within the limits. *)
Record log_ok (sha256 : list N -> list N) (namespace : RelayNamespace) (limits : Limits) (log : list RelayItem) : Prop := {
  lo_items : Forall (item_ok sha256) log;
  lo_namespace : Forall (fun i => ri_namespace i = namespace) log;
  lo_digests : NoDup (ri_digest <$> log);
  lo_operations : NoDup (ri_operation <$> log);
  lo_count : len log <= max_items limits;
  lo_bytes : payload_sum log <= max_bytes limits;
  lo_limits : max_items limits <= MAX_RELAY_ITEMS;
  lo_machine : max_bytes limits < 2 ^ 64;
}.

(** What a mailbox promises to the service. *)
Class MailboxLaws (sha256 : list N -> list N) (S : Type) `{Mailbox S} (holds : S -> RelayNamespace -> Limits -> list RelayItem -> Prop) : Prop := {
  ml_ok s namespace limits log : holds s namespace limits log -> log_ok sha256 namespace limits log;
  ml_put s namespace limits log item : holds s namespace limits log -> item_ok sha256 item ->
    exists s', mailbox_put item s = (fst (log_put namespace limits item log), s') /\
      holds s' namespace limits (snd (log_put namespace limits item log));
  ml_page s namespace limits log after limit : holds s namespace limits log -> mailbox_page s after limit = log_page log after limit;
}.

Section Log.
Context (sha256 : list N -> list N).

Lemma position_of_Some digest p l q : position_of digest p l = Some q ->
  exists i x, l !! i = Some x /\ ri_digest x = digest /\ q = p + N.of_nat i.
Proof.
  revert p. induction l as [|x l IH]; intros p; simpl; [done|]. case_bool_decide.
  - intros [= <-]. exists 0%nat, x. split; [done|]. split; [done|]. lia.
  - intros (i & y & Hi & Hy & ->)%IH. exists (S i), y. split; [done|]. split; [done|]. lia.
Qed.

Lemma position_of_None digest p l : position_of digest p l = None <-> digest ∉ ri_digest <$> l.
Proof.
  revert p. induction l as [|x l IH]; intros p; csimpl; [split; [intros _; apply not_elem_of_nil|done]|]. case_bool_decide as E.
  - split; [done|]. intros H. destruct H. apply elem_of_cons. by left.
  - rewrite IH, not_elem_of_cons. naive_solver.
Qed.

Lemma existsb_operation op l : existsb (fun x => bool_decide (ri_operation x = op)) l = false <-> op ∉ ri_operation <$> l.
Proof.
  induction l as [|x l IH]; csimpl; [split; [intros _; apply not_elem_of_nil|done]|]. rewrite orb_false_iff, IH, not_elem_of_cons.
  rewrite bool_decide_eq_false. naive_solver.
Qed.

Lemma log_put_ok namespace limits item log : log_ok sha256 namespace limits log -> item_ok sha256 item ->
  log_ok sha256 namespace limits (snd (log_put namespace limits item log)).
Proof.
  intros Hl Hi. unfold log_put. case_bool_decide as En; cbn [negb]; [|done].
  destruct (position_of _ _ _) eqn:Ep; [done|]. apply position_of_None in Ep.
  destruct (existsb _ _) eqn:Eo; [done|]. apply existsb_operation in Eo. destruct (_ || _) eqn:Ec; [done|]. bool_to_prop.
  destruct Hl as [H1 H2 H3 H4 H5 H6 H7 H8]. split; simpl; rewrite ?fmap_app.
  - apply Forall_app. by split; [|constructor].
  - apply Forall_app. by split; [|constructor].
  - apply NoDup_app. split; [done|]. split; [|by apply NoDup_singleton]. intros x Hx ->%list_elem_of_singleton. done.
  - apply NoDup_app. split; [done|]. split; [|by apply NoDup_singleton]. intros x Hx ->%list_elem_of_singleton. done.
  - unfold len in *. rewrite length_app. simpl. lia.
  - rewrite payload_sum_app. simpl. lia.
  - done.
  - done.
Qed.
End Log.

(** ** The in-process store *)

Section Store.
Context (sha256 : list N -> list N).

Record store_holds (s : Store) (namespace : RelayNamespace) (limits : Limits) (log : list RelayItem) : Prop := {
  sh_namespace : st_namespace s = namespace;
  sh_limits : st_limits s = limits;
  sh_items : entries (st_items s) = positions 1 log;
  sh_bytes : st_bytes s = payload_sum log;
  sh_log : log_ok sha256 namespace limits log;
}.

Lemma find_digest digest p l :
  List.find (fun e : N * RelayItem => bool_decide (ri_digest e.2 = digest)) (positions p l) =
  match position_of digest p l with
  | Some q => match l !! N.to_nat (q - p) with Some x => Some (q, x) | None => None end
  | None => None
  end.
Proof.
  revert p. induction l as [|x l IH]; intros p; simpl; [done|]. case_bool_decide; [by rewrite N.sub_diag|]. rewrite IH.
  destruct (position_of digest (p + 1) l) as [q|] eqn:E; [|done]. apply position_of_Some in E as (i & y & _ & _ & ->).
  by replace (N.to_nat (p + 1 + N.of_nat i - p)) with (S (N.to_nat (p + 1 + N.of_nat i - (p + 1)))) by lia.
Qed.

Lemma exists_operation op p l :
  existsb (fun e : N * RelayItem => bool_decide (ri_operation e.2 = op)) (positions p l) =
  existsb (fun x => bool_decide (ri_operation x = op)) l.
Proof. revert p. induction l as [|x l IH]; intros p; simpl; [done|]. by rewrite IH. Qed.

Lemma held_size s namespace limits log : store_holds s namespace limits log -> N.of_nat (size (st_items s)) = len log.
Proof. intros H. by rewrite <- length_entries, (sh_items _ _ _ _ H), positions_length. Qed.

Lemma held_last s namespace limits log : store_holds s namespace limits log -> default 0 (last_key (st_items s)) = len log.
Proof.
  intros H. unfold last_key. rewrite (sh_items _ _ _ _ H), positions_last. destruct log; [done|]. unfold len. simpl. lia.
Qed.

Lemma insert_position (m : gmap N RelayItem) log item : entries m = positions 1 log ->
  entries (<[len log + 1 := item]> m) = positions 1 (log ++ [item]).
Proof.
  intros E. symmetry. assert (Hk : forall k x, (k, x) ∈ entries m -> k < len log + 1).
  { intros k x Hk. rewrite E in Hk. apply positions_keys in Hk. lia. }
  apply entries_unique.
  - rewrite positions_app, fmap_app, <- E. cbn [fmap list_fmap positions fst]. apply sorted_snoc. split; [apply entries_sorted|].
    intros k Hl. apply last_Some_elem_of in Hl. apply list_elem_of_fmap in Hl as ([k' x] & -> & Hx). apply Hk in Hx. apply key_lt_N. simpl. lia.
  - rewrite positions_app, <- E. apply map_eq. intros k. destruct (decide (k = len log + 1)) as [->|Hne].
    + rewrite lookup_insert_eq. apply elem_of_list_to_map.
      * rewrite fmap_app. apply NoDup_app. split; [apply entries_nodup|]. split; [|cbn; apply NoDup_singleton].
        intros k ([k' x] & -> & Hx)%list_elem_of_fmap Hin. apply Hk in Hx. cbn in Hin. apply list_elem_of_singleton in Hin. simpl in *. lia.
      * apply elem_of_app. right. cbn. apply list_elem_of_singleton. f_equal. lia.
    + rewrite lookup_insert_ne by done. rewrite list_to_map_app, lookup_union_l.
      * by rewrite entries_map.
      * cbn. rewrite lookup_insert_ne; [apply lookup_empty|lia].
Qed.

Lemma store_put_log s namespace limits log item : store_holds s namespace limits log -> item_ok sha256 item ->
  exists s', store_put item s = (fst (log_put namespace limits item log), s') /\
    store_holds s' namespace limits (snd (log_put namespace limits item log)).
Proof.
  intros Hs Hi. pose proof (log_put_ok sha256 _ _ item _ (sh_log _ _ _ _ Hs) Hi) as Hok. revert Hok.
  unfold store_put, bind, get, throw, ret, modify, lift, log_put. rewrite (sh_namespace _ _ _ _ Hs).
  case_bool_decide; cbn [negb]; [|by exists s]. rewrite (sh_items _ _ _ _ Hs), find_digest.
  destruct (position_of (ri_digest item) 1 log) as [q|] eqn:Eq.
  { intros _. apply position_of_Some in Eq as (i & x & Hx & _ & ->). replace (N.to_nat (1 + N.of_nat i - 1)) with i by lia.
    rewrite Hx. by exists s. }
  rewrite exists_operation. destruct (existsb _ log) eqn:Eo; [by exists s|].
  rewrite (held_size _ _ _ _ Hs), (held_last _ _ _ _ Hs), (sh_limits _ _ _ _ Hs), (sh_bytes _ _ _ _ Hs).
  pose proof (io_size _ _ Hi) as Hsz. change MAX_RELAY_PAYLOAD with 266240 in Hsz. pose proof (sh_log _ _ _ _ Hs) as Hl.
  destruct (N.leb_spec (max_items limits) (len log)) as [Hc|Hc]; cbn [orb]; [by exists s|].
  pose proof (lo_limits _ _ _ _ Hl) as Hm. change MAX_RELAY_ITEMS with 4096 in Hm.
  unfold checked_add at 1. destruct (N.ltb_spec (payload_sum log + len (ri_payload item)) (2 ^ 64)) as [Hf|Hf]; cbn.
  - destruct (N.ltb_spec (max_bytes limits) (payload_sum log + len (ri_payload item))) as [Hb|Hb]; cbn; [by exists s|]. intros Hok.
    assert (E1 : checked_add 64 (len log) 1 = Some (len log + 1)) by (unfold checked_add; by rewrite (proj2 (N.ltb_lt _ _)) by lia).
    rewrite E1. assert (E2 : plain_add (E := RelayError) (payload_sum log) (len (ri_payload item)) = Ok (payload_sum log + len (ri_payload item)))
      by (apply plain_ok; lia).
    rewrite E2. cbn. eexists. split; [done|].
    split; cbn; [apply Hs|apply Hs| |rewrite payload_sum_app; cbn; lia|done]. apply insert_position, (sh_items _ _ _ _ Hs).
  - pose proof (lo_machine _ _ _ _ Hl). rewrite (proj2 (N.ltb_lt _ _)) by lia. cbn. by exists s.
Qed.

Lemma take_drop_records p n l : (fun e : N * RelayItem => mkPositioned e.1 e.2) <$> take n (positions p l) = positioned p (take n l).
Proof. unfold positioned. by rewrite positions_take. Qed.

Lemma store_page_log s namespace limits log after limit : store_holds s namespace limits log ->
  store_page s after limit = log_page log after limit.
Proof.
  intros Hs. unfold store_page, log_page. destruct (N.eqb_spec limit 0); [done|]. cbn [orb].
  destruct (N.ltb_spec MAX_RELAY_PAGE limit); [done|]. cbn [orb]. unfold checked_add. rewrite N.leb_antisym.
  destruct (N.ltb_spec (after + 1) (2 ^ 64)); [|done]. cbn [negb ok_or res_bind]. rewrite (held_last _ _ _ _ Hs), (sh_items _ _ _ _ Hs).
  rewrite positions_from by lia. replace (N.to_nat (after + 1 - 1)) with (N.to_nat after) by lia. rewrite positions_drop.
  replace (1 + N.of_nat (N.to_nat after)) with (after + 1) by lia. rewrite take_drop_records. f_equal. f_equal.
  rewrite positions_drop. set (records := take (N.to_nat limit) _).
  assert (Hr : last (positioned (after + 1) records) = None /\ records = [] \/
    exists r, last (positioned (after + 1) records) = Some r /\ po_position r = after + len records).
  { unfold positioned. rewrite fmap_last. pose proof (positions_last (after + 1) records) as Hp. rewrite fmap_last in Hp.
    destruct (last (positions _ records)) as [[p x]|]; cbn in *; destruct records as [|y k]; try done.
    - right. eexists. split; [done|]. cbn. injection Hp as ->. lia.
    - by left. }
  pose proof (length_drop log (N.to_nat after)) as Hd. unfold len in *.
  pose proof (length_drop (drop (N.to_nat after) log) (N.to_nat limit)) as Hd'.
  assert (Hk : length records = (N.to_nat limit `min` length (drop (N.to_nat after) log))%nat) by apply length_take.
  destruct Hr as [[-> Hr]|(r & -> & Hp)].
  - rewrite Hr in Hk. cbn in Hk. destruct (N.ltb_spec (after + limit) (N.of_nat (length log))); [lia|done].
  - destruct (drop (N.to_nat limit) _) as [|y k]; cbn in *; destruct (N.ltb_spec (after + limit) (N.of_nat (length log))); try done; try lia.
    f_equal. lia.
Qed.

Lemma Store_new_holds namespace limits s : max_bytes limits < 2 ^ 64 -> Store_new namespace limits = Ok s ->
  store_holds s namespace limits [].
Proof.
  intros Hb. unfold Store_new, Limits_check. destruct (_ || _) eqn:E; [done|]. intros [= <-]. bool_to_prop.
  assert (log_ok sha256 namespace limits []) 
    by (split; cbn; first [by apply Forall_nil|by apply NoDup_nil|done|unfold len; cbn; lia]).
  by split.
Qed.
End Store.

#[export] Instance store_laws sha256 : MailboxLaws sha256 Store (store_holds sha256).
Proof.
  split; [intros s n l log Hs; exact (sh_log _ _ _ _ _ Hs)|intros; by apply store_put_log|intros; by eapply store_page_log].
Qed.

(** Sequences of operations on a mailbox, through its interface
    ([MailboxLaws]): they are the operations on the log, which only grows. *)

Inductive MailboxCall : Type := CallPut (item : RelayItem) | CallPage (after limit : N).
Inductive MailboxOut : Type := OutPut (r : res RelayError RelayReceipt) | OutPage (r : res RelayError RelayPage).

Definition mailbox_call {S} `{Mailbox S} (c : MailboxCall) (s : S) : MailboxOut * S :=
  match c with
  | CallPut item => let '(r, s) := mailbox_put item s in (OutPut r, s)
  | CallPage after limit => (OutPage (mailbox_page s after limit), s)
  end.

Definition log_call (namespace : RelayNamespace) (limits : Limits) (c : MailboxCall) (log : list RelayItem) : MailboxOut * list RelayItem :=
  match c with
  | CallPut item => let '(r, log) := log_put namespace limits item log in (OutPut r, log)
  | CallPage after limit => (OutPage (log_page log after limit), log)
  end.

(** One call after the other, with what each returned. *)
Fixpoint run_calls {S} (call : MailboxCall -> S -> MailboxOut * S) (calls : list MailboxCall) (s : S) : list MailboxOut * S :=
  match calls with
  | [] => ([], s)
  | c :: calls =>
      let '(out, s) := call c s in
      let '(outs, s) := run_calls call calls s in
      (out :: outs, s)
  end.

Definition call_ok (sha256 : list N -> list N) (c : MailboxCall) : Prop :=
  match c with CallPut item => item_ok sha256 item | CallPage _ _ => True end.

(** Where an item is, its receipt and what a repetition returns. *)
Definition item_retained (namespace : RelayNamespace) (limits : Limits) (log : list RelayItem) (item : RelayItem) (r : RelayReceipt) : Prop :=
  rr_digest r = ri_digest item /\ 1 <= rr_position r /\
  (exists x, log !! N.to_nat (rr_position r - 1) = Some x /\ ri_digest x = ri_digest item) /\
  log_put namespace limits item log = (Ok (mkRelayReceipt (rr_position r) (ri_digest item) true), log).

Section Runs.
Context (sha256 : list N -> list N).

Lemma run_calls_log {S} `{Mailbox S} (holds : S -> RelayNamespace -> Limits -> list RelayItem -> Prop) `{!MailboxLaws sha256 S holds}
    namespace limits calls s log : holds s namespace limits log -> Forall (call_ok sha256) calls ->
  exists s', run_calls mailbox_call calls s = (fst (run_calls (log_call namespace limits) calls log), s') /\
    holds s' namespace limits (snd (run_calls (log_call namespace limits) calls log)).
Proof.
  intros Hh Hc. revert s log Hh. induction Hc as [|c calls Hc _ IH]; intros s log Hh; cbn [run_calls]; [by exists s|].
  destruct c as [item|after limit]; cbn [mailbox_call log_call].
  - destruct (ml_put s namespace limits log item Hh Hc) as (s1 & E & Hh1). rewrite E.
    destruct (log_put namespace limits item log) as [r log1]. cbn [fst snd] in *. destruct (IH s1 log1 Hh1) as (s' & E' & Hh'). rewrite E'.
    destruct (run_calls (log_call namespace limits) calls log1) as [outs log']. by exists s'.
  - rewrite (ml_page s namespace limits log after limit Hh). destruct (IH s log Hh) as (s' & E' & Hh'). rewrite E'.
    destruct (run_calls (log_call namespace limits) calls log) as [outs log']. by exists s'.
Qed.

Lemma log_put_grows namespace limits item log : log `prefix_of` snd (log_put namespace limits item log).
Proof. unfold log_put. repeat case_match; cbn; try reflexivity. by apply prefix_app_r. Qed.

Lemma log_run_grows namespace limits calls log : log `prefix_of` snd (run_calls (log_call namespace limits) calls log).
Proof.
  revert log. induction calls as [|[item|after limit] calls IH]; intros log; cbn [run_calls log_call]; [reflexivity|..].
  - pose proof (log_put_grows namespace limits item log) as H1. destruct (log_put namespace limits item log) as [r log1]. cbn in H1.
    specialize (IH log1). destruct (run_calls _ calls log1) as [outs log']. by etrans.
  - specialize (IH log). by destruct (run_calls _ calls log) as [outs log'].
Qed.

Lemma log_run_ok namespace limits calls log : log_ok sha256 namespace limits log -> Forall (call_ok sha256) calls ->
  log_ok sha256 namespace limits (snd (run_calls (log_call namespace limits) calls log)).
Proof.
  intros Hl Hc. revert log Hl. induction Hc as [|[item|after limit] calls Hc _ IH]; intros log Hl; cbn [run_calls log_call]; [done|..].
  - pose proof (log_put_ok sha256 namespace limits item log Hl Hc) as H1. destruct (log_put namespace limits item log) as [r log1]. cbn in H1.
    specialize (IH log1 H1). by destruct (run_calls _ calls log1) as [outs log'].
  - specialize (IH log Hl). by destruct (run_calls _ calls log) as [outs log'].
Qed.

(** The position of a commitment in a log without repetitions. *)
Lemma position_of_lookup digest p log i x : NoDup (ri_digest <$> log) -> log !! i = Some x -> ri_digest x = digest ->
  position_of digest p log = Some (p + N.of_nat i).
Proof.
  revert p i. induction log as [|y log IH]; intros p i Hnd Hi Hx; [done|]. rewrite fmap_cons in Hnd. apply NoDup_cons in Hnd as [Hy Hnd].
  cbn [position_of]. destruct i as [|i].
  - injection Hi as ->. rewrite bool_decide_true by done. f_equal. lia.
  - cbn in Hi. case_bool_decide as E; [|rewrite (IH (p + 1) i Hnd Hi Hx); f_equal; lia].
    destruct Hy. rewrite E, <- Hx. apply list_elem_of_fmap. exists x. split; [done|by eapply list_elem_of_lookup_2].
Qed.

(** What was accepted stays, and a repetition finds it. *)
Lemma accepted_retained namespace limits item log r log' final : fst (log_put namespace limits item log) = Ok r ->
  log' = snd (log_put namespace limits item log) -> log' `prefix_of` final -> log_ok sha256 namespace limits final ->
  item_retained namespace limits final item r.
Proof.
  intros Hr -> [k Ek] Hok.
  assert (Hin : rr_digest r = ri_digest item /\ ri_namespace item = namespace /\
    exists i x, snd (log_put namespace limits item log) !! i = Some x /\ ri_digest x = ri_digest item /\ rr_position r = 1 + N.of_nat i).
  { revert Hr. unfold log_put. case_bool_decide as En; cbn [negb]; [|done]. destruct (position_of _ _ _) as [q|] eqn:Eq.
    - intros [= <-]. apply position_of_Some in Eq as (i & x & Hx & Hd & ->). split; [done|]. split; [done|]. by exists i, x.
    - destruct (existsb _ _); [done|]. destruct (_ || _); [done|]. intros [= <-]. split; [done|]. split; [done|].
      exists (length log), item. cbn. rewrite list_lookup_middle by done. split; [done|]. split; [done|]. unfold len. lia. }
  destruct Hin as (Hd & Hn & i & x & Hx & Hdx & Hp). assert (Hf : final !! i = Some x) by (rewrite Ek; by apply lookup_app_l_Some).
  unfold item_retained. split; [done|]. split; [lia|]. rewrite Hp. split.
  - exists x. split; [|done]. by replace (N.to_nat (1 + N.of_nat i - 1)) with i by lia.
  - unfold log_put. rewrite bool_decide_true by done. cbn [negb].
    by rewrite (position_of_lookup _ 1 final i x (lo_digests _ _ _ _ Hok) Hf Hdx).
Qed.

Lemma log_run_retained namespace limits calls log i item r : log_ok sha256 namespace limits log -> Forall (call_ok sha256) calls ->
  calls !! i = Some (CallPut item) -> fst (run_calls (log_call namespace limits) calls log) !! i = Some (OutPut (Ok r)) ->
  item_retained namespace limits (snd (run_calls (log_call namespace limits) calls log)) item r.
Proof.
  intros Hl Hc. revert log i Hl. induction Hc as [|c calls Hc Hcs IH]; intros log i Hl; [done|]. cbn [run_calls].
  destruct (log_call namespace limits c log) as [out log1] eqn:E1. pose proof (log_run_grows namespace limits calls log1) as Hg.
  pose proof (fun H => log_run_ok namespace limits calls log1 H Hcs) as Hok. specialize (IH log1).
  assert (Hl1 : log_ok sha256 namespace limits log1).
  { destruct c as [it|after limit]; cbn in E1; [|by injection E1 as _ <-].
    pose proof (log_put_ok sha256 namespace limits it log Hl Hc). destruct (log_put namespace limits it log). by injection E1 as _ <-. }
  destruct (run_calls (log_call namespace limits) calls log1) as [outs final]. cbn [fst snd] in *. destruct i as [|i]; cbn.
  - intros [= ->] [= ->]. cbn in E1. destruct (log_put namespace limits item log) as [q log2] eqn:Ep. injection E1 as -> ->.
    apply (accepted_retained namespace limits item log r log1 final); [by rewrite Ep|by rewrite Ep|done|by apply Hok].
  - intros H1 H2. by apply (IH i).
Qed.

(** Distinct items within the limits are all accepted, in order. *)
Fixpoint receipts (p : N) (l : list RelayItem) : list RelayReceipt :=
  match l with
  | [] => []
  | x :: l => mkRelayReceipt p (ri_digest x) false :: receipts (p + 1) l
  end.

Lemma log_put_next namespace limits item log : log_ok sha256 namespace limits (log ++ [item]) ->
  log_put namespace limits item log = (Ok (mkRelayReceipt (len log + 1) (ri_digest item) false), log ++ [item]).
Proof.
  intros [H1 H2 H3 H4 H5 H6 _ _]. rewrite fmap_app in H3, H4. apply NoDup_app in H3 as (_ & H3 & _). apply NoDup_app in H4 as (_ & H4 & _).
  apply Forall_app in H2 as [_ H2]. apply Forall_inv in H2. rewrite payload_sum_app in H6. cbn in H6. unfold len in H5. rewrite length_app in H5. cbn in H5.
  unfold log_put. rewrite bool_decide_true by done. cbn [negb].
  rewrite (proj2 (position_of_None sha256 _ _ _)) by (intros Hin; apply (H3 _ Hin); cbn; by apply list_elem_of_singleton).
  rewrite (proj2 (existsb_operation sha256 _ _)) by (intros Hin; apply (H4 _ Hin); cbn; by apply list_elem_of_singleton).
  rewrite (proj2 (N.leb_gt _ _)), (proj2 (N.ltb_ge _ _)) by (unfold len in *; lia). done.
Qed.

Lemma log_ok_prefix namespace limits log k : log_ok sha256 namespace limits (log ++ k) -> log_ok sha256 namespace limits log.
Proof.
  intros [H1 H2 H3 H4 H5 H6 H7 H8]. rewrite fmap_app in H3, H4. rewrite payload_sum_app in H6. unfold len in H5. rewrite length_app in H5.
  split; try done; [by apply Forall_app in H1 as []|by apply Forall_app in H2 as []|by apply NoDup_app in H3 as []|by apply NoDup_app in H4 as []|..].
  - unfold len. lia.
  - lia.
Qed.
End Runs.
