(* ===== verification/MailboxFlow.v ===== *)
(** The mailbox service and its client over the wire: a request with the right
    token is one operation on the log, any other changes nothing, and a client
    that follows the cursors reads the log. *)
From Stdlib Require Import Ascii String.
From stdpp Require Import gmap.
From S2P Require Import Prelude Utf8 Bytes Wire Signed RelayItem RelayFacts RelayPages Mailbox MailboxFacts.

Definition token_wire (t : RelayToken) : Prop := length t = 32%nat.

(** ** Authorisation *)

Lemma fold_lor_zero (l : list (N * N)) d :
  foldl (fun diff '(a, b) => N.lor diff (N.lxor a b)) d l = 0 <-> d = 0 /\ Forall (fun '(a, b) => a = b) l.
Proof.
  revert d. induction l as [|[a b] l IH]; intros d; simpl; [split; [by intros ->|by intros [? _]]|].
  rewrite IH, N.lor_eq_0_iff, N.lxor_eq_0_iff, Forall_cons. tauto.
Qed.

Lemma zip_equal (k l : list N) : length k = length l -> Forall (fun '(a, b) => a = b) (zip k l) <-> k = l.
Proof.
  revert l. induction k as [|a k IH]; intros [|b l] Hl; try done. simpl. rewrite Forall_cons, IH by (simpl in Hl; lia).
  split; [by intros [-> ->]|by intros [= -> ->]].
Qed.

Lemma authorized_iff token presented : token_wire token -> authorized token presented = true <-> presented = token.
Proof.
  intros Ht. unfold token_wire in Ht. unfold authorized. destruct (N.eqb_spec (len presented) 32) as [E|E]; cbn [negb].
  - rewrite N.eqb_eq, fold_lor_zero, zip_equal by (unfold len in E; lia). naive_solver.
  - split; [done|]. intros ->. unfold len in E. lia.
Qed.

(** ** Frames *)

Lemma read_frame_Ok max op body : 1 + len body <= max -> max < 2 ^ 32 ->
  fst (read_frame max (mkReader (be 4 (1 + len body) ++ op :: body) 0)) = Ok (op :: body).
Proof.
  intros Hl Hm. set (r := mkReader _ 0). assert (E : rest r = be 4 (1 + len body) ++ op :: body) by (unfold rest; cbn [raw pos r]; by rewrite drop_0).
  unfold read_frame, r_int. unfold bind at 1 2.
  rewrite (proj2 (r_slice_iff 4 NetUnavailable r (be 4 (1 + len body)) (advance (be 4 (1 + len body)) r) ltac:(right; lia)))
    by (split; [apply be_length|by exists (op :: body)]).
  unfold ret. rewrite of_be_be by (change (256 ^ N.of_nat 4) with (2 ^ 32); lia).
  rewrite (proj2 (N.eqb_neq _ _)) by lia. cbn [orb]. rewrite (proj2 (N.ltb_ge _ _)) by lia.
  rewrite (proj2 (r_slice_iff (N.to_nat (1 + len body)) NetUnavailable (advance (be 4 (1 + len body)) r) (op :: body)
    (advance (op :: body) (advance (be 4 (1 + len body)) r)) ltac:(right; lia))); [done|].
  split; [unfold len; simpl; lia|]. exists []. split; [|done]. rewrite app_nil_r. by apply (rest_advance r (be 4 (1 + len body))).
Qed.

Lemma body_after_op op (body : list N) : sub_slice (Er := NetError) (op :: body) 1 (length (op :: body)) = Ok body.
Proof. unfold sub_slice, slice. rewrite Nat.leb_refl. simpl. f_equal. rewrite Nat.sub_0_r. apply take_ge. lia. Qed.

Section Flow.
Context (sha256 : list N -> list N) {Hsha : Sha256 sha256}.
Context {S : Type} {Hm : Mailbox S} (holds : S -> RelayNamespace -> Limits -> list RelayItem -> Prop)
  {Hlaws : MailboxLaws sha256 S holds}.

(** ** One request *)

(** What a connection with a presented token does. *)
Definition request_result (op : N) (body : list N) (authorised : bool) : eff S NetError (list N) :=
  if authorised then
    let! '(code, out) := dispatch sha256 op body in lift (relay_frame code out)
  else lift (relay_frame STATUS_DENIED []).

Lemma presented_token (presented body : list N) : token_wire presented ->
  sub_slice (Er := NetError) (presented ++ body) 0 32 = Ok presented /\
  sub_slice (Er := NetError) (presented ++ body) 32 (length (presented ++ body)) = Ok body.
Proof.
  unfold token_wire. intros Hp. unfold sub_slice, slice. rewrite length_app, Hp. split.
  - rewrite (proj2 (Nat.leb_le _ _)) by lia. rewrite drop_0, Nat.sub_0_r. by rewrite take_app_length'.
  - rewrite (proj2 (Nat.leb_le _ _)) by lia. rewrite drop_app_length' by done. by rewrite take_ge by lia.
Qed.

Lemma handle_request token presented op body s : token_wire token -> token_wire presented -> 33 + len body <= MAX_REQUEST ->
  handle sha256 token (be 4 (1 + len (presented ++ body)) ++ op :: presented ++ body) s =
  request_result op body (bool_decide (presented = token)) s.
Proof.
  intros Ht Hp Hl. destruct (presented_token presented body Hp) as [E1 E2].
  assert (El : len (presented ++ body) = 32 + len body) by (unfold len, token_wire in *; rewrite length_app; lia).
  unfold handle. rewrite read_frame_Ok by (rewrite ?El; change MAX_REQUEST with 266375 in *; lia).
  unfold bind at 1, lift at 1. unfold index at 1. cbn [lookup list_lookup]. unfold bind at 1, lift at 1.
  rewrite body_after_op. unfold bind at 1, lift at 1. rewrite El, (proj2 (N.ltb_ge _ _)) by lia.
  rewrite E1. cbn [res_bind]. unfold bind at 1, lift at 1. unfold request_result.
  case_bool_decide as Eq.
  - rewrite (proj2 (authorized_iff token presented Ht) Eq). cbn [negb]. rewrite E2. done.
  - destruct (authorized token presented) eqn:Ea; [by apply authorized_iff in Ea|]. done.
Qed.

(** What the client makes of the response. *)
Lemma exchange_answer token presented op body s code out s' : token_wire token -> token_wire presented ->
  33 + len body <= MAX_REQUEST -> 1 + len out <= MAX_RESPONSE ->
  request_result op body (bool_decide (presented = token)) s = (relay_frame code out, s') ->
  exchange (serve_connection sha256 token) (mkSocketRelay presented) op body s = (decode_status code out, s').
Proof.
  intros Ht Hp Hl Ho E. change MAX_REQUEST with 266375 in Hl. change MAX_RESPONSE with 4194305 in Ho.
  assert (El : len (presented ++ body) = 32 + len body) by (unfold len, token_wire in *; rewrite length_app; lia).
  unfold exchange. cbn [sr_token]. unfold relay_frame at 1. rewrite El, (proj2 (N.ltb_lt _ _)) by lia. unfold bind at 1, lift at 1.
  unfold bind at 1, serve_connection. rewrite <- El. cbn [app]. rewrite handle_request by (try done; change MAX_REQUEST with 266375; lia).
  rewrite E. unfold relay_frame. rewrite (proj2 (N.ltb_lt _ _)) by lia. unfold bind at 1, lift at 1. cbn [app].
  rewrite read_frame_Ok by (change MAX_RESPONSE with 4194305; lia). unfold index, bind, lift. cbn [lookup list_lookup].
  by rewrite body_after_op.
Qed.

Lemma exchange_denied token presented op body s : token_wire token -> token_wire presented -> presented <> token ->
  33 + len body <= MAX_REQUEST ->
  exchange (serve_connection sha256 token) (mkSocketRelay presented) op body s = (Err NetDenied, s).
Proof.
  intros Ht Hp Hne Hl. rewrite (exchange_answer token presented op body s STATUS_DENIED [] s); try done.
  by rewrite bool_decide_false.
Qed.

Lemma exchange_served token op body s code out s' : token_wire token -> 33 + len body <= MAX_REQUEST ->
  1 + len out <= MAX_RESPONSE -> dispatch sha256 op body s = (Ok (code, out), s') ->
  exchange (serve_connection sha256 token) (mkSocketRelay token) op body s = (decode_status code out, s').
Proof.
  intros Ht Hl Ho E. apply exchange_answer; try done. rewrite bool_decide_true by done. unfold request_result, bind. by rewrite E.
Qed.

(** ** Submission *)

Lemma log_put_receipt namespace limits item log r : log_ok sha256 namespace limits log -> item_ok sha256 item ->
  fst (log_put namespace limits item log) = Ok r -> receipt_ok item r.
Proof.
  intros Hl Hi. pose proof (lo_count _ _ _ _ Hl) as Hc. pose proof (lo_limits _ _ _ _ Hl) as Hmax. change MAX_RELAY_ITEMS with 4096 in Hmax.
  unfold log_put, receipt_ok, u. case_bool_decide; [|done]. cbn [negb].
  destruct (position_of _ _ _) as [q|] eqn:Eq.
  - intros [= <-]. cbn. apply position_of_Some in Eq as (i & x & Hx & _ & ->). apply lookup_lt_Some in Hx. unfold len in *. split_and!; [lia|lia|done].
  - destruct (existsb _ _); [done|]. destruct (_ || _); [done|]. intros [= <-]. cbn. split_and!; [lia|lia|done].
Qed.

Lemma item_hash item : item_ok sha256 item -> hash_wire (ri_digest item).
Proof. intros Hi. rewrite (io_digest _ _ Hi). apply (sha256_wire (sha256 := sha256)). Qed.

Lemma receipt_bytes item r : item_ok sha256 item -> receipt_ok item r ->
  Forall byte (encode_relay_receipt r) /\ len (encode_relay_receipt r) = 41.
Proof.
  intros Hi (_ & _ & Hd). destruct (item_hash item Hi) as [Hb Hlen]. rewrite <- Hd in Hb, Hlen.
  unfold encode_relay_receipt. split.
  - rewrite !Forall_app. split; [apply be_bytes|]. split; [done|]. apply Forall_singleton. by destruct (rr_duplicate r).
  - unfold len. rewrite !length_app, be_length, Hlen. done.
Qed.

(** A submission is one [log_put]; its outcome reaches the client. *)
Lemma submit_log token s namespace limits log item : token_wire token -> holds s namespace limits log -> item_ok sha256 item ->
  exists s', submit (serve_connection sha256 token) (mkSocketRelay token) item s =
      (map_err net_error (fst (log_put namespace limits item log)), s') /\
    holds s' namespace limits (snd (log_put namespace limits item log)).
Proof.
  intros Ht Hh Hi. destruct (ml_put s namespace limits log item Hh Hi) as (s' & Ep & Hh'). exists s'. split; [|done].
  pose proof (io_size _ _ Hi) as Hsz. change MAX_RELAY_PAYLOAD with 266240 in Hsz.
  pose proof (length_item sha256 item Hi) as Hlen. change ITEM_HEADER with 70 in Hlen.
  assert (Hb : 33 + len (written (put_item item)) <= MAX_REQUEST) by (change MAX_REQUEST with 266375; lia).
  assert (Ed : decode_item sha256 (written (put_item item)) = Ok item)
    by (apply (decode_item_iff sha256 _ item (item_bytes sha256 item Hi) ltac:(lia)); done).
  unfold submit. rewrite (encode_item_Ok sha256) by done. cbn [map_err]. unfold bind at 1, lift at 1.
  destruct (fst (log_put namespace limits item log)) as [r|e|] eqn:El; cbn [map_err].
  - pose proof (log_put_receipt _ _ _ _ r (ml_ok _ _ _ _ Hh) Hi El) as Hr. destruct (receipt_bytes item r Hi Hr) as [Hby H41].
    unfold bind at 1. rewrite (exchange_served token OP_PUT _ s STATUS_OK (encode_relay_receipt r) s'); [|done|done|rewrite H41; done|].
    + unfold lift, decode_status. cbn. f_equal. by apply (decode_receipt_iff _ _ _ Hby (item_hash item Hi)).
    + unfold dispatch. cbn [N.eqb OP_PUT Pos.eqb]. unfold bind, lift. rewrite Ed, Ep. done.
  - unfold bind at 1. rewrite (exchange_served token OP_PUT _ s (relay_status e) [] s'); [|done|done|done|].
    + by rewrite status_reported.
    + unfold dispatch. cbn [N.eqb OP_PUT Pos.eqb]. unfold bind, lift. rewrite Ed, Ep. done.
  - exfalso. revert El. unfold log_put. by repeat case_match.
Qed.

(** ** Pages *)

Lemma positioned_follows p l : follows_on p (positioned (p + 1) l).
Proof. revert p. induction l as [|x l IH]; intros p; [done|]. split; [done|]. apply IH. Qed.

Lemma positioned_length p l : length (positioned p l) = length l.
Proof. unfold positioned. by rewrite length_fmap, positions_length. Qed.

Lemma positioned_ok p l : 1 <= p -> p + len l <= 2 ^ 64 -> Forall (item_ok sha256) l -> Forall (record_ok sha256) (positioned p l).
Proof.
  revert p. induction l as [|x l IH]; intros p Hp Hl Hf; [by apply Forall_nil|]. apply Forall_cons in Hf as [Hx Hf].
  assert (len (x :: l) = 1 + len l) by (unfold len; simpl; lia). change (positioned p (x :: l)) with (mkPositioned p x :: positioned (p + 1) l).
  apply Forall_cons. split; [|apply IH; [lia|lia|done]]. unfold record_ok, u. cbn. split_and!; [done|lia|done].
Qed.

Lemma log_page_records after limit (log : list RelayItem) :
  len (take (N.to_nat limit) (drop (N.to_nat after) log)) = N.min limit (len log - after).
Proof. unfold len. rewrite length_take, length_drop. lia. Qed.

Lemma log_page_contract namespace limits log after limit page : log_ok sha256 namespace limits log ->
  log_page log after limit = Ok page -> page_contract page after limit /\ page_ok sha256 page /\ len (rp_records page) <= MAX_RELAY_PAGE.
Proof.
  intros Hl. pose proof (lo_count _ _ _ _ Hl) as Hc. pose proof (lo_limits _ _ _ _ Hl) as Hmax. change MAX_RELAY_ITEMS with 4096 in Hmax.
  unfold log_page. destruct (_ || _) eqn:E; [done|]. bool_to_prop. intros [= <-]. pose proof (log_page_records after limit log) as Hn.
  set (records := take _ _) in *. assert (Hr : len (positioned (after + 1) records) = len records) by (unfold len; by rewrite positioned_length).
  assert (Hlim : 1 <= limit <= MAX_RELAY_PAGE) by lia.
  split; [|split]; [|split|]; cbn [rp_records rp_head rp_next]; rewrite ?Hr, ?Hn; [|unfold u; lia| |lia].
  - split; [split; [done|]; cbn [rp_records]; lia|]. cbn [rp_records rp_head rp_next]. rewrite Hr, Hn.
    destruct (N.ltb_spec (len log) after) as [Ha|Ha].
    + left. split; [done|]. rewrite (proj2 (N.ltb_ge _ _)) by lia. split; [|done].
      apply length_zero_iff_nil. unfold len in Hr, Hn, Ha. lia.
    + right. split; [apply positioned_follows|]. split; [lia|].
      destruct (N.ltb_spec (after + limit) (len log)); (split; [intros; first [done|lia]|intros; split; [lia|f_equal; lia]]).
  - apply positioned_ok; [lia| |].
    + destruct (decide (len records = 0)) as [->|]; lia.
    + apply Forall_take, Forall_drop, (lo_items _ _ _ _ Hl).
Qed.

(** The fields of a page request. *)
Lemma request_fields after limit : u 64 after -> u 16 limit ->
  let body := be 8 after ++ be 2 limit in
  len body = 10 /\ sub_int (Er := NetError) body 0 8 = Ok after /\ sub_int (Er := NetError) body 8 2 = Ok limit.
Proof.
  intros Ha Hl body. assert (E : drop 0 body = be 8 after ++ be 2 limit) by done. assert (Hlen : length body = 10%nat) by done.
  destruct (sub_int_known (Er := NetError) body 0 8 after _ Ha E ltac:(lia)) as (H1 & E1 & _).
  rewrite <- (app_nil_r (be 2 limit)) in E1. destruct (sub_int_known (Er := NetError) body 8 2 limit _ Hl E1 ltac:(lia)) as (H2 & _). done.
Qed.

(** A page request reads the log, up to what one response carries. *)
Lemma page_log token s namespace limits log after limit : token_wire token -> holds s namespace limits log -> u 64 after ->
  page_until sha256 (serve_connection sha256 token) (mkSocketRelay token) after limit s =
  (map_err net_error (let? page := log_page log after limit in Ok (cut_page page)), s).
Proof.
  intros Ht Hh Ha. unfold page_until. unfold bind at 1, lift at 1.
  destruct (limit_ok limit) eqn:Elim.
  - apply limit_ok_iff in Elim as Hlim. change MAX_RELAY_PAGE with 64 in Hlim.
    rewrite (proj2 (page_request_Ok after limit (be 8 after ++ be 2 limit))) by done.
    destruct (request_fields after limit Ha ltac:(unfold u; lia)) as (H10 & E1 & E2).
    assert (Ed : dispatch sha256 OP_PAGE (be 8 after ++ be 2 limit) s =
      match log_page log after limit with
      | Ok page => (Ok (STATUS_OK, page_bytes (cut_page page)), s)
      | Err e => (Ok (relay_status e, []), s)
      | Panic => (Panic, s)
      end).
    { unfold dispatch. rewrite H10. cbn [N.eqb OP_PUT OP_PAGE Pos.eqb andb]. unfold bind, lift, get, ret. rewrite E1, E2.
      rewrite (ml_page s namespace limits log after limit Hh). destruct (log_page log after limit) as [page|e|] eqn:El; [|done|done].
      destruct (log_page_contract _ _ _ _ _ _ (ml_ok _ _ _ _ Hh) El) as (_ & Hok & Hn).
      destruct (encode_page_Ok sha256 page Hok Hn) as [-> _]. done. }
    destruct (log_page log after limit) as [page|e|] eqn:El; cbn [res_bind map_err].
    + destruct (log_page_contract _ _ _ _ _ _ (ml_ok _ _ _ _ Hh) El) as (Hc & Hok & Hn).
      destruct (encode_page_Ok sha256 page Hok Hn) as [_ Hmax]. change MAX_PAGE_BODY with 4194304 in Hmax.
      unfold bind. rewrite (exchange_served token OP_PAGE _ s STATUS_OK (page_bytes (cut_page page)) s);
        [|done|by rewrite H10|change MAX_RESPONSE with 4194305; lia|done].
      unfold lift, decode_status. cbn. f_equal. apply (decode_page_complete sha256); [by apply cut_page_ok|by apply cut_contract|done].
    + unfold bind. rewrite (exchange_served token OP_PAGE _ s (relay_status e) [] s); [|done|by rewrite H10|done|done].
      by rewrite status_reported.
    + exfalso. revert El. unfold log_page. by case_match.
  - unfold page_request. rewrite Elim. cbn [negb]. unfold log_page. destruct (_ || _ || _) eqn:E; [done|].
    exfalso. bool_to_prop. assert (limit_ok limit = true) by (apply limit_ok_iff; lia). congruence.
Qed.

(** ** Catching up *)

(** Follow the cursors from [after] until a page has no next. *)
Fixpoint catch_up (fuel : nat) (peer : list N -> eff S NetError (list N)) (relay : SocketRelay) (after limit : N) :
    eff S NetError (list PositionedItem) :=
  match fuel with
  | O => panic
  | Datatypes.S fuel =>
      let! page := page_until sha256 peer relay after limit in
      match rp_next page with
      | None => ret (rp_records page)
      | Some next => let! records := catch_up fuel peer relay next limit in ret (rp_records page ++ records)
      end
  end.

Lemma positioned_app p l k : positioned p (l ++ k) = positioned p l ++ positioned (p + len l) k.
Proof. unfold positioned. by rewrite positions_app, fmap_app. Qed.

Lemma positioned_take p n l : take n (positioned p l) = positioned p (take n l).
Proof. unfold positioned. by rewrite <- positions_take, fmap_take. Qed.

(** What one response carries: the next records of the log, some unless there are none. *)
Lemma page_progress namespace limits log after limit : log_ok sha256 namespace limits log -> after <= len log ->
  1 <= limit <= MAX_RELAY_PAGE ->
  exists page n, log_page log after limit = Ok page /\ after + n <= len log /\
    rp_records (cut_page page) = positioned (after + 1) (take (N.to_nat n) (drop (N.to_nat after) log)) /\
    ((after + n = len log /\ rp_next (cut_page page) = None) \/ (1 <= n /\ rp_next (cut_page page) = Some (after + n))).
Proof.
  intros Hok Ha Hlim. pose proof (lo_count _ _ _ _ Hok) as Hc. pose proof (lo_limits _ _ _ _ Hok) as Hmax. change MAX_RELAY_ITEMS with 4096 in Hmax.
  destruct (log_page log after limit) as [page|e|] eqn:El; cycle 1.
  { exfalso. revert El. unfold log_page. rewrite (proj2 (N.eqb_neq _ _)), (proj2 (N.ltb_ge _ _)), (proj2 (N.leb_gt _ _)) by lia. done. }
  { exfalso. revert El. unfold log_page. by case_match. }
  destruct (log_page_contract _ _ _ _ _ _ Hok El) as (Hcon & _ & _). apply cut_contract in Hcon.
  assert (Hhead : rp_head (cut_page page) = len log /\ exists k, rp_records (cut_page page) ++ k = positioned (after + 1) (take (N.to_nat limit) (drop (N.to_nat after) log))).
  { revert El. unfold log_page. destruct (_ || _); [done|]. intros [= <-]. split; [unfold cut_page; cbn zeta; by destruct (_ =? _)|].
    rewrite cut_records. destruct (page_cut_prefix 0 (positioned (after + 1) (take (N.to_nat limit) (drop (N.to_nat after) log)))) as [k Ek].
    by exists k. }
  destruct Hhead as [Hhead [k Ek]]. destruct Hcon as [[_ Hn] Hcase]. exists page, (len (rp_records (cut_page page))). split; [done|].
  set (records := rp_records (cut_page page)) in *.
  destruct Hcase as [(Hlt & _ & _)|(_ & Hle & H1 & H2)]; [rewrite Hhead in Hlt; lia|]. rewrite Hhead in *. split; [done|]. split.
  - apply (f_equal (take (length records))) in Ek. rewrite take_app_length, positioned_take, take_take in Ek. rewrite Ek at 1. f_equal. f_equal.
    unfold len in *. lia.
  - destruct (decide (after + len records = len log)); [left; split; [done|by apply H1]|right; apply H2; lia].
Qed.

(** The client that follows the cursors reads the log from where it starts. *)
Lemma catch_up_log fuel token s namespace limits log after limit : token_wire token -> holds s namespace limits log ->
  1 <= limit <= MAX_RELAY_PAGE -> len log - after < N.of_nat fuel -> after <= len log ->
  catch_up fuel (serve_connection sha256 token) (mkSocketRelay token) after limit s =
  (Ok (positioned (after + 1) (drop (N.to_nat after) log)), s).
Proof.
  intros Ht Hh Hlim. revert after. induction fuel as [|fuel IH]; intros after Hf Ha; [lia|].
  pose proof (ml_ok _ _ _ _ Hh) as Hok. pose proof (lo_count _ _ _ _ Hok) as Hc. pose proof (lo_limits _ _ _ _ Hok) as Hmax. change MAX_RELAY_ITEMS with 4096 in Hmax.
  cbn [catch_up]. unfold bind at 1. rewrite (page_log token s namespace limits log) by (try done; unfold u; lia).
  destruct (page_progress _ _ _ _ _ Hok Ha Hlim) as (page & n & -> & Hle & Er & Hnext). cbn [res_bind map_err]. rewrite Er.
  destruct Hnext as [[He ->]|[Hn ->]].
  - unfold ret. rewrite take_ge; [done|]. rewrite length_drop. unfold len in *. lia.
  - unfold bind. rewrite IH by lia. unfold ret. f_equal. f_equal.
    rewrite <- (take_drop (N.to_nat n) (drop (N.to_nat after) log)) at 2. rewrite positioned_app, drop_drop. f_equal.
    replace (N.to_nat (after + n)) with (N.to_nat after + N.to_nat n)%nat by lia. f_equal.
    unfold len in *. rewrite length_take, length_drop. lia.
Qed.

Lemma positioned_at p l r : r ∈ positioned p l <-> exists i x, l !! i = Some x /\ r = mkPositioned (p + N.of_nat i) x.
Proof.
  revert p. induction l as [|x l IH]; intros p.
  - split; [by intros ?%elem_of_nil|]. intros (i & x & Hx & _). done.
  - change (positioned p (x :: l)) with (mkPositioned p x :: positioned (p + 1) l). rewrite elem_of_cons, IH. split.
    + intros [->|(i & y & Hy & ->)]; [exists 0%nat, x; split; [done|by rewrite N.add_0_r]|exists (Datatypes.S i), y; split; [done|f_equal; lia]].
    + intros ([|i] & y & Hy & ->); [left; simpl in Hy; injection Hy as ->; f_equal; lia|right; exists i, y; split; [done|f_equal; lia]].
Qed.

(** [fetch] finds exactly the retained item. *)
Lemma fetch_log token s namespace limits log position : token_wire token -> holds s namespace limits log -> 1 <= position -> u 64 position ->
  fetch sha256 (serve_connection sha256 token) (mkSocketRelay token) position s =
  (Ok (mkPositioned position <$> log !! (N.to_nat (position - 1))), s).
Proof.
  intros Ht Hh Hp Hu. pose proof (ml_ok _ _ _ _ Hh) as Hok. unfold u in Hu.
  unfold fetch, checked_sub. rewrite (proj2 (N.leb_le _ _)) by lia. unfold bind at 1, lift at 1. cbn [ok_or].
  unfold bind. rewrite (page_log token s namespace limits log) by (try done; unfold u; lia).
  unfold log_page. rewrite (proj2 (N.leb_gt _ _)) by lia. cbn [N.eqb orb]. change (MAX_RELAY_PAGE <? 1) with false. cbn [orb res_bind map_err].
  unfold ret. f_equal. f_equal. rewrite cut_records. cbn [rp_records]. change (N.to_nat 1) with 1%nat.
  replace (log !! N.to_nat (position - 1)) with (drop (N.to_nat (position - 1)) log !! 0%nat) by (by rewrite lookup_drop, Nat.add_0_r).
  destruct (drop (N.to_nat (position - 1)) log) as [|x k]; [done|]. change (take 1 (x :: k)) with [x].
  change (positioned (position - 1 + 1) [x]) with [mkPositioned (position - 1 + 1) x]. cbn [page_cut]. change (0 <? 0) with false. rewrite andb_false_r. cbn.
  rewrite (proj2 (N.eqb_eq _ _)) by lia. by replace (position - 1 + 1) with position by lia.
Qed.

(** ** Several submissions *)

Fixpoint submit_all (peer : list N -> eff S NetError (list N)) (relay : SocketRelay) (items : list RelayItem) : eff S NetError (list RelayReceipt) :=
  match items with
  | [] => ret []
  | item :: items =>
      let! r := submit peer relay item in
      let! rs := submit_all peer relay items in
      ret (r :: rs)
  end.

Lemma submit_all_log token namespace limits items s log : token_wire token -> holds s namespace limits log ->
  log_ok sha256 namespace limits (log ++ items) ->
  exists s', submit_all (serve_connection sha256 token) (mkSocketRelay token) items s = (Ok (receipts (len log + 1) items), s') /\
    holds s' namespace limits (log ++ items).
Proof.
  intros Ht. revert s log. induction items as [|x items IH]; intros s log Hh Hok; cbn [submit_all receipts].
  { exists s. by rewrite app_nil_r. }
  rewrite cons_middle, app_assoc in Hok. pose proof (log_ok_prefix sha256 _ _ _ _ Hok) as Hx.
  assert (Hi : item_ok sha256 x) by (pose proof (lo_items _ _ _ _ Hx) as H; by apply Forall_app in H as [_ ?%Forall_inv]).
  destruct (submit_log token s namespace limits log x Ht Hh Hi) as (s1 & E1 & H1).
  rewrite (log_put_next sha256 namespace limits x log Hx) in E1, H1. cbn [fst snd map_err] in *.
  destruct (IH s1 (log ++ [x]) H1 Hok) as (s' & E' & Hh'). exists s'. rewrite <- app_assoc in Hh'. split; [|exact Hh'].
  unfold bind at 1. rewrite E1. unfold bind at 1. rewrite E'. unfold ret. f_equal. f_equal. f_equal. f_equal.
  unfold len. rewrite length_app. simpl. lia.
Qed.
End Flow.
