(* ===== verification/RelayClaims.v ===== *)
(** Properties of the private relay ([RelayItem], [RelayItem], [Mailbox]). *)
From Stdlib Require Import Ascii String.
From stdpp Require Import gmap.
From S2P Require Import Prelude Utf8 Bytes Wire Signed RelayItem RelayFacts RelayPages.
From S2P Require Import Mailbox MailboxFacts MailboxFlow.

(** ** A toy mailbox *)

Definition toy_mailbox_name : RelayNamespace := replicate 32 7.
Definition toy_artifact : CommittedOutbox := mkOutbox 1 (replicate 16 5) Application [1; 2; 3].
Definition toy_control : CommittedEncryptedControl := mkControl 2 [4; 5].
Definition toy_relay_item : RelayItem :=
  mkItem toy_mailbox_name 1 (replicate 16 5) (RelayOutbox Application) [1; 2; 3]
    (item_digest poly_hash toy_mailbox_name 1 (replicate 16 5) (RelayOutbox Application) [1; 2; 3]).
Definition toy_second_item : RelayItem :=
  mkItem toy_mailbox_name 2 (replicate 16 6) (RelayOutbox Removal) [9]
    (item_digest poly_hash toy_mailbox_name 2 (replicate 16 6) (RelayOutbox Removal) [9]).
Definition toy_limits : Limits := mkLimits 3 100.
Definition toy_token : RelayToken := replicate 32 1.

Lemma toy_name_wire : namespace_wire toy_mailbox_name.
Proof. split; [|discriminate]. split; [by apply Forall_replicate|done]. Qed.

Lemma toy_operation_wire b : b < 256 -> b <> 0 -> operation_wire (replicate 16 b).
Proof. intros Hb Hz. split; [split; [by apply Forall_replicate|done]|]. by intros [= ?]. Qed.

Lemma toy_artifact_wire : artifact_wire toy_artifact.
Proof. split; [done|by apply toy_operation_wire|]. by repeat constructor. Qed.

Lemma toy_relay_item_ok : item_ok poly_hash toy_relay_item.
Proof. apply (from_artifact_iff poly_hash toy_mailbox_name toy_artifact); [exact toy_name_wire|exact toy_artifact_wire|reflexivity]. Qed.

Lemma toy_second_item_ok : item_ok poly_hash toy_second_item.
Proof.
  split; cbn; [exact toy_name_wire|by split|by apply toy_operation_wire|done|by repeat constructor|by split|done].
Qed.

Lemma toy_items_ok : log_ok poly_hash toy_mailbox_name toy_limits [toy_relay_item; toy_second_item].
Proof.
  split.
  - apply Forall_cons. split; [exact toy_relay_item_ok|]. apply Forall_singleton. exact toy_second_item_ok.
  - apply Forall_cons. split; [done|]. by apply Forall_singleton.
  - apply (bool_decide_unpack _). vm_compute. exact I.
  - apply (bool_decide_unpack _). vm_compute. exact I.
  - by vm_compute.
  - by vm_compute.
  - by vm_compute.
  - by vm_compute.
Qed.

(** ** Items *)

(** C32. The item decoder accepts exactly the canonical encodings of admissible
    items and never panics; the commitment of an item binds its namespace,
    sequence, operation, kind and payload up to a collision of the hash; and
    an item is made exactly of the artifacts and controls whose kind may
    leave the member, with their fields, within the bounds. *)
Theorem relay_item_exact sha256 {Hsha : Sha256 sha256} :
  (forall bytes i, Forall byte bytes -> len bytes < 2 ^ 64 ->
     (decode_item sha256 bytes = Ok i <-> item_ok sha256 i /\ encode_item i = Ok bytes)) /\
  (forall bytes, Forall byte bytes -> decode_item sha256 bytes <> Panic) /\
  (forall i j, item_ok sha256 i -> item_ok sha256 j -> ri_digest i = ri_digest j -> i = j \/ item_collision sha256 i j) /\
  (forall n a i, namespace_wire n -> artifact_wire a ->
     (from_artifact sha256 n a = Ok i <->
      item_ok sha256 i /\ ri_namespace i = n /\ ri_sequence i = ob_sequence a /\ ri_operation i = ob_operation a /\
        ri_kind i = RelayOutbox (ob_kind a) /\ ri_payload i = ob_bytes a)) /\
  (forall n c i, namespace_wire n -> u 64 (cc_sequence c) -> Forall byte (cc_bytes c) ->
     (from_control sha256 n c = Ok i <->
      item_ok sha256 i /\ ri_namespace i = n /\ ri_sequence i = cc_sequence c /\
        ri_operation i = take 16 (sha256 (CONTROL_DOMAIN ++ cc_bytes c)) /\
        ri_kind i = RelayControl /\ ri_payload i = cc_bytes c)).
Proof.
  split; [|split; [|split; [|split]]].
  - intros bytes i Hb Hl. rewrite (decode_item_iff sha256 bytes i Hb Hl). split; intros [Hi E]; (split; [done|]); rewrite (encode_item_Ok sha256 i Hi) in *; congruence.
  - intros bytes Hb. by apply (decode_item_total sha256).
  - intros i j Hi Hj. by apply (item_bound sha256).
  - intros n a i Hn Ha. by apply (from_artifact_iff sha256).
  - intros n c i Hn Hs Hb. by apply (from_control_iff sha256).
Qed.

Lemma relay_item_exact_witness : decode_item poly_hash (written (put_item toy_relay_item)) = Ok toy_relay_item.
Proof.
  destruct (relay_item_exact poly_hash) as (Hd & _). apply Hd.
  - exact (item_bytes poly_hash toy_relay_item toy_relay_item_ok).
  - rewrite (length_item poly_hash toy_relay_item toy_relay_item_ok). reflexivity.
  - split; [exact toy_relay_item_ok|]. exact (encode_item_Ok poly_hash toy_relay_item toy_relay_item_ok).
Defined.

(** ** Frames, receipts and pages *)

(** The decoders of frames, receipts and pages accept exactly what the
    encoders make of well-formed values (a page follows the request's cursor
    without gaps, and it continues exactly if it ends before the head), and
    never panic; a page too large for a response is cut after its first
    records, at least one, and the cut page decodes as what it is. *)
Theorem relay_page_exact sha256 {Hsha : Sha256 sha256} :
  (forall bytes max op body, Forall byte bytes -> max + 4 < 2 ^ 64 ->
     (decode_relay_frame bytes max = Ok (op, body) <-> relay_frame op body = Ok bytes /\ len bytes <= max + 4)) /\
  (forall body i r, Forall byte body -> item_ok sha256 i ->
     (decode_receipt body i = Ok r <-> receipt_ok i r /\ body = encode_relay_receipt r)) /\
  (forall body after limit page, Forall byte body ->
     (decode_page sha256 body after limit = Ok page <->
      page_ok sha256 page /\ page_contract page after limit /\ cut_page page = page /\ encode_page page = Ok body)) /\
  (forall after limit wait r, page_wait_request after limit wait = Ok r <->
     1 <= limit <= MAX_RELAY_PAGE /\ wait < 2 ^ 16 /\ r = be 8 after ++ be 2 limit ++ be 2 wait) /\
  (forall bytes max, decode_relay_frame bytes max <> Panic) /\ (forall body i, decode_receipt body i <> Panic) /\
  (forall body after limit, Forall byte body -> decode_page sha256 body after limit <> Panic) /\
  (forall page after limit, page_ok sha256 page -> page_contract page after limit ->
     exists body, encode_page page = Ok body /\ len body <= MAX_PAGE_BODY /\
       decode_page sha256 body after limit = Ok (cut_page page) /\
       rp_records (cut_page page) `prefix_of` rp_records page /\
       (rp_records page <> [] -> rp_records (cut_page page) <> []) /\
       (len (page_bytes page) <= MAX_PAGE_BODY -> cut_page page = page)).
Proof.
  split; [|split; [|split; [|split; [|split; [|split; [|split]]]]]].
  - intros bytes max op body Hb Hm. by apply decode_relay_frame_iff.
  - intros body i r Hb Hi. by apply (decode_receipt_iff body i r Hb (item_hash sha256 i Hi)).
  - intros body after limit page Hb. by apply (decode_page_iff sha256).
  - intros after limit wait r. unfold page_wait_request. destruct (N.leb_spec (2 ^ 16) wait) as [Hw|Hw]; [split; [done|lia]|]. split.
    + intros (q & [Hl ->]%page_request_Ok & E)%res_bind_Ok. rewrite <- app_assoc in E. split; [done|]. split; [done|congruence].
    + intros (Hl & _ & ->). rewrite (proj2 (page_request_Ok after limit (be 8 after ++ be 2 limit))) by done. cbn [res_bind]. by rewrite <- app_assoc.
  - exact decode_relay_frame_total.
  - exact decode_receipt_total.
  - intros body after limit Hb. by apply (decode_page_total sha256).
  - intros page after limit Hok Hc. pose proof Hc as [[? ?] _]. destruct (encode_page_Ok sha256 page Hok) as [E Hl]; [lia|].
    exists (page_bytes (cut_page page)). split; [done|]. split; [done|].
    split; [apply (decode_page_complete sha256); [by apply cut_page_ok|by apply cut_contract|done]|]. rewrite cut_records.
    split; [apply page_cut_prefix|]. split; [apply page_cut_some|]. intros Hw. by apply cut_page_whole.
Qed.

Definition toy_page : RelayPage := mkRelayPage 2 (Some 1) [mkPositioned 1 toy_relay_item].

Lemma toy_page_follows : page_contract toy_page 0 1.
Proof. split; [by split|]. right. split; [by split|]. split; [done|]. split; [discriminate|]. by split. Qed.

Lemma toy_page_ok : page_ok poly_hash toy_page.
Proof. split; [done|]. apply Forall_singleton. split; [done|]. split; [done|exact toy_relay_item_ok]. Qed.

Lemma relay_page_exact_witness : exists body, encode_page toy_page = Ok body /\ decode_page poly_hash body 0 1 = Ok (cut_page toy_page).
Proof.
  destruct (relay_page_exact poly_hash) as (_ & _ & _ & _ & _ & _ & _ & Hp).
  destruct (Hp toy_page 0 1 toy_page_ok toy_page_follows) as (body & He & _ & Hd & _). exists body. split; [exact He|exact Hd].
Defined.

(** ** The mailbox *)

(** C18. Any calls on a new store return what the log of accepted items returns
    and leave a store that holds that log: consecutive positions from 1,
    distinct commitments and operations, within the limits; an item once
    accepted stays at the position of its receipt, and putting it again
    returns that position and changes nothing. *)
Theorem mailbox_refines_log sha256 {Hsha : Sha256 sha256} namespace limits s calls (Hm : max_bytes limits < 2 ^ 64)
    (Hn : Store_new namespace limits = Ok s) (Hc : Forall (call_ok sha256) calls) :
  let '(outs, log) := run_calls (log_call namespace limits) calls [] in
  (exists s', run_calls mailbox_call calls s = (outs, s') /\ store_holds sha256 s' namespace limits log) /\
  log_ok sha256 namespace limits log /\
  (forall i item r, calls !! i = Some (CallPut item) -> outs !! i = Some (OutPut (Ok r)) -> item_retained namespace limits log item r).
Proof.
  pose proof (Store_new_holds sha256 namespace limits s Hm Hn) as Hh. pose proof (sh_log _ _ _ _ _ Hh) as Hok.
  destruct (run_calls_log sha256 (store_holds sha256) namespace limits calls s [] Hh Hc) as (s' & E & Hh').
  pose proof (log_run_ok sha256 namespace limits calls [] Hok Hc) as Hok'.
  pose proof (fun i item r => log_run_retained sha256 namespace limits calls [] i item r Hok Hc) as Hr.
  destruct (run_calls (log_call namespace limits) calls []) as [outs log]. cbn [fst snd] in *. split; [by exists s'|]. by split.
Qed.

Definition toy_store : Store := mkStore toy_mailbox_name toy_limits 0 ∅.
Definition toy_calls : list MailboxCall := [CallPut toy_relay_item; CallPut toy_second_item; CallPut toy_relay_item].

Lemma mailbox_refines_log_witness : item_retained toy_mailbox_name toy_limits [toy_relay_item; toy_second_item] toy_relay_item
    (mkRelayReceipt 1 (ri_digest toy_relay_item) false).
Proof.
  assert (Hc : Forall (call_ok poly_hash) toy_calls).
  { apply Forall_cons. split; [exact toy_relay_item_ok|]. apply Forall_cons. split; [exact toy_second_item_ok|].
    apply Forall_singleton. exact toy_relay_item_ok. }
  pose proof (mailbox_refines_log poly_hash toy_mailbox_name toy_limits toy_store toy_calls eq_refl eq_refl Hc) as H.
  assert (E : run_calls (log_call toy_mailbox_name toy_limits) toy_calls [] =
    ([OutPut (Ok (mkRelayReceipt 1 (ri_digest toy_relay_item) false)); OutPut (Ok (mkRelayReceipt 2 (ri_digest toy_second_item) false));
      OutPut (Ok (mkRelayReceipt 1 (ri_digest toy_relay_item) true))], [toy_relay_item; toy_second_item])) by (vm_compute; reflexivity).
  rewrite E in H. destruct H as (_ & _ & H). exact (H 0%nat _ _ eq_refl eq_refl).
Defined.

(** ** The mailbox over the wire *)

(** C27. Any mailbox that keeps its promises, served over the wire: with the
    right token a submission is one [log_put] whose outcome the client
    reports, a page is what the log holds after the cursor, cut to one
    response, and [fetch] finds exactly the item at a position; with another
    token each is denied, and the mailbox unchanged. *)
Theorem mailbox_wire_exact sha256 {Hsha : Sha256 sha256} {S} {Hb : Mailbox S} holds {Hl : MailboxLaws sha256 S holds}
    token presented s namespace limits log (Ht : token_wire token) (Hp : token_wire presented) (Hh : holds s namespace limits log) :
  let peer := serve_connection sha256 token in
  (presented = token ->
     (forall item, item_ok sha256 item ->
        exists s', submit peer (mkSocketRelay presented) item s = (map_err net_error (fst (log_put namespace limits item log)), s') /\
          holds s' namespace limits (snd (log_put namespace limits item log))) /\
     (forall after limit, u 64 after ->
        page_until sha256 peer (mkSocketRelay presented) after limit s =
          (map_err net_error (let? page := log_page log after limit in Ok (cut_page page)), s)) /\
     (forall position, 1 <= position -> u 64 position ->
        fetch sha256 peer (mkSocketRelay presented) position s =
          (Ok (mkPositioned position <$> log !! N.to_nat (position - 1)), s))) /\
  (presented <> token ->
     (forall item, item_ok sha256 item -> submit peer (mkSocketRelay presented) item s = (Err NetDenied, s)) /\
     (forall after limit, 1 <= limit <= MAX_RELAY_PAGE ->
        page_until sha256 peer (mkSocketRelay presented) after limit s = (Err NetDenied, s))).
Proof.
  intros peer. split.
  - intros ->. split; [|split].
    + intros item Hi. by apply (submit_log sha256 holds).
    + intros after limit Ha. by apply (page_log sha256 holds token s namespace limits).
    + intros position H1 H2. by apply (fetch_log sha256 holds token s namespace limits).
  - intros Hne. split.
    + intros item Hi. pose proof (io_size _ _ Hi) as Hsz. change MAX_RELAY_PAYLOAD with 266240 in Hsz.
      pose proof (length_item sha256 item Hi) as Hlen. change ITEM_HEADER with 70 in Hlen.
      unfold submit. rewrite (encode_item_Ok sha256) by done. cbn [map_err]. unfold bind at 1, lift at 1. unfold bind, peer.
      rewrite (exchange_denied sha256) by (try done; change MAX_REQUEST with 266375; lia). done.
    + intros after limit Hlim. unfold page_until. rewrite (proj2 (page_request_Ok after limit (be 8 after ++ be 2 limit))) by done.
      unfold bind at 1, lift at 1. unfold bind, peer. rewrite (exchange_denied sha256) by done. done.
Qed.

(** What a store of the toy items answers. *)
Lemma toy_filled : exists s, store_holds poly_hash s toy_mailbox_name toy_limits [toy_relay_item; toy_second_item].
Proof.
  destruct (submit_all_log poly_hash (store_holds poly_hash) toy_token toy_mailbox_name toy_limits [toy_relay_item; toy_second_item] toy_store [])
    as (s & _ & Hs); [done|by apply Store_new_holds|exact toy_items_ok|by exists s].
Qed.

Lemma mailbox_wire_exact_witness : exists s,
  fetch poly_hash (serve_connection poly_hash toy_token) (mkSocketRelay toy_token) 2 s = (Ok (Some (mkPositioned 2 toy_second_item)), s) /\
  submit (serve_connection poly_hash (replicate 32 2)) (mkSocketRelay toy_token) toy_relay_item s = (Err NetDenied, s).
Proof.
  destruct toy_filled as [s Hs]. exists s. split.
  - destruct (mailbox_wire_exact poly_hash (store_holds poly_hash) toy_token toy_token s toy_mailbox_name toy_limits _ eq_refl eq_refl Hs) as [H _].
    destruct (H eq_refl) as (_ & _ & Hf). apply Hf; [discriminate|reflexivity].
  - destruct (mailbox_wire_exact poly_hash (store_holds poly_hash) (replicate 32 2) toy_token s toy_mailbox_name toy_limits _ eq_refl eq_refl Hs) as [_ H].
    destruct H as [Hd _]; [discriminate|]. apply Hd. exact toy_relay_item_ok.
Defined.

(** C19. Items of a mailbox with distinct commitments and operations, within its
    limits, submitted one after the other over the wire to a new store, are
    all accepted, at the positions 1, 2, ...; and a client that then follows
    the cursors from any of them, with pages of any permitted size, ends with
    all later items, in order, after at most one request for each and one more. *)
Theorem mailbox_catch_up sha256 {Hsha : Sha256 sha256} token namespace limits items after limit (Ht : token_wire token)
    (Hm : Limits_check limits = Ok tt) (Hi : log_ok sha256 namespace limits items)
    (Ha : after <= len items) (Hp : 1 <= limit <= MAX_RELAY_PAGE) :
  let peer := serve_connection sha256 token in
  let client := mkSocketRelay token in
  exists s s', Store_new namespace limits = Ok s /\
    submit_all peer client items s = (Ok (receipts 1 items), s') /\
    catch_up sha256 (S (length items - N.to_nat after)) peer client after limit s' =
      (Ok (positioned (after + 1) (drop (N.to_nat after) items)), s').
Proof.
  intros peer client. pose proof (lo_machine _ _ _ _ Hi) as Hb.
  assert (E : Store_new namespace limits = Ok (mkStore namespace limits 0 ∅)) by (unfold Store_new; by rewrite Hm).
  pose proof (Store_new_holds sha256 namespace limits _ Hb E) as Hh.
  destruct (submit_all_log sha256 (store_holds sha256) token namespace limits items _ [] Ht Hh Hi) as (s' & E' & Hh').
  exists (mkStore namespace limits 0 ∅), s'. split; [done|]. split; [exact E'|].
  apply (catch_up_log sha256 (store_holds sha256) _ token s' namespace limits); [done|done|done|unfold len; lia|done].
Qed.

Lemma mailbox_catch_up_witness : exists s s', Store_new toy_mailbox_name toy_limits = Ok s /\
  submit_all (serve_connection poly_hash toy_token) (mkSocketRelay toy_token) [toy_relay_item; toy_second_item] s =
    (Ok (receipts 1 [toy_relay_item; toy_second_item]), s') /\
  catch_up poly_hash 3 (serve_connection poly_hash toy_token) (mkSocketRelay toy_token) 0 1 s' =
    (Ok [mkPositioned 1 toy_relay_item; mkPositioned 2 toy_second_item], s').
Proof.
  apply (mailbox_catch_up poly_hash toy_token toy_mailbox_name toy_limits [toy_relay_item; toy_second_item] 0 1);
    [reflexivity|reflexivity|exact toy_items_ok|discriminate|split; discriminate].
Defined.
