(* ===== verification/RoomRecords.v ===== *)
(** Records of the shared room directory (src/crates/vhalla-rooms/src/{model,wire}.rs):
    room controls, creation intents signed by an owner and an agent, and room
    updates, with their text, canonical frames, identifiers, signatures and
    structural checks. *)
From Stdlib Require Import Ascii String.
From S2P Require Import Prelude Bytes PrefixFree Wire Signed Utf8 OrderedMap DirectCodec.

Definition MAX_ROOM_RECORD_BYTES : N := 2048.
Definition MAX_SLUG_BYTES : N := 48.
Definition MAX_DESCRIPTION_BYTES : N := 256.

Inductive RoomsError : Type := RoomsBounds | RoomsEncoding | RoomsKey | RoomsSignature | RoomsSigningKey.

(** The newtypes of 32 bytes. *)
Definition DirectoryId : Type := list N.
Definition SettingsId : Type := list N.
Definition RoomRecordId : Type := list N.
Definition RoomGenesisId : Type := list N.
Definition PermitId : Type := list N.
Definition OwnerId : Type := list N.
Definition AgentId : Type := list N.
Definition SocialId : Type := list N.

(** ** Text *)

(** A [String] of lowercase letters, digits and single inner hyphens, by its bytes. *)
Definition Slug : Type := list N.

Definition slug_char (b : N) : bool := in_range 97 122 b || in_range 48 57 b || (b =? 45).
Definition starts_with_hyphen (l : list N) : bool := match l with b :: _ => b =? 45 | [] => false end.

Definition Slug_new (value : str) : res RoomsError Slug :=
  let bytes := str_bytes value in
  if (len bytes =? 0) || (MAX_SLUG_BYTES <? len bytes) then Err RoomsBounds
  else if starts_with_hyphen bytes || starts_with_hyphen (rev bytes)
          || windows_any (fun a b => (a =? 45) && (b =? 45)) bytes || negb (forallb slug_char bytes)
  then Err RoomsEncoding
  else Ok bytes.

Record Description : Type := mkDescription { desc_bytes : list N }.
#[global] Instance Description_eq_dec : EqDecision Description. Proof. solve_decision. Defined.

Definition Description_new (value : str) : res RoomsError Description :=
  if (len (str_bytes value) =? 0) || (MAX_DESCRIPTION_BYTES <? len (str_bytes value)) then Err RoomsBounds
  else if existsb is_control (str_chars value) then Err RoomsEncoding
  else Ok (mkDescription (str_bytes value)).

(** ** Bodies *)

Inductive CreateAction : Type :=
| GrantCreate (agent : AgentId) (agent_key : list N) (expires_at maximum_charge : N) (nonce : list N)
| RevokeGrant (grant : RoomRecordId).

Record RoomControl : Type := mkRoomControl {
  rc_directory : DirectoryId; rc_realm : N; rc_owner : OwnerId; rc_social_control : SocialId;
  rc_controller_key : list N; rc_previous : option RoomRecordId; rc_sequence : N; rc_action : CreateAction;
}.

Record CreationIntent : Type := mkIntent {
  in_directory : DirectoryId; in_realm : N; in_policy : SettingsId; in_initial_settings : SettingsId;
  in_owner : OwnerId; in_social_control : SocialId; in_owner_key : list N; in_agent : AgentId;
  in_agent_key : list N; in_room_control : RoomRecordId; in_grant : RoomRecordId; in_slug : Slug;
  in_description : Description; in_slot : N; in_charge : N; in_expires_at : N; in_nonce : list N;
}.

Definition PUBLIC_ACTIVITY_VERSION : N := 1.

Record PublicActivityPolicy : Type := mkActivityPolicy { ap_record : RoomRecordId; ap_network : list N; ap_enabled : bool }.

Inductive UpdateAction : Type :=
| Describe (text : Description)
| Archive
| SetPublicActivityPolicy (network : list N) (enabled : bool).

Record RoomUpdate : Type := mkRoomUpdate {
  ru_directory : DirectoryId; ru_realm : N; ru_genesis : RoomGenesisId; ru_previous : RoomRecordId;
  ru_owner : OwnerId; ru_social_control : SocialId; ru_controller_key : list N; ru_expires_at : N;
  ru_nonce : list N; ru_action : UpdateAction;
}.

Inductive RoomBody : Type := BodyControl (c : RoomControl) | BodyCreate (i : CreationIntent) | BodyUpdate (u : RoomUpdate).

#[global] Instance CreateAction_eq_dec : EqDecision CreateAction. Proof. solve_decision. Defined.
#[global] Instance RoomControl_eq_dec : EqDecision RoomControl. Proof. solve_decision. Defined.
#[global] Instance CreationIntent_eq_dec : EqDecision CreationIntent. Proof. solve_decision. Defined.
#[global] Instance UpdateAction_eq_dec : EqDecision UpdateAction. Proof. solve_decision. Defined.
#[global] Instance RoomUpdate_eq_dec : EqDecision RoomUpdate. Proof. solve_decision. Defined.
#[global] Instance RoomBody_eq_dec : EqDecision RoomBody. Proof. solve_decision. Defined.

(** ** Writers *)

(** [as u8] of a length that is at most 48. *)
Definition put_slug : Slug -> Writer -> Writer := w_sized w_u8.
Definition put_description (d : Description) : Writer -> Writer := w_sized w_u16 (desc_bytes d).
Definition put_scope (directory : DirectoryId) (realm : N) : Writer -> Writer := w_bytes directory >> w_u128 realm.
Definition put_owner (owner : OwnerId) (basis : SocialId) (key : list N) : Writer -> Writer :=
  w_bytes owner >> w_bytes basis >> w_bytes key.

Definition put_create_action (a : CreateAction) : Writer -> Writer :=
  match a with
  | GrantCreate agent agent_key expires_at maximum_charge nonce =>
      w_u8 0 >> w_bytes agent >> w_bytes agent_key >> w_u64 expires_at >> w_u64 maximum_charge >> w_bytes nonce
  | RevokeGrant grant => w_u8 1 >> w_bytes grant
  end.

Definition put_control (c : RoomControl) : Writer -> Writer :=
  put_scope (rc_directory c) (rc_realm c) >> put_owner (rc_owner c) (rc_social_control c) (rc_controller_key c)
  >> w_option w_bytes (rc_previous c) >> w_u64 (rc_sequence c) >> put_create_action (rc_action c).

Definition put_intent (i : CreationIntent) : Writer -> Writer :=
  put_scope (in_directory i) (in_realm i) >> w_bytes (in_policy i) >> w_bytes (in_initial_settings i)
  >> put_owner (in_owner i) (in_social_control i) (in_owner_key i) >> w_bytes (in_agent i) >> w_bytes (in_agent_key i)
  >> w_bytes (in_room_control i) >> w_bytes (in_grant i) >> put_slug (in_slug i) >> put_description (in_description i)
  >> w_u32 (in_slot i) >> w_u64 (in_charge i) >> w_u64 (in_expires_at i) >> w_bytes (in_nonce i).

Definition put_update_action (a : UpdateAction) : Writer -> Writer :=
  match a with
  | Describe text => w_u8 0 >> put_description text
  | Archive => w_u8 1
  | SetPublicActivityPolicy network enabled =>
      w_u8 2 >> w_u8 PUBLIC_ACTIVITY_VERSION >> w_bytes network >> w_u8 (N.b2n enabled)
  end.

Definition put_update (x : RoomUpdate) : Writer -> Writer :=
  put_scope (ru_directory x) (ru_realm x) >> w_bytes (ru_genesis x) >> w_bytes (ru_previous x)
  >> put_owner (ru_owner x) (ru_social_control x) (ru_controller_key x) >> w_u64 (ru_expires_at x)
  >> w_bytes (ru_nonce x) >> put_update_action (ru_action x).

(** ** Readers *)

Definition r_32 : reads RoomsError (list N) := r_slice 32 RoomsEncoding.
Definition r_realm : reads RoomsError N := r_int 16 RoomsEncoding.
Definition text_of (bytes : list N) : res RoomsError str := ok_or (from_utf8 bytes) RoomsEncoding.
Definition get_slug : reads RoomsError Slug :=
  let! bytes := r_sized (r_byte RoomsEncoding) MAX_SLUG_BYTES RoomsBounds RoomsEncoding in
  lift (let? value := text_of bytes in Slug_new value).
Definition get_description : reads RoomsError Description :=
  let! bytes := r_sized (r_int 2 RoomsEncoding) MAX_DESCRIPTION_BYTES RoomsBounds RoomsEncoding in
  lift (let? value := text_of bytes in Description_new value).

Definition get_create_action : reads RoomsError CreateAction :=
  let! tag := r_byte RoomsEncoding in
  match tag with
  | 0 =>
      let! agent := r_32 in
      let! agent_key := r_32 in
      let! expires_at := r_int 8 RoomsEncoding in
      let! maximum_charge := r_int 8 RoomsEncoding in
      let! nonce := r_32 in
      ret (GrantCreate agent agent_key expires_at maximum_charge nonce)
  | 1 => let! grant := r_32 in ret (RevokeGrant grant)
  | _ => throw RoomsEncoding
  end.

Definition get_control : reads RoomsError RoomControl :=
  let! directory := r_32 in
  let! realm := r_realm in
  let! owner := r_32 in
  let! social_control := r_32 in
  let! controller_key := r_32 in
  let! previous := r_tagged RoomsEncoding (fun _ => RoomsEncoding) r_32 in
  let! sequence := r_int 8 RoomsEncoding in
  let! action := get_create_action in
  ret (mkRoomControl directory realm owner social_control controller_key previous sequence action).

Definition get_intent : reads RoomsError CreationIntent :=
  let! directory := r_32 in
  let! realm := r_realm in
  let! policy := r_32 in
  let! initial_settings := r_32 in
  let! owner := r_32 in
  let! social_control := r_32 in
  let! owner_key := r_32 in
  let! agent := r_32 in
  let! agent_key := r_32 in
  let! room_control := r_32 in
  let! grant := r_32 in
  let! slug := get_slug in
  let! description := get_description in
  let! slot := r_int 4 RoomsEncoding in
  let! charge := r_int 8 RoomsEncoding in
  let! expires_at := r_int 8 RoomsEncoding in
  let! nonce := r_32 in
  ret (mkIntent directory realm policy initial_settings owner social_control owner_key agent agent_key
         room_control grant slug description slot charge expires_at nonce).

Definition get_update_action : reads RoomsError UpdateAction :=
  let! tag := r_byte RoomsEncoding in
  match tag with
  | 0 => let! text := get_description in ret (Describe text)
  | 1 => ret Archive
  | 2 =>
      let! version := r_byte RoomsEncoding in
      if negb (version =? PUBLIC_ACTIVITY_VERSION) then throw RoomsEncoding
      else
        let! network := r_32 in
        let! flag := r_byte RoomsEncoding in
        match flag with
        | 0 => ret (SetPublicActivityPolicy network false)
        | 1 => ret (SetPublicActivityPolicy network true)
        | _ => throw RoomsEncoding
        end
  | _ => throw RoomsEncoding
  end.

Definition get_update : reads RoomsError RoomUpdate :=
  let! directory := r_32 in
  let! realm := r_realm in
  let! genesis := r_32 in
  let! previous := r_32 in
  let! owner := r_32 in
  let! social_control := r_32 in
  let! controller_key := r_32 in
  let! expires_at := r_int 8 RoomsEncoding in
  let! nonce := r_32 in
  let! action := get_update_action in
  ret (mkRoomUpdate directory realm genesis previous owner social_control controller_key expires_at nonce action).

(** ** Frames *)

Definition ROOM_MAGIC : list N := bytes_of "VHRM" ++ [1].
Definition TAG_CONTROL : N := 0.
Definition TAG_CREATE : N := 1.
Definition TAG_UPDATE : N := 2.
Definition TAG_PERMIT : N := 3.

Definition put_frame (tag : N) (payload primary : list N) (secondary : option (list N)) : Writer -> Writer :=
  w_bytes ROOM_MAGIC >> w_u8 tag >> w_sized w_u16 payload >> w_bytes primary >> w_bytes (default [] secondary).
Definition room_frame (tag : N) (payload primary : list N) (secondary : option (list N)) : list N :=
  written (put_frame tag payload primary secondary).

Record RoomFrame : Type := mkRoomFrame {
  fr_tag : N; fr_payload : list N; fr_primary : list N; fr_secondary : option (list N);
}.

Definition get_frame : reads RoomsError RoomFrame :=
  let! magic := r_slice 5 RoomsEncoding in
  if negb (bool_decide (magic = ROOM_MAGIC)) then throw RoomsEncoding
  else
    let! tag := r_byte RoomsEncoding in
    if negb (tag <=? TAG_PERMIT) then throw RoomsEncoding
    else
      let proof_len := if tag =? TAG_CREATE then 128 else 64 in
      let! payload := r_sized (r_int 2 RoomsEncoding) (MAX_ROOM_RECORD_BYTES - 8 - proof_len) RoomsBounds RoomsEncoding in
      let! primary := r_slice 64 RoomsEncoding in
      if tag =? TAG_CREATE then
        let! secondary := r_slice 64 RoomsEncoding in
        ret (mkRoomFrame tag payload primary (Some secondary))
      else ret (mkRoomFrame tag payload primary None).

Definition split_frame (raw : list N) : res RoomsError RoomFrame :=
  if MAX_ROOM_RECORD_BYTES <? len raw then Err RoomsBounds
  else parse_all (fun _ => RoomsEncoding) get_frame raw.

Definition intent_bytes (i : CreationIntent) : list N := written (put_intent i).
Definition body_tag (b : RoomBody) : N :=
  match b with BodyControl _ => TAG_CONTROL | BodyCreate _ => TAG_CREATE | BodyUpdate _ => TAG_UPDATE end.
Definition body_payload (b : RoomBody) : list N :=
  match b with
  | BodyControl c => written (put_control c)
  | BodyCreate i => intent_bytes i
  | BodyUpdate x => written (put_update x)
  end.

(** ** Identifiers and transcripts *)

Definition RECORD_DOMAIN : list N := bytes_of "vhalla/rooms/record-id/v1".
Definition ROOM_GENESIS_DOMAIN : list N := bytes_of "vhalla/rooms/genesis-id/v1".
Definition PERMIT_DOMAIN : list N := bytes_of "vhalla/rooms/permit-id/v1".
Definition CONTROL_SIGN : list N := bytes_of "vhalla/rooms/control-signature/v1".
Definition UPDATE_SIGN : list N := bytes_of "vhalla/rooms/update-signature/v1".
Definition OWNER_SIGN : list N := bytes_of "vhalla/rooms/owner-permit-signature/v1".
Definition AGENT_SIGN : list N := bytes_of "vhalla/rooms/agent-proposal-signature/v1".

(** The input of [hash]; the length is [as u16]. *)
Definition room_preimage (domain : list N) (tag : N) (payload : list N) : list N :=
  domain ++ ROOM_MAGIC ++ [tag] ++ be 2 (len payload) ++ payload.

Section Records.
Context (sha256 : list N -> list N).

Definition room_record_id (b : RoomBody) : RoomRecordId := sha256 (room_preimage RECORD_DOMAIN (body_tag b) (body_payload b)).
Definition permit_id (i : CreationIntent) : PermitId := sha256 (room_preimage PERMIT_DOMAIN TAG_PERMIT (intent_bytes i)).
Definition genesis_id (i : CreationIntent) : RoomGenesisId := sha256 (room_preimage ROOM_GENESIS_DOMAIN TAG_CREATE (intent_bytes i)).

Definition owner_transcript (i : CreationIntent) : list N := OWNER_SIGN ++ permit_id i.
Definition agent_transcript (i : CreationIntent) : list N := AGENT_SIGN ++ genesis_id i ++ permit_id i.
(** Creations have their own roles. *)
Definition controller_transcript (b : RoomBody) : res RoomsError (list N) :=
  match b with
  | BodyControl _ => Ok (CONTROL_SIGN ++ room_record_id b)
  | BodyUpdate _ => Ok (UPDATE_SIGN ++ room_record_id b)
  | BodyCreate _ => Panic
  end.

(** ** Checks *)

Context `{Hed : Ed25519}.

Definition checked_room_key (key : list N) : res RoomsError (list N) :=
  if negb (valid_key key) then Err RoomsKey else if is_weak key then Err RoomsKey else Ok key.
Definition require_signer (seed expected : list N) : res RoomsError unit :=
  if negb (bool_decide (verifying_key seed = expected)) then Err RoomsSigningKey else Ok tt.
Definition verify_signature (key transcript signature : list N) : res RoomsError unit :=
  let? key := checked_room_key key in
  if verify_strict key transcript signature then Ok tt else Err RoomsSignature.

Definition check_control (c : RoomControl) : res RoomsError unit :=
  let? _ := checked_room_key (rc_controller_key c) in
  if negb (eqb (rc_sequence c =? 0) (bool_decide (rc_previous c = None))) then Err RoomsEncoding
  else
    match rc_action c with
    | GrantCreate _ agent_key expires_at maximum_charge nonce =>
        let? _ := checked_room_key agent_key in
        if (expires_at =? 0) || (maximum_charge =? 0) || bool_decide (nonce = ZERO) then Err RoomsBounds else Ok tt
    | RevokeGrant _ => Ok tt
    end.

Definition check_intent (i : CreationIntent) : res RoomsError unit :=
  let? _ := checked_room_key (in_owner_key i) in
  let? _ := checked_room_key (in_agent_key i) in
  if (in_slot i =? 0) || (in_charge i =? 0) || (in_expires_at i =? 0) || bool_decide (in_nonce i = ZERO)
  then Err RoomsBounds else Ok tt.

Definition check_update (x : RoomUpdate) : res RoomsError unit :=
  let? _ := checked_room_key (ru_controller_key x) in
  if (ru_expires_at x =? 0) || bool_decide (ru_nonce x = ZERO) then Err RoomsBounds
  else
    match ru_action x with
    | SetPublicActivityPolicy network _ => if bool_decide (network = ZERO) then Err RoomsBounds else Ok tt
    | _ => Ok tt
    end.

Definition check_body (b : RoomBody) : res RoomsError unit :=
  match b with BodyControl c => check_control c | BodyCreate i => check_intent i | BodyUpdate x => check_update x end.

(** ** Owner permits *)

Record OwnerPermit : Type := mkPermit { op_intent : CreationIntent; op_signature : list N }.

Definition permit_sign (i : CreationIntent) (seed : list N) : res RoomsError OwnerPermit :=
  let? _ := check_intent i in
  let? _ := require_signer seed (in_owner_key i) in
  Ok (mkPermit i (sign_bytes seed (owner_transcript i))).

Definition permit_encode (p : OwnerPermit) : list N := room_frame TAG_PERMIT (intent_bytes (op_intent p)) (op_signature p) None.

Definition permit_decode (raw : list N) : res RoomsError OwnerPermit :=
  let? frame := split_frame raw in
  if negb (fr_tag frame =? TAG_PERMIT) then Err RoomsEncoding
  else
    let? intent := parse_all (fun _ => RoomsEncoding) get_intent (fr_payload frame) in
    let? _ := check_intent intent in
    let permit := mkPermit intent (fr_primary frame) in
    if negb (bool_decide (permit_encode permit = raw)) then Err RoomsEncoding else Ok permit.

(** The newtype over a permit whose signature was checked. *)
Record VerifiedOwnerPermit : Type := mkVerifiedPermit { vp_permit : OwnerPermit }.

Definition permit_verify (p : OwnerPermit) : res RoomsError VerifiedOwnerPermit :=
  let? _ := verify_signature (in_owner_key (op_intent p)) (owner_transcript (op_intent p)) (op_signature p) in
  Ok (mkVerifiedPermit p).

(** ** Records *)

Record RoomSignedRecord : Type := mkRoomSigned {
  rs_body : RoomBody; rs_signature : list N; rs_acknowledgement : option (list N);
}.
Record RoomVerifiedRecord : Type := mkRoomVerified { rv_signed : RoomSignedRecord }.

Definition propose (p : VerifiedOwnerPermit) (seed : list N) : res RoomsError RoomSignedRecord :=
  let i := op_intent (vp_permit p) in
  let? _ := require_signer seed (in_agent_key i) in
  Ok (mkRoomSigned (BodyCreate i) (op_signature (vp_permit p)) (Some (sign_bytes seed (agent_transcript i)))).

Definition control_sign (c : RoomControl) (seed : list N) : res RoomsError RoomSignedRecord :=
  let? _ := check_control c in
  let? _ := require_signer seed (rc_controller_key c) in
  let? transcript := controller_transcript (BodyControl c) in
  Ok (mkRoomSigned (BodyControl c) (sign_bytes seed transcript) None).

Definition update_sign (x : RoomUpdate) (seed : list N) : res RoomsError RoomSignedRecord :=
  let? _ := check_update x in
  let? _ := require_signer seed (ru_controller_key x) in
  let? transcript := controller_transcript (BodyUpdate x) in
  Ok (mkRoomSigned (BodyUpdate x) (sign_bytes seed transcript) None).

Definition room_encode (s : RoomSignedRecord) : list N :=
  room_frame (body_tag (rs_body s)) (body_payload (rs_body s)) (rs_signature s) (rs_acknowledgement s).

Definition decode_body (tag : N) (payload : list N) : res RoomsError RoomBody :=
  if tag =? TAG_CONTROL then let? c := parse_all (fun _ => RoomsEncoding) get_control payload in Ok (BodyControl c)
  else if tag =? TAG_CREATE then let? i := parse_all (fun _ => RoomsEncoding) get_intent payload in Ok (BodyCreate i)
  else if tag =? TAG_UPDATE then let? x := parse_all (fun _ => RoomsEncoding) get_update payload in Ok (BodyUpdate x)
  else Err RoomsEncoding.

Definition room_decode (raw : list N) : res RoomsError RoomSignedRecord :=
  let? frame := split_frame raw in
  let? body := decode_body (fr_tag frame) (fr_payload frame) in
  let? _ := check_body body in
  let record := mkRoomSigned body (fr_primary frame) (fr_secondary frame) in
  if negb (bool_decide (room_encode record = raw)) then Err RoomsEncoding else Ok record.

Definition room_verify (s : RoomSignedRecord) : res RoomsError RoomVerifiedRecord :=
  let? _ :=
    match rs_body s with
    | BodyCreate i =>
        let? _ := verify_signature (in_owner_key i) (owner_transcript i) (rs_signature s) in
        let? secondary := ok_or (rs_acknowledgement s) RoomsSignature in
        verify_signature (in_agent_key i) (agent_transcript i) secondary
    | BodyControl c =>
        if bool_decide (rs_acknowledgement s <> None) then Err RoomsSignature
        else
          let? transcript := controller_transcript (rs_body s) in
          verify_signature (rc_controller_key c) transcript (rs_signature s)
    | BodyUpdate x =>
        if bool_decide (rs_acknowledgement s <> None) then Err RoomsSignature
        else
          let? transcript := controller_transcript (rs_body s) in
          verify_signature (ru_controller_key x) transcript (rs_signature s)
    end in
  Ok (mkRoomVerified s).

(** [AgentProposal::decode]: a creation only. *)
Definition proposal_decode (raw : list N) : res RoomsError RoomSignedRecord :=
  let? record := room_decode raw in
  match rs_body record with BodyCreate _ => Ok record | _ => Err RoomsEncoding end.

(** Of a verified record. *)
Definition rv_body (v : RoomVerifiedRecord) : RoomBody := rs_body (rv_signed v).
Definition rv_id (v : RoomVerifiedRecord) : RoomRecordId := room_record_id (rv_body v).
Definition rv_genesis_id (v : RoomVerifiedRecord) : option RoomGenesisId :=
  match rv_body v with BodyCreate i => Some (genesis_id i) | _ => None end.
End Records.
#[global] Instance RoomSignedRecord_eq_dec : EqDecision RoomSignedRecord. Proof. solve_decision. Defined.
#[global] Instance RoomVerifiedRecord_eq_dec : EqDecision RoomVerifiedRecord. Proof. solve_decision. Defined.
