(* ===== verification/RoomFacts.v ===== *)
(** The codec of room records ([RoomRecords]): text, typed bodies, the exact
    frames that decode, and what identifiers bind. *)
From Stdlib Require Import Ascii String.
From S2P Require Import Prelude Bytes PrefixFree Wire Signed Utf8 OrderedMap DirectCodec RoomRecords.

(** ** Text *)

Lemma ascii_chars l : Forall (fun b => b < 128) l -> utf8_chars l = Some l.
Proof.
  induction 1 as [|b l Hb _ IH]; [done|]. cbn [utf8_chars]. rewrite (proj2 (N.ltb_lt _ _)) by done. by rewrite IH.
Qed.

Lemma text_of_Ok bytes v : text_of bytes = Ok v <-> str_bytes v = bytes /\ utf8_chars bytes = Some (str_chars v).
Proof.
  unfold text_of. rewrite <- from_utf8_Some. destruct (from_utf8 bytes); cbn; [|done]. split; intros [= ->]; done.
Qed.

Lemma slug_char_ascii b : slug_char b = true -> b < 128.
Proof. unfold slug_char, in_range. rewrite !orb_true_iff, !andb_true_iff, !N.leb_le, N.eqb_eq. lia. Qed.

(** The slugs. *)
Record slug_ok (s : Slug) : Prop := {
  so_length : 1 <= len s <= MAX_SLUG_BYTES;
  so_first : starts_with_hyphen s = false;
  so_last : starts_with_hyphen (rev s) = false;
  so_inner : windows_any (fun a b => (a =? 45) && (b =? 45)) s = false;
  so_chars : Forall (fun b => slug_char b = true) s;
}.

Lemma slug_of_Ok bytes s : (let? v := text_of bytes in Slug_new v) = Ok s <-> s = bytes /\ slug_ok s.
Proof.
  assert (Hall : forall l, forallb slug_char l = true <-> Forall (fun b => slug_char b = true) l).
  { intros l. rewrite forallb_forall, Forall_forall. by setoid_rewrite list_elem_of_In. }
  split.
  - intros (v & [Ev Ec]%text_of_Ok & H)%res_bind_Ok. unfold Slug_new in H. rewrite Ev in H.
    destruct (_ || _) eqn:El; [done|]. destruct (_ || _ || _ || _) eqn:Ex; [done|]. injection H as ->. split; [done|].
    apply orb_false_iff in Ex as [[[E1 E2]%orb_false_iff E3]%orb_false_iff E4]. apply negb_false_iff in E4.
    bool_to_prop. split; [lia|done|done|done|by apply Hall].
  - intros [-> [H1 H2 H3 H4 H5]]. assert (Ht : text_of bytes = Ok (mkStr bytes bytes)).
    { apply text_of_Ok. split; [done|]. apply ascii_chars. eapply Forall_impl; [exact H5|]. intros b. apply slug_char_ascii. }
    rewrite Ht. cbn [res_bind]. unfold Slug_new. cbn [str_bytes]. rewrite H2, H3, H4, (proj2 (Hall _) H5).
    rewrite (proj2 (N.eqb_neq _ _)), (proj2 (N.ltb_ge _ _)) by lia. done.
Qed.

Lemma slug_of_total bytes : (let? v := text_of bytes in Slug_new v) <> Panic.
Proof. unfold text_of. destruct (from_utf8 bytes); cbn; [|done]. unfold Slug_new. by repeat case_match. Qed.

Lemma slug_bytes s : slug_ok s -> Forall byte s.
Proof. intros [_ _ _ _ H]. eapply Forall_impl; [exact H|]. intros b Hb%slug_char_ascii. unfold byte. lia. Qed.

Definition description_ok (d : Description) : Prop :=
  Forall byte (desc_bytes d) /\ 1 <= len (desc_bytes d) <= MAX_DESCRIPTION_BYTES /\
  exists chars, utf8_chars (desc_bytes d) = Some chars /\ Forall (fun c => is_control c = false) chars.

Lemma description_of_Ok bytes d : (let? v := text_of bytes in Description_new v) = Ok d <->
  desc_bytes d = bytes /\ 1 <= len bytes <= MAX_DESCRIPTION_BYTES /\
  exists chars, utf8_chars bytes = Some chars /\ Forall (fun c => is_control c = false) chars.
Proof.
  assert (Hex : forall l, existsb is_control l = false <-> Forall (fun c => is_control c = false) l).
  { induction l as [|c l IH]; cbn; [by split|]. by rewrite orb_false_iff, Forall_cons, IH. }
  split.
  - intros (v & [Ev Ec]%text_of_Ok & H)%res_bind_Ok. unfold Description_new in H. rewrite Ev in H.
    destruct (_ || _) eqn:El; [done|]. destruct (existsb _ _) eqn:Ex; [done|]. injection H as <-. bool_to_prop.
    split; [done|]. split; [lia|]. exists (str_chars v). split; [done|by apply Hex].
  - intros (E & Hl & cs & Hc & Hf). assert (Ht : text_of bytes = Ok (mkStr bytes cs)) by by apply text_of_Ok.
    rewrite Ht. cbn [res_bind]. unfold Description_new. cbn [str_bytes str_chars]. rewrite (proj2 (Hex _) Hf).
    rewrite (proj2 (N.eqb_neq _ _)), (proj2 (N.ltb_ge _ _)) by lia. cbn. by destruct d; cbn in *; subst.
Qed.

Lemma description_of_total bytes : (let? v := text_of bytes in Description_new v) <> Panic.
Proof. unfold text_of. destruct (from_utf8 bytes); cbn; [|done]. unfold Description_new. by repeat case_match. Qed.

(** ** Codecs *)

#[export] Instance codec_r_32 : Codec hash_wire w_bytes r_32.
Proof. apply codec_slice32. Qed.
#[export] Instance codec_realm : Codec (u 128) w_u128 r_realm.
Proof. apply codec_int128. Qed.

#[export] Instance codec_slug : Codec slug_ok put_slug get_slug.
Proof.
  assert (Codec (fun l => Forall byte l /\ len l <= MAX_SLUG_BYTES) (w_sized w_u8)
    (r_sized (Er := RoomsError) (r_byte RoomsEncoding) MAX_SLUG_BYTES RoomsBounds RoomsEncoding)).
  { by apply (codec_sized (w := 8)). }
  unfold get_slug, put_slug. apply codec_intro; [unfold w_sized; apply _| | | |].
  - intros s Hs. apply (codec_bytes (g := r_sized (Er := RoomsError) (r_byte RoomsEncoding) MAX_SLUG_BYTES RoomsBounds RoomsEncoding)).
    split; [by apply slug_bytes|apply Hs].
  - apply safe_bind. intros bytes r _. apply slug_of_total.
  - intros r k s r' Hr E Hg. inv_reads Hg Hr E. unfold lift in Hg. injection Hg as Ht <-.
    apply slug_of_Ok in Ht as [-> Hs]. split; [done|]. by eexists _, _.
  - intros r k s Hr Hs E. fwd_read E; [|split; [by apply slug_bytes|apply Hs]].
    unfold lift. by rewrite (proj2 (slug_of_Ok s s)).
Qed.

#[export] Instance codec_description : Codec description_ok put_description get_description.
Proof.
  assert (Codec (fun l => Forall byte l /\ len l <= MAX_DESCRIPTION_BYTES) (w_sized w_u16)
    (r_sized (Er := RoomsError) (r_int 2 RoomsEncoding) MAX_DESCRIPTION_BYTES RoomsBounds RoomsEncoding)).
  { by apply (codec_sized (w := 16)). }
  unfold get_description, put_description. apply codec_intro; [unfold w_sized; apply _| | | |].
  - intros d (Hb & Hl & _). apply (codec_bytes (g := r_sized (Er := RoomsError) (r_int 2 RoomsEncoding) MAX_DESCRIPTION_BYTES RoomsBounds RoomsEncoding)).
    split; [done|lia].
  - apply safe_bind. intros bytes r _. apply description_of_total.
  - intros r k d r' Hr E Hg. inv_reads Hg Hr E. unfold lift in Hg. injection Hg as Ht <-.
    apply description_of_Ok in Ht as (Ed & Hl & Hc). rewrite <- Ed in *. split; [by split; [destruct Ha|]|]. by eexists _, _.
  - intros r k d Hr (Hb & Hl & Hc) E. fwd_read E; [|split; [done|lia]].
    unfold lift. by rewrite (proj2 (description_of_Ok (desc_bytes d) d)).
Qed.

Lemma bytes_slug s : slug_ok s -> Forall byte (written (put_slug s)).
Proof. apply (codec_bytes (g := get_slug)). Qed.
Lemma bytes_description d : description_ok d -> Forall byte (written (put_description d)).
Proof. apply (codec_bytes (g := get_description)). Qed.
#[export] Hint Resolve bytes_slug bytes_description : bytes.

Definition create_action_typed (a : CreateAction) : Prop :=
  match a with
  | GrantCreate agent agent_key expires_at maximum_charge nonce =>
      hash_wire agent /\ hash_wire agent_key /\ u 64 expires_at /\ u 64 maximum_charge /\ hash_wire nonce
  | RevokeGrant grant => hash_wire grant
  end.

#[export] Instance codec_create_action : Codec create_action_typed put_create_action get_create_action.
Proof. codec_tac put_create_action get_create_action. Qed.

Definition update_action_typed (a : UpdateAction) : Prop :=
  match a with
  | Describe text => description_ok text
  | Archive => True
  | SetPublicActivityPolicy network _ => hash_wire network
  end.

#[export] Instance codec_update_action : Codec update_action_typed put_update_action get_update_action.
Proof.
  apply codec_intro.
  - codec_appends put_update_action.
  - codec_bytes_tac put_update_action.
  - unfold get_update_action. apply safe_bind. intros tag. destruct tag as [|[p|[p|p|]|]]; try apply _; repeat safe_step.
  - intros r k a r' Hr E H. unfold get_update_action in H. inv_reads H Hr E.
    destruct a0 as [|[p|[p|p|]|]]; try discriminate H; inv_reads H Hr E.
    + inv_close_with put_update_action E. done.
    + destruct (N.eqb_spec a0 PUBLIC_ACTIVITY_VERSION) as [->|]; cbn [negb] in H; [|discriminate H]. inv_reads H Hr E.
      destruct a1 as [|[]]; try discriminate H; inv_reads H Hr E; inv_close_with put_update_action E; done.
    + inv_close_with put_update_action E. done.
  - intros r k [text| |network []] Hr Ha E; unfold get_update_action, put_update_action in *; split_written; rewrite <- ?app_assoc in E; cbn in Ha.
    + do 2 (fwd_read E; [|done]). done.
    + fwd_read E; [|done]. done.
    + do 2 (fwd_read E; [|done]). change (negb _) with false. cbv iota. do 2 (fwd_read E; [|done]). done.
    + do 2 (fwd_read E; [|done]). change (negb _) with false. cbv iota. do 2 (fwd_read E; [|done]). done.
Qed.

Lemma bytes_create_action a : create_action_typed a -> Forall byte (written (put_create_action a)).
Proof. apply (codec_bytes (g := get_create_action)). Qed.
Lemma bytes_update_action a : update_action_typed a -> Forall byte (written (put_update_action a)).
Proof. apply (codec_bytes (g := get_update_action)). Qed.
#[export] Hint Resolve bytes_create_action bytes_update_action : bytes.

(** The writers without their [put_scope] and [put_owner]. *)
Definition flat_control (c : RoomControl) : Writer -> Writer :=
  w_bytes (rc_directory c) >> w_u128 (rc_realm c) >> w_bytes (rc_owner c) >> w_bytes (rc_social_control c)
  >> w_bytes (rc_controller_key c) >> w_option w_bytes (rc_previous c) >> w_u64 (rc_sequence c)
  >> put_create_action (rc_action c).
Definition flat_intent (i : CreationIntent) : Writer -> Writer :=
  w_bytes (in_directory i) >> w_u128 (in_realm i) >> w_bytes (in_policy i) >> w_bytes (in_initial_settings i)
  >> w_bytes (in_owner i) >> w_bytes (in_social_control i) >> w_bytes (in_owner_key i) >> w_bytes (in_agent i)
  >> w_bytes (in_agent_key i) >> w_bytes (in_room_control i) >> w_bytes (in_grant i) >> put_slug (in_slug i)
  >> put_description (in_description i) >> w_u32 (in_slot i) >> w_u64 (in_charge i) >> w_u64 (in_expires_at i)
  >> w_bytes (in_nonce i).
Definition flat_update (x : RoomUpdate) : Writer -> Writer :=
  w_bytes (ru_directory x) >> w_u128 (ru_realm x) >> w_bytes (ru_genesis x) >> w_bytes (ru_previous x)
  >> w_bytes (ru_owner x) >> w_bytes (ru_social_control x) >> w_bytes (ru_controller_key x)
  >> w_u64 (ru_expires_at x) >> w_bytes (ru_nonce x) >> put_update_action (ru_action x).

Definition control_typed (c : RoomControl) : Prop :=
  hash_wire (rc_directory c) /\ u 128 (rc_realm c) /\ hash_wire (rc_owner c) /\ hash_wire (rc_social_control c) /\
  hash_wire (rc_controller_key c) /\ option_wf hash_wire (rc_previous c) /\ u 64 (rc_sequence c) /\
  create_action_typed (rc_action c).

Definition intent_typed (i : CreationIntent) : Prop :=
  hash_wire (in_directory i) /\ u 128 (in_realm i) /\ hash_wire (in_policy i) /\ hash_wire (in_initial_settings i) /\
  hash_wire (in_owner i) /\ hash_wire (in_social_control i) /\ hash_wire (in_owner_key i) /\ hash_wire (in_agent i) /\
  hash_wire (in_agent_key i) /\ hash_wire (in_room_control i) /\ hash_wire (in_grant i) /\ slug_ok (in_slug i) /\
  description_ok (in_description i) /\ u 32 (in_slot i) /\ u 64 (in_charge i) /\ u 64 (in_expires_at i) /\
  hash_wire (in_nonce i).

Definition update_typed (x : RoomUpdate) : Prop :=
  hash_wire (ru_directory x) /\ u 128 (ru_realm x) /\ hash_wire (ru_genesis x) /\ hash_wire (ru_previous x) /\
  hash_wire (ru_owner x) /\ hash_wire (ru_social_control x) /\ hash_wire (ru_controller_key x) /\
  u 64 (ru_expires_at x) /\ hash_wire (ru_nonce x) /\ update_action_typed (ru_action x).

#[export] Instance codec_control : Codec control_typed put_control get_control.
Proof.
  apply (codec_put_ext _ flat_control); [done|]. unfold control_typed. codec_tac flat_control get_control.
Qed.

#[export] Instance codec_intent : Codec intent_typed put_intent get_intent.
Proof. apply (codec_put_ext _ flat_intent); [done|]. unfold intent_typed. codec_tac flat_intent get_intent. Qed.

#[export] Instance codec_update : Codec update_typed put_update get_update.
Proof. apply (codec_put_ext _ flat_update); [done|]. unfold update_typed. codec_tac flat_update get_update. Qed.

(** ** Frames *)

Definition proof_len (tag : N) : N := if tag =? TAG_CREATE then 128 else 64.

Record frame_ok (f : RoomFrame) : Prop := {
  fo_tag : fr_tag f <= TAG_PERMIT;
  fo_payload : Forall byte (fr_payload f) /\ len (fr_payload f) <= MAX_ROOM_RECORD_BYTES - 8 - proof_len (fr_tag f);
  fo_primary : sig_wire (fr_primary f);
  fo_secondary : if fr_tag f =? TAG_CREATE then exists s, fr_secondary f = Some s /\ sig_wire s else fr_secondary f = None;
}.

Definition frame_bytes (f : RoomFrame) : list N := room_frame (fr_tag f) (fr_payload f) (fr_primary f) (fr_secondary f).

#[export] Instance codec_signature {Er} (e : Er) : Codec sig_wire w_bytes (r_slice 64 e).
Proof. apply codec_slice; lia. Qed.
#[export] Instance codec_room_magic : Codec (fun l => Forall byte l /\ length l = 5%nat) w_bytes (r_slice 5 RoomsEncoding).
Proof. apply codec_slice; lia. Qed.
#[export] Instance codec_payload limit : TCEq (limit <? 2 ^ 16) true ->
  Codec (fun l => Forall byte l /\ len l <= limit) (w_sized w_u16) (r_sized (r_int 2 RoomsEncoding) limit RoomsBounds RoomsEncoding).
Proof. intros H. inversion H as [E]. apply (codec_sized (w := 16)); [done|]. apply N.ltb_lt. by rewrite E. Qed.

Lemma payload_limit tag : MAX_ROOM_RECORD_BYTES - 8 - proof_len tag < 2 ^ 16.
Proof. unfold proof_len. by destruct (tag =? TAG_CREATE). Qed.

Lemma magic_wire : Forall byte ROOM_MAGIC /\ length ROOM_MAGIC = 5%nat.
Proof. by apply (bool_decide_unpack _). Qed.

Definition put_room_frame (f : RoomFrame) : Writer -> Writer :=
  put_frame (fr_tag f) (fr_payload f) (fr_primary f) (fr_secondary f).

#[export] Instance codec_frame : Codec frame_ok put_room_frame get_frame.
Proof.
  assert (Hpay : forall tag, Codec (fun l => Forall byte l /\ len l <= MAX_ROOM_RECORD_BYTES - 8 - proof_len tag) (w_sized w_u16)
    (r_sized (r_int 2 RoomsEncoding) (MAX_ROOM_RECORD_BYTES - 8 - proof_len tag) RoomsBounds RoomsEncoding)).
  { intros tag. apply (codec_sized (w := 16)); [done|apply payload_limit]. }
  pose proof magic_wire as [Hmb Hml]. unfold get_frame. fold (proof_len).
  apply codec_intro.
  - intros f. unfold put_room_frame, put_frame, w_sized. apply _.
  - intros f [Ht [Hp _] [Hs _] Hx]. unfold put_room_frame, put_frame, w_sized. split_written. rewrite !Forall_app.
    split_and!; [done|by apply bytes_u8; unfold u; change TAG_PERMIT with 3 in Ht; lia|apply be_bytes|done|done|].
    destruct (fr_tag f =? TAG_CREATE); [destruct Hx as (s & -> & Hw & _); done|by rewrite Hx].
  - apply safe_bind. intros m. case_bool_decide; cbn [negb]; [|apply _]. apply safe_bind. intros tag.
    destruct (tag <=? TAG_PERMIT); cbn [negb]; [|apply _]. cbv zeta. fold (proof_len tag).
    apply safe_bind. intros p. apply safe_bind. intros s. destruct (tag =? TAG_CREATE); repeat safe_step.
  - intros r k f r' Hr E H. inv_reads H Hr E. case_bool_decide as Em; cbn [negb] in H; [subst a|discriminate H]. inv_reads H Hr E.
    destruct (N.leb_spec a TAG_PERMIT) as [Ht|]; cbn [negb] in H; [|discriminate H]. cbv zeta in H. fold (proof_len a) in H.
    inv_reads H Hr E. destruct (N.eqb_spec a TAG_CREATE) as [->|Hne].
    + inv_reads H Hr E. split; [|eexists _, _; split; [exact E|split; [reflexivity|]]].
      * split; cbn; [done|done|done|]. by eexists.
      * unfold put_room_frame, put_frame. cbn [fr_tag fr_payload fr_primary fr_secondary default]. split_written. by rewrite <- !app_assoc.
    + unfold ret in H. injection H as <- <-. split; [|eexists _, _; split; [exact E|split; [reflexivity|]]].
      * split; cbn; [done|done|done|]. by rewrite (proj2 (N.eqb_neq _ _)) by done.
      * unfold put_room_frame, put_frame. cbn [fr_tag fr_payload fr_primary fr_secondary default]. split_written.
        rewrite <- !app_assoc. by rewrite (app_nil_r (written _)).
  - intros r k f Hr [Ht [Hp Hl] Hs Hx] E. unfold put_room_frame, put_frame in *. destruct f as [tag payload primary secondary]. cbn [fr_tag fr_payload fr_primary fr_secondary] in *.
    split_written. rewrite <- ?app_assoc in E.
    fwd_read E; [|done]. rewrite bool_decide_true by done. cbn [negb].
    fwd_read E; [|unfold u; change TAG_PERMIT with 3 in Ht; lia]. rewrite (proj2 (N.leb_le _ _)) by done. cbn [negb]. cbv zeta. fold (proof_len tag).
    fwd_read E; [|done]. fwd_read E; [|done]. destruct (N.eqb_spec tag TAG_CREATE) as [->|Hne].
    + destruct Hx as (x & -> & Hw). cbn [default] in *. fwd_read E; [|done]. unfold ret. do 2 f_equal. rewrite <- !app_assoc. done.
    + subst secondary. cbn [default] in *. unfold ret. do 2 f_equal. change (written (w_bytes [])) with (@nil N). by rewrite <- !app_assoc, app_nil_r.
Qed.

Lemma split_frame_iff raw f : Forall byte raw ->
  split_frame raw = Ok f <-> frame_ok f /\ len raw <= MAX_ROOM_RECORD_BYTES /\ raw = frame_bytes f.
Proof.
  intros Hb. unfold split_frame. destruct (N.ltb_spec MAX_ROOM_RECORD_BYTES (len raw)); [split; [done|intros (_ & ? & _); lia]|].
  rewrite (parse_all_iff (put := put_room_frame)) by done. unfold frame_bytes, room_frame, put_room_frame. naive_solver.
Qed.

Lemma room_frame_length f : frame_ok f -> len (frame_bytes f) = 8 + len (fr_payload f) + proof_len (fr_tag f).
Proof.
  intros [_ _ [_ Hp] Hs]. destruct magic_wire as [_ Hm]. unfold frame_bytes, room_frame, put_frame, w_sized. split_written. unfold len. rewrite !length_app.
  change (written (w_bytes ROOM_MAGIC)) with ROOM_MAGIC. change (written (w_u8 (fr_tag f))) with [fr_tag f].
  change (written (w_u16 (N.of_nat (length (fr_payload f))))) with (be 2 (N.of_nat (length (fr_payload f)))).
  change (written (w_bytes (fr_payload f))) with (fr_payload f). change (written (w_bytes (fr_primary f))) with (fr_primary f).
  change (written (w_bytes (default [] (fr_secondary f)))) with (default [] (fr_secondary f)). rewrite Hm, Hp, be_length.
  unfold proof_len. destruct (fr_tag f =? TAG_CREATE); [destruct Hs as (s & -> & _ & Hl); cbn; lia|rewrite Hs; cbn; lia].
Qed.

Lemma frame_fits f : frame_ok f -> len (frame_bytes f) <= MAX_ROOM_RECORD_BYTES.
Proof.
  intros Hf. rewrite room_frame_length by done. destruct Hf as [_ [_ Hl] _ _]. revert Hl. unfold proof_len. change MAX_ROOM_RECORD_BYTES with 2048.
  destruct (_ =? _); lia.
Qed.

Lemma split_frame_total raw : Forall byte raw -> split_frame raw <> Panic.
Proof. intros Hb. unfold split_frame. destruct (_ <? _); [done|]. by apply (parse_all_total (put := put_room_frame)). Qed.

(** ** Bodies *)

Definition body_typed (b : RoomBody) : Prop :=
  match b with BodyControl c => control_typed c | BodyCreate i => intent_typed i | BodyUpdate x => update_typed x end.

Lemma decode_body_iff tag payload b : Forall byte payload ->
  decode_body tag payload = Ok b <-> body_typed b /\ tag = body_tag b /\ payload = body_payload b.
Proof.
  intros Hb. unfold decode_body.
  destruct (N.eqb_spec tag TAG_CONTROL) as [->|H0]; [|destruct (N.eqb_spec tag TAG_CREATE) as [->|H1]; [|destruct (N.eqb_spec tag TAG_UPDATE) as [->|H2]]].
  - split.
    + intros (c & Hc & [= <-])%res_bind_Ok. apply (parse_all_iff (put := put_control)) in Hc as [? ->]; done.
    + destruct b as [c|i|x]; intros (Ht & E & ->); try done. rewrite (proj2 (parse_all_iff (put := put_control) _ _ c Hb)); done.
  - split.
    + intros (c & Hc & [= <-])%res_bind_Ok. apply (parse_all_iff (put := put_intent)) in Hc as [? ->]; done.
    + destruct b as [c|i|x]; intros (Ht & E & ->); try done. rewrite (proj2 (parse_all_iff (put := put_intent) _ _ i Hb)); done.
  - split.
    + intros (c & Hc & [= <-])%res_bind_Ok. apply (parse_all_iff (put := put_update)) in Hc as [? ->]; done.
    + destruct b as [c|i|x]; intros (Ht & E & ->); try done. rewrite (proj2 (parse_all_iff (put := put_update) _ _ x Hb)); done.
  - split; [done|]. by destruct b; intros (_ & -> & _).
Qed.

Lemma decode_body_total tag payload : Forall byte payload -> decode_body tag payload <> Panic.
Proof.
  intros Hb. unfold decode_body.
  pose proof (parse_all_total (put := put_control) (g := get_control) (fun _ => RoomsEncoding) payload Hb).
  pose proof (parse_all_total (put := put_intent) (g := get_intent) (fun _ => RoomsEncoding) payload Hb).
  pose proof (parse_all_total (put := put_update) (g := get_update) (fun _ => RoomsEncoding) payload Hb).
  destruct (tag =? TAG_CONTROL); [by destruct (parse_all _ get_control _)|].
  destruct (tag =? TAG_CREATE); [by destruct (parse_all _ get_intent _)|].
  destruct (tag =? TAG_UPDATE); [by destruct (parse_all _ get_update _)|done].
Qed.

(** The payloads are short. *)
Lemma written_slug s : len (written (put_slug s)) = 1 + len s.
Proof. unfold put_slug, w_sized. split_written. unfold len. rewrite length_app. cbn. lia. Qed.
Lemma written_description d : len (written (put_description d)) = 2 + len (desc_bytes d).
Proof. unfold put_description, w_sized. split_written. unfold len. rewrite length_app. cbn. lia. Qed.

Ltac payload_length :=
  unfold len; rewrite !length_app; autorewrite with written_length;
  repeat match goal with H : hash_wire ?l |- context [length ?l] => rewrite (proj2 H) end.

Lemma intent_length i : intent_typed i -> len (intent_bytes i) <= 727.
Proof.
  intros H. unfold intent_typed in H. split_ands. change (intent_bytes i) with (written (flat_intent i)). unfold flat_intent. split_written.
  pose proof (written_slug (in_slug i)) as Es. pose proof (written_description (in_description i)) as Ed.
  match goal with H : slug_ok _ |- _ => pose proof (so_length _ H) as Hs end. match goal with H : description_ok _ |- _ => pose proof (proj1 (proj2 H)) as Hd end.
  change MAX_SLUG_BYTES with 48 in Hs. change MAX_DESCRIPTION_BYTES with 256 in Hd. unfold len in *.
  payload_length. lia.
Qed.

Lemma control_length c : control_typed c -> len (written (put_control c)) <= 300.
Proof.
  intros H. unfold control_typed in H. split_ands. change (written (put_control c)) with (written (flat_control c)). unfold flat_control.
  destruct (rc_previous c) as [p|]; cbn [w_option]; [match goal with H : option_wf _ _ |- _ => pose proof (H p eq_refl) end|];
  match goal with H : create_action_typed _ |- _ => destruct (rc_action c); cbn in H; split_ands end;
  cbn [put_create_action]; split_written; payload_length; lia.
Qed.

Lemma update_length x : update_typed x -> len (written (put_update x)) <= 600.
Proof.
  intros H. unfold update_typed in H. split_ands. change (written (put_update x)) with (written (flat_update x)). unfold flat_update.
  match goal with H : update_action_typed _ |- _ => destruct (ru_action x) as [text| |network enabled]; cbn in H end; cbn [put_update_action]; split_written.
  - pose proof (written_description text) as Ed. match goal with H : description_ok _ |- _ => pose proof (proj1 (proj2 H)) as Hd end.
    change MAX_DESCRIPTION_BYTES with 256 in Hd. unfold len in *. payload_length. lia.
  - payload_length. lia.
  - payload_length. lia.
Qed.

Lemma body_fits b : body_typed b -> Forall byte (body_payload b) /\ len (body_payload b) <= MAX_ROOM_RECORD_BYTES - 8 - proof_len (body_tag b).
Proof.
  destruct b as [c|i|x]; intros Hb; cbn [body_payload body_tag]; change MAX_ROOM_RECORD_BYTES with 2048.
  - pose proof (control_length c Hb). split; [by apply (codec_bytes (g := get_control))|change (proof_len TAG_CONTROL) with 64; lia].
  - pose proof (intent_length i Hb). split; [by apply (codec_bytes (g := get_intent))|change (proof_len TAG_CREATE) with 128; lia].
  - pose proof (update_length x Hb). split; [by apply (codec_bytes (g := get_update))|change (proof_len TAG_UPDATE) with 64; lia].
Qed.

(** ** Records *)

Section Records.
Context `{Hed : Ed25519}.

Lemma checked_key_cases key : checked_room_key key = Ok key /\ valid_key key = true /\ is_weak key = false \/ checked_room_key key = Err RoomsKey.
Proof. unfold checked_room_key. destruct (valid_key key); cbn; [|by right]. destruct (is_weak key); [by right|by left]. Qed.

Lemma check_body_total b : check_body b <> Panic.
Proof.
  destruct b as [c|i|x]; cbn [check_body].
  - unfold check_control. destruct (checked_key_cases (rc_controller_key c)) as [[-> _]| ->]; [|done]. cbn [res_bind].
    destruct (negb _); [done|]. destruct (rc_action c) as [a k|]; [|done]. destruct (checked_key_cases k) as [[-> _]| ->]; [|done]. cbn [res_bind]. by case_match.
  - unfold check_intent. destruct (checked_key_cases (in_owner_key i)) as [[-> _]| ->]; [|done]. cbn [res_bind].
    destruct (checked_key_cases (in_agent_key i)) as [[-> _]| ->]; [|done]. cbn [res_bind]. by case_match.
  - unfold check_update. destruct (checked_key_cases (ru_controller_key x)) as [[-> _]| ->]; [|done]. cbn [res_bind]. by repeat case_match.
Qed.

(** The records the source can hold. *)
Record signed_ok (s : RoomSignedRecord) : Prop := {
  sg_body : body_typed (rs_body s);
  sg_check : check_body (rs_body s) = Ok tt;
  sg_signature : sig_wire (rs_signature s);
  sg_acknowledgement :
    match rs_body s with
    | BodyCreate _ => exists a, rs_acknowledgement s = Some a /\ sig_wire a
    | _ => rs_acknowledgement s = None
    end;
}.

Definition signed_frame (s : RoomSignedRecord) : RoomFrame :=
  mkRoomFrame (body_tag (rs_body s)) (body_payload (rs_body s)) (rs_signature s) (rs_acknowledgement s).

Lemma signed_frame_ok s : signed_ok s -> frame_ok (signed_frame s).
Proof.
  intros [Hb _ Hs Ha]. split; cbn [signed_frame fr_tag fr_payload fr_primary fr_secondary]; [by destruct (rs_body s)|by apply body_fits|done|].
  by destruct (rs_body s).
Qed.

(** [decode] accepts exactly the encodings of admissible records. *)
Lemma room_decode_iff raw s : Forall byte raw -> room_decode raw = Ok s <-> signed_ok s /\ raw = room_encode s.
Proof.
  intros Hb. unfold room_decode. split.
  - intros (f & [Hf [_ Eraw]]%split_frame_iff & H)%res_bind_Ok; [|done]. apply res_bind_Ok in H as (b & Hd & H).
    apply decode_body_iff in Hd as (Ht & Etag & Ep); [|apply Hf]. apply res_bind_Ok in H as ([] & Hc & H).
    destruct (negb _); [done|]. injection H as <-. unfold room_encode. cbn [rs_body rs_signature rs_acknowledgement]. rewrite <- Etag, <- Ep. split; [|done].
    destruct Hf as [_ _ Hs Hx]. split; cbn; [done|done|done|]. rewrite Etag in Hx. destruct b; cbn in Hx; done.
  - intros [Hs ->]. pose proof (signed_frame_ok s Hs) as Hf.
    rewrite (proj2 (split_frame_iff _ (signed_frame s) Hb)) by (split; [done|]; split; [exact (frame_fits _ Hf)|done]). cbn [res_bind].
    rewrite (proj2 (decode_body_iff _ _ (rs_body s) (proj1 (fo_payload _ Hf)))) by (split; [apply Hs|done]). cbn [res_bind].
    rewrite (sg_check _ Hs). cbn [res_bind]. cbn [signed_frame fr_primary fr_secondary].
    assert (E : mkRoomSigned (rs_body s) (rs_signature s) (rs_acknowledgement s) = s) by by destruct s. rewrite E.
    by rewrite bool_decide_true.
Qed.

Lemma room_decode_total raw : Forall byte raw -> room_decode raw <> Panic.
Proof.
  intros Hb. unfold room_decode. pose proof (split_frame_total raw Hb) as Hs. destruct (split_frame raw) as [f| |] eqn:E; [|done|done]. cbn [res_bind].
  apply split_frame_iff in E as (Hf & _ & _); [|done]. pose proof (decode_body_total (fr_tag f) _ (proj1 (fo_payload _ Hf))) as Hd.
  destruct (decode_body _ _) as [b| |]; [|done|done]. cbn [res_bind]. pose proof (check_body_total b) as Hc. destruct (check_body b); [|done|done]. cbn [res_bind].
  by destruct (negb _).
Qed.

Lemma room_encode_bytes s : signed_ok s -> Forall byte (room_encode s) /\ len (room_encode s) <= MAX_ROOM_RECORD_BYTES.
Proof.
  intros Hs. pose proof (signed_frame_ok s Hs) as Hf. split; [exact (codec_bytes (g := get_frame) _ Hf)|exact (frame_fits _ Hf)].
Qed.

(** Owner permits. *)
Record permit_ok (p : OwnerPermit) : Prop := {
  po_intent : intent_typed (op_intent p);
  po_check : check_intent (op_intent p) = Ok tt;
  po_signature : sig_wire (op_signature p);
}.

Definition permit_frame (p : OwnerPermit) : RoomFrame := mkRoomFrame TAG_PERMIT (intent_bytes (op_intent p)) (op_signature p) None.

Lemma permit_frame_ok p : permit_ok p -> frame_ok (permit_frame p).
Proof.
  intros [Hi _ Hs]. split; cbn [permit_frame fr_tag fr_payload fr_primary fr_secondary]; [done| |done|done].
  split; [by apply (codec_bytes (g := get_intent))|]. pose proof (intent_length _ Hi). change MAX_ROOM_RECORD_BYTES with 2048. change (proof_len TAG_PERMIT) with 64. lia.
Qed.

Lemma permit_decode_iff raw p : Forall byte raw -> permit_decode raw = Ok p <-> permit_ok p /\ raw = permit_encode p.
Proof.
  intros Hb. unfold permit_decode. split.
  - intros (f & [Hf [_ Eraw]]%split_frame_iff & H)%res_bind_Ok; [|done]. destruct (N.eqb_spec (fr_tag f) TAG_PERMIT) as [Et|]; [|done]. cbn [negb] in H.
    apply res_bind_Ok in H as (i & Hd & H). apply (parse_all_iff (put := put_intent)) in Hd as (Ht & Ep); [|apply Hf].
    apply res_bind_Ok in H as ([] & Hc & H). destruct (negb _); [done|]. injection H as <-. destruct Hf as [_ _ Hs Hx]. rewrite Et in Hx.
    split; [by split|]. rewrite Eraw. unfold frame_bytes, permit_encode, intent_bytes. cbn [op_intent op_signature]. cbn in Hx. by rewrite Et, Ep, Hx.
  - intros [Hp ->]. pose proof (permit_frame_ok p Hp) as Hf.
    rewrite (proj2 (split_frame_iff _ (permit_frame p) Hb)) by (split; [done|]; split; [exact (frame_fits _ Hf)|done]). cbn [res_bind permit_frame fr_tag fr_payload].
    change (TAG_PERMIT =? TAG_PERMIT) with true. cbn [negb].
    rewrite (proj2 (parse_all_iff (put := put_intent) _ _ (op_intent p) (proj1 (fo_payload _ Hf)))) by (split; [apply Hp|done]). cbn [res_bind].
    rewrite (po_check _ Hp). cbn [res_bind permit_frame fr_primary]. assert (E : mkPermit (op_intent p) (op_signature p) = p) by by destruct p. rewrite E. by rewrite bool_decide_true.
Qed.

(** ** Signatures *)

Lemma verify_signature_Ok key transcript signature : verify_signature key transcript signature = Ok tt <->
  valid_key key = true /\ is_weak key = false /\ verify_strict key transcript signature = true.
Proof.
  unfold verify_signature, checked_room_key. destruct (valid_key key); cbn; [|split; [done|by intros [? _]]].
  destruct (is_weak key); cbn; [split; [done|by intros (_ & ? & _)]|]. destruct (verify_strict _ _ _); split; try done. by intros (_ & _ & ?).
Qed.

Lemma verify_signature_total key transcript signature : verify_signature key transcript signature <> Panic.
Proof. unfold verify_signature. destruct (checked_key_cases key) as [[-> _]| ->]; cbn; [by case_match|done]. Qed.

Context (sha256 : list N -> list N).

(** Every role of a record, with the transcript it signs. *)
Definition roles (s : RoomSignedRecord) : list (list N * list N * option (list N)) :=
  match rs_body s with
  | BodyCreate i =>
      [(in_owner_key i, owner_transcript sha256 i, Some (rs_signature s)); (in_agent_key i, agent_transcript sha256 i, rs_acknowledgement s)]
  | BodyControl c => [(rc_controller_key c, CONTROL_SIGN ++ room_record_id sha256 (rs_body s), Some (rs_signature s))]
  | BodyUpdate x => [(ru_controller_key x, UPDATE_SIGN ++ room_record_id sha256 (rs_body s), Some (rs_signature s))]
  end.
Definition role_signed (r : list N * list N * option (list N)) : Prop :=
  let '(key, transcript, signature) := r in
  valid_key key = true /\ is_weak key = false /\ exists x, signature = Some x /\ verify_strict key transcript x = true.

Lemma room_verify_iff s v : signed_ok s -> room_verify sha256 s = Ok v <-> v = mkRoomVerified s /\ Forall role_signed (roles s).
Proof.
  intros [_ _ _ Ha]. unfold room_verify, roles, controller_transcript. destruct (rs_body s) as [c|i|x] eqn:Eb.
  - rewrite Ha, bool_decide_false by naive_solver. cbn [res_bind]. rewrite Forall_singleton. unfold role_signed. split.
    + intros ([] & (H1 & H2 & H3)%verify_signature_Ok & [= <-])%res_bind_Ok. split; [done|]. split; [done|]. split; [done|by eexists].
    + intros (-> & H1 & H2 & x & [= <-] & H3). by rewrite (proj2 (verify_signature_Ok _ _ _)).
  - destruct Ha as (a & -> & _). cbn [ok_or res_bind]. rewrite Forall_cons, Forall_singleton. unfold role_signed. split.
    + intros ([] & H & [= <-])%res_bind_Ok. apply res_bind_Ok in H as ([] & (H1 & H2 & H3)%verify_signature_Ok & (H4 & H5 & H6)%verify_signature_Ok).
      split; [done|]. split; (split; [done|]; split; [done|by eexists]).
    + intros (-> & (H1 & H2 & ? & [= <-] & H3) & (H4 & H5 & ? & [= <-] & H6)).
      rewrite (proj2 (verify_signature_Ok (in_owner_key i) _ _)) by done. cbn [res_bind].
      by rewrite (proj2 (verify_signature_Ok (in_agent_key i) _ _)).
  - rewrite Ha, bool_decide_false by naive_solver. cbn [res_bind]. rewrite Forall_singleton. unfold role_signed. split.
    + intros ([] & (H1 & H2 & H3)%verify_signature_Ok & [= <-])%res_bind_Ok. split; [done|]. split; [done|]. split; [done|by eexists].
    + intros (-> & H1 & H2 & y & [= <-] & H3). by rewrite (proj2 (verify_signature_Ok _ _ _)).
Qed.

Lemma room_verify_total s : signed_ok s -> room_verify sha256 s <> Panic.
Proof.
  intros [_ _ _ Ha]. unfold room_verify, controller_transcript. destruct (rs_body s) as [c|i|x].
  - rewrite Ha, bool_decide_false by naive_solver. cbn [res_bind]. pose proof (verify_signature_total (rc_controller_key c)) as H.
    match goal with |- context [verify_signature ?k ?t ?x] => specialize (H t x); by destruct (verify_signature k t x) end.
  - destruct Ha as (a & -> & _). cbn [ok_or res_bind]. pose proof (verify_signature_total (in_owner_key i) (owner_transcript sha256 i) (rs_signature s)) as H.
    destruct (verify_signature (in_owner_key i) _ _); [|done|done]. cbn [res_bind].
    pose proof (verify_signature_total (in_agent_key i) (agent_transcript sha256 i) a) as H'. by destruct (verify_signature _ _ _).
  - rewrite Ha, bool_decide_false by naive_solver. cbn [res_bind]. pose proof (verify_signature_total (ru_controller_key x)) as H.
    match goal with |- context [verify_signature ?k ?t ?x] => specialize (H t x); by destruct (verify_signature k t x) end.
Qed.

(** ** What identifiers and transcripts bind *)

(** A collision of the hash, on these two inputs. *)
Definition collides (l k : list N) : Prop := l <> k /\ sha256 l = sha256 k.

Lemma hash_bound l k : sha256 l = sha256 k -> l = k \/ collides l k.
Proof. intros E. destruct (decide (l = k)); [by left|by right]. Qed.

Lemma room_preimage_inj domain tag tag' p p' : room_preimage domain tag p = room_preimage domain tag' p' -> tag = tag' /\ p = p'.
Proof.
  unfold room_preimage. intros E. apply app_inv_head, app_inv_head in E.
  apply app_inj_1 in E as [[= ->] E]; [|done]. split; [done|].
  apply app_inj_1 in E as [_ E]; [done|by rewrite !be_length].
Qed.

Lemma written_inj {Er A} {wf : A -> Prop} {put} {g : reads Er A} `{!Codec wf put g} a b : wf a -> wf b ->
  written (put a) = written (put b) -> a = b.
Proof.
  intros Ha Hb E. apply (codec_prefix_inj (g := g) a b [] []); [done|done|rewrite app_nil_r; by apply (codec_bytes (g := g))|by rewrite !app_nil_r].
Qed.

Lemma intent_bytes_inj i j : intent_typed i -> intent_typed j -> intent_bytes i = intent_bytes j -> i = j.
Proof. apply (written_inj (g := get_intent)). Qed.

Lemma body_payload_inj a b : body_typed a -> body_typed b -> body_tag a = body_tag b -> body_payload a = body_payload b -> a = b.
Proof.
  destruct a as [c|i|x], b as [c'|i'|x']; try done; cbn; intros Ha Hb _ E; f_equal.
  - by apply (written_inj (g := get_control)).
  - by apply intent_bytes_inj.
  - by apply (written_inj (g := get_update)).
Qed.

Definition room_record_preimage (b : RoomBody) : list N := room_preimage RECORD_DOMAIN (body_tag b) (body_payload b).
Definition genesis_preimage (i : CreationIntent) : list N := room_preimage ROOM_GENESIS_DOMAIN TAG_CREATE (intent_bytes i).
Definition permit_preimage (i : CreationIntent) : list N := room_preimage PERMIT_DOMAIN TAG_PERMIT (intent_bytes i).

Lemma record_id_bound a b : body_typed a -> body_typed b -> room_record_id sha256 a = room_record_id sha256 b ->
  a = b \/ collides (room_record_preimage a) (room_record_preimage b).
Proof. intros Ha Hb [E|]%hash_bound; [left|by right]. apply room_preimage_inj in E as [Et Ep]. by apply body_payload_inj. Qed.
Lemma genesis_id_bound i j : intent_typed i -> intent_typed j -> genesis_id sha256 i = genesis_id sha256 j ->
  i = j \/ collides (genesis_preimage i) (genesis_preimage j).
Proof. intros Hi Hj [E|]%hash_bound; [left|by right]. apply room_preimage_inj in E as [_ Ep]. by apply intent_bytes_inj. Qed.
Lemma permit_id_bound i j : intent_typed i -> intent_typed j -> permit_id sha256 i = permit_id sha256 j ->
  i = j \/ collides (permit_preimage i) (permit_preimage j).
Proof. intros Hi Hj [E|]%hash_bound; [left|by right]. apply room_preimage_inj in E as [_ Ep]. by apply intent_bytes_inj. Qed.

(** What the four roles sign. *)
Inductive role_transcript : Type :=
| RoleOwner (i : CreationIntent) | RoleAgent (i : CreationIntent) | RoleControl (c : RoomControl) | RoleUpdate (x : RoomUpdate).
Definition transcript_bytes (t : role_transcript) : list N :=
  match t with
  | RoleOwner i => owner_transcript sha256 i
  | RoleAgent i => agent_transcript sha256 i
  | RoleControl c => CONTROL_SIGN ++ room_record_id sha256 (BodyControl c)
  | RoleUpdate x => UPDATE_SIGN ++ room_record_id sha256 (BodyUpdate x)
  end.
(** What the transcript hashes. *)
Definition role_preimage (t : role_transcript) : list N :=
  match t with
  | RoleOwner i => permit_preimage i
  | RoleAgent i => genesis_preimage i
  | RoleControl c => room_record_preimage (BodyControl c)
  | RoleUpdate x => room_record_preimage (BodyUpdate x)
  end.
Definition role_typed (t : role_transcript) : Prop :=
  match t with RoleOwner i | RoleAgent i => intent_typed i | RoleControl c => control_typed c | RoleUpdate x => update_typed x end.

(** A signature of one role is of no other role, and of no other content. *)
Lemma transcript_bound {Hsha : Sha256 sha256} s t : role_typed s -> role_typed t -> transcript_bytes s = transcript_bytes t ->
  s = t \/ collides (role_preimage s) (role_preimage t).
Proof.
  assert (Hlen : forall l, length (sha256 l) = 32%nat) by (intros l; apply (sha256_wire (sha256 := sha256))).
  destruct s as [i|i|c|x], t as [j|j|d|y]; cbn [role_typed transcript_bytes role_preimage]; intros Hs Ht E;
    try (apply (f_equal (take 14)) in E; cbn in E; discriminate E).
  - apply app_inv_head in E. destruct (permit_id_bound i j Hs Ht E) as [->|]; [by left|by right].
  - apply app_inv_head in E. apply app_inj_1 in E as [E _]; [|unfold genesis_id; by rewrite !Hlen].
    destruct (genesis_id_bound i j Hs Ht E) as [->|]; [by left|by right].
  - apply app_inv_head in E. destruct (record_id_bound (BodyControl c) (BodyControl d) Hs Ht E) as [[= ->]|]; [by left|by right].
  - apply app_inv_head in E. destruct (record_id_bound (BodyUpdate x) (BodyUpdate y) Hs Ht E) as [[= ->]|]; [by left|by right].
Qed.
End Records.
