(* ===== verification/RoomAuthority.v ===== *)
(** Authority over the shared room directory
    (src/crates/vhalla-rooms/src/{authority,awards}.rs): the room-control chains
    of owners, the assessment of records against a view of the social records,
    and awards of credit.  The view itself is computed by
    src/crates/vhalla-social/src/control.rs; a [ControlView] is here what its
    accessors answer, and theorems hold for every view. *)
From Stdlib Require Import Ascii String.
From stdpp Require Import gmap.
From S2P Require Import Prelude Bytes PrefixFree Wire Signed Utf8 OrderedMap DirectCodec RoomRecords.

(** ** What the social view answers *)

Inductive SocialStatus : Type := Committed | Provisional | Pending | Rejected | Conflicted.
#[global] Instance SocialStatus_eq_dec : EqDecision SocialStatus. Proof. solve_decision. Defined.

Record OwnerStatus : Type := mkOwnerStatus {
  os_head : option SocialId; os_key : option (list N); os_frozen : bool; os_incomplete : bool; os_capacity_blocked : bool;
}.
Record AgentStatus : Type := mkAgentStatus { as_owner : OwnerId; as_key : list N; as_retired : bool; as_active : bool }.

(** Of a verified social record: its identifier, its bytes, and of its body what
    an award depends on: the owner of the actor of a reaction or of an original
    post, the post reacted to, and whether the reaction is [Up]. *)
Inductive SocialBody : Type :=
| SocialReaction (actor : OwnerId) (post : SocialId) (up : bool)
| SocialPost (actor : OwnerId)
| SocialOther.
Record SocialRecord : Type := mkSocialRecord { so_id : SocialId; so_bytes : list N; so_body : SocialBody }.
#[global] Instance SocialBody_eq_dec : EqDecision SocialBody. Proof. solve_decision. Defined.
#[global] Instance SocialRecord_eq_dec : EqDecision SocialRecord. Proof. solve_decision. Defined.

Record ControlView : Type := mkControlView {
  cv_owners : gmap OwnerId OwnerStatus; cv_agents : gmap AgentId AgentStatus;
  cv_history_complete : OwnerId -> bool; cv_social_status : SocialId -> SocialStatus;
  cv_archive : SocialId -> option SocialRecord;
}.

(** ** Chains *)

Definition MAX_CONTROL_RECORDS : N := 4096.

Record OpenGrant : Type := mkOpenGrant { og_agent : AgentId; og_agent_key : list N; og_expires_at : N; og_maximum_charge : N }.

Record OwnerChain : Type := mkOwnerChain {
  oc_head : option RoomRecordId; oc_sequence : N; oc_history : list RoomVerifiedRecord; oc_grants : gmap RoomRecordId OpenGrant;
}.
(** [OwnerChain::default()] *)
Definition empty_chain : OwnerChain := mkOwnerChain None 0 [] ∅.

Inductive Denial : Type :=
| DScope | DKind | DUnknownOwner | DStaleSocialBasis | DControllerKey | DFrozen | DIncomplete | DCapacityBlocked
| DIncompleteHistory | DStaleRoomBasis | DPrevious | DSequence | DAgentAffiliation | DAgentKey | DRetiredAgent
| DGrant | DGrantAgent | DExpired | DCharge | DCapacity.

Record RoomAuthority : Type := mkAuthority {
  ra_directory : DirectoryId; ra_realm : N; ra_chains : gmap OwnerId OwnerChain; ra_records : N;
}.
Definition RoomAuthority_new (directory : DirectoryId) (realm : N) : RoomAuthority := mkAuthority directory realm ∅ 0.

Definition chain_of (a : RoomAuthority) (owner : OwnerId) : OwnerChain := default empty_chain (ra_chains a !! owner).

(** ** Assessment *)

Definition owner_status (view : ControlView) (owner : OwnerId) (basis : SocialId) (key : list N) : res Denial unit :=
  let? status := ok_or (cv_owners view !! owner) DUnknownOwner in
  if os_frozen status then Err DFrozen
  else if os_incomplete status then Err DIncomplete
  else if os_capacity_blocked status then Err DCapacityBlocked
  else if negb (cv_history_complete view owner) then Err DIncompleteHistory
  else if negb (bool_decide (os_head status = Some basis)) then Err DStaleSocialBasis
  else if negb (bool_decide (os_key status = Some key)) then Err DControllerKey
  else Ok tt.

Definition agent_status (view : ControlView) (owner : OwnerId) (agent : AgentId) (key : list N) : res Denial unit :=
  let? status := ok_or (cv_agents view !! agent) DAgentAffiliation in
  if negb (bool_decide (as_owner status = owner)) then Err DAgentAffiliation
  else if negb (bool_decide (as_key status = key)) then Err DAgentKey
  else if as_retired status then Err DRetiredAgent
  else Ok tt.

Definition in_scope (a : RoomAuthority) (directory : DirectoryId) (realm : N) : bool :=
  bool_decide (directory = ra_directory a) && (realm =? ra_realm a).

Section Authority.
Context (sha256 : list N -> list N).

Definition set_chain (owner : OwnerId) (c : OwnerChain) (a : RoomAuthority) : RoomAuthority :=
  mkAuthority (ra_directory a) (ra_realm a) (<[owner := c]> (ra_chains a)) (ra_records a).

(** The [match] on the action, on the chain of the owner. *)
Definition apply_action (id : RoomRecordId) (action : CreateAction) : eff OwnerChain Denial unit :=
  match action with
  | GrantCreate agent agent_key expires_at maximum_charge _ =>
      modify (fun c => mkOwnerChain (oc_head c) (oc_sequence c) (oc_history c)
                         (<[id := mkOpenGrant agent agent_key expires_at maximum_charge]> (oc_grants c)))
  | RevokeGrant grant =>
      let! c := get in
      do! modify (fun c => mkOwnerChain (oc_head c) (oc_sequence c) (oc_history c) (delete grant (oc_grants c))) in
      if bool_decide (oc_grants c !! grant = None) then throw DGrant else ret tt
  end.

(** The part of [commit_control] on the chain of the owner. *)
Definition extend_chain (record : RoomVerifiedRecord) (control : RoomControl) : eff OwnerChain Denial unit :=
  let id := rv_id sha256 record in
  let! c := get in
  if negb (bool_decide (rc_previous control = oc_head c)) then throw DPrevious
  else if negb (rc_sequence control =? oc_sequence c) then throw DSequence
  else
    do! apply_action id (rc_action control) in
    do! modify (fun c => mkOwnerChain (Some id) (oc_sequence c) (oc_history c) (oc_grants c)) in
    let! sequence := lift (ok_or (checked_add 64 (oc_sequence c) 1) DSequence) in
    modify (fun c => mkOwnerChain (oc_head c) sequence (oc_history c ++ [record]) (oc_grants c)).

Definition commit_control (record : RoomVerifiedRecord) : eff RoomAuthority Denial unit :=
  match rv_body record with
  | BodyControl control =>
      let! a := get in
      if negb (in_scope a (rc_directory control) (rc_realm control)) then throw DScope
      else if MAX_CONTROL_RECORDS <=? ra_records a then throw DCapacity
      else
        let owner := rc_owner control in
        do! zoom (fun a => chain_of a owner) (set_chain owner) (extend_chain record control) in
        modify (fun a => mkAuthority (ra_directory a) (ra_realm a) (ra_chains a) (ra_records a + 1))
  | _ => throw DKind
  end.

Definition admit_control (record : RoomVerifiedRecord) (view : ControlView) (now : N) : eff RoomAuthority Denial unit :=
  match rv_body record with
  | BodyControl control =>
      let! a := get in
      if negb (in_scope a (rc_directory control) (rc_realm control)) then throw DScope
      else
        do! lift (owner_status view (rc_owner control) (rc_social_control control) (rc_controller_key control)) in
        do! (match rc_action control with
             | GrantCreate agent agent_key expires_at _ _ =>
                 do! lift (agent_status view (rc_owner control) agent agent_key) in
                 if expires_at <=? now then throw DExpired else ret tt
             | RevokeGrant _ => ret tt
             end) in
        commit_control record
  | _ => throw DKind
  end.

Record RoomAdmission : Type := mkAdmission { ad_intent : CreationIntent; ad_grant : RoomRecordId }.
#[global] Instance Admission_eq_dec : EqDecision RoomAdmission. Proof. solve_decision. Defined.

Definition assess_creation (a : RoomAuthority) (intent : CreationIntent) (view : ControlView) (now : N) : res Denial RoomAdmission :=
  if negb (in_scope a (in_directory intent) (in_realm intent)) then Err DScope
  else
    let? _ := owner_status view (in_owner intent) (in_social_control intent) (in_owner_key intent) in
    let? _ := agent_status view (in_owner intent) (in_agent intent) (in_agent_key intent) in
    let? chain := ok_or (ra_chains a !! in_owner intent) DStaleRoomBasis in
    if negb (bool_decide (oc_head chain = Some (in_room_control intent))) then Err DStaleRoomBasis
    else
      let? grant := ok_or (oc_grants chain !! in_grant intent) DGrant in
      if negb (bool_decide (og_agent grant = in_agent intent)) || negb (bool_decide (og_agent_key grant = in_agent_key intent))
      then Err DGrantAgent
      else if (og_expires_at grant <=? now) || (in_expires_at intent <=? now) then Err DExpired
      else if og_maximum_charge grant <? in_charge intent then Err DCharge
      else Ok (mkAdmission intent (in_grant intent)).

Definition assess_update (a : RoomAuthority) (update : RoomUpdate) (view : ControlView) (now : N) : res Denial unit :=
  if negb (in_scope a (ru_directory update) (ru_realm update)) then Err DScope
  else
    let? _ := owner_status view (ru_owner update) (ru_social_control update) (ru_controller_key update) in
    if ru_expires_at update <=? now then Err DExpired else Ok tt.

(** ** The commitment to every input of an admission *)

Definition CONTROL_SNAPSHOT_DOMAIN : list N := bytes_of "vhalla/rooms/control-snapshot/v1" ++ [0].

Definition put_owner_status (view : ControlView) (e : OwnerId * OwnerStatus) : Writer -> Writer :=
  let '(owner, status) := e in
  w_bytes owner >> w_bytes (default ZERO (os_head status)) >> w_bytes (default ZERO (os_key status))
  >> w_u8 (N.lor (N.lor (N.lor (N.b2n (os_frozen status)) (N.shiftl (N.b2n (os_incomplete status)) 1))
              (N.shiftl (N.b2n (os_capacity_blocked status)) 2))
              (N.shiftl (N.b2n (negb (cv_history_complete view owner))) 3)).
Definition put_agent_status (e : AgentId * AgentStatus) : Writer -> Writer :=
  let '(agent, status) := e in
  w_bytes agent >> w_bytes (as_owner status) >> w_bytes (as_key status)
  >> w_u8 (N.lor (N.b2n (as_retired status)) (N.shiftl (N.b2n (as_active status)) 1)).
Definition put_open_grant (e : RoomRecordId * OpenGrant) : Writer -> Writer :=
  let '(grant, open) := e in
  w_bytes grant >> w_bytes (og_agent open) >> w_bytes (og_agent_key open) >> w_u64 (og_expires_at open)
  >> w_u64 (og_maximum_charge open).
Definition put_chain (e : OwnerId * OwnerChain) : Writer -> Writer :=
  let '(owner, chain) := e in
  w_bytes owner >> w_bytes (default ZERO (oc_head chain)) >> w_u64 (oc_sequence chain)
  >> w_u32 (N.of_nat (size (oc_grants chain))) >> w_all put_open_grant (entries (oc_grants chain)).

Definition control_preimage (a : RoomAuthority) (view : ControlView) : list N :=
  written (w_bytes CONTROL_SNAPSHOT_DOMAIN >> w_bytes (ra_directory a) >> w_u128 (ra_realm a)
           >> w_u32 (N.of_nat (size (cv_owners view))) >> w_all (put_owner_status view) (entries (cv_owners view))
           >> w_u32 (N.of_nat (size (cv_agents view))) >> w_all put_agent_status (entries (cv_agents view))
           >> w_u32 (N.of_nat (size (ra_chains a))) >> w_all put_chain (entries (ra_chains a))).
Definition control_snapshot (a : RoomAuthority) (view : ControlView) : list N := sha256 (control_preimage a view).
End Authority.

(** ** Awards *)

Inductive AwardDenial : Type :=
| NotSupport | NotCommitted | UnknownPost | NotPost | PostNotCommitted | SelfSupport | Ineligible | AwardEpoch.

Record SupportAward : Type := mkAward { aw_source : OwnerId; aw_beneficiary : OwnerId; aw_epoch : N; aw_evidence : SocialId }.
#[global] Instance SupportAward_eq_dec : EqDecision SupportAward. Proof. solve_decision. Defined.

Definition assess_support (record : SocialRecord) (view : ControlView) (eligible : gset OwnerId)
    (epoch_seconds accepted_at now : N) : res AwardDenial SupportAward :=
  if (epoch_seconds =? 0) || (now <? accepted_at) then Err AwardEpoch
  else if negb (bool_decide (cv_social_status view (so_id record) = Committed)) then Err NotCommitted
  else
    match so_body record with
    | SocialReaction source post true =>
        let? post_record := ok_or (cv_archive view post) UnknownPost in
        match so_body post_record with
        | SocialPost beneficiary =>
            if negb (bool_decide (cv_social_status view post = Committed)) then Err PostNotCommitted
            else if bool_decide (source = beneficiary) then Err SelfSupport
            else if negb (bool_decide (source ∈ eligible)) then Err Ineligible
            else Ok (mkAward source beneficiary (accepted_at / epoch_seconds) (so_id record))
        | _ => Err NotPost
        end
    | _ => Err NotSupport
    end.
