(* ===== verification/Registry.v ===== *)
(** The shared room directory (src/crates/vhalla-rooms/src/registry.rs): policy,
    accounts, rooms and their revisions, awards, the rotation schedule, and the
    check that one state extends another. *)
From Stdlib Require Import Ascii String.
From stdpp Require Import gmap sorting.
From S2P Require Import Prelude Bytes PrefixFree Wire Signed Utf8 OrderedMap DirectCodec RoomRecords RoomAuthority.

Definition MAX_ROOMS : N := 4096.
Definition MAX_OWNERS : N := 256.
Definition MAX_SUPPORT : N := 8192.
Definition MAX_ROTATIONS : N := 64.
Definition MAX_VALIDATORS : N := 64.
Definition MAX_REVISIONS : N := 256.
Definition MAX_SEARCH_PAGE : N := 64.
Definition MAX_TERMS : N := 8.
Definition MAX_QUERY : N := 128.

Record DirectoryPolicy : Type := mkDirectoryPolicy {
  dp_base_cost : N; dp_window_seconds : N; dp_max_in_window : N; dp_support_epoch_seconds : N; dp_max_lifetime_rooms : N;
}.
#[global] Instance DirectoryPolicy_eq_dec : EqDecision DirectoryPolicy. Proof. solve_decision. Defined.

Record Account : Type := mkAccount { ac_earned : N; ac_spent : N; ac_lifetime_slots : N }.
#[global] Instance Account_eq_dec : EqDecision Account. Proof. solve_decision. Defined.
(** [Account::default()] *)
Definition empty_account : Account := mkAccount 0 0 0.

Record Room : Type := mkRoom {
  rm_genesis : RoomGenesisId; rm_intent : CreationIntent; rm_description : Description; rm_head : RoomRecordId;
  rm_created_at : N; rm_archived : bool; rm_record : RoomVerifiedRecord; rm_revisions : list RoomVerifiedRecord;
}.

Inductive Applied : Type :=
| AppliedControl | Created (genesis : RoomGenesisId) | Existing (genesis : RoomGenesisId)
| Updated (record : RoomRecordId) | Awarded | DuplicateAward.

Record Evidence : Type := mkEvidence { ev_award : SupportAward; ev_record : SocialRecord }.

Inductive RegistryError : Type :=
| GBounds | GAuthority (d : Denial) | GAward (d : AwardDenial) | GWrongPolicy | GTaken | GSlot | GCost | GInsufficientCredit
| GRateLimit | GMissing | GOwnerMismatch | GStaleRevision | GArchived | GCapacity | GClock | GCorrupt.

Record ValidatorMember : Type := mkValidator { vm_key : list N; vm_power : N }.
#[global] Instance ValidatorMember_eq_dec : EqDecision ValidatorMember. Proof. solve_decision. Defined.

Record Registry : Type := mkRegistry {
  rg_directory : DirectoryId; rg_realm : N; rg_policy : DirectoryPolicy; rg_authority : RoomAuthority;
  rg_eligible : gset OwnerId; rg_support : gset (OwnerId * OwnerId * N); rg_evidence : gmap SocialId Evidence;
  rg_accounts : gmap OwnerId Account; rg_windows : gmap OwnerId (list N); rg_rooms : gmap Slug Room;
  rg_by_genesis : gmap RoomGenesisId Slug; rg_schedule : gmap N (list ValidatorMember); rg_last_time : N; rg_revision : N;
}.

(** Assignments to fields of [self]. *)
Definition set_authority (x : RoomAuthority) (s : Registry) : Registry :=
  mkRegistry (rg_directory s) (rg_realm s) (rg_policy s) x (rg_eligible s) (rg_support s) (rg_evidence s) (rg_accounts s)
    (rg_windows s) (rg_rooms s) (rg_by_genesis s) (rg_schedule s) (rg_last_time s) (rg_revision s).
Definition set_eligible_field (x : gset OwnerId) (s : Registry) : Registry :=
  mkRegistry (rg_directory s) (rg_realm s) (rg_policy s) (rg_authority s) x (rg_support s) (rg_evidence s) (rg_accounts s)
    (rg_windows s) (rg_rooms s) (rg_by_genesis s) (rg_schedule s) (rg_last_time s) (rg_revision s).
Definition set_credit (support : gset (OwnerId * OwnerId * N)) (evidence : gmap SocialId Evidence) (accounts : gmap OwnerId Account)
    (s : Registry) : Registry :=
  mkRegistry (rg_directory s) (rg_realm s) (rg_policy s) (rg_authority s) (rg_eligible s) support evidence accounts
    (rg_windows s) (rg_rooms s) (rg_by_genesis s) (rg_schedule s) (rg_last_time s) (rg_revision s).
Definition set_windows (x : gmap OwnerId (list N)) (s : Registry) : Registry :=
  mkRegistry (rg_directory s) (rg_realm s) (rg_policy s) (rg_authority s) (rg_eligible s) (rg_support s) (rg_evidence s) (rg_accounts s)
    x (rg_rooms s) (rg_by_genesis s) (rg_schedule s) (rg_last_time s) (rg_revision s).
Definition set_rooms (accounts : gmap OwnerId Account) (rooms : gmap Slug Room) (by_genesis : gmap RoomGenesisId Slug) (s : Registry) : Registry :=
  mkRegistry (rg_directory s) (rg_realm s) (rg_policy s) (rg_authority s) (rg_eligible s) (rg_support s) (rg_evidence s) accounts
    (rg_windows s) rooms by_genesis (rg_schedule s) (rg_last_time s) (rg_revision s).
Definition set_schedule (x : gmap N (list ValidatorMember)) (s : Registry) : Registry :=
  mkRegistry (rg_directory s) (rg_realm s) (rg_policy s) (rg_authority s) (rg_eligible s) (rg_support s) (rg_evidence s) (rg_accounts s)
    (rg_windows s) (rg_rooms s) (rg_by_genesis s) x (rg_last_time s) (rg_revision s).
Definition set_clock_revision (last_time revision : N) (s : Registry) : Registry :=
  mkRegistry (rg_directory s) (rg_realm s) (rg_policy s) (rg_authority s) (rg_eligible s) (rg_support s) (rg_evidence s) (rg_accounts s)
    (rg_windows s) (rg_rooms s) (rg_by_genesis s) (rg_schedule s) last_time revision.

(** ** Policy *)

Definition DIRECTORY_POLICY_DOMAIN : list N := bytes_of "vhalla/rooms/directory-policy/v1" ++ [0].

Definition policy_preimage (p : DirectoryPolicy) : list N :=
  DIRECTORY_POLICY_DOMAIN ++ be 8 (dp_base_cost p) ++ be 8 (dp_window_seconds p) ++ be 2 (dp_max_in_window p)
  ++ be 8 (dp_support_epoch_seconds p) ++ be 4 (dp_max_lifetime_rooms p).

(** [checked_mul] of u64 *)
Definition checked_mul_u64 (a b : N) : option N := if a * b <? 2 ^ 64 then Some (a * b) else None.

Definition policy_cost (p : DirectoryPolicy) (slot : N) : res RegistryError N :=
  if (slot =? 0) || (dp_max_lifetime_rooms p <? slot) then Err GSlot
  else ok_or (v ← checked_mul_u64 (dp_base_cost p) slot; checked_mul_u64 v slot) GCost.

Definition policy_validate (p : DirectoryPolicy) : res RegistryError unit :=
  if (dp_base_cost p =? 0) || (dp_window_seconds p =? 0) || (dp_max_in_window p =? 0) || (MAX_ROOMS <? dp_max_in_window p)
     || (dp_support_epoch_seconds p =? 0) || (dp_max_lifetime_rooms p =? 0) || (MAX_ROOMS <? dp_max_lifetime_rooms p)
  then Err GBounds
  else let? _ := policy_cost p (dp_max_lifetime_rooms p) in Ok tt.

Section Directory.
Context (sha256 : list N -> list N) `{Hed : Ed25519}.

Definition policy_id (p : DirectoryPolicy) : SettingsId := sha256 (policy_preimage p).

Definition Registry_new (directory : DirectoryId) (realm : N) (policy : DirectoryPolicy) (eligible : list OwnerId) :
    res RegistryError Registry :=
  let? _ := policy_validate policy in
  if MAX_OWNERS <? len eligible then Err GCapacity
  else Ok (mkRegistry directory realm policy (RoomAuthority_new directory realm) (list_to_set eligible) ∅ ∅ ∅ ∅ ∅ ∅ ∅ 0 0).

(** ** Reading *)

Definition account (s : Registry) (owner : OwnerId) : Account := default empty_account (rg_accounts s !! owner).

Definition quote (s : Registry) (owner : OwnerId) : res RegistryError (N * N) :=
  let? slot := ok_or (checked_add 32 (ac_lifetime_slots (account s owner)) 1) GSlot in
  let? cost := policy_cost (rg_policy s) slot in
  Ok (slot, cost).

Definition room_by_genesis (s : Registry) (genesis : RoomGenesisId) : option Room :=
  slug ← rg_by_genesis s !! genesis; rg_rooms s !! slug.

(** The last policy of the revisions. *)
Definition activity_of (record : RoomVerifiedRecord) : option PublicActivityPolicy :=
  match rv_body record with
  | BodyUpdate update =>
      match ru_action update with
      | SetPublicActivityPolicy network enabled => Some (mkActivityPolicy (rv_id sha256 record) network enabled)
      | _ => None
      end
  | _ => None
  end.
Fixpoint find_map {A B} (f : A -> option B) (l : list A) : option B :=
  match l with [] => None | x :: l => match f x with Some y => Some y | None => find_map f l end end.
Definition public_activity_policy (r : Room) : option PublicActivityPolicy := find_map activity_of (rev (rm_revisions r)).
Definition allows_public_activity (r : Room) (network : list N) (policy : RoomRecordId) : bool :=
  negb (rm_archived r) &&
  match public_activity_policy r with
  | Some active => ap_enabled active && bool_decide (ap_network active = network) && bool_decide (ap_record active = policy)
  | None => false
  end.

(** ** Creation and updates *)

(** Drop what has expired from the front. *)
Fixpoint prune_window (now window : N) (times : list N) : list N :=
  match times with
  | [] => []
  | t :: rest => if window <=? saturating_sub now t then prune_window now window rest else times
  end.

Definition create (record : RoomVerifiedRecord) (intent : CreationIntent) (view : ControlView) (now : N) :
    eff Registry RegistryError Applied :=
  let! genesis := lift (ok_or (rv_genesis_id sha256 record) GBounds) in
  let! s := get in
  if bool_decide (is_Some (rg_by_genesis s !! genesis)) then ret (Existing genesis)
  else if negb (bool_decide (in_policy intent = policy_id (rg_policy s))) then throw GWrongPolicy
  else
    do! lift (map_err GAuthority (assess_creation (rg_authority s) intent view now)) in
    if bool_decide (is_Some (rg_rooms s !! in_slug intent)) then throw GTaken
    else if MAX_ROOMS <=? N.of_nat (size (rg_rooms s)) then throw GCapacity
    else
      let owner := in_owner intent in
      let old := account s owner in
      if bool_decide (rg_accounts s !! owner = None) && (MAX_OWNERS <=? N.of_nat (size (rg_accounts s))) then throw GCapacity
      else
        let! slot := lift (ok_or (checked_add 32 (ac_lifetime_slots old) 1) GSlot) in
        if negb (in_slot intent =? slot) then throw GSlot
        else
          let! cost := lift (policy_cost (rg_policy s) slot) in
          if negb (in_charge intent =? cost) then throw GCost
          else
            let! spent := lift (ok_or (checked_add 64 (ac_spent old) (in_charge intent)) GCost) in
            if ac_earned old <? spent then throw GInsufficientCredit
            else
              let window := prune_window now (dp_window_seconds (rg_policy s)) (default [] (rg_windows s !! owner)) in
              do! modify (fun s => set_windows (<[owner := window]> (rg_windows s)) s) in
              if dp_max_in_window (rg_policy s) <=? len window then throw GRateLimit
              else
                do! modify (fun s => set_windows (<[owner := window ++ [now]]> (rg_windows s)) s) in
                let room := mkRoom genesis intent (in_description intent) (rv_id sha256 record) now false record [] in
                do! modify (fun s => set_rooms (<[owner := mkAccount (ac_earned old) spent slot]> (rg_accounts s))
                                       (<[in_slug intent := room]> (rg_rooms s))
                                       (<[genesis := in_slug intent]> (rg_by_genesis s)) s) in
                ret (Created genesis).

(** A revision of a room. *)
Definition revise (action : UpdateAction) (record : RoomVerifiedRecord) (r : Room) : Room :=
  mkRoom (rm_genesis r) (rm_intent r)
    (match action with Describe text => text | _ => rm_description r end)
    (rv_id sha256 record) (rm_created_at r)
    (match action with Archive => true | _ => rm_archived r end)
    (rm_record r) (rm_revisions r ++ [record]).

Definition update_room (record : RoomVerifiedRecord) (x : RoomUpdate) (view : ControlView) (now : N) : eff Registry RegistryError Applied :=
  let! s := get in
  do! lift (map_err GAuthority (assess_update (rg_authority s) x view now)) in
  let! slug := lift (ok_or (rg_by_genesis s !! ru_genesis x) GMissing) in
  let! room := lift (ok_or (rg_rooms s !! slug) GMissing) in
  if rm_archived room then throw GArchived
  else if negb (bool_decide (in_owner (rm_intent room) = ru_owner x)) then throw GOwnerMismatch
  else if negb (bool_decide (rm_head room = ru_previous x)) then throw GStaleRevision
  else if MAX_REVISIONS <=? len (rm_revisions room) then throw GCapacity
  else
    do! modify (fun s => set_rooms (rg_accounts s) (<[slug := revise (ru_action x) record room]> (rg_rooms s)) (rg_by_genesis s) s) in
    ret (Updated (rv_id sha256 record)).

(** The new clock, and the next revision of the state. *)
Definition advance_to (now : N) : eff Registry RegistryError unit :=
  do! modify (fun s => set_clock_revision now (rg_revision s) s) in
  let! s := get in
  let! revision := lift (ok_or (checked_add 64 (rg_revision s) 1) GCapacity) in
  modify (fun s => set_clock_revision (rg_last_time s) revision s).

Definition apply (record : RoomVerifiedRecord) (view : ControlView) (now : N) : eff Registry RegistryError Applied :=
  let! s := get in
  if now <? rg_last_time s then throw GClock
  else
    let! applied :=
      match rv_body record with
      | BodyControl _ =>
          do! eff_map_err GAuthority (zoom rg_authority set_authority (admit_control sha256 record view now)) in ret AppliedControl
      | BodyCreate intent => create record intent view now
      | BodyUpdate x => update_room record x view now
      end in
    do! advance_to now in
    ret applied.

(** ** Awards *)

Definition award (record : SocialRecord) (view : ControlView) (now : N) : eff Registry RegistryError Applied :=
  let! s := get in
  if now <? rg_last_time s then throw GClock
  else if bool_decide (is_Some (rg_evidence s !! so_id record)) then ret DuplicateAward
  else
    let! award := lift (map_err GAward (assess_support record view (rg_eligible s) (dp_support_epoch_seconds (rg_policy s)) now now)) in
    if MAX_SUPPORT <=? N.of_nat (size (rg_evidence s)) then throw GCapacity
    else
      let key := (aw_beneficiary award, aw_source award, aw_epoch award) in
      let evidence := <[so_id record := mkEvidence award record]> (rg_evidence s) in
      if bool_decide (key ∈ rg_support s) then
        do! modify (fun s => set_credit (rg_support s) evidence (rg_accounts s) s) in
        ret DuplicateAward
      else if MAX_SUPPORT <=? N.of_nat (size (rg_support s)) then throw GCapacity
      else if bool_decide (rg_accounts s !! aw_beneficiary award = None) && (MAX_OWNERS <=? N.of_nat (size (rg_accounts s)))
      then throw GCapacity
      else
        let old := account s (aw_beneficiary award) in
        let! earned := lift (ok_or (checked_add 64 (ac_earned old) 1) GCost) in
        do! modify (fun s => set_credit ({[key]} ∪ rg_support s) evidence
                               (<[aw_beneficiary award := mkAccount earned (ac_spent old) (ac_lifetime_slots old)]> (rg_accounts s)) s) in
        do! advance_to now in
        ret Awarded.

(** ** Configuration *)

Definition set_eligible (eligible : list OwnerId) (now : N) : eff Registry RegistryError unit :=
  let! s := get in
  if now <? rg_last_time s then throw GClock
  else if MAX_OWNERS <? len eligible then throw GCapacity
  else
    do! modify (set_eligible_field (list_to_set eligible)) in
    advance_to now.

(** The loop over the members: keys seen and the total power. *)
Definition check_member (acc : gset (list N) * N) (m : ValidatorMember) : res RegistryError (gset (list N) * N) :=
  let '(seen, total) := acc in
  if (vm_power m =? 0) || bool_decide (vm_key m ∈ seen) || negb (valid_key (vm_key m)) then Err GBounds
  else
    let? total := ok_or (t ← checked_add 64 total (vm_power m); if t <=? (2 ^ 64 - 1) / 3 then Some t else None) GCost in
    Ok ({[vm_key m]} ∪ seen, total).

(** The derived order: by key, then by power. *)
Definition member_le (a b : ValidatorMember) : Prop :=
  key_lt (vm_key a) (vm_key b) \/ (vm_key a = vm_key b /\ vm_power a <= vm_power b).
#[global] Instance member_le_dec : RelDecision member_le.
Proof. intros a b. unfold member_le. apply _. Defined.

Definition apply_rotation (from : N) (validators : list ValidatorMember) (now : N) : eff Registry RegistryError unit :=
  let! s := get in
  if now <? rg_last_time s then throw GClock
  else if match last (entries (rg_schedule s)).*1 with Some latest => from <=? latest | None => false end then throw GBounds
  else if (len validators =? 0) || (MAX_VALIDATORS <? len validators) || (MAX_ROTATIONS <=? N.of_nat (size (rg_schedule s)))
  then throw GCapacity
  else
    do! lift (res_fold check_member (∅, 0) validators) in
    do! modify (fun s => set_schedule (<[from := merge_sort member_le validators]> (rg_schedule s)) s) in
    advance_to now.

(** ** Search *)

(** The parts between ASCII white space. *)
Definition is_ascii_space (b : N) : bool := existsb (N.eqb b) [32; 9; 10; 12; 13].
Fixpoint split_space (part l : list N) : list (list N) :=
  match l with
  | [] => match part with [] => [] | _ => [rev part] end
  | b :: l => if is_ascii_space b then match part with [] => split_space [] l | _ => rev part :: split_space [] l end
              else split_space (b :: part) l
  end.

Definition to_ascii_lowercase (b : N) : N := if in_range 65 90 b then b + 32 else b.
Definition eq_ignore_ascii_case (a b : list N) : bool := bool_decide (to_ascii_lowercase <$> a = to_ascii_lowercase <$> b).

(** [windows(n).any(f)], of a positive [n]. *)
Fixpoint windows_of_any (n : nat) (f : list N -> bool) (l : list N) : bool :=
  match l with
  | [] => false
  | _ :: rest => (if (n <=? length l)%nat then f (take n l) else false) || windows_of_any n f rest
  end.
Definition text_contains (text term : list N) : bool :=
  negb (len term =? 0) && windows_of_any (length term) (fun s => eq_ignore_ascii_case s term) text.

Record Search : Type := mkSearch {
  se_rooms : list Room; se_examined : N; se_retained : N; se_partial : bool; se_revision : N;
}.

Definition room_matches (terms : list (list N)) (r : Room) : bool :=
  negb (rm_archived r) &&
  forallb (fun term => text_contains (in_slug (rm_intent r)) term || text_contains (desc_bytes (rm_description r)) term) terms.

(** The loop over the rooms. *)
Fixpoint scan (terms : list (list N)) (limit budget : N) (rooms : list Room) (found : list Room) (examined : N) : list Room * N * bool :=
  match rooms with
  | [] => (found, examined, false)
  | room :: rooms =>
      if (examined =? budget) || (len found =? limit) then (found, examined, true)
      else scan terms limit budget rooms (if room_matches terms room then found ++ [room] else found) (examined + 1)
  end.

Definition search (s : Registry) (query : str) (limit budget : N) : res RegistryError Search :=
  if (MAX_QUERY <? len (str_bytes query)) || (limit =? 0) || (MAX_SEARCH_PAGE <? limit) || (MAX_ROOMS <? budget) then Err GBounds
  else
    let terms := split_space [] (str_bytes query) in
    if (MAX_TERMS <? len terms) || existsb (fun c => is_control c && negb (c =? 32)) (str_chars query) then Err GBounds
    else
      let '(rooms, examined, partial) := scan terms limit budget (entries (rg_rooms s)).*2 [] 0 in
      Ok (mkSearch rooms examined (N.of_nat (size (rg_rooms s))) partial (rg_revision s)).
End Directory.

(** ** Extension *)

(** [all] of a map. *)
Definition map_all {K A} `{Countable K} (f : K -> A -> bool) (m : gmap K A) : bool := forallb (fun e => f e.1 e.2) (map_to_list m).
Definition starts_with {A} `{EqDecision A} (l prefix : list A) : bool := bool_decide (prefix = take (length prefix) l).

(** Each time is the next of the iterator. *)
Fixpoint follows_times (times next : list N) : bool :=
  match times, next with
  | [], _ => true
  | t :: times, n :: next => (t =? n) && follows_times times next
  | _ :: _, [] => false
  end.

Definition support_key (e : Evidence) : OwnerId * OwnerId * N := (aw_beneficiary (ev_award e), aw_source (ev_award e), aw_epoch (ev_award e)).

Definition same_state (s previous : Registry) : bool :=
  (rg_last_time s =? rg_last_time previous) && bool_decide (rg_eligible s = rg_eligible previous)
  && bool_decide (rg_support s = rg_support previous) && bool_decide (rg_accounts s = rg_accounts previous)
  && bool_decide (rg_windows s = rg_windows previous)
  && (ra_records (rg_authority s) =? ra_records (rg_authority previous))
  && (size (rg_rooms s) =? size (rg_rooms previous))%nat
  && negb (size (rg_evidence s) <=? size (rg_evidence previous))%nat
  && map_all (fun _ e => bool_decide (support_key e ∈ rg_support previous)) (rg_evidence s).

Definition is_extension_of (s previous : Registry) : bool :=
  let same_revision := rg_revision s =? rg_revision previous in
  let live window := filter (fun t => saturating_sub (rg_last_time s) t < dp_window_seconds (rg_policy s)) window in
  bool_decide (rg_directory s = rg_directory previous) && (rg_realm s =? rg_realm previous)
  && bool_decide (rg_policy s = rg_policy previous) && (rg_revision previous <=? rg_revision s)
  && (rg_last_time previous <=? rg_last_time s) && bool_decide (rg_support previous ⊆ rg_support s)
  && map_all (fun from set => bool_decide (rg_schedule s !! from = Some set)) (rg_schedule previous)
  && (negb same_revision || same_state s previous)
  && map_all (fun owner chain =>
       match ra_chains (rg_authority s) !! owner with
       | Some next => starts_with (oc_history next) (oc_history chain)
       | None => false
       end) (ra_chains (rg_authority previous))
  && map_all (fun slug room =>
       match rg_rooms s !! slug with
       | Some next => bool_decide (rm_record next = rm_record room) && (rm_created_at next =? rm_created_at room)
                      && starts_with (rm_revisions next) (rm_revisions room)
                      && negb (same_revision && negb (length (rm_revisions next) =? length (rm_revisions room))%nat)
       | None => false
       end) (rg_rooms previous)
  && map_all (fun id evidence =>
       match rg_evidence s !! id with
       | Some next => bool_decide (ev_award next = ev_award evidence) && bool_decide (ev_record next = ev_record evidence)
       | None => false
       end) (rg_evidence previous)
  && map_all (fun owner account =>
       match rg_accounts s !! owner with
       | Some next => (ac_earned account <=? ac_earned next) && (ac_spent account <=? ac_spent next)
                      && (ac_lifetime_slots account <=? ac_lifetime_slots next)
       | None => false
       end) (rg_accounts previous)
  && map_all (fun owner window => follows_times (live window) (live (default [] (rg_windows s !! owner)))) (rg_windows previous).
