(* ===== verification/RegistrySteps.v ===== *)
(** What each operation on the shared directory does ([RoomAuthority],
    [Registry]): the conditions under which it is accepted, the state it then
    leaves, and what a refusal leaves. *)
From Stdlib Require Import Ascii String.
From stdpp Require Import gmap sorting.
From S2P Require Import Prelude Bytes PrefixFree Wire Signed Utf8 OrderedMap DirectCodec RoomRecords RoomAuthority Registry.

(** ** Control chains *)

Section Authority.
Context (sha256 : list N -> list N).
Implicit Types (c : OwnerChain) (a : RoomAuthority) (control : RoomControl) (record : RoomVerifiedRecord).

(** A record is the next of the chain. *)
Definition chain_accepts control c : Prop :=
  rc_previous control = oc_head c /\ rc_sequence control = oc_sequence c
  /\ match rc_action control with RevokeGrant grant => is_Some (oc_grants c !! grant) | _ => True end.

Definition grant_step (id : RoomRecordId) (action : CreateAction) (g : gmap RoomRecordId OpenGrant) : gmap RoomRecordId OpenGrant :=
  match action with
  | GrantCreate agent agent_key expires_at maximum_charge _ => <[id := mkOpenGrant agent agent_key expires_at maximum_charge]> g
  | RevokeGrant grant => delete grant g
  end.

Definition chain_next record control c : OwnerChain :=
  mkOwnerChain (Some (rv_id sha256 record)) (oc_sequence c + 1) (oc_history c ++ [record])
    (grant_step (rv_id sha256 record) (rc_action control) (oc_grants c)).

Lemma extend_chain_wp record control c : oc_sequence c < 2 ^ 64 - 1 ->
  wp (extend_chain sha256 record control)
    (fun _ c' => chain_accepts control c /\ c' = chain_next record control c) (fun _ c' => c' = c) c.
Proof.
  intros Hq. unfold extend_chain. wp_step. wp_step. case_bool_decide as Hp; simpl; [|by wp_steps].
  destruct (N.eqb_spec (rc_sequence control) (oc_sequence c)) as [Hs|]; simpl; [|by wp_steps].
  unfold chain_accepts, chain_next, apply_action. assert (Hc : checked_add 64 (oc_sequence c) 1 = Some (oc_sequence c + 1)).
  { unfold checked_add. rewrite (proj2 (N.ltb_lt _ _)) by lia. done. }
  destruct (rc_action control) as [agent key expires charge nonce|grant]; wp_steps; simpl.
  - rewrite Hc. simpl. wp_steps. done.
  - case_bool_decide as Hg; wp_steps; simpl.
    + destruct c; simpl in *. by rewrite delete_id.
    + rewrite Hc. simpl. wp_steps. split; [|done]. split; [done|]. split; [done|]. by apply not_eq_None_Some.
Qed.

Definition control_committed record control a : RoomAuthority :=
  let a1 := set_chain (rc_owner control) (chain_next record control (chain_of a (rc_owner control))) a in
  mkAuthority (ra_directory a1) (ra_realm a1) (ra_chains a1) (ra_records a1 + 1).

(** What a refusal may leave: an empty chain of an owner that had none. *)
Inductive opened (owner : OwnerId) a : RoomAuthority -> Prop :=
| opened_none : opened owner a a
| opened_chain : ra_chains a !! owner = None -> opened owner a (set_chain owner empty_chain a).

Lemma set_chain_same owner a : opened owner a (set_chain owner (chain_of a owner) a).
Proof.
  unfold chain_of. destruct (ra_chains a !! owner) as [c|] eqn:E; simpl; [|by constructor].
  unfold set_chain. rewrite insert_id by done. destruct a. constructor.
Qed.

Lemma commit_control_wp record control a : rv_body record = BodyControl control ->
  (forall owner, oc_sequence (chain_of a owner) < 2 ^ 64 - 1) ->
  wp (commit_control sha256 record)
    (fun _ a' => in_scope a (rc_directory control) (rc_realm control) = true /\ ra_records a < MAX_CONTROL_RECORDS
                 /\ chain_accepts control (chain_of a (rc_owner control)) /\ a' = control_committed record control a)
    (fun _ a' => opened (rc_owner control) a a') a.
Proof.
  intros Eb Hq. unfold commit_control. rewrite Eb. wp_step. wp_step. destruct (in_scope _ _ _) eqn:Es; simpl; [|wp_steps; constructor].
  destruct (N.leb_spec MAX_CONTROL_RECORDS (ra_records a)) as [|Hr]; [wp_steps; constructor|]. wp_step. wp_step.
  eapply wp_mono; [by apply extend_chain_wp| |].
  - intros [] c' [Hc ->]. wp_steps. done.
  - intros e c' ->. apply set_chain_same.
Qed.

(** The checks that [admit_control] makes before the chain: the standing of the owner
    and, of a grant, the agent and the time. *)
Definition control_authorised a control (view : ControlView) (now : N) : Prop :=
  owner_status view (rc_owner control) (rc_social_control control) (rc_controller_key control) = Ok tt
  /\ match rc_action control with
     | GrantCreate agent agent_key expires_at _ _ =>
         agent_status view (rc_owner control) agent agent_key = Ok tt /\ now < expires_at
     | RevokeGrant _ => True
     end.

Lemma admit_control_wp record control view now a : rv_body record = BodyControl control ->
  (forall owner, oc_sequence (chain_of a owner) < 2 ^ 64 - 1) ->
  wp (admit_control sha256 record view now)
    (fun _ a' => control_authorised a control view now /\ in_scope a (rc_directory control) (rc_realm control) = true
                 /\ ra_records a < MAX_CONTROL_RECORDS
                 /\ chain_accepts control (chain_of a (rc_owner control)) /\ a' = control_committed record control a)
    (fun _ a' => opened (rc_owner control) a a') a.
Proof.
  intros Eb Hq. unfold admit_control, control_authorised. rewrite Eb. wp_step. wp_step. destruct (in_scope _ _ _) eqn:Es; simpl; [|wp_steps; constructor].
  wp_step. wp_step. destruct (owner_status _ _ _ _) as [[]|e|] eqn:Eo; [|constructor|].
  2:{ unfold owner_status in Eo. destruct (cv_owners view !! _); simpl in Eo; [|done]. repeat case_match; done. }
  wp_step. destruct (rc_action control) as [agent key expires charge nonce|grant].
  - wp_step. wp_step. destruct (agent_status _ _ _ _) as [[]|e|] eqn:Ea; [|constructor|].
    2:{ unfold agent_status in Ea. destruct (cv_agents view !! _); simpl in Ea; [|done]. repeat case_match; done. }
    destruct (N.leb_spec expires now) as [|Ht]; wp_step; [constructor|].
    eapply wp_mono; [by apply (commit_control_wp record control)| |done]. naive_solver.
  - wp_step. eapply wp_mono; [by apply (commit_control_wp record control)| |done]. naive_solver.
Qed.

(** Nothing else is asked of a control record. *)
Lemma extend_chain_run record control c : oc_sequence c < 2 ^ 64 - 1 -> chain_accepts control c ->
  extend_chain sha256 record control c = (Ok tt, chain_next record control c).
Proof.
  intros Hq (Hp & Hs & Hg). unfold extend_chain, apply_action, chain_next, bind, lift, get, ret, modify, checked_add.
  rewrite Hp, Hs, bool_decide_true, N.eqb_refl by done. simpl.
  destruct (rc_action control) as [agent key expires charge nonce|grant]; simpl.
  - by rewrite (proj2 (N.ltb_lt _ _)) by lia.
  - destruct Hg as [g Hg]. rewrite Hg. simpl. by rewrite (proj2 (N.ltb_lt _ _)) by lia.
Qed.

Lemma admit_control_run record control view now a : rv_body record = BodyControl control ->
  oc_sequence (chain_of a (rc_owner control)) < 2 ^ 64 - 1 -> control_authorised a control view now ->
  in_scope a (rc_directory control) (rc_realm control) = true -> ra_records a < MAX_CONTROL_RECORDS ->
  chain_accepts control (chain_of a (rc_owner control)) ->
  admit_control sha256 record view now a = (Ok tt, control_committed record control a).
Proof.
  intros Eb Hq [Ho Hg] Hs Hr Ha.
  assert (Hcommit : commit_control sha256 record a = (Ok tt, control_committed record control a)).
  { unfold commit_control, bind, get, zoom. rewrite Eb, Hs. simpl. rewrite (proj2 (N.leb_gt _ _)) by done.
    by rewrite extend_chain_run. }
  unfold admit_control, bind, get, lift. rewrite Eb, Hs, Ho. simpl. destruct (rc_action control) as [agent key expires charge nonce|grant]; [|done].
  destruct Hg as [Hg Ht]. rewrite Hg. rewrite (proj2 (N.leb_gt _ _)) by done. done.
Qed.

(** ** Assessment of a creation, and of an update *)

Definition owner_standing (view : ControlView) (owner : OwnerId) (basis : SocialId) (key : list N) : Prop :=
  exists status, cv_owners view !! owner = Some status /\ os_frozen status = false /\ os_incomplete status = false
    /\ os_capacity_blocked status = false /\ cv_history_complete view owner = true /\ os_head status = Some basis /\ os_key status = Some key.
Definition agent_standing (view : ControlView) (owner : OwnerId) (agent : AgentId) (key : list N) : Prop :=
  exists status, cv_agents view !! agent = Some status /\ as_owner status = owner /\ as_key status = key /\ as_retired status = false.

Ltac refuse := split; [done|intros (? & [= <-] & ?); destruct_and?; congruence].

Lemma owner_status_iff view owner basis key : owner_status view owner basis key = Ok tt <-> owner_standing view owner basis key.
Proof.
  unfold owner_status, owner_standing. destruct (cv_owners view !! owner) as [status|]; simpl; [|split; [done|by intros (? & ? & _)]].
  destruct (os_frozen status) eqn:?; [refuse|]. destruct (os_incomplete status) eqn:?; [refuse|].
  destruct (os_capacity_blocked status) eqn:?; [refuse|]. destruct (cv_history_complete view owner) eqn:?; simpl; [|refuse].
  case_bool_decide; simpl; [|refuse]. case_bool_decide; simpl; [|refuse]. split; [|done]. intros _. by exists status.
Qed.
Lemma agent_status_iff view owner agent key : agent_status view owner agent key = Ok tt <-> agent_standing view owner agent key.
Proof.
  unfold agent_status, agent_standing. destruct (cv_agents view !! agent) as [status|]; simpl; [|split; [done|by intros (? & ? & _)]].
  case_bool_decide; simpl; [|refuse]. case_bool_decide; simpl; [|refuse]. destruct (as_retired status) eqn:?; [refuse|].
  split; [|done]. intros _. by exists status.
Qed.

(** The authority of a creation: both signers in good standing, the head of the
    owner's chain, and an open grant for this agent that covers the charge. *)
Record creation_authorised a (intent : CreationIntent) (view : ControlView) (now : N) : Prop := {
  ca_scope : in_directory intent = ra_directory a /\ in_realm intent = ra_realm a;
  ca_owner : owner_standing view (in_owner intent) (in_social_control intent) (in_owner_key intent);
  ca_agent : agent_standing view (in_owner intent) (in_agent intent) (in_agent_key intent);
  ca_basis : oc_head (chain_of a (in_owner intent)) = Some (in_room_control intent);
  ca_grant : exists g, oc_grants (chain_of a (in_owner intent)) !! in_grant intent = Some g
               /\ og_agent g = in_agent intent /\ og_agent_key g = in_agent_key intent
               /\ now < og_expires_at g /\ in_charge intent <= og_maximum_charge g;
  ca_time : now < in_expires_at intent;
}.

Lemma in_scope_true a directory realm : in_scope a directory realm = true <-> directory = ra_directory a /\ realm = ra_realm a.
Proof. unfold in_scope. by rewrite andb_true_iff, bool_decide_eq_true, N.eqb_eq. Qed.

Lemma assess_creation_iff a intent view now x :
  assess_creation a intent view now = Ok x <-> x = mkAdmission intent (in_grant intent) /\ creation_authorised a intent view now.
Proof.
  unfold assess_creation. split.
  - destruct (in_scope _ _ _) eqn:Es; simpl; [|done]. apply in_scope_true in Es as Hscope.
    intros ([] & Ho%owner_status_iff & HH)%res_bind_Ok. apply res_bind_Ok in HH as ([] & Ha%agent_status_iff & HH).
    apply res_bind_Ok in HH as (c & Hc & HH).
    destruct (ra_chains a !! in_owner intent) as [c'|] eqn:Ec; simplify_eq/=. case_bool_decide as Hh; [|done]. simpl in HH.
    apply res_bind_Ok in HH as (g & Hg & HH). destruct (oc_grants c !! in_grant intent) as [g'|] eqn:Eg; simplify_eq/=.
    case_bool_decide; [|done]. case_bool_decide; [|done]. simpl in HH. destruct (_ || _) eqn:Et; [done|].
    destruct (og_maximum_charge g <? in_charge intent) eqn:Em; [done|]. bool_to_prop. simplify_eq. split; [done|].
    split; [done|done|done| | |done]; unfold chain_of; rewrite Ec; simpl; [done|]. exists g. split_and!; auto with lia.
  - intros [-> [Hs Ho Ha Hh (g & Hg & H1 & H2 & H3 & H4) Ht]]. apply in_scope_true in Hs as ->. simpl.
    apply owner_status_iff in Ho as ->. apply agent_status_iff in Ha as ->. simpl. unfold chain_of in Hh, Hg.
    destruct (ra_chains a !! in_owner intent) as [c|]; [|done]. simpl in *. rewrite bool_decide_true by done. simpl. rewrite Hg. simpl.
    rewrite !bool_decide_true by done. simpl. rewrite !(proj2 (N.leb_gt _ _)) by done. simpl. by rewrite (proj2 (N.ltb_ge _ _)).
Qed.

Lemma status_total view owner basis key : owner_status view owner basis key <> Panic.
Proof. unfold owner_status. destruct (cv_owners view !! owner); simpl; [|done]. repeat case_match; done. Qed.
Lemma agent_total view owner agent key : agent_status view owner agent key <> Panic.
Proof. unfold agent_status. destruct (cv_agents view !! agent); simpl; [|done]. repeat case_match; done. Qed.

Lemma assess_creation_total a intent view now : assess_creation a intent view now <> Panic.
Proof.
  unfold assess_creation. destruct (in_scope _ _ _); simpl; [|done].
  pose proof (status_total view (in_owner intent) (in_social_control intent) (in_owner_key intent)) as H.
  destruct (owner_status _ _ _ _) as [[]| |]; simpl; [|done|done].
  pose proof (agent_total view (in_owner intent) (in_agent intent) (in_agent_key intent)).
  destruct (agent_status _ _ _ _) as [[]| |]; simpl; [|done|done]. destruct (ra_chains a !! _) as [c|]; simpl; [|done].
  case_match; [done|]. destruct (oc_grants c !! _); simpl; [|done]. repeat case_match; done.
Qed.

Record update_authorised a (x : RoomUpdate) (view : ControlView) (now : N) : Prop := {
  ua_scope : ru_directory x = ra_directory a /\ ru_realm x = ra_realm a;
  ua_owner : owner_standing view (ru_owner x) (ru_social_control x) (ru_controller_key x);
  ua_time : now < ru_expires_at x;
}.

Lemma assess_update_iff a x view now : assess_update a x view now = Ok tt <-> update_authorised a x view now.
Proof.
  unfold assess_update. split.
  - destruct (in_scope _ _ _) eqn:Es; simpl; [|done]. apply in_scope_true in Es.
    intros ([] & Ho%owner_status_iff & H)%res_bind_Ok. destruct (_ <=? _) eqn:Et; [done|]. bool_to_prop. done.
  - intros [Hs Ho Ht]. apply in_scope_true in Hs as ->. apply owner_status_iff in Ho as ->. simpl. by rewrite (proj2 (N.leb_gt _ _)).
Qed.
Lemma assess_update_total a x view now : assess_update a x view now <> Panic.
Proof.
  unfold assess_update. destruct (in_scope _ _ _); simpl; [|done].
  pose proof (status_total view (ru_owner x) (ru_social_control x) (ru_controller_key x)) as H.
  destruct (owner_status _ _ _ _) as [[]| |]; simpl; [|done|done]. by case_match.
Qed.
End Authority.

(** ** Policy *)

Record policy_valid (p : DirectoryPolicy) : Prop := {
  pv_base : 0 < dp_base_cost p;
  pv_window : 0 < dp_window_seconds p;
  pv_max : 0 < dp_max_in_window p <= MAX_ROOMS;
  pv_epoch : 0 < dp_support_epoch_seconds p;
  pv_rooms : 0 < dp_max_lifetime_rooms p <= MAX_ROOMS;
  pv_cost : dp_base_cost p * dp_max_lifetime_rooms p * dp_max_lifetime_rooms p < 2 ^ 64;
}.

(** What the room of a slot costs. *)
Definition slot_cost (p : DirectoryPolicy) (slot : N) : N := dp_base_cost p * slot * slot.

Lemma policy_cost_iff p slot cost : policy_cost p slot = Ok cost <->
  0 < slot <= dp_max_lifetime_rooms p /\ slot_cost p slot < 2 ^ 64 /\ dp_base_cost p * slot < 2 ^ 64 /\ cost = slot_cost p slot.
Proof.
  unfold policy_cost, checked_mul_u64, slot_cost. destruct (_ || _) eqn:E.
  - split; [done|]. intros (? & _). apply orb_true_iff in E as [?%N.eqb_eq|?%N.ltb_lt]; lia.
  - bool_to_prop. destruct (N.ltb_spec (dp_base_cost p * slot) (2 ^ 64)); simpl; [|split; [done|lia]].
    destruct (N.ltb_spec (dp_base_cost p * slot * slot) (2 ^ 64)); simpl; split; [intros [= <-]; lia|intros; f_equal; lia|done|lia].
Qed.
Lemma policy_cost_total p slot : policy_cost p slot <> Panic.
Proof.
  unfold policy_cost, checked_mul_u64. case_match; [done|]. destruct (_ * _ <? _); simpl; [|done].
  by destruct (_ * _ * _ <? _).
Qed.

Lemma policy_validate_iff p : policy_validate p = Ok tt <-> policy_valid p.
Proof.
  unfold policy_validate. split.
  - destruct (_ || _) eqn:E; [done|]. bool_to_prop. intros (c & (P1 & P2 & P3 & ->)%policy_cost_iff & _)%res_bind_Ok.
    unfold slot_cost in *. split; lia.
  - intros [Hb Hw Hm He Hr Hc]. rewrite !(proj2 (N.eqb_neq _ _)), !(proj2 (N.ltb_ge _ _)) by lia. simpl.
    destruct (policy_cost p (dp_max_lifetime_rooms p)) as [c|e|] eqn:E; [done| |by destruct (policy_cost_total _ _ E)].
    assert (policy_cost p (dp_max_lifetime_rooms p) = Ok (slot_cost p (dp_max_lifetime_rooms p))) as H; [|by rewrite H in E].
    apply policy_cost_iff. unfold slot_cost. split; [lia|]. split; [done|]. split; [|done].
    eapply N.le_lt_trans; [|exact Hc]. rewrite <- (N.mul_1_r (dp_base_cost p * dp_max_lifetime_rooms p)) at 1. apply N.mul_le_mono_l. lia.
Qed.

Lemma valid_cost p slot : policy_valid p -> 0 < slot <= dp_max_lifetime_rooms p -> policy_cost p slot = Ok (slot_cost p slot).
Proof.
  intros [Hb _ _ _ _ Hc] Hs. apply policy_cost_iff. unfold slot_cost. split; [done|].
  assert (dp_base_cost p * slot <= dp_base_cost p * dp_max_lifetime_rooms p) by (apply N.mul_le_mono_l; lia).
  assert (dp_base_cost p * slot * slot <= dp_base_cost p * dp_max_lifetime_rooms p * dp_max_lifetime_rooms p) by (apply N.mul_le_mono; lia).
  assert (dp_base_cost p * slot * 1 <= dp_base_cost p * slot * slot) by (apply N.mul_le_mono_l; lia). lia.
Qed.

(** ** The rate window *)

(** [prune_window] drops the expired times at the front. *)
Lemma prune_split now window times : exists dropped, times = dropped ++ prune_window now window times
  /\ Forall (fun t => window <= now - t) dropped.
Proof.
  induction times as [|t times (dropped & E & Hd)]; simpl; [by exists []|]. unfold saturating_sub. destruct (N.leb_spec window (now - t)).
  - exists (t :: dropped). split; [by rewrite E at 1|by constructor].
  - by exists [].
Qed.
Lemma prune_length now window times : len (prune_window now window times) <= len times.
Proof. destruct (prune_split now window times) as (d & E & _). rewrite E at 2. unfold len. rewrite length_app. lia. Qed.
Lemma prune_same now window times : len times <= len (prune_window now window times) -> prune_window now window times = times.
Proof.
  destruct (prune_split now window times) as (d & E & _). intros H. rewrite E in H at 1. unfold len in H. rewrite length_app in H.
  destruct d; [by rewrite E at 2|simpl in H; lia].
Qed.

(** ** Operations on the directory *)

Section Operations.
Context (sha256 : list N -> list N) `{Hed : Ed25519}.
Implicit Types (s : Registry) (record : RoomVerifiedRecord) (intent : CreationIntent) (view : ControlView).

(** What the reasoning about one operation needs of the state. *)
Record registry_bounded s : Prop := {
  rb_policy : policy_valid (rg_policy s);
  rb_sequence : forall owner, oc_sequence (chain_of (rg_authority s) owner) < 2 ^ 64 - 1;
  rb_earned : forall owner, ac_earned (account s owner) < 2 ^ 64 - 1;
  rb_windows : forall owner window, rg_windows s !! owner = Some window -> len window <= dp_max_in_window (rg_policy s);
}.

Definition rate_window s owner now : list N := prune_window now (dp_window_seconds (rg_policy s)) (default [] (rg_windows s !! owner)).

(** The conditions of a new room. *)
Record creation_accepted s intent view now : Prop := {
  cr_new : rg_by_genesis s !! genesis_id sha256 intent = None;
  cr_policy : in_policy intent = policy_id sha256 (rg_policy s);
  cr_authority : creation_authorised (rg_authority s) intent view now;
  cr_slug : rg_rooms s !! in_slug intent = None;
  cr_rooms : N.of_nat (size (rg_rooms s)) < MAX_ROOMS;
  cr_account : is_Some (rg_accounts s !! in_owner intent) \/ N.of_nat (size (rg_accounts s)) < MAX_OWNERS;
  cr_slot : in_slot intent = ac_lifetime_slots (account s (in_owner intent)) + 1 /\ in_slot intent <= dp_max_lifetime_rooms (rg_policy s);
  cr_charge : in_charge intent = slot_cost (rg_policy s) (in_slot intent);
  cr_credit : ac_spent (account s (in_owner intent)) + in_charge intent <= ac_earned (account s (in_owner intent));
  cr_rate : len (rate_window s (in_owner intent) now) < dp_max_in_window (rg_policy s);
}.

Definition new_room record intent now : Room :=
  mkRoom (genesis_id sha256 intent) intent (in_description intent) (rv_id sha256 record) now false record [].

Definition created s record intent now : Registry :=
  let owner := in_owner intent in
  let old := account s owner in
  set_rooms (<[owner := mkAccount (ac_earned old) (ac_spent old + in_charge intent) (in_slot intent)]> (rg_accounts s))
    (<[in_slug intent := new_room record intent now]> (rg_rooms s))
    (<[genesis_id sha256 intent := in_slug intent]> (rg_by_genesis s))
    (set_windows (<[owner := rate_window s owner now ++ [now]]> (rg_windows s)) s).

Lemma checked_add_iff w a b c : checked_add w a b = Some c <-> c = a + b /\ a + b < 2 ^ w.
Proof. unfold checked_add. destruct (N.ltb_spec (a + b) (2 ^ w)); split; [by intros [= <-]|by intros [-> _]|done|lia]. Qed.

Lemma set_windows_same s owner : is_Some (rg_windows s !! owner) ->
  set_windows (<[owner := default [] (rg_windows s !! owner)]> (rg_windows s)) s = s.
Proof. intros [w E]. unfold set_windows. rewrite E. simpl. rewrite insert_id by done. by destruct s. Qed.

(** A creation: a retry, a new room, or a refusal that leaves no trace. *)
Lemma create_wp record intent view now s : rv_body record = BodyCreate intent -> registry_bounded s ->
  wp (create sha256 record intent view now)
    (fun r s' => is_Some (rg_by_genesis s !! genesis_id sha256 intent) /\ r = Existing (genesis_id sha256 intent) /\ s' = s
                 \/ creation_accepted s intent view now /\ r = Created (genesis_id sha256 intent) /\ s' = created s record intent now)
    (fun _ s' => s' = s) s.
Proof.
  intros Eb [Hp _ He Hw]. unfold create, rv_genesis_id. rewrite Eb. wp_step. wp_step. simpl. wp_step. wp_step.
  case_bool_decide as Hg; [wp_steps; by left|]. case_bool_decide as Hpol; simpl; [|by wp_steps].
  wp_step. wp_step. destruct (assess_creation _ _ _ _) as [x|e|] eqn:Ea; simpl; [|done|by destruct (assess_creation_total _ _ _ _ Ea)].
  apply assess_creation_iff in Ea as [_ Ha]. case_bool_decide as Hs; [by wp_steps|].
  destruct (N.leb_spec MAX_ROOMS (N.of_nat (size (rg_rooms s)))) as [|Hr]; [by wp_steps|].
  destruct (bool_decide (rg_accounts s !! in_owner intent = None) && _) eqn:Eacc; [by wp_steps|].
  wp_step. wp_step. destruct (checked_add 32 _ 1) as [slot|] eqn:Esl; simpl; [|done]. apply checked_add_iff in Esl as [Esl _].
  destruct (N.eqb_spec (in_slot intent) slot) as [Eis|]; simpl; [|by wp_steps]. wp_step. wp_step.
  destruct (policy_cost _ slot) as [cost|e|] eqn:Ec; [|done|by destruct (policy_cost_total _ _ Ec)].
  apply policy_cost_iff in Ec as (Hc1 & _ & _ & ->). destruct (N.eqb_spec (in_charge intent) (slot_cost (rg_policy s) slot)) as [Ech|]; simpl; [|by wp_steps].
  wp_step. wp_step. destruct (checked_add 64 _ _) as [spent|] eqn:Esp; simpl; [|done]. apply checked_add_iff in Esp as [Esp _].
  destruct (N.ltb_spec (ac_earned (account s (in_owner intent))) spent) as [|Hcr]; [by wp_steps|].
  wp_step. wp_step. fold (rate_window s (in_owner intent) now). destruct (N.leb_spec (dp_max_in_window (rg_policy s)) (len (rate_window s (in_owner intent) now))) as [Hra|Hra].
  - wp_step. destruct (rg_windows s !! in_owner intent) as [window|] eqn:Ew.
    + unfold rate_window in *. rewrite Ew in *. simpl in *. specialize (Hw _ _ Ew). rewrite prune_same by lia.
      pose proof (set_windows_same s (in_owner intent) (mk_is_Some _ _ Ew)) as E. by rewrite Ew in E.
    + unfold rate_window in Hra. rewrite Ew in Hra. unfold len in Hra; simpl in Hra. destruct (pv_max _ Hp). exfalso. lia.
  - wp_step. wp_step. wp_step. wp_step. wp_step. right. split; [|split; [done|]].
    + split; [by apply eq_None_not_Some|done|done|by apply eq_None_not_Some|done| |lia|by rewrite Eis|by rewrite <- Esp|done].
      apply andb_false_iff in Eacc as [E|E]; bool_to_prop; [left; by apply not_eq_None_Some|by right].
    + unfold created, set_rooms, set_windows, new_room. simpl. rewrite insert_insert_eq, Esp, Eis. done.
Qed.

(** The converse: nothing else is asked. *)
Lemma create_accepts record intent view now s : rv_body record = BodyCreate intent -> registry_bounded s ->
  creation_accepted s intent view now ->
  create sha256 record intent view now s = (Ok (Created (genesis_id sha256 intent)), created s record intent now).
Proof.
  intros Eb [Hp _ He Hw] [Hg Hpol Ha Hs Hr Hacc [Hsl Hsm] Hch Hcr Hra].
  assert (Hass : assess_creation (rg_authority s) intent view now = Ok (mkAdmission intent (in_grant intent))) by by apply assess_creation_iff.
  assert (Hcost : policy_cost (rg_policy s) (in_slot intent) = Ok (slot_cost (rg_policy s) (in_slot intent))) by (apply valid_cost; [done|lia]).
  assert (Hacc' : bool_decide (rg_accounts s !! in_owner intent = None) && (MAX_OWNERS <=? N.of_nat (size (rg_accounts s))) = false).
  { destruct Hacc as [[x ->]|H]; [done|]. rewrite (proj2 (N.leb_gt _ _)) by done. apply andb_false_r. }
  assert (H32 : checked_add 32 (ac_lifetime_slots (account s (in_owner intent))) 1 = Some (in_slot intent)).
  { apply checked_add_iff. destruct Hp as [_ _ _ _ Hp _]. revert Hp. unfold MAX_ROOMS. lia. }
  assert (H64 : checked_add 64 (ac_spent (account s (in_owner intent))) (in_charge intent) = Some (ac_spent (account s (in_owner intent)) + in_charge intent)).
  { apply checked_add_iff. specialize (He (in_owner intent)). lia. }
  assert (Hng : bool_decide (is_Some (rg_by_genesis s !! genesis_id sha256 intent)) = false) by (apply bool_decide_false; rewrite Hg; by intros [? ?]).
  assert (Hns : bool_decide (is_Some (rg_rooms s !! in_slug intent)) = false) by (apply bool_decide_false; rewrite Hs; by intros [? ?]).
  unfold create, rv_genesis_id, bind, lift, get, ret, modify. rewrite Eb. simpl. rewrite Hng, (bool_decide_true _ Hpol). simpl. rewrite Hass. simpl. rewrite Hns.
  rewrite (proj2 (N.leb_gt _ _)) by done. rewrite Hacc', H32. simpl. rewrite N.eqb_refl. simpl. rewrite Hcost, Hch. simpl. rewrite N.eqb_refl. simpl.
  rewrite <- Hch, H64. simpl. rewrite (proj2 (N.ltb_ge _ _)) by done. fold (rate_window s (in_owner intent) now). rewrite (proj2 (N.leb_gt _ _)) by done.
  unfold created, set_rooms, set_windows, new_room. simpl. by rewrite insert_insert_eq.
Qed.

(** A revision: of an open room, by its owner, on its head. *)
Record revision_accepted s (x : RoomUpdate) view now slug (room : Room) : Prop := {
  up_authority : update_authorised (rg_authority s) x view now;
  up_slug : rg_by_genesis s !! ru_genesis x = Some slug;
  up_room : rg_rooms s !! slug = Some room;
  up_open : rm_archived room = false;
  up_owner : in_owner (rm_intent room) = ru_owner x;
  up_head : rm_head room = ru_previous x;
  up_count : len (rm_revisions room) < MAX_REVISIONS;
}.
Definition revised s record (x : RoomUpdate) slug room : Registry :=
  set_rooms (rg_accounts s) (<[slug := revise sha256 (ru_action x) record room]> (rg_rooms s)) (rg_by_genesis s) s.

Lemma update_wp record x view now s :
  wp (update_room sha256 record x view now)
    (fun r s' => r = Updated (rv_id sha256 record) /\ exists slug room, revision_accepted s x view now slug room /\ s' = revised s record x slug room)
    (fun _ s' => s' = s) s.
Proof.
  unfold update_room. wp_step. wp_step. wp_step. wp_step. destruct (assess_update _ _ _ _) as [[]|e|] eqn:Ea; simpl; [|done|by destruct (assess_update_total _ _ _ _ Ea)].
  apply assess_update_iff in Ea. wp_step. wp_step. destruct (rg_by_genesis s !! ru_genesis x) as [slug|] eqn:Eg; simpl; [|done].
  wp_step. wp_step. destruct (rg_rooms s !! slug) as [room|] eqn:Er; simpl; [|done]. destruct (rm_archived room) eqn:Ear; [by wp_steps|].
  case_bool_decide as Ho; simpl; [|by wp_steps]. case_bool_decide as Hh; simpl; [|by wp_steps].
  destruct (N.leb_spec MAX_REVISIONS (len (rm_revisions room))); [by wp_steps|]. wp_steps. split; [done|]. by exists slug, room.
Qed.

(** ** The clock *)

Definition ticked now s : Registry := set_clock_revision now (rg_revision s + 1) s.

Lemma advance_to_wp now s : rg_revision s < 2 ^ 64 - 1 -> wp (advance_to now) (fun _ s' => s' = ticked now s) (fun _ _ => False) s.
Proof.
  intros Hr. unfold advance_to. wp_steps. simpl. unfold checked_add. rewrite (proj2 (N.ltb_lt _ _)) by lia. simpl. by wp_steps.
Qed.

Lemma advance_to_run now s : rg_revision s < 2 ^ 64 - 1 -> advance_to now s = (Ok tt, ticked now s).
Proof.
  intros Hr. pose proof (advance_to_wp now s Hr) as H. unfold wp in H. destruct (advance_to now s) as [[[]|e|] s']; [by subst|done|done].
Qed.

(** ** [apply] *)

(** What an accepted record does, before the clock. *)
Inductive applied_effect record view now s : Applied -> Registry -> Prop :=
| ae_control control : rv_body record = BodyControl control -> control_authorised (rg_authority s) control view now ->
    in_scope (rg_authority s) (rc_directory control) (rc_realm control) = true -> ra_records (rg_authority s) < MAX_CONTROL_RECORDS ->
    chain_accepts control (chain_of (rg_authority s) (rc_owner control)) ->
    applied_effect record view now s AppliedControl (set_authority (control_committed sha256 record control (rg_authority s)) s)
| ae_existing intent : rv_body record = BodyCreate intent -> is_Some (rg_by_genesis s !! genesis_id sha256 intent) ->
    applied_effect record view now s (Existing (genesis_id sha256 intent)) s
| ae_created intent : rv_body record = BodyCreate intent -> creation_accepted s intent view now ->
    applied_effect record view now s (Created (genesis_id sha256 intent)) (created s record intent now)
| ae_updated x slug room : rv_body record = BodyUpdate x -> revision_accepted s x view now slug room ->
    applied_effect record view now s (Updated (rv_id sha256 record)) (revised s record x slug room).

(** What a refusal may leave: of a control, an empty chain of its owner. *)
Definition opened_for owner s s' : Prop := exists a', opened owner (rg_authority s) a' /\ s' = set_authority a' s.
Definition refused record s s' : Prop := s' = s \/ exists control, rv_body record = BodyControl control /\ opened_for (rc_owner control) s s'.

Lemma apply_wp record view now s : registry_bounded s -> rg_revision s < 2 ^ 64 - 1 ->
  wp (apply sha256 record view now)
    (fun r s' => rg_last_time s <= now /\ exists s1, applied_effect record view now s r s1 /\ s' = ticked now s1)
    (fun _ s' => refused record s s') s.
Proof.
  intros Hb Hr. unfold apply. wp_step. wp_step. destruct (N.ltb_spec now (rg_last_time s)) as [|Ht]; [wp_steps; by left|].
  wp_step. apply (wp_mono _ (fun r s1 => rg_revision s1 = rg_revision s /\ applied_effect record view now s r s1) _ (fun _ s' => refused record s s')); [| |done].
  - destruct (rv_body record) as [control|intent|x] eqn:Eb.
    + wp_step. wp_step. wp_step. eapply wp_mono; [apply (admit_control_wp sha256 record control); [done|apply (rb_sequence _ Hb)]| |].
      * intros [] a' (H1 & H2 & H3 & H4 & ->). wp_step. split; [done|]. by apply (ae_control _ _ _ _ control).
      * intros e a' Ho. right. exists control. split; [done|]. by exists a'.
    + eapply wp_mono; [by apply create_wp| |intros e s' ->; by left].
      intros r s' [(H & -> & ->)|(H & -> & ->)]; (split; [done|]); [by apply ae_existing|by apply ae_created].
    + eapply wp_mono; [apply update_wp| |intros e s' ->; by left].
      intros r s' (-> & slug & room & H & ->). split; [done|]. by apply (ae_updated _ _ _ _ x).
  - intros r s1 [Er He]. wp_step. eapply wp_mono; [by apply advance_to_wp; rewrite Er| |done].
    intros [] s' ->. wp_step. split; [done|]. by exists s1.
Qed.

(** The records that must be accepted. *)
Lemma apply_control_run record control view now s : rv_body record = BodyControl control -> registry_bounded s -> rg_revision s < 2 ^ 64 - 1 ->
  rg_last_time s <= now -> control_authorised (rg_authority s) control view now ->
  in_scope (rg_authority s) (rc_directory control) (rc_realm control) = true -> ra_records (rg_authority s) < MAX_CONTROL_RECORDS ->
  chain_accepts control (chain_of (rg_authority s) (rc_owner control)) ->
  apply sha256 record view now s
  = (Ok AppliedControl, ticked now (set_authority (control_committed sha256 record control (rg_authority s)) s)).
Proof.
  intros Eb Hb Hr Hn Ha Hs Hc Hch. unfold apply, bind, get, ret. rewrite (proj2 (N.ltb_ge _ _)), Eb by done. unfold eff_map_err, zoom.
  rewrite (admit_control_run sha256 record control) by (done || apply (rb_sequence _ Hb)). simpl. by rewrite advance_to_run.
Qed.

Lemma apply_created_run record intent view now s : rv_body record = BodyCreate intent -> registry_bounded s -> rg_revision s < 2 ^ 64 - 1 ->
  rg_last_time s <= now -> creation_accepted s intent view now ->
  apply sha256 record view now s = (Ok (Created (genesis_id sha256 intent)), ticked now (created s record intent now)).
Proof.
  intros Eb Hb Hr Hn Ha. unfold apply, bind, get, ret. rewrite (proj2 (N.ltb_ge _ _)), Eb by done.
  rewrite create_accepts by done. by rewrite advance_to_run.
Qed.

Lemma apply_existing_run record intent view now s : rv_body record = BodyCreate intent -> rg_revision s < 2 ^ 64 - 1 ->
  rg_last_time s <= now -> is_Some (rg_by_genesis s !! genesis_id sha256 intent) ->
  apply sha256 record view now s = (Ok (Existing (genesis_id sha256 intent)), ticked now s).
Proof.
  intros Eb Hr Hn Hg. unfold apply, create, rv_genesis_id, bind, get, ret, lift. rewrite (proj2 (N.ltb_ge _ _)), Eb by done. simpl.
  rewrite bool_decide_true by done. by rewrite advance_to_run.
Qed.

(** ** Awards *)

(** A committed [Up] reaction of an eligible owner to a committed original
    post of another owner. *)
Definition support_given (reaction : SocialRecord) view (eligible : gset OwnerId) (source beneficiary : OwnerId) : Prop :=
  exists post post_record, so_body reaction = SocialReaction source post true
    /\ cv_social_status view (so_id reaction) = Committed /\ cv_archive view post = Some post_record
    /\ so_body post_record = SocialPost beneficiary /\ cv_social_status view post = Committed
    /\ source <> beneficiary /\ source ∈ eligible.

Lemma assess_support_Ok reaction view eligible epoch now aw : assess_support reaction view eligible epoch now now = Ok aw ->
  support_given reaction view eligible (aw_source aw) (aw_beneficiary aw) /\ aw_epoch aw = now / epoch /\ aw_evidence aw = so_id reaction.
Proof.
  unfold assess_support. destruct (_ || _); [done|]. case_bool_decide as Hc; simpl; [|done].
  destruct (so_body reaction) as [source post up| |] eqn:Eb; [|done|done]. destruct up; [|done].
  intros (pr & Hp & H)%res_bind_Ok. destruct (cv_archive view post) as [pr'|] eqn:Ep; simplify_eq/=.
  destruct (so_body pr) as [|beneficiary|] eqn:Epb; [done| |done]. case_bool_decide as Hpc; simpl in H; [|done].
  case_bool_decide as Hs; [done|]. case_bool_decide as He; simpl in H; [|done]. simplify_eq/=. split; [|done]. by exists post, pr.
Qed.
Lemma assess_support_total reaction view eligible epoch now : assess_support reaction view eligible epoch now now <> Panic.
Proof.
  unfold assess_support. case_match; [done|]. case_match; [done|]. destruct (so_body reaction) as [source post up| |]; [|done|done].
  destruct up; [|done]. destruct (cv_archive view post) as [pr|]; simpl; [|done]. repeat case_match; done.
Qed.

Record award_accepted s (reaction : SocialRecord) view now (aw : SupportAward) : Prop := {
  aa_new : rg_evidence s !! so_id reaction = None;
  aa_support : support_given reaction view (rg_eligible s) (aw_source aw) (aw_beneficiary aw);
  aa_epoch : aw_epoch aw = now / dp_support_epoch_seconds (rg_policy s);
  aa_evidence : aw_evidence aw = so_id reaction;
  aa_room : N.of_nat (size (rg_evidence s)) < MAX_SUPPORT;
}.
Definition award_key (aw : SupportAward) : OwnerId * OwnerId * N := (aw_beneficiary aw, aw_source aw, aw_epoch aw).

Definition retained_award s reaction aw : Registry :=
  set_credit (rg_support s) (<[so_id reaction := mkEvidence aw reaction]> (rg_evidence s)) (rg_accounts s) s.
Definition credited s reaction aw : Registry :=
  let old := account s (aw_beneficiary aw) in
  set_credit ({[award_key aw]} ∪ rg_support s) (<[so_id reaction := mkEvidence aw reaction]> (rg_evidence s))
    (<[aw_beneficiary aw := mkAccount (ac_earned old + 1) (ac_spent old) (ac_lifetime_slots old)]> (rg_accounts s)) s.

(** A repeated record, new evidence of support that already counted, or a credit. *)
Inductive award_effect reaction view now s : Applied -> Registry -> Prop :=
| we_known : is_Some (rg_evidence s !! so_id reaction) -> award_effect reaction view now s DuplicateAward s
| we_retained aw : award_accepted s reaction view now aw -> award_key aw ∈ rg_support s ->
    award_effect reaction view now s DuplicateAward (retained_award s reaction aw)
| we_credited aw : award_accepted s reaction view now aw -> award_key aw ∉ rg_support s ->
    N.of_nat (size (rg_support s)) < MAX_SUPPORT ->
    is_Some (rg_accounts s !! aw_beneficiary aw) \/ N.of_nat (size (rg_accounts s)) < MAX_OWNERS ->
    award_effect reaction view now s Awarded (ticked now (credited s reaction aw)).

Lemma award_wp reaction view now s : registry_bounded s -> rg_revision s < 2 ^ 64 - 1 ->
  wp (award reaction view now) (fun r s' => rg_last_time s <= now /\ award_effect reaction view now s r s') (fun _ s' => s' = s) s.
Proof.
  intros Hb Hr. unfold award. wp_step. wp_step. destruct (N.ltb_spec now (rg_last_time s)) as [|Ht]; [by wp_steps|].
  case_bool_decide as Hk; [wp_steps; split; [done|by apply we_known]|]. wp_step. wp_step.
  destruct (assess_support _ _ _ _ _ _) as [aw|e|] eqn:Ea; simpl; [|done|by destruct (assess_support_total _ _ _ _ _ Ea)].
  apply assess_support_Ok in Ea as (Hs & He & Hid). destruct (N.leb_spec MAX_SUPPORT (N.of_nat (size (rg_evidence s)))) as [|Hsz]; [by wp_steps|].
  assert (Haw : award_accepted s reaction view now aw) by (split; try done; by apply eq_None_not_Some).
  case_bool_decide as Hin; [wp_steps; split; [done|by apply we_retained]|].
  destruct (N.leb_spec MAX_SUPPORT (N.of_nat (size (rg_support s)))) as [|Hsu]; [by wp_steps|].
  destruct (bool_decide (rg_accounts s !! aw_beneficiary aw = None) && _) eqn:Eacc; [by wp_steps|].
  wp_step. wp_step. pose proof (rb_earned _ Hb (aw_beneficiary aw)) as Hearn. unfold checked_add. rewrite (proj2 (N.ltb_lt _ _)) by lia. simpl.
  wp_step. wp_step. wp_step. eapply wp_mono; [by apply advance_to_wp| |done]. intros [] s' ->. wp_step. split; [done|].
  apply (we_credited reaction view now s aw); [done|done|done|].
  apply andb_false_iff in Eacc as [E|E]; bool_to_prop; [left; by apply not_eq_None_Some|by right].
Qed.

(** ** Configuration *)

Lemma set_eligible_wp eligible now s : rg_revision s < 2 ^ 64 - 1 ->
  wp (set_eligible eligible now)
    (fun _ s' => rg_last_time s <= now /\ len eligible <= MAX_OWNERS /\ s' = ticked now (set_eligible_field (list_to_set eligible) s))
    (fun _ s' => s' = s) s.
Proof.
  intros Hr. unfold set_eligible. wp_step. wp_step. destruct (N.ltb_spec now (rg_last_time s)) as [|Ht]; [by wp_steps|].
  destruct (N.ltb_spec MAX_OWNERS (len eligible)); [by wp_steps|]. wp_step. wp_step. eapply wp_mono; [by apply advance_to_wp| |done].
  by intros [] s' ->.
Qed.

Definition powers (l : list ValidatorMember) : N := foldr (fun m n => vm_power m + n) 0 l.
Record validators_ok (l : list ValidatorMember) : Prop := {
  vo_keys : NoDup (vm_key <$> l);
  vo_members : Forall (fun m => 0 < vm_power m /\ valid_key (vm_key m) = true) l;
  vo_power : powers l <= (2 ^ 64 - 1) / 3;
}.

Lemma check_members_Ok l seen total seen' total' : total <= (2 ^ 64 - 1) / 3 -> res_fold check_member (seen, total) l = Ok (seen', total') ->
  NoDup (vm_key <$> l) /\ (forall k, k ∈ vm_key <$> l -> k ∉ seen) /\ Forall (fun m => 0 < vm_power m /\ valid_key (vm_key m) = true) l
  /\ total + powers l <= (2 ^ 64 - 1) / 3.
Proof.
  revert seen total. induction l as [|m l IH]; intros seen total Ht; simpl.
  - intros _. split; [constructor|]. split; [by intros k ?%elem_of_nil|]. split; [done|lia].
  - destruct (_ || _) eqn:E; [done|]. bool_to_prop. intros ([seen1 total1] & Hm & Hrest)%res_bind_Ok.
    apply res_bind_Ok in Hm as (t & Hc & [= <- <-]). unfold checked_add in Hc. destruct (total + vm_power m <? 2 ^ 64); simpl in Hc; [|done].
    destruct (N.leb_spec (total + vm_power m) ((2 ^ 64 - 1) / 3)); simplify_eq/=. apply IH in Hrest as (Hn & Hs & Hf & Hp); [|done].
    split_and!; [constructor; [|done]| |constructor; [split; [lia|done]|done]|lia].
    + intros Hk. apply (Hs _ Hk). set_solver.
    + intros k [->|Hk]%elem_of_cons; [done|]. specialize (Hs _ Hk). set_solver.
Qed.

Lemma check_members_total l acc : res_fold check_member acc l <> Panic.
Proof.
  revert acc. induction l as [|m l IH]; intros [seen total]; simpl; [done|]. destruct (_ || _); simpl; [done|].
  unfold checked_add. destruct (total + vm_power m <? 2 ^ 64); simpl; [|done]. destruct (_ <=? _); simpl; [apply IH|done].
Qed.

(** A rotation: after every scheduled one, of a usable set. *)
Record rotation_accepted s (from : N) (validators : list ValidatorMember) : Prop := {
  rot_after : forall latest, is_Some (rg_schedule s !! latest) -> latest < from;
  rot_count : 0 < len validators <= MAX_VALIDATORS;
  rot_room : N.of_nat (size (rg_schedule s)) < MAX_ROTATIONS;
  rot_set : validators_ok validators;
}.
Definition rotated s from (validators : list ValidatorMember) : Registry :=
  set_schedule (<[from := merge_sort member_le validators]> (rg_schedule s)) s.

Lemma last_entry_max {A} (m : gmap N A) k : is_Some (m !! k) -> exists latest, last (entries m).*1 = Some latest /\ k <= latest.
Proof.
  intros [x Hx]. assert (Hk : k ∈ (entries m).*1) by (apply list_elem_of_fmap; exists (k, x); by rewrite elem_of_entries).
  pose proof (entries_sorted m) as Hs. destruct ((entries m).*1) as [|y l _] using rev_ind; [by apply elem_of_nil in Hk|].
  exists y. split; [apply last_snoc|]. apply elem_of_app in Hk as [Hk|Hk%list_elem_of_singleton]; [|lia].
  apply (StronglySorted_app_1_elem_of _ l [y] k y) in Hs; [|done|by apply list_elem_of_singleton]. apply key_lt_N in Hs. lia.
Qed.

Lemma apply_rotation_wp from validators now s : rg_revision s < 2 ^ 64 - 1 ->
  wp (apply_rotation from validators now)
    (fun _ s' => rg_last_time s <= now /\ rotation_accepted s from validators /\ s' = ticked now (rotated s from validators))
    (fun _ s' => s' = s) s.
Proof.
  intros Hr. unfold apply_rotation. wp_step. wp_step. destruct (N.ltb_spec now (rg_last_time s)) as [|Ht]; [by wp_steps|].
  destruct (match last _ with Some latest => from <=? latest | None => false end) eqn:El; [by wp_steps|].
  destruct (_ || _) eqn:Ec; [by wp_steps|]. bool_to_prop. wp_step. wp_step.
  destruct (res_fold check_member (∅, 0) validators) as [[seen total]|e|] eqn:Ev; [|done|by destruct (check_members_total _ _ Ev)].
  apply check_members_Ok in Ev as (Hn & _ & Hf & Hp); [|done]. wp_step. wp_step. eapply wp_mono; [by apply advance_to_wp| |done].
  intros [] s' ->. split; [done|]. split; [|done]. split; [|lia|done|split; [done|done|lia]].
  intros latest (y & Ey & Hy)%last_entry_max. rewrite Ey in El. apply N.leb_gt in El. lia.
Qed.
End Operations.
