(* ===== verification/RegistryInv.v ===== *)
(** What holds of a shared directory: the accounts against the rooms and the
    awards, the rate of creations, the history of every room and of every
    control chain, and the capacities.  Each kind of change keeps it. *)
From Stdlib Require Import Ascii String.
From stdpp Require Import gmap sorting.
From S2P Require Import Prelude Bytes PrefixFree Wire Signed Utf8 OrderedMap DirectCodec RoomRecords RoomAuthority Registry RegistrySteps.

Definition N_sum (l : list N) : N := foldr N.add 0 l.
(** 1, 2, ..., n *)
Definition up_to (n : N) : list N := N.of_nat <$> seq 1 (N.to_nat n).

Lemma N_sum_perm l k : l ≡ₚ k -> N_sum l = N_sum k.
Proof. induction 1; simpl; lia. Qed.
Lemma up_to_succ n : up_to (n + 1) = up_to n ++ [n + 1].
Proof.
  unfold up_to. replace (N.to_nat (n + 1)) with (N.to_nat n + 1)%nat by lia. rewrite seq_app, fmap_app. simpl. do 2 f_equal. lia.
Qed.

(** ** The rooms of an owner: their intents and creation times *)

Definition openings (rooms : gmap Slug Room) (owner : OwnerId) : list (CreationIntent * N) :=
  filter (fun e => in_owner e.1 = owner) ((fun e => (rm_intent e.2, rm_created_at e.2)) <$> map_to_list rooms).

Lemma openings_insert rooms slug r owner : rooms !! slug = None ->
  openings (<[slug := r]> rooms) owner
  ≡ₚ (if decide (in_owner (rm_intent r) = owner) then [(rm_intent r, rm_created_at r)] else []) ++ openings rooms owner.
Proof. intros H. unfold openings. rewrite map_to_list_insert by done. csimpl. rewrite filter_cons. simpl. by case_decide. Qed.

Lemma openings_replace rooms slug r r' owner : rooms !! slug = Some r ->
  rm_intent r' = rm_intent r -> rm_created_at r' = rm_created_at r -> openings (<[slug := r']> rooms) owner ≡ₚ openings rooms owner.
Proof.
  intros H Ei Et. rewrite <- (insert_delete_id rooms slug r H) at 2. rewrite <- insert_delete_eq.
  rewrite !openings_insert by apply lookup_delete_eq. by rewrite Ei, Et.
Qed.

Lemma elem_of_openings rooms owner i t : (i, t) ∈ openings rooms owner <->
  in_owner i = owner /\ exists slug r, rooms !! slug = Some r /\ rm_intent r = i /\ rm_created_at r = t.
Proof.
  unfold openings. rewrite list_elem_of_filter. simpl. rewrite list_elem_of_fmap. split.
  - intros (Ho & [slug r] & [= -> ->] & Hr%elem_of_map_to_list). naive_solver.
  - intros (Ho & slug & r & Hr & <- & <-). split; [done|]. exists (slug, r). by rewrite elem_of_map_to_list.
Qed.

(** ** Credit *)

(** The support of an owner that counted. *)
Definition support_of (support : gset (OwnerId * OwnerId * N)) (owner : OwnerId) : N :=
  N.of_nat (size (filter (fun k : OwnerId * OwnerId * N => k.1.1 = owner) support)).

Lemma support_of_insert support k owner : k ∉ support ->
  support_of ({[k]} ∪ support) owner = (if decide (k.1.1 = owner) then 1 else 0) + support_of support owner.
Proof.
  intros Hk. unfold support_of. rewrite filter_union_L, filter_singleton_L by apply _. case_decide as Ho.
  - rewrite size_union, size_singleton; [lia|]. apply disjoint_singleton_l. intros Hf. by apply elem_of_filter in Hf as [_ Hf].
  - by rewrite union_empty_l_L.
Qed.
Lemma support_of_size support owner : support_of support owner <= N.of_nat (size support).
Proof.
  unfold support_of. assert (H : (size (filter (fun k : OwnerId * OwnerId * N => k.1.1 = owner) support) <= size support)%nat); [|lia].
  apply subseteq_size. intros k Hk. by apply elem_of_filter in Hk as [_ Hk].
Qed.

(** The account of an owner agrees with the rooms it opened, which take the
    slots 1 to n at their cost, and with the support it was given. *)
Record account_ok (policy : DirectoryPolicy) (support : gset (OwnerId * OwnerId * N)) (opened : list (CreationIntent * N)) (owner : OwnerId) (a : Account) : Prop := {
  ao_slots : (in_slot ∘ fst <$> opened) ≡ₚ up_to (ac_lifetime_slots a);
  ao_lifetime : ac_lifetime_slots a <= dp_max_lifetime_rooms policy;
  ao_charges : Forall (fun e => in_charge e.1 = slot_cost policy (in_slot e.1)) opened;
  ao_spent : ac_spent a = N_sum (in_charge ∘ fst <$> opened);
  ao_credit : ac_spent a <= ac_earned a;
  ao_earned : ac_earned a = support_of support owner;
}.

Lemma account_ok_perm policy support opened opened' owner a : opened ≡ₚ opened' ->
  account_ok policy support opened owner a -> account_ok policy support opened' owner a.
Proof. intros E [H1 H2 H3 H4 H5 H6]. split; rewrite <- ?E; try done. by rewrite (N_sum_perm _ (in_charge ∘ fst <$> opened)) by by rewrite E. Qed.

(** ** Rate *)

(** The times of an owner's creations: those outside its window have expired,
    and between a creation and the [max]-th after it passes a whole window. *)
Record times_ok (policy : DirectoryPolicy) (last_time : N) (times window : list N) : Prop := {
  to_sorted : StronglySorted N.le times;
  to_window : exists old, times = old ++ window /\ Forall (fun t => t + dp_window_seconds policy <= last_time) old;
  to_past : Forall (fun t => t <= last_time) times;
  to_spread : forall i a b, times !! i = Some a -> times !! (i + N.to_nat (dp_max_in_window policy))%nat = Some b ->
    a + dp_window_seconds policy <= b;
  to_count : len window <= dp_max_in_window policy;
}.

Lemma times_ok_later policy last_time last_time' times window : last_time <= last_time' ->
  times_ok policy last_time times window -> times_ok policy last_time' times window.
Proof.
  intros Hl [H1 (old & E & Ho) H3 H4 H5]. split; [done| | |done|done].
  - exists old. split; [done|]. eapply Forall_impl; [exact Ho|]. simpl. lia.
  - eapply Forall_impl; [exact H3|]. simpl. lia.
Qed.

Lemma sorted_app_last (l : list N) x : StronglySorted N.le l -> Forall (fun t => t <= x) l -> StronglySorted N.le (l ++ [x]).
Proof.
  intros Hs Hf. induction Hs as [|y l Hs IH Hy]; simpl; [by repeat constructor|]. apply Forall_cons in Hf as [Hyx Hf].
  constructor; [by apply IH|]. apply Forall_app. split; [done|by repeat constructor].
Qed.

(** A creation inside the limit. *)
Lemma times_ok_create policy last_time now times window : 0 < dp_window_seconds policy -> last_time <= now ->
  times_ok policy last_time times window -> len (prune_window now (dp_window_seconds policy) window) < dp_max_in_window policy ->
  times_ok policy now (times ++ [now]) (prune_window now (dp_window_seconds policy) window ++ [now]).
Proof.
  intros Hw Hl [H1 (old & E & Ho) H3 H4 H5] Hr. destruct (prune_split now (dp_window_seconds policy) window) as (dropped & Ed & Hd).
  set (kept := prune_window now (dp_window_seconds policy) window) in *. assert (Hold : Forall (fun t => t + dp_window_seconds policy <= now) (old ++ dropped)).
  { apply Forall_app. split; [eapply Forall_impl; [exact Ho|]; simpl; lia|]. eapply Forall_impl; [exact Hd|]. simpl. lia. }
  assert (Et : times = (old ++ dropped) ++ kept) by (by rewrite E, Ed, <- app_assoc).
  assert (Hpast : Forall (fun t => t <= now) times) by (eapply Forall_impl; [exact H3|]; simpl; lia). split.
  - by apply sorted_app_last.
  - exists (old ++ dropped). split; [by rewrite Et, <- app_assoc|done].
  - apply Forall_app. split; [done|by repeat constructor].
  - intros i a b Ha Hb. apply lookup_app_Some in Hb as [Hb|[Hlen Hb]].
    + apply (H4 i); [|done]. apply lookup_lt_Some in Hb. rewrite lookup_app_l in Ha by lia. done.
    + apply list_lookup_singleton_Some in Hb as [Hi <-]. unfold len in Hr.
      assert (Hlt : length times = (length (old ++ dropped) + length kept)%nat) by (rewrite Et at 1; apply length_app).
      assert (Hi' : (i < length (old ++ dropped))%nat) by lia.
      rewrite lookup_app_l in Ha by lia. rewrite Et, lookup_app_l in Ha by done.
      apply (proj1 (Forall_forall _ _) Hold). by apply list_elem_of_lookup_2 in Ha.
  - unfold len in *. rewrite length_app. simpl. lia.
Qed.

(** ** Histories *)

Section Histories.
Context (sha256 : list N -> list N) `{Hed : Ed25519}.
Implicit Types (s : Registry) (r room : Room) (record : RoomVerifiedRecord) (c : OwnerChain).

(** The room as it was opened, and a revision of it. *)
Definition opened_room r : Room :=
  mkRoom (rm_genesis r) (rm_intent r) (in_description (rm_intent r)) (rv_id sha256 (rm_record r)) (rm_created_at r) false (rm_record r) [].
Definition replay_revision r record : Room :=
  match rv_body record with BodyUpdate x => revise sha256 (ru_action x) record r | _ => r end.
Definition replay_room r (records : list RoomVerifiedRecord) : Room := fold_left replay_revision records (opened_room r).

(** Each revision is by the owner, of this room, on the record before it, while the room was open. *)
Definition revision_follows r (before : list RoomVerifiedRecord) record : Prop :=
  exists x, rv_body record = BodyUpdate x /\ ru_genesis x = rm_genesis r /\ ru_owner x = in_owner (rm_intent r)
    /\ ru_previous x = rm_head (replay_room r before) /\ rm_archived (replay_room r before) = false.

Record room_ok (directory : DirectoryId) (realm : N) (policy : DirectoryPolicy) (slug : Slug) r : Prop := {
  ro_slug : in_slug (rm_intent r) = slug;
  ro_record : rv_body (rm_record r) = BodyCreate (rm_intent r);
  ro_genesis : rm_genesis r = genesis_id sha256 (rm_intent r);
  ro_scope : in_directory (rm_intent r) = directory /\ in_realm (rm_intent r) = realm /\ in_policy (rm_intent r) = policy_id sha256 policy;
  ro_replay : r = replay_room r (rm_revisions r);
  ro_revisions : forall before record after, rm_revisions r = before ++ record :: after -> revision_follows r before record;
  ro_count : len (rm_revisions r) <= MAX_REVISIONS;
}.

(** A control chain is the replay of its records, each on the one before it. *)
Definition replay_grant (g : gmap RoomRecordId OpenGrant) record : gmap RoomRecordId OpenGrant :=
  match rv_body record with BodyControl control => grant_step (rv_id sha256 record) (rc_action control) g | _ => g end.
Definition replay_chain (records : list RoomVerifiedRecord) : OwnerChain :=
  mkOwnerChain (rv_id sha256 <$> last records) (len records) records (fold_left replay_grant records ∅).

Definition control_follows (directory : DirectoryId) (realm : N) (owner : OwnerId) (before : list RoomVerifiedRecord) record : Prop :=
  exists control, rv_body record = BodyControl control /\ rc_owner control = owner
    /\ rc_directory control = directory /\ rc_realm control = realm
    /\ chain_accepts control (replay_chain before).

Record chain_ok (directory : DirectoryId) (realm : N) (owner : OwnerId) c : Prop := {
  co_replay : c = replay_chain (oc_history c);
  co_follows : forall before record after, oc_history c = before ++ record :: after -> control_follows directory realm owner before record;
}.

Lemma replay_room_snoc r records record : replay_room r (records ++ [record]) = replay_revision (replay_room r records) record.
Proof. unfold replay_room. by rewrite fold_left_app. Qed.

Lemma snoc_split {A} (l : list A) x before y after : l ++ [x] = before ++ y :: after ->
  (before = l /\ y = x /\ after = []) \/ exists after', after = after' ++ [x] /\ l = before ++ y :: after'.
Proof.
  destruct after as [|z after _] using rev_ind; intros E.
  - left. apply app_inj_tail in E as [-> ->]. done.
  - right. exists after. rewrite app_comm_cons, app_assoc in E. by apply app_inj_tail in E as [-> ->].
Qed.

Lemma chain_next_replay record control c : c = replay_chain (oc_history c) -> rv_body record = BodyControl control ->
  chain_next sha256 record control c = replay_chain (oc_history c ++ [record]).
Proof.
  intros E Eb. unfold chain_next, replay_chain. rewrite last_snoc, fold_left_app. simpl. unfold replay_grant at 1. rewrite Eb. f_equal.
  - rewrite E at 1. simpl. unfold len. rewrite length_app. simpl. lia.
  - by rewrite E at 1.
Qed.

Lemma replay_chain_fields records : oc_history (replay_chain records) = records. Proof. done. Qed.

(** [commit_control] keeps a chain. *)
Lemma chain_ok_next directory realm owner record control c : chain_ok directory realm owner c -> rv_body record = BodyControl control ->
  rc_owner control = owner -> rc_directory control = directory -> rc_realm control = realm -> chain_accepts control c ->
  chain_ok directory realm owner (chain_next sha256 record control c).
Proof.
  intros [Hc Hf] Eb Eo Ed Er Ha. rewrite (chain_next_replay record control c Hc Eb). split; [done|]. simpl.
  intros before y after [(-> & -> & ->)|(after' & -> & E)]%snoc_split; [|by eapply Hf].
  exists control. rewrite <- Hc. done.
Qed.

Lemma chain_ok_empty directory realm owner : chain_ok directory realm owner empty_chain.
Proof. split; [done|]. intros before record after E. by apply app_cons_not_nil in E. Qed.

(** A revision keeps a room. *)
Lemma revise_replay action record r : rm_genesis (revise sha256 action record r) = rm_genesis r /\ rm_intent (revise sha256 action record r) = rm_intent r
  /\ rm_created_at (revise sha256 action record r) = rm_created_at r /\ rm_record (revise sha256 action record r) = rm_record r.
Proof. done. Qed.

Lemma replay_room_same r r' records : rm_genesis r' = rm_genesis r -> rm_intent r' = rm_intent r -> rm_created_at r' = rm_created_at r ->
  rm_record r' = rm_record r -> replay_room r' records = replay_room r records.
Proof. intros E1 E2 E3 E4. unfold replay_room, opened_room. by rewrite E1, E2, E3, E4. Qed.

Lemma room_ok_revise s directory realm policy slug r record x view now : room_ok directory realm policy slug r -> rv_body record = BodyUpdate x ->
  (forall slug', rg_by_genesis s !! ru_genesis x = Some slug' -> slug' = slug -> rm_genesis r = ru_genesis x) ->
  revision_accepted s x view now slug r -> room_ok directory realm policy slug (revise sha256 (ru_action x) record r).
Proof.
  intros [H1 H2 H3 H4 H5 H6 H7] Eb Hg [_ Hs _ Ho Hw Hh Hn]. set (r' := revise sha256 (ru_action x) record r).
  assert (Hr : forall l, replay_room r' l = replay_room r l) by by intros; apply replay_room_same.
  split; [done|done|done|done| | |].
  - rewrite Hr. change (rm_revisions r') with (rm_revisions r ++ [record]). rewrite replay_room_snoc, <- H5. unfold replay_revision. by rewrite Eb.
  - change (rm_revisions r') with (rm_revisions r ++ [record]). intros before y after [(-> & -> & ->)|(after' & -> & E)]%snoc_split; unfold revision_follows; rewrite Hr.
    + exists x. rewrite <- H5. split_and!; [done|symmetry; by apply (Hg slug)|done|done|done].
    + by apply (H6 before y after').
  - change (rm_revisions r') with (rm_revisions r ++ [record]). unfold len in *. rewrite length_app. simpl. lia.
Qed.

Lemma room_ok_new directory realm policy record intent now : rv_body record = BodyCreate intent -> in_directory intent = directory ->
  in_realm intent = realm -> in_policy intent = policy_id sha256 policy ->
  room_ok directory realm policy (in_slug intent) (new_room sha256 record intent now).
Proof.
  intros Eb Ed Er Ep. split; [done|done|done|done|done| |done]. simpl. intros before y after E. by apply app_cons_not_nil in E.
Qed.
End Histories.

(** ** The invariant *)

Definition map_sum {K A} `{Countable K} (f : A -> N) (m : gmap K A) : N := N_sum ((f ∘ snd) <$> map_to_list m).

Section MapSum.
Context {K A : Type} `{Countable K} (f : A -> N).
Implicit Types m : gmap K A.

Lemma map_sum_fresh m k x : m !! k = None -> map_sum f (<[k := x]> m) = f x + map_sum f m.
Proof. intros Hm. unfold map_sum. rewrite (N_sum_perm _ ((f ∘ snd) <$> ((k, x) :: map_to_list m))); [done|]. by rewrite map_to_list_insert. Qed.
Lemma map_sum_replace m k x y : m !! k = Some y -> map_sum f (<[k := x]> m) + f y = map_sum f m + f x.
Proof.
  intros Hm. rewrite <- (insert_delete_id m k y Hm) at 2. rewrite <- insert_delete_eq, !map_sum_fresh by apply lookup_delete_eq. lia.
Qed.
Lemma map_sum_le m k x : m !! k = Some x -> f x <= map_sum f m.
Proof. intros Hm. rewrite <- (insert_delete_id m k x Hm), map_sum_fresh by apply lookup_delete_eq. lia. Qed.
End MapSum.

Section Invariant.
Context (sha256 : list N -> list N) `{Hed : Ed25519}.
Implicit Types (s : Registry) (room : Room) (record : RoomVerifiedRecord).

Record registry_inv s : Prop := {
  ri_policy : policy_valid (rg_policy s);
  ri_scope : ra_directory (rg_authority s) = rg_directory s /\ ra_realm (rg_authority s) = rg_realm s;
  ri_chains : forall owner c, ra_chains (rg_authority s) !! owner = Some c -> chain_ok sha256 (rg_directory s) (rg_realm s) owner c;
  ri_records : ra_records (rg_authority s) = map_sum (fun c => len (oc_history c)) (ra_chains (rg_authority s))
               /\ ra_records (rg_authority s) <= MAX_CONTROL_RECORDS;
  ri_rooms : forall slug r, rg_rooms s !! slug = Some r -> room_ok sha256 (rg_directory s) (rg_realm s) (rg_policy s) slug r;
  ri_genesis : forall g slug, rg_by_genesis s !! g = Some slug <-> exists r, rg_rooms s !! slug = Some r /\ rm_genesis r = g;
  ri_accounts : forall owner, account_ok (rg_policy s) (rg_support s) (openings (rg_rooms s) owner) owner (account s owner);
  ri_times : forall owner, exists times, times ≡ₚ (openings (rg_rooms s) owner).*2
               /\ times_ok (rg_policy s) (rg_last_time s) times (default [] (rg_windows s !! owner));
  ri_evidence : forall id e, rg_evidence s !! id = Some e ->
                  so_id (ev_record e) = id /\ aw_evidence (ev_award e) = id /\ aw_source (ev_award e) <> aw_beneficiary (ev_award e)
                  /\ support_key e ∈ rg_support s;
  ri_support : forall k, k ∈ rg_support s -> exists id e, rg_evidence s !! id = Some e /\ support_key e = k;
  ri_schedule : forall from l, rg_schedule s !! from = Some l ->
                  0 < len l <= MAX_VALIDATORS /\ validators_ok l /\ StronglySorted member_le l;
  ri_sizes : N.of_nat (size (rg_rooms s)) <= MAX_ROOMS /\ N.of_nat (size (rg_accounts s)) <= MAX_OWNERS
             /\ N.of_nat (size (rg_support s)) <= MAX_SUPPORT /\ N.of_nat (size (rg_evidence s)) <= MAX_SUPPORT
             /\ N.of_nat (size (rg_eligible s)) <= MAX_OWNERS /\ N.of_nat (size (rg_schedule s)) <= MAX_ROTATIONS;
}.

Lemma account_bounded s : registry_inv s -> registry_bounded s.
Proof.
  intros Hi. split.
  - apply Hi.
  - intros owner. unfold chain_of. destruct (ra_chains (rg_authority s) !! owner) as [c|] eqn:E; simpl; [|done].
    destruct (ri_chains _ Hi _ _ E) as [-> _]. simpl. pose proof (map_sum_le (fun c => len (oc_history c)) _ _ _ E) as H. simpl in H.
    destruct (ri_records _ Hi) as [Er Hr]. unfold MAX_CONTROL_RECORDS in Hr. lia.
  - intros owner. rewrite (ao_earned _ _ _ _ _ (ri_accounts _ Hi owner)). pose proof (support_of_size (rg_support s) owner).
    destruct (ri_sizes _ Hi) as (_ & _ & Hs & _). unfold MAX_SUPPORT in Hs. lia.
  - intros owner window E. destruct (ri_times _ Hi owner) as (times & _ & Ht). rewrite E in Ht. apply Ht.
Qed.

(** The parts a change does not touch. *)
Ltac kept := try match goal with H : _ |- _ => exact H end.

(** The clock. *)
Lemma inv_ticked now s : rg_last_time s <= now -> registry_inv s -> registry_inv (ticked now s).
Proof.
  intros Hn [H1 H2 H3 H4 H5 H6 H7 H8 H9 H10 H11 H12]. split; kept. intros owner. destruct (H8 owner) as (times & Hp & Ht).
  exists times. split; [done|]. by eapply times_ok_later.
Qed.

(** A control chain: the chain of [owner] becomes [c] of [n] more records. *)
Lemma inv_chain s owner c n : registry_inv s -> chain_ok sha256 (rg_directory s) (rg_realm s) owner c ->
  len (oc_history c) = len (oc_history (chain_of (rg_authority s) owner)) + n -> ra_records (rg_authority s) + n <= MAX_CONTROL_RECORDS ->
  registry_inv (set_authority (mkAuthority (ra_directory (rg_authority s)) (ra_realm (rg_authority s))
                                 (<[owner := c]> (ra_chains (rg_authority s))) (ra_records (rg_authority s) + n)) s).
Proof.
  intros [H1 H2 H3 [H4 H4'] H5 H6 H7 H8 H9 H10 H11 H12] Hc Hl Hr. split; kept; simpl.
  - intros o c'. destruct (decide (o = owner)) as [->|]; [rewrite lookup_insert_eq; by intros [= <-]|]. rewrite lookup_insert_ne by done. apply H3.
  - split; [|done]. rewrite H4. unfold chain_of in Hl. destruct (ra_chains (rg_authority s) !! owner) as [c0|] eqn:E; simpl in Hl.
    + pose proof (map_sum_replace (fun c => len (oc_history c)) _ _ c c0 E) as H. simpl in H. lia.
    + rewrite map_sum_fresh by done. unfold len in *. simpl in Hl. lia.
Qed.

Lemma chain_of_ok s owner : registry_inv s -> chain_ok sha256 (rg_directory s) (rg_realm s) owner (chain_of (rg_authority s) owner).
Proof.
  intros Hi. unfold chain_of. destruct (ra_chains (rg_authority s) !! owner) as [c|] eqn:E; [by apply Hi|apply chain_ok_empty].
Qed.

Lemma inv_control s record control : registry_inv s -> rv_body record = BodyControl control ->
  in_scope (rg_authority s) (rc_directory control) (rc_realm control) = true -> ra_records (rg_authority s) < MAX_CONTROL_RECORDS ->
  chain_accepts control (chain_of (rg_authority s) (rc_owner control)) ->
  registry_inv (set_authority (control_committed sha256 record control (rg_authority s)) s).
Proof.
  intros Hi Eb Hs Hr Ha. apply in_scope_true in Hs as [Ed Er]. destruct (ri_scope _ Hi) as [Ed' Er'].
  refine (inv_chain s (rc_owner control) (chain_next sha256 record control (chain_of (rg_authority s) (rc_owner control))) 1 Hi _ _ _); [| |lia].
  - apply chain_ok_next; [by apply chain_of_ok|done|done|congruence|congruence|done].
  - simpl. unfold len. rewrite length_app. simpl. lia.
Qed.

Lemma inv_opened owner s s' : registry_inv s -> opened_for owner s s' -> registry_inv s'.
Proof.
  intros Hi (a' & Ho & ->). destruct Ho as [|E]; [by destruct s|].
  unfold set_chain. rewrite <- (N.add_0_r (ra_records (rg_authority s))) at 1.
  refine (inv_chain s owner empty_chain 0 Hi (chain_ok_empty _ _ _ _) _ _); [unfold chain_of; by rewrite E|]. rewrite N.add_0_r. apply Hi.
Qed.

(** A revision. *)
Lemma inv_revised s record x view now slug room : registry_inv s -> rv_body record = BodyUpdate x ->
  revision_accepted s x view now slug room -> registry_inv (revised sha256 s record x slug room).
Proof.
  intros Hi Eb Hu. pose proof (up_room _ _ _ _ _ _ Hu) as Er. pose proof (up_slug _ _ _ _ _ _ Hu) as Es.
  assert (Ho : forall owner, openings (<[slug := revise sha256 (ru_action x) record room]> (rg_rooms s)) owner ≡ₚ openings (rg_rooms s) owner).
  { intros owner. by eapply openings_replace. }
  assert (Hg : rm_genesis room = ru_genesis x).
  { apply (ri_genesis _ Hi) in Es as (r & Hr & Hg). congruence. }
  destruct Hi as [H1 H2 H3 H4 H5 H6 H7 H8 H9 H10 H11 H12]. split; kept; simpl.
  - intros slug' r. destruct (decide (slug' = slug)) as [->|]; [rewrite lookup_insert_eq; intros [= <-]|rewrite lookup_insert_ne by done; apply H5].
    apply (room_ok_revise sha256 s _ _ _ slug room record x view now); [by apply H5|done|done|done].
  - intros g slug'. rewrite H6. destruct (decide (slug' = slug)) as [->|]; [|by rewrite lookup_insert_ne]. rewrite lookup_insert_eq, Er. naive_solver.
  - intros owner. eapply account_ok_perm; [by rewrite Ho|apply H7].
  - intros owner. destruct (H8 owner) as (times & Hp & Ht). exists times. split; [by rewrite Ho|done].
  - by rewrite map_size_insert_Some.
Qed.

(** A new room. *)
Lemma inv_created s record intent view now : registry_inv s -> rv_body record = BodyCreate intent -> rg_last_time s <= now ->
  creation_accepted sha256 s intent view now -> registry_inv (ticked now (created sha256 s record intent now)).
Proof.
  intros Hi Eb Hn [Hg Hpol Ha Hs Hr Hacc [Hsl Hsm] Hch Hcr Hra]. destruct (ri_scope _ Hi) as [Ed Er]. destruct (ca_scope _ _ _ _ Ha) as [Ed' Er'].
  destruct Hi as [H1 H2 H3 H4 H5 H6 H7 H8 H9 H10 H11 H12]. split; kept; simpl.
  - intros slug r. destruct (decide (slug = in_slug intent)) as [->|]; [rewrite lookup_insert_eq; intros [= <-]|rewrite lookup_insert_ne by done; apply H5].
    apply room_ok_new; [done|congruence|congruence|done].
  - intros g slug. destruct (decide (g = genesis_id sha256 intent)) as [->|Hne].
    + rewrite lookup_insert_eq. destruct (decide (slug = in_slug intent)) as [->|Hsn].
      * rewrite lookup_insert_eq. split; [|done]. intros _. by eexists.
      * rewrite lookup_insert_ne by done. split; [by intros [= ?]|]. intros Hrr. apply H6 in Hrr. congruence.
    + rewrite lookup_insert_ne by done. rewrite H6. destruct (decide (slug = in_slug intent)) as [->|Hsn]; [|by rewrite lookup_insert_ne].
      rewrite lookup_insert_eq, Hs. split; [by intros (? & ? & _)|]. intros (r & [= <-] & Hrg). by destruct Hne.
  - intros owner. destruct (H7 owner) as [B1 B2 B3 B4 B5 B6]. eapply account_ok_perm; [by rewrite openings_insert|].
    unfold account. simpl. case_decide as Ho.
    + subst owner. rewrite lookup_insert_eq. simpl. split; csimpl.
      * rewrite B1, Hsl, up_to_succ, Permutation_app_comm. done.
      * done.
      * by constructor.
      * lia.
      * done.
      * done.
    + rewrite lookup_insert_ne by done. simpl. done.
  - intros owner. destruct (H8 owner) as (times & Hp & Ht). destruct (decide (owner = in_owner intent)) as [->|Ho].
    + exists (times ++ [now]). split.
      * rewrite openings_insert by done. simpl. rewrite decide_True by done. csimpl. rewrite <- Hp, Permutation_app_comm. done.
      * rewrite lookup_insert_eq. simpl. apply (times_ok_create _ (rg_last_time s)); [apply H1|done|done|exact Hra].
    + exists times. split.
      * rewrite openings_insert by done. simpl. by rewrite decide_False.
      * rewrite lookup_insert_ne by done. by apply (times_ok_later _ (rg_last_time s)).
  - destruct H12 as (S1 & S2 & S3). rewrite map_size_insert_None by done. split; [lia|]. split; [|done].
    destruct Hacc as [Hsome|Hlt]; [by rewrite map_size_insert_Some|]. rewrite map_size_insert. case_match; simpl; lia.
Qed.

(** An award. *)
Lemma evidence_insert s (reaction : SocialRecord) (view : ControlView) (now : N) (aw : SupportAward) (support : gset (OwnerId * OwnerId * N)) : registry_inv s -> award_accepted s reaction view now aw ->
  rg_support s ⊆ support -> award_key aw ∈ support -> (forall k, k ∈ support -> k = award_key aw \/ k ∈ rg_support s) ->
  (forall id e, <[so_id reaction := mkEvidence aw reaction]> (rg_evidence s) !! id = Some e ->
     so_id (ev_record e) = id /\ aw_evidence (ev_award e) = id /\ aw_source (ev_award e) <> aw_beneficiary (ev_award e) /\ support_key e ∈ support)
  /\ (forall k, k ∈ support -> exists id e, <[so_id reaction := mkEvidence aw reaction]> (rg_evidence s) !! id = Some e /\ support_key e = k)
  /\ N.of_nat (size (<[so_id reaction := mkEvidence aw reaction]> (rg_evidence s))) <= MAX_SUPPORT.
Proof.
  intros Hi [Hn Hs He Hid Hr] Hsub Hin Hk. split_and!.
  - intros id e. destruct (decide (id = so_id reaction)) as [->|Hne].
    + rewrite lookup_insert_eq. intros [= <-]. split; [done|]. split; [done|]. split; [|done]. destruct Hs as (? & ? & Hs). simpl. by destruct_and! Hs.
    + rewrite lookup_insert_ne by done. intros H. destruct (ri_evidence _ Hi _ _ H) as (E1 & E2 & E3 & E4). split_and!; [done|done|done|set_solver].
  - intros k [->|H]%Hk; [exists (so_id reaction), (mkEvidence aw reaction); by rewrite lookup_insert_eq|].
    destruct (ri_support _ Hi _ H) as (id & e & E & <-). exists id, e. rewrite lookup_insert_ne; [done|]. intros <-. congruence.
  - rewrite map_size_insert_None by done. lia.
Qed.

Lemma inv_retained s reaction view now aw : registry_inv s -> award_accepted s reaction view now aw -> award_key aw ∈ rg_support s ->
  registry_inv (retained_award s reaction aw).
Proof.
  intros Hi Ha Hin. destruct (evidence_insert s reaction view now aw (rg_support s)) as (E1 & E2 & E3); [done|done|done|done|by right|].
  destruct Hi as [H1 H2 H3 H4 H5 H6 H7 H8 H9 H10 H11 H12]. split; kept. simpl. destruct H12 as (S1 & S2 & S3 & _ & S5 & S6). done.
Qed.

Lemma inv_credited s reaction view now aw : registry_inv s -> award_accepted s reaction view now aw -> award_key aw ∉ rg_support s ->
  N.of_nat (size (rg_support s)) < MAX_SUPPORT -> is_Some (rg_accounts s !! aw_beneficiary aw) \/ N.of_nat (size (rg_accounts s)) < MAX_OWNERS ->
  registry_inv (credited s reaction aw).
Proof.
  intros Hi Ha Hin Hsz Hacc. destruct (evidence_insert s reaction view now aw ({[award_key aw]} ∪ rg_support s)) as (E1 & E2 & E3); [done|done|set_solver|set_solver| |].
  { intros k [->%elem_of_singleton|?]%elem_of_union; [by left|by right]. }
  destruct Hi as [H1 H2 H3 H4 H5 H6 H7 H8 H9 H10 H11 H12]. split; kept; simpl.
  - intros owner. unfold account. simpl. destruct (H7 owner) as [B1 B2 B3 B4 B5 B6]. destruct (decide (owner = aw_beneficiary aw)) as [->|Hne].
    + rewrite lookup_insert_eq. split; [exact B1|exact B2|exact B3|exact B4|simpl; unfold account in *; lia|].
      simpl. rewrite support_of_insert by done. simpl. rewrite decide_True by done. unfold account in *. lia.
    + rewrite lookup_insert_ne by done. split; [exact B1|exact B2|exact B3|exact B4|exact B5|].
      rewrite support_of_insert by done. simpl. rewrite decide_False by done. exact B6.
  - destruct H12 as (S1 & S2 & S3 & _ & S5 & S6). split; [done|]. split.
    + destruct Hacc as [Hsome|Hlt]; [by rewrite map_size_insert_Some|]. rewrite map_size_insert. case_match; simpl; lia.
    + split; [|done]. rewrite size_union, size_singleton by set_solver. lia.
Qed.

(** Configuration. *)
Lemma size_list_to_set (l : list OwnerId) : N.of_nat (size (list_to_set l : gset OwnerId)) <= len l.
Proof.
  unfold len. induction l as [|x l IH]; simpl; [done|]. destruct (decide (x ∈ (list_to_set l : gset OwnerId))) as [Hx|Hx].
  - rewrite subseteq_union_1_L by set_solver. lia.
  - rewrite size_union, size_singleton by set_solver. lia.
Qed.

Lemma inv_eligible s eligible : registry_inv s -> len eligible <= MAX_OWNERS -> registry_inv (set_eligible_field (list_to_set eligible) s).
Proof.
  intros [H1 H2 H3 H4 H5 H6 H7 H8 H9 H10 H11 H12] Hl. split; kept. simpl. destruct H12 as (S1 & S2 & S3 & S4 & _ & S6).
  pose proof (size_list_to_set eligible). split_and!; try done. lia.
Qed.

#[export] Instance key_le_list_total : Total member_le.
Proof.
  intros a b. unfold member_le. destruct (decide (vm_key a = vm_key b)) as [E|E].
  - destruct (N.le_ge_cases (vm_power a) (vm_power b)); [left|right]; right; split; auto; congruence.
  - destruct (key_le_total (vm_key a) (vm_key b)); [left|right]; left; split; auto; congruence.
Qed.
#[export] Instance member_le_trans : Transitive member_le.
Proof.
  intros a b c [H1|[E1 H1]] [H2|[E2 H2]]; unfold member_le.
  - left. by etrans.
  - left. by rewrite <- E2.
  - left. by rewrite E1.
  - right. split; [congruence|lia].
Qed.

Lemma powers_perm l k : l ≡ₚ k -> powers l = powers k.
Proof. induction 1; simpl; lia. Qed.

Lemma inv_rotated s from validators : registry_inv s -> rotation_accepted s from validators -> registry_inv (rotated s from validators).
Proof.
  intros [H1 H2 H3 H4 H5 H6 H7 H8 H9 H10 H11 H12] [Ha Hc Hr [V1 V2 V3]]. split; kept; simpl.
  - intros f l. destruct (decide (f = from)) as [->|]; [rewrite lookup_insert_eq; intros [= <-]|rewrite lookup_insert_ne by done; apply H11].
    pose proof (merge_sort_Permutation member_le validators) as Hp. split; [unfold len; by rewrite Hp|]. split; [|apply (StronglySorted_merge_sort _)].
    split; [by rewrite Hp|by rewrite Hp|by rewrite (powers_perm _ _ Hp)].
  - destruct H12 as (S1 & S2 & S3 & S4 & S5 & S6). split_and!; try done. rewrite map_size_insert. case_match; simpl; lia.
Qed.

(** An empty directory. *)
Lemma Registry_new_wp directory realm policy eligible s : Registry_new directory realm policy eligible = Ok s ->
  registry_inv s /\ rg_revision s = 0 /\ rg_last_time s = 0.
Proof.
  unfold Registry_new. intros ([] & Hv%policy_validate_iff & H)%res_bind_Ok. destruct (N.ltb_spec MAX_OWNERS (len eligible)); [done|]. simplify_eq.
  split; [|done]. pose proof (size_list_to_set eligible). split; simpl; try done.
  - intros g slug. rewrite lookup_empty. split; [done|]. by intros (? & ? & _).
  - intros owner. unfold account, openings. simpl. rewrite lookup_empty, map_to_list_empty. simpl. split; simpl; try done. lia.
  - intros owner. exists []. unfold openings. rewrite map_to_list_empty. simpl. split; [done|]. rewrite lookup_empty. split; [apply SSorted_nil|by exists []|done|by intros i a b|by apply N.le_0_l].
  - split_and!; try done. lia.
Qed.
End Invariant.
