(* ===== verification/RegistryRuns.v ===== *)
(** Runs of a shared directory: every operation keeps the invariant
    ([RegistryInv]) and extends what came before, in the sense that
    [is_extension_of] tests. *)
From Stdlib Require Import Ascii String.
From stdpp Require Import gmap sorting.
From S2P Require Import Prelude Bytes PrefixFree Wire Signed Utf8 OrderedMap DirectCodec RoomRecords RoomAuthority Registry RegistrySteps RegistryInv.

(** ** Tests over maps and lists *)

Lemma map_all_true {K A} `{Countable K} (f : K -> A -> bool) (m : gmap K A) :
  map_all f m = true <-> forall k x, m !! k = Some x -> f k x = true.
Proof.
  unfold map_all. rewrite forallb_forall. split.
  - intros Hf k x Hk. apply (Hf (k, x)). by apply list_elem_of_In, elem_of_map_to_list.
  - intros Hf [k x] Hk. apply Hf. by apply list_elem_of_In, elem_of_map_to_list in Hk.
Qed.

Lemma starts_with_true {A} `{EqDecision A} (l p : list A) : starts_with l p = true <-> p `prefix_of` l.
Proof.
  unfold starts_with. rewrite bool_decide_eq_true. split.
  - intros ->. exists (drop (length p) l). by rewrite take_drop.
  - intros [k ->]. by rewrite take_app_length.
Qed.

Lemma follows_times_true l k : follows_times l k = true <-> l `prefix_of` k.
Proof.
  revert k. induction l as [|t l IH]; intros k; simpl; [split; [intros; apply prefix_nil|done]|].
  destruct k as [|n k]; [split; [done|by intros ?%prefix_nil_not]|]. rewrite andb_true_iff, N.eqb_eq, IH. split.
  - intros [-> ?]. by apply prefix_cons.
  - intros Hp. split; [by apply prefix_cons_inv_1 in Hp|by apply prefix_cons_inv_2 in Hp].
Qed.

(** ** Extension *)

Definition live (window_seconds last_time : N) (window : list N) : list N :=
  filter (fun t => saturating_sub last_time t < window_seconds) window.

(** The part of a window that still counts is kept, with later times after it. *)
Lemma live_prune w now later times : now <= later -> live w later (prune_window now w times) = live w later times.
Proof.
  intros Hl. unfold live, saturating_sub. destruct (prune_split now w times) as (d & E & Hd). rewrite E at 2. rewrite filter_app.
  assert (Hn : filter (fun t => later - t < w) d = []); [|by rewrite Hn].
  clear E. induction Hd as [|t d Ht Hd IH]; [done|]. rewrite filter_cons, decide_False by lia. exact IH.
Qed.

Section Runs.
Context (sha256 : list N -> list N) `{Hed : Ed25519}.
Implicit Types (s : Registry).

(** A later state of the same directory. *)
Record extends s s' : Prop := {
  ex_context : rg_directory s' = rg_directory s /\ rg_realm s' = rg_realm s /\ rg_policy s' = rg_policy s;
  ex_clock : rg_revision s <= rg_revision s' /\ rg_last_time s <= rg_last_time s';
  ex_support : rg_support s ⊆ rg_support s';
  ex_schedule : forall from l, rg_schedule s !! from = Some l -> rg_schedule s' !! from = Some l;
  ex_chains : forall owner c, ra_chains (rg_authority s) !! owner = Some c ->
    exists c', ra_chains (rg_authority s') !! owner = Some c' /\ oc_history c `prefix_of` oc_history c';
  ex_rooms : forall slug r, rg_rooms s !! slug = Some r -> exists r', rg_rooms s' !! slug = Some r'
    /\ rm_record r' = rm_record r /\ rm_created_at r' = rm_created_at r /\ rm_revisions r `prefix_of` rm_revisions r';
  ex_evidence : rg_evidence s ⊆ rg_evidence s';
  ex_accounts : forall owner a, rg_accounts s !! owner = Some a -> exists a', rg_accounts s' !! owner = Some a'
    /\ ac_earned a <= ac_earned a' /\ ac_spent a <= ac_spent a' /\ ac_lifetime_slots a <= ac_lifetime_slots a';
  ex_windows : forall owner later, rg_last_time s' <= later ->
    live (dp_window_seconds (rg_policy s)) later (default [] (rg_windows s !! owner))
    `prefix_of` live (dp_window_seconds (rg_policy s)) later (default [] (rg_windows s' !! owner));
  ex_same : rg_revision s' = rg_revision s -> rg_last_time s' = rg_last_time s /\ rg_eligible s' = rg_eligible s
    /\ rg_support s' = rg_support s /\ rg_accounts s' = rg_accounts s /\ rg_windows s' = rg_windows s
    /\ ra_records (rg_authority s') = ra_records (rg_authority s) /\ rg_rooms s' = rg_rooms s;
}.

#[export] Instance extends_refl : Reflexive extends.
Proof. intros s. split; try done; [by intros owner c H; exists c|by intros slug r H; exists r|by intros owner a H; exists a]. Qed.

#[export] Instance extends_trans : Transitive extends.
Proof.
  intros a b c [A1 A2 A3 A4 A5 A6 A7 A8 A9 A10] [B1 B2 B3 B4 B5 B6 B7 B8 B9 B10]. split.
  - destruct_and!. split_and!; congruence.
  - lia.
  - set_solver.
  - auto.
  - intros owner x H. destruct (A5 _ _ H) as (y & Hy & P1). destruct (B5 _ _ Hy) as (z & Hz & P2). exists z. split; [done|by etrans].
  - intros slug r H. destruct (A6 _ _ H) as (y & Hy & E1 & E2 & P1). destruct (B6 _ _ Hy) as (z & Hz & E3 & E4 & P2). exists z.
    split_and!; [done|congruence|congruence|by etrans].
  - by etrans.
  - intros owner x H. destruct (A8 _ _ H) as (y & Hy & ? & ? & ?). destruct (B8 _ _ Hy) as (z & Hz & ? & ? & ?). exists z. split; [done|lia].
  - intros owner later Hl. destruct A1 as (_ & _ & Ep). etrans; [apply A9; lia|]. rewrite <- Ep. by apply B9.
  - intros E. destruct A10 as (? & ? & ? & ? & ? & ? & ?); [lia|]. destruct B10 as (? & ? & ? & ? & ? & ? & ?); [lia|].
    split_and!; congruence.
Qed.

(** What [is_extension_of] answers of a later state: it asks for a later
    revision, or for new evidence. *)
Lemma is_extension_iff s s' : extends s s' -> registry_inv sha256 s' ->
  is_extension_of s' s = true <-> rg_revision s < rg_revision s' \/ (size (rg_evidence s) < size (rg_evidence s'))%nat.
Proof.
  intros [(E1 & E2 & E3) [E4 E5] E6 E7 E8 E9 E10 E11 E12 E13] Hi. unfold is_extension_of.
  rewrite E1, E2, E3, !bool_decide_true, N.eqb_refl, !(proj2 (N.leb_le _ _)) by done. simpl.
  assert (Hsch : map_all (fun from set => bool_decide (rg_schedule s' !! from = Some set)) (rg_schedule s) = true).
  { apply map_all_true. intros from l H. apply bool_decide_true. auto. }
  assert (Hch : map_all (fun owner chain => match ra_chains (rg_authority s') !! owner with
       | Some next => starts_with (oc_history next) (oc_history chain) | None => false end) (ra_chains (rg_authority s)) = true).
  { apply map_all_true. intros owner c H. destruct (E8 _ _ H) as (c' & -> & Hp). by apply starts_with_true. }
  assert (Hro : map_all (fun slug room => match rg_rooms s' !! slug with
       | Some next => bool_decide (rm_record next = rm_record room) && (rm_created_at next =? rm_created_at room)
                      && starts_with (rm_revisions next) (rm_revisions room)
                      && negb ((rg_revision s' =? rg_revision s) && negb (length (rm_revisions next) =? length (rm_revisions room))%nat)
       | None => false end) (rg_rooms s) = true).
  { apply map_all_true. intros slug r H. destruct (E9 _ _ H) as (r' & Hr' & R1 & R2 & R3). rewrite Hr', bool_decide_true by done.
    rewrite R2, N.eqb_refl, (proj2 (starts_with_true _ _) R3). simpl. destruct (N.eqb_spec (rg_revision s') (rg_revision s)) as [E|]; [|done].
    destruct (E13 E) as (_ & _ & _ & _ & _ & _ & Er). rewrite Er in Hr'. simplify_eq. by rewrite Nat.eqb_refl. }
  assert (Hev : map_all (fun id evidence => match rg_evidence s' !! id with
       | Some next => bool_decide (ev_award next = ev_award evidence) && bool_decide (ev_record next = ev_record evidence)
       | None => false end) (rg_evidence s) = true).
  { apply map_all_true. intros id e H. rewrite (lookup_weaken _ _ _ _ H E10). by rewrite !bool_decide_true. }
  assert (Hac : map_all (fun owner account => match rg_accounts s' !! owner with
       | Some next => (ac_earned account <=? ac_earned next) && (ac_spent account <=? ac_spent next)
                      && (ac_lifetime_slots account <=? ac_lifetime_slots next)
       | None => false end) (rg_accounts s) = true).
  { apply map_all_true. intros owner a H. destruct (E11 _ _ H) as (a' & -> & H1 & H2 & H3). by rewrite !(proj2 (N.leb_le _ _)). }
  assert (Hwi : map_all (fun owner window => follows_times (live (dp_window_seconds (rg_policy s)) (rg_last_time s') window)
       (live (dp_window_seconds (rg_policy s)) (rg_last_time s') (default [] (rg_windows s' !! owner)))) (rg_windows s) = true).
  { apply map_all_true. intros owner w H. apply follows_times_true. pose proof (E12 owner _ (N.le_refl _)) as Hp. by rewrite H in Hp. }
  unfold live in Hwi. rewrite Hsch, Hch, Hro, Hev, Hac, Hwi. simpl. rewrite !andb_true_r.
  destruct (N.eqb_spec (rg_revision s') (rg_revision s)) as [E|]; simpl; [|split; [lia|done]].
  destruct (E13 E) as (T1 & T2 & T3 & T4 & T5 & T6 & T7). unfold same_state. rewrite T1, T2, T3, T4, T5, T6, T7, !bool_decide_true, !N.eqb_refl, Nat.eqb_refl by done. simpl.
  assert (Hsu : map_all (fun _ e => bool_decide (support_key e ∈ rg_support s)) (rg_evidence s') = true).
  { apply map_all_true. intros id e H. apply bool_decide_true. rewrite <- T3. by apply (ri_evidence _ _ Hi) in H as (_ & _ & _ & H). }
  rewrite Hsu, andb_true_r, negb_true_iff, Nat.leb_gt. rewrite E. lia.
Qed.

(** ** Each change extends *)

Lemma live_app w later times x : live w later times `prefix_of` live w later (times ++ [x]).
Proof. unfold live. rewrite filter_app. by apply prefix_app_r. Qed.

(** An accepted change, and the clock: the conditions that are left when the
    revision is a new one. *)
Lemma extends_ticked now s s1 : rg_last_time s <= now -> rg_revision s1 = rg_revision s ->
  rg_directory s1 = rg_directory s /\ rg_realm s1 = rg_realm s /\ rg_policy s1 = rg_policy s ->
  rg_support s ⊆ rg_support s1 -> (forall from l, rg_schedule s !! from = Some l -> rg_schedule s1 !! from = Some l) ->
  (forall owner c, ra_chains (rg_authority s) !! owner = Some c ->
    exists c', ra_chains (rg_authority s1) !! owner = Some c' /\ oc_history c `prefix_of` oc_history c') ->
  (forall slug r, rg_rooms s !! slug = Some r -> exists r', rg_rooms s1 !! slug = Some r'
    /\ rm_record r' = rm_record r /\ rm_created_at r' = rm_created_at r /\ rm_revisions r `prefix_of` rm_revisions r') ->
  rg_evidence s ⊆ rg_evidence s1 ->
  (forall owner a, rg_accounts s !! owner = Some a -> exists a', rg_accounts s1 !! owner = Some a'
    /\ ac_earned a <= ac_earned a' /\ ac_spent a <= ac_spent a' /\ ac_lifetime_slots a <= ac_lifetime_slots a') ->
  (forall owner later, now <= later -> live (dp_window_seconds (rg_policy s)) later (default [] (rg_windows s !! owner))
    `prefix_of` live (dp_window_seconds (rg_policy s)) later (default [] (rg_windows s1 !! owner))) ->
  extends s (ticked now s1).
Proof. intros Hn Hr. split; try done; simpl; [lia|lia]. Qed.

Ltac same_map := let H := fresh in intros ? ? H; eexists; split; [exact H|done].

Lemma extends_control now s record control : rg_last_time s <= now ->
  extends s (ticked now (set_authority (control_committed sha256 record control (rg_authority s)) s)).
Proof.
  intros Hn. apply extends_ticked; try done; simpl; [|same_map|same_map].
  intros owner c H. destruct (decide (owner = rc_owner control)) as [->|Hne].
  - rewrite lookup_insert_eq. eexists. split; [done|]. unfold chain_of. rewrite H. simpl. by apply prefix_app_r.
  - rewrite lookup_insert_ne by done. by exists c.
Qed.

Lemma extends_existing now s : rg_last_time s <= now -> extends s (ticked now s).
Proof. intros Hn. apply extends_ticked; try done; same_map. Qed.

Lemma extends_created now s record intent view : rg_last_time s <= now -> creation_accepted sha256 s intent view now ->
  extends s (ticked now (created sha256 s record intent now)).
Proof.
  intros Hn [Hg _ _ Hs _ _ [Hsl _] _ _ _]. apply extends_ticked; try done; simpl; [same_map| | |].
  - intros slug r H. exists r. rewrite lookup_insert_ne by congruence. done.
  - intros owner a H. destruct (decide (owner = in_owner intent)) as [->|Hne].
    + rewrite lookup_insert_eq. eexists. split; [done|]. unfold account in *. rewrite H in *. simpl in *. lia.
    + rewrite lookup_insert_ne by done. by exists a.
  - intros owner later Hl. destruct (decide (owner = in_owner intent)) as [->|Hne].
    + rewrite lookup_insert_eq. simpl. unfold rate_window. etrans; [|apply live_app]. by rewrite live_prune.
    + by rewrite lookup_insert_ne.
Qed.

Lemma extends_revised now s record x view slug room : rg_last_time s <= now -> revision_accepted s x view now slug room ->
  extends s (ticked now (revised sha256 s record x slug room)).
Proof.
  intros Hn [_ Hs Hr _ _ _ _]. apply extends_ticked; try done; simpl; [same_map| |same_map].
  intros slug' r H. destruct (decide (slug' = slug)) as [->|Hne].
  - rewrite lookup_insert_eq. eexists. split; [done|]. simplify_eq. split_and!; try done. by apply prefix_app_r.
  - rewrite lookup_insert_ne by done. by exists r.
Qed.

Lemma evidence_subseteq s reaction view now aw : award_accepted s reaction view now aw ->
  rg_evidence s ⊆ <[so_id reaction := mkEvidence aw reaction]> (rg_evidence s).
Proof. intros [H _ _ _ _]. by apply insert_subseteq. Qed.

Lemma extends_retained s reaction view now aw : award_accepted s reaction view now aw -> extends s (retained_award s reaction aw).
Proof. intros Ha. split; try done; [same_map|same_map|by eapply evidence_subseteq|same_map]. Qed.

Lemma extends_credited now s reaction view aw : rg_last_time s <= now -> award_accepted s reaction view now aw ->
  extends s (ticked now (credited s reaction aw)).
Proof.
  intros Hn Ha. apply extends_ticked; try done; simpl; [set_solver|same_map|same_map|by eapply evidence_subseteq|].
  intros owner a H. destruct (decide (owner = aw_beneficiary aw)) as [->|Hne].
  - rewrite lookup_insert_eq. eexists. split; [done|]. unfold account. rewrite H. simpl. lia.
  - rewrite lookup_insert_ne by done. by exists a.
Qed.

Lemma extends_eligible now s eligible : rg_last_time s <= now -> extends s (ticked now (set_eligible_field eligible s)).
Proof. intros Hn. apply extends_ticked; try done; same_map. Qed.

Lemma extends_rotated now s from validators : rg_last_time s <= now -> rotation_accepted s from validators ->
  extends s (ticked now (rotated s from validators)).
Proof.
  intros Hn [Ha _ _ _]. apply extends_ticked; try done; simpl; [|same_map|same_map|same_map].
  intros f l H. rewrite lookup_insert_ne; [done|]. intros <-. assert (from < from) by (apply Ha; by eexists). lia.
Qed.

Lemma extends_opened owner s s' : opened_for owner s s' -> extends s s'.
Proof.
  intros (a' & Ho & ->). destruct Ho as [|E]; [by destruct s|]. split; try done; simpl; [|same_map|same_map].
  intros o c H. rewrite lookup_insert_ne by congruence. by exists c.
Qed.

(** ** Operations in sequence *)

Inductive DirectoryOp : Type :=
| OpApply (record : RoomVerifiedRecord) (view : ControlView) (now : N)
| OpAward (reaction : SocialRecord) (view : ControlView) (now : N)
| OpEligible (eligible : list OwnerId) (now : N)
| OpRotation (from : N) (validators : list ValidatorMember) (now : N).

Definition directory_op (op : DirectoryOp) : eff Registry RegistryError (option Applied) :=
  match op with
  | OpApply record view now => let! a := apply sha256 record view now in ret (Some a)
  | OpAward reaction view now => let! a := award reaction view now in ret (Some a)
  | OpEligible eligible now => do! set_eligible eligible now in ret None
  | OpRotation from validators now => do! apply_rotation from validators now in ret None
  end.

(** Calls in sequence, also after refusals. *)
Definition directory_run (s : Registry) (ops : list DirectoryOp) : Registry := fold_left (fun s op => snd (directory_op op s)) ops s.

(** What a refused operation leaves. *)
Definition op_refused (op : DirectoryOp) s s' : Prop :=
  s' = s \/ exists record view now control, op = OpApply record view now /\ rv_body record = BodyControl control /\ opened_for (rc_owner control) s s'.

(** What every operation, accepted or refused, keeps and extends; it never panics. *)
Lemma directory_op_wp op s : registry_inv sha256 s -> rg_revision s < 2 ^ 64 - 1 ->
  wp (directory_op op) (fun _ s' => registry_inv sha256 s' /\ extends s s' /\ rg_revision s' <= rg_revision s + 1)
    (fun _ s' => registry_inv sha256 s' /\ extends s s' /\ op_refused op s s') s.
Proof.
  intros Hi Hr. pose proof (account_bounded _ _ Hi) as Hb. assert (Hsame : registry_inv sha256 s /\ extends s s /\ op_refused op s s) by (split_and!; [done|done|by left]).
  destruct op as [record view now|reaction view now|eligible now|from validators now]; cbn [directory_op]; wp_step.
  - eapply wp_mono; [by apply apply_wp| |].
    + intros a s' (Hn & s1 & He & ->). wp_step. destruct He as [control Eb H1 H2 H3 H4|intent Eb H1|intent Eb H1|x slug room Eb H1].
      * split; [apply inv_ticked; [done|by apply inv_control]|]. split; [by apply extends_control|done].
      * split; [by apply inv_ticked|]. split; [by apply extends_existing|done].
      * split; [by eapply inv_created|]. split; [by eapply extends_created|done].
      * split; [apply inv_ticked; [done|by eapply inv_revised]|]. split; [by eapply extends_revised|done].
    + intros e s' [->|(control & Eb & Ho)]; [done|]. split; [by eapply inv_opened|]. split; [by eapply extends_opened|].
      right. by exists record, view, now, control.
  - eapply wp_mono; [by apply award_wp| |by intros e s' ->].
    intros a s' (Hn & He). wp_step. destruct He as [H1|aw H1 H2|aw H1 H2 H3 H4].
    + split; [done|]. split; [done|lia].
    + split; [by eapply inv_retained|]. split; [by eapply extends_retained|simpl; lia].
    + split; [apply inv_ticked; [done|by eapply inv_credited]|]. split; [by eapply extends_credited|done].
  - eapply wp_mono; [by apply set_eligible_wp| |by intros e s' ->]. intros [] s' (Hn & Hl & ->). wp_step.
    split; [apply inv_ticked; [done|by apply inv_eligible]|]. split; [by apply extends_eligible|done].
  - eapply wp_mono; [by apply apply_rotation_wp| |by intros e s' ->]. intros [] s' (Hn & Hl & ->). wp_step.
    split; [apply inv_ticked; [done|by apply inv_rotated]|]. split; [by apply extends_rotated|done].
Qed.

Lemma op_refused_revision op s s' : op_refused op s s' -> rg_revision s' = rg_revision s.
Proof. intros [->|(r & v & n & c & _ & _ & a' & _ & ->)]; done. Qed.

Lemma directory_run_ok ops s : registry_inv sha256 s -> rg_revision s + len ops < 2 ^ 64 ->
  registry_inv sha256 (directory_run s ops) /\ extends s (directory_run s ops)
  /\ rg_revision (directory_run s ops) <= rg_revision s + len ops.
Proof.
  revert s. induction ops as [|op ops IH]; intros s Hi Hr; [simpl; split; [done|]; split; [done|unfold len; simpl; lia]|].
  assert (Hl : len (op :: ops) = len ops + 1) by (unfold len; simpl; lia). rewrite Hl in *. cbn [directory_run fold_left].
  pose proof (directory_op_wp op s Hi ltac:(lia)) as Hwp. unfold wp in Hwp.
  assert (H : registry_inv sha256 (snd (directory_op op s)) /\ extends s (snd (directory_op op s)) /\ rg_revision (snd (directory_op op s)) <= rg_revision s + 1).
  { destruct (directory_op op s) as [[a|e|] s']; simpl; [done| |done]. destruct Hwp as (? & ? & Hop%op_refused_revision). split_and!; [done|done|lia]. }
  destruct H as (Hi' & He & Hr'). destruct (IH _ Hi') as (J1 & J2 & J3); [lia|]. split; [done|]. split; [by etrans|]. unfold directory_run in J3. lia.
Qed.

(** The agreed time at which an operation is applied. *)
Definition op_time (op : DirectoryOp) : N :=
  match op with OpApply _ _ now | OpAward _ _ now | OpEligible _ now | OpRotation _ _ now => now end.

Lemma op_clock op s : op_time op < rg_last_time s -> directory_op op s = (Err GClock, s).
Proof.
  intros Ht. destruct op as [record view now|reaction view now|eligible now|from validators now]; simpl in Ht;
    unfold directory_op, apply, award, set_eligible, apply_rotation, bind, get, throw; by rewrite (proj2 (N.ltb_lt _ _)).
Qed.

Lemma op_outcome op s : registry_inv sha256 s -> rg_revision s < 2 ^ 64 - 1 ->
  wp (directory_op op)
    (fun _ s' => rg_last_time s <= op_time op /\
       (rg_last_time s' = op_time op /\ rg_revision s' = rg_revision s + 1 \/
        exists evidence, rg_evidence s ⊆ evidence /\ s' = set_credit (rg_support s) evidence (rg_accounts s) s))
    (fun _ s' => op_refused op s s') s.
Proof.
  intros Hi Hr. pose proof (account_bounded _ _ Hi) as Hb.
  destruct op as [record view now|reaction view now|eligible now|from validators now]; cbn [directory_op op_time]; wp_step.
  - eapply wp_mono; [by apply apply_wp| |].
    + intros a s' (Hn & s1 & He & ->). wp_step. split; [done|]. left. split; [done|]. by destruct He.
    + intros e s' [->|(control & Eb & Ho)]; [by left|]. right. by exists record, view, now, control.
  - eapply wp_mono; [by apply award_wp| |by intros e s' ->; left]. intros a s' (Hn & He). wp_step. split; [done|].
    destruct He as [H1|aw H1 H2|aw H1 H2 H3 H4]; [right|right|by left].
    + exists (rg_evidence s). split; [done|]. by destruct s.
    + eexists. split; [by eapply evidence_subseteq|done].
  - eapply wp_mono; [by apply set_eligible_wp| |by intros e s' ->; left]. intros [] s' (Hn & Hl & ->). wp_step. split; [done|by left].
  - eapply wp_mono; [by apply apply_rotation_wp| |by intros e s' ->; left]. intros [] s' (Hn & Hl & ->). wp_step. split; [done|by left].
Qed.
End Runs.
