(* ===== verification/RoomClaims.v ===== *)
(** Properties of the shared room directory ([RoomRecords], [RoomAuthority],
    [Registry]). *)
From Stdlib Require Import Ascii String.
From stdpp Require Import gmap sorting.
From S2P Require Import Prelude Bytes PrefixFree Wire Signed Utf8 OrderedMap DirectCodec RoomRecords RoomFacts.
From S2P Require Import RoomAuthority Registry RegistrySteps RegistryInv RegistryRuns.

(** ** A toy directory *)

#[local] Existing Instance toy_ed25519.

Definition toy_directory : DirectoryId := replicate 32 9.
Definition toy_room_policy : DirectoryPolicy := mkDirectoryPolicy 1 100 2 10 3.
Definition toy_owner_key : list N := verifying_key [1].
Definition toy_agent_key : list N := verifying_key [2].
Definition toy_room_owner : OwnerId := replicate 32 1.
Definition toy_room_agent : AgentId := replicate 32 2.
Definition toy_supporter : OwnerId := replicate 32 3.
Definition toy_basis : SocialId := replicate 32 4.

(** A reaction of the supporter to a post of the owner. *)
Definition toy_post : SocialRecord := mkSocialRecord (replicate 32 5) [5] (SocialPost toy_room_owner).
Definition toy_reaction : SocialRecord := mkSocialRecord (replicate 32 6) [6] (SocialReaction toy_supporter (so_id toy_post) true).
Definition toy_view : ControlView :=
  mkControlView {[toy_room_owner := mkOwnerStatus (Some toy_basis) (Some toy_owner_key) false false false]}
    {[toy_room_agent := mkAgentStatus toy_room_owner toy_agent_key false true]} (fun _ => true) (fun _ => Committed)
    (fun id => if decide (id = so_id toy_post) then Some toy_post else None).

Definition toy_empty_directory : Registry :=
  mkRegistry toy_directory 7 toy_room_policy (RoomAuthority_new toy_directory 7) {[toy_supporter]} ∅ ∅ ∅ ∅ ∅ ∅ ∅ 0 0.

(** The owner has one credit. *)
Definition toy_credit : DirectoryOp := OpAward toy_reaction toy_view 50.
Definition toy_credited : Registry := directory_run poly_hash toy_empty_directory [toy_credit].

(** It grants its agent a room, and the agent proposes it. *)
Definition toy_grant_body : RoomControl :=
  mkRoomControl toy_directory 7 toy_room_owner toy_basis toy_owner_key None 0
    (GrantCreate toy_room_agent toy_agent_key 1000 5 (replicate 32 8)).
Definition toy_grant_record : RoomSignedRecord :=
  let b := BodyControl toy_grant_body in mkRoomSigned b (sign_bytes [1] (CONTROL_SIGN ++ room_record_id poly_hash b)) None.
Definition toy_grant : RoomVerifiedRecord := mkRoomVerified toy_grant_record.
Definition toy_slug : Slug := bytes_of "main-hall".
Definition toy_intent : CreationIntent :=
  let grant := room_record_id poly_hash (BodyControl toy_grant_body) in
  mkIntent toy_directory 7 (policy_id poly_hash toy_room_policy) (replicate 32 11) toy_room_owner toy_basis toy_owner_key
    toy_room_agent toy_agent_key grant grant toy_slug (mkDescription (bytes_of "A hall")) 1 1 1000 (replicate 32 12).
Definition toy_creation : RoomVerifiedRecord :=
  mkRoomVerified (mkRoomSigned (BodyCreate toy_intent) (sign_bytes [1] (owner_transcript poly_hash toy_intent))
    (Some (sign_bytes [2] (agent_transcript poly_hash toy_intent)))).
Definition toy_ops : list DirectoryOp := [toy_credit; OpApply toy_grant toy_view 60; OpApply toy_creation toy_view 70].

Lemma toy_new : Registry_new toy_directory 7 toy_room_policy [toy_supporter] = Ok toy_empty_directory.
Proof. vm_compute. reflexivity. Qed.

Lemma toy_empty_inv : registry_inv poly_hash toy_empty_directory.
Proof. exact (proj1 (Registry_new_wp poly_hash _ _ _ _ _ toy_new)). Qed.

Lemma toy_credited_inv : registry_inv poly_hash toy_credited.
Proof. exact (proj1 (directory_run_ok poly_hash [toy_credit] toy_empty_directory toy_empty_inv eq_refl)). Qed.

Lemma toy_standing : owner_standing toy_view toy_room_owner toy_basis toy_owner_key
  /\ agent_standing toy_view toy_room_owner toy_room_agent toy_agent_key.
Proof. split; eexists; (split; [apply lookup_singleton_eq|done]). Qed.

(** ** Records *)

(** C29. The record decoder accepts exactly the canonical encodings of
    well-formed, checked records and never panics; every such record encodes
    within the size bound; a record verifies exactly if each of its roles (the
    controller, or owner and agent of a creation) signed the transcript of its
    role with a usable key; identifiers bind their content, and a transcript is
    of one role and one content, up to a collision of the hash on what was
    hashed for the two. *)
Theorem room_record_exact sha256 {Hsha : Sha256 sha256} `{Hed : Ed25519} :
  (forall raw s, Forall byte raw -> room_decode raw = Ok s <-> signed_ok s /\ raw = room_encode s) /\
  (forall raw p, Forall byte raw -> permit_decode raw = Ok p <-> permit_ok p /\ raw = permit_encode p) /\
  (forall raw, Forall byte raw -> room_decode raw <> Panic) /\
  (forall s, signed_ok s -> Forall byte (room_encode s) /\ len (room_encode s) <= MAX_ROOM_RECORD_BYTES) /\
  (forall s v, signed_ok s -> room_verify sha256 s = Ok v <-> v = mkRoomVerified s /\ Forall role_signed (roles sha256 s)) /\
  (forall a b, body_typed a -> body_typed b -> room_record_id sha256 a = room_record_id sha256 b ->
     a = b \/ collides sha256 (room_record_preimage a) (room_record_preimage b)) /\
  (forall i j, intent_typed i -> intent_typed j -> genesis_id sha256 i = genesis_id sha256 j ->
     i = j \/ collides sha256 (genesis_preimage i) (genesis_preimage j)) /\
  (forall s t, role_typed s -> role_typed t -> transcript_bytes sha256 s = transcript_bytes sha256 t ->
     s = t \/ collides sha256 (role_preimage s) (role_preimage t)).
Proof.
  split_and!.
  - apply room_decode_iff.
  - apply permit_decode_iff.
  - apply room_decode_total.
  - apply room_encode_bytes.
  - apply room_verify_iff.
  - apply record_id_bound.
  - apply genesis_id_bound.
  - by apply transcript_bound.
Qed.

Lemma toy_grant_ok : signed_ok toy_grant_record.
Proof.
  assert (E : room_decode (room_encode toy_grant_record) = Ok toy_grant_record) by (vm_compute; reflexivity).
  apply room_decode_iff in E; [by apply E|]. apply (bool_decide_unpack _). vm_compute. exact I.
Qed.

Lemma room_record_exact_witness : room_verify poly_hash toy_grant_record = Ok toy_grant
  /\ room_decode (room_encode toy_grant_record) = Ok toy_grant_record.
Proof.
  destruct (room_record_exact poly_hash) as (Hd & _ & _ & He & Hv & _). split.
  - apply (Hv toy_grant_record toy_grant toy_grant_ok). split; [reflexivity|]. apply Forall_singleton.
    split; [vm_compute; reflexivity|]. split; [vm_compute; reflexivity|]. eexists. split; [reflexivity|]. vm_compute. reflexivity.
  - apply (Hd (room_encode toy_grant_record)); [exact (proj1 (He _ toy_grant_ok))|]. split; [exact toy_grant_ok|reflexivity].
Defined.

(** ** Invariant *)

Lemma slots_cost policy n : 6 * N_sum (slot_cost policy <$> up_to n) = dp_base_cost policy * (n * (n + 1) * (2 * n + 1)).
Proof.
  induction n as [|n IH] using N.peano_ind; [change (up_to 0) with (@nil N); cbn; lia|]. rewrite <- N.add_1_r, up_to_succ, fmap_app. unfold N_sum in *. rewrite foldr_app. simpl.
  assert (Hf : forall l a, foldr N.add a l = foldr N.add 0 l + a) by (intros l a; induction l as [|x l IHl]; simpl; [lia|rewrite IHl; lia]).
  rewrite Hf, N.mul_add_distr_l, IH. unfold slot_cost. ring.
Qed.

Lemma spent_closed policy support opened owner a : account_ok policy support opened owner a ->
  6 * ac_spent a = dp_base_cost policy * (ac_lifetime_slots a * (ac_lifetime_slots a + 1) * (2 * ac_lifetime_slots a + 1)).
Proof.
  intros [H1 _ H3 H4 _ _]. rewrite <- slots_cost, H4. f_equal.
  assert (E : in_charge ∘ fst <$> opened = slot_cost policy <$> (in_slot ∘ fst <$> opened)).
  { rewrite <- list_fmap_compose. by apply Forall_fmap_ext. }
  rewrite E. apply N_sum_perm. by rewrite H1.
Qed.

(** C14. After any sequence of operations, accepted or refused, of a new
    directory: every owner's rooms took the slots 1 to n in some order at the
    quadratic price, the owner spent exactly their sum, at most what it earned,
    which is the number of distinct supports it was given; between a creation
    and the [max_in_window]-th next of an owner passes a whole window; every
    room is the replay of its own revisions, each by its owner on the head
    before it while the room was open, and every control chain that of its
    records; rooms are found by slug and by genesis alike; awards and evidence
    agree; rotations are of usable sets; and all sizes are within capacity. *)
Theorem directory_sound sha256 `{Hed : Ed25519} directory realm policy eligible s0 ops
    (Hnew : Registry_new directory realm policy eligible = Ok s0) (Hops : len ops < 2 ^ 64) :
  let s := directory_run sha256 s0 ops in
  registry_inv sha256 s /\
  (forall owner, let n := ac_lifetime_slots (account s owner) in
     6 * ac_spent (account s owner) = dp_base_cost (rg_policy s) * (n * (n + 1) * (2 * n + 1))) /\
  (forall slug r, rg_rooms s !! slug = Some r -> room_by_genesis s (rm_genesis r) = Some r) /\
  rg_directory s = directory /\ rg_realm s = realm /\ rg_policy s = policy.
Proof.
  intros s. destruct (Registry_new_wp sha256 _ _ _ _ _ Hnew) as (Hi0 & Hr0 & _).
  destruct (directory_run_ok sha256 ops s0 Hi0) as (Hi & He & _); [by rewrite Hr0|]. fold s in Hi, He. split; [exact Hi|]. split; [|split].
  - intros owner n. exact (spent_closed _ _ _ _ _ (ri_accounts _ _ Hi owner)).
  - intros slug r Hr. unfold room_by_genesis. rewrite (proj2 (ri_genesis _ _ Hi (rm_genesis r) slug)) by by exists r. exact Hr.
  - destruct (ex_context _ _ He) as (-> & -> & ->). unfold Registry_new in Hnew. apply res_bind_Ok in Hnew as (_ & _ & H).
    destruct (_ <? _); [done|]. by simplify_eq.
Qed.

Lemma directory_sound_witness :
  let s := directory_run poly_hash toy_empty_directory toy_ops in
  registry_inv poly_hash s /\ size (rg_rooms s) = 1%nat /\ account s toy_room_owner = mkAccount 1 1 1.
Proof.
  destruct (directory_sound poly_hash _ _ _ _ _ toy_ops toy_new eq_refl) as (Hi & _).
  split; [exact Hi|]. split; vm_compute; reflexivity.
Defined.

(** ** Creation *)

(** C20. Applying a creation record: a genesis already in the directory is
    reported as existing, and only the clock and the revision advance;
    otherwise the room is created exactly if the policy, the signers' standing,
    the open grant, the free slug, the capacities, the next slot, its price,
    the credit and the rate all admit_control it, with exactly its effect on the
    account, the window, the rooms and the index; in every other case it is
    refused and the directory is as it was. *)
Theorem creation_exact sha256 `{Hed : Ed25519} s record intent view now (Hi : registry_inv sha256 s) (Hr : rg_revision s < 2 ^ 64 - 1)
    (Hb : rv_body record = BodyCreate intent) :
  (forall s', apply sha256 record view now s = (Ok (Existing (genesis_id sha256 intent)), s') <->
     rg_last_time s <= now /\ is_Some (rg_by_genesis s !! genesis_id sha256 intent) /\ s' = ticked now s) /\
  (forall s', apply sha256 record view now s = (Ok (Created (genesis_id sha256 intent)), s') <->
     rg_last_time s <= now /\ creation_accepted sha256 s intent view now /\ s' = ticked now (created sha256 s record intent now)) /\
  (forall a s', apply sha256 record view now s = (Ok a, s') ->
     a = Existing (genesis_id sha256 intent) \/ a = Created (genesis_id sha256 intent)) /\
  (fst (apply sha256 record view now s) <> Panic) /\
  (forall e s', apply sha256 record view now s = (Err e, s') -> s' = s).
Proof.
  pose proof (account_bounded _ _ Hi) as Hbd. pose proof (apply_wp sha256 record view now s Hbd Hr) as Hwp. unfold wp in Hwp. split_and!.
  - intros s'. split; [|intros (H1 & H2 & ->); by apply apply_existing_run]. intros E. rewrite E in Hwp.
    destruct Hwp as (Hn & s1 & He & ->). inversion He as [|j Ej Hj| |]; simplify_eq. by rewrite Hb in Ej; injection Ej as <-.
  - intros s'. split; [|intros (H1 & H2 & ->); by apply apply_created_run]. intros E. rewrite E in Hwp.
    destruct Hwp as (Hn & s1 & He & ->). inversion He as [| |j Ej Hj|]; simplify_eq. rewrite Hb in Ej. by injection Ej as <-.
  - intros a s' E. rewrite E in Hwp. destruct Hwp as (Hn & s1 & He & ->). inversion He as [? Ej|j Ej|j Ej|? ? ? Ej]; simplify_eq; rewrite Hb in Ej; simplify_eq; auto.
  - by destruct (apply sha256 record view now s) as [[]].
  - intros e s' E. rewrite E in Hwp. destruct Hwp as [->|(control & Ec & _)]; [done|congruence].
Qed.

Definition toy_granted : Registry := directory_run poly_hash toy_credited [OpApply toy_grant toy_view 60].

Lemma toy_granted_inv : registry_inv poly_hash toy_granted.
Proof. exact (proj1 (directory_run_ok poly_hash [OpApply toy_grant toy_view 60] toy_credited toy_credited_inv eq_refl)). Qed.

Lemma toy_creation_accepted : creation_accepted poly_hash toy_granted toy_intent toy_view 70.
Proof.
  destruct toy_standing as [Ho Ha]. split; try (vm_compute; reflexivity).
  - split; [split; vm_compute; reflexivity|exact Ho|exact Ha|vm_compute; reflexivity| |vm_compute; reflexivity].
    eexists. split; [vm_compute; reflexivity|]. split; [reflexivity|]. split; [reflexivity|]. split; [reflexivity|]. by vm_compute.
  - left. vm_compute. by eexists.
  - split; [vm_compute; reflexivity|by vm_compute].
  - by vm_compute.
Qed.

Lemma creation_exact_witness : apply poly_hash toy_creation toy_view 70 toy_granted
  = (Ok (Created (genesis_id poly_hash toy_intent)), ticked 70 (created poly_hash toy_granted toy_creation toy_intent 70)).
Proof.
  destruct (creation_exact poly_hash toy_granted toy_creation toy_intent toy_view 70 toy_granted_inv eq_refl eq_refl) as (_ & Hc & _).
  apply Hc. split; [by vm_compute|]. split; [exact toy_creation_accepted|reflexivity].
Defined.

(** ** Extension *)

(** C3. Of two states of one directory, the later extends the earlier by the
    test that a store makes before it replaces a snapshot exactly if its
    revision is greater or it holds more evidence: nothing that the operations
    do between them is ever mistaken for a rollback or a fork. *)
Theorem directory_extends sha256 `{Hed : Ed25519} directory realm policy eligible s0 ops more
    (Hnew : Registry_new directory realm policy eligible = Ok s0) (Hops : len (ops ++ more) < 2 ^ 64) :
  let s := directory_run sha256 s0 ops in
  let s' := directory_run sha256 s more in
  is_extension_of s' s = true <-> rg_revision s < rg_revision s' \/ (size (rg_evidence s) < size (rg_evidence s'))%nat.
Proof.
  intros s s'. destruct (Registry_new_wp sha256 _ _ _ _ _ Hnew) as (Hi0 & Hr0 & _).
  assert (Hl : len (ops ++ more) = len ops + len more) by (unfold len; rewrite length_app; lia).
  destruct (directory_run_ok sha256 ops s0 Hi0) as (Hi & _ & Hr); [rewrite Hr0; lia|]. fold s in Hi, Hr. rewrite Hr0 in Hr.
  destruct (directory_run_ok sha256 more s Hi) as (Hi' & He & _); [lia|]. by apply (is_extension_iff sha256).
Qed.

Lemma directory_extends_witness :
  is_extension_of (directory_run poly_hash toy_credited [OpApply toy_grant toy_view 60]) toy_credited = true.
Proof.
  apply (directory_extends poly_hash _ _ _ _ _ [toy_credit] [OpApply toy_grant toy_view 60] toy_new eq_refl). left. vm_compute. reflexivity.
Defined.

(** ** Refusals *)

(** C7. No operation on a directory panics. One before the agreed clock is
    refused as such. One that is accepted moves the clock and the revision
    together, or adds only evidence of support that already counted. One that
    is refused leaves the directory as it was, except that a refused control
    record of an owner without a chain leaves that owner an empty chain. *)
Theorem directory_refusals sha256 `{Hed : Ed25519} s op (Hi : registry_inv sha256 s) (Hr : rg_revision s < 2 ^ 64 - 1) :
  (op_time op < rg_last_time s -> directory_op sha256 op s = (Err GClock, s)) /\
  match directory_op sha256 op s with
  | (Ok _, s') =>
      rg_last_time s <= op_time op /\
      (rg_last_time s' = op_time op /\ rg_revision s' = rg_revision s + 1 \/
       exists evidence, rg_evidence s ⊆ evidence /\ s' = set_credit (rg_support s) evidence (rg_accounts s) s)
  | (Err _, s') =>
      s' = s \/ exists record view now control, op = OpApply record view now /\ rv_body record = BodyControl control /\
        ra_chains (rg_authority s) !! rc_owner control = None /\
        s' = set_authority (set_chain (rc_owner control) empty_chain (rg_authority s)) s
  | (Panic, _) => False
  end.
Proof.
  split; [apply op_clock|]. pose proof (op_outcome sha256 op s Hi Hr) as H. unfold wp in H. destruct (directory_op sha256 op s) as [[a|e|] s']; [exact H| |exact H].
  destruct H as [->|(record & view & now & control & Eo & Eb & a' & Ho & ->)]; [by left|].
  destruct Ho as [|Hn]; [left; by destruct s|right]. by exists record, view, now, control.
Qed.

(** A control record out of sequence, of an owner without a chain: it is
    refused, and the commitment to the inputs of an admission is another. *)
Definition toy_early : RoomVerifiedRecord :=
  mkRoomVerified (mkRoomSigned (BodyControl (mkRoomControl toy_directory 7 toy_room_owner toy_basis toy_owner_key (Some toy_basis) 1
    (RevokeGrant toy_basis))) [] None).

Lemma directory_refusals_witness :
  match directory_op poly_hash (OpApply toy_early toy_view 60) toy_credited with
  | (Err e, s') =>
      e = GAuthority DPrevious /\ s' = set_authority (set_chain toy_room_owner empty_chain (rg_authority toy_credited)) toy_credited /\
      control_preimage (rg_authority s') toy_view <> control_preimage (rg_authority toy_credited) toy_view
  | _ => False
  end.
Proof.
  destruct (directory_refusals poly_hash toy_credited (OpApply toy_early toy_view 60) toy_credited_inv eq_refl) as [_ H].
  assert (Ef : fst (directory_op poly_hash (OpApply toy_early toy_view 60) toy_credited) = Err (GAuthority DPrevious)) by (vm_compute; reflexivity).
  assert (Es : size (ra_chains (rg_authority (snd (directory_op poly_hash (OpApply toy_early toy_view 60) toy_credited)))) = 1%nat) by (vm_compute; reflexivity).
  destruct (directory_op poly_hash (OpApply toy_early toy_view 60) toy_credited) as [[a|e|] s']; [discriminate Ef| |exact H].
  injection Ef as ->. split; [reflexivity|]. destruct H as [->|(record & view & now & control & [= <- <- <-] & [= <-] & _ & ->)]; [vm_compute in Es; discriminate Es|].
  split; [reflexivity|]. vm_compute. discriminate.
Defined.

(** ** Progress *)

Section Flow.
Context (sha256 : list N -> list N) `{Hed : Ed25519} {Hlaws : Ed25519Laws Hed}.

(** The grant of an owner to its agent, next of its chain, and the creation
    that the grant and the quote admit_control. *)
Definition flow_control (s : Registry) (owner : OwnerId) (basis : SocialId) (owner_key : list N) (agent : AgentId) (agent_key : list N)
    (expires charge : N) (nonce : list N) : RoomControl :=
  mkRoomControl (rg_directory s) (rg_realm s) owner basis owner_key (oc_head (chain_of (rg_authority s) owner))
    (oc_sequence (chain_of (rg_authority s) owner)) (GrantCreate agent agent_key expires charge nonce).
Definition flow_intent (s : Registry) (c : RoomControl) (settings : SettingsId) (agent : AgentId) (agent_key : list N) (slug : Slug)
    (description : Description) (slot cost expires : N) (nonce : list N) : CreationIntent :=
  let grant := room_record_id sha256 (BodyControl c) in
  mkIntent (rg_directory s) (rg_realm s) (policy_id sha256 (rg_policy s)) settings (rc_owner c) (rc_social_control c) (rc_controller_key c)
    agent agent_key grant grant slug description slot cost expires nonce.

Lemma chain_start directory realm owner c : chain_ok sha256 directory realm owner c ->
  (oc_sequence c =? 0) = bool_decide (oc_head c = None).
Proof.
  intros [-> _]. simpl. destruct (oc_history c) as [|x l _] using rev_ind; [done|]. rewrite last_snoc. simpl.
  apply N.eqb_neq. unfold len. rewrite length_app. simpl. lia.
Qed.

(** An owner with credit has an account. *)
Lemma funded_account s owner : 0 < ac_earned (account s owner) -> is_Some (rg_accounts s !! owner).
Proof. unfold account. destruct (rg_accounts s !! owner); simpl; [by eexists|lia]. Qed.

Lemma usable_key seed : is_weak (verifying_key seed) = false -> checked_room_key (verifying_key seed) = Ok (verifying_key seed).
Proof. intros Hw. unfold checked_room_key. by rewrite verifying_key_valid, Hw. Qed.

Lemma own_signature seed message : is_weak (verifying_key seed) = false ->
  verify_signature (verifying_key seed) message (sign_bytes seed message) = Ok tt.
Proof. intros Hw. apply verify_signature_Ok. by rewrite verifying_key_valid, verify_sign. Qed.

Lemma control_sign_run c seed : rc_controller_key c = verifying_key seed -> is_weak (verifying_key seed) = false -> check_control c = Ok tt ->
  exists record, (let? r := control_sign sha256 c seed in room_verify sha256 r) = Ok record /\ rv_body record = BodyControl c.
Proof.
  intros Ek Hw Hc. unfold control_sign, require_signer. rewrite Hc, Ek, bool_decide_true by done. simpl. unfold room_verify. simpl.
  rewrite Ek, own_signature by done. simpl. by eexists.
Qed.

Lemma proposal_run i owner_seed agent_seed : in_owner_key i = verifying_key owner_seed -> in_agent_key i = verifying_key agent_seed ->
  is_weak (verifying_key owner_seed) = false -> is_weak (verifying_key agent_seed) = false -> check_intent i = Ok tt ->
  exists record, (let? p := permit_sign sha256 i owner_seed in let? v := permit_verify sha256 p in
                  let? r := propose sha256 v agent_seed in room_verify sha256 r) = Ok record /\ rv_body record = BodyCreate i.
Proof.
  intros Eo Ea Ho Ha Hc. unfold permit_sign, require_signer. rewrite Hc, Eo, bool_decide_true by done. simpl. unfold permit_verify. simpl.
  rewrite Eo, own_signature by done. simpl. unfold propose, require_signer. simpl. rewrite Ea, bool_decide_true by done. simpl.
  unfold room_verify. simpl. rewrite Eo, own_signature by done. simpl. rewrite Ea, own_signature by done. simpl. by eexists.
Qed.
End Flow.

(** C21. The directory serves its owners: an owner in good standing, with the
    credit for its next room and room under the rate and the capacities,
    signs a grant for its agent, which is accepted; the permit it signs for the
    quoted slot and price is verified by the agent, whose proposal is accepted;
    and the room is then found by its slug and by its genesis. *)
Theorem directory_progress sha256 `{Hed : Ed25519} {Hlaws : Ed25519Laws Hed} s view now owner_seed agent_seed owner agent basis settings slug description
    slot cost expires nonce
    (Hi : registry_inv sha256 s) (Hr : rg_revision s < 2 ^ 64 - 2) (Ht : rg_last_time s <= now < expires)
    (Hk : is_weak (verifying_key owner_seed) = false /\ is_weak (verifying_key agent_seed) = false) (Hn : nonce <> ZERO)
    (Ho : owner_standing view owner basis (verifying_key owner_seed)) (Ha : agent_standing view owner agent (verifying_key agent_seed))
    (Hq : quote s owner = Ok (slot, cost)) (Hc : ac_spent (account s owner) + cost <= ac_earned (account s owner))
    (Hw : len (rate_window s owner now) < dp_max_in_window (rg_policy s))
    (Hf : rg_rooms s !! slug = None /\ N.of_nat (size (rg_rooms s)) < MAX_ROOMS /\ ra_records (rg_authority s) < MAX_CONTROL_RECORDS) :
  let c := flow_control s owner basis (verifying_key owner_seed) agent (verifying_key agent_seed) expires cost nonce in
  let i := flow_intent sha256 s c settings agent (verifying_key agent_seed) slug description slot cost expires nonce in
  rg_by_genesis s !! genesis_id sha256 i = None ->
  exists grant creation s1 s2,
    (let? r := control_sign sha256 c owner_seed in room_verify sha256 r) = Ok grant /\
    apply sha256 grant view now s = (Ok AppliedControl, s1) /\
    (let? p := permit_sign sha256 i owner_seed in let? v := permit_verify sha256 p in
     let? r := propose sha256 v agent_seed in room_verify sha256 r) = Ok creation /\
    apply sha256 creation view now s1 = (Ok (Created (genesis_id sha256 i)), s2) /\
    exists room, rg_rooms s2 !! slug = Some room /\ room_by_genesis s2 (genesis_id sha256 i) = Some room /\
      rm_intent room = i /\ rm_description room = description /\ rm_archived room = false.
Proof.
  intros c i Hg. destruct Hk as [Hko Hka]. destruct Hf as (Hslug & Hrooms & Hrecords). pose proof (account_bounded _ _ Hi) as Hb.
  unfold quote in Hq. apply res_bind_Ok in Hq as (n & Hs & Hq). destruct (checked_add 32 _ 1) as [n'|] eqn:Es; simpl in Hs; simplify_eq.
  apply checked_add_iff in Es as [Es _]. apply res_bind_Ok in Hq as (v & Hp & [= <- <-]). apply policy_cost_iff in Hp as (Hs1 & Hs2 & _ & ->).
  pose proof (rb_policy _ Hb) as Hpol.
  assert (Hpos : 0 < slot_cost (rg_policy s) n) by (unfold slot_cost; destruct Hpol; apply N.mul_pos_pos; [apply N.mul_pos_pos|]; lia).
  assert (Hcheck : check_control c = Ok tt).
  { unfold check_control, c, flow_control. cbn [rc_controller_key rc_sequence rc_previous rc_action]. rewrite !usable_key by done. cbn [res_bind].
    rewrite (chain_start sha256 _ _ _ _ (chain_of_ok sha256 s owner Hi)), eqb_reflx. cbn [negb].
    rewrite !(proj2 (N.eqb_neq _ _)), bool_decide_false by (done || lia). done. }
  assert (Hicheck : check_intent i = Ok tt).
  { unfold check_intent. change (in_owner_key i) with (verifying_key owner_seed). change (in_agent_key i) with (verifying_key agent_seed).
    change (in_slot i) with n. change (in_charge i) with (slot_cost (rg_policy s) n). change (in_expires_at i) with expires. change (in_nonce i) with nonce.
    rewrite !usable_key by done. cbn [res_bind]. rewrite !(proj2 (N.eqb_neq _ _)), bool_decide_false by (done || lia). done. }
  destruct (control_sign_run sha256 c owner_seed) as (grant & Hgrant & Hgb); [done|done|done|].
  destruct (proposal_run sha256 i owner_seed agent_seed) as (creation & Hcreation & Hcb); [done|done|done|done|done|].
  destruct (ri_scope _ _ Hi) as [Hd Hre].
  assert (Happly : apply sha256 grant view now s = (Ok AppliedControl, ticked now (set_authority (control_committed sha256 grant c (rg_authority s)) s))).
  { apply (apply_control_run sha256 grant c view now s Hgb Hb); [lia|lia| |apply in_scope_true; by split|exact Hrecords|].
    - split; [exact (proj2 (owner_status_iff _ _ _ _) Ho)|]. split; [exact (proj2 (agent_status_iff _ _ _ _) Ha)|lia].
    - split; [reflexivity|]. split; [reflexivity|exact I]. }
  pose proof (directory_op_wp sha256 (OpApply grant view now) s Hi ltac:(lia)) as Hwp. unfold wp in Hwp. cbn [directory_op] in Hwp.
  unfold bind in Hwp. rewrite Happly in Hwp. cbn in Hwp. destruct Hwp as (Hi1 & _). set (s1 := ticked now _) in *.
  assert (Hid : rv_id sha256 grant = room_record_id sha256 (BodyControl c)) by (unfold rv_id; by rewrite Hgb).
  assert (Hchain : chain_of (rg_authority s1) owner = chain_next sha256 grant c (chain_of (rg_authority s) owner)).
  { unfold s1, chain_of, control_committed. simpl. by rewrite lookup_insert_eq. }
  assert (Hacc : creation_accepted sha256 s1 i view now).
  { split; [exact Hg|reflexivity| |exact Hslug|exact Hrooms|left; apply (funded_account s owner); lia|split; [exact Es|apply Hs1]|reflexivity|exact Hc|exact Hw].
    split; [by split|exact Ho|exact Ha| | |apply Ht]; change (in_owner i) with owner; rewrite Hchain; cbn [chain_next oc_head oc_grants]; rewrite Hid; [reflexivity|].
    eexists. split; [apply lookup_insert_eq|]. split; [reflexivity|]. split; [reflexivity|]. split; [apply Ht|reflexivity]. }
  exists grant, creation, s1, (ticked now (created sha256 s1 creation i now)). split; [exact Hgrant|]. split; [exact Happly|]. split; [exact Hcreation|]. split.
  - apply (apply_created_run sha256 creation i view now s1 Hcb (account_bounded _ _ Hi1)); [change (rg_revision s1) with (rg_revision s + 1); lia|reflexivity|exact Hacc].
  - exists (new_room sha256 creation i now). unfold room_by_genesis. cbn [ticked set_clock_revision created set_rooms rg_rooms rg_by_genesis].
    rewrite !lookup_insert_eq. cbn. rewrite lookup_insert_eq. done.
Qed.

Lemma directory_progress_witness :
  exists grant creation s1 s2 genesis room, apply poly_hash grant toy_view 60 toy_credited = (Ok AppliedControl, s1) /\
    apply poly_hash creation toy_view 60 s1 = (Ok (Created genesis), s2) /\ rg_rooms s2 !! toy_slug = Some room.
Proof.
  destruct toy_standing as [Ho Ha].
  destruct (directory_progress poly_hash (Hlaws := toy_laws) toy_credited toy_view 60 [1] [2] toy_room_owner toy_room_agent toy_basis (replicate 32 11)
    toy_slug (mkDescription (bytes_of "A hall")) 1 1 1000 (replicate 32 8) toy_credited_inv)
    as (grant & creation & s1 & s2 & _ & H1 & _ & H2 & room & H3 & _).
  - reflexivity.
  - split; [by vm_compute|reflexivity].
  - split; vm_compute; reflexivity.
  - discriminate.
  - exact Ho.
  - exact Ha.
  - vm_compute. reflexivity.
  - by vm_compute.
  - vm_compute. reflexivity.
  - split; [vm_compute; reflexivity|]. split; vm_compute; reflexivity.
  - vm_compute. reflexivity.
  - eexists _, _, _, _, _, room. split; [exact H1|]. split; [exact H2|exact H3].
Defined.
